(* ===== verification/_CoqProject ===== *)
-Q . S2P
Prelude.v
Bytes.v
Sha256.v
World.v
TrieEncoding.v
AccountDB.v
AccountDBTheorems.v
AccountDBPersist.v
AccountDBCommit.v
Types.v
TxHash.v
MinerBase.v
StakeBounds.v
MinerOps.v
MinerView.v
MinerInv.v
MinerSafe.v
MinerManager.v
MinerTheorems.v
MinerEffects.v
Group.v
Tvm.v
TvmSafe.v
Supply.v
Rewards.v
RewardVerify.v
Checkpoint.v
CheckpointTheorems.v
Govern.v
Present.v
TxValidate.v
Transition.v
TransitionTheorems.v
AddressManager.v
Block.v
Rlp.v
Keccak.v
Trie.v
TrieTheorems.v
TrieNode.v
TrieDatabase.v
TrieHasher.v
TrieCache.v
TrieStore.v
TrieHasherTheorems.v
TrieTrees.v
TrieCommit.v
RlpStream.v
TrieGC.v
TrieGCInv.v
TrieGCSteps.v
TrieGCTheorems.v
TrieGCInsert.v
TrieGCCommit.v
TrieHistory.v
Weight.v
Prque.v
TxCodec.v
ChainStore.v
Chain.v
ChainInv.v
ChainTheorems.v
ChainReader.v
Prune.v
PruneTheorems.v
ChainRepair.v
TxPool.v
TxPoolInv.v
TxPoolTheorems.v
