(* ===== verification/Prelude.v ===== *)
(** * ZVChain: a verified model of the chain's state transition

    ZVChain is a proof-of-stake block chain in Go.  A block carries transactions;
    the state processor ([src/core/state_processor.go]) validates and executes them
    on the account database ([src/storage/account]), pays rewards, and runs the
    checks that end a block.  Transactions move coins, stake them with miners, form
    verifier groups, deploy and call contracts, and change the blacklist.  This
    library models that path, as functions on explicit states, and proves what the
    code guarantees about it.

    ** Conventions

    - [Prelude.v] holds what every file uses: outcomes ([Ok], [Err], [Panic]), the
      state monad [M S E A], the weakest-precondition calculus [wp pn m s Q] (an
      [Ok] result satisfies [Q], a panic is allowed only if [pn]), 64-bit
      arithmetic ([u64_scope]), sums over finite maps.
    - [uint64] values are integers in [0, 2^64) and every operation of the code
      that can wrap is written with its wrap-around; [big.Int] values are [Z].
    - A Go panic is an outcome; theorems say where none can happen.
    - Code outside the repository is a class whose laws are stated beside it:
      msgpack ([Codec]), signatures ([SignEnv], [GroupSigEnv]), the contract
      machine ([TvmLib]), JSON ([Json]), the LRU cache ([LruCache]).  Interfaces
      between the program's own components are classes too ([ChainEnv],
      [RewardEnv], [ValidateEnv], [GroupCreateChecker]).
    - Hash functions are never assumed injective: the two byte strings at hand are
      a collision, or the nodes and roots of the tries at hand are assumed not to
      collide.

    ** Files

    - [Bytes]: fixed-width integers, hexadecimal text, 32-byte hashes and
      addresses ([src/common]); the text of an address reads back as the address.
    - [Sha256]: the hash function of the chain, executable.
    - [World]: the contract of the account database: a finite map of accounts, the
      operations on it and the order in which an account's entries are visited.
    - [AccountDB, AccountDBTheorems]: the account database as implemented
      ([src/storage/account]): objects, cache, dirty marks, journal, [Finalise],
      [Commit]; it refines [World], reverts included.
    - [AccountDBPersist, AccountDBCommit]: what is cached against what is stored;
      a commit followed by opening the new root gives the same world; two ways a
      credit of zero loses data.
    - [Types]: fork heights ([src/params/config.go]), transactions, headers, miner
      records, the payload of a stake-add; codecs as a class with its law and a
      concrete instance.
    - [TxHash]: [GenHash] of a transaction ([src/middleware/types/tx_hashing.go])
      and its injectivity up to a SHA-256 collision.
    - [MinerBase]: the entries of the miner ledger: miners, stake details,
      tickets, votes, pools, guard nodes ([src/core/miner_base.go]).
    - [StakeBounds]: the stake limit and the tickets a pool needs, in closed form.
    - [MinerOps]: the operations of [src/core/miner_operation.go] with the
      identities of [src/core/miner_node.go].
    - [MinerView, MinerInv, MinerSafe]: the ledger as a function of the accounts,
      its invariant [MinerInv S] (balances, stakes and withdrawals add up to the
      supply [S]; stakes are the sums of their details; the proposal total is the
      sum of the active proposers; the pools list the active miners) and its
      preservation by each operation.
    - [MinerManager, MinerTheorems]: the manager ([src/core/miner_manager.go]):
      operations inside snapshots, penalties, the guard-node checks; none panics
      or mints.
    - [MinerEffects]: what each stake operation does, exactly, and that staked
      coins come back.
    - [Group]: verifier groups ([src/core/group]): the transactions of the rounds,
      the chain of groups behind an LRU cache, the manager; the chain stays a
      chain, walking it ends and lists the active groups, skip counters do not
      depend on the order of a map; the cache outlives the state it was filled
      from.
    - [Tvm, TvmSafe]: contracts ([src/tvm]): the controller, the bridge and nested
      calls over an arbitrary machine; a run returns, is confined to contract
      accounts, and keeps what the machine guarantees.
    - [Rewards, RewardVerify]: the reward of a block, its shares, the reward
      transaction ([src/core/rewards_manager.go]) and its verification
      ([src/consensus/logical/processor_misc.go]).
    - [Govern]: the blacklist, its cache and the vote of the guard nodes
      ([src/core/govern.go]).
    - [TxValidate]: which transactions are admitted ([src/core/tx_validate.go]).
    - [Checkpoint, CheckpointTheorems]: epochs and checkpoints
      ([src/middleware/types/epoch.go], [src/core/checkpoint.go]): the checkpoint
      found from the votes in the accounts is the one found from the headers and
      has the quorum behind it.
    - [Supply]: how minting, burning, transfers and contracts change the ledger
      invariant.
    - [Transition, TransitionTheorems]: executing a transaction
      ([src/core/state_processor.go]): an admitted transaction never panics and
      burns exactly its gas, a reward is paid once.  The bridge passes the keys a
      contract writes on unchanged, so with contracts the ledger stays balanced as
      far as the machine keeps to keys of its own ([MeteredLib]); without that
      assumption the balances still sum up.
    - [Present]: accounts are not dropped; [guarded S], the ledger invariant with
      the account the guard-node check iterates.
    - [AddressManager]: the addresses of the chain's own accounts
      ([src/core/address_manager.go]).
    - [Block]: [process], the execution of a block
      ([src/core/state_processor.go]): the loop over the transactions, the rewards
      and the checks; what a block burns and mints.
    - [TrieEncoding]: the three encodings of trie keys
      ([src/storage/trie/encoding.go]).
    - [Rlp]: the byte format of RLP ([src/storage/rlp]): the encoder with its
      deferred list heads writes the encoding of the item, and the splitting
      functions take it apart again.
    - [Keccak]: the sponge and the unrolled permutation ([src/storage/sha3])
      against the textbook definition of Keccak.
    - [Trie, TrieTheorems]: reading, inserting and deleting in the trie
      ([src/storage/trie/trie.go]), nodes being loaded from an environment; what a
      node holds is a function from keys to values and the operations act on it as
      on a map.
    - [TrieNode]: the node codec ([src/storage/trie/node.go]): a node decodes from
      its blob.
    - [TrieDatabase, TrieHasher]: the cache of nodes over the disk
      ([src/storage/trie/database.go]), hashing and committing
      ([src/storage/trie/hasher.go]).
    - [TrieCache, TrieStore, TrieHasherTheorems, TrieTrees, TrieCommit]: what
      cached hashes and flags promise, how the database grows, the hasher against
      the reference hash of a tree, uniqueness of the tree of a map; tries refine
      maps, equal roots are equal maps, a committed trie opens again.
    - [RlpStream]: Go values in RLP ([src/storage/rlp/decode.go], [encode.go]):
      the stream with its look-ahead and its stack of lists, decoders and writers
      by type; what is written is read back.
    - [TrieGC]: dropping references, writing a trie to the disk, capping the
      memory ([src/storage/trie/database.go]).
    - [TrieGCInv, TrieGCSteps, TrieGCTheorems, TrieGCInsert, TrieGCCommit]: the
      flush list as a doubly linked list in order of insertion, counters that are
      exactly the references, contents that are closed under references ([gcW]);
      each operation keeps them, a commit being a sequence of insertions and
      references.
    - [TrieHistory]: what a client does with the node database, call after call,
      and what its books tell about the database: retained and written states
      open, the memory holds exactly what is reachable, as long as the 16-bit
      counters of references have room; what is lost when one wraps around.
    - [Weight]: the hash of a header and the weight of a block
      ([src/middleware/types/core.go]); a total order past the hard forks, a cycle
      across one.
    - [Prque]: the priority queue of states to prune ([src/common/prque]) over
      [container/heap]; it is a bag whose top is an item of the greatest priority.
    - [TxCodec]: the stored body of a block ([src/core/tx_codec.go]) and its round
      trip.
    - [ChainStore, ChainInv]: the stores of the chain and their queries
      ([src/core/blockchain_store.go]); [stored d bs] says that they hold the list
      of blocks [bs], top first, and the queries read that list.
    - [Chain, ChainTheorems]: checking, executing, committing and casting blocks,
      forks and resets ([src/core/blockchain_action.go]); the consensus check, the
      validators, the execution and saving a state are parts that may panic
      ([ChainParts]); an operation returns, or panics where such a part does, and
      keeps the chain a chain; blocks up to the checkpoint stay.
    - [ChainReader]: the queries behind the cache of top blocks
      ([src/core/blockchain_reader.go]).
    - [Prune, PruneTheorems]: saving, retaining, releasing and writing the states
      of blocks ([src/core/blockchain_store.go], [trie_small_db_store.go]); the
      states near the checkpoint and above it open, and so does the written one
      after a restart.
    - [TxPool, TxPoolInv, TxPoolTheorems]: the transaction pool
      ([src/core/transaction_pool.go], [simple_container.go],
      [tx_reward_pool.go]): the senders' lists as a bag, what every operation
      keeps, the order of packing.
    - [ChainRepair]: the last restart point, going back to it, and the repair
      after a power failure ([src/core/blockchain.go]).

    ** Bounds

    Loops over data are structural.  [CallContract] nests through the virtual
    machine; its fuel is [callFuel = MaxDepth + 1] and [TvmSafe.v] shows it is never
    used up.  [walk] follows the chain of groups; any fuel larger than the number
    of groups is enough ([walk_chain]).  The trie operations recurse along the key
    and through unloaded nodes; their fuel [fuelFor] is twice the length of the key
    and the theorems of [TrieCommit.v] show that it is never used up.  Decoding a
    node has the length of its blob as fuel, and so has the loop of the stream decoder
    over the elements of a slice.  The recursions of the node database over its nodes
    ([dereference], [commit], [uncache], [Cap]) have the number of cached nodes as
    fuel, and [database_op_total] shows that it is never used up.

    ** Not modelled

    - the peer-to-peer network, synchronisation, fork handling and the voting
      protocol: concurrent code around sockets and timers;
    - LevelDB and the read caches in front of it: I/O;
    - elliptic-curve and pairing arithmetic: signatures are parameters;
    - the RPC server, the command line, logging, monitoring, generated protobuf
      code.
*)
From stdpp Require Export base tactics list gmap strings fin_maps sorting.
From Stdlib Require Export ZArith Lia.
From Stdlib Require Export Strings.Byte.

Local Open Scope Z_scope.

(** ** Bytes *)

Abbreviation bytes := (list Byte.byte).

#[global] Instance byte_eq_decision : EqDecision Byte.byte := Byte.byte_eq_dec.
#[global] Program Instance byte_countable : Countable Byte.byte :=
  inj_countable Byte.to_N Byte.of_N _.
Next Obligation. apply Byte.of_to_N. Qed.

(** The byte holding the low eight bits of an integer. *)
Definition byte_of_Z (z : Z) : Byte.byte :=
  default Byte.x00 (Byte.of_N (Z.to_N (z mod 256))).
Definition Z_of_byte (b : Byte.byte) : Z := Z.of_N (Byte.to_N b).

Lemma Z_of_byte_range b : 0 <= Z_of_byte b < 256.
Proof.
  unfold Z_of_byte. pose proof (Byte.to_N_bounded b). lia.
Qed.

Lemma Z_of_byte_of_Z z : Z_of_byte (byte_of_Z z) = z mod 256.
Proof.
  unfold Z_of_byte, byte_of_Z.
  pose proof (Z.mod_pos_bound z 256 ltac:(lia)) as Hb.
  destruct (Byte.of_N (Z.to_N (z mod 256))) as [b|] eqn:E; simpl.
  - apply Byte.to_of_N in E. rewrite E. lia.
  - apply Byte.of_N_None_iff in E. lia.
Qed.

Lemma byte_of_Z_of_byte b : byte_of_Z (Z_of_byte b) = b.
Proof.
  pose proof (Z_of_byte_range b) as Hr.
  unfold byte_of_Z. rewrite Z.mod_small by lia.
  unfold Z_of_byte. rewrite N2Z.id, Byte.of_to_N. done.
Qed.

#[global] Instance Z_of_byte_inj : Inj eq eq Z_of_byte.
Proof.
  intros a b H. rewrite <- (byte_of_Z_of_byte a), H. apply byte_of_Z_of_byte.
Qed.

(** ** Unsigned 64-bit arithmetic

    A Go [uint64] is an integer of [0, 2^64); [+], [-], [*] wrap. *)

Definition two64 : Z := 18446744073709551616.
Definition wrap64 (z : Z) : Z := z mod two64.
Definition u64_ok (z : Z) : Prop := 0 <= z < two64.

Declare Scope u64_scope.
Delimit Scope u64_scope with u64.
Notation "a + b" := (wrap64 (a + b)%Z) : u64_scope.
Notation "a - b" := (wrap64 (a - b)%Z) : u64_scope.
Notation "a * b" := (wrap64 (a * b)%Z) : u64_scope.
Notation "a '>>' n" := (Z.shiftr a n) (at level 35) : u64_scope.
Notation "a '<<' n" := (wrap64 (Z.shiftl a n)) (at level 35) : u64_scope.

(** The signed conversions. *)
Definition int64 (z : Z) : Z := (z + 2 ^ 63) mod 2 ^ 64 - 2 ^ 63.
Definition int32 (z : Z) : Z := (z + 2 ^ 31) mod 2 ^ 32 - 2 ^ 31.

Lemma wrap64_ok z : u64_ok (wrap64 z).
Proof. apply Z.mod_pos_bound. reflexivity. Qed.

Lemma wrap64_id z : u64_ok z -> wrap64 z = z.
Proof. intros H. apply Z.mod_small, H. Qed.

Lemma wrap64_add_carry a b :
  u64_ok a -> u64_ok b ->
  wrap64 (a + b) = if bool_decide (a + b < two64) then a + b else a + b - two64.
Proof.
  unfold u64_ok, wrap64. intros Ha Hb. case_bool_decide as Hc.
  - apply Z.mod_small. lia.
  - symmetry. apply (Z.mod_unique_pos _ _ 1); lia.
Qed.

(** The idiom [x + y < x] of the Go code detects exactly the wrap-around. *)
Lemma overflow_check a b :
  u64_ok a -> u64_ok b -> (wrap64 (a + b) < a <-> two64 <= a + b).
Proof.
  intros Ha Hb. rewrite wrap64_add_carry by done.
  unfold u64_ok in *. case_bool_decide; lia.
Qed.

Lemma wrap64_sub_small a b : u64_ok a -> 0 <= b <= a -> wrap64 (a - b) = a - b.
Proof. intros Ha Hb. apply wrap64_id. unfold u64_ok in *. lia. Qed.

Create HintDb zv discriminated.
#[export] Hint Resolve wrap64_ok wrap64_id : zv.

(** ** Outcomes

    A Go function of type [(T, error)] that may also panic. *)

Inductive outcome (E A : Type) : Type :=
| Ok (a : A)
| Err (e : E)
| Panic (msg : string).
Arguments Ok {E A} a.
Arguments Err {E A} e.
Arguments Panic {E A} msg.

(** A computation over a mutable state [S]: the state reached is kept whatever
    the outcome, as a Go function that returns an error leaves its writes. *)
Definition M (S E A : Type) : Type := S -> outcome E A * S.

Section monad.
Context {S E : Type}.

Definition ret {A} (a : A) : M S E A := fun s => (Ok a, s).
Definition fail {A} (e : E) : M S E A := fun s => (Err e, s).
Definition panic {A} (msg : string) : M S E A := fun s => (Panic msg, s).
Definition bind {A B} (m : M S E A) (k : A -> M S E B) : M S E B := fun s =>
  match m s with
  | (Ok a, s') => k a s'
  | (Err e, s') => (Err e, s')
  | (Panic msg, s') => (Panic msg, s')
  end.
Definition get : M S E S := fun s => (Ok s, s).
Definition gets {A} (f : S -> A) : M S E A := fun s => (Ok (f s), s).
Definition modify (f : S -> S) : M S E unit := fun s => (Ok tt, f s).
Definition lift {A} (o : outcome E A) : M S E A := fun s => (o, s).
(** [if !b { return err }] *)
Definition guard (b : bool) (e : E) : M S E unit :=
  if b then ret tt else fail e.

(** A [for range] loop whose body may return early. *)
Fixpoint for_each {A} (l : list A) (body : A -> M S E unit) : M S E unit :=
  match l with
  | [] => ret tt
  | x :: l' => bind (body x) (fun _ => for_each l' body)
  end.
End monad.

(** The same without a state, for code that only reads. *)
Definition obind {E A B} (o : outcome E A) (k : A -> outcome E B) : outcome E B :=
  match o with
  | Ok a => k a
  | Err e => Err e
  | Panic msg => Panic msg
  end.
Definition oguard {E} (b : bool) (e : E) : outcome E unit := if b then Ok tt else Err e.

Declare Scope zv_scope.
Delimit Scope zv_scope with zv.
Notation "x <-! o ;; k" := (obind o (fun x => k))
  (at level 100, o at next level, right associativity) : zv_scope.
Notation "o ;;! k" := (obind o (fun _ => k))
  (at level 100, right associativity) : zv_scope.
Notation "x <- m ;; k" := (bind m (fun x => k))
  (at level 100, m at next level, right associativity) : zv_scope.
Notation "m ;;; k" := (bind m (fun _ => k))
  (at level 100, right associativity) : zv_scope.

Lemma obind_Ok_inv {E A B} (o : outcome E A) (k : A -> outcome E B) b :
  obind o k = Ok b -> exists a, o = Ok a /\ k a = Ok b.
Proof. destruct o; simpl; intros Hk; [eauto|done..]. Qed.

Lemma oguard_Ok_inv {E} b (e : E) u : oguard b e = Ok u -> b = true.
Proof. by destruct b. Qed.

(** ** Running a computation

    [wp pn m s Q]: run from [s], the computation [m] either returns an error, or
    returns a value and a state of which [Q] holds; [pn] says whether it may
    panic ([False]: it does not).  An error carries no claim on the state, as
    the callers of fallible code revert to the state they started from. *)

Definition wp {S E A} (pn : Prop) (m : M S E A) (s : S) (Q : A -> S -> Prop) : Prop :=
  match m s with
  | (Ok a, s') => Q a s'
  | (Err _, _) => True
  | (Panic _, _) => pn
  end.

Lemma run_fst {S E A} (m : M S E A) s o : fst (m s) = o -> m s = (o, snd (m s)).
Proof. intros <-. apply surjective_pairing. Qed.

Section wp.
Context {S E : Type} (pn : Prop).

Lemma wp_ret {A} (a : A) (s : S) Q : Q a s -> wp pn (ret (E:=E) a) s Q.
Proof. done. Qed.
Lemma wp_fail {A} (e : E) (s : S) (Q : A -> S -> Prop) : wp pn (fail e) s Q.
Proof. done. Qed.
Lemma wp_panic {A} g (s : S) (Q : A -> S -> Prop) : pn -> wp pn (panic (E:=E) g) s Q.
Proof. done. Qed.
Lemma wp_gets {A} (f : S -> A) (s : S) Q : Q (f s) s -> wp pn (gets (E:=E) f) s Q.
Proof. done. Qed.
Lemma wp_modify (f : S -> S) (s : S) Q : Q tt (f s) -> wp pn (modify (E:=E) f) s Q.
Proof. done. Qed.
Lemma wp_guard b (e : E) (s : S) Q : (b = true -> Q tt s) -> wp pn (guard b e) s Q.
Proof. destruct b; [intros HQ; by apply HQ|done]. Qed.

Lemma wp_bind {A B} (m : M S E A) (k : A -> M S E B) s Q :
  wp pn m s (fun a s' => wp pn (k a) s' Q) -> wp pn (bind m k) s Q.
Proof. unfold wp, bind. by destruct (m s) as [[a|e|g] s']. Qed.

Lemma wp_mono {A} (m : M S E A) s (Q Q' : A -> S -> Prop) :
  wp pn m s Q -> (forall a s', Q a s' -> Q' a s') -> wp pn m s Q'.
Proof. unfold wp. intros Hm HQ. destruct (m s) as [[a|e|g] s']; auto. Qed.

(** A loop keeps what its body keeps. *)
Lemma wp_for_each {A} (P : S -> Prop) (body : A -> M S E unit) l s :
  (forall x s0, x ∈ l -> P s0 -> wp pn (body x) s0 (fun _ => P)) ->
  P s -> wp pn (for_each l body) s (fun _ => P).
Proof.
  revert s. induction l as [|x l IH]; simpl; intros s Hb Hs; [done|].
  apply wp_bind. eapply wp_mono; [apply Hb; [apply list_elem_of_here|done]|].
  intros ? s1 Hs1. apply IH; [|done]. intros. apply Hb; [by apply list_elem_of_further|done].
Qed.

(** A call seen as its run. *)
Lemma wp_run {A} (m : M S E A) s (Q : A -> S -> Prop) :
  pn -> (forall a s', m s = (Ok a, s') -> Q a s') -> wp pn m s Q.
Proof. unfold wp. intros Hpn HQ. destruct (m s) as [[a|e|g] s']; auto. Qed.

(** What [wp] says of a run that returned. *)
Lemma wp_Ok {A} (m : M S E A) s Q a s' : wp pn m s Q -> m s = (Ok a, s') -> Q a s'.
Proof. unfold wp. intros Hw Em. by rewrite Em in Hw. Qed.
End wp.

Lemma wp_and {S E A} pn (m : M S E A) s Q Q' :
  wp pn m s Q -> wp pn m s Q' -> wp pn m s (fun a s' => Q a s' /\ Q' a s').
Proof. unfold wp. destruct (m s) as [[a|e|g] s']; tauto. Qed.

Lemma wp_weaken {S E A} (m : M S E A) s Q : wp False m s Q -> wp True m s Q.
Proof. unfold wp. destruct (m s) as [[a|e|g] s']; tauto. Qed.

(** A computation that leaves the state as it is, whatever its outcome. *)
Definition readonly {S E A} (m : M S E A) : Prop := forall s, snd (m s) = s.

Section readonly.
Context {S E : Type}.
Lemma readonly_ret {A} (a : A) : readonly (S:=S) (E:=E) (ret a).
Proof. done. Qed.
Lemma readonly_fail {A} (e : E) : readonly (S:=S) (A:=A) (fail e).
Proof. done. Qed.
Lemma readonly_panic {A} g : readonly (S:=S) (E:=E) (A:=A) (panic g).
Proof. done. Qed.
Lemma readonly_gets {A} (f : S -> A) : readonly (E:=E) (gets f).
Proof. done. Qed.
Lemma readonly_guard b (e : E) : readonly (S:=S) (guard b e).
Proof. by destruct b. Qed.
Lemma readonly_bind {A B} (m : M S E A) (k : A -> M S E B) :
  readonly m -> (forall a, readonly (k a)) -> readonly (bind m k).
Proof.
  intros Hm Hk s. unfold bind. specialize (Hm s). destruct (m s) as [[a|e|g] s']; simpl in *; subst; [|done..].
  apply Hk.
Qed.
End readonly.

#[export] Hint Resolve readonly_ret readonly_fail readonly_panic readonly_gets readonly_guard : zv.
Ltac readonly_tac :=
  repeat first
    [ solve [auto with zv]
    | apply readonly_bind; [|intros ?]
    | match goal with |- readonly (match ?x with _ => _ end) => destruct x end ].

(** A property of the state that a computation keeps, whatever its outcome. *)
Definition stable {S E A} (P : S -> Prop) (m : M S E A) : Prop := forall s, P s -> P (snd (m s)).

Section stable.
Context {S E : Type} (P : S -> Prop).
Lemma stable_readonly {A} (m : M S E A) : readonly m -> stable P m.
Proof. intros Hm s. by rewrite Hm. Qed.
Lemma stable_modify (f : S -> S) : (forall s, P s -> P (f s)) -> stable (E:=E) P (modify f).
Proof. done. Qed.
Lemma stable_bind {A B} (m : M S E A) (k : A -> M S E B) :
  stable P m -> (forall a, stable P (k a)) -> stable P (bind m k).
Proof.
  intros Hm Hk s Hs. unfold bind. specialize (Hm s Hs). destruct (m s) as [[a|e|g] s']; simpl in *; [|done..].
  by apply Hk.
Qed.
Lemma stable_for_each {A} (body : A -> M S E unit) l :
  (forall x, stable P (body x)) -> stable P (for_each l body).
Proof. intros Hb. induction l; simpl; [by intros ?|]. by apply stable_bind. Qed.
End stable.

#[export] Hint Resolve stable_readonly : zv.
Ltac stable_tac :=
  repeat first
    [ solve [auto with zv]
    | apply stable_bind; [|intros ?]
    | apply stable_for_each; intros ?
    | match goal with |- stable _ (match ?x with _ => _ end) => destruct x end ].

(** One symbolic step: the monad's operations and the case distinctions of the
    code; a call of a named function is left for its specification. *)
Ltac wstep :=
  lazymatch goal with
  | |- wp _ (ret _) _ _ => apply wp_ret; cbv beta
  | |- wp _ (fail _) _ _ => apply wp_fail
  | |- wp _ (gets _) _ _ => apply wp_gets; cbv beta
  | |- wp _ (modify _) _ _ => apply wp_modify; cbv beta
  | |- wp _ (guard _ _) _ _ => apply wp_guard; let Hg := fresh "Hg" in intros Hg
  | |- wp _ (bind _ _) _ _ => apply wp_bind
  | |- wp _ (match decide ?P with _ => _ end) _ _ => destruct (decide P)
  | |- wp _ (match ?b with _ => _ end) _ _ => destruct b eqn:?
  end.
Ltac wsteps := repeat wstep.

(** ** Lists *)

Lemma filter_none {A} (P : A -> Prop) `{!forall x, Decision (P x)} (l : list A) :
  (forall x, x ∈ l -> ~ P x) -> filter P l = [].
Proof.
  induction l as [|x l IH]; intros Hn; [done|].
  rewrite filter_cons_False by (apply Hn, list_elem_of_here).
  apply IH. intros y Hy. apply Hn. by apply list_elem_of_further.
Qed.

Lemma filter_all {A} (P : A -> Prop) `{!forall x, Decision (P x)} (l : list A) : (forall x, x ∈ l -> P x) -> filter P l = l.
Proof. induction l as [|x l IH]; intros Hl; [done|]. rewrite filter_cons_True by (apply Hl; left). f_equal. apply IH. intros y Hy. apply Hl. by right. Qed.

Lemma filter_ext_in {A} (P Q : A -> Prop) `{!forall a, Decision (P a)} `{!forall a, Decision (Q a)} (l : list A) :
  (forall a, a ∈ l -> P a <-> Q a) -> filter P l = filter Q l.
Proof.
  induction l as [|a l IH]; intros HPQ; [done|]. rewrite !filter_cons, IH by (intros a' Ha'; apply HPQ; by right).
  specialize (HPQ a ltac:(left)). destruct (decide (P a)), (decide (Q a)); tauto.
Qed.

Lemma StronglySorted_filter {A} (R : relation A) (P : A -> Prop) `{!forall x, Decision (P x)} l :
  StronglySorted R l -> StronglySorted R (filter P l).
Proof.
  induction 1 as [|x l Hs IH Hall]; [constructor|]. rewrite filter_cons. case_decide; [|done].
  constructor; [done|]. rewrite Forall_forall in *. intros y Hy. apply list_elem_of_filter in Hy as [_ Hy]. auto.
Qed.

(** ** Sums over finite maps *)

Section map_sum.
Context `{Countable K} {A : Type}.
Implicit Types (m : gmap K A) (f : K -> A -> Z).

Definition map_sum f m : Z := map_fold (fun k x acc => f k x + acc) 0 m.

Lemma map_sum_empty f : map_sum f ∅ = 0.
Proof. apply map_fold_empty. Qed.

Lemma map_sum_insert_new f m k x :
  m !! k = None -> map_sum f (<[k:=x]> m) = f k x + map_sum f m.
Proof. intros Hk. unfold map_sum. rewrite map_fold_insert_L; [done|lia|done]. Qed.

Lemma map_sum_delete f m k :
  map_sum f (delete k m) = map_sum f m - from_option (f k) 0 (m !! k).
Proof.
  destruct (m !! k) as [x|] eqn:Hk; simpl.
  - unfold map_sum. rewrite (map_fold_delete_L _ 0 k x m); [lia|intros; lia|done].
  - rewrite delete_id by done. lia.
Qed.

Lemma map_sum_insert f m k x :
  map_sum f (<[k:=x]> m) = map_sum f m - from_option (f k) 0 (m !! k) + f k x.
Proof.
  rewrite <- insert_delete_eq, map_sum_insert_new by apply lookup_delete_eq.
  rewrite map_sum_delete. lia.
Qed.

Lemma map_sum_ext f g m :
  (forall k x, m !! k = Some x -> f k x = g k x) -> map_sum f m = map_sum g m.
Proof.
  intros Hfg. induction m as [|k x m Hk IH] using map_ind.
  - by rewrite !map_sum_empty.
  - rewrite !map_sum_insert_new by done. f_equal.
    + apply Hfg. apply lookup_insert_eq.
    + apply IH. intros j y Hj. apply Hfg. rewrite lookup_insert_ne; [done|].
      intros ->. congruence.
Qed.

Lemma map_sum_nonneg f m :
  (forall k x, m !! k = Some x -> 0 <= f k x) -> 0 <= map_sum f m.
Proof.
  intros Hf. induction m as [|k x m Hk IH] using map_ind.
  - by rewrite map_sum_empty.
  - rewrite map_sum_insert_new by done.
    assert (0 <= f k x) by (apply Hf, lookup_insert_eq).
    assert (0 <= map_sum f m); [|lia].
    apply IH. intros j y Hj. apply Hf. rewrite lookup_insert_ne; [done|].
    intros ->. congruence.
Qed.

Lemma map_sum_le f g m :
  (forall k x, m !! k = Some x -> f k x <= g k x) -> map_sum f m <= map_sum g m.
Proof.
  intros Hfg. assert (0 <= map_sum (fun k x => g k x - f k x) m) as Hn.
  { apply map_sum_nonneg. intros k x Hk. specialize (Hfg k x Hk). lia. }
  enough (map_sum (fun k x => g k x - f k x) m = map_sum g m - map_sum f m) by lia.
  clear Hfg Hn. induction m as [|k x m Hk IH] using map_ind.
  - by rewrite !map_sum_empty.
  - rewrite !map_sum_insert_new by done. lia.
Qed.

Lemma map_sum_single (g : A -> Z) m k0 :
  map_sum (fun k x => if bool_decide (k = k0) then g x else 0) m = from_option g 0 (m !! k0).
Proof.
  induction m as [|k x m Hk IH] using map_ind.
  - rewrite map_sum_empty. by rewrite lookup_empty.
  - rewrite map_sum_insert_new, IH, lookup_insert by done.
    case_decide as E; case_bool_decide; try done.
    subst. rewrite Hk. simpl. lia.
Qed.

Lemma map_sum_add f g m :
  map_sum (fun k x => f k x + g k x) m = map_sum f m + map_sum g m.
Proof.
  induction m as [|k x m Hk IH] using map_ind; [by rewrite !map_sum_empty|].
  rewrite !map_sum_insert_new, IH by done. lia.
Qed.

Lemma map_sum_lookup_le f m k x :
  (forall j y, m !! j = Some y -> 0 <= f j y) ->
  m !! k = Some x -> f k x <= map_sum f m.
Proof.
  intros Hf Hk.
  assert (0 <= map_sum f (delete k m)) as Hd.
  { apply map_sum_nonneg. intros j y Hj. apply lookup_delete_Some in Hj as [_ Hj]. eauto. }
  rewrite map_sum_delete, Hk in Hd. simpl in Hd. lia.
Qed.
End map_sum.
