(* ===== verification/Bytes.v ===== *)
(** * Bytes: the byte-level conventions of package [common]

    Models [src/common/bytes.go], [src/common/data_convert.go] and the address
    and hash types of [src/common/types.go]: fixed 32-byte values, big-endian
    integer encodings and the hexadecimal text form of addresses.  A Go string
    is its sequence of bytes. *)
From S2P Require Import Prelude.
Local Open Scope Z_scope.

(** ** Big-endian integers ([encoding/binary] with [binary.BigEndian]) *)

Module BigEndian.

Fixpoint put (n : nat) (z : Z) : bytes :=
  match n with
  | O => []
  | S m => put m (z / 256) ++ [byte_of_Z z]
  end.

Definition read (bs : bytes) : Z :=
  fold_left (fun acc b => acc * 256 + Z_of_byte b) bs 0.

Lemma put_length n z : length (put n z) = n.
Proof.
  revert z. induction n as [|n IH]; intros z; simpl; [done|].
  rewrite length_app, IH. simpl. lia.
Qed.

Lemma read_snoc bs b : read (bs ++ [b]) = read bs * 256 + Z_of_byte b.
Proof. unfold read. by rewrite fold_left_app. Qed.

Lemma read_range bs : 0 <= read bs < 256 ^ Z.of_nat (length bs).
Proof.
  induction bs as [|b bs IH] using rev_ind; [done|].
  rewrite read_snoc, length_app. simpl length.
  pose proof (Z_of_byte_range b).
  replace (Z.of_nat (length bs + 1)) with (Z.succ (Z.of_nat (length bs))) by lia.
  rewrite Z.pow_succ_r by lia. lia.
Qed.

Lemma read_put n z : read (put n z) = z mod 256 ^ Z.of_nat n.
Proof.
  revert z. induction n as [|n IH]; intros z.
  - simpl. by rewrite Z.mod_1_r.
  - simpl put. rewrite read_snoc, IH, Z_of_byte_of_Z.
    replace (Z.of_nat (S n)) with (Z.succ (Z.of_nat n)) by lia.
    rewrite Z.pow_succ_r by lia.
    rewrite Z.rem_mul_r by lia. lia.
Qed.

Lemma put_read bs : put (length bs) (read bs) = bs.
Proof.
  induction bs as [|b bs IH] using rev_ind; [done|].
  rewrite length_app, read_snoc. simpl.
  rewrite Nat.add_comm. simpl. pose proof (Z_of_byte_range b) as Hb.
  rewrite Z.div_add_l, (Z.div_small (Z_of_byte b)), Z.add_0_r, IH by lia.
  f_equal. f_equal. unfold byte_of_Z.
  rewrite Z.add_comm, Z_mod_plus_full, Z.mod_small by lia.
  unfold Z_of_byte. by rewrite N2Z.id, Byte.of_to_N.
Qed.

End BigEndian.

Definition Uint64ToByte (i : Z) : bytes := BigEndian.put 8 i.
Definition UInt16ToByte (i : Z) : bytes := BigEndian.put 2 i.
Definition Int32ToByte (i : Z) : bytes := BigEndian.put 4 i.

(** [binary.Read] into a zero variable: on a short buffer the error is dropped
    and the variable keeps its zero; the bytes past the width are not read. *)
Definition bytesToNumber (width : nat) (b : bytes) : Z :=
  if decide (width <= length b)%nat then BigEndian.read (take width b) else 0.
Definition ByteToUInt64 (b : bytes) : Z := bytesToNumber 8 b.
Definition ByteToUInt16 (b : bytes) : Z := bytesToNumber 2 b.

(** [binary.BigEndian.Uint64], which panics on a short slice. *)
Definition ByteToUint64 {E} (bs : bytes) : outcome E Z :=
  if decide (8 <= length bs)%nat then Ok (BigEndian.read (take 8 bs))
  else Panic "index out of range".

Lemma bytesToNumber_put n z :
  bytesToNumber n (BigEndian.put n z) = z mod 256 ^ Z.of_nat n.
Proof.
  unfold bytesToNumber. rewrite BigEndian.put_length.
  destruct (decide (n <= n)%nat); [|lia].
  rewrite take_ge by (rewrite BigEndian.put_length; lia).
  apply BigEndian.read_put.
Qed.

Lemma ByteToUInt64_Uint64ToByte i : u64_ok i -> ByteToUInt64 (Uint64ToByte i) = i.
Proof.
  intros Hi. unfold ByteToUInt64, Uint64ToByte. rewrite bytesToNumber_put.
  apply Z.mod_small, Hi.
Qed.

Lemma ByteToUInt64_ok b : u64_ok (ByteToUInt64 b).
Proof.
  unfold ByteToUInt64, bytesToNumber. case_decide as Hd; [|done].
  pose proof (BigEndian.read_range (take 8 b)) as Hr.
  rewrite length_take, Nat.min_l in Hr by lia. exact Hr.
Qed.

Lemma Uint64ToByte_not_nil i : Uint64ToByte i <> [].
Proof.
  intros H. apply (f_equal length) in H. unfold Uint64ToByte in H.
  by rewrite BigEndian.put_length in H.
Qed.

#[export] Hint Resolve ByteToUInt64_ok : zv.

(** ** 32-byte values: [common.Address] and [common.Hash] *)

Record B32 := mkB32 {
  b32_bytes : bytes;
  b32_len : bool_decide (length b32_bytes = 32%nat) = true
}.
Abbreviation Address := B32.
Abbreviation Hash := B32.

Lemma b32_length (a : B32) : length (b32_bytes a) = 32%nat.
Proof. exact (bool_decide_eq_true_1 _ (b32_len a)). Qed.

Lemma b32_eq (a b : B32) : b32_bytes a = b32_bytes b -> a = b.
Proof.
  destruct a as [x Hx], b as [y Hy]; simpl. intros <-. f_equal.
  apply Eqdep_dec.UIP_dec. apply Bool.bool_dec.
Qed.

#[global] Instance b32_bytes_inj : Inj eq eq b32_bytes.
Proof. intros a b. apply b32_eq. Qed.

#[global] Instance b32_eq_dec : EqDecision B32 := fun a b =>
  match decide (b32_bytes a = b32_bytes b) with
  | left H => left (b32_eq a b H)
  | right H => right (fun E => H (f_equal b32_bytes E))
  end.

(** [SetBytes]: the last 32 bytes of a long input, a short one left-padded. *)
Definition setBytes (b : bytes) : bytes :=
  let b' := if decide (32 < length b)%nat then drop (length b - 32) b else b in
  replicate (32 - length b') Byte.x00 ++ b'.

Lemma setBytes_len b : length (setBytes b) = 32%nat.
Proof.
  unfold setBytes. rewrite length_app, length_replicate.
  case_decide; [rewrite length_drop|]; lia.
Qed.

Definition BytesToB32 (b : bytes) : B32 :=
  mkB32 (setBytes b) (bool_decide_eq_true_2 _ (setBytes_len b)).
Definition BytesToAddress (b : bytes) : Address := BytesToB32 b.
Definition BytesToHash (b : bytes) : Hash := BytesToB32 b.

Lemma setBytes_id b : length b = 32%nat -> setBytes b = b.
Proof.
  intros Hb. unfold setBytes. destruct (decide _); [lia|]. by rewrite Hb.
Qed.

Lemma BytesToAddress_bytes (a : Address) : BytesToAddress (b32_bytes a) = a.
Proof. apply b32_eq. simpl. apply setBytes_id, b32_length. Qed.

Lemma BytesToHash_bytes b : length b = 32%nat -> b32_bytes (BytesToHash b) = b.
Proof. intros Hb. apply setBytes_id, Hb. Qed.

#[global] Program Instance b32_countable : Countable B32 :=
  inj_countable b32_bytes (fun b => Some (BytesToB32 b)) _.
Next Obligation. intros a. exact (f_equal Some (BytesToAddress_bytes a)). Qed.

(** [big.Int.Bytes] of a non-negative number fits 32 bytes or is cropped, so
    [BigToAddress] is the number's low 256 bits. *)
Definition BigToAddress (z : Z) : Address := BytesToAddress (BigEndian.put 32 z).

Definition zeroB32 : B32 := BigToAddress 0.

Lemma BigToAddress_inj x y :
  0 <= x < 256 ^ 32 -> 0 <= y < 256 ^ 32 -> BigToAddress x = BigToAddress y -> x = y.
Proof.
  intros Hx Hy H. apply (f_equal b32_bytes) in H.
  change (setBytes (BigEndian.put 32 x) = setBytes (BigEndian.put 32 y)) in H.
  rewrite !setBytes_id in H by apply BigEndian.put_length.
  apply (f_equal BigEndian.read) in H. rewrite !BigEndian.read_put in H.
  by rewrite !Z.mod_small in H by done.
Qed.

(** ** Hexadecimal text *)

Definition str (s : string) : bytes := String.list_byte_of_string s.

Definition hexDigit (d : Z) : Byte.byte :=
  if d <? 10 then byte_of_Z (48 + d) else byte_of_Z (87 + d).

(** [hex.EncodeToString] *)
Definition Bytes2Hex (d : bytes) : bytes :=
  d ≫= fun b => [hexDigit (Z_of_byte b / 16); hexDigit (Z_of_byte b mod 16)].

(** [hex.fromHexChar] *)
Definition fromHexChar (c : Byte.byte) : option Z :=
  let z := Z_of_byte c in
  if (48 <=? z) && (z <=? 57) then Some (z - 48)
  else if (97 <=? z) && (z <=? 102) then Some (z - 97 + 10)
  else if (65 <=? z) && (z <=? 70) then Some (z - 65 + 10)
  else None.

(** [hex.DecodeString] with its error ignored: the bytes decoded before it. *)
Fixpoint Hex2Bytes (s : bytes) : bytes :=
  match s with
  | c1 :: c2 :: s' =>
      match fromHexChar c1, fromHexChar c2 with
      | Some hi, Some lo => byte_of_Z (hi * 16 + lo) :: Hex2Bytes s'
      | _, _ => []
      end
  | _ => []
  end.

Definition AddrPrefix : bytes := str "zv".

Definition toLower (c : Byte.byte) : Byte.byte :=
  let z := Z_of_byte c in
  if (65 <=? z) && (z <=? 90) then byte_of_Z (z + 32) else c.

(** [Address.AddrPrefixString]; the hex text is never empty for 32 bytes, the
    branch is the source's. *)
Definition AddrPrefixString (a : Address) : bytes :=
  let hexString := Bytes2Hex (b32_bytes a) in
  AddrPrefix ++ (if decide (length hexString = 0%nat) then str "0" else hexString).

Definition StringToAddress (s : bytes) : Address :=
  let s' :=
    if decide (length AddrPrefix < length s)%nat then
      let s1 := if decide (AddrPrefix = toLower <$> take (length AddrPrefix) s)
                then drop (length AddrPrefix) s else s in
      if decide (length s1 mod 2 = 1)%nat then str "0" ++ s1 else s1
    else s in
  BytesToAddress (Hex2Bytes s').

Lemma fromHexChar_hexDigit d : 0 <= d < 16 -> fromHexChar (hexDigit d) = Some d.
Proof.
  intros Hd.
  assert (d = 0 \/ d = 1 \/ d = 2 \/ d = 3 \/ d = 4 \/ d = 5 \/ d = 6 \/ d = 7 \/
          d = 8 \/ d = 9 \/ d = 10 \/ d = 11 \/ d = 12 \/ d = 13 \/ d = 14 \/ d = 15)
    as Hc by lia.
  repeat (destruct Hc as [->|Hc]; [reflexivity|]). subst d. reflexivity.
Qed.

Lemma Hex2Bytes_Bytes2Hex d : Hex2Bytes (Bytes2Hex d) = d.
Proof.
  induction d as [|b d IH]; [done|]. pose proof (Z_of_byte_range b).
  change (Bytes2Hex (b :: d)) with
    (hexDigit (Z_of_byte b / 16) :: hexDigit (Z_of_byte b mod 16) :: Bytes2Hex d).
  simpl. rewrite !fromHexChar_hexDigit by (split; [|];
    solve [apply Z.mod_pos_bound; lia | apply Z.div_pos; lia
          | apply Z.div_lt_upper_bound; lia]).
  rewrite IH. f_equal.
  rewrite <- (byte_of_Z_of_byte b) at 3. f_equal.
  rewrite (Z.div_mod (Z_of_byte b) 16) at 3 by lia. lia.
Qed.

Lemma Bytes2Hex_length d : length (Bytes2Hex d) = (2 * length d)%nat.
Proof.
  induction d as [|b d IH]; [done|].
  change (length (Bytes2Hex (b :: d))) with (2 + length (Bytes2Hex d))%nat.
  rewrite IH. simpl. lia.
Qed.

(** The text form of an address reads back as the address. *)
Lemma StringToAddress_AddrPrefixString (a : Address) :
  StringToAddress (AddrPrefixString a) = a.
Proof.
  assert (length (Bytes2Hex (b32_bytes a)) = 64%nat) as Hl
    by (rewrite Bytes2Hex_length, b32_length; done).
  unfold AddrPrefixString. destruct (decide _) as [E|_]; [lia|].
  unfold StringToAddress. rewrite length_app, Hl.
  destruct (decide _) as [_|E]; [|simpl in E; lia].
  rewrite take_app_length.
  destruct (decide (AddrPrefix = _)) as [_|E]; [|by vm_compute in E].
  rewrite drop_app_length, Hl. destruct (decide _) as [E|_]; [done|].
  rewrite Hex2Bytes_Bytes2Hex. apply BytesToAddress_bytes.
Qed.
