(* ===== verification/Sha256.v ===== *)
(** * Sha256: the hash of [src/common/hash.go]

    [common.Sha256] is the standard library's SHA-256 (FIPS 180-4).  The
    definition is executable: words are integers below 2^32, kept there by the
    explicit masks. *)
From S2P Require Import Prelude Bytes.
Local Open Scope Z_scope.

Module SHA.

Definition mask32 (x : Z) : Z := Z.land x 4294967295.
Definition add32 (x y : Z) : Z := mask32 (x + y).
Definition rotr (n x : Z) : Z := mask32 (Z.lor (Z.shiftr x n) (Z.shiftl x (32 - n))).
Definition not32 (x : Z) : Z := Z.lxor x 4294967295.

Definition Ch (x y z : Z) : Z := Z.lxor (Z.land x y) (Z.land (not32 x) z).
Definition Maj (x y z : Z) : Z := Z.lxor (Z.lxor (Z.land x y) (Z.land x z)) (Z.land y z).
Definition Sigma0 (x : Z) : Z := Z.lxor (Z.lxor (rotr 2 x) (rotr 13 x)) (rotr 22 x).
Definition Sigma1 (x : Z) : Z := Z.lxor (Z.lxor (rotr 6 x) (rotr 11 x)) (rotr 25 x).
Definition sigma0 (x : Z) : Z := Z.lxor (Z.lxor (rotr 7 x) (rotr 18 x)) (Z.shiftr x 3).
Definition sigma1 (x : Z) : Z := Z.lxor (Z.lxor (rotr 17 x) (rotr 19 x)) (Z.shiftr x 10).

(** FIPS 180-4 gives the constants as the first 32 bits of the fractional parts of
    the cube roots and square roots of the first primes. *)
Fixpoint primesFrom (fuel : nat) (z : Z) (found : list Z) : list Z :=
  match fuel with
  | O => rev found
  | S fuel' => primesFrom fuel' (z + 1) (if forallb (fun p => negb (z mod p =? 0)) found then z :: found else found)
  end.
Definition primes : list Z := primesFrom 310 2 [].

(** The integer cube root below [2 ^ bits], bit by bit from the top. *)
Fixpoint cbrt (bits : nat) (acc n : Z) : Z :=
  match bits with
  | O => acc
  | S bits' => let t := acc + 2 ^ Z.of_nat bits' in cbrt bits' (if t ^ 3 <=? n then t else acc) n
  end.

Definition K : list Z := Eval vm_compute in map (fun p => mask32 (cbrt 40 0 (p * 2 ^ 96))) primes.
Definition H0 : list Z := Eval vm_compute in map (fun p => mask32 (Z.sqrt (p * 2 ^ 64))) (take 8 primes).

Record digest := mkDigest { ha : Z; hb : Z; hc : Z; hd : Z; he : Z; hf : Z; hg : Z; hh : Z }.

Definition init : digest :=
  let h i := nth i H0 0 in mkDigest (h 0%nat) (h 1%nat) (h 2%nat) (h 3%nat) (h 4%nat) (h 5%nat) (h 6%nat) (h 7%nat).

(** The message, a one bit, zeros, and the length in bits: a multiple of 64 bytes. *)
Definition pad (msg : bytes) : bytes :=
  let n := length msg in
  let zeros := ((119 - n mod 64) mod 64)%nat in
  msg ++ Byte.x80 :: repeat Byte.x00 zeros ++ BigEndian.put 8 (8 * Z.of_nat n).

Fixpoint words (fuel : nat) (bs : bytes) : list Z :=
  match fuel with
  | O => []
  | S fuel' => BigEndian.read (take 4 bs) :: words fuel' (drop 4 bs)
  end.

(** The message schedule, newest word first. *)
Fixpoint schedule (n : nat) (ws : list Z) : list Z :=
  match n with
  | O => ws
  | S n' =>
      let at_ i := nth i ws 0 in
      let w := add32 (add32 (sigma1 (at_ 1%nat)) (at_ 6%nat)) (add32 (sigma0 (at_ 14%nat)) (at_ 15%nat)) in
      schedule n' (w :: ws)
  end.

Definition round (s : digest) (kw : Z * Z) : digest :=
  let t1 := add32 (add32 (add32 (hh s) (Sigma1 (he s))) (add32 (Ch (he s) (hf s) (hg s)) kw.1)) kw.2 in
  let t2 := add32 (Sigma0 (ha s)) (Maj (ha s) (hb s) (hc s)) in
  mkDigest (add32 t1 t2) (ha s) (hb s) (hc s) (add32 (hd s) t1) (he s) (hf s) (hg s).

Definition block (s : digest) (bs : bytes) : digest :=
  let ws := rev (schedule 48 (rev (words 16 bs))) in
  let t := foldl round s (zip K ws) in
  mkDigest (add32 (ha s) (ha t)) (add32 (hb s) (hb t)) (add32 (hc s) (hc t)) (add32 (hd s) (hd t))
           (add32 (he s) (he t)) (add32 (hf s) (hf t)) (add32 (hg s) (hg t)) (add32 (hh s) (hh t)).

Fixpoint blocks (fuel : nat) (s : digest) (bs : bytes) : digest :=
  match fuel with
  | O => s
  | S fuel' => blocks fuel' (block s (take 64 bs)) (drop 64 bs)
  end.

Definition sum (s : digest) : bytes :=
  concat (map (BigEndian.put 4) [ha s; hb s; hc s; hd s; he s; hf s; hg s; hh s]).

End SHA.

Definition Sha256 (blockByte : bytes) : bytes :=
  let bs := SHA.pad blockByte in SHA.sum (SHA.blocks (length bs / 64) SHA.init bs).

Definition BytesCombine (pBytes : list bytes) : bytes := concat pBytes.

Lemma Sha256_length b : length (Sha256 b) = 32%nat.
Proof.
  unfold Sha256, SHA.sum. cbn [map concat]. by rewrite !length_app, !BigEndian.put_length.
Qed.

(** The padded message is whole blocks, so no byte of it is left out. *)
Lemma pad_length b : (length (SHA.pad b) mod 64 = 0)%nat.
Proof.
  unfold SHA.pad. rewrite length_app. cbn [length]. rewrite length_app, repeat_length, BigEndian.put_length.
  set (n := length b). pose proof (Nat.mod_upper_bound n 64 ltac:(lia)).
  pose proof (Nat.div_mod_eq n 64). set (r := (n mod 64)%nat) in *.
  destruct (decide (r <= 55)%nat).
  - replace ((119 - r) mod 64)%nat with (55 - r)%nat.
    + replace (n + S (55 - r + 8))%nat with ((n / 64 + 1) * 64)%nat by lia. apply Nat.Div0.mod_mul.
    + replace (119 - r)%nat with (55 - r + 1 * 64)%nat by lia.
      rewrite Nat.Div0.mod_add. symmetry. apply Nat.mod_small. lia.
  - rewrite (Nat.mod_small (119 - r)) by lia.
    replace (n + S (119 - r + 8))%nat with ((n / 64 + 2) * 64)%nat by lia. apply Nat.Div0.mod_mul.
Qed.

(** The test vectors of FIPS 180-4. *)
Lemma Sha256_abc :
  Bytes2Hex (Sha256 (str "abc")) =
  str "ba7816bf8f01cfea414140de5dae2223b00361a396177a9cb410ff61f20015ad".
Proof. vm_compute. reflexivity. Qed.
Lemma Sha256_two_blocks :
  Bytes2Hex (Sha256 (str "abcdbcdecdefdefgefghfghighijhijkijkljklmklmnlmnomnopnopq")) =
  str "248d6a61d20638b8e5c026930c3e6039a33ce45964ff2167f6ecedd419db06c1".
Proof. vm_compute. reflexivity. Qed.
