(* ===== verification/World.v ===== *)
(** * World: the contract of the account database

    The interface [types.AccountDB] ([src/middleware/types/vminterface.go]) as
    the state-processing code sees it: a finite map from addresses to accounts,
    each with a balance, a nonce, code and key-value storage, plus the refund
    counter.  [AccountDB.v] models the implementation with its object cache,
    dirty sets and journal; this file is the specification it refines and the
    state the miner, reward and transaction components are written over.

    A [Snapshot]/[RevertToSnapshot] pair is the world kept and put back.  An
    iterator reads the storage trie, which only [Finalise] brings up to date
    with the writes of the block, so every account has both [Storage] (what
    [GetData] answers) and [StorageTrie] (what [DataIterator] walks). *)
From S2P Require Import Prelude Bytes.
Local Open Scope Z_scope.

Record Account := mkAccount {
  Balance : Z;
  Nonce : Z;
  Code : option bytes;
  suicided : bool;
  Storage : gmap bytes bytes;
  StorageTrie : gmap bytes bytes;
}.

Record World := mkWorld {
  accounts : gmap Address Account;
  refund : Z;
}.

Definition newAccount : Account := mkAccount 0 0 None false ∅ ∅.
Definition emptyWorld : World := mkWorld ∅ 0.

Definition setBalance (v : Z) (o : Account) : Account :=
  mkAccount v (Nonce o) (Code o) (suicided o) (Storage o) (StorageTrie o).
Definition setNonce (n : Z) (o : Account) : Account :=
  mkAccount (Balance o) n (Code o) (suicided o) (Storage o) (StorageTrie o).
Definition setCode (c : option bytes) (o : Account) : Account :=
  mkAccount (Balance o) (Nonce o) c (suicided o) (Storage o) (StorageTrie o).
Definition setSuicided (b : bool) (o : Account) : Account :=
  mkAccount (Balance o) (Nonce o) (Code o) b (Storage o) (StorageTrie o).
(** A nil value removes the entry. *)
Definition setData (k : bytes) (v : option bytes) (o : Account) : Account :=
  mkAccount (Balance o) (Nonce o) (Code o) (suicided o)
    (match v with Some x => <[k:=x]> (Storage o) | None => delete k (Storage o) end)
    (StorageTrie o).

(** ** Queries *)

Definition getAccountObject (w : World) (a : Address) : option Account := accounts w !! a.
Definition getOrNewAccountObject (w : World) (a : Address) : Account :=
  default newAccount (accounts w !! a).
Definition Exist (w : World) (a : Address) : bool := bool_decide (is_Some (accounts w !! a)).
Definition GetBalance (w : World) (a : Address) : Z := from_option Balance 0 (accounts w !! a).
Definition GetNonce (w : World) (a : Address) : Z := from_option Nonce 0 (accounts w !! a).
Definition GetCode (w : World) (a : Address) : option bytes := accounts w !! a ≫= Code.
Definition GetData (w : World) (a : Address) (k : bytes) : option bytes :=
  accounts w !! a ≫= fun o => Storage o !! k.
Definition HasSuicided (w : World) (a : Address) : bool :=
  from_option suicided false (accounts w !! a).
Definition CanTransfer (w : World) (a : Address) (amount : Z) : bool :=
  if amount <? 0 then false else amount <=? GetBalance w a.

(** ** Updates *)

(** Every setter goes through [getOrNewAccountObject]: a missing account is
    created, even when nothing is then written to it. *)
Definition update (a : Address) (f : Account -> Account) (w : World) : World :=
  mkWorld (<[a := f (getOrNewAccountObject w a)]> (accounts w)) (refund w).

Definition SetBalance (a : Address) (v : Z) : World -> World := update a (setBalance v).
Definition AddBalance (a : Address) (v : Z) : World -> World :=
  update a (fun o => setBalance (Balance o + v) o).
Definition SubBalance (a : Address) (v : Z) : World -> World :=
  update a (fun o => setBalance (Balance o - v) o).
Definition SetNonce (a : Address) (n : Z) : World -> World := update a (setNonce n).
Definition SetCode (a : Address) (c : bytes) : World -> World := update a (setCode (Some c)).
Definition SetData (a : Address) (k v : bytes) : World -> World := update a (setData k (Some v)).
Definition RemoveData (a : Address) (k : bytes) : World -> World := update a (setData k None).
Definition CreateAccount (a : Address) : World -> World := update a id.
Definition AddRefund (gas : Z) (w : World) : World :=
  mkWorld (accounts w) (refund w + gas)%u64.

Definition Transfer (sender recipient : Address) (amount : Z) (w : World) : World :=
  if amount <=? 0 then w else AddBalance recipient amount (SubBalance sender amount w).

Definition Suicide (a : Address) (w : World) : bool * World :=
  match accounts w !! a with
  | None => (false, w)
  | Some o => (true, mkWorld (<[a := setSuicided true (setBalance 0 o)]> (accounts w)) (refund w))
  end.

(** ** Iteration

    The node iterator visits the leaves in the order of their hex paths, in
    which the terminator 16 sorts after every nibble: byte order, a key coming
    after the keys it is a prefix of. *)

Fixpoint keyLe (k1 k2 : bytes) : bool :=
  match k1, k2 with
  | [], [] => true
  | [], _ :: _ => false
  | _ :: _, [] => true
  | x :: k1', y :: k2' =>
      (Z_of_byte x <? Z_of_byte y) || (bool_decide (x = y) && keyLe k1' k2')
  end.

(** [seek]: the first path not below the prefix's nibbles. *)
Fixpoint seekGe (prefix k : bytes) : bool :=
  match prefix, k with
  | [], _ => true
  | _ :: _, [] => true
  | p :: prefix', x :: k' =>
      (Z_of_byte p <? Z_of_byte x) || (bool_decide (p = x) && seekGe prefix' k')
  end.

Definition entryLe (e1 e2 : bytes * bytes) : Prop := keyLe e1.1 e2.1 = true.
#[global] Instance entryLe_dec : RelDecision entryLe.
Proof. intros x y. unfold entryLe. apply _. Defined.

(** [None] is the nil iterator of a missing account. *)
Definition DataIterator (w : World) (a : Address) (prefix : bytes) : option (list (bytes * bytes)) :=
  (fun o => filter (fun e => seekGe prefix e.1 = true)
              (merge_sort entryLe (map_to_list (StorageTrie o)))) <$> accounts w !! a.

Definition HasPrefix (k prefix : bytes) : bool := bool_decide (prefix `prefix_of` k).

(** [for iter.Next() { if !bytes.HasPrefix(iter.Key, p) { break } ... }] *)
Fixpoint iterPrefix (prefix : bytes) (es : list (bytes * bytes)) : list (bytes * bytes) :=
  match es with
  | [] => []
  | e :: es' => if HasPrefix e.1 prefix then e :: iterPrefix prefix es' else []
  end.

Lemma keyLe_total k1 k2 : keyLe k1 k2 = true \/ keyLe k2 k1 = true.
Proof.
  revert k2. induction k1 as [|x k1 IH]; intros [|y k2]; simpl; auto.
  destruct (Z.ltb_spec (Z_of_byte x) (Z_of_byte y)); [auto|].
  destruct (Z.ltb_spec (Z_of_byte y) (Z_of_byte x)); [auto|].
  assert (x = y) as -> by (apply (inj Z_of_byte); lia).
  rewrite bool_decide_eq_true_2 by done. simpl. apply IH.
Qed.

Lemma keyLe_trans k1 k2 k3 : keyLe k1 k2 = true -> keyLe k2 k3 = true -> keyLe k1 k3 = true.
Proof.
  revert k2 k3. induction k1 as [|x k1 IH]; intros [|y k2] [|z k3]; simpl; auto; try done.
  rewrite !orb_true_iff, !andb_true_iff, !bool_decide_eq_true, !Z.ltb_lt.
  intros [?|[-> ?]] [?|[-> ?]]; [left; lia|left; lia|left; lia|].
  right. eauto.
Qed.

#[global] Instance entryLe_total : Total entryLe.
Proof. intros x y. apply keyLe_total. Qed.
#[global] Instance entryLe_trans : Transitive entryLe.
Proof. intros x y z. apply keyLe_trans. Qed.

(** Below a key with the prefix and not below the prefix: has the prefix. *)
Lemma prefix_convex prefix k1 k2 :
  keyLe k1 k2 = true -> seekGe prefix k1 = true ->
  prefix `prefix_of` k2 -> prefix `prefix_of` k1.
Proof.
  revert k1 k2. induction prefix as [|p prefix IH]; intros k1 k2 Hle Hge Hp.
  - apply prefix_nil.
  - destruct k2 as [|y k2]; [by apply prefix_nil_not in Hp|].
    apply prefix_cons_inv_1 in Hp as Hpy. apply prefix_cons_inv_2 in Hp. subst y.
    destruct k1 as [|x k1]; [done|]. simpl in *.
    rewrite !orb_true_iff, !andb_true_iff, !bool_decide_eq_true, !Z.ltb_lt in Hle, Hge.
    destruct Hle as [?|[-> ?]], Hge as [?|[? ?]]; subst; try lia.
    apply prefix_cons. eauto.
Qed.

Lemma seekGe_prefix prefix k : prefix `prefix_of` k -> seekGe prefix k = true.
Proof.
  revert k. induction prefix as [|p prefix IH]; intros k Hp; [done|].
  destruct k as [|x k]; [done|].
  apply prefix_cons_inv_1 in Hp as Hpx. apply prefix_cons_inv_2 in Hp. subst x. simpl.
  rewrite bool_decide_eq_true_2 by done. rewrite IH by done. apply orb_true_r.
Qed.

Lemma iterPrefix_sorted prefix es :
  StronglySorted entryLe es -> Forall (fun e => seekGe prefix e.1 = true) es ->
  iterPrefix prefix es = filter (fun e => prefix `prefix_of` e.1) es.
Proof.
  induction 1 as [|e es Hs IH Hall]; intros Hge; [done|].
  apply Forall_cons in Hge as [He Hge]. simpl. unfold HasPrefix.
  case_bool_decide as Hp.
  - rewrite filter_cons_True by done. f_equal. by apply IH.
  - rewrite filter_cons_False by done. symmetry. apply filter_none.
    rewrite Forall_forall in *. intros e' Hin Hp'. apply Hp.
    eapply prefix_convex; [apply (Hall _ Hin)|done|done].
Qed.

(** The loop over an iterator visits exactly the entries with the prefix. *)
Lemma elem_of_iterPrefix w a prefix es k v :
  DataIterator w a prefix = Some es ->
  (k, v) ∈ iterPrefix prefix es <->
  prefix `prefix_of` k /\
  exists o, accounts w !! a = Some o /\ StorageTrie o !! k = Some v.
Proof.
  unfold DataIterator. intros Hes. apply fmap_Some in Hes as (o & Ho & ->).
  assert (StronglySorted entryLe (merge_sort entryLe (map_to_list (StorageTrie o)))) as Hs
    by (apply StronglySorted_merge_sort; apply _).
  rewrite iterPrefix_sorted.
  - rewrite !list_elem_of_filter, merge_sort_Permutation. simpl.
    rewrite elem_of_map_to_list. split.
    + intros (? & ? & ?). eauto.
    + intros (? & o' & ? & ?). simplify_eq. eauto using seekGe_prefix.
  - induction Hs as [|e es Hs IH Hall]; [constructor|].
    rewrite filter_cons. case_decide; [|done]. constructor; [done|].
    apply Forall_forall. intros e' Hin. rewrite list_elem_of_filter in Hin.
    rewrite Forall_forall in Hall. apply Hall, Hin.
  - apply Forall_forall. intros e Hin. rewrite list_elem_of_filter in Hin. apply Hin.
Qed.

(** ** What each update does to each query *)

Lemma lookup_update a f w b :
  accounts (update a f w) !! b =
  if decide (a = b) then Some (f (getOrNewAccountObject w a)) else accounts w !! b.
Proof. unfold update; simpl. apply lookup_insert. Qed.

Section queries.
Implicit Types (w : World) (a b : Address) (k j : bytes).

Lemma GetData_update_frame a f w b j :
  (forall o, Storage (f o) = Storage o) -> GetData (update a f w) b j = GetData w b j.
Proof.
  intros Hf. unfold GetData. rewrite lookup_update. case_decide as E; [|done]. subst b.
  unfold getOrNewAccountObject. simpl. rewrite Hf. by destruct (accounts w !! a).
Qed.

Lemma GetBalance_update_frame a f w b :
  (forall o, Balance (f o) = Balance o) -> GetBalance (update a f w) b = GetBalance w b.
Proof.
  intros Hf. unfold GetBalance. rewrite lookup_update. case_decide as E; [|done]. subst b.
  unfold getOrNewAccountObject. simpl. rewrite Hf. by destruct (accounts w !! a).
Qed.

Lemma GetNonce_update_frame a f w b :
  (forall o, Nonce (f o) = Nonce o) -> GetNonce (update a f w) b = GetNonce w b.
Proof.
  intros Hf. unfold GetNonce. rewrite lookup_update. case_decide as E; [|done]. subst b.
  unfold getOrNewAccountObject. simpl. rewrite Hf. by destruct (accounts w !! a).
Qed.

Lemma GetCode_update_frame a f w b :
  (forall o, Code (f o) = Code o) -> GetCode (update a f w) b = GetCode w b.
Proof.
  intros Hf. unfold GetCode. rewrite lookup_update. case_decide as E; [|done]. subst b.
  unfold getOrNewAccountObject. simpl. rewrite Hf. by destruct (accounts w !! a).
Qed.

Lemma GetData_write a k v w b j :
  GetData (update a (setData k v) w) b j =
  if decide (a = b /\ k = j) then v else GetData w b j.
Proof.
  unfold GetData. rewrite lookup_update. unfold getOrNewAccountObject.
  destruct (decide (a = b)) as [<-|Hab]; simpl.
  - destruct (decide (k = j)) as [<-|Hkj].
    + rewrite decide_True by done.
      destruct v; [apply lookup_insert_eq|apply lookup_delete_eq].
    + rewrite decide_False by tauto.
      destruct (accounts w !! a); simpl;
        (destruct v; [by rewrite lookup_insert_ne|by rewrite lookup_delete_ne]).
  - by rewrite decide_False by tauto.
Qed.

Lemma GetData_SetData a k v w b j :
  GetData (SetData a k v w) b j = if decide (a = b /\ k = j) then Some v else GetData w b j.
Proof. apply GetData_write. Qed.
Lemma GetData_RemoveData a k w b j :
  GetData (RemoveData a k w) b j = if decide (a = b /\ k = j) then None else GetData w b j.
Proof. apply GetData_write. Qed.
Lemma GetData_AddBalance a v w b j : GetData (AddBalance a v w) b j = GetData w b j.
Proof. by apply GetData_update_frame. Qed.
Lemma GetData_SubBalance a v w b j : GetData (SubBalance a v w) b j = GetData w b j.
Proof. by apply GetData_update_frame. Qed.
Lemma GetData_SetNonce a v w b j : GetData (SetNonce a v w) b j = GetData w b j.
Proof. by apply GetData_update_frame. Qed.

Lemma GetBalance_SetData a k v w b : GetBalance (SetData a k v w) b = GetBalance w b.
Proof. by apply GetBalance_update_frame. Qed.
Lemma GetBalance_RemoveData a k w b : GetBalance (RemoveData a k w) b = GetBalance w b.
Proof. by apply GetBalance_update_frame. Qed.
Lemma GetBalance_SetNonce a n w b : GetBalance (SetNonce a n w) b = GetBalance w b.
Proof. by apply GetBalance_update_frame. Qed.
Lemma GetBalance_AddBalance a v w b :
  GetBalance (AddBalance a v w) b = GetBalance w b + (if decide (a = b) then v else 0).
Proof.
  unfold GetBalance, AddBalance. rewrite lookup_update. unfold getOrNewAccountObject.
  case_decide as E; [subst b|lia]. simpl. by destruct (accounts w !! a).
Qed.
Lemma GetBalance_SubBalance a v w b :
  GetBalance (SubBalance a v w) b = GetBalance w b - (if decide (a = b) then v else 0).
Proof.
  unfold GetBalance, SubBalance. rewrite lookup_update. unfold getOrNewAccountObject.
  case_decide as E; [subst b|lia]. simpl. by destruct (accounts w !! a).
Qed.

Lemma GetNonce_SetData a k v w b : GetNonce (SetData a k v w) b = GetNonce w b.
Proof. by apply GetNonce_update_frame. Qed.
Lemma GetNonce_AddBalance a v w b : GetNonce (AddBalance a v w) b = GetNonce w b.
Proof. by apply GetNonce_update_frame. Qed.
Lemma GetNonce_SubBalance a v w b : GetNonce (SubBalance a v w) b = GetNonce w b.
Proof. by apply GetNonce_update_frame. Qed.
End queries.

Create Rewrite HintDb world.
#[export] Hint Rewrite GetData_AddBalance GetData_SubBalance GetData_SetNonce
  GetBalance_SetData GetBalance_RemoveData GetBalance_SetNonce
  GetNonce_SetData GetNonce_AddBalance GetNonce_SubBalance : world.

(** ** Sums over a world *)

Definition total_balance (w : World) : Z := map_sum (fun _ o => Balance o) (accounts w).

(** The sum of [f a k v] over every storage entry [k -> v] of every account [a]. *)
Definition storage_sum (f : Address -> bytes -> bytes -> Z) (w : World) : Z :=
  map_sum (fun a o => map_sum (f a) (Storage o)) (accounts w).

Lemma map_sum_update (g : Address -> Account -> Z) a f w :
  g a newAccount = 0 ->
  map_sum g (accounts (update a f w)) =
  map_sum g (accounts w) - g a (getOrNewAccountObject w a) + g a (f (getOrNewAccountObject w a)).
Proof.
  intros Hn. unfold update, getOrNewAccountObject; simpl. rewrite map_sum_insert.
  destruct (accounts w !! a); simpl; lia.
Qed.

Lemma total_balance_update a f w :
  total_balance (update a f w) =
  total_balance w - Balance (getOrNewAccountObject w a) + Balance (f (getOrNewAccountObject w a)).
Proof. by apply map_sum_update. Qed.

Lemma total_balance_AddBalance a v w : total_balance (AddBalance a v w) = total_balance w + v.
Proof. unfold AddBalance. rewrite total_balance_update. simpl. lia. Qed.
Lemma total_balance_SubBalance a v w : total_balance (SubBalance a v w) = total_balance w - v.
Proof. unfold SubBalance. rewrite total_balance_update. simpl. lia. Qed.
Lemma total_balance_SetData a k v w : total_balance (SetData a k v w) = total_balance w.
Proof. unfold SetData. rewrite total_balance_update. simpl. lia. Qed.
Lemma total_balance_RemoveData a k w : total_balance (RemoveData a k w) = total_balance w.
Proof. unfold RemoveData. rewrite total_balance_update. simpl. lia. Qed.
Lemma total_balance_SetNonce a n w : total_balance (SetNonce a n w) = total_balance w.
Proof. unfold SetNonce. rewrite total_balance_update. simpl. lia. Qed.

Section storage_sum.
Context (f : Address -> bytes -> bytes -> Z).

Lemma storage_sum_update_frame a g w :
  (forall o, Storage (g o) = Storage o) -> storage_sum f (update a g w) = storage_sum f w.
Proof.
  intros Hg. unfold storage_sum. rewrite map_sum_update by apply map_sum_empty.
  rewrite Hg. lia.
Qed.

Lemma storage_sum_write a k v w :
  storage_sum f (update a (setData k v) w) =
  storage_sum f w - from_option (f a k) 0 (GetData w a k) + from_option (f a k) 0 v.
Proof.
  unfold storage_sum. rewrite map_sum_update by apply map_sum_empty.
  unfold GetData, getOrNewAccountObject.
  destruct (accounts w !! a) as [o|], v as [x|]; simpl;
    rewrite ?map_sum_insert, ?map_sum_delete, ?lookup_empty; simpl; lia.
Qed.

Lemma storage_sum_AddBalance a v w : storage_sum f (AddBalance a v w) = storage_sum f w.
Proof. by apply storage_sum_update_frame. Qed.
Lemma storage_sum_SubBalance a v w : storage_sum f (SubBalance a v w) = storage_sum f w.
Proof. by apply storage_sum_update_frame. Qed.
Lemma storage_sum_SetNonce a n w : storage_sum f (SetNonce a n w) = storage_sum f w.
Proof. by apply storage_sum_update_frame. Qed.
Lemma storage_sum_SetData a k v w :
  storage_sum f (SetData a k v w) =
  storage_sum f w - from_option (f a k) 0 (GetData w a k) + f a k v.
Proof. apply storage_sum_write. Qed.
Lemma storage_sum_RemoveData a k w :
  storage_sum f (RemoveData a k w) = storage_sum f w - from_option (f a k) 0 (GetData w a k).
Proof. unfold RemoveData. rewrite storage_sum_write. simpl. lia. Qed.
End storage_sum.

#[export] Hint Rewrite total_balance_AddBalance total_balance_SubBalance
  total_balance_SetData total_balance_RemoveData total_balance_SetNonce
  storage_sum_AddBalance storage_sum_SubBalance storage_sum_SetNonce : world.
