(* ===== verification/TrieEncoding.v ===== *)
(** * TrieEncoding: the key encodings of the trie

    [src/storage/trie/encoding.go]: key bytes, nibbles with an optional terminator
    (HEX, what the tree is indexed with) and the compact form in which the keys of
    short nodes are stored.  A nibble is a byte of the source, here its value. *)
From S2P Require Import Prelude Bytes.
Local Open Scope Z_scope.
Local Open Scope zv_scope.

Abbreviation hex := (list Z).

(** [s[len(s)-1] == 16] *)
Definition hasTerm (s : hex) : bool := bool_decide (last s = Some 16).

Definition keybytesToHex (str : bytes) : hex :=
  (str ≫= fun b => [Z_of_byte b / 16; Z_of_byte b mod 16]) ++ [16].

(** [nibbles[ni]<<4 | nibbles[ni+1]]; the callers pass an even number of them. *)
Fixpoint decodeNibbles (nibbles : hex) : bytes :=
  match nibbles with
  | x :: y :: rest => byte_of_Z (Z.lor (Z.shiftl x 4) y) :: decodeNibbles rest
  | _ => []
  end.

Definition hexToKeybytes {E} (h : hex) : outcome E bytes :=
  let h := if hasTerm h then take (length h - 1) h else h in
  if Nat.odd (length h) then Panic "can't convert hex key of odd length"
  else Ok (decodeNibbles h).

Definition hexToCompact (h : hex) : bytes :=
  let terminator := if hasTerm h then 1 else 0 in
  let h := if hasTerm h then take (length h - 1) h else h in
  let flag := Z.shiftl terminator 5 in
  if Nat.odd (length h) then
    match h with
    | x :: rest => byte_of_Z (Z.lor (Z.lor flag (Z.shiftl 1 4)) x) :: decodeNibbles rest
    | [] => []
    end
  else byte_of_Z flag :: decodeNibbles h.

(** Nothing is a compact key of length zero: [base[2:]] is out of range. *)
Definition compactToHex {E} (compact : bytes) : outcome E hex :=
  match keybytesToHex compact with
  | (first :: _) as base =>
      let base := if first <? 2 then take (length base - 1) base else base in
      let chop := Z.to_nat (2 - Z.land first 1) in
      if (length base <? chop)%nat then Panic "slice bounds out of range" else Ok (drop chop base)
  | [] => Panic "index out of range"
  end.

Fixpoint prefixLen (a b : hex) : nat :=
  match a, b with
  | x :: a', y :: b' => if x =? y then S (prefixLen a' b') else O
  | _, _ => O
  end.

(** The root hash of the empty trie ([trie.go]). *)
Definition emptyRoot : Hash :=
  BigToAddress 0x56e81f171bcc55a6ff8345e692c0f86e5b48e01b996cadc001622fb5e363b421.

(** ** Well-formed keys *)

Definition nibble (x : Z) : Prop := 0 <= x < 16.
Definition path (p : hex) : Prop := Forall nibble p.
Definition termKey (k : hex) : Prop := exists p, path p /\ k = p ++ [16].

Lemma hasTerm_path p : path p -> hasTerm p = false.
Proof.
  intros Hp. unfold hasTerm. apply bool_decide_eq_false. intros Hl.
  apply last_Some in Hl as [l ->]. apply Forall_app in Hp as [_ Hp]. apply Forall_cons in Hp as [[? ?] _]. lia.
Qed.

Lemma hasTerm_snoc p : hasTerm (p ++ [16]) = true.
Proof. unfold hasTerm. by rewrite last_snoc. Qed.

Lemma take_snoc {A} (p : list A) x : take (length (p ++ [x]) - 1) (p ++ [x]) = p.
Proof. rewrite length_app. simpl. rewrite Nat.add_sub. apply take_app_length. Qed.

Lemma byteNibbles b : nibble (Z_of_byte b / 16) /\ nibble (Z_of_byte b mod 16).
Proof.
  pose proof (Z_of_byte_range b). split; [split; [apply Z.div_pos; lia|apply Z.div_lt_upper_bound; lia]|].
  apply Z.mod_pos_bound. lia.
Qed.

Definition nibbles (str : bytes) : hex := str ≫= fun b => [Z_of_byte b / 16; Z_of_byte b mod 16].

Lemma keybytesToHex_nibbles str : keybytesToHex str = nibbles str ++ [16].
Proof. done. Qed.

Lemma path_nibbles str : path (nibbles str).
Proof.
  unfold path, nibbles. induction str as [|b str IH]; [constructor|]. simpl.
  destruct (byteNibbles b). constructor; [done|]. by constructor.
Qed.

Lemma termKey_keybytes str : termKey (keybytesToHex str).
Proof. exists (nibbles str). split; [apply path_nibbles|done]. Qed.

(** Two nibbles make the byte they came from, and a byte the nibbles. *)
Lemma nibbles_join x y :
  nibble x -> nibble y -> Z_of_byte (byte_of_Z (Z.lor (Z.shiftl x 4) y)) = 16 * x + y.
Proof.
  intros Hx Hy. unfold nibble in *. rewrite Z_of_byte_of_Z, Z.lor_comm.
  assert (Z.lor y (Z.shiftl x 4) = 16 * x + y) as ->.
  { assert (Z.land y (Z.shiftl x 4) = 0) as Hl.
    { apply Z.bits_inj'. intros i Hi. rewrite Z.land_spec, Z.bits_0. destruct (Z.ltb_spec i 4) as [Hlt|Hge].
      - rewrite Z.shiftl_spec_low by lia. apply andb_false_r.
      - rewrite (Z.bits_above_log2 y i), andb_false_l; [done|lia|].
        destruct (Z.eq_dec y 0) as [->|]; [simpl; lia|]. apply Z.log2_lt_pow2; [lia|].
        apply Z.lt_le_trans with (2 ^ 4); [lia|]. apply Z.pow_le_mono_r; lia. }
    pose proof (Z.add_lor_land y (Z.shiftl x 4)) as Ha. rewrite Z.shiftl_mul_pow2 in Ha |- * by lia. 
    rewrite Z.shiftl_mul_pow2 in Hl by lia. lia. }
  apply Z.mod_small. lia.
Qed.

Lemma decodeNibbles_nibbles str : decodeNibbles (nibbles str) = str.
Proof.
  induction str as [|b str IH]; [done|]. simpl. f_equal; [|done].
  apply (inj Z_of_byte). destruct (byteNibbles b). rewrite nibbles_join by done.
  pose proof (Z.div_mod (Z_of_byte b) 16). lia.
Qed.

Lemma nibbles_decode p : path p -> Nat.odd (length p) = false -> nibbles (decodeNibbles p) = p.
Proof.
  remember (length p) as n eqn:Hn. revert p Hn. induction n as [n IH] using lt_wf_ind. intros p Hn Hp He.
  destruct p as [|x [|y p]]; [done|by subst|]. simpl in Hn.
  apply Forall_cons in Hp as [Hx Hp]. apply Forall_cons in Hp as [Hy Hp].
  set (b := byte_of_Z (Z.lor (Z.shiftl x 4) y)).
  change (nibbles (decodeNibbles (x :: y :: p))) with
    ([Z_of_byte b / 16; Z_of_byte b mod 16] ++ nibbles (decodeNibbles p)).
  unfold b. rewrite nibbles_join by done. rewrite (IH (length p)) by (done || subst n; done || lia).
  unfold nibble in *. simpl. f_equal; [|f_equal].
  - symmetry. apply (Z.div_unique (16 * x + y) 16 x y); lia.
  - symmetry. apply (Z.mod_unique (16 * x + y) 16 x y); lia.
Qed.

Lemma length_nibbles str : length (nibbles str) = (2 * length str)%nat.
Proof. induction str as [|b str IH]; [done|]. simpl. lia. Qed.

(** ** Round trips *)

Lemma hexToKeybytes_keybytesToHex {E} str : hexToKeybytes (E:=E) (keybytesToHex str) = Ok str.
Proof.
  unfold hexToKeybytes. rewrite keybytesToHex_nibbles, hasTerm_snoc, take_snoc, length_nibbles.
  assert (Nat.odd (2 * length str) = false) as ->.
  { rewrite <- Nat.negb_even. apply negb_false_iff, Nat.even_spec. by exists (length str). }
  by rewrite decodeNibbles_nibbles.
Qed.

(** The flag byte: the terminator in bit 5, the odd flag in bit 4, a nibble below. *)
Lemma flagByte (t odd x : Z) :
  (t = 0 \/ t = 1) -> (odd = 0 \/ odd = 1) -> nibble x ->
  Z_of_byte (byte_of_Z (Z.lor (Z.lor (Z.shiftl t 5) (Z.shiftl odd 4)) x)) = 16 * (2 * t + odd) + x.
Proof.
  intros Ht Ho Hx. assert (Z.lor (Z.shiftl t 5) (Z.shiftl odd 4) = Z.shiftl (2 * t + odd) 4) as ->
    by (destruct Ht, Ho; by subst).
  apply nibbles_join; [|done]. unfold nibble. lia.
Qed.

Lemma compactToHex_cons {E} b rest :
  compactToHex (E:=E) (b :: rest) =
  Ok (drop (Z.to_nat (2 - Z.land (Z_of_byte b / 16) 1))
        ((Z_of_byte b / 16 :: Z_of_byte b mod 16 :: nibbles rest) ++ (if Z_of_byte b / 16 <? 2 then [] else [16]))).
Proof.
  unfold compactToHex. rewrite keybytesToHex_nibbles.
  change (nibbles (b :: rest)) with (Z_of_byte b / 16 :: Z_of_byte b mod 16 :: nibbles rest).
  set (f := Z_of_byte b / 16). set (y := Z_of_byte b mod 16). cbn [app]. cbv zeta.
  assert (0 <= Z.land f 1) as Hl by (apply Z.land_nonneg; right; lia).
  destruct (f <? 2).
  - change (f :: y :: nibbles rest ++ [16]) with ((f :: y :: nibbles rest) ++ [16]).
    rewrite take_snoc, app_nil_r, (proj2 (Nat.ltb_ge _ _)); [done|]. simpl. lia.
  - rewrite (proj2 (Nat.ltb_ge _ _)); [done|]. simpl. lia.
Qed.

Lemma compact_roundtrip_gen {E} (t : bool) p :
  path p -> compactToHex (E:=E) (hexToCompact (p ++ (if t then [16] else []))) = Ok (p ++ (if t then [16] else [])).
Proof.
  intros Hp. set (h := p ++ (if t then [16] else [])).
  assert (hasTerm h = t) as Hterm.
  { unfold h. destruct t; [apply hasTerm_snoc|]. rewrite app_nil_r. by apply hasTerm_path. }
  assert ((if hasTerm h then take (length h - 1) h else h) = p) as Hstrip.
  { rewrite Hterm. unfold h. destruct t; [apply take_snoc|apply app_nil_r]. }
  unfold hexToCompact. rewrite Hstrip, Hterm.
  set (tz := if t then 1 else 0). assert (tz = 0 \/ tz = 1) as Htz by (destruct t; auto).
  assert ((if 2 * tz <? 2 then [] else [16]) = (if t then [16] else [])) as Hend by (by destruct t).
  assert ((if 2 * tz + 1 <? 2 then [] else [16]) = (if t then [16] else [])) as Hend' by (by destruct t).
  destruct (Nat.odd (length p)) eqn:Ho.
  - destruct p as [|x p]; [done|]. apply Forall_cons in Hp as [Hx Hp].
    pose proof (flagByte tz 1 x Htz (or_intror eq_refl) Hx) as Hb. rewrite compactToHex_cons, Hb.
    unfold nibble in Hx.
    rewrite <- (Z.div_unique (16 * (2 * tz + 1) + x) 16 (2 * tz + 1) x), <- (Z.mod_unique (16 * (2 * tz + 1) + x) 16 (2 * tz + 1) x) by lia.
    rewrite Hend', nibbles_decode; [|done|].
    + unfold h. by destruct t.
    + simpl in Ho. rewrite <- Nat.negb_even in Ho |- *. rewrite Nat.even_succ in Ho. by rewrite <- Nat.negb_odd in *; destruct (Nat.odd (length p)).
  - pose proof (flagByte tz 0 0 Htz (or_introl eq_refl) ltac:(unfold nibble; lia)) as Hb.
    simpl (Z.shiftl 0 4) in Hb. rewrite !Z.lor_0_r, !Z.add_0_r in Hb. rewrite compactToHex_cons, Hb.
    rewrite (Z.mul_comm 16), Z_div_mult, Z_mod_mult, Hend, nibbles_decode by done.
    unfold h. by destruct t.
Qed.

(** The compact form reads back, with the terminator or without. *)
Lemma compact_roundtrip {E} h : path h \/ termKey h -> compactToHex (E:=E) (hexToCompact h) = Ok h.
Proof.
  intros [Hh|(p & Hp & ->)].
  - pose proof (compact_roundtrip_gen (E:=E) false h Hh) as Hr. by rewrite app_nil_r in Hr.
  - exact (compact_roundtrip_gen true p Hp).
Qed.

(** ** Prefixes *)

Lemma prefixLen_take a b : take (prefixLen a b) a = take (prefixLen a b) b.
Proof.
  revert b. induction a as [|x a IH]; intros [|y b]; simpl; [done..|].
  destruct (Z.eqb_spec x y) as [->|]; [|done]. simpl. by rewrite IH.
Qed.

Lemma prefixLen_le a b : (prefixLen a b <= length a)%nat /\ (prefixLen a b <= length b)%nat.
Proof.
  revert b. induction a as [|x a IH]; intros [|y b]; simpl; [lia..|].
  destruct (x =? y); [|lia]. specialize (IH b). lia.
Qed.

(** They differ after their common prefix. *)
Lemma prefixLen_split a b :
  (prefixLen a b < length a)%nat -> (prefixLen a b < length b)%nat ->
  exists c x y a' b', a = c ++ x :: a' /\ b = c ++ y :: b' /\ x <> y /\ length c = prefixLen a b.
Proof.
  revert b. induction a as [|x a IH]; intros [|y b]; simpl; [lia..|].
  destruct (Z.eqb_spec x y) as [->|Hne]; intros Ha Hb.
  - destruct (IH b) as (c & x' & y' & a' & b' & -> & -> & Hne & Hc); [lia|lia|].
    exists (y :: c), x', y', a', b'. simpl. by rewrite Hc.
  - by exists [], x, y, a, b.
Qed.

Lemma prefixLen_full a b : prefixLen a b = length b -> exists r, a = b ++ r.
Proof.
  intros H. exists (drop (length b) a). pose proof (prefixLen_take a b) as Ht. rewrite H, firstn_all in Ht.
  rewrite <- Ht at 1. by rewrite take_drop.
Qed.

Lemma prefixLen_app b r : prefixLen (b ++ r) b = length b.
Proof. induction b as [|x b IH]; simpl; [by destruct r|]. by rewrite Z.eqb_refl, IH. Qed.

Lemma termKey_not_nil k : termKey k -> k <> [].
Proof. intros (p & _ & ->) H. by destruct p. Qed.

(** A terminated key goes on after a path, and nothing follows a terminated key. *)
Lemma termKey_app p r : path p -> termKey (p ++ r) -> termKey r.
Proof.
  intros Hp (q & Hq & Heq). revert q Hq Heq. induction Hp as [|x p Hx Hp IH]; intros q Hq Heq; [by exists q|].
  destruct q as [|y q]; simpl in Heq.
  - injection Heq as -> _. unfold nibble in Hx. lia.
  - apply Forall_cons in Hq as [_ Hq]. injection Heq as _ Heq. by apply (IH q).
Qed.

Lemma termKey_prefix k r : termKey k -> termKey (k ++ r) -> r = [].
Proof.
  intros (p & Hp & ->). rewrite <- app_assoc. intros Hk. apply termKey_app in Hk; [|done].
  destruct Hk as (q & Hq & Heq). destruct q as [|y q]; simpl in Heq; [by injection Heq|].
  injection Heq as <- _. apply Forall_cons in Hq as [Hq _]. unfold nibble in Hq. lia.
Qed.

(** What a terminated key is made of up to any of its symbols. *)
Lemma termKey_split c x r :
  termKey (c ++ x :: r) -> path c /\ ((x = 16 /\ r = []) \/ (nibble x /\ termKey r)).
Proof.
  intros (p & Hp & Heq). destruct (decide (r = [])) as [->|Hr].
  - apply app_inj_tail in Heq as [-> ->]. auto.
  - apply exists_last in Hr as (r' & y & ->).
    rewrite app_comm_cons, app_assoc in Heq. apply app_inj_tail in Heq as [<- ->].
    apply Forall_app in Hp as [Hc Hp]. apply Forall_cons in Hp as [Hx Hp]. split; [done|]. right. split; [done|].
    by exists r'.
Qed.
