(* ===== verification/AccountDB.v ===== *)
(** * AccountDB: the account database as implemented

    [src/storage/account]: accounts are read from the state trie into objects
    ([accountObject]) kept in a cache; every change goes to the object, is noted
    in a journal ([transitions]) so that a snapshot can be reverted, and reaches
    the trie when the block is finalised, for the objects marked dirty.

    A trie is the finite map it stores and the node database a store of tries and
    code by hash.  The hash functions are parameters.  A nil byte slice is
    [None].  [accountObjects] holds pointers; an object that was created while
    another one is in the cache ([LoadOrStore] keeps the first) is an orphan, and
    what is then done to it reaches no later reader: [stored] tells the two apart. *)
From S2P Require Import Prelude Bytes TrieEncoding.
Local Open Scope Z_scope.
Local Open Scope zv_scope.

(** The hashes of a storage trie, of the state trie and of a byte string. *)
Record StoredAccount := mkStored {
  sa_Nonce : Z;
  sa_Balance : Z;
  sa_Root : Hash;
  sa_CodeHash : Hash;
}.

Class AccountHashes := {
  storageHash : gmap bytes bytes -> Hash;
  stateHash : gmap Address StoredAccount -> Hash;
  Sum256 : bytes -> Hash;
}.

(** The node database: what [OpenTrie], [OpenStorageTrie] and [ContractCode] find. *)
Record NodeDatabase := mkNodes {
  nd_states : gmap Hash (gmap Address StoredAccount);
  nd_tries : gmap Hash (gmap bytes bytes);
  nd_codes : gmap Hash bytes;
}.

Record accountObject := mkObject {
  ao_data : StoredAccount;
  ao_dbErr : bool;
  ao_trie : option (gmap bytes bytes);
  ao_code : option bytes;
  ao_cachedStorage : gmap bytes (option bytes);
  ao_dirtyStorage : gmap bytes (option bytes);
  ao_dirtyCode : bool;
  ao_suicided : bool;
  ao_touched : bool;
  ao_deleted : bool;
  ao_onDirty : bool; (* the callback is still set *)
}.

Inductive transitionEntry :=
| createObjectChange (account : Address)
| resetObjectChange (account : Address)
| suicideChange (account : Address) (prev : bool) (prevbalance : Z)
| balanceChange (account : Address) (prev : Z)
| nonceChange (account : Address) (prev : Z)
| storageChange (account : Address) (key : bytes) (prevalue : option bytes)
| codeChange (account : Address) (prevcode : option bytes) (prevhash : Hash)
| refundChange (prev : Z)
| touchChange (account : Address) (prev prevDirty : bool).

Record revision := mkRevision { rev_id : Z; journalIndex : nat }.

Record AccountDB := mkDB {
  db : NodeDatabase;
  trie : gmap Address StoredAccount;
  accountObjects : gmap Address accountObject;
  accountObjectsDirty : gset Address;
  refund : Z;
  transitions : list transitionEntry;
  validRevisions : list revision;
  nextRevisionID : Z;
}.

Section accountdb.
Context `{AccountHashes}.

Definition emptyCodeHash : Hash := Sum256 [].

(** ** The object ([account_object.go]) *)

Definition emptyStored : StoredAccount := mkStored 0 0 zeroB32 emptyCodeHash.

Definition newAccountObject (data : StoredAccount) : accountObject :=
  mkObject data false None None ∅ ∅ false false false false true.

(** The fields the methods assign; [dirty] is what a setter does last: it runs the
    callback once and drops it. *)
Definition setStored (d : StoredAccount) (o : accountObject) : accountObject :=
  mkObject d (ao_dbErr o) (ao_trie o) (ao_code o) (ao_cachedStorage o) (ao_dirtyStorage o)
    (ao_dirtyCode o) (ao_suicided o) (ao_touched o) (ao_deleted o) (ao_onDirty o).
Definition setTrie (e : bool) (t : option (gmap bytes bytes)) (o : accountObject) : accountObject :=
  mkObject (ao_data o) e t (ao_code o) (ao_cachedStorage o) (ao_dirtyStorage o)
    (ao_dirtyCode o) (ao_suicided o) (ao_touched o) (ao_deleted o) (ao_onDirty o).
Definition setStorage (c d : gmap bytes (option bytes)) (o : accountObject) : accountObject :=
  mkObject (ao_data o) (ao_dbErr o) (ao_trie o) (ao_code o) c d
    (ao_dirtyCode o) (ao_suicided o) (ao_touched o) (ao_deleted o) (ao_onDirty o).
Definition loadCode (e : bool) (c : option bytes) (dirty : bool) (o : accountObject) : accountObject :=
  mkObject (ao_data o) e (ao_trie o) c (ao_cachedStorage o) (ao_dirtyStorage o)
    dirty (ao_suicided o) (ao_touched o) (ao_deleted o) (ao_onDirty o).
Definition setFlags (suicided touched deleted onDirty : bool) (o : accountObject) : accountObject :=
  mkObject (ao_data o) (ao_dbErr o) (ao_trie o) (ao_code o) (ao_cachedStorage o) (ao_dirtyStorage o)
    (ao_dirtyCode o) suicided touched deleted onDirty.

Definition setBalanceData (v : Z) (o : accountObject) : accountObject :=
  setStored (mkStored (sa_Nonce (ao_data o)) v (sa_Root (ao_data o)) (sa_CodeHash (ao_data o))) o.
Definition setNonceData (n : Z) (o : accountObject) : accountObject :=
  setStored (mkStored n (sa_Balance (ao_data o)) (sa_Root (ao_data o)) (sa_CodeHash (ao_data o))) o.
Definition setRootData (h : Hash) (o : accountObject) : accountObject :=
  setStored (mkStored (sa_Nonce (ao_data o)) (sa_Balance (ao_data o)) h (sa_CodeHash (ao_data o))) o.
Definition setCodeHashData (h : Hash) (o : accountObject) : accountObject :=
  setStored (mkStored (sa_Nonce (ao_data o)) (sa_Balance (ao_data o)) (sa_Root (ao_data o)) h) o.

(** What a method of the object does: the object after it, the journal entries it
    appends and whether it ran the callback that marks the object dirty. *)
Record effect := mkEffect { ef_object : accountObject; ef_journal : list transitionEntry; ef_marks : bool }.

Definition dirty (o : accountObject) : effect :=
  mkEffect (setFlags (ao_suicided o) (ao_touched o) (ao_deleted o) false o) [] (ao_onDirty o).
Definition journalled (es : list transitionEntry) (e : effect) : effect :=
  mkEffect (ef_object e) (es ++ ef_journal e) (ef_marks e).

Definition empty (o : accountObject) : bool :=
  (sa_Nonce (ao_data o) =? 0) && (sa_Balance (ao_data o) =? 0) &&
  bool_decide (sa_CodeHash (ao_data o) = emptyCodeHash) && bool_decide (ao_cachedStorage o = ∅).

Definition markSuicided (o : accountObject) : effect :=
  dirty (setFlags true (ao_touched o) (ao_deleted o) (ao_onDirty o) o).

Definition touch (a : Address) (o : accountObject) : effect :=
  let e := dirty o in
  let o' := ef_object e in
  journalled [touchChange a (ao_touched o) (negb (ao_onDirty o))]
    (mkEffect (setFlags (ao_suicided o') true (ao_deleted o') (ao_onDirty o') o') [] (ef_marks e)).

(** The zero hash and [emptyRoot] are the empty trie ([trie.NewTrie]). *)
Definition isEmptyRoot (root : Hash) : bool :=
  bool_decide (root = zeroB32) || bool_decide (root = emptyRoot).
Definition OpenTrie (nd : NodeDatabase) (root : Hash) : option (gmap Address StoredAccount) :=
  if isEmptyRoot root then Some ∅ else nd_states nd !! root.
Definition OpenStorageTrie (nd : NodeDatabase) (root : Hash) : option (gmap bytes bytes) :=
  if isEmptyRoot root then Some ∅ else nd_tries nd !! root.

(** A trie that cannot be opened is read as the empty one, and the error kept. *)
Definition getTrie (nd : NodeDatabase) (o : accountObject) : gmap bytes bytes * accountObject :=
  match ao_trie o with
  | Some t => (t, o)
  | None =>
      match OpenStorageTrie nd (sa_Root (ao_data o)) with
      | Some t => (t, setTrie (ao_dbErr o) (Some t) o)
      | None => (∅, setTrie true (Some ∅) o)
      end
  end.

Definition GetData_ao (nd : NodeDatabase) (key : bytes) (o : accountObject) : option bytes * accountObject :=
  match ao_cachedStorage o !! key with
  | Some value => (value, o)
  | None =>
      let '(t, o1) := getTrie nd o in
      match t !! key with
      | Some value =>
          (Some value, setStorage (<[key := Some value]> (ao_cachedStorage o1)) (ao_dirtyStorage o1) o1)
      | None => (None, o1)
      end
  end.

Definition setData (key : bytes) (value : option bytes) (o : accountObject) : effect :=
  dirty (setStorage (<[key := value]> (ao_cachedStorage o)) (<[key := value]> (ao_dirtyStorage o)) o).

Definition SetData_ao (nd : NodeDatabase) (a : Address) (key : bytes) (value : option bytes) (o : accountObject) : effect :=
  let '(prev, o1) := GetData_ao nd key o in
  journalled [storageChange a key prev] (setData key value o1).

(** [TryUpdate] with a value of length zero deletes. *)
Definition TryUpdate (key value : bytes) (t : gmap bytes bytes) : gmap bytes bytes :=
  match value with [] => delete key t | _ => <[key := value]> t end.
Definition writeSlot (t : gmap bytes bytes) (e : bytes * option bytes) : gmap bytes bytes :=
  match e.2 with
  | None => delete e.1 t
  | Some value => TryUpdate e.1 value t
  end.
Definition updateTrie (nd : NodeDatabase) (o : accountObject) : accountObject :=
  let '(t, o1) := getTrie nd o in
  setStorage (ao_cachedStorage o1) ∅
    (setTrie (ao_dbErr o1) (Some (foldl writeSlot t (map_to_list (ao_dirtyStorage o1)))) o1).

Definition updateRoot (nd : NodeDatabase) (o : accountObject) : accountObject :=
  let o1 := updateTrie nd o in
  setRootData (storageHash (default ∅ (ao_trie o1))) o1.

Definition setBalance (amount : Z) (o : accountObject) : effect := dirty (setBalanceData amount o).
Definition SetBalance_ao (a : Address) (amount : Z) (o : accountObject) : effect :=
  journalled [balanceChange a (sa_Balance (ao_data o))] (setBalance amount o).
Definition AddBalance_ao (a : Address) (amount : Z) (o : accountObject) : effect :=
  if amount =? 0 then
    if empty o then touch a o else mkEffect o [] false
  else SetBalance_ao a (sa_Balance (ao_data o) + amount) o.
Definition SubBalance_ao (a : Address) (amount : Z) (o : accountObject) : effect :=
  if amount =? 0 then mkEffect o [] false
  else SetBalance_ao a (sa_Balance (ao_data o) - amount) o.

Definition setNonce (n : Z) (o : accountObject) : effect := dirty (setNonceData n o).
Definition SetNonce_ao (a : Address) (n : Z) (o : accountObject) : effect :=
  journalled [nonceChange a (sa_Nonce (ao_data o))] (setNonce n o).

Definition Code_ao (nd : NodeDatabase) (o : accountObject) : option bytes * accountObject :=
  match ao_code o with
  | Some c => (Some c, o)
  | None =>
      if bool_decide (sa_CodeHash (ao_data o) = emptyCodeHash) then (None, o)
      else match nd_codes nd !! sa_CodeHash (ao_data o) with
           | Some c => (Some c, loadCode (ao_dbErr o) (Some c) (ao_dirtyCode o) o)
           | None => (None, loadCode true None (ao_dirtyCode o) o)
           end
  end.
Definition setCode (codeHash : Hash) (code : option bytes) (o : accountObject) : effect :=
  dirty (setCodeHashData codeHash (loadCode (ao_dbErr o) code true o)).
Definition SetCode_ao (nd : NodeDatabase) (a : Address) (codeHash : Hash) (code : bytes) (o : accountObject) : effect :=
  let '(prevCode, o1) := Code_ao nd o in
  journalled [codeChange a prevCode (sa_CodeHash (ao_data o1))] (setCode codeHash (Some code) o1).

(** ** The database of objects ([accountdb.go]) *)

Definition NewAccountDB (root : Hash) (nd : NodeDatabase) : option AccountDB :=
  (fun tr => mkDB nd tr ∅ ∅ 0 [] [] 0) <$> OpenTrie nd root.

Definition setObjects (m : gmap Address accountObject) (s : AccountDB) : AccountDB :=
  mkDB (db s) (trie s) m (accountObjectsDirty s) (refund s) (transitions s) (validRevisions s) (nextRevisionID s).
Definition setDirty (d : gset Address) (s : AccountDB) : AccountDB :=
  mkDB (db s) (trie s) (accountObjects s) d (refund s) (transitions s) (validRevisions s) (nextRevisionID s).
Definition setRefund (r : Z) (s : AccountDB) : AccountDB :=
  mkDB (db s) (trie s) (accountObjects s) (accountObjectsDirty s) r (transitions s) (validRevisions s) (nextRevisionID s).
Definition setJournal (js : list transitionEntry) (rs : list revision) (next : Z) (s : AccountDB) : AccountDB :=
  mkDB (db s) (trie s) (accountObjects s) (accountObjectsDirty s) (refund s) js rs next.
Definition setStateTrie (t : gmap Address StoredAccount) (s : AccountDB) : AccountDB :=
  mkDB (db s) t (accountObjects s) (accountObjectsDirty s) (refund s) (transitions s) (validRevisions s) (nextRevisionID s).
Definition append (es : list transitionEntry) (s : AccountDB) : AccountDB :=
  setJournal (transitions s ++ es) (validRevisions s) (nextRevisionID s) s.

(** [LoadOrStore]: the object already in the cache stays. *)
Definition setAccountObject (a : Address) (o : accountObject) (s : AccountDB) : AccountDB :=
  match accountObjects s !! a with
  | Some _ => s
  | None => setObjects (<[a := o]> (accountObjects s)) s
  end.

Definition getAccountObjectFromTrie (a : Address) (s : AccountDB) : option accountObject :=
  newAccountObject <$> trie s !! a.

Definition getAccountObject (a : Address) (s : AccountDB) : option accountObject * AccountDB :=
  match accountObjects s !! a with
  | Some o => (if ao_deleted o then None else Some o, s)
  | None =>
      match getAccountObjectFromTrie a s with
      | Some o => (Some o, setAccountObject a o s)
      | None => (None, s)
      end
  end.

Definition MarkAccountObjectDirty (a : Address) (s : AccountDB) : AccountDB :=
  setDirty ({[a]} ∪ accountObjectsDirty s) s.

(** The flag tells whether the new object is the cached one or an orphan. *)
Definition createObject (a : Address) (s : AccountDB) : accountObject * bool * option accountObject * AccountDB :=
  let '(prev, s1) := getAccountObject a s in
  let newobj := ef_object (setNonce 0 (newAccountObject emptyStored)) in
  let s2 := MarkAccountObjectDirty a s1 in
  let s3 := append [match prev with
                    | None => createObjectChange a
                    | Some _ => resetObjectChange a
                    end] s2 in
  (newobj, bool_decide (accountObjects s1 !! a = None), prev, setAccountObject a newobj s3).

Definition getOrNewAccountObject (a : Address) (s : AccountDB) : accountObject * bool * AccountDB :=
  match getAccountObject a s with
  | (Some o, s1) => (o, true, s1)
  | (None, s1) => let '(o, stored, _, s2) := createObject a s1 in (o, stored, s2)
  end.

(** A method called on an object the database handed out. *)
Definition applied (a : Address) (stored : bool) (e : effect) (s : AccountDB) : AccountDB :=
  append (ef_journal e)
    ((if ef_marks e then MarkAccountObjectDirty a else id)
       (if stored then setObjects (<[a := ef_object e]> (accountObjects s)) s else s)).

Definition onObject (a : Address) (m : accountObject -> effect) (s : AccountDB) : AccountDB :=
  let '(o, stored, s1) := getOrNewAccountObject a s in applied a stored (m o) s1.

(** A query on an object: it may fill the object's caches. *)
Definition readObject {A} (a : Address) (none : A) (q : accountObject -> A * accountObject) (s : AccountDB) : A * AccountDB :=
  match getAccountObject a s with
  | (Some o, s1) => let '(x, o1) := q o in (x, setObjects (<[a := o1]> (accountObjects s1)) s1)
  | (None, s1) => (none, s1)
  end.

Definition Exist (a : Address) (s : AccountDB) : bool * AccountDB :=
  readObject a false (fun o => (true, o)) s.
Definition GetBalance (a : Address) (s : AccountDB) : Z * AccountDB :=
  readObject a 0 (fun o => (sa_Balance (ao_data o), o)) s.
Definition GetNonce (a : Address) (s : AccountDB) : Z * AccountDB :=
  readObject a 0 (fun o => (sa_Nonce (ao_data o), o)) s.
Definition GetCode (a : Address) (s : AccountDB) : option bytes * AccountDB :=
  readObject a None (Code_ao (db s)) s.
Definition GetCodeHash (a : Address) (s : AccountDB) : Hash * AccountDB :=
  readObject a zeroB32 (fun o => (sa_CodeHash (ao_data o), o)) s.
Definition GetData (a : Address) (key : bytes) (s : AccountDB) : option bytes * AccountDB :=
  readObject a None (GetData_ao (db s) key) s.
Definition HasSuicided (a : Address) (s : AccountDB) : bool * AccountDB :=
  readObject a false (fun o => (ao_suicided o, o)) s.
Definition Empty (a : Address) (s : AccountDB) : bool * AccountDB :=
  readObject a true (fun o => (empty o, o)) s.
(** The entries the iterator walks: those of the object's trie. *)
Definition DataIterator (a : Address) (s : AccountDB) : option (gmap bytes bytes) * AccountDB :=
  readObject a None (fun o => let '(t, o1) := getTrie (db s) o in (Some t, o1)) s.
Definition CanTransfer (a : Address) (amount : Z) (s : AccountDB) : bool * AccountDB :=
  if amount <? 0 then (false, s)
  else let '(b, s1) := GetBalance a s in (amount <=? b, s1).

Definition AddBalance (a : Address) (amount : Z) : AccountDB -> AccountDB := onObject a (AddBalance_ao a amount).
Definition SubBalance (a : Address) (amount : Z) : AccountDB -> AccountDB := onObject a (SubBalance_ao a amount).
Definition SetBalance (a : Address) (amount : Z) : AccountDB -> AccountDB := onObject a (SetBalance_ao a amount).
Definition SetNonce (a : Address) (n : Z) : AccountDB -> AccountDB := onObject a (SetNonce_ao a n).
Definition SetCode (a : Address) (code : bytes) (s : AccountDB) : AccountDB :=
  onObject a (SetCode_ao (db s) a (Sum256 code) code) s.
Definition SetData (a : Address) (key : bytes) (value : option bytes) (s : AccountDB) : AccountDB :=
  onObject a (SetData_ao (db s) a key value) s.
Definition RemoveData (a : Address) (key : bytes) : AccountDB -> AccountDB := SetData a key None.
Definition AddRefund (gas : Z) (s : AccountDB) : AccountDB :=
  setRefund (refund s + gas)%u64 (append [refundChange (refund s)] s).
Definition Transfer (sender recipient : Address) (amount : Z) (s : AccountDB) : AccountDB :=
  if amount <=? 0 then s else AddBalance recipient amount (SubBalance sender amount s).

Definition Suicide (a : Address) (s : AccountDB) : bool * AccountDB :=
  match getAccountObject a s with
  | (None, s1) => (false, s1)
  | (Some o, s1) =>
      let e := markSuicided o in
      (true, applied a true
               (journalled [suicideChange a (ao_suicided o) (sa_Balance (ao_data o))]
                  (mkEffect (setBalanceData 0 (ef_object e)) [] (ef_marks e))) s1)
  end.

(** When an object existed, the new one is an orphan, and so is the balance
    carried over to it. *)
Definition CreateAccount (a : Address) (s : AccountDB) : AccountDB :=
  let '(newobj, stored, prev, s1) := createObject a s in
  match prev with
  | Some p => applied a stored (setBalance (sa_Balance (ao_data p)) newobj) s1
  | None => s1
  end.

(** ** Snapshots ([transaction.go], [accountdb.go]) *)

Definition Snapshot (s : AccountDB) : Z * AccountDB :=
  (nextRevisionID s,
   setJournal (transitions s) (validRevisions s ++ [mkRevision (nextRevisionID s) (length (transitions s))])
     (nextRevisionID s + 1) s).

(** [common.StringToAddress] of the forty digits of 3. *)
Definition ripemd : Address := BigToAddress 3.

(** A method called on what [getAccountObject] returns: nil is a panic. *)
Definition undoOn (a : Address) (m : accountObject -> effect) : M AccountDB Empty_set unit := fun s =>
  match getAccountObject a s with
  | (Some o, s1) => (Ok tt, applied a true (m o) s1)
  | (None, s1) => (Panic "nil pointer dereference", s1)
  end.

Definition undo (e : transitionEntry) : M AccountDB Empty_set unit :=
  match e with
  | createObjectChange a =>
      modify (fun s => setDirty (accountObjectsDirty s ∖ {[a]}) (setObjects (delete a (accountObjects s)) s))
  | resetObjectChange a => ret tt
  | suicideChange a prev prevbalance => fun s =>
      match getAccountObject a s with
      | (Some o, s1) =>
          (Ok tt, applied a true
             (setBalance prevbalance (setFlags prev (ao_touched o) (ao_deleted o) (ao_onDirty o) o)) s1)
      | (None, s1) => (Ok tt, s1)
      end
  | touchChange a prev prevDirty =>
      if negb prev && bool_decide (a <> ripemd) then
        undoOn a (fun o => mkEffect (setFlags (ao_suicided o) prev (ao_deleted o) (ao_onDirty o) o) [] false) ;;;
        (if negb prevDirty then modify (fun s => setDirty (accountObjectsDirty s ∖ {[a]}) s) else ret tt)
      else ret tt
  | balanceChange a prev => undoOn a (setBalance prev)
  | nonceChange a prev => undoOn a (setNonce prev)
  | codeChange a prevcode prevhash => undoOn a (setCode prevhash prevcode)
  | storageChange a key prevalue => undoOn a (setData key prevalue)
  | refundChange prev => modify (setRefund prev)
  end.

(** [sort.Search] on the ids, which increase, is the first one not below [revid]. *)
Definition RevertToSnapshot (revid : Z) : M AccountDB Empty_set unit := fun s =>
  match list_find (fun r => revid <= rev_id r) (validRevisions s) with
  | Some (idx, r) =>
      if rev_id r =? revid then
        let snapshot := journalIndex r in
        (for_each (rev (drop snapshot (transitions s))) undo ;;;
         modify (setJournal (take snapshot (transitions s)) (take idx (validRevisions s)) (nextRevisionID s))) s
      else (Panic "revision id cannot be reverted", s)
  | None => (Panic "revision id cannot be reverted", s)
  end.

(** ** Bringing the trie up to date *)

Definition clearJournalAndRefund (s : AccountDB) : AccountDB :=
  setRefund 0 (setJournal [] [] (nextRevisionID s) s).

(** A negative balance cannot be encoded. *)
Definition updateAccountObject {E} (a : Address) (o : accountObject) : M AccountDB E unit :=
  if sa_Balance (ao_data o) <? 0 then panic "can't serialize object"
  else modify (fun s => setStateTrie (<[a := ao_data o]> (trie s)) s).

Definition deleteAccountObject (a : Address) (o : accountObject) (s : AccountDB) : AccountDB :=
  setStateTrie (delete a (trie s))
    (setObjects (<[a := setFlags (ao_suicided o) (ao_touched o) true (ao_onDirty o) o]> (accountObjects s)) s).

Definition finaliseObject (deleteEmptyObjects : bool) (a : Address) : M AccountDB Empty_set unit :=
  s <- get ;;
  match accountObjects s !! a with
  | None => ret tt
  | Some o =>
      if ao_suicided o || (deleteEmptyObjects && empty o) then modify (deleteAccountObject a o)
      else
        let o1 := updateRoot (db s) o in
        modify (fun s => setObjects (<[a := o1]> (accountObjects s)) s) ;;;
        updateAccountObject a o1
  end.

Definition Finalise (deleteEmptyObjects : bool) : M AccountDB Empty_set unit :=
  s <- get ;;
  for_each (elements (accountObjectsDirty s)) (finaliseObject deleteEmptyObjects) ;;;
  modify clearJournalAndRefund.

Definition IntermediateRoot (deleteEmptyObjects : bool) : M AccountDB Empty_set Hash :=
  Finalise deleteEmptyObjects ;;; gets (fun s => stateHash (trie s)).

(** ** Writing to the node database *)

Inductive dbError := errDatabase.

Definition setNodes (nd : NodeDatabase) (s : AccountDB) : AccountDB :=
  mkDB nd (trie s) (accountObjects s) (accountObjectsDirty s) (refund s) (transitions s) (validRevisions s) (nextRevisionID s).
Definition insertTrie (t : gmap bytes bytes) (nd : NodeDatabase) : NodeDatabase :=
  mkNodes (nd_states nd) (<[storageHash t := t]> (nd_tries nd)) (nd_codes nd).
Definition InsertBlob (h : Hash) (c : bytes) (nd : NodeDatabase) : NodeDatabase :=
  mkNodes (nd_states nd) (nd_tries nd) (<[h := c]> (nd_codes nd)).
Definition insertState (t : gmap Address StoredAccount) (nd : NodeDatabase) : NodeDatabase :=
  mkNodes (<[stateHash t := t]> (nd_states nd)) (nd_tries nd) (nd_codes nd).

Definition putObject {E} (a : Address) (o : accountObject) : M AccountDB E unit :=
  modify (fun s => setObjects (<[a := o]> (accountObjects s)) s).

(** The new code goes to the node database under its hash. *)
Definition commitCode (a : Address) (o : accountObject) : M AccountDB dbError accountObject :=
  match ao_code o with
  | Some c =>
      if ao_dirtyCode o then
        let o1 := loadCode (ao_dbErr o) (Some c) false o in
        modify (fun s => setNodes (InsertBlob (sa_CodeHash (ao_data o)) c (db s)) s) ;;;
        putObject a o1 ;;; ret o1
      else ret o
  | None => ret o
  end.

Definition CommitTrie (a : Address) (o : accountObject) : M AccountDB dbError accountObject :=
  nd <- gets db ;;
  let o1 := updateTrie nd o in
  putObject a o1 ;;;
  if ao_dbErr o1 then fail errDatabase
  else
    let t := default ∅ (ao_trie o1) in
    let o2 := setRootData (storageHash t) o1 in
    modify (fun s => setNodes (insertTrie t (db s)) s) ;;;
    putObject a o2 ;;; ret o2.

Definition commitObject (deleteEmptyObjects : bool) (e : Address * accountObject) : M AccountDB dbError unit :=
  let '(a, o) := e in
  isDirty <- gets (fun s => bool_decide (a ∈ accountObjectsDirty s)) ;;
  (if ao_suicided o || (isDirty && deleteEmptyObjects && empty o) then modify (deleteAccountObject a o)
   else if isDirty then
     o1 <- commitCode a o ;;
     o2 <- CommitTrie a o1 ;;
     updateAccountObject a o2
   else ret tt) ;;;
  modify (fun s => setDirty (accountObjectsDirty s ∖ {[a]}) s).

(** The journal is cleared also when an object cannot be written. *)
Definition Commit (deleteEmptyObjects : bool) : M AccountDB dbError Hash := fun s =>
  let '(r, s1) := for_each (map_to_list (accountObjects s)) (commitObject deleteEmptyObjects) s in
  match r with
  | Ok _ =>
      let s2 := setNodes (insertState (trie s1) (db s1)) s1 in
      (Ok (stateHash (trie s2)), clearJournalAndRefund s2)
  | Err e => (Err e, clearJournalAndRefund s1)
  | Panic msg => (Panic msg, clearJournalAndRefund s1)
  end.

(** A new root under the same node database; the revision counter goes on. *)
Definition Reset (root : Hash) : M AccountDB dbError unit := fun s =>
  match OpenTrie (db s) root with
  | None => (Err errDatabase, s)
  | Some tr => (Ok tt, mkDB (db s) tr ∅ ∅ 0 [] [] (nextRevisionID s))
  end.

End accountdb.
