(* ===== verification/AccountDBTheorems.v ===== *)
(** * AccountDBTheorems: the account database implements its contract

    The cache of objects with its journal ([AccountDB.v]) refines the finite map
    of accounts ([World.v]): every operation answers what the map answers, and
    reverting to a snapshot puts back the world that was there when the snapshot
    was taken.  The refinement is a simulation: [abs] reads the world off the
    database, [undone] runs the journal backwards on worlds. *)
From S2P Require Import Prelude Bytes TrieEncoding World AccountDB.
Local Open Scope Z_scope.
Local Open Scope zv_scope.

(** ** The world a database stands for *)

(** Cached entries, a nil one included, hide those of the trie. *)
Definition overlay (c : gmap bytes (option bytes)) (t : gmap bytes bytes) : gmap bytes bytes :=
  merge (fun cv tv => match cv with Some v => v | None => tv end) c t.

Lemma lookup_overlay c t k :
  overlay c t !! k = match c !! k with Some v => v | None => t !! k end.
Proof. unfold overlay. rewrite lookup_merge. by destruct (c !! k), (t !! k). Qed.

Lemma overlay_empty_l t : overlay ∅ t = t.
Proof. apply map_eq. intros k. by rewrite lookup_overlay, lookup_empty. Qed.

Lemma overlay_insert c t k v :
  overlay (<[k:=v]> c) t = match v with Some x => <[k:=x]> (overlay c t) | None => delete k (overlay c t) end.
Proof.
  apply map_eq. intros j. rewrite lookup_overlay.
  destruct (decide (k = j)) as [<-|Hkj].
  - rewrite lookup_insert_eq. destruct v; by rewrite ?lookup_insert_eq, ?lookup_delete_eq.
  - rewrite lookup_insert_ne by done.
    destruct v; by rewrite ?lookup_insert_ne, ?lookup_delete_ne, lookup_overlay by done.
Qed.

(** Caching what the trie holds changes nothing. *)
Lemma overlay_cache c t k v :
  c !! k = None -> t !! k = Some v -> overlay (<[k:=Some v]> c) t = overlay c t.
Proof.
  intros Hc Ht. rewrite overlay_insert. apply insert_id. by rewrite lookup_overlay, Hc.
Qed.

Section refinement.
Context `{AccountHashes}.
Implicit Types (o : accountObject) (s : AccountDB) (a : Address) (w : World).

(** The code an object answers, the trie it reads: loaded, or found by its hash. *)
Definition codeOf (nd : NodeDatabase) (c : option bytes) (h : Hash) : option bytes :=
  match c with
  | Some _ => c
  | None => if bool_decide (h = emptyCodeHash) then None else nd_codes nd !! h
  end.
Definition trieOf (nd : NodeDatabase) (t : option (gmap bytes bytes)) (h : Hash) : gmap bytes bytes :=
  match t with
  | Some t => t
  | None => default ∅ (OpenStorageTrie nd h)
  end.

Definition absObject (nd : NodeDatabase) o : World.Account :=
  let t := trieOf nd (ao_trie o) (sa_Root (ao_data o)) in
  World.mkAccount (sa_Balance (ao_data o)) (sa_Nonce (ao_data o))
    (codeOf nd (ao_code o) (sa_CodeHash (ao_data o))) (ao_suicided o)
    (overlay (ao_cachedStorage o) t) t.

Definition absEntry (nd : NodeDatabase) (oo : option accountObject) (d : option StoredAccount) : option World.Account :=
  match oo with
  | Some o => if ao_deleted o then None else Some (absObject nd o)
  | None => (fun d => absObject nd (newAccountObject d)) <$> d
  end.

Definition absAccounts s : gmap Address World.Account :=
  merge (absEntry (db s)) (accountObjects s) (trie s).
Definition abs s : World := World.mkWorld (absAccounts s) (refund s).

Lemma lookup_abs s a :
  absAccounts s !! a = absEntry (db s) (accountObjects s !! a) (trie s !! a).
Proof.
  unfold absAccounts. rewrite lookup_merge.
  by destruct (accountObjects s !! a), (trie s !! a).
Qed.

(** No object was deleted by a [Finalise]. *)
Definition live s : Prop := forall a o, accountObjects s !! a = Some o -> ao_deleted o = false.

(** Only the cache and the dirty marks may differ. *)
Definition sameJournal s s' : Prop :=
  db s' = db s /\ trie s' = trie s /\ refund s' = refund s /\ transitions s' = transitions s /\
  validRevisions s' = validRevisions s /\ nextRevisionID s' = nextRevisionID s.

Lemma world_eq w w' :
  (forall a, World.accounts w !! a = World.accounts w' !! a) -> World.refund w = World.refund w' -> w = w'.
Proof. destruct w, w'; simpl. intros ? ->. f_equal. by apply map_eq. Qed.

Lemma abs_setObject s a o :
  ao_deleted o = false ->
  abs (setObjects (<[a:=o]> (accountObjects s)) s) =
  World.mkWorld (<[a := absObject (db s) o]> (absAccounts s)) (refund s).
Proof.
  intros Hd. apply world_eq; [|done]. intros b. simpl. rewrite lookup_abs.
  simpl accountObjects. destruct (decide (a = b)) as [<-|Hab].
  - rewrite !lookup_insert_eq. simpl. by rewrite Hd.
  - rewrite !lookup_insert_ne by done. by rewrite lookup_abs.
Qed.

Lemma live_setObject s a o :
  live s -> ao_deleted o = false -> live (setObjects (<[a:=o]> (accountObjects s)) s).
Proof.
  intros Hl Hd b p Hp. simpl in Hp. apply lookup_insert_Some in Hp as [[<- <-]|[_ Hp]]; eauto.
Qed.

(** [getAccountObject] fills the cache and answers what the world holds. *)
Lemma getAccountObject_spec a s :
  live s ->
  let '(oo, s1) := getAccountObject a s in
  sameJournal s s1 /\ live s1 /\ abs s1 = abs s /\ accountObjectsDirty s1 = accountObjectsDirty s /\
  absAccounts s !! a = absObject (db s) <$> oo /\
  match oo with
  | Some o => accountObjects s1 !! a = Some o /\ ao_deleted o = false
  | None => accountObjects s1 !! a = None /\ trie s1 !! a = None
  end.
Proof.
  intros Hl. rewrite lookup_abs. unfold getAccountObject.
  destruct (accountObjects s !! a) as [o|] eqn:Ho; simpl.
  - rewrite (Hl _ _ Ho). simpl. pose proof (Hl _ _ Ho). by repeat split.
  - unfold getAccountObjectFromTrie. destruct (trie s !! a) as [d|] eqn:Hd; simpl.
    + unfold setAccountObject. rewrite Ho. repeat split; [..|by simpl; rewrite lookup_insert_eq].
      * by apply live_setObject.
      * rewrite abs_setObject by done. apply world_eq; [|done]. intros b. simpl.
        rewrite lookup_insert. destruct (decide (a = b)) as [<-|]; [|done].
        rewrite lookup_abs, Ho, Hd. done.
    + by repeat split.
Qed.

(** ** The journal, run backwards on worlds *)

Definition onAccount a (f : World.Account -> World.Account) w : option World :=
  (fun x => World.mkWorld (<[a := f x]> (World.accounts w)) (World.refund w)) <$> World.accounts w !! a.

Definition undoW (e : transitionEntry) w : option World :=
  match e with
  | createObjectChange a => Some (World.mkWorld (delete a (World.accounts w)) (World.refund w))
  | resetObjectChange _ => Some w
  | suicideChange a prev bal => onAccount a (fun x => World.setBalance bal (World.setSuicided prev x)) w
  | balanceChange a prev => onAccount a (World.setBalance prev) w
  | nonceChange a prev => onAccount a (World.setNonce prev) w
  | storageChange a key prev => onAccount a (World.setData key prev) w
  | codeChange a prev _ => onAccount a (World.setCode prev) w
  | refundChange prev => Some (World.mkWorld (World.accounts w) prev)
  | touchChange a _ _ => onAccount a id w
  end.

Fixpoint undone (es : list transitionEntry) w : option World :=
  match es with
  | [] => Some w
  | e :: es' => undoW e w ≫= undone es'
  end.

Lemma undone_app es1 es2 w : undone (es1 ++ es2) w = undone es1 w ≫= undone es2.
Proof.
  revert w. induction es1 as [|e es1 IH]; intros w; simpl; [done|].
  destruct (undoW e w); simpl; auto.
Qed.

(** An account is created only where the trie has none; code is journalled with
    the hash it is found under. *)
Definition entryOk s (e : transitionEntry) : Prop :=
  match e with
  | createObjectChange a => trie s !! a = None
  | codeChange _ c h => codeOf (db s) c h = c
  | _ => True
  end.

(** From [s] the database has come to [s'], which stands for [w'], and the journal
    leads back. *)
Definition extends s s' w' : Prop :=
  db s' = db s /\ trie s' = trie s /\ live s' /\
  validRevisions s' = validRevisions s /\ nextRevisionID s' = nextRevisionID s /\ abs s' = w' /\
  exists es, transitions s' = transitions s ++ es /\ Forall (entryOk s) es /\
             undone (rev es) w' = Some (abs s).

Lemma extends_refl s : live s -> extends s s (abs s).
Proof. intros Hl. split_and!; try done. exists []. by rewrite app_nil_r. Qed.

Lemma extends_trans s1 s2 s3 w2 w3 : extends s1 s2 w2 -> extends s2 s3 w3 -> extends s1 s3 w3.
Proof.
  intros (Hd & Ht & Hl & Hv & Hn & Ha & es & He & Hok & Hu)
         (Hd' & Ht' & Hl' & Hv' & Hn' & Ha' & es' & He' & Hok' & Hu').
  split_and!; try (done || congruence). exists (es ++ es'). split_and!.
  - by rewrite He', He, (assoc_L (++)).
  - apply Forall_app. split; [done|]. eapply Forall_impl; [exact Hok'|]. intros e.
    unfold entryOk. by rewrite Hd, Ht.
  - rewrite rev_app_distr, undone_app, Hu'. simpl. by rewrite Ha.
Qed.

Lemma extends_same s s' : sameJournal s s' -> live s' -> abs s' = abs s -> extends s s' (abs s).
Proof.
  intros (? & ? & ? & Ht & ? & ?) ? ?. split_and!; try done. exists [].
  by rewrite Ht, app_nil_r.
Qed.

(** ** A method called on an object *)

(** What a method of the object must do: change the account it stands for by [f]
    and journal how to get back. *)
Definition implements (nd : NodeDatabase) a (m : accountObject -> effect) (f : World.Account -> World.Account) : Prop :=
  forall o, ao_deleted o = false ->
  ao_deleted (ef_object (m o)) = false /\
  absObject nd (ef_object (m o)) = f (absObject nd o) /\
  (forall s, db s = nd -> Forall (entryOk s) (ef_journal (m o))) /\
  forall w, World.accounts w !! a = Some (f (absObject nd o)) ->
    undone (rev (ef_journal (m o))) w =
    Some (World.mkWorld (<[a := absObject nd o]> (World.accounts w)) (World.refund w)).

Lemma applied_abs a e s :
  ao_deleted (ef_object e) = false ->
  abs (applied a true e s) = World.mkWorld (<[a := absObject (db s) (ef_object e)]> (absAccounts s)) (refund s).
Proof. intros Hd. rewrite <- abs_setObject by done. unfold applied. by destruct (ef_marks e). Qed.

Lemma applied_live a e s : live s -> ao_deleted (ef_object e) = false -> live (applied a true e s).
Proof.
  intros Hl Hd. pose proof (live_setObject s a (ef_object e) Hl Hd) as Hl'. unfold applied.
  by destruct (ef_marks e).
Qed.

Lemma applied_extends a m f o s :
  live s -> implements (db s) a m f -> accountObjects s !! a = Some o ->
  extends s (applied a true (m o) s)
    (World.mkWorld (<[a := f (absObject (db s) o)]> (absAccounts s)) (refund s)).
Proof.
  intros Hl Hm Ho. pose proof (Hl _ _ Ho) as Hd.
  destruct (Hm o Hd) as (Hd' & Ha & Hok & Hu).
  assert (abs (applied a true (m o) s) =
          World.mkWorld (<[a := f (absObject (db s) o)]> (absAccounts s)) (refund s)) as Habs
    by (rewrite applied_abs, Ha; done).
  split_and!; [by unfold applied; destruct (ef_marks (m o))..| | | |exact Habs|].
  - by apply applied_live.
  - by unfold applied; destruct (ef_marks (m o)).
  - by unfold applied; destruct (ef_marks (m o)).
  - exists (ef_journal (m o)). split_and!; [by unfold applied; destruct (ef_marks (m o))|by apply Hok|].
    rewrite Hu by (simpl; by rewrite lookup_insert_eq). f_equal. simpl.
    apply world_eq; [|done]. intros b. simpl. rewrite insert_insert_eq.
    apply (f_equal (fun g => g !! b)). apply insert_id. rewrite lookup_abs, Ho. simpl. by rewrite Hd.
Qed.

(** A new object in the cache, dirty and journalled. *)
Definition newObject : accountObject := ef_object (setNonce 0 (newAccountObject emptyStored)).

Lemma absObject_newObject nd : absObject nd newObject = World.newAccount.
Proof.
  unfold absObject, trieOf, codeOf, OpenStorageTrie, isEmptyRoot; simpl.
  rewrite !bool_decide_eq_true_2 by done. simpl. by rewrite overlay_empty_l.
Qed.

Lemma createObject_new a s :
  live s -> accountObjects s !! a = None -> trie s !! a = None ->
  exists s', createObject a s = (newObject, true, None, s') /\
             extends s s' (World.mkWorld (<[a := World.newAccount]> (absAccounts s)) (refund s)) /\
             db s' = db s /\ accountObjects s' !! a = Some newObject.
Proof.
  intros Hl Ho Ht. unfold createObject, getAccountObject, getAccountObjectFromTrie.
  rewrite Ho, Ht. simpl. rewrite bool_decide_eq_true_2 by done. unfold setAccountObject. simpl. rewrite Ho.
  eexists. split; [reflexivity|]. simpl. rewrite lookup_insert_eq. split_and!; [|done|done].
  pose proof (abs_setObject s a newObject eq_refl) as Habs. rewrite absObject_newObject in Habs.
  split_and!; [done|done|by apply (live_setObject s a newObject)|done|done|exact Habs|].
  exists [createObjectChange a]. split_and!; [done|by constructor|]. simpl.
  f_equal. apply world_eq; [|done]. intros b. simpl. rewrite delete_insert_eq.
  destruct (decide (a = b)) as [<-|]; [|by rewrite lookup_delete_ne].
  rewrite lookup_delete_eq, lookup_abs, Ho, Ht. done.
Qed.

Lemma onObject_extends a m f s :
  live s -> implements (db s) a m f -> extends s (onObject a m s) (World.update a f (abs s)).
Proof.
  intros Hl Hm. unfold onObject, getOrNewAccountObject.
  pose proof (getAccountObject_spec a s Hl) as Hget.
  destruct (getAccountObject a s) as [[o|] s1]; destruct Hget as (Hj & Hl1 & Ha1 & _ & Hw & Ho & Hx);
    pose proof (extends_same _ _ Hj Hl1 Ha1) as He; destruct Hj as (Hdb & Htr & Hrf & _).
  - eapply extends_trans; [exact He|]. rewrite <- Hdb in Hm.
    pose proof (applied_extends a m f o s1 Hl1 Hm Ho) as Hap.
    assert (World.update a f (abs s) =
            World.mkWorld (<[a := f (absObject (db s1) o)]> (absAccounts s1)) (refund s1)) as ->; [|done].
    rewrite <- Ha1. unfold World.update, World.getOrNewAccountObject. simpl.
    rewrite lookup_abs, Ho. simpl. by rewrite Hx.
  - destruct (createObject_new a s1 Hl1 Ho Hx) as (s2 & -> & He2 & Hdb2 & Ho2).
    eapply extends_trans; [exact He|]. eapply extends_trans; [exact He2|].
    assert (live s2) as Hl2 by apply He2. rewrite <- Hdb, <- Hdb2 in Hm.
    pose proof (applied_extends a m f newObject s2 Hl2 Hm Ho2) as Hap.
    rewrite absObject_newObject in Hap.
    assert (abs s2 = World.mkWorld (<[a := World.newAccount]> (absAccounts s1)) (refund s1)) as Ha2 by apply He2.
    replace (World.update a f (abs s)) with
      (World.mkWorld (<[a := f World.newAccount]> (absAccounts s2)) (refund s2)); [done|].
    unfold abs in Ha2. injection Ha2 as -> ->. rewrite insert_insert_eq.
    rewrite <- Ha1. unfold World.update, World.getOrNewAccountObject. simpl.
    by rewrite lookup_abs, Ho, Hx.
Qed.

(** ** The methods of the object *)

Lemma getTrie_spec nd o :
  let '(t, o1) := getTrie nd o in
  t = World.StorageTrie (absObject nd o) /\ absObject nd o1 = absObject nd o /\
  ao_deleted o1 = ao_deleted o /\ ao_trie o1 = Some t /\ ao_data o1 = ao_data o /\
  ao_cachedStorage o1 = ao_cachedStorage o /\ ao_dirtyStorage o1 = ao_dirtyStorage o.
Proof.
  unfold getTrie, absObject. destruct (ao_trie o) as [t|] eqn:Ht; simpl; [by rewrite Ht|].
  by destruct (OpenStorageTrie nd (sa_Root (ao_data o))) as [t|]; simpl.
Qed.

Lemma GetData_ao_spec nd key o :
  let '(v, o1) := GetData_ao nd key o in
  v = World.Storage (absObject nd o) !! key /\ absObject nd o1 = absObject nd o /\ ao_deleted o1 = ao_deleted o.
Proof.
  unfold GetData_ao. simpl. rewrite lookup_overlay.
  destruct (ao_cachedStorage o !! key) as [v|] eqn:Hc; [done|].
  pose proof (getTrie_spec nd o) as Ht. destruct (getTrie nd o) as [t o1].
  destruct Ht as (Et & Ha & Hd & Ht1 & Hdata & Hca & _). simpl in Et. rewrite <- Et.
  destruct (t !! key) as [v|] eqn:Hk; [|done]. split_and!; [done| |done].
  rewrite <- Ha. unfold absObject; simpl. f_equal. rewrite Ht1; simpl. apply overlay_cache; [by rewrite Hca|done].
Qed.

Lemma Code_ao_spec nd o :
  let '(c, o1) := Code_ao nd o in
  c = World.Code (absObject nd o) /\ absObject nd o1 = absObject nd o /\ ao_deleted o1 = ao_deleted o /\
  codeOf nd c (sa_CodeHash (ao_data o1)) = c.
Proof.
  unfold Code_ao, absObject, codeOf; simpl. destruct (ao_code o) as [c|] eqn:Hc; simpl; [by rewrite Hc|].
  case_bool_decide as Hh; simpl; [by rewrite Hc, bool_decide_eq_true_2|].
  by destruct (nd_codes nd !! sa_CodeHash (ao_data o)) eqn:Hn; simpl; rewrite ?bool_decide_eq_false_2, ?Hn.
Qed.

Lemma setBalance_abs nd v o : absObject nd (ef_object (setBalance v o)) = World.setBalance v (absObject nd o).
Proof. done. Qed.

(** Undoing on the account [f x], where [g] takes [f x] back to [x]. *)
Lemma onAccount_back a (g : World.Account -> World.Account) x y w :
  World.accounts w !! a = Some y -> g y = x ->
  onAccount a g w = Some (World.mkWorld (<[a := x]> (World.accounts w)) (World.refund w)).
Proof. unfold onAccount. intros -> <-. done. Qed.

Ltac back := simpl; intros w Hw; rewrite (onAccount_back _ _ _ _ _ Hw eq_refl).

Lemma implements_SetBalance nd a v : implements nd a (SetBalance_ao a v) (World.setBalance v).
Proof. intros o Hd. split_and!; [done|done|by intros; constructor|by back]. Qed.

Lemma implements_SetNonce nd a n : implements nd a (SetNonce_ao a n) (World.setNonce n).
Proof. intros o Hd. split_and!; [done|done|by intros; constructor|by back]. Qed.

Lemma implements_nothing nd a : implements nd a (fun o => mkEffect o [] false) id.
Proof.
  intros o Hd. split_and!; [done|done|by intros; constructor|]. intros w Hw. simpl.
  f_equal. apply world_eq; [|done]. intros b. simpl. by rewrite insert_id.
Qed.

Lemma implements_AddBalance nd a v :
  implements nd a (AddBalance_ao a v) (fun x => World.setBalance (World.Balance x + v) x).
Proof.
  intros o Hd. unfold AddBalance_ao. destruct (Z.eqb_spec v 0) as [->|].
  - assert (World.setBalance (World.Balance (absObject nd o) + 0) (absObject nd o) = absObject nd o) as ->
      by (unfold World.setBalance; simpl; by rewrite Z.add_0_r).
    destruct (empty o); [|by apply (implements_nothing nd a)].
    split_and!; [done|done|by intros; constructor|by back].
  - apply (implements_SetBalance nd a (sa_Balance (ao_data o) + v) o Hd).
Qed.

Lemma implements_SubBalance nd a v :
  implements nd a (SubBalance_ao a v) (fun x => World.setBalance (World.Balance x - v) x).
Proof.
  intros o Hd. unfold SubBalance_ao. destruct (Z.eqb_spec v 0) as [->|].
  - assert (World.setBalance (World.Balance (absObject nd o) - 0) (absObject nd o) = absObject nd o) as ->
      by (unfold World.setBalance; simpl; by rewrite Z.sub_0_r).
    by apply (implements_nothing nd a).
  - apply (implements_SetBalance nd a (sa_Balance (ao_data o) - v) o Hd).
Qed.

Lemma setData_back key v x : World.setData key (World.Storage x !! key) (World.setData key v x) = x.
Proof.
  destruct x as [b n c su st t]. unfold World.setData; simpl. f_equal. apply map_eq. intros j.
  destruct (decide (key = j)) as [<-|Hne].
  - destruct (st !! key) as [u|] eqn:E; [by rewrite lookup_insert_eq|by rewrite lookup_delete_eq].
  - destruct (st !! key), v; by rewrite ?lookup_insert_ne, ?lookup_delete_ne, ?lookup_insert_ne, ?lookup_delete_ne by done.
Qed.

Lemma implements_SetData nd a key v :
  implements nd a (SetData_ao nd a key v) (World.setData key v).
Proof.
  intros o Hd. unfold SetData_ao. pose proof (GetData_ao_spec nd key o) as Hg.
  destruct (GetData_ao nd key o) as [prev o1]. destruct Hg as (-> & Ha & Hd1).
  split_and!; [by simpl; rewrite Hd1| |by intros; constructor|].
  - rewrite <- Ha. unfold absObject, World.setData; simpl. f_equal. apply overlay_insert.
  - intros w Hw. transitivity (onAccount a (World.setData key (World.Storage (absObject nd o) !! key)) w ≫= Some); [done|].
    rewrite (onAccount_back _ _ _ _ _ Hw (setData_back key v (absObject nd o))). done.
Qed.

Lemma implements_SetCode nd a c :
  implements nd a (SetCode_ao nd a (Sum256 c) c) (World.setCode (Some c)).
Proof.
  intros o Hd. unfold SetCode_ao. pose proof (Code_ao_spec nd o) as Hc.
  destruct (Code_ao nd o) as [prev o1]. destruct Hc as (-> & Ha & Hd1 & Hok).
  split_and!; [by simpl; rewrite Hd1| | |].
  - by rewrite <- Ha.
  - intros s <-. by repeat constructor.
  - intros w Hw. transitivity (onAccount a (World.setCode (World.Code (absObject nd o))) w ≫= Some); [done|].
    rewrite (onAccount_back _ _ (absObject nd o) _ _ Hw) by done. done.
Qed.

(** ** The other operations *)

Lemma readObject_extends {A} a (none : A) q (g : World.Account -> A) s :
  live s ->
  (forall o, let '(x, o1) := q o in
     x = g (absObject (db s) o) /\ absObject (db s) o1 = absObject (db s) o /\ ao_deleted o1 = ao_deleted o) ->
  fst (readObject a none q s) = from_option g none (World.accounts (abs s) !! a) /\
  extends s (snd (readObject a none q s)) (abs s).
Proof.
  intros Hl Hq. unfold readObject. pose proof (getAccountObject_spec a s Hl) as Hget.
  destruct (getAccountObject a s) as [[o|] s1]; destruct Hget as (Hj & Hl1 & Ha1 & _ & Hw & Ho & Hx);
    simpl; rewrite Hw; [|by split; [|apply extends_same]].
  specialize (Hq o). destruct (q o) as [x o1]. destruct Hq as (-> & Ha & Hd). split; [done|].
  rewrite Hx in Hd. simpl. apply extends_same; [done|by apply live_setObject|].
  rewrite abs_setObject by done. rewrite <- Ha1. destruct Hj as (Hdb & _). rewrite Hdb, Ha.
  apply world_eq; [|done]. intros b. simpl. rewrite lookup_insert.
  destruct (decide (a = b)) as [<-|]; [|done]. by rewrite lookup_abs, Ho, Hdb; simpl; rewrite Hx.
Qed.

Lemma CreateAccount_extends a s : live s -> extends s (CreateAccount a s) (World.CreateAccount a (abs s)).
Proof.
  intros Hl. unfold CreateAccount. pose proof (getAccountObject_spec a s Hl) as Hget.
  destruct (getAccountObject a s) as [[o|] s1] eqn:Eg; destruct Hget as (Hj & Hl1 & Ha1 & _ & Hw & Ho & Hx).
  - unfold createObject, setAccountObject. rewrite Eg. simpl. rewrite Ho, bool_decide_eq_false_2 by done. simpl.
    assert (World.CreateAccount a (abs s) = abs s) as ->.
    { apply world_eq; [|done]. intros b. unfold World.CreateAccount. rewrite World.lookup_update.
      destruct (decide (a = b)) as [<-|]; [|done]. unfold World.getOrNewAccountObject. simpl. by rewrite Hw. }
    destruct Hj as (Hdb & Htr & Hrf & Hts & Hv & Hn).
    split_and!; [done|done|exact Hl1|done|done|by rewrite <- Ha1|].
    exists [resetObjectChange a]. simpl. rewrite Hts, app_nil_r. by repeat constructor.
  - destruct Hj as (Hdb & Htr & Hj'). unfold createObject at 1. rewrite Eg.
    pose proof (extends_same s s1 (conj Hdb (conj Htr Hj')) Hl1 Ha1) as He.
    destruct (createObject_new a s1 Hl1 Ho Hx) as (s2 & Hc & He2 & _).
    unfold createObject, getAccountObject, getAccountObjectFromTrie in Hc. rewrite Ho, Hx in Hc. simpl in Hc.
    injection Hc as _ Hc. simpl. rewrite Hc. eapply extends_trans; [exact He|].
    replace (World.CreateAccount a (abs s)) with
      (World.mkWorld (<[a := World.newAccount]> (absAccounts s1)) (refund s1)); [done|].
    unfold World.CreateAccount, World.update, World.getOrNewAccountObject. simpl. rewrite Hw.
    pose proof (f_equal World.accounts Ha1) as E1. pose proof (f_equal World.refund Ha1) as E2.
    simpl in E1, E2. by rewrite E1, E2.
Qed.

Lemma implements_suicide nd a :
  implements nd a
    (fun o => journalled [suicideChange a (ao_suicided o) (sa_Balance (ao_data o))]
       (mkEffect (setBalanceData 0 (ef_object (markSuicided o))) [] (ef_marks (markSuicided o))))
    (fun x => World.setSuicided true (World.setBalance 0 x)).
Proof. intros o Hd. split_and!; [done|done|by intros; constructor|by back]. Qed.

Lemma Suicide_extends a s :
  live s ->
  fst (Suicide a s) = fst (World.Suicide a (abs s)) /\
  extends s (snd (Suicide a s)) (snd (World.Suicide a (abs s))).
Proof.
  intros Hl. unfold Suicide, World.Suicide. pose proof (getAccountObject_spec a s Hl) as Hget.
  destruct (getAccountObject a s) as [[o|] s1]; destruct Hget as (Hj & Hl1 & Ha1 & _ & Hw & Ho & Hx);
    simpl; rewrite Hw; simpl; (split; [done|]); [|by apply extends_same].
  eapply extends_trans; [by apply extends_same|]. destruct Hj as (Hdb & Htr & Hrf & _).
  pose proof (applied_extends a _ _ o s1 Hl1 (implements_suicide (db s1) a) Ho) as Hap.
  pose proof (f_equal World.accounts Ha1) as E1. simpl in E1.
  by rewrite E1, Hrf, Hdb in Hap.
Qed.

Lemma AddRefund_extends gas s : live s -> extends s (AddRefund gas s) (World.AddRefund gas (abs s)).
Proof.
  intros Hl. split_and!; try done. exists [refundChange (refund s)].
  split_and!; [done|by constructor|done].
Qed.

Lemma AddBalance_extends a v s : live s -> extends s (AddBalance a v s) (World.AddBalance a v (abs s)).
Proof. intros Hl. apply onObject_extends; [done|apply implements_AddBalance]. Qed.
Lemma SubBalance_extends a v s : live s -> extends s (SubBalance a v s) (World.SubBalance a v (abs s)).
Proof. intros Hl. apply onObject_extends; [done|apply implements_SubBalance]. Qed.

Lemma Transfer_extends a b v s : live s -> extends s (Transfer a b v s) (World.Transfer a b v (abs s)).
Proof.
  intros Hl. unfold Transfer, World.Transfer. destruct (v <=? 0); [by apply extends_refl|].
  pose proof (SubBalance_extends a v s Hl) as H1. eapply extends_trans; [exact H1|].
  destruct H1 as (_ & _ & Hl1 & _ & _ & <- & _). by apply AddBalance_extends.
Qed.

(** ** The journal, run backwards on the database *)

(** What undoing leaves alone. *)
Definition undoFrame s s' : Prop :=
  db s' = db s /\ trie s' = trie s /\ transitions s' = transitions s /\
  validRevisions s' = validRevisions s /\ nextRevisionID s' = nextRevisionID s.

Lemma undoOn_sim a m f s w' :
  live s -> (forall o, ao_deleted (ef_object (m o)) = ao_deleted o) -> (forall o, ef_journal (m o) = []) ->
  (forall o, absObject (db s) (ef_object (m o)) = f (absObject (db s) o)) ->
  onAccount a f (abs s) = Some w' ->
  exists s', undoOn a m s = (Ok tt, s') /\ abs s' = w' /\ live s' /\ undoFrame s s'.
Proof.
  intros Hl Hdel Hj Hm Hw'. unfold undoOn. pose proof (getAccountObject_spec a s Hl) as Hget.
  unfold onAccount in Hw'. simpl in Hw'.
  destruct (getAccountObject a s) as [[o|] s1]; destruct Hget as (Hsj & Hl1 & Ha1 & _ & Hw & Ho & Hx);
    rewrite Hw in Hw'; simpl in Hw'; simplify_eq.
  destruct Hsj as (Hdb & Htr & Hrf & Hts & Hv & Hn).
  eexists. split; [reflexivity|]. rewrite applied_abs by (by rewrite Hdel). split_and!.
  - by rewrite Hdb, Hm, Hrf, Ha1.
  - apply applied_live; [done|by rewrite Hdel].
  - unfold undoFrame, applied. rewrite Hj. destruct (ef_marks (m o)); simpl; by rewrite app_nil_r.
Qed.

Lemma undo_sim e s w' :
  live s -> entryOk s e -> undoW e (abs s) = Some w' ->
  exists s', undo e s = (Ok tt, s') /\ abs s' = w' /\ live s' /\ undoFrame s s'.
Proof.
  intros Hl Hok Hw. destruct e; simpl in Hw; simplify_eq; simpl undo.
  - eexists. split; [reflexivity|]. simpl in Hok. split_and!; [|by intros b o Ho; simpl in Ho; apply lookup_delete_Some in Ho as [_ Ho]; eapply Hl|done].
    apply world_eq; [|done]. intros b. simpl. rewrite lookup_abs. simpl.
    destruct (decide (account = b)) as [<-|]; [by rewrite !lookup_delete_eq, Hok|].
    by rewrite !lookup_delete_ne, lookup_abs by done.
  - by eexists.
  - destruct (undoOn_sim account
      (fun o => setBalance prevbalance (setFlags prev (ao_touched o) (ao_deleted o) (ao_onDirty o) o))
      _ s w' Hl (fun _ => eq_refl) (fun _ => eq_refl) (fun _ => eq_refl) Hw) as (s' & Hu & Hs').
    exists s'. split; [|done]. revert Hu. unfold undoOn. by destruct (getAccountObject account s) as [[o|] s1].
  - by eapply undoOn_sim; [exact Hl|..|exact Hw].
  - by eapply undoOn_sim; [exact Hl|..|exact Hw].
  - eapply undoOn_sim; [exact Hl|done|done| |exact Hw]. intros o. unfold absObject, World.setData; simpl. f_equal.
    apply overlay_insert.
  - eapply undoOn_sim; [exact Hl|done|done| |exact Hw]. intros o. unfold absObject, World.setCode; simpl. by rewrite Hok.
  - by eexists.
  - destruct (negb prev && bool_decide (account <> ripemd)).
    + destruct (undoOn_sim account
        (fun o => mkEffect (setFlags (ao_suicided o) prev (ao_deleted o) (ao_onDirty o) o) [] false)
        id s w' Hl (fun _ => eq_refl) (fun _ => eq_refl) (fun _ => eq_refl) Hw) as (s' & Hu & Ha & Hl' & Hf).
      unfold bind. rewrite Hu. destruct (negb prevDirty); eexists; by split.
    + exists s. split_and!; try done. unfold onAccount in Hw. apply fmap_Some in Hw as (x & Hx & ->).
      apply world_eq; [|done]. intros b. simpl. simpl in Hx. by rewrite insert_id.
Qed.

Lemma undo_all_sim es s w' :
  live s -> Forall (entryOk s) es -> undone es (abs s) = Some w' ->
  exists s', for_each es undo s = (Ok tt, s') /\ abs s' = w' /\ live s' /\ undoFrame s s'.
Proof.
  revert s. induction es as [|e es IH]; intros s Hl Hok Hw; simpl in Hw.
  - exists s. by simplify_eq.
  - apply Forall_cons in Hok as [He Hok]. apply bind_Some in Hw as (w1 & Hw1 & Hw).
    destruct (undo_sim e s w1 Hl He Hw1) as (s1 & Hu & <- & Hl1 & Hf1).
    destruct (IH s1) as (s2 & Hu2 & Ha2 & Hl2 & Hf2); [done| |done|].
    { eapply Forall_impl; [exact Hok|]. intros e'. destruct Hf1 as (Hdb & Htr & _).
      unfold entryOk. by rewrite Hdb, Htr. }
    exists s2. simpl. unfold bind. rewrite Hu. split_and!; [done|done|done|].
    unfold undoFrame in *. destruct_and!. by split_and!; etransitivity.
Qed.

(** ** The operations, and the contract they implement *)

Inductive dbOp :=
| OpAddBalance a (v : Z) | OpSubBalance a (v : Z) | OpSetBalance a (v : Z)
| OpSetNonce a (n : Z) | OpSetCode a (c : bytes) | OpSetData a (k : bytes) (v : option bytes)
| OpCreateAccount a | OpTransfer a (b : Address) (v : Z) | OpSuicide a | OpAddRefund (gas : Z)
| OpExist a | OpGetBalance a | OpGetNonce a | OpGetCode a | OpGetData a (k : bytes)
| OpHasSuicided a | OpCanTransfer a (v : Z) | OpDataIterator a | OpGetRefund
| OpSnapshot | OpRevert (id : Z).

Inductive reply :=
| RUnit | RBool (b : bool) | RInt (z : Z) | RBytes (v : option bytes) | REntries (m : option (gmap bytes bytes)).

Definition asks {S A} (r : A -> reply) (q : S -> A * S) : M S Empty_set reply :=
  fun st => let '(x, st') := q st in (Ok (r x), st').
Definition does {S} (f : S -> S) : M S Empty_set reply := fun st => (Ok RUnit, f st).

Definition runOp (op : dbOp) : M AccountDB Empty_set reply :=
  match op with
  | OpAddBalance a v => does (AddBalance a v)
  | OpSubBalance a v => does (SubBalance a v)
  | OpSetBalance a v => does (SetBalance a v)
  | OpSetNonce a n => does (SetNonce a n)
  | OpSetCode a c => does (SetCode a c)
  | OpSetData a k v => does (SetData a k v)
  | OpCreateAccount a => does (CreateAccount a)
  | OpTransfer a b v => does (Transfer a b v)
  | OpSuicide a => asks RBool (Suicide a)
  | OpAddRefund gas => does (AddRefund gas)
  | OpExist a => asks RBool (Exist a)
  | OpGetBalance a => asks RInt (GetBalance a)
  | OpGetNonce a => asks RInt (GetNonce a)
  | OpGetCode a => asks RBytes (GetCode a)
  | OpGetData a k => asks RBytes (GetData a k)
  | OpHasSuicided a => asks RBool (HasSuicided a)
  | OpCanTransfer a v => asks RBool (CanTransfer a v)
  | OpDataIterator a => asks REntries (DataIterator a)
  | OpGetRefund => gets (fun s => RInt (refund s))
  | OpSnapshot => asks RInt Snapshot
  | OpRevert id => RevertToSnapshot id ;;; ret RUnit
  end.

(** The contract: a world, and the worlds kept by the snapshots still valid. *)
Record Spec := mkSpec { sp_world : World; sp_snaps : list (Z * World); sp_next : Z }.

Definition onWorld (f : World -> World) : M Spec Empty_set reply :=
  does (fun t => mkSpec (f (sp_world t)) (sp_snaps t) (sp_next t)).
Definition askWorld (q : World -> reply) : M Spec Empty_set reply := gets (fun t => q (sp_world t)).

Definition specOp (op : dbOp) : M Spec Empty_set reply :=
  match op with
  | OpAddBalance a v => onWorld (World.AddBalance a v)
  | OpSubBalance a v => onWorld (World.SubBalance a v)
  | OpSetBalance a v => onWorld (World.SetBalance a v)
  | OpSetNonce a n => onWorld (World.SetNonce a n)
  | OpSetCode a c => onWorld (World.SetCode a c)
  | OpSetData a k v => onWorld (match v with Some x => World.SetData a k x | None => World.RemoveData a k end)
  | OpCreateAccount a => onWorld (World.CreateAccount a)
  | OpTransfer a b v => onWorld (World.Transfer a b v)
  | OpSuicide a => fun t =>
      let '(r, w) := World.Suicide a (sp_world t) in (Ok (RBool r), mkSpec w (sp_snaps t) (sp_next t))
  | OpAddRefund gas => onWorld (World.AddRefund gas)
  | OpExist a => askWorld (fun w => RBool (World.Exist w a))
  | OpGetBalance a => askWorld (fun w => RInt (World.GetBalance w a))
  | OpGetNonce a => askWorld (fun w => RInt (World.GetNonce w a))
  | OpGetCode a => askWorld (fun w => RBytes (World.GetCode w a))
  | OpGetData a k => askWorld (fun w => RBytes (World.GetData w a k))
  | OpHasSuicided a => askWorld (fun w => RBool (World.HasSuicided w a))
  | OpCanTransfer a v => askWorld (fun w => RBool (World.CanTransfer w a v))
  | OpDataIterator a => askWorld (fun w => REntries (World.StorageTrie <$> World.accounts w !! a))
  | OpGetRefund => askWorld (fun w => RInt (World.refund w))
  | OpSnapshot => fun t =>
      (Ok (RInt (sp_next t)), mkSpec (sp_world t) (sp_snaps t ++ [(sp_next t, sp_world t)]) (sp_next t + 1))
  | OpRevert id => fun t =>
      match list_find (fun p => p.1 = id) (sp_snaps t) with
      | Some (i, (_, w)) => (Ok RUnit, mkSpec w (take i (sp_snaps t)) (sp_next t))
      | None => (Panic "revision id cannot be reverted", t)
      end
  end.

(** A sequence of operations, with what each answers. *)
Fixpoint sequence {S A} (run : A -> M S Empty_set reply) (ops : list A) : M S Empty_set (list reply) :=
  match ops with
  | [] => ret []
  | op :: ops' => r <- run op ;; rs <- sequence run ops' ;; ret (r :: rs)
  end.

(** ** The simulation *)

Definition keptBy s (r : revision) (p : Z * World) : Prop :=
  rev_id r = p.1 /\ (journalIndex r <= length (transitions s))%nat /\
  undone (rev (drop (journalIndex r) (transitions s))) (abs s) = Some p.2.

Definition revisionLt (r r' : revision) : Prop :=
  rev_id r < rev_id r' /\ (journalIndex r <= journalIndex r')%nat.

Record simulates s (t : Spec) : Prop := {
  sim_world : abs s = sp_world t;
  sim_live : live s;
  sim_journal : Forall (entryOk s) (transitions s);
  sim_next : nextRevisionID s = sp_next t;
  sim_snaps : Forall2 (keptBy s) (validRevisions s) (sp_snaps t);
  sim_sorted : StronglySorted revisionLt (validRevisions s);
  sim_fresh : Forall (fun r => rev_id r < nextRevisionID s) (validRevisions s);
}.

Lemma simulates_extends s t s' w' :
  simulates s t -> extends s s' w' -> simulates s' (mkSpec w' (sp_snaps t) (sp_next t)).
Proof.
  intros [Hw Hl Hj Hn Hs Hso Hfr] (Hdb & Htr & Hl' & Hv & Hn' & Ha & es & He & Hok & Hu).
  assert (Hent : forall e, entryOk s e -> entryOk s' e) by (unfold entryOk; by rewrite Hdb, Htr).
  split; simpl; [done|done| |congruence| |by rewrite Hv|by rewrite Hv, Hn'].
  - rewrite He. apply Forall_app. split; eapply Forall_impl; eauto.
  - rewrite Hv. eapply Forall2_impl; [exact Hs|]. intros r p (Hid & Hle & Hund).
    unfold keptBy. rewrite He, length_app. split_and!; [done|lia|].
    rewrite drop_app_le, rev_app_distr, undone_app by done. rewrite Ha, Hu. done.
Qed.

Lemma sorted_lookup rs i j r r' :
  StronglySorted revisionLt rs -> rs !! i = Some r -> rs !! j = Some r' -> (i < j)%nat -> revisionLt r r'.
Proof.
  intros Hs. revert i j. induction Hs as [|r0 rs Hs IH Hall]; intros i j Hi Hj Hij; [done|].
  destruct j as [|j]; [lia|]. destruct i as [|i]; simpl in *.
  - simplify_eq. rewrite Forall_forall in Hall. by eapply Hall, list_elem_of_lookup_2.
  - apply (IH i j); [done|done|lia].
Qed.

(** The search by order finds the snapshot with the id, or there is none. *)
Lemma find_revision id rs :
  StronglySorted revisionLt rs ->
  match list_find (fun r => id <= rev_id r) rs with
  | Some (i, r) => if rev_id r =? id then list_find (fun r => rev_id r = id) rs = Some (i, r)
                   else list_find (fun r => rev_id r = id) rs = None
  | None => list_find (fun r => rev_id r = id) rs = None
  end.
Proof.
  intros Hs. destruct (list_find _ rs) as [[i r]|] eqn:Hf.
  - apply list_find_Some in Hf as (Hi & Hle & Hbefore). destruct (Z.eqb_spec (rev_id r) id) as [E|E].
    + apply list_find_Some. split_and!; [done|done|]. intros j y Hj Hlt. specialize (Hbefore j y Hj Hlt). lia.
    + apply list_find_None, Forall_lookup. intros j y Hj.
      destruct (decide (j < i)%nat) as [Hlt|]; [specialize (Hbefore j y Hj Hlt); lia|].
      destruct (decide (j = i)) as [->|]; [simplify_eq; lia|].
      assert (revisionLt r y) as [? _] by (apply (sorted_lookup rs i j); [done|done|done|lia]). lia.
  - apply list_find_None in Hf. apply list_find_None. eapply Forall_impl; [exact Hf|]. simpl. lia.
Qed.

Lemma find_kept s id rs ps :
  Forall2 (keptBy s) rs ps ->
  match list_find (fun r => rev_id r = id) rs with
  | Some (i, r) => exists p, list_find (fun p => p.1 = id) ps = Some (i, p) /\ keptBy s r p
  | None => list_find (fun p => p.1 = id) ps = None
  end.
Proof.
  intros Hk. induction Hk as [|r p rs ps Hrp Hk IH]; simpl; [done|].
  destruct Hrp as (Hid & Hrp). rewrite Hid. case_decide; [by exists p|].
  destruct (list_find (fun r => rev_id r = id) rs) as [[i r']|]; simpl.
  - destruct IH as (p' & -> & ?). by exists p'.
  - by rewrite IH.
Qed.

(** A snapshot below the one reverted to keeps its world. *)
Lemma keptBy_take s s' n r p :
  transitions s' = take n (transitions s) -> (journalIndex r <= n <= length (transitions s))%nat ->
  undone (rev (drop n (transitions s))) (abs s) = Some (abs s') ->
  keptBy s r p -> keptBy s' r p.
Proof.
  intros Ht Hn Hu (Hid & Hle & Hk). unfold keptBy. rewrite Ht, length_take. split_and!; [done|lia|].
  rewrite <- (take_drop n (transitions s)) in Hk.
  rewrite drop_app_le, rev_app_distr, undone_app, Hu in Hk by (rewrite length_take; lia). done.
Qed.

Lemma simulates_revert id s t :
  simulates s t ->
  fst (runOp (OpRevert id) s) = fst (specOp (OpRevert id) t) /\
  (fst (specOp (OpRevert id) t) = Ok RUnit ->
   simulates (snd (runOp (OpRevert id) s)) (snd (specOp (OpRevert id) t))).
Proof.
  intros [Hw Hl Hj Hn Hs Hso Hfr]. simpl. unfold bind, RevertToSnapshot.
  pose proof (find_revision id _ Hso) as Hfind. pose proof (find_kept s id _ _ Hs) as Hkept.
  destruct (list_find (fun r => id <= rev_id r) (validRevisions s)) as [[i r]|]; [|by rewrite Hfind in Hkept; rewrite Hkept].
  destruct (rev_id r =? id); rewrite Hfind in Hkept; [|by rewrite Hkept].
  destruct Hkept as ([id' w'] & -> & (Hid & Hle & Hu)). simpl in Hid, Hu.
  destruct (undo_all_sim (rev (drop (journalIndex r) (transitions s))) s w' Hl) as (s1 & Hun & Ha & Hl1 & Hf); [|done|].
  { apply Forall_rev. by apply Forall_drop. }
  unfold bind. rewrite Hun. simpl. split; [done|intros _]. destruct Hf as (Hdb & Htr & _).
  apply list_find_Some in Hfind as (Hir & _).
  assert (Hent : forall e, entryOk s e -> entryOk s1 e) by (unfold entryOk; by rewrite Hdb, Htr).
  split; simpl; [done|done| |done| | |].
  - eapply Forall_impl; [by apply Forall_take|done].
  - apply Forall2_take with (n := i) in Hs. rewrite Forall2_lookup in Hs |- *. intros j. specialize (Hs j).
    inversion Hs as [r' p Hk E1 E2|E1 E2]; [|constructor]. constructor.
    eapply (keptBy_take s); [done| |by rewrite <- Ha in Hu|done].
    symmetry in E1. apply lookup_take_Some in E1 as [E1 Hlt].
    pose proof (sorted_lookup _ _ _ _ _ Hso E1 Hir Hlt) as [_ ?]. lia.
  - rewrite <- (take_drop i (validRevisions s)) in Hso. by apply StronglySorted_app in Hso as (_ & Hso & _).
  - by apply Forall_take.
Qed.

Lemma simulates_snapshot s t :
  simulates s t -> simulates (snd (Snapshot s)) (snd (specOp OpSnapshot t)).
Proof.
  intros [Hw Hl Hj Hn Hs Hso Hfr]. split; simpl; [done|done|done|by rewrite Hn| | |].
  - apply Forall2_app; [done|]. constructor; [|constructor]. split_and!; [done|done|].
    simpl. rewrite drop_all. simpl. by rewrite <- Hw.
  - apply StronglySorted_app. split_and!; [|done|by repeat constructor].
    intros r r' Hr Hr'. apply list_elem_of_singleton in Hr' as ->.
    rewrite Forall_forall in Hfr. split; [by apply Hfr|]. simpl.
    apply list_elem_of_lookup in Hr as [i Hi]. destruct (Forall2_lookup_l _ _ _ _ _ Hs Hi) as (p & _ & _ & ? & _). lia.
  - apply Forall_app. split; [|constructor; [simpl; lia|constructor]].
    eapply Forall_impl; [exact Hfr|]. simpl. lia.
Qed.

Lemma simulates_read {A} (r : A -> reply) (op : AccountDB -> A * AccountDB) a none q (g : World.Account -> A)
    (fn : World -> A) s t :
  simulates s t -> op s = readObject a none q s ->
  (forall o, let '(x, o1) := q o in
     x = g (absObject (db s) o) /\ absObject (db s) o1 = absObject (db s) o /\ ao_deleted o1 = ao_deleted o) ->
  (forall w, fn w = from_option g none (World.accounts w !! a)) ->
  fst (asks r op s) = fst (askWorld (fun w => r (fn w)) t) /\
  (forall x, fst (askWorld (fun w => r (fn w)) t) = Ok x -> simulates (snd (asks r op s)) t).
Proof.
  intros Hs Hop Hq Hfn. destruct (readObject_extends a none q g s (sim_live _ _ Hs) Hq) as [Hr He].
  unfold asks. rewrite Hop. destruct (readObject a none q s) as [x s1]. simpl in *.
  rewrite Hr, Hfn. rewrite <- (sim_world _ _ Hs). split; [done|intros _ _].
  pose proof (simulates_extends _ _ _ _ Hs He) as Hs'. rewrite (sim_world _ _ Hs) in Hs'. by destruct t.
Qed.

Lemma simulates_op op s t :
  simulates s t ->
  fst (runOp op s) = fst (specOp op t) /\
  (forall r, fst (specOp op t) = Ok r -> simulates (snd (runOp op s)) (snd (specOp op t))).
Proof.
  intros Hs. pose proof (sim_live _ _ Hs) as Hl. pose proof (sim_world _ _ Hs) as Hw.
  destruct op;
    try (split; [done|intros _ _; apply (simulates_extends _ _ _ _ Hs); rewrite <- Hw]).
  - by apply AddBalance_extends.
  - by apply SubBalance_extends.
  - apply onObject_extends; [done|apply implements_SetBalance].
  - apply onObject_extends; [done|apply implements_SetNonce].
  - apply onObject_extends; [done|apply implements_SetCode].
  - pose proof (onObject_extends a _ _ s Hl (implements_SetData (db s) a k v)) as He. by destruct v.
  - by apply CreateAccount_extends.
  - by apply Transfer_extends.
  - destruct (Suicide_extends a s Hl) as [Hr He]. unfold runOp, specOp, asks. rewrite <- Hw.
    destruct (Suicide a s) as [x s1], (World.Suicide a (abs s)) as [y w]. simpl in *. subst y.
    split; [done|intros _ _]. by apply (simulates_extends _ _ _ _ Hs).
  - by apply AddRefund_extends.
  - apply (simulates_read RBool (Exist a) a false _ (fun _ => true) (fun w => World.Exist w a) s t Hs eq_refl); [done|].
    intros w. unfold World.Exist. by destruct (World.accounts w !! a).
  - by apply (simulates_read RInt (GetBalance a) a 0 _ World.Balance (fun w => World.GetBalance w a) s t Hs eq_refl).
  - by apply (simulates_read RInt (GetNonce a) a 0 _ World.Nonce (fun w => World.GetNonce w a) s t Hs eq_refl).
  - apply (simulates_read RBytes (GetCode a) a None _ World.Code (fun w => World.GetCode w a) s t Hs eq_refl).
    + intros o. pose proof (Code_ao_spec (db s) o) as Hc. destruct (Code_ao (db s) o).
      by destruct Hc as (? & ? & ? & _).
    + intros w. unfold World.GetCode. by destruct (World.accounts w !! a).
  - apply (simulates_read RBytes (GetData a k) a None _ (fun x => World.Storage x !! k) (fun w => World.GetData w a k) s t Hs eq_refl).
    + apply GetData_ao_spec.
    + intros w. unfold World.GetData. by destruct (World.accounts w !! a).
  - by apply (simulates_read RBool (HasSuicided a) a false _ World.suicided (fun w => World.HasSuicided w a) s t Hs eq_refl).
  - unfold runOp, asks, CanTransfer, specOp, askWorld, World.CanTransfer.
    destruct (Z.ltb_spec v 0) as [Hv|Hv].
    { done. }
    destruct (simulates_read (fun b => RBool (v <=? b)) (GetBalance a) a 0 _ World.Balance
      (fun w => World.GetBalance w a) s t Hs eq_refl) as [Hr Hsim]; [done|done|].
    unfold asks in Hr, Hsim. destruct (GetBalance a s) as [b s1]. simpl in *.
    split; [done|intros _ _; by eapply Hsim].
  - apply (simulates_read REntries (DataIterator a) a None _ (fun x => Some (World.StorageTrie x))
             (fun w => World.StorageTrie <$> World.accounts w !! a) s t Hs eq_refl).
    + intros o. pose proof (getTrie_spec (db s) o) as Ht. destruct (getTrie (db s) o).
      by destruct Ht as (-> & ? & ? & _).
    + intros w. by destruct (World.accounts w !! a).
  - split; [simpl; by rewrite <- Hw|done].
  - split; [simpl; by rewrite (sim_next _ _ Hs)|intros _ _; by apply simulates_snapshot].
  - destruct (simulates_revert id s t Hs) as [Hr Hsim]. split; [done|]. intros r Hok. apply Hsim.
    rewrite Hok. revert Hok. simpl. by destruct (list_find _ (sp_snaps t)) as [[? [? ?]]|]; intros; simplify_eq.
Qed.

Lemma simulates_sequence ops s t :
  simulates s t ->
  fst (sequence runOp ops s) = fst (sequence specOp ops t) /\
  (forall rs, fst (sequence specOp ops t) = Ok rs ->
   simulates (snd (sequence runOp ops s)) (snd (sequence specOp ops t))).
Proof.
  revert s t. induction ops as [|op ops IH]; intros s t Hs; [done|].
  destruct (simulates_op op s t Hs) as [Hr Hsim]. simpl. unfold bind.
  destruct (runOp op s) as [x s1], (specOp op t) as [y t1]. simpl in *. subst y.
  destruct x as [r| |]; [|done|done]. destruct (IH s1 t1 (Hsim r eq_refl)) as [Hr2 Hsim2].
  destruct (sequence runOp ops s1) as [x2 s2], (sequence specOp ops t1) as [y2 t2]. simpl in *. subst y2.
  destruct x2 as [rs| |]; [|done|done]. split; [done|intros _ _; by eapply Hsim2].
Qed.

(** ** From a state trie *)

Lemma simulates_new root nd s : NewAccountDB root nd = Some s -> simulates s (mkSpec (abs s) [] 0).
Proof.
  unfold NewAccountDB. intros Hn. apply fmap_Some in Hn as (tr & _ & ->). split; by try constructor.
Qed.

(** C7: an account database opened on a state root answers
    every sequence of operations as the finite map of accounts does in which a
    snapshot is the world kept and a revert puts it back: balances, nonces, code,
    data, the entries of an iterator, the refund counter, the identifiers of the
    snapshots, and the panic of a revert to one that is no longer valid.  At the
    end the database stands for the world the map came to. *)
Theorem accountdb_refines root nd s ops :
  NewAccountDB root nd = Some s ->
  let t := mkSpec (abs s) [] 0 in
  fst (sequence runOp ops s) = fst (sequence specOp ops t) /\
  (forall rs, fst (sequence runOp ops s) = Ok rs ->
   abs (snd (sequence runOp ops s)) = sp_world (snd (sequence specOp ops t))).
Proof.
  intros Hn. destruct (simulates_sequence ops _ _ (simulates_new _ _ _ Hn)) as [Hr Hs]. split; [exact Hr|].
  intros rs Hrs. apply sim_world. eapply Hs. by rewrite <- Hr.
Qed.

End refinement.

(** ** A small database *)

Definition sampleHashes : AccountHashes := {|
  storageHash t := if bool_decide (t = ∅) then emptyRoot else BigToAddress 1;
  stateHash _ := BigToAddress 5;
  Sum256 c := match c with [] => BigToAddress 2 | _ => BigToAddress 3 end;
|}.
#[local] Existing Instance sampleHashes.
Definition sampleAddr : Address := BigToAddress 77.
Definition sampleKey : bytes := [Byte.x01].
Definition sampleTrie : gmap bytes bytes := {[sampleKey := [Byte.x02]]}.
Definition sampleStored : StoredAccount := mkStored 0 0 (BigToAddress 1) (BigToAddress 2).
Definition sampleNodes : NodeDatabase :=
  mkNodes {[BigToAddress 5 := {[sampleAddr := sampleStored]}]} {[BigToAddress 1 := sampleTrie]} ∅.
Definition sampleDB : AccountDB := mkDB sampleNodes {[sampleAddr := sampleStored]} ∅ ∅ 0 [] [] 0.
Definition sampleOps : list dbOp :=
  [OpAddBalance sampleAddr 9; OpSnapshot; OpSetData sampleAddr sampleKey None; OpRevert 0;
   OpSetCode sampleAddr [Byte.x07]; OpGetData sampleAddr sampleKey].

Lemma sample_new : NewAccountDB (BigToAddress 5) sampleNodes = Some sampleDB.
Proof.
  unfold NewAccountDB, OpenTrie. assert (isEmptyRoot (BigToAddress 5) = false) as -> by (vm_compute; reflexivity).
  unfold sampleNodes. cbn [nd_states]. by rewrite lookup_singleton_eq.
Qed.

Lemma accountdb_refines_witness :
  @NewAccountDB (BigToAddress 5) sampleNodes = Some sampleDB /\
  fst (sequence (@runOp sampleHashes) sampleOps sampleDB) =
    Ok [RUnit; RInt 0; RUnit; RUnit; RUnit; RBytes (Some [Byte.x02])] /\
  World.GetBalance (@abs sampleHashes (snd (sequence (@runOp sampleHashes) sampleOps sampleDB))) sampleAddr = 9.
Proof.
  destruct (@accountdb_refines sampleHashes (BigToAddress 5) sampleNodes sampleDB sampleOps sample_new) as [Hr Ha].
  assert (fst (sequence (@runOp sampleHashes) sampleOps sampleDB) =
    Ok [RUnit; RInt 0; RUnit; RUnit; RUnit; RBytes (Some [Byte.x02])]) as Hrun by (rewrite Hr; vm_compute; reflexivity).
  split; [exact sample_new|]. split; [exact Hrun|]. rewrite (Ha _ Hrun). vm_compute. reflexivity.
Defined.
