(* ===== verification/AccountDBPersist.v ===== *)
(** * AccountDBPersist: what a commit writes is what the next block reads

    [Finalise] and [Commit] of [src/storage/account/accountdb.go]: the dirty
    objects reach the state trie and the node database, and a database opened on
    the new root stands for the same world, without the accounts that were
    destroyed or are empty.  The invariant behind it says of every cached object
    how it differs from what is stored ([coherent]) and that it is marked dirty
    if it does ([marks]). *)
From S2P Require Import Prelude Bytes TrieEncoding World AccountDB AccountDBTheorems.
Local Open Scope Z_scope.
Local Open Scope zv_scope.

Section persist.
Context `{AccountHashes}.
Implicit Types (o : accountObject) (s : AccountDB) (a b : Address) (nd : NodeDatabase).

(** ** Cached objects against the store *)

Record coherent nd o : Prop := {
  co_live : ao_deleted o = false;
  co_err : ao_dbErr o = false;
  co_open : exists t, OpenStorageTrie nd (sa_Root (ao_data o)) = Some t /\
                      (ao_trie o = None \/ ao_trie o = Some t);
  co_cache : forall k,
    match ao_dirtyStorage o !! k with
    | Some v => ao_cachedStorage o !! k = Some v
    | None => forall v, ao_cachedStorage o !! k = Some v ->
              v = trieOf nd (ao_trie o) (sa_Root (ao_data o)) !! k
    end;
  co_hash : sa_CodeHash (ao_data o) =
            Sum256 (default [] (codeOf nd (ao_code o) (sa_CodeHash (ao_data o))));
  co_code : ao_dirtyCode o = false ->
            codeOf nd (ao_code o) (sa_CodeHash (ao_data o)) = codeOf nd None (sa_CodeHash (ao_data o));
  co_found : ao_code o = None -> sa_CodeHash (ao_data o) <> emptyCodeHash ->
             is_Some (nd_codes nd !! sa_CodeHash (ao_data o));
}.

(** An object without a dirty mark is as it was stored, and still has its callback. *)
Definition marks (d : option StoredAccount) (mark : bool) o : Prop :=
  mark = false ->
  ao_onDirty o = true /\ d = Some (ao_data o) /\ ao_dirtyStorage o = ∅ /\
  ao_suicided o = false /\ ao_dirtyCode o = false.

Definition stored nd d mark o : Prop := coherent nd o /\ marks d mark o.

(** Without credits of zero no object is ever touched. *)
Definition entryP (e : transitionEntry) : Prop :=
  match e with
  | codeChange _ c h => h = Sum256 (default [] c)
  | touchChange _ _ _ => False
  | _ => True
  end.

Definition marked s a : bool := bool_decide (a ∈ accountObjectsDirty s).

Definition persistable s : Prop :=
  (forall a o, accountObjects s !! a = Some o -> stored (db s) (trie s !! a) (marked s a) o) /\
  Forall entryP (transitions s).

(** Every account of the trie can be read. *)
Definition complete nd (tr : gmap Address StoredAccount) : Prop :=
  forall a d, tr !! a = Some d ->
  is_Some (OpenStorageTrie nd (sa_Root d)) /\
  (sa_CodeHash d <> emptyCodeHash -> exists c, nd_codes nd !! sa_CodeHash d = Some c /\ Sum256 c = sa_CodeHash d).

Lemma coherent_load nd tr a d : complete nd tr -> tr !! a = Some d -> coherent nd (newAccountObject d).
Proof.
  intros Hc Hd. destruct (Hc a d Hd) as [[t Ht] Hcode]. split; simpl; try done; eauto.
  - intros k. by rewrite !lookup_empty.
  - unfold codeOf. case_bool_decide as E; [done|]. by destruct (Hcode E) as (c & -> & Hs).
  - intros _ Hne. destruct (Hcode Hne) as (c & -> & _). eauto.
Qed.

Lemma coherent_new nd : coherent nd newObject.
Proof.
  split; simpl; try done.
  - unfold OpenStorageTrie, isEmptyRoot. rewrite bool_decide_eq_true_2 by done. simpl. eauto.
  - intros k. by rewrite !lookup_empty.
  - unfold codeOf. by rewrite bool_decide_eq_true_2 by done.
Qed.

(** *** The methods keep it *)

Lemma coherent_flags nd o su to od : coherent nd o -> coherent nd (setFlags su to (ao_deleted o) od o).
Proof. intros []. by split. Qed.
Lemma coherent_balance nd v o : coherent nd o -> coherent nd (setBalanceData v o).
Proof. intros []. by split. Qed.
Lemma coherent_nonce nd n o : coherent nd o -> coherent nd (setNonceData n o).
Proof. intros []. by split. Qed.

Lemma coherent_getTrie nd o : coherent nd o -> coherent nd (snd (getTrie nd o)).
Proof.
  intros Hco. unfold getTrie. destruct (ao_trie o) as [t'|] eqn:E; [done|].
  destruct Hco as [? ? (t & Ht & Ho) Hc ? ? ?]. rewrite Ht. split; simpl; try done; [eauto|].
  intros k. specialize (Hc k). rewrite E in Hc. simpl in Hc. by rewrite Ht in Hc.
Qed.

Lemma coherent_GetData nd k o : coherent nd o -> coherent nd (snd (GetData_ao nd k o)).
Proof.
  intros Hc. unfold GetData_ao. destruct (ao_cachedStorage o !! k) as [v|] eqn:Ek; [done|].
  pose proof (coherent_getTrie nd o Hc) as Hg. pose proof (getTrie_spec nd o) as Ht.
  destruct (getTrie nd o) as [t o1]. destruct Ht as (_ & _ & _ & Ht1 & _ & Hca & Hdi). simpl in Hg.
  destruct (t !! k) as [v|] eqn:Etk; [|done]. destruct Hg as [? ? ? Hcache ? ? ?]. split; simpl; try done.
  intros j. specialize (Hcache j). destruct (decide (k = j)) as [<-|]; [|by rewrite lookup_insert_ne].
  rewrite Hdi in *. destruct (ao_dirtyStorage o !! k) as [u|] eqn:E.
  - by rewrite Hca, Ek in Hcache.
  - intros u. rewrite lookup_insert_eq, Ht1. simpl. by intros [= <-].
Qed.

Lemma coherent_setData nd k v o : coherent nd o -> coherent nd (ef_object (setData k v o)).
Proof.
  intros [? ? ? Hc ? ? ?]. split; simpl; try done. intros j. specialize (Hc j).
  destruct (decide (k = j)) as [<-|]; [by rewrite !lookup_insert_eq|by rewrite !lookup_insert_ne].
Qed.

Lemma coherent_Code nd o : coherent nd o -> coherent nd (snd (Code_ao nd o)).
Proof.
  intros Hco. unfold Code_ao. destruct (ao_code o) as [c|] eqn:Ec; [done|].
  case_bool_decide as E; [done|]. destruct Hco as [? ? ? ? Hh Hk Hf].
  destruct (Hf Ec E) as [c Hc]. rewrite Hc. rewrite Ec in Hh. unfold codeOf in Hh.
  rewrite bool_decide_eq_false_2, Hc in Hh by done. split; simpl; try done.
  intros _. unfold codeOf. by rewrite bool_decide_eq_false_2, Hc.
Qed.

Lemma coherent_setCode nd h c o :
  h = Sum256 (default [] c) -> coherent nd o -> coherent nd (ef_object (setCode h c o)).
Proof.
  intros -> []. split; simpl; try done.
  - destruct c as [c|]; simpl; [done|]. unfold codeOf. by rewrite bool_decide_eq_true_2 by done.
  - intros -> Hne. by destruct Hne.
Qed.

Definition keepsStored nd (m : accountObject -> effect) : Prop :=
  forall d mark o, stored nd d mark o ->
  stored nd d (ef_marks (m o) || mark) (ef_object (m o)) /\ Forall entryP (ef_journal (m o)).

Lemma dirty_stored nd d mark o o' :
  stored nd d mark o -> coherent nd o' -> ao_onDirty o' = ao_onDirty o ->
  stored nd d (ef_marks (dirty o') || mark) (ef_object (dirty o')).
Proof.
  intros [_ Hm] Hc Hd. split; [by apply (coherent_flags nd o')|]. simpl. rewrite Hd. intros Hmk.
  apply orb_false_iff in Hmk as [Hon Hmk]. destruct (Hm Hmk) as [Hon' _]. congruence.
Qed.

Lemma keeps_SetBalance nd a v : keepsStored nd (SetBalance_ao a v).
Proof.
  intros d mark o Hs. split; [|by repeat constructor].
  apply (dirty_stored nd d mark o (setBalanceData v o) Hs); [apply coherent_balance, Hs|done].
Qed.

Lemma keeps_SetNonce nd a n : keepsStored nd (SetNonce_ao a n).
Proof.
  intros d mark o Hs. split; [|by repeat constructor].
  apply (dirty_stored nd d mark o (setNonceData n o) Hs); [apply coherent_nonce, Hs|done].
Qed.

Lemma keeps_AddBalance nd a v : v <> 0 -> keepsStored nd (AddBalance_ao a v).
Proof.
  intros Hv d mark o. unfold AddBalance_ao. rewrite (proj2 (Z.eqb_neq v 0) Hv). apply keeps_SetBalance.
Qed.

Lemma keeps_SubBalance nd a v : keepsStored nd (SubBalance_ao a v).
Proof.
  intros d mark o Hs. unfold SubBalance_ao. destruct (v =? 0); [by split|by apply keeps_SetBalance].
Qed.

Lemma marks_GetData nd k d mark o : marks d mark o -> marks d mark (snd (GetData_ao nd k o)).
Proof.
  unfold GetData_ao. destruct (ao_cachedStorage o !! k); [done|]. unfold getTrie.
  by destruct (ao_trie o) as [t|]; [|destruct (OpenStorageTrie nd (sa_Root (ao_data o))) as [t|]];
    [destruct (t !! k)..|rewrite lookup_empty].
Qed.

Lemma marks_Code nd d mark o : marks d mark o -> marks d mark (snd (Code_ao nd o)).
Proof.
  unfold Code_ao. destruct (ao_code o); [done|]. case_bool_decide; [done|].
  by destruct (nd_codes nd !! sa_CodeHash (ao_data o)).
Qed.

Lemma marks_getTrie nd d mark o : marks d mark o -> marks d mark (snd (getTrie nd o)).
Proof.
  unfold getTrie. destruct (ao_trie o); [done|]. by destruct (OpenStorageTrie nd (sa_Root (ao_data o))).
Qed.

Lemma keeps_SetData nd a k v : keepsStored nd (SetData_ao nd a k v).
Proof.
  intros d mark o Hs. unfold SetData_ao. pose proof (coherent_GetData nd k o (proj1 Hs)) as Hc.
  pose proof (marks_GetData nd k d mark o (proj2 Hs)) as Hm.
  destruct (GetData_ao nd k o) as [prev o1]. simpl in Hc, Hm. split; [|by repeat constructor].
  apply (dirty_stored nd d mark o1); [done|by apply (coherent_setData nd k v o1) in Hc; destruct Hc|done].
Qed.

Lemma keeps_SetCode nd a c : keepsStored nd (SetCode_ao nd a (Sum256 c) c).
Proof.
  intros d mark o Hs. unfold SetCode_ao. pose proof (coherent_Code nd o (proj1 Hs)) as Hc.
  pose proof (marks_Code nd d mark o (proj2 Hs)) as Hm. pose proof (Code_ao_spec nd o) as Hcode.
  destruct (Code_ao nd o) as [prev o1]. simpl in Hc, Hm. destruct Hcode as (Hp & Ha & _). split.
  - apply (dirty_stored nd d mark o1); [done| |done].
    by apply (coherent_setCode nd (Sum256 c) (Some c) o1 eq_refl) in Hc; destruct Hc.
  - constructor; [|constructor]. simpl. rewrite Hp, <- Ha. apply (co_hash _ _ Hc).
Qed.

(** *** The operations keep it *)

Definition good s : Prop := persistable s /\ complete (db s) (trie s).

Lemma good_applied a e s :
  good s -> stored (db s) (trie s !! a) (ef_marks e || marked s a) (ef_object e) ->
  Forall entryP (ef_journal e) -> good (applied a true e s).
Proof.
  intros [[Ho Hj] Hc] He Hes.
  assert (good (setJournal (transitions s ++ ef_journal e) (validRevisions s) (nextRevisionID s) s)) as [[_ Hj'] _]
    by (split; [split; [done|by apply Forall_app]|done]).
  split; [split|]; [|by unfold applied; destruct (ef_marks e)|by unfold applied; destruct (ef_marks e)].
  intros b o Hb. unfold applied, marked in *.
  assert (<[a := ef_object e]> (accountObjects s) !! b = Some o) as Hb' by (revert Hb; by destruct (ef_marks e)).
  apply lookup_insert_Some in Hb' as [[<- <-]|[Hne Hb']]; destruct (ef_marks e); simpl in *.
  - by rewrite bool_decide_eq_true_2 by set_solver.
  - done.
  - specialize (Ho b o Hb'). by rewrite (bool_decide_ext _ (b ∈ accountObjectsDirty s)) by set_solver.
  - by apply Ho.
Qed.

Lemma good_get a s :
  good s ->
  let '(oo, s1) := getAccountObject a s in
  good s1 /\ match oo with
             | Some o => stored (db s1) (trie s1 !! a) (marked s1 a) o /\ accountObjects s1 !! a = Some o
             | None => accountObjects s1 !! a = None /\ trie s1 !! a = None
             end.
Proof.
  intros [[Ho Hj] Hc]. unfold getAccountObject.
  destruct (accountObjects s !! a) as [o|] eqn:Ea.
  - rewrite (co_live _ _ (proj1 (Ho a o Ea))). split; [by split|]. split; [by apply Ho|done].
  - unfold getAccountObjectFromTrie. destruct (trie s !! a) as [d|] eqn:Ed; simpl; [|exact (conj (conj (conj Ho Hj) Hc) (conj Ea Ed))].
    unfold setAccountObject. rewrite Ea.
    assert (stored (db s) (trie s !! a) (marked s a) (newAccountObject d)) as Hst
      by (split; [by eapply coherent_load|intros _; by rewrite Ed]).
    split; [|by simpl; rewrite lookup_insert_eq]. split; [split; [|done]|done].
    intros b o Hb. simpl in Hb. apply lookup_insert_Some in Hb as [[<- <-]|[_ Hb]]; [done|by apply Ho].
Qed.

Lemma getAccountObject_frame a s : db (snd (getAccountObject a s)) = db s.
Proof.
  unfold getAccountObject, setAccountObject. destruct (accountObjects s !! a) as [o|]; [done|].
  by destruct (getAccountObjectFromTrie a s).
Qed.

Lemma good_setObject a o s :
  good s -> stored (db s) (trie s !! a) (marked s a) o -> good (setObjects (<[a := o]> (accountObjects s)) s).
Proof.
  intros [[Ho Hj] Hc] Hst. split; [split; [|done]|done].
  intros b x Hb. simpl in Hb. apply lookup_insert_Some in Hb as [[<- <-]|[_ Hb]]; [done|by apply Ho].
Qed.

Lemma good_mark a s : good s -> good (MarkAccountObjectDirty a s).
Proof.
  intros [[Ho Hj] Hc]. split; [split; [|done]|done]. intros b o Hb. destruct (Ho b o Hb) as [Hco Hm].
  split; [done|]. unfold marked, marks in *. intros Hmk. apply Hm. revert Hmk.
  rewrite !bool_decide_eq_false. simpl. set_solver.
Qed.

Lemma good_append es s : good s -> Forall entryP es -> good (append es s).
Proof. intros [[Ho Hj] Hc] He. split; [split; [done|by apply Forall_app]|done]. Qed.

Lemma good_create a s :
  good s -> accountObjects s !! a = None -> trie s !! a = None ->
  exists s', createObject a s = (newObject, true, None, s') /\ good s' /\ accountObjects s' !! a = Some newObject /\
             db s' = db s /\ trie s' = trie s /\ marked s' a = true.
Proof.
  intros Hg Ho Ht. unfold createObject, getAccountObject, getAccountObjectFromTrie.
  rewrite Ho, Ht. simpl. rewrite bool_decide_eq_true_2 by done. unfold setAccountObject. simpl. rewrite Ho.
  eexists. split; [reflexivity|]. simpl. rewrite lookup_insert_eq. split_and!; try done.
  - apply (good_applied a (mkEffect newObject [createObjectChange a] true) s Hg); [|by repeat constructor].
    split; [apply coherent_new|done].
  - unfold marked. simpl. by rewrite bool_decide_eq_true_2 by set_solver.
Qed.

Lemma good_onObject a m s : good s -> keepsStored (db s) m -> good (onObject a m s).
Proof.
  intros Hg Hm. unfold onObject, getOrNewAccountObject. pose proof (good_get a s Hg) as Hget.
  pose proof (getAccountObject_frame a s) as Hf.
  destruct (getAccountObject a s) as [[o|] s1]; destruct Hget as (Hg1 & Ho & Ht); simpl in Hf; rewrite <- Hf in Hm.
  - destruct (Hm _ _ _ Ho) as [He Hj]. by apply good_applied.
  - destruct (good_create a s1 Hg1 Ho Ht) as (s2 & -> & Hg2 & Ho2 & Hdb & _). rewrite <- Hdb in Hm.
    destruct (Hm _ _ _ (proj1 (proj1 Hg2) a _ Ho2)) as [He Hj]. by apply good_applied.
Qed.

Lemma good_read {A} a (none : A) q s :
  good s ->
  (forall d mark o, stored (db s) d mark o -> stored (db s) d mark (snd (q o))) ->
  good (snd (readObject a none q s)).
Proof.
  intros Hg Hq. unfold readObject. pose proof (good_get a s Hg) as Hget.
  pose proof (getAccountObject_frame a s) as Hf.
  destruct (getAccountObject a s) as [[o|] s1]; destruct Hget as (Hg1 & Ho & Ht); [|done].
  simpl in Hf. rewrite <- Hf in Hq. apply Hq in Ho. destruct (q o) as [x o1]. by apply good_setObject.
Qed.

Lemma good_CreateAccount a s : good s -> good (CreateAccount a s).
Proof.
  intros Hg. unfold CreateAccount. pose proof (good_get a s Hg) as Hget.
  destruct (getAccountObject a s) as [[o|] s1] eqn:Eg; destruct Hget as (Hg1 & Ho & Ht).
  - unfold createObject. rewrite Eg. unfold setAccountObject. simpl. rewrite Ht.
    rewrite bool_decide_eq_false_2 by done. simpl.
    apply good_append; [|constructor]. apply good_append; [|by repeat constructor]. by apply good_mark.
  - unfold createObject. rewrite Eg. unfold setAccountObject. simpl. rewrite Ho.
    destruct (good_create a s1 Hg1 Ho Ht) as (s2 & Hc & Hg2 & _).
    unfold createObject, getAccountObject, getAccountObjectFromTrie, setAccountObject in Hc.
    rewrite Ho, Ht in Hc. simpl in Hc. rewrite Ho in Hc. by injection Hc as ->.
Qed.

Lemma good_Suicide a s : good s -> good (snd (Suicide a s)).
Proof.
  intros Hg. unfold Suicide. pose proof (good_get a s Hg) as Hget.
  destruct (getAccountObject a s) as [[o|] s1]; destruct Hget as (Hg1 & Ho & Ht); [|done]. simpl.
  apply good_applied; [done| |by repeat constructor]. simpl.
  apply (dirty_stored (db s1) _ _ o (setBalanceData 0 (setFlags true (ao_touched o) (ao_deleted o) (ao_onDirty o) o)) Ho);
    [|done]. apply coherent_balance, coherent_flags, Ho.
Qed.

Lemma good_undoOn a m s : good s -> keepsStored (db s) m -> good (snd (undoOn a m s)).
Proof.
  intros Hg Hm. unfold undoOn. pose proof (good_get a s Hg) as Hget. pose proof (getAccountObject_frame a s) as Hf.
  destruct (getAccountObject a s) as [[o|] s1]; destruct Hget as (Hg1 & Ho & Ht); [|done].
  simpl in Hf. rewrite <- Hf in Hm. destruct (Hm _ _ _ Ho) as [He Hj]. by apply good_applied.
Qed.

Lemma good_undo e s : entryP e -> good s -> good (snd (undo e s)).
Proof.
  intros He Hg. destruct e; simpl in He; simpl undo; try done.
  - destruct Hg as [[Ho Hj] Hc]. split; [split; [|done]|done]. intros b o Hb. simpl in Hb.
    apply lookup_delete_Some in Hb as [Hne Hb]. specialize (Ho b o Hb). unfold marked in *. simpl.
    by rewrite (bool_decide_ext _ (b ∈ accountObjectsDirty s)) by set_solver.
  - pose proof (good_get account s Hg) as Hget.
    destruct (getAccountObject account s) as [[o|] s1]; destruct Hget as (Hg1 & Ho & Ht); [|done].
    apply good_applied; [done| |by constructor].
    apply (dirty_stored (db s1) _ _ o
      (setBalanceData prevbalance (setFlags prev (ao_touched o) (ao_deleted o) (ao_onDirty o) o)) Ho);
      [|done]. apply coherent_balance, coherent_flags, Ho.
  - apply good_undoOn; [done|]. intros d mark o Hs. split; [|constructor].
    apply (dirty_stored _ _ _ o (setBalanceData prev o) Hs); [apply coherent_balance, Hs|done].
  - apply good_undoOn; [done|]. intros d mark o Hs. split; [|constructor].
    apply (dirty_stored _ _ _ o (setNonceData prev o) Hs); [apply coherent_nonce, Hs|done].
  - apply good_undoOn; [done|]. intros d mark o Hs. split; [|constructor].
    apply (dirty_stored _ _ _ o _ Hs); [|done].
    pose proof (coherent_setData _ key prevalue o (proj1 Hs)) as Hc. by destruct Hc.
  - apply good_undoOn; [done|]. intros d mark o Hs. split; [|constructor].
    apply (dirty_stored _ _ _ o _ Hs); [|done].
    pose proof (coherent_setCode _ prevhash prevcode o He (proj1 Hs)) as Hc. by destruct Hc.
Qed.

Lemma good_undo_all es s : Forall entryP es -> good s -> good (snd (for_each es undo s)).
Proof.
  intros Hes. revert s. induction Hes as [|e es He _ IH]; intros s Hg; [done|].
  pose proof (good_undo e s He Hg) as Hg1. simpl. unfold bind. destruct (undo e s) as [[[]| |] s1]; [by apply IH|done|done].
Qed.

Lemma good_journal js rs n s : good s -> Forall entryP js -> good (setJournal js rs n s).
Proof. by intros [[Ho _] Hc] Hj. Qed.

Lemma good_Revert id s : good s -> good (snd (RevertToSnapshot id s)).
Proof.
  intros Hg. unfold RevertToSnapshot.
  destruct (list_find _ (validRevisions s)) as [[i r]|]; [|done]. destruct (rev_id r =? id); [|done].
  assert (Forall entryP (transitions s)) as Hj by apply Hg.
  pose proof (good_undo_all (rev (drop (journalIndex r) (transitions s))) s) as Hu.
  unfold bind. destruct (for_each _ undo s) as [[[]| |] s1]; simpl in *.
  - apply good_journal; [apply Hu; [by apply Forall_rev, Forall_drop|done]|by apply Forall_take].
  - apply Hu; [by apply Forall_rev, Forall_drop|done].
  - apply Hu; [by apply Forall_rev, Forall_drop|done].
Qed.

(** Every credit is of a non-zero amount. *)
Definition credits (op : dbOp) : Prop := match op with OpAddBalance _ v => v <> 0 | _ => True end.

Lemma good_asks {A} (r : A -> reply) q s : good (snd (q s)) -> good (snd (asks r q s)).
Proof. unfold asks. by destruct (q s). Qed.

Lemma good_op op s : credits op -> good s -> good (snd (runOp op s)).
Proof.
  intros Hcr Hg. destruct op; simpl in Hcr; simpl runOp; unfold does; try apply good_asks; simpl; try done.
  - apply good_onObject; [done|by apply keeps_AddBalance].
  - apply good_onObject; [done|by apply keeps_SubBalance].
  - apply good_onObject; [done|by apply keeps_SetBalance].
  - apply good_onObject; [done|by apply keeps_SetNonce].
  - apply good_onObject; [done|by apply keeps_SetCode].
  - apply good_onObject; [done|by apply keeps_SetData].
  - by apply good_CreateAccount.
  - unfold Transfer. destruct (Z.leb_spec v 0); [done|].
    apply good_onObject; [|apply keeps_AddBalance; lia]. apply good_onObject; [done|by apply keeps_SubBalance].
  - by apply good_Suicide.
  - apply (good_journal _ _ _ s); [done|]. apply Forall_app. split; [apply Hg|by repeat constructor].
  - by apply good_read.
  - by apply good_read.
  - by apply good_read.
  - apply good_read; [done|]. intros d mark o [Hc Hm]. split; [by apply coherent_Code|by apply marks_Code].
  - apply good_read; [done|]. intros d mark o [Hc Hm]. split; [by apply coherent_GetData|by apply marks_GetData].
  - by apply good_read.
  - unfold CanTransfer. destruct (v <? 0); [done|]. pose proof (good_read a 0 (fun o => (sa_Balance (ao_data o), o)) s Hg) as Hr.
    unfold GetBalance. destruct (readObject a 0 _ s). by apply Hr.
  - apply good_read; [done|]. intros d mark o [Hc Hm].
    pose proof (coherent_getTrie (db s) o Hc). pose proof (marks_getTrie (db s) d mark o Hm). by destruct (getTrie (db s) o).
  - pose proof (good_Revert id s Hg) as Hr. unfold bind. by destruct (RevertToSnapshot id s) as [[[]| |] s1].
Qed.

Lemma good_sequence ops s : Forall credits ops -> good s -> good (snd (sequence runOp ops s)).
Proof.
  intros Hops. revert s. induction Hops as [|op ops Hop _ IH]; intros s Hg; [done|].
  pose proof (good_op op s Hop Hg) as Hg1. simpl. unfold bind. destruct (runOp op s) as [[r| |] s1]; [|done|done].
  specialize (IH s1 Hg1). by destruct (sequence runOp ops s1) as [[rs| |] s2].
Qed.

Lemma good_new root nd s : NewAccountDB root nd = Some s -> complete nd (trie s) -> good s.
Proof. unfold NewAccountDB. intros Hn Hc. apply fmap_Some in Hn as (tr & _ & ->). by split. Qed.

(** ** Flushing an object *)

(** The trie an object would write: its dirty slots over the trie it reads. *)
Definition flushOf nd o : gmap bytes bytes :=
  foldl writeSlot (trieOf nd (ao_trie o) (sa_Root (ao_data o))) (map_to_list (ao_dirtyStorage o)).

Definition slotValue (v : option bytes) : option bytes :=
  match v with Some [] => None | _ => v end.

Lemma lookup_writeSlot t k v j :
  writeSlot t (k, v) !! j = if decide (k = j) then slotValue v else t !! j.
Proof.
  unfold writeSlot, TryUpdate. simpl. destruct v as [[|x v]|]; simpl; case_decide as E; subst;
    by rewrite ?lookup_delete_eq, ?lookup_delete_ne, ?lookup_insert_eq, ?lookup_insert_ne.
Qed.

Lemma lookup_writeSlots (l : list (bytes * option bytes)) t k :
  NoDup l.*1 ->
  foldl writeSlot t l !! k =
  match (list_to_map l : gmap bytes (option bytes)) !! k with Some v => slotValue v | None => t !! k end.
Proof.
  revert t. induction l as [|[j v] l IH]; intros t Hnd; [done|].
  apply NoDup_cons in Hnd as [Hj Hnd]. simpl. rewrite IH by done.
  destruct (decide (j = k)) as [<-|Hne].
  - rewrite lookup_insert_eq, not_elem_of_list_to_map_1 by done. by rewrite lookup_writeSlot, decide_True.
  - rewrite lookup_insert_ne by done. destruct (list_to_map l !! k); [done|]. by rewrite lookup_writeSlot, decide_False.
Qed.

Lemma lookup_flushOf nd o k :
  flushOf nd o !! k =
  match ao_dirtyStorage o !! k with
  | Some v => slotValue v
  | None => trieOf nd (ao_trie o) (sa_Root (ao_data o)) !! k
  end.
Proof.
  unfold flushOf. rewrite lookup_writeSlots by apply NoDup_fst_map_to_list. by rewrite list_to_map_to_list.
Qed.

Definition openable nd o : Prop :=
  ao_dbErr o = false /\ (ao_trie o = None -> is_Some (OpenStorageTrie nd (sa_Root (ao_data o)))).

Lemma coherent_openable nd o : coherent nd o -> openable nd o.
Proof. intros [_ ? (t & Ht & _) _ _ _ _]. split; [done|]. rewrite Ht. eauto. Qed.

(** [updateTrie] puts the flushed trie in place and leaves the rest. *)
Definition flushed nd o : accountObject :=
  setStorage (ao_cachedStorage o) ∅ (setTrie false (Some (flushOf nd o)) o).

Lemma updateTrie_flushed nd o : openable nd o -> updateTrie nd o = flushed nd o.
Proof.
  intros [He Ho]. unfold updateTrie, flushed, flushOf, getTrie, trieOf.
  destruct (ao_trie o) as [t|] eqn:E; [by rewrite He|].
  destruct (Ho eq_refl) as [t Ht]. rewrite Ht. simpl. by rewrite He.
Qed.

Lemma flushOf_flushed nd nd' o h : flushOf nd' (setRootData h (flushed nd o)) = flushOf nd o.
Proof. apply map_eq. intros k. rewrite lookup_flushOf. simpl. by rewrite lookup_empty. Qed.

(** The account as it is written. *)
Definition committed nd o : StoredAccount :=
  mkStored (sa_Nonce (ao_data o)) (sa_Balance (ao_data o)) (storageHash (flushOf nd o)) (sa_CodeHash (ao_data o)).

(** Whether the object is removed. *)
Definition dead (deleteEmptyObjects mark : bool) o : bool :=
  ao_suicided o || (mark && deleteEmptyObjects && empty o).

Definition writtenAs nd (de mark : bool) (o : accountObject) (cur : option StoredAccount) : option StoredAccount :=
  if dead de mark o then None else if mark then Some (committed nd o) else cur.

(** ** [Finalise] *)

Definition finalised nd (de : bool) o : accountObject :=
  if dead de true o then setFlags (ao_suicided o) (ao_touched o) true (ao_onDirty o) o
  else setRootData (storageHash (flushOf nd o)) (flushed nd o).

Lemma finaliseObject_run de a s :
  (forall o, accountObjects s !! a = Some o -> openable (db s) o /\ 0 <= sa_Balance (ao_data o)) ->
  exists s', finaliseObject de a s = (Ok tt, s') /\ db s' = db s /\ accountObjectsDirty s' = accountObjectsDirty s /\
    (forall b, accountObjects s' !! b =
       if decide (a = b) then finalised (db s) de <$> accountObjects s !! b else accountObjects s !! b) /\
    (forall b, trie s' !! b =
       if decide (a = b) then match accountObjects s !! b with
                              | Some o => writtenAs (db s) de true o (trie s !! b)
                              | None => trie s !! b
                              end
       else trie s !! b).
Proof.
  intros Ha. unfold finaliseObject, bind, get.
  destruct (accountObjects s !! a) as [o|] eqn:Eo.
  - destruct (Ha o eq_refl) as [Hop Hb]. unfold writtenAs, finalised, dead. simpl.
    destruct (ao_suicided o || (de && empty o)) eqn:Edead.
    + eexists. split; [reflexivity|]. split_and!; [done|done| |]; intros b; simpl;
        destruct (decide (a = b)) as [<-|]; rewrite ?lookup_insert_eq, ?lookup_insert_ne, ?lookup_delete_eq,
          ?lookup_delete_ne, ?Eo by done; simpl; by rewrite ?Edead.
    + unfold updateRoot. rewrite updateTrie_flushed by done. simpl.
      unfold updateAccountObject. simpl. rewrite (proj2 (Z.ltb_ge _ _) Hb). eexists. split; [reflexivity|].
      split_and!; [done|done| |]; intros b; simpl; destruct (decide (a = b)) as [<-|];
        rewrite ?lookup_insert_eq, ?lookup_insert_ne, ?Eo by done; simpl; by rewrite ?Edead.
  - exists s. split_and!; try done; intros b; destruct (decide (a = b)) as [<-|]; by rewrite ?Eo.
Qed.

Definition flushable s : Prop :=
  forall a o, accountObjects s !! a = Some o -> openable (db s) o /\ 0 <= sa_Balance (ao_data o).

Definition afterFinalise s (de mark : bool) a : option StoredAccount :=
  match accountObjects s !! a with
  | Some o => if mark then writtenAs (db s) de true o (trie s !! a) else trie s !! a
  | None => trie s !! a
  end.

Lemma finalise_loop de l s :
  NoDup l -> (forall a o, a ∈ l -> accountObjects s !! a = Some o -> openable (db s) o /\ 0 <= sa_Balance (ao_data o)) ->
  exists s', for_each l (finaliseObject de) s = (Ok tt, s') /\ db s' = db s /\
    accountObjectsDirty s' = accountObjectsDirty s /\
    (forall b, accountObjects s' !! b =
       if decide (b ∈ l) then finalised (db s) de <$> accountObjects s !! b else accountObjects s !! b) /\
    (forall b, trie s' !! b = afterFinalise s de (bool_decide (b ∈ l)) b).
Proof.
  intros Hnd. revert s. induction Hnd as [|a l Ha Hnd IH]; intros s Hs.
  - exists s. split_and!; try done. intros b.
    unfold afterFinalise. rewrite bool_decide_eq_false_2 by set_solver. by destruct (accountObjects s !! b).
  - destruct (finaliseObject_run de a s) as (s1 & Hr & Hdb & Hdi & Ho & Ht); [intros o; apply Hs; set_solver|].
    destruct (IH s1) as (s2 & Hr2 & Hdb2 & Hdi2 & Ho2 & Ht2).
    { intros b o Hb. rewrite Ho, decide_False, Hdb by set_solver. apply Hs. set_solver. }
    exists s2. simpl. unfold bind. rewrite Hr. split_and!; [done|congruence|congruence| |]; intros b.
    + rewrite Ho2, Ho, Hdb. destruct (decide (a = b)) as [<-|Hne].
      * by rewrite (decide_False (P := a ∈ l)), decide_True by set_solver.
      * destruct (decide (b ∈ l)); [by rewrite decide_True by set_solver|by rewrite decide_False by set_solver].
    + rewrite Ht2. unfold afterFinalise. rewrite Ho, Ht, Hdb. destruct (decide (a = b)) as [<-|Hne].
      * rewrite bool_decide_eq_false_2, bool_decide_eq_true_2 by set_solver. by destruct (accountObjects s !! a).
      * by rewrite (bool_decide_ext (b ∈ a :: l) (b ∈ l)) by set_solver.
Qed.

Lemma Finalise_run de s :
  flushable s ->
  exists s', Finalise de s = (Ok tt, s') /\ db s' = db s /\ accountObjectsDirty s' = accountObjectsDirty s /\
    (forall b, accountObjects s' !! b =
       if marked s b then finalised (db s) de <$> accountObjects s !! b else accountObjects s !! b) /\
    (forall b, trie s' !! b = afterFinalise s de (marked s b) b).
Proof.
  intros Hf. destruct (finalise_loop de (elements (accountObjectsDirty s)) s) as (s1 & Hr & Hdb & Hdi & Ho & Ht).
  { apply NoDup_elements. } { intros a o _. apply Hf. }
  exists (clearJournalAndRefund s1). unfold Finalise, bind, get. rewrite Hr. split_and!; try done; intros b; simpl.
  - rewrite Ho. unfold marked. case_decide as E; [by rewrite bool_decide_eq_true_2 by set_solver|].
    by rewrite bool_decide_eq_false_2 by set_solver.
  - rewrite Ht. unfold marked. by rewrite (bool_decide_ext _ (b ∈ accountObjectsDirty s)) by set_solver.
Qed.

End persist.

(** ** [Commit]

    The node database is addressed by content; among the tries and codes in play
    no two have the same hash.  [PT] and [PC] are those tries and codes. *)

Section commit.
Context `{AccountHashes} (PT : gmap bytes bytes -> Prop) (PC : bytes -> Prop).
Implicit Types (o : accountObject) (s : AccountDB) (a b : Address) (nd : NodeDatabase).

Record collisionFree : Prop := {
  cf_tries : forall t t', PT t -> PT t' -> storageHash t = storageHash t' -> t = t';
  cf_codes : forall c c', PC c -> PC c' -> Sum256 c = Sum256 c' -> c = c';
  cf_values : forall t k v, PT t -> t !! k = Some v -> v <> [];
  cf_zero : forall t, PT t -> storageHash t <> zeroB32;
  cf_emptyTrie : PT ∅ /\ storageHash ∅ = emptyRoot;
  cf_emptyCode : PC [];
}.
Context (CF : collisionFree).

Definition addressed nd : Prop :=
  (forall h t, nd_tries nd !! h = Some t -> storageHash t = h /\ PT t) /\
  (forall h c, nd_codes nd !! h = Some c -> Sum256 c = h /\ PC c).

Definition nodesLe nd nd' : Prop := nd_tries nd ⊆ nd_tries nd' /\ nd_codes nd ⊆ nd_codes nd'.

Lemma nodesLe_trans nd1 nd2 nd3 : nodesLe nd1 nd2 -> nodesLe nd2 nd3 -> nodesLe nd1 nd3.
Proof. intros [] []. split; by etransitivity. Qed.

Lemma OpenStorageTrie_mono nd nd' h t :
  nodesLe nd nd' -> OpenStorageTrie nd h = Some t -> OpenStorageTrie nd' h = Some t.
Proof. intros [Hle _]. unfold OpenStorageTrie. destruct (isEmptyRoot h); [done|]. intros ?. by eapply lookup_weaken. Qed.

Lemma insertTrie_le t nd : addressed nd -> PT t -> nodesLe nd (insertTrie t nd) /\ addressed (insertTrie t nd).
Proof.
  intros [Ht Hc] HP. split; [split; [|done]|split; [|done]]; simpl.
  - destruct (nd_tries nd !! storageHash t) as [t'|] eqn:E; [|by apply insert_subseteq].
    destruct (Ht _ _ E) as [Hh HP']. rewrite (cf_tries CF t' t HP' HP Hh) in E. by rewrite insert_id.
  - intros h t'. rewrite lookup_insert_Some. naive_solver.
Qed.

Lemma InsertBlob_le c nd : addressed nd -> PC c -> nodesLe nd (InsertBlob (Sum256 c) c nd) /\ addressed (InsertBlob (Sum256 c) c nd).
Proof.
  intros [Ht Hc] HP. split; [split; [done|]|split; [done|]]; simpl.
  - destruct (nd_codes nd !! Sum256 c) as [c'|] eqn:E; [|by apply insert_subseteq].
    destruct (Hc _ _ E) as [Hh HP']. rewrite (cf_codes CF c' c HP' HP Hh) in E. by rewrite insert_id.
  - intros h c'. rewrite lookup_insert_Some. naive_solver.
Qed.

(** A trie in play opens under its hash. *)
Lemma open_committed nd t : PT t -> nd_tries nd !! storageHash t = Some t -> OpenStorageTrie nd (storageHash t) = Some t.
Proof.
  intros HP Ht. unfold OpenStorageTrie, isEmptyRoot. rewrite (bool_decide_eq_false_2 (storageHash t = zeroB32)) by (by apply (cf_zero CF)).
  simpl. case_bool_decide as E; [|done]. f_equal. destruct (cf_emptyTrie CF) as [HP0 H0].
  apply (cf_tries CF); [done|done|congruence].
Qed.

(** *** One object *)

Record writable nd mark o : Prop := {
  wr_open : openable nd o;
  wr_balance : 0 <= sa_Balance (ao_data o);
  wr_trie : PT (flushOf nd o);
  wr_code : forall c, ao_code o = Some c -> sa_CodeHash (ao_data o) = Sum256 c /\ PC c;
  wr_mark : mark = false -> ao_suicided o = false;
}.

Lemma openable_mono nd nd' o : nodesLe nd nd' -> openable nd o -> openable nd' o.
Proof.
  intros Hle [He Ho]. split; [done|]. intros Hn. destruct (Ho Hn) as [t Ht]. exists t. by eapply OpenStorageTrie_mono.
Qed.

Lemma flushOf_mono nd nd' o : nodesLe nd nd' -> openable nd o -> flushOf nd' o = flushOf nd o.
Proof.
  intros Hle [_ Ho]. unfold flushOf, trieOf. destruct (ao_trie o); [done|].
  destruct (Ho eq_refl) as [t Ht]. by rewrite (OpenStorageTrie_mono nd nd' _ t Hle Ht), Ht.
Qed.

Lemma writable_mono nd nd' mark o : nodesLe nd nd' -> writable nd mark o -> writable nd' mark o.
Proof.
  intros Hle [Ho Hb Ht Hc Hm]. split; try done; [by eapply openable_mono|by rewrite (flushOf_mono nd nd')].
Qed.

(** What every step of a commit keeps and adds. *)
Definition grows s s' : Prop :=
  nodesLe (db s) (db s') /\ addressed (db s') /\ accountObjectsDirty s' = accountObjectsDirty s.

Lemma commitCode_run mark a o s :
  addressed (db s) -> writable (db s) mark o ->
  exists o1 s1, commitCode a o s = (Ok o1, s1) /\ grows s s1 /\ trie s1 = trie s /\
    ao_data o1 = ao_data o /\ openable (db s1) o1 /\ flushOf (db s1) o1 = flushOf (db s) o /\
    (forall c, ao_code o = Some c -> ao_dirtyCode o = true -> nd_codes (db s1) !! sa_CodeHash (ao_data o) = Some c).
Proof.
  intros Hadd Hw. pose proof (wr_open _ _ _ Hw) as Hop. unfold commitCode.
  destruct (ao_code o) as [c|] eqn:Ec; [destruct (ao_dirtyCode o) eqn:Ed|].
  - destruct (wr_code _ _ _ Hw c Ec) as [Hh HP].
    destruct (InsertBlob_le c (db s) Hadd HP) as [Hle Hadd']. rewrite <- Hh in Hle, Hadd'.
    eexists _, _. split; [reflexivity|]. split_and!; try done.
    intros c' [= <-] _. simpl. by rewrite lookup_insert_eq.
  - exists o, s. by split_and!.
  - exists o, s. by split_and!.
Qed.

Lemma CommitTrie_run a o s :
  addressed (db s) -> openable (db s) o -> PT (flushOf (db s) o) ->
  exists o1 s1, CommitTrie a o s = (Ok o1, s1) /\ grows s s1 /\ trie s1 = trie s /\
    ao_data o1 = committed (db s) o /\
    nd_tries (db s1) !! storageHash (flushOf (db s) o) = Some (flushOf (db s) o).
Proof.
  intros Hadd Hop HP. unfold CommitTrie, bind, gets. rewrite updateTrie_flushed by done. simpl.
  destruct (insertTrie_le _ _ Hadd HP) as [Hle Hadd'].
  eexists _, _. split; [reflexivity|]. split_and!; try done. simpl. by rewrite lookup_insert_eq.
Qed.

(** The object is in the node database. *)
Definition inNodes nd nd' o : Prop :=
  nd_tries nd' !! storageHash (flushOf nd o) = Some (flushOf nd o) /\
  forall c, ao_code o = Some c -> ao_dirtyCode o = true -> nd_codes nd' !! sa_CodeHash (ao_data o) = Some c.

Lemma commitObject_run de a o s :
  addressed (db s) -> writable (db s) (marked s a) o ->
  exists s', commitObject de (a, o) s = (Ok tt, s') /\ nodesLe (db s) (db s') /\ addressed (db s') /\
    accountObjectsDirty s' = accountObjectsDirty s ∖ {[a]} /\
    (forall b, trie s' !! b =
       if decide (a = b) then writtenAs (db s) de (marked s a) o (trie s !! b) else trie s !! b) /\
    (dead de (marked s a) o = false -> marked s a = true -> inNodes (db s) (db s') o).
Proof.
  intros Hadd Hw. unfold commitObject, bind, gets. fold (marked s a).
  unfold writtenAs. fold (dead de (marked s a) o).
  destruct (dead de (marked s a) o) eqn:Edead.
  { eexists. split; [reflexivity|]. split_and!; try done. intros b. simpl.
    destruct (decide (a = b)) as [<-|]; by rewrite ?lookup_delete_eq, ?lookup_delete_ne. }
  destruct (marked s a) eqn:Emark.
  - destruct (commitCode_run true a o s Hadd Hw) as (o1 & s1 & -> & (Hle & Hadd1 & Hd1) & Ht1 & Hda & Hop1 & Hfl & Hcode).
    destruct (CommitTrie_run a o1 s1 Hadd1 Hop1) as (o2 & s2 & -> & (Hle2 & Hadd2 & Hd2) & Ht2 & Hda2 & Hnode).
    { rewrite Hfl. apply Hw. }
    assert (ao_data o2 = committed (db s) o) as Hda3 by (rewrite Hda2; unfold committed; by rewrite Hfl, Hda).
    unfold updateAccountObject. rewrite Hda3. simpl. rewrite (proj2 (Z.ltb_ge _ _) (wr_balance _ _ _ Hw)).
    eexists. split; [reflexivity|]. simpl. rewrite Hd2, Hd1, Ht2, Ht1, Hfl in *.
    split_and!; [by eapply nodesLe_trans|done|done| |].
    + intros b. destruct (decide (a = b)) as [<-|]; by rewrite ?lookup_insert_eq, ?lookup_insert_ne, ?Hda3.
    + intros _ _. split; [done|]. intros c Hc Hdc. eapply lookup_weaken; [by apply Hcode|apply Hle2].
  - eexists. split; [reflexivity|]. split_and!; try done. intros b. simpl. by case_decide.
Qed.

Lemma inNodes_mono nd nd1 nd2 o : nodesLe nd1 nd2 -> inNodes nd nd1 o -> inNodes nd nd2 o.
Proof.
  intros [Ht Hc] [H1 H2]. split; [by eapply lookup_weaken|]. intros c ? ?. eapply lookup_weaken; eauto.
Qed.

(** *** All of them *)

Lemma commit_loop de l s :
  NoDup l.*1 -> addressed (db s) -> (forall a o, (a, o) ∈ l -> writable (db s) (marked s a) o) ->
  exists s', for_each l (commitObject de) s = (Ok tt, s') /\ nodesLe (db s) (db s') /\ addressed (db s') /\
    (forall b, b ∉ l.*1 -> trie s' !! b = trie s !! b) /\
    (forall a o, (a, o) ∈ l -> trie s' !! a = writtenAs (db s) de (marked s a) o (trie s !! a) /\
       (dead de (marked s a) o = false -> marked s a = true -> inNodes (db s) (db s') o)).
Proof.
  revert s. induction l as [|[a o] l IH]; intros s Hnd Hadd Hw.
  { exists s. split_and!; try done; set_solver. }
  apply NoDup_cons in Hnd as [Ha Hnd].
  destruct (commitObject_run de a o s Hadd (Hw a o ltac:(set_solver))) as (s1 & Hr & Hle & Hadd1 & Hd1 & Ht1 & Hin).
  assert (forall b, b ∈ l.*1 -> a <> b) as Hne by set_solver.
  assert (forall b, a <> b -> marked s1 b = marked s b) as Hmk.
  { intros b Hb. unfold marked. rewrite Hd1. apply bool_decide_ext. set_solver. }
  destruct (IH s1 Hnd Hadd1) as (s2 & Hr2 & Hle2 & Hadd2 & Hout & Hall).
  { intros b x Hb. assert (a <> b) as Hab by (apply Hne; by apply (list_elem_of_fmap_2 fst _ (b, x))).
    rewrite Hmk by done. apply (writable_mono _ _ _ _ Hle), Hw. set_solver. }
  exists s2. cbn [for_each]. unfold bind. rewrite Hr. split_and!; [done|by eapply nodesLe_trans|done| |].
  - intros b Hb. simpl in Hb. rewrite Hout, Ht1 by set_solver. by rewrite decide_False by set_solver.
  - intros b x Hb. apply elem_of_cons in Hb as [[= -> ->]|Hb].
    + rewrite Hout, Ht1, decide_True by done. split; [done|]. intros Hd Hm. apply (inNodes_mono _ _ _ _ Hle2). by apply Hin.
    + assert (a <> b) as Hab by (apply Hne; by apply (list_elem_of_fmap_2 fst _ (b, x))).
      destruct (Hall b x Hb) as [Ht2 Hin2]. rewrite Hmk in Ht2, Hin2 by done.
      pose proof (wr_open _ _ _ (Hw b x ltac:(set_solver))) as Hop.
      unfold writtenAs, committed, inNodes in *. rewrite (flushOf_mono _ _ _ Hle Hop) in Ht2, Hin2.
      by rewrite Ht1, decide_False in Ht2 by done.
Qed.

(** ** The account read back *)

(** Storage without the entries of length zero; no code instead of code of length zero. *)
Definition nonEmpty (m : gmap bytes bytes) : gmap bytes bytes := filter (fun kv => kv.2 <> []) m.
Definition persisted (x : World.Account) : World.Account :=
  World.mkAccount (World.Balance x) (World.Nonce x) (slotValue (World.Code x)) false
    (nonEmpty (World.Storage x)) (nonEmpty (World.Storage x)).

Lemma lookup_nonEmpty m k : nonEmpty m !! k = slotValue (m !! k).
Proof.
  unfold nonEmpty. rewrite map_lookup_filter. by destruct (m !! k) as [[|x v]|]; simplify_option_eq.
Qed.

Lemma open_PT nd h t : addressed nd -> OpenStorageTrie nd h = Some t -> PT t.
Proof.
  intros [Ha _]. unfold OpenStorageTrie. destruct (isEmptyRoot h); [|intros Ht; by destruct (Ha _ _ Ht)].
  intros [= <-]. apply (cf_emptyTrie CF).
Qed.

Lemma coherent_trie nd o : addressed nd -> coherent nd o -> PT (trieOf nd (ao_trie o) (sa_Root (ao_data o))).
Proof.
  intros Ha [_ _ (t & Ht & Ho) _ _ _ _]. apply (open_PT nd _ t Ha) in Ht as HP.
  destruct Ho as [-> | ->]; [|done]. simpl. by rewrite Ht.
Qed.

Lemma flushOf_nonEmpty nd o :
  addressed nd -> coherent nd o -> flushOf nd o = nonEmpty (World.Storage (absObject nd o)).
Proof.
  intros Ha Hc. pose proof (coherent_trie nd o Ha Hc) as HP. apply map_eq. intros k.
  rewrite lookup_flushOf, lookup_nonEmpty. simpl. rewrite lookup_overlay.
  pose proof (co_cache _ _ Hc k) as Hk. destruct (ao_dirtyStorage o !! k) as [v|]; [by rewrite Hk|].
  assert (forall v, trieOf nd (ao_trie o) (sa_Root (ao_data o)) !! k = v -> v = slotValue v) as Hv.
  { intros [[|x v]|] Hv; try done. by destruct (cf_values CF _ _ _ HP Hv). }
  destruct (ao_cachedStorage o !! k) as [v|] eqn:E; [rewrite (Hk v eq_refl)|]; by apply Hv.
Qed.

Lemma code_found nd nd' o :
  coherent nd o -> nodesLe nd nd' ->
  (forall c, ao_code o = Some c -> ao_dirtyCode o = true -> nd_codes nd' !! sa_CodeHash (ao_data o) = Some c) ->
  sa_CodeHash (ao_data o) <> emptyCodeHash ->
  exists c, nd_codes nd' !! sa_CodeHash (ao_data o) = Some c /\ codeOf nd (ao_code o) (sa_CodeHash (ao_data o)) = Some c.
Proof.
  intros Hc [_ Hle] Hin Hne. pose proof (co_found _ _ Hc) as Hf. pose proof (co_code _ _ Hc) as Hk.
  unfold codeOf in *. rewrite bool_decide_eq_false_2 in * by done.
  destruct (ao_code o) as [c|] eqn:Ec.
  - destruct (ao_dirtyCode o) eqn:Ed; [exists c; eauto|]. specialize (Hk eq_refl). exists c. split; [|done].
    by eapply lookup_weaken; [symmetry|].
  - destruct (Hf eq_refl Hne) as [c Hcd]. exists c. split; [by eapply lookup_weaken|done].
Qed.

(** What was written reads as the object, persisted. *)
Lemma reopened nd nd' o d :
  addressed nd -> coherent nd o -> nodesLe nd nd' ->
  (forall c, ao_code o = Some c -> PC c) ->
  (forall c, ao_code o = Some c -> ao_dirtyCode o = true -> nd_codes nd' !! sa_CodeHash (ao_data o) = Some c) ->
  OpenStorageTrie nd' (sa_Root d) = Some (flushOf nd o) ->
  sa_Balance d = sa_Balance (ao_data o) -> sa_Nonce d = sa_Nonce (ao_data o) ->
  sa_CodeHash d = sa_CodeHash (ao_data o) ->
  absObject nd' (newAccountObject d) = persisted (absObject nd o).
Proof.
  intros Ha Hc Hle HPC Hin Hopen Hb Hn Hh. unfold absObject at 1, persisted. simpl.
  rewrite Hopen, Hb, Hn, Hh, overlay_empty_l. simpl.
  rewrite (flushOf_nonEmpty nd o Ha Hc). f_equal.
  destruct (decide (sa_CodeHash (ao_data o) = emptyCodeHash)) as [E|E].
  - rewrite bool_decide_eq_true_2 by done. pose proof (co_hash _ _ Hc) as Hs.
    destruct (codeOf nd (ao_code o) (sa_CodeHash (ao_data o))) as [c|] eqn:Ec; [|done]. simpl in Hs.
    assert (c = []) as ->; [|done]. apply (cf_codes CF); [|apply (cf_emptyCode CF)|by rewrite <- Hs, E].
    unfold codeOf in Ec. destruct (ao_code o) as [c'|]; [apply HPC; congruence|].
    by rewrite bool_decide_eq_true_2 in Ec by done.
  - rewrite bool_decide_eq_false_2 by done. destruct (code_found nd nd' o Hc Hle Hin E) as (c & -> & Hco).
    rewrite Hco. pose proof (co_hash _ _ Hc) as Hs. rewrite Hco in Hs. simpl in Hs. by destruct c.
Qed.

End commit.
