(* ===== verification/AccountDBCommit.v ===== *)
(** * AccountDBCommit: a block's world survives the commit

    The composition a block makes of the account database: operations, then
    [IntermediateRoot] for the header, then [Commit].  The database opened on the
    committed root stands for the world the operations led to. *)
From S2P Require Import Prelude Bytes TrieEncoding World AccountDB AccountDBTheorems AccountDBPersist.
Local Open Scope Z_scope.
Local Open Scope zv_scope.

Section commit.
Context `{AccountHashes} (PT : gmap bytes bytes -> Prop) (PC : bytes -> Prop) (CF : collisionFree PT PC).
Implicit Types (o : accountObject) (s : AccountDB) (a b : Address) (nd : NodeDatabase).

(** The tries and codes of the cached objects are in play, and no balance is negative. *)
Definition inPlay s : Prop :=
  forall a o, accountObjects s !! a = Some o ->
  0 <= sa_Balance (ao_data o) /\ PT (flushOf (db s) o) /\ forall c, ao_code o = Some c -> PC c.

Lemma writable_cached s a o :
  good s -> inPlay s -> accountObjects s !! a = Some o -> writable PT PC (db s) (marked s a) o.
Proof.
  intros [[Ho _] _] Hp Ha. destruct (Ho a o Ha) as [Hc Hm]. destruct (Hp a o Ha) as (Hb & Ht & HPC).
  split; [by apply coherent_openable|done|done| |by intros Hmk; destruct (Hm Hmk) as (_ & _ & _ & ? & _)].
  intros c Ec. split; [|by apply HPC]. pose proof (co_hash _ _ Hc) as Hh. rewrite Ec in Hh. done.
Qed.

Lemma writable_finalised nd mark de o :
  mark = true -> writable PT PC nd mark o -> writable PT PC nd mark (finalised nd de o).
Proof.
  intros -> [Hop Hb Ht Hc _]. unfold finalised. destruct (dead de true o); split; done.
Qed.

Lemma written_finalised nd de o cur cur' :
  writtenAs nd de true (finalised nd de o) cur = writtenAs nd de true o cur'.
Proof.
  assert (dead de true (finalised nd de o) = dead de true o) as Hd
    by (unfold finalised; destruct (dead de true o) eqn:E; exact E).
  unfold writtenAs. rewrite Hd. destruct (dead de true o) eqn:E; [done|].
  unfold finalised, committed. by rewrite E, flushOf_flushed.
Qed.

Lemma inNodes_finalised nd nd' de o : inNodes nd nd' (finalised nd de o) -> inNodes nd nd' o.
Proof.
  unfold inNodes, finalised. destruct (dead de true o); [done|]. by rewrite flushOf_flushed.
Qed.

(** [Finalise], then [Commit]: the trie of the one is the trie of the other, and
    what it refers to is in the node database. *)
Lemma finalise_commit s :
  good s -> inPlay s -> addressed PT PC (db s) ->
  exists s2 s3, Finalise true s = (Ok tt, s2) /\ Commit true s2 = (Ok (stateHash (trie s2)), s3) /\
    nd_states (db s3) !! stateHash (trie s2) = Some (trie s2) /\
    nodesLe (db s) (db s3) /\ addressed PT PC (db s3) /\
    (forall a, trie s2 !! a = afterFinalise s true (marked s a) a) /\
    (forall a o, accountObjects s !! a = Some o -> dead true (marked s a) o = false -> marked s a = true ->
       inNodes (db s) (db s3) o).
Proof.
  intros Hg Hp Hadd.
  destruct (Finalise_run true s) as (s2 & Hf & Hdb & Hdi & Ho & Ht).
  { intros a o Ha. destruct (writable_cached s a o Hg Hp Ha). done. }
  assert (forall a, marked s2 a = marked s a) as Hmk by (intros a; unfold marked; by rewrite Hdi).
  destruct (commit_loop PT PC CF true (map_to_list (accountObjects s2)) s2) as (s3 & Hc & Hle & Hadd3 & Hout & Hall).
  { apply NoDup_fst_map_to_list. } { by rewrite Hdb. }
  { intros a o Ha. apply elem_of_map_to_list in Ha. rewrite Hmk, Hdb. rewrite Ho in Ha.
    destruct (marked s a) eqn:Em; [|rewrite <- Em; by apply writable_cached].
    apply fmap_Some in Ha as (o0 & Ha & ->). apply writable_finalised; [done|]. rewrite <- Em. by apply writable_cached. }
  assert (trie s3 = trie s2) as Htr.
  { apply map_eq. intros a. destruct (accountObjects s2 !! a) as [o|] eqn:Ea.
    - apply elem_of_map_to_list in Ea as Hin. destruct (Hall a o Hin) as [-> _]. rewrite Hmk, Hdb, Ht.
      unfold afterFinalise. rewrite Ho in Ea. destruct (marked s a) eqn:Em.
      + apply fmap_Some in Ea as (o0 & Ea & ->). rewrite Ea. apply written_finalised.
      + rewrite Ea. unfold writtenAs, dead. simpl.
        by rewrite (wr_mark _ _ _ _ _ (writable_cached s a o Hg Hp Ea) Em).
    - apply Hout. intros Hin. apply list_elem_of_fmap in Hin as ([b o] & -> & Hin).
      apply elem_of_map_to_list in Hin. simpl in Ea. congruence. }
  exists s2, (clearJournalAndRefund (setNodes (insertState (trie s3) (db s3)) s3)).
  unfold Commit. rewrite Hc. simpl. rewrite Htr, Hdb in *. split_and!; try done.
  - by rewrite lookup_insert_eq.
  - intros a o Ha Hd Hm. apply (inNodes_finalised _ _ true). apply (Hall a).
    + apply elem_of_map_to_list. by rewrite Ho, Hm, Ha.
    + rewrite Hmk, Hm. rewrite Hm in Hd. unfold finalised. rewrite Hd.
      revert Hd. done.
    + by rewrite Hmk.
Qed.

(** The accounts a commit removes: destroyed, or marked dirty and empty. *)
Definition removed s a : bool :=
  match accountObjects s !! a with
  | Some o => dead true (marked s a) o
  | None => false
  end.

(** What an account of the new trie is: the one of the world, persisted. *)
Definition readsBack nd nd' (tr : gmap Address StoredAccount) s : Prop :=
  forall a, (fun d => absObject nd' (newAccountObject d)) <$> tr !! a =
            (if removed s a then None else persisted <$> World.accounts (abs s) !! a) /\
            forall d, tr !! a = Some d ->
            is_Some (OpenStorageTrie nd' (sa_Root d)) /\
            (sa_CodeHash d <> emptyCodeHash ->
             exists c, nd_codes nd' !! sa_CodeHash d = Some c /\ Sum256 c = sa_CodeHash d).

(** An account that is read from the trie alone. *)
Lemma reads_unmarked nd nd' o d :
  addressed PT PC nd -> addressed PT PC nd' -> coherent nd o -> nodesLe nd nd' ->
  (forall c, ao_code o = Some c -> PC c) ->
  (forall c, ao_code o = Some c -> ao_dirtyCode o = true -> nd_codes nd' !! sa_CodeHash (ao_data o) = Some c) ->
  OpenStorageTrie nd' (sa_Root d) = Some (flushOf nd o) ->
  sa_Balance d = sa_Balance (ao_data o) -> sa_Nonce d = sa_Nonce (ao_data o) ->
  sa_CodeHash d = sa_CodeHash (ao_data o) ->
  absObject nd' (newAccountObject d) = persisted (absObject nd o) /\
  is_Some (OpenStorageTrie nd' (sa_Root d)) /\
  (sa_CodeHash d <> emptyCodeHash ->
   exists c, nd_codes nd' !! sa_CodeHash d = Some c /\ Sum256 c = sa_CodeHash d).
Proof.
  intros Ha Ha' Hc Hle HPC Hin Hopen Hb Hn Hh. split_and!; [by eapply reopened|by rewrite Hopen|].
  intros Hne. rewrite Hh in *. destruct (code_found nd nd' o Hc Hle Hin Hne) as (c & Hcd & _).
  exists c. split; [done|]. by apply Ha' in Hcd as [? _].
Qed.

Lemma commit_reads s s2 s3 :
  good s -> inPlay s -> addressed PT PC (db s) -> addressed PT PC (db s3) -> nodesLe (db s) (db s3) ->
  (forall a, trie s2 !! a = afterFinalise s true (marked s a) a) ->
  (forall a o, accountObjects s !! a = Some o -> dead true (marked s a) o = false -> marked s a = true ->
     inNodes (db s) (db s3) o) ->
  readsBack (db s) (db s3) (trie s2) s.
Proof.
  intros Hg Hp Ha Ha3 Hle Ht Hin a. rewrite Ht. unfold afterFinalise, removed. simpl. rewrite lookup_abs.
  destruct (accountObjects s !! a) as [o|] eqn:Eo.
  - destruct (proj1 (proj1 Hg) a o Eo) as [Hc Hm]. destruct (Hp a o Eo) as (_ & HPT & HPC).
    simpl. rewrite (co_live _ _ Hc). unfold writtenAs. destruct (marked s a) eqn:Em.
    + destruct (dead true true o) eqn:Ed; [done|]. simpl.
      destruct (Hin a o Eo) as [Hn Hcode]; [by rewrite Em|done|].
      destruct (reads_unmarked (db s) (db s3) o (committed (db s) o)) as (-> & Hrest); try done.
      { by apply (open_committed PT PC CF). }
      split; [done|]. by intros d [= <-].
    + destruct (Hm eq_refl) as (_ & -> & Hds & Hsu & Hdc). unfold dead. rewrite Hsu. simpl.
      destruct (reads_unmarked (db s) (db s3) o (ao_data o)) as (-> & Hrest); try done.
      { by rewrite Hdc. }
      { apply (OpenStorageTrie_mono _ _ _ _ Hle). destruct (co_open _ _ Hc) as (t & Hot & Htr). rewrite Hot. f_equal.
        apply map_eq. intros k. rewrite lookup_flushOf, Hds, lookup_empty.
        destruct Htr as [-> | ->]; simpl; by rewrite ?Hot. }
      split; [done|]. by intros d [= <-].
  - simpl. destruct (trie s !! a) as [d|] eqn:Ed; [|done]. simpl.
    pose proof (coherent_load (db s) (trie s) a d (proj2 Hg) Ed) as Hc.
    destruct (co_open _ _ Hc) as (t & Hot & _).
    destruct (reads_unmarked (db s) (db s3) (newAccountObject d) d) as (-> & Hrest); try done.
    { apply (OpenStorageTrie_mono _ _ _ _ Hle). simpl in Hot. rewrite Hot. f_equal.
      apply map_eq. intros k. rewrite lookup_flushOf. simpl. rewrite lookup_empty. by rewrite Hot. }
    split; [done|]. by intros d' [= <-].
Qed.

End commit.

(** ** The node database stays as it is until the commit *)

Section frame.
Context `{AccountHashes}.
Implicit Types (o : accountObject) (s : AccountDB) (a b : Address).

Lemma db_applied a st e s : db (applied a st e s) = db s.
Proof. unfold applied. by destruct (ef_marks e), st. Qed.

Lemma db_create a s : db (snd (createObject a s)) = db s.
Proof.
  unfold createObject. pose proof (getAccountObject_frame a s) as Hf. destruct (getAccountObject a s) as [oo s1].
  simpl in *. unfold setAccountObject. simpl. by destruct (accountObjects s1 !! a).
Qed.

Lemma db_onObject a m s : db (onObject a m s) = db s.
Proof.
  unfold onObject, getOrNewAccountObject. pose proof (getAccountObject_frame a s) as Hf.
  destruct (getAccountObject a s) as [[o|] s1]; simpl in Hf.
  - by rewrite db_applied.
  - pose proof (db_create a s1) as Hc. destruct (createObject a s1) as [[[o st] p] s2]. simpl in Hc.
    rewrite db_applied. congruence.
Qed.

Lemma db_read {A} a (none : A) q s : db (snd (readObject a none q s)) = db s.
Proof.
  unfold readObject. pose proof (getAccountObject_frame a s) as Hf.
  destruct (getAccountObject a s) as [[o|] s1]; [by destruct (q o)|done].
Qed.

Lemma db_undoOn a m s : db (snd (undoOn a m s)) = db s.
Proof.
  unfold undoOn. pose proof (getAccountObject_frame a s) as Hf.
  destruct (getAccountObject a s) as [[o|] s1]; cbn [snd] in *; by rewrite ?db_applied.
Qed.

Lemma db_undo e s : db (snd (undo e s)) = db s.
Proof.
  destruct e; simpl undo; try apply db_undoOn; try done.
  - pose proof (getAccountObject_frame account s) as Hf.
    destruct (getAccountObject account s) as [[o|] s1]; cbn [snd] in *; by rewrite ?db_applied.
  - destruct (negb prev && bool_decide (account <> ripemd)); [|done].
    unfold bind. pose proof (db_undoOn account
      (fun o => mkEffect (setFlags (ao_suicided o) prev (ao_deleted o) (ao_onDirty o) o) [] false) s) as Hu.
    destruct (undoOn account _ s) as [[[]| |] s1]; [by destruct (negb prevDirty)|done|done].
Qed.

Lemma db_revert id s : db (snd (RevertToSnapshot id s)) = db s.
Proof.
  unfold RevertToSnapshot. destruct (list_find _ (validRevisions s)) as [[i r]|]; [|done].
  destruct (rev_id r =? id); [|done]. unfold bind.
  assert (forall es s', db (snd (for_each es undo s')) = db s') as Hall.
  { induction es as [|e es IH]; intros s'; [done|]. simpl. unfold bind. pose proof (db_undo e s') as Hu.
    destruct (undo e s') as [[[]| |] s1]; [by rewrite IH|done|done]. }
  specialize (Hall (rev (drop (journalIndex r) (transitions s))) s).
  by destruct (for_each _ undo s) as [[[]| |] s1].
Qed.

Lemma db_asks {A} (r : A -> reply) q s : db (snd (asks r q s)) = db (snd (q s)).
Proof. unfold asks. by destruct (q s). Qed.

Lemma db_op op s : db (snd (runOp op s)) = db s.
Proof.
  destruct op; simpl runOp; rewrite ?db_asks; try apply db_onObject; try apply db_read; try done.
  - cbn [snd does]. unfold CreateAccount. pose proof (db_create a s) as Hc.
    destruct (createObject a s) as [[[o st] [p|]] s1]; [by rewrite db_applied|done].
  - cbn [snd does]. unfold Transfer. destruct (v <=? 0); [done|]. unfold AddBalance, SubBalance. by rewrite !db_onObject.
  - unfold Suicide. pose proof (getAccountObject_frame a s) as Hf.
    destruct (getAccountObject a s) as [[o|] s1]; cbn [snd] in *; by rewrite ?db_applied.
  - unfold CanTransfer, GetBalance. destruct (v <? 0); [done|].
    pose proof (db_read a 0 (fun o => (sa_Balance (ao_data o), o)) s) as Hr. by destruct (readObject _ _ _ _).
  - pose proof (db_revert id s) as Hr. unfold bind. by destruct (RevertToSnapshot id s) as [[[]| |] s1].
Qed.

Lemma db_sequence ops s : db (snd (sequence runOp ops s)) = db s.
Proof.
  revert s. induction ops as [|op ops IH]; intros s; [done|]. simpl. unfold bind. pose proof (db_op op s) as Ho.
  destruct (runOp op s) as [[r| |] s1]; [|done|done]. specialize (IH s1). simpl in Ho. rewrite Ho in IH.
  by destruct (sequence runOp ops s1) as [[rs| |] s2].
Qed.

End frame.

(** C8: a block's operations on an account database, the root
    for its header ([IntermediateRoot]) and the commit: the commit succeeds with
    the header's root, and the database opened on that root stands for the world
    the operations led to, account by account, without those destroyed or dirty
    and empty, its storage and code of length zero gone.  The node database stays
    addressed by content and complete, so the next block starts as this one did.
    Assumed: no two tries or codes in play have one hash, no balance is negative,
    no credit is of zero. *)
Theorem commit_reopens `{AccountHashes} PT PC root nd s ops :
  collisionFree PT PC -> addressed PT PC nd -> NewAccountDB root nd = Some s -> complete nd (trie s) ->
  Forall credits ops ->
  let s1 := snd (sequence runOp ops s) in
  inPlay PT PC s1 ->
  exists h s2 s3, IntermediateRoot true s1 = (Ok h, s2) /\ Commit true s2 = (Ok h, s3) /\
    addressed PT PC (db s3) /\
    ((isEmptyRoot h = true -> trie s2 = ∅) ->
     exists s4, NewAccountDB h (db s3) = Some s4 /\ complete (db s3) (trie s4) /\
       forall a, World.accounts (abs s4) !! a =
                 if removed s1 a then None else persisted <$> World.accounts (abs s1) !! a).
Proof.
  intros CF Hadd Hnew Hcomp Hcr s1 Hp.
  assert (good s1) as Hg by (apply good_sequence; [done|by eapply good_new]).
  assert (db s1 = nd) as Hdb.
  { unfold s1. rewrite db_sequence. unfold NewAccountDB in Hnew. by apply fmap_Some in Hnew as (tr & _ & ->). }
  rewrite <- Hdb in Hadd.
  destruct (finalise_commit PT PC CF s1 Hg Hp Hadd) as (s2 & s3 & Hf & Hc & Hst & Hle & Hadd3 & Ht & Hin).
  pose proof (commit_reads PT PC CF s1 s2 s3 Hg Hp Hadd Hadd3 Hle Ht Hin) as Hread.
  exists (stateHash (trie s2)), s2, s3. split_and!; [|done|done|].
  { unfold IntermediateRoot, bind. by rewrite Hf. }
  intros Hroot. exists (mkDB (db s3) (trie s2) ∅ ∅ 0 [] [] 0). split_and!.
  - unfold NewAccountDB, OpenTrie. destruct (isEmptyRoot (stateHash (trie s2))); [by rewrite (Hroot eq_refl)|by rewrite Hst].
  - intros a d Hd. by apply (Hread a).
  - intros a. simpl. rewrite lookup_abs. simpl. rewrite lookup_empty. simpl. apply (Hread a).
Qed.

(** ** Where the marks fail *)

Section failures.
Context `{AccountHashes}.

(** An account that is nothing but its storage. *)
Definition onlyStorage (d : StoredAccount) : Prop :=
  sa_Nonce d = 0 /\ sa_Balance d = 0 /\ sa_CodeHash d = emptyCodeHash.

Lemma onlyStorage_empty d : onlyStorage d -> empty (newAccountObject d) = true.
Proof. intros (Hn & Hb & Hc). unfold empty. simpl. rewrite Hn, Hb, Hc. by rewrite !bool_decide_eq_true_2. Qed.

(** The object after a credit of zero: touched, its callback spent; [to] is the mark. *)
Definition touchedObject (d : StoredAccount) (to : bool) : accountObject :=
  mkObject d false None None ∅ ∅ false false to false false.

Lemma AddBalance_zero nd tr r ts vs n a d :
  tr !! a = Some d -> onlyStorage d ->
  AddBalance a 0 (mkDB nd tr ∅ ∅ r ts vs n) =
  mkDB nd tr {[a := touchedObject d true]} {[a]} r (ts ++ [touchChange a false false]) vs n.
Proof.
  intros Hd Ho. unfold AddBalance, onObject, getOrNewAccountObject, getAccountObject, getAccountObjectFromTrie.
  cbn [accountObjects trie]. rewrite lookup_empty, Hd. cbn [fmap option_fmap option_map].
  unfold AddBalance_ao. rewrite (onlyStorage_empty d Ho). unfold setAccountObject. cbn [accountObjects].
  rewrite lookup_empty. unfold applied, append, MarkAccountObjectDirty, setObjects, setDirty, setJournal. simpl.
  by rewrite union_empty_r_L, insert_insert_eq, insert_empty.
Qed.

Lemma sequence_step op ops s r s1 :
  runOp op s = (Ok r, s1) -> snd (sequence runOp (op :: ops) s) = snd (sequence runOp ops s1).
Proof. intros Hr. simpl. unfold bind. rewrite Hr. by destruct (sequence runOp ops s1) as [[rs| |] s2]. Qed.

Lemma revert_touch nd tr a d :
  a <> ripemd ->
  runOp (OpRevert 0) (mkDB nd tr {[a := touchedObject d true]} {[a]} 0 [touchChange a false false] [mkRevision 0 0] 1) =
  (Ok RUnit, mkDB nd tr {[a := touchedObject d false]} ∅ 0 [] [] 1).
Proof.
  intros Hr. simpl. unfold bind, RevertToSnapshot. simpl. rewrite bool_decide_eq_true_2 by done. simpl.
  unfold bind, undoOn, getAccountObject. simpl. rewrite lookup_singleton_eq. simpl.
  unfold applied. simpl. rewrite insert_singleton_eq. unfold setDirty, setJournal. simpl.
  by rewrite difference_diag_L.
Qed.

(** An account of the trie with storage but no nonce,
    balance or code is removed, with all its storage, by a credit of zero in a
    block that reads none of that storage. *)
Theorem zero_credit_removes root nd s a d :
  NewAccountDB root nd = Some s -> trie s !! a = Some d -> onlyStorage d ->
  exists s', Finalise true (AddBalance a 0 s) = (Ok tt, s') /\ trie s' = delete a (trie s) /\
             World.accounts (abs s') !! a = None.
Proof.
  intros Hnew Hd Ho. apply onlyStorage_empty in Ho as He.
  unfold NewAccountDB in Hnew. apply fmap_Some in Hnew as (tr & _ & ->). simpl in Hd.
  rewrite (AddBalance_zero nd tr 0 [] [] 0 a d Hd Ho). unfold Finalise, bind, get. simpl.
  rewrite elements_singleton. simpl. unfold bind, finaliseObject, bind, get. simpl. rewrite lookup_singleton_eq.
  change (empty (newAccountObject d)) with (empty (touchedObject d true)) in He. simpl. rewrite He.
  eexists. split; [reflexivity|]. split; [done|]. simpl. rewrite lookup_abs. simpl. by rewrite lookup_insert_eq.
Qed.

(** C39: a credit of zero to such an account that is
    then reverted takes the dirty mark off and leaves the object without its
    callback: a balance set afterwards is what the block reads, and does not
    reach the state trie. *)
Theorem touch_undo_loses_writes root nd s a d v :
  NewAccountDB root nd = Some s -> trie s !! a = Some d -> onlyStorage d -> a <> ripemd ->
  let s1 := snd (sequence runOp [OpSnapshot; OpAddBalance a 0; OpRevert 0; OpSetBalance a v] s) in
  World.GetBalance (abs s1) a = v /\
  exists s2, Finalise true s1 = (Ok tt, s2) /\ trie s2 = trie s.
Proof.
  intros Hnew Hd Ho Hr.
  unfold NewAccountDB in Hnew. apply fmap_Some in Hnew as (tr & _ & ->). simpl in Hd.
  set (s1 := snd _).
  assert (s1 = mkDB nd tr {[a := setBalanceData v (touchedObject d false)]} ∅ 0 [balanceChange a (sa_Balance d)] [] 1) as ->.
  { unfold s1. rewrite (sequence_step OpSnapshot _ _ (RInt 0) (mkDB nd tr ∅ ∅ 0 [] [mkRevision 0 0] 1)) by done.
    erewrite sequence_step by (simpl; unfold does; by rewrite (AddBalance_zero _ _ _ _ _ _ a d Hd Ho)).
    erewrite sequence_step by (by apply revert_touch). simpl. unfold bind. simpl.
    unfold SetBalance, onObject, getOrNewAccountObject, getAccountObject. simpl. rewrite lookup_singleton_eq.
    unfold applied. simpl. by rewrite insert_singleton_eq. }
  split.
  - unfold World.GetBalance. simpl. by rewrite lookup_abs; simpl; rewrite lookup_singleton_eq.
  - eexists. split; reflexivity.
Qed.

End failures.

(** ** A block on a small database *)

#[local] Existing Instance sampleHashes.
Definition samplePT (t : gmap bytes bytes) : Prop := t = ∅ \/ t = sampleTrie.
Definition samplePC (c : bytes) : Prop := c = [] \/ c = [Byte.x07].

Lemma sample_collisionFree : @collisionFree sampleHashes samplePT samplePC.
Proof.
  split.
  - intros t t' [-> | ->] [-> | ->] Hh; [reflexivity| | |reflexivity]; vm_compute in Hh; discriminate Hh.
  - intros c c' [-> | ->] [-> | ->] Hh; [reflexivity| | |reflexivity]; vm_compute in Hh; discriminate Hh.
  - intros t k v [-> | ->] Hk; [by rewrite lookup_empty in Hk|].
    unfold sampleTrie in Hk. by apply lookup_singleton_Some in Hk as [_ <-].
  - intros t [-> | ->] Hh; vm_compute in Hh; discriminate Hh.
  - split; [by left|vm_compute; reflexivity].
  - by left.
Qed.

Lemma sample_addressed : @addressed sampleHashes samplePT samplePC sampleNodes.
Proof.
  split.
  - intros h t Hh. simpl in Hh. apply lookup_singleton_Some in Hh as [<- <-].
    split; [vm_compute; reflexivity|by right].
  - intros h c Hh. simpl in Hh. by rewrite lookup_empty in Hh.
Qed.

Lemma sample_complete : @complete sampleHashes sampleNodes (trie sampleDB).
Proof.
  intros a d Hd. simpl in Hd. apply lookup_singleton_Some in Hd as [_ <-]. split.
  - exists sampleTrie. unfold OpenStorageTrie. simpl sa_Root.
    assert (isEmptyRoot (BigToAddress 1) = false) as -> by (vm_compute; reflexivity).
    unfold sampleNodes. cbn [nd_tries]. by rewrite lookup_singleton_eq.
  - intros Hne. exfalso. apply Hne. reflexivity.
Qed.

(** The object of the account at the end of the operations. *)
Definition sampleObject : accountObject :=
  mkObject (mkStored 0 9 (BigToAddress 1) (BigToAddress 3)) false (Some sampleTrie) (Some [Byte.x07])
    {[sampleKey := Some [Byte.x02]]} {[sampleKey := Some [Byte.x02]]} true false false false false.

Lemma singleton_of_size (m : gmap Address accountObject) a o : size m = 1%nat -> m !! a = Some o -> m = {[a := o]}.
Proof.
  intros Hs Ha. rewrite <- (insert_delete_id m a o Ha). pose proof (map_size_delete_Some a m (mk_is_Some _ _ Ha)) as Hd.
  rewrite Hs in Hd. by rewrite (map_size_empty_inv _ Hd).
Qed.

Lemma sample_objects :
  accountObjects (snd (sequence (@runOp sampleHashes) sampleOps sampleDB)) = {[sampleAddr := sampleObject]} /\
  @flushOf sampleNodes sampleObject = sampleTrie.
Proof.
  split.
  - assert (size (accountObjects (snd (sequence (@runOp sampleHashes) sampleOps sampleDB))) = 1%nat) as Hsize
      by (vm_compute; reflexivity).
    assert (accountObjects (snd (sequence (@runOp sampleHashes) sampleOps sampleDB)) !! sampleAddr = Some sampleObject) as Ha
      by (vm_compute; reflexivity).
    by apply singleton_of_size.
  - vm_compute. reflexivity.
Qed.

Lemma sample_inPlay :
  @inPlay samplePT samplePC (snd (sequence (@runOp sampleHashes) sampleOps sampleDB)).
Proof.
  intros a o. rewrite (proj1 sample_objects), (@db_sequence sampleHashes). intros Ho.
  apply lookup_singleton_Some in Ho as [_ <-]. split; [by vm_compute|]. split.
  - right. apply sample_objects.
  - intros c [= <-]. by right.
Qed.

Lemma commit_reopens_witness :
  exists h s2 s3 s4, Commit true s2 = (Ok h, s3) /\ NewAccountDB h (db s3) = Some s4 /\
    World.GetBalance (@abs sampleHashes s4) sampleAddr = 9 /\
    World.GetCode (@abs sampleHashes s4) sampleAddr = Some [Byte.x07] /\
    World.GetData (@abs sampleHashes s4) sampleAddr sampleKey = Some [Byte.x02].
Proof.
  destruct (@commit_reopens sampleHashes samplePT samplePC (BigToAddress 5) sampleNodes sampleDB sampleOps
    sample_collisionFree sample_addressed sample_new sample_complete ltac:(by repeat constructor) sample_inPlay)
    as (h & s2 & s3 & Hi & Hc & _ & Hre).
  assert (isEmptyRoot h = false) as Hh.
  { unfold IntermediateRoot, bind, gets in Hi. destruct (Finalise true _) as [[u| |] s']; [|done|done].
    injection Hi as <- _. vm_compute. reflexivity. }
  destruct Hre as (s4 & Hn & _ & Ha); [by rewrite Hh|].
  exists h, s2, s3, s4. split; [exact Hc|]. split; [exact Hn|]. specialize (Ha sampleAddr).
  assert (removed (snd (sequence (@runOp sampleHashes) sampleOps sampleDB)) sampleAddr = false) as Hr
    by (vm_compute; reflexivity).
  rewrite Hr in Ha. unfold World.GetBalance, World.GetCode, World.GetData. rewrite Ha.
  split; [vm_compute; reflexivity|]. split; vm_compute; reflexivity.
Defined.

Lemma sample_onlyStorage : onlyStorage sampleStored.
Proof. split; [reflexivity|]. split; reflexivity. Qed.

Lemma zero_credit_removes_witness :
  World.GetData (abs sampleDB) sampleAddr sampleKey = Some [Byte.x02] /\
  exists s', Finalise true (AddBalance sampleAddr 0 sampleDB) = (Ok tt, s') /\
             World.GetData (abs s') sampleAddr sampleKey = None.
Proof.
  split; [vm_compute; reflexivity|].
  destruct (zero_credit_removes (BigToAddress 5) sampleNodes sampleDB sampleAddr sampleStored sample_new
    (lookup_singleton_eq sampleAddr sampleStored) sample_onlyStorage) as (s' & Hf & _ & Ha).
  exists s'. split; [exact Hf|]. unfold World.GetData. by rewrite Ha.
Defined.

Lemma touch_undo_loses_writes_witness :
  let s1 := snd (sequence runOp [OpSnapshot; OpAddBalance sampleAddr 0; OpRevert 0; OpSetBalance sampleAddr 9] sampleDB) in
  World.GetBalance (abs s1) sampleAddr = 9 /\
  exists s2, Finalise true s1 = (Ok tt, s2) /\ sa_Balance <$> trie s2 !! sampleAddr = Some 0.
Proof.
  destruct (touch_undo_loses_writes (BigToAddress 5) sampleNodes sampleDB sampleAddr sampleStored 9 sample_new
    (lookup_singleton_eq sampleAddr sampleStored) sample_onlyStorage
    ltac:(vm_compute; discriminate)) as (Hb & s2 & Hf & Ht).
  split; [exact Hb|]. exists s2. split; [exact Hf|]. rewrite Ht. cbn [trie sampleDB]. by rewrite lookup_singleton_eq.
Defined.
