(* ===== verification/Types.v ===== *)
(** * Types: the data the chain's components exchange

    [src/middleware/types/core.go] (transactions and block headers),
    [receipt.go] (receipt statuses), [miner.go] (miners, stake details and the
    stake payload), and the hard-fork switches of [src/params/config.go].
    [msgpack] is a third-party package: its encoder is the class [Codec]. *)
From S2P Require Import Prelude Bytes.
Local Open Scope Z_scope.

(** ** Receipts *)

Inductive ReceiptStatus :=
| RSSuccess | RSFail | RSBalanceNotEnough | RSAbiError | RSTvmError
| RSGasNotEnoughError | RSNoCodeError | RSParseFail | RSMinerStakeFrozen
| RSMinerStakeOverLimit | RSMinerStakeLessThanReduce | RSMinerVerifyLowerStake
| RSMinerVerifyInGroup | RSMinerReduceHeightNotEnough | RSVoteNotInRound
| RSMinerUnSupportOp | RSMinerNotFullStake | RSMinerMaxApplyGuard
| RSMinerChangeModeExpired | RSMinerAbortHasPrepared
| RSMinerRefundHeightNotEnougn | RSMinerNotExists.

(** An error with the receipt status it is reported under. *)
Record opError := mkErr { e_msg : string; e_status : ReceiptStatus }.

(** ** Hard forks ([src/params/config.go]) *)

Record ChainConfig := {
  ChainId : Z;
  ZIP001 : Z; ZIP002 : Z; ZIP003 : Z; ZIP004 : Z; ZIP005 : Z; ZIP006 : Z;
}.

Definition config : ChainConfig := {|
  ChainId := 0;
  ZIP001 := 931588; ZIP002 := 960388; ZIP003 := 4945537; ZIP004 := 7583800;
  ZIP005 := 10000000; ZIP006 := 9464382;
|}.

Definition isFork (s head : Z) : bool := s <=? head.
Definition IsZIP001 (h : Z) : bool := isFork (ZIP001 config) h.
Definition IsZIP002 (h : Z) : bool := isFork (ZIP002 config) h.
Definition IsZIP003 (h : Z) : bool := isFork (ZIP003 config) h.
Definition IsZIP004 (h : Z) : bool := isFork (ZIP004 config) h.
Definition IsZIP005Checkpoint (preHeight height : Z) : bool :=
  (preHeight <? ZIP005 config) && (ZIP005 config <=? height).
Definition IsZIP006 (h : Z) : bool := isFork (ZIP006 config) h.
Definition IsZIP006Checkpoint (preHeight height : Z) : bool :=
  (preHeight <? ZIP006 config) && (ZIP006 config <=? height).

(** ** Transactions *)

Definition TransactionTypeTransfer : Z := 0.
Definition TransactionTypeContractCreate : Z := 1.
Definition TransactionTypeContractCall : Z := 2.
Definition TransactionTypeStakeAdd : Z := 3.
Definition TransactionTypeMinerAbort : Z := 4.
Definition TransactionTypeStakeReduce : Z := 5.
Definition TransactionTypeStakeRefund : Z := 6.
Definition TransactionTypeApplyGuardMiner : Z := 7.
Definition TransactionTypeVoteMinerPool : Z := 8.
Definition TransactionTypeChangeFundGuardMode : Z := 9.
Definition TransactionTypeBlacklistUpdate : Z := 10.
Definition SystemTransactionOffset : Z := 100.
Definition TransactionTypeGroupPiece : Z := SystemTransactionOffset + 1.
Definition TransactionTypeGroupMpk : Z := SystemTransactionOffset + 2.
Definition TransactionTypeGroupOriginPiece : Z := SystemTransactionOffset + 3.
Definition TransactionTypeReward : Z := SystemTransactionOffset + 4.

(** [RawTransaction] with the hash [Transaction] adds; a nil pointer is [None]. *)
Record Transaction := {
  tx_Data : bytes;
  tx_Value : option Z;
  tx_Nonce : Z;
  tx_Target : option Address;
  tx_Type : Z;
  tx_GasLimit : option Z;
  tx_GasPrice : option Z;
  tx_ExtraData : bytes;
  tx_Sign : option bytes;
  tx_Source : option Address;
  tx_Hash : Hash;
}.

Definition IsReward (tx : Transaction) : bool := tx_Type tx =? TransactionTypeReward.

(** Times are milliseconds; a nil byte slice is the empty one. *)
Record BlockHeader := mkBlockHeader {
  bh_Hash : Hash;
  bh_Height : Z;
  bh_PreHash : Hash;
  bh_Elapsed : Z;
  bh_ProveValue : bytes;
  bh_TotalQN : Z;
  bh_CurTime : Z;
  bh_Castor : bytes;
  bh_Group : Hash;
  bh_Signature : bytes;
  bh_Nonce : Z;
  bh_TxTree : Hash;
  bh_ReceiptTree : Hash;
  bh_StateTree : Hash;
  bh_ExtraData : bytes;
  bh_Random : bytes;
  bh_GasFee : Z;
}.

(** ** Miners *)

Definition MinerTypeVerify : Byte.byte := Byte.x00.
Definition MinerTypeProposal : Byte.byte := Byte.x01.

Definition MinerStatusPrepare : Byte.byte := Byte.x00.
Definition MinerStatusActive : Byte.byte := Byte.x01.
Definition MinerStatusFrozen : Byte.byte := Byte.x02.

Definition MinerNormal : Byte.byte := Byte.x00.
Definition MinerGuard : Byte.byte := Byte.x01.
Definition MinerPool : Byte.byte := Byte.x02.
Definition InValidMinerPool : Byte.byte := Byte.x03.

Definition Staked : Byte.byte := Byte.x00.
Definition StakeFrozen : Byte.byte := Byte.x01.
Definition StakePunishment : Byte.byte := Byte.x02.

Definition pkSize : nat := 128.
Definition vrfPkSize : nat := 32.

Record Miner := mkMiner {
  m_ID : bytes;
  m_PublicKey : bytes;
  m_VrfPublicKey : bytes;
  m_ApplyHeight : Z;
  m_Stake : Z;
  m_StatusUpdateHeight : Z;
  m_Type : Byte.byte;
  m_Status : Byte.byte;
  m_Identity : Byte.byte;
  m_IdentityUpdateHeight : Z;
}.

Definition IsActive (m : Miner) : bool := bool_decide (m_Status m = MinerStatusActive).
Definition IsFrozen (m : Miner) : bool := bool_decide (m_Status m = MinerStatusFrozen).
Definition IsPrepare (m : Miner) : bool := bool_decide (m_Status m = MinerStatusPrepare).
Definition IsGuard (m : Miner) : bool := bool_decide (m_Identity m = MinerGuard).
Definition IsMinerPool (m : Miner) : bool := bool_decide (m_Identity m = MinerPool).
Definition IsProposalRole (t : Byte.byte) : bool := bool_decide (t = MinerTypeProposal).
Definition IsVerifyRole (t : Byte.byte) : bool := bool_decide (t = MinerTypeVerify).

Definition PksCompleted (m : Miner) : bool :=
  bool_decide (length (m_PublicKey m) = pkSize) &&
  bool_decide (length (m_VrfPublicKey m) = vrfPkSize).

Definition with_Stake (v : Z) (m : Miner) : Miner :=
  mkMiner (m_ID m) (m_PublicKey m) (m_VrfPublicKey m) (m_ApplyHeight m) v
    (m_StatusUpdateHeight m) (m_Type m) (m_Status m) (m_Identity m) (m_IdentityUpdateHeight m).
Definition UpdateStatus (status : Byte.byte) (height : Z) (m : Miner) : Miner :=
  mkMiner (m_ID m) (m_PublicKey m) (m_VrfPublicKey m) (m_ApplyHeight m) (m_Stake m)
    height (m_Type m) status (m_Identity m) (m_IdentityUpdateHeight m).
Definition UpdateIdentity (identity : Byte.byte) (height : Z) (m : Miner) : Miner :=
  mkMiner (m_ID m) (m_PublicKey m) (m_VrfPublicKey m) (m_ApplyHeight m) (m_Stake m)
    (m_StatusUpdateHeight m) (m_Type m) (m_Status m) identity height.
Definition with_Pks (pk vrf : bytes) (m : Miner) : Miner :=
  mkMiner (m_ID m) pk vrf (m_ApplyHeight m) (m_Stake m)
    (m_StatusUpdateHeight m) (m_Type m) (m_Status m) (m_Identity m) (m_IdentityUpdateHeight m).

(** *** The payload of a stake-add transaction *)

Record MinerPks := mkPks { pks_MType : Byte.byte; pks_Pk : bytes; pks_VrfPk : bytes }.

Definition PayloadVersion : Byte.byte := Byte.x01.

Definition EncodePayload (pks : MinerPks) : bytes :=
  PayloadVersion :: pks_MType pks ::
  (if bool_decide (length (pks_Pk pks) = pkSize) && bool_decide (length (pks_VrfPk pks) = vrfPkSize)
   then pks_Pk pks ++ pks_VrfPk pks else []).

Definition DecodePayload (bs : bytes) : option MinerPks :=
  let totalLen := (2 + pkSize + vrfPkSize)%nat in
  if negb (bool_decide (length bs = 2%nat)) && negb (bool_decide (length bs = totalLen)) then None
  else match bs with
       | version :: mtype :: rest =>
           if bool_decide (version = PayloadVersion) then
             Some (if bool_decide (length bs = totalLen)
                   then mkPks mtype (take pkSize rest) (drop pkSize rest)
                   else mkPks mtype [] [])
           else None
       | _ => None
       end.

(** What [EncodePayload] keeps of the keys. *)
Definition payload_keys (pks : MinerPks) : MinerPks :=
  if bool_decide (length (pks_Pk pks) = pkSize) && bool_decide (length (pks_VrfPk pks) = vrfPkSize)
  then pks else mkPks (pks_MType pks) [] [].

Lemma DecodePayload_EncodePayload pks :
  DecodePayload (EncodePayload pks) = Some (payload_keys pks).
Proof.
  destruct pks as [t pk vrf]. unfold EncodePayload, payload_keys; cbn [pks_MType pks_Pk pks_VrfPk].
  destruct (bool_decide_reflect (length pk = pkSize)) as [Hp|Hp]; simpl andb.
  - destruct (bool_decide_reflect (length vrf = vrfPkSize)) as [Hv|Hv].
    + unfold DecodePayload.
      assert (length (PayloadVersion :: t :: pk ++ vrf) = 2 + pkSize + vrfPkSize)%nat as Hl
        by (simpl; rewrite length_app, Hp, Hv; done).
      rewrite Hl.
      change (bool_decide (2 + pkSize + vrfPkSize = 2 + pkSize + vrfPkSize)%nat) with true.
      simpl negb. rewrite andb_false_r, bool_decide_eq_true_2 by done.
      by rewrite <- Hp, take_app_length, drop_app_length.
    + reflexivity.
  - reflexivity.
Qed.

(** A payload of an accepted length decodes to what encodes back to it. *)
Lemma EncodePayload_DecodePayload bs pks :
  DecodePayload bs = Some pks -> EncodePayload pks = bs.
Proof.
  unfold DecodePayload. intros H.
  destruct (negb _ && negb _) eqn:E; [done|].
  destruct bs as [|v [|t rest]]; [done|done|].
  destruct (bool_decide_reflect (v = PayloadVersion)) as [->|]; [|done].
  destruct (bool_decide_reflect (length (PayloadVersion :: t :: rest) = 2 + pkSize + vrfPkSize)%nat)
    as [Hl|Hl]; simplify_eq.
  - unfold EncodePayload; cbn [pks_MType pks_Pk pks_VrfPk].
    simpl length in Hl.
    rewrite !bool_decide_eq_true_2.
    + simpl. by rewrite take_drop.
    + rewrite length_drop. unfold pkSize, vrfPkSize in *. lia.
    + rewrite length_take. unfold pkSize, vrfPkSize in *. lia.
  - rewrite andb_false_iff, !negb_false_iff, !bool_decide_eq_true in E.
    destruct E as [E|E]; [|done]. destruct rest; [done|]. simpl in E. lia.
Qed.

(** ** Stored records ([src/core/miner_base.go]) *)

Record stakeDetail := mkDetail {
  sd_Value : Z; sd_Height : Z; sd_DisMissHeight : Z; sd_MarkNotFullHeight : Z }.
Record voteInfo := mkVote { vf_Target : Address; vf_Height : Z }.
Record fundGuardNode := mkFundGuard {
  fn_Type : Byte.byte; fn_Height : Z; fn_FundModeType : Byte.byte }.

Definition normalNodeType : Byte.byte := Byte.x00.
Definition fullStakeGuardNodeType : Byte.byte := Byte.x01.
Definition fundGuardNodeType : Byte.byte := Byte.x02.
Definition SIXAddFive : Byte.byte := Byte.x00.
Definition SIXAddSix : Byte.byte := Byte.x01.

Definition isSixAddSix (f : fundGuardNode) : bool := bool_decide (fn_FundModeType f = SIXAddSix).
Definition isSixAddFive (f : fundGuardNode) : bool := bool_decide (fn_FundModeType f = SIXAddFive).
Definition isFundGuard (f : fundGuardNode) : bool := bool_decide (fn_Type f = fundGuardNodeType).
Definition isGuardNode (f : fundGuardNode) : bool := negb (bool_decide (fn_Type f = normalNodeType)).

(** ** msgpack

    [Marshal]/[Unmarshal] of a plain struct; [None] is a non-nil error.  The
    law is what every reader of the state relies on: what was marshalled is
    not empty and unmarshals to the same value. *)
Class Codec (A : Type) := {
  Marshal : A -> option bytes;
  Unmarshal : bytes -> option A;
}.
Class CodecLaws (A : Type) `{Codec A} := {
  codec_roundtrip x bs : Marshal x = Some bs -> bs <> [] /\ Unmarshal bs = Some x;
}.

(** The four records the miner components store. *)
Class MinerCodecs := {
  miner_codec :: Codec Miner;
  detail_codec :: Codec stakeDetail;
  vote_codec :: Codec voteInfo;
  fund_codec :: Codec fundGuardNode;
}.
Class MinerCodecLaws `{MinerCodecs} := {
  miner_laws :: CodecLaws Miner;
  detail_laws :: CodecLaws stakeDetail;
  vote_laws :: CodecLaws voteInfo;
  fund_laws :: CodecLaws fundGuardNode;
}.

(** *** A concrete codec

    Any countable type has one: the bits of its code, one byte each.  It is
    what closed examples run with. *)
Fixpoint pos_bits (p : positive) : bytes :=
  match p with
  | xH => [Byte.x02]
  | xO q => Byte.x00 :: pos_bits q
  | xI q => Byte.x01 :: pos_bits q
  end.
Fixpoint bits_pos (bs : bytes) : option positive :=
  match bs with
  | Byte.x02 :: _ => Some xH
  | Byte.x00 :: r => xO <$> bits_pos r
  | Byte.x01 :: r => xI <$> bits_pos r
  | _ => None
  end.

Lemma bits_pos_bits p : bits_pos (pos_bits p) = Some p.
Proof. induction p as [p IH|p IH|]; simpl; [by rewrite IH|by rewrite IH|done]. Qed.

Definition countable_codec (A : Type) `{Countable A} : Codec A := {|
  Marshal x := Some (pos_bits (encode x));
  Unmarshal bs := bits_pos bs ≫= decode;
|}.

Lemma countable_codec_laws A `{Countable A} : @CodecLaws A (countable_codec A).
Proof.
  constructor. intros x bs Hx. cbn in Hx. simplify_eq. split.
  - by destruct (encode x).
  - cbn. rewrite bits_pos_bits. simpl. apply decode_encode.
Qed.

#[global] Instance Miner_eq_dec : EqDecision Miner.
Proof. solve_decision. Defined.
#[global] Instance stakeDetail_eq_dec : EqDecision stakeDetail.
Proof. solve_decision. Defined.
#[global] Instance voteInfo_eq_dec : EqDecision voteInfo.
Proof. solve_decision. Defined.
#[global] Instance fundGuardNode_eq_dec : EqDecision fundGuardNode.
Proof. solve_decision. Defined.
#[global] Instance Miner_countable : Countable Miner.
Proof.
  refine (inj_countable' (fun m => (m_ID m, m_PublicKey m, m_VrfPublicKey m, m_ApplyHeight m,
    m_Stake m, m_StatusUpdateHeight m, (m_Type m, m_Status m, m_Identity m), m_IdentityUpdateHeight m))
    (fun '(a, b, c, d, e, f, (g, h, i), j) => mkMiner a b c d e f g h i j) _).
  by intros [].
Defined.
#[global] Instance stakeDetail_countable : Countable stakeDetail.
Proof.
  refine (inj_countable' (fun d => (sd_Value d, sd_Height d, sd_DisMissHeight d, sd_MarkNotFullHeight d))
    (fun '(a, b, c, d) => mkDetail a b c d) _). by intros [].
Defined.
#[global] Instance voteInfo_countable : Countable voteInfo.
Proof.
  refine (inj_countable' (fun d => (vf_Target d, vf_Height d)) (fun '(a, b) => mkVote a b) _).
  by intros [].
Defined.
#[global] Instance fundGuardNode_countable : Countable fundGuardNode.
Proof.
  refine (inj_countable' (fun d => (fn_Type d, fn_Height d, fn_FundModeType d))
    (fun '(a, b, c) => mkFundGuard a b c) _). by intros [].
Defined.

Definition bit_codecs : MinerCodecs := {|
  miner_codec := countable_codec Miner;
  detail_codec := countable_codec stakeDetail;
  vote_codec := countable_codec voteInfo;
  fund_codec := countable_codec fundGuardNode;
|}.

Lemma bit_codecs_laws : @MinerCodecLaws bit_codecs.
Proof. constructor; apply countable_codec_laws. Defined.
