(* ===== verification/TxHash.v ===== *)
(** * TxHash: the hash that identifies a transaction

    [src/middleware/types/tx_hashing.go] and [RawTransaction.GenHash] of
    [core.go]: every hashed field is written with its length in front, so the
    hashed bytes determine the fields, and two transactions with the same hash
    agree on them unless SHA-256 collides. *)
From S2P Require Import Prelude Bytes Sha256 Types.
Local Open Scope Z_scope.

(** [big.Int.Bytes]: the absolute value, big-endian, without leading zeros. *)
Definition bigBytes (z : Z) : bytes :=
  let a := Z.abs z in
  if a =? 0 then [] else BigEndian.put (Z.to_nat (Z.log2 a / 8 + 1)) a.

Definition writeBytes (b : bytes) : bytes := Int32ToByte (Z.of_nat (length b)) ++ b.

Record txHashing := mkTxHashing {
  th_src : bytes; th_target : bytes; th_value : bytes; th_gasLimit : bytes;
  th_gasPrice : bytes; th_nonce : bytes; th_typ : Byte.byte; th_data : bytes; th_extra : bytes }.

Definition txHashing_Bytes (th : txHashing) : bytes :=
  writeBytes (th_src th) ++ writeBytes (th_target th) ++ writeBytes (th_value th) ++
  writeBytes (th_gasLimit th) ++ writeBytes (th_gasPrice th) ++ writeBytes (th_nonce th) ++
  [th_typ th] ++ writeBytes (th_data th) ++ writeBytes (th_extra th).

Definition txHashing_genHash (th : txHashing) : Hash := BytesToHash (Sha256 (txHashing_Bytes th)).

(** The fields [GenHash] hashes; a nil pointer is hashed as the empty slice. *)
Definition hashingOf (tx : Transaction) : txHashing :=
  let bs (p : option Address) := from_option b32_bytes [] p in
  let big (p : option Z) := from_option bigBytes [] p in
  mkTxHashing (bs (tx_Source tx)) (bs (tx_Target tx)) (big (tx_Value tx)) (big (tx_GasLimit tx))
    (big (tx_GasPrice tx)) (bigBytes (tx_Nonce tx)) (byte_of_Z (tx_Type tx)) (tx_Data tx) (tx_ExtraData tx).

Definition GenHash (tx : Transaction) : Hash := txHashing_genHash (hashingOf tx).

(** ** The encoding is injective *)

Lemma bigBytes_read z : BigEndian.read (bigBytes z) = Z.abs z.
Proof.
  unfold bigBytes. destruct (Z.eqb_spec (Z.abs z) 0) as [E|E]; [by rewrite E|].
  rewrite BigEndian.read_put. apply Z.mod_small. split; [lia|].
  pose proof (Z.log2_nonneg (Z.abs z)). pose proof (Z.log2_spec (Z.abs z) ltac:(lia)) as [_ Hlt].
  eapply Z.lt_le_trans; [exact Hlt|].
  rewrite Z2Nat.id by (pose proof (Z.div_pos (Z.log2 (Z.abs z)) 8); lia).
  change 256 with (2 ^ 8). rewrite <- Z.pow_mul_r by (try apply Z.add_nonneg_nonneg; try apply Z.div_pos; lia).
  apply Z.pow_le_mono_r; [lia|]. pose proof (Z.div_mod (Z.log2 (Z.abs z)) 8).
  pose proof (Z.mod_pos_bound (Z.log2 (Z.abs z)) 8). lia.
Qed.

Lemma bigBytes_inj x y : 0 <= x -> 0 <= y -> bigBytes x = bigBytes y -> x = y.
Proof. intros ?? E. apply (f_equal BigEndian.read) in E. rewrite !bigBytes_read in E. lia. Qed.

(** A length an [int32] holds. *)
Definition len_ok (b : bytes) : Prop := Z.of_nat (length b) < 2 ^ 31.

Lemma writeBytes_inj b1 b2 r1 r2 :
  len_ok b1 -> len_ok b2 -> writeBytes b1 ++ r1 = writeBytes b2 ++ r2 -> b1 = b2 /\ r1 = r2.
Proof.
  unfold writeBytes, Int32ToByte, len_ok. intros H1 H2 E. rewrite <- !app_assoc in E.
  apply app_inj_1 in E as [El E]; [|by rewrite !BigEndian.put_length].
  apply (f_equal BigEndian.read) in El. rewrite !BigEndian.read_put in El.
  rewrite !Z.mod_small in El by (change (256 ^ Z.of_nat 4) with (2 ^ 32); lia).
  apply app_inj_1 in E; [done|lia].
Qed.

Definition th_ok (th : txHashing) : Prop :=
  len_ok (th_src th) /\ len_ok (th_target th) /\ len_ok (th_value th) /\ len_ok (th_gasLimit th) /\
  len_ok (th_gasPrice th) /\ len_ok (th_nonce th) /\ len_ok (th_data th) /\ len_ok (th_extra th).

Lemma txHashing_Bytes_inj t1 t2 :
  th_ok t1 -> th_ok t2 -> txHashing_Bytes t1 = txHashing_Bytes t2 -> t1 = t2.
Proof.
  destruct t1, t2. unfold th_ok, txHashing_Bytes; simpl. intros Hok1 Hok2 E. destruct_and!.
  repeat (apply writeBytes_inj in E as [-> E]; [|done..]).
  apply (app_inj_1 [_] [_]) in E as [[= ->] E]; [|done].
  apply writeBytes_inj in E as [-> E]; [|done..].
  rewrite <- (app_nil_r (writeBytes th_extra0)), <- (app_nil_r (writeBytes th_extra1)) in E.
  apply writeBytes_inj in E as [-> _]; done.
Qed.

(** What the hash fixes of a transaction: everything but the signature, a nil
    amount counting as zero. *)
Record sameContent (t1 t2 : Transaction) : Prop := {
  sc_source : tx_Source t1 = tx_Source t2;
  sc_target : tx_Target t1 = tx_Target t2;
  sc_value : default 0 (tx_Value t1) = default 0 (tx_Value t2);
  sc_gasLimit : default 0 (tx_GasLimit t1) = default 0 (tx_GasLimit t2);
  sc_gasPrice : default 0 (tx_GasPrice t1) = default 0 (tx_GasPrice t2);
  sc_nonce : tx_Nonce t1 = tx_Nonce t2;
  sc_type : tx_Type t1 = tx_Type t2;
  sc_data : tx_Data t1 = tx_Data t2;
  sc_extra : tx_ExtraData t1 = tx_ExtraData t2;
}.

(** The ranges of the fields of a transaction that passed validation. *)
Record tx_ok (tx : Transaction) : Prop := {
  tok_value : u64_ok (default 0 (tx_Value tx));
  tok_gasLimit : u64_ok (default 0 (tx_GasLimit tx));
  tok_gasPrice : u64_ok (default 0 (tx_GasPrice tx));
  tok_nonce : u64_ok (tx_Nonce tx);
  tok_type : 0 <= tx_Type tx < 128;
  tok_data : len_ok (tx_Data tx);
  tok_extra : len_ok (tx_ExtraData tx);
}.

(** The bytes [GenHash] hashes. *)
Definition hashedBytes (tx : Transaction) : bytes := txHashing_Bytes (hashingOf tx).

Lemma bigBytes_len z : u64_ok z -> len_ok (bigBytes z).
Proof.
  unfold u64_ok, len_ok, bigBytes. intros Hz. destruct (Z.eqb_spec (Z.abs z) 0); [done|].
  rewrite BigEndian.put_length. assert (Z.log2 (Z.abs z) <= 64) as Hl.
  { etransitivity; [apply (Z.log2_le_mono _ two64); lia|]. vm_compute. done. }
  pose proof (Z.log2_nonneg (Z.abs z)).
  pose proof (Z.div_le_mono _ _ 8 ltac:(lia) Hl). rewrite Z2Nat.id by (pose proof (Z.div_pos (Z.log2 (Z.abs z)) 8); lia).
  change (64 / 8) with 8 in *. lia.
Qed.

Lemma optBytes_inj (p q : option Address) :
  from_option b32_bytes [] p = from_option b32_bytes [] q -> p = q.
Proof.
  destruct p as [a|], q as [b|]; simpl; intros E; try done.
  - f_equal. by apply b32_eq.
  - apply (f_equal length) in E. by rewrite b32_length in E.
  - apply (f_equal length) in E. by rewrite b32_length in E.
Qed.

Lemma optBig_inj (p q : option Z) :
  u64_ok (default 0 p) -> u64_ok (default 0 q) ->
  from_option bigBytes [] p = from_option bigBytes [] q -> default 0 p = default 0 q.
Proof.
  unfold u64_ok. intros Hp Hq E. apply bigBytes_inj; [lia..|].
  by destruct p, q.
Qed.

Lemma optBytes_len (p : option Address) : len_ok (from_option b32_bytes [] p).
Proof. unfold len_ok. destruct p; simpl; [rewrite b32_length|]; lia. Qed.

Lemma optBig_len (p : option Z) : u64_ok (default 0 p) -> len_ok (from_option bigBytes [] p).
Proof. destruct p; simpl; intros Hp; [by apply bigBytes_len|done]. Qed.

Lemma hashingOf_ok tx : tx_ok tx -> th_ok (hashingOf tx).
Proof.
  intros []. unfold th_ok, hashingOf; simpl.
  split_and!; auto using optBytes_len, optBig_len, bigBytes_len.
Qed.

Lemma hashingOf_inj t1 t2 :
  tx_ok t1 -> tx_ok t2 -> hashingOf t1 = hashingOf t2 -> sameContent t1 t2.
Proof.
  intros [] [] E. unfold hashingOf in E.
  assert (forall A (f : txHashing -> A) x y, x = y -> f x = f y) as Hf by (by intros ???? ->).
  constructor.
  - by apply optBytes_inj, (Hf _ th_src _ _ E).
  - by apply optBytes_inj, (Hf _ th_target _ _ E).
  - apply optBig_inj; [done..|]. apply (Hf _ th_value _ _ E).
  - apply optBig_inj; [done..|]. apply (Hf _ th_gasLimit _ _ E).
  - apply optBig_inj; [done..|]. apply (Hf _ th_gasPrice _ _ E).
  - unfold u64_ok in *. apply bigBytes_inj; [lia..|]. apply (Hf _ th_nonce _ _ E).
  - apply (Hf _ th_typ) in E. simpl in E. apply (f_equal Z_of_byte) in E.
    rewrite !Z_of_byte_of_Z in E. rewrite !Z.mod_small in E by lia. done.
  - apply (Hf _ th_data _ _ E).
  - apply (Hf _ th_extra _ _ E).
Qed.

(** ** Properties *)

Lemma hashingOf_same t1 t2 : sameContent t1 t2 -> hashingOf t1 = hashingOf t2.
Proof.
  assert (forall p : option Z, from_option bigBytes [] p = bigBytes (default 0 p)) as Hd by (by intros []).
  intros []. unfold hashingOf. rewrite !Hd. congruence.
Qed.


Definition sampleTx (sign : bytes) : Transaction := {|
  tx_Data := [Byte.x01]; tx_Value := Some 5; tx_Nonce := 1; tx_Target := Some zeroB32;
  tx_Type := TransactionTypeTransfer; tx_GasLimit := Some 400; tx_GasPrice := Some 500;
  tx_ExtraData := []; tx_Sign := Some sign; tx_Source := None; tx_Hash := zeroB32 |}.

