(* ===== verification/MinerBase.v ===== *)
(** * MinerBase: stake bounds, storage keys and accessors

    [src/core/miner_base.go]: the amounts a miner may stake at a height, the
    keys under which miners, stake details, votes, tickets, pools and guard
    nodes are stored in the account database, and the functions that read and
    write them.  The durations are those of [src/core/miner_operation.go] and
    the periods those of [src/core/rewards_manager.go]. *)
From S2P Require Import Prelude Bytes World Types.
Local Open Scope Z_scope.
Local Open Scope zv_scope.

(** ** Constants *)

Definition ZVC : Z := 1000000000.
Definition adjustWeightPeriod : Z := 10000000.

Definition MinMinerStake : Z := 500 * ZVC.
Definition initMaxMinerStakeAddAmount : Z := 1000000 * ZVC.
Definition maxMinerStakeAddAdjustPeriod : Z := 30000000.
Definition initMaxMinerStake : Z := 2500000 * ZVC.
Definition MaxMinerStakeAdjustPeriod : Z := 10000000.
Definition stakeAdjustTimes : Z := 12.
Definition initMinerPoolTickets : Z := 8.
Definition minMinerPoolTickets : Z := 1.
Definition minerPoolReduceCount : Z := 2.

Definition onBlockSeconds : Z := 3.
Definition oneHourBlocks : Z := 86400 / onBlockSeconds / 24.
Definition oneDayBlocks : Z := 86400 / onBlockSeconds.
Definition stakeBuffer : Z := 15 * oneDayBlocks.
Definition refundDeadlineTwoDays : Z := 2 * oneDayBlocks.
Definition refundDeadlineNinetyDays : Z := 90 * oneDayBlocks.

(** ** Stake bounds *)

Definition minimumStake : Z := MinMinerStake.

(** The loop [for i := 0; i < period; i++ { canStake += ... }]. *)
Fixpoint stakeLoop (n : nat) (i canStake : Z) : Z :=
  match n with
  | O => canStake
  | S m =>
      stakeLoop m (i + 1)%u64
        (canStake + Z.shiftr initMaxMinerStakeAddAmount
            ((i * MaxMinerStakeAdjustPeriod)%u64 / maxMinerStakeAddAdjustPeriod))%u64
  end.

Definition maximumStake (height : Z) : Z :=
  let period :=
    if stakeAdjustTimes * MaxMinerStakeAdjustPeriod <? height then stakeAdjustTimes
    else height / MaxMinerStakeAdjustPeriod in
  stakeLoop (Z.to_nat period) 0 initMaxMinerStake.

Definition getValidTicketsByHeight (height : Z) : Z :=
  let reduce := height / (adjustWeightPeriod * 3) in
  let reduceTickets := (reduce * minerPoolReduceCount)%u64 in
  if initMinerPoolTickets <=? reduceTickets then minMinerPoolTickets
  else (initMinerPoolTickets - reduceTickets)%u64.

Definition checkCanVote (voteHeight currentHeight : Z) : bool :=
  if voteHeight =? 0 then true
  else
    let voteRound := voteHeight / (adjustWeightPeriod / 2) in
    let currentRound := currentHeight / (adjustWeightPeriod / 2) in
    voteRound <? currentRound.

Definition getFullMinerPoolStake (height : Z) : Z :=
  (maximumStake height * getValidTicketsByHeight height)%u64.

Definition checkLowerBound (m : Miner) : bool := minimumStake <=? m_Stake m.
Definition checkUpperBound (m : Miner) (height : Z) : bool := m_Stake m <=? maximumStake height.
Definition checkMinerPoolUpperBound (m : Miner) (height : Z) : bool :=
  m_Stake m <=? getFullMinerPoolStake height.
Definition isFullStake (stake height : Z) : bool := stake =? maximumStake height.
Definition checkCanActivate (m : Miner) : bool :=
  if negb (PksCompleted m) then false else checkLowerBound m.

Definition setPks (m : Miner) (pks : MinerPks) : Miner :=
  with_Pks (if (0 <? length (pks_Pk pks))%nat then pks_Pk pks else m_PublicKey m)
           (if (0 <? length (pks_VrfPk pks))%nat then pks_VrfPk pks else m_VrfPublicKey m) m.

(** ** Storage keys *)

Definition BonusStorageAddress : Address := BigToAddress 0.
Definition MinerPoolAddr : Address := BigToAddress 1.
Definition RewardStoreAddr : Address := BigToAddress 2.
Definition GroupTopAddress : Address := BigToAddress 3.
Definition MinerPoolTicketsAddr : Address := BigToAddress 4.
Definition FundGuardNodeAddr : Address := BigToAddress 5.
Definition FullStakeGuardNodeAddr : Address := BigToAddress 6.
Definition ScanAllFundGuardStatusAddr : Address := BigToAddress 7.
Definition PunishmentDetailAddr : Address := BigToAddress 0.

Definition PrefixMiner : bytes := str "minfo".
Definition PrefixDetail : bytes := str "dt".
Definition PrefixPoolProposal : bytes := str "p".
Definition PrefixPoolVerifier : bytes := str "v".
Definition KeyPoolProposalTotalStake : bytes := str "totalstake".
Definition KeyVote : bytes := str "votekey".
Definition KeyTickets : bytes := str "tickets".
Definition KeyGuardNodes : bytes := str "guard".
Definition KeyScanSixAddFiveNodes : bytes := str "s1".
Definition KeyScanSixAddSixNodes : bytes := str "s2".

Definition getDetailKey (a : Address) (typ status : Byte.byte) : bytes :=
  PrefixDetail ++ b32_bytes a ++ [typ; status].

(** The readers of [bytes.Reader]: [Read] of a non-empty buffer fails at the end
    of the input and may return fewer bytes than asked. *)
Definition parseDetailKey {E} (key : bytes) : outcome E (Address * Byte.byte * Byte.byte) :=
  let bad := Panic "parse detail key error" in
  if decide (length (take 2 key) <> 2%nat) then bad else
  let r1 := drop 2 key in
  if decide (length (take 32 r1) <> 32%nat) then bad else
  match drop 32 r1 with
  | mt :: st :: _ => Ok (BytesToAddress (take 32 r1), mt, st)
  | _ => bad
  end.

Definition getMinerKey (typ : Byte.byte) : bytes := PrefixMiner ++ [typ].
Definition getPoolKey (prefix : bytes) (a : Address) : bytes := prefix ++ b32_bytes a.
Definition getFundGuardKey (prefix : bytes) (a : Address) : bytes := prefix ++ b32_bytes a.
Definition getTicketsKey (a : Address) : bytes := KeyTickets ++ b32_bytes a.

(** ** Accessors *)

Abbreviation WM := (M World opError).
Definition errOf (msg : string) (rs : ReceiptStatus) : opError := mkErr msg rs.

Section accessors.
Context `{MinerCodecs}.

(** The guard [data != nil && len(data) > 0] before decoding. *)
Definition decodeOpt {A} `{Codec A} (data : option bytes) : WM (option A) :=
  match data with
  | Some d =>
      if (0 <? length d)%nat then
        match Unmarshal d with
        | Some x => ret (Some x)
        | None => fail (errOf "msgpack: decode" RSFail)
        end
      else ret None
  | None => ret None
  end.

(** The readers that only test [data == nil]. *)
Definition decodeNil {A} `{Codec A} (data : option bytes) : WM (option A) :=
  match data with
  | Some d =>
      match Unmarshal d with
      | Some x => ret (Some x)
      | None => fail (errOf "msgpack: decode" RSFail)
      end
  | None => ret None
  end.

Definition store {A} `{Codec A} (a : Address) (key : bytes) (x : A) : WM unit :=
  match Marshal x with
  | Some bs => modify (SetData a key bs)
  | None => fail (errOf "msgpack: encode" RSFail)
  end.

Definition getMiner (a : Address) (mType : Byte.byte) : WM (option Miner) :=
  data <- gets (fun w => GetData w a (getMinerKey mType)) ;;
  decodeOpt data.

Definition setMiner (m : Miner) : WM unit :=
  store (BytesToAddress (m_ID m)) (getMinerKey (m_Type m)) m.

Definition getDetail (a : Address) (detailKey : bytes) : WM (option stakeDetail) :=
  data <- gets (fun w => GetData w a detailKey) ;;
  decodeOpt data.

Definition setDetail (a : Address) (detailKey : bytes) (sd : stakeDetail) : WM unit :=
  store a detailKey sd.

Definition removeDetail (a : Address) (detailKey : bytes) : WM unit :=
  modify (RemoveData a detailKey).

(** *** Tickets and the proposal total *)

Definition readUint64 (data : option bytes) : Z :=
  match data with
  | Some d => if (0 <? length d)%nat then ByteToUInt64 d else 0
  | None => 0
  end.

Definition getTotalTickets (w : World) (key : bytes) : Z :=
  readUint64 (GetData w MinerPoolTicketsAddr key).
Definition getTickets (w : World) (a : Address) : Z := getTotalTickets w (getTicketsKey a).
Definition getProposalTotalStake (w : World) : Z :=
  readUint64 (GetData w MinerPoolAddr KeyPoolProposalTotalStake).

Definition setProposalTotalStake (v : Z) : WM unit :=
  modify (SetData MinerPoolAddr KeyPoolProposalTotalStake (Uint64ToByte v)).

Definition subProposalTotalStake (subStake : Z) : WM unit :=
  totalStake <- gets getProposalTotalStake ;;
  if totalStake <? subStake then panic "total stake less than sub stake"
  else setProposalTotalStake (totalStake - subStake)%u64.

Definition addProposalTotalStake (addStake : Z) : WM unit :=
  totalStake <- gets getProposalTotalStake ;;
  if (addStake + totalStake)%u64 <? totalStake then panic "total stake overflow"
  else setProposalTotalStake (addStake + totalStake)%u64.

Definition removeFromPool (minerType : Byte.byte) (a : Address) (stake : Z) : WM unit :=
  if IsProposalRole minerType then
    totalStake <- gets getProposalTotalStake ;;
    if totalStake <? stake then panic "totalStake less than stake"
    else
      setProposalTotalStake (totalStake - stake)%u64 ;;;
      modify (RemoveData MinerPoolAddr (getPoolKey PrefixPoolProposal a))
  else
    let key := if IsVerifyRole minerType then getPoolKey PrefixPoolVerifier a else [] in
    modify (RemoveData MinerPoolAddr key).

Definition addToPool (minerType : Byte.byte) (a : Address) (addStake : Z) : WM unit :=
  if IsProposalRole minerType then
    addProposalTotalStake addStake ;;;
    modify (SetData MinerPoolAddr (getPoolKey PrefixPoolProposal a) [Byte.x01])
  else
    let key := if IsVerifyRole minerType then getPoolKey PrefixPoolVerifier a else [] in
    modify (SetData MinerPoolAddr key [Byte.x01]).

Definition addTicket (a : Address) : WM Z :=
  let key := getTicketsKey a in
  totalTickets <- gets (fun w => getTotalTickets w key) ;;
  let totalTickets' := (totalTickets + 1)%u64 in
  modify (SetData MinerPoolTicketsAddr key (Uint64ToByte totalTickets')) ;;;
  ret totalTickets'.

Definition subTicket (a : Address) : WM Z :=
  let key := getTicketsKey a in
  totalTickets <- gets (fun w => getTotalTickets w key) ;;
  let totalTickets' := if totalTickets <? 1 then 0 else (totalTickets - 1)%u64 in
  modify (SetData MinerPoolTicketsAddr key (Uint64ToByte totalTickets')) ;;;
  ret totalTickets'.

Definition isFullTickets (totalTickets height : Z) : bool :=
  getValidTicketsByHeight height <=? totalTickets.

(** *** Guard nodes *)

Definition NewFundGuardNode : fundGuardNode := mkFundGuard fundGuardNodeType 0 SIXAddSix.

Definition setFundGuardNode (a : Address) (fn : fundGuardNode) : WM unit :=
  store FundGuardNodeAddr (getFundGuardKey KeyGuardNodes a) fn.
Definition addFundGuardPool (a : Address) : WM unit := setFundGuardNode a NewFundGuardNode.
Definition getFundGuardNode (a : Address) : WM (option fundGuardNode) :=
  bts <- gets (fun w => GetData w FundGuardNodeAddr (getFundGuardKey KeyGuardNodes a)) ;;
  decodeNil bts.

Definition hasScanedSixAddFiveFundGuards (w : World) : bool :=
  bool_decide (is_Some (GetData w ScanAllFundGuardStatusAddr KeyScanSixAddFiveNodes)).
Definition markScanedSixAddFiveFundGuards : WM unit :=
  modify (SetData ScanAllFundGuardStatusAddr KeyScanSixAddFiveNodes [Byte.x01]).
Definition hasScanedSixAddSixFundGuards (w : World) : bool :=
  bool_decide (is_Some (GetData w ScanAllFundGuardStatusAddr KeyScanSixAddSixNodes)).
Definition markScanedSixAddSixFundGuards : WM unit :=
  modify (SetData ScanAllFundGuardStatusAddr KeyScanSixAddSixNodes [Byte.x01]).

Definition updateFundGuardMode (fn : fundGuardNode) (a : Address) (mode : Byte.byte) (height : Z) : WM unit :=
  setFundGuardNode a (mkFundGuard (fn_Type fn) height mode).

(** A decoding error is swallowed: [if err != nil { return nil }]. *)
Definition updateFundGuardPoolStatus (a : Address) (fnType : Byte.byte) (height : Z) : WM unit := fun w =>
  match getFundGuardNode a w with
  | (Ok (Some fn), w') => setFundGuardNode a (mkFundGuard fnType height (fn_FundModeType fn)) w'
  | (Ok None, w') => (Err (errOf "fund  guard info is nil" RSFail), w')
  | (Err _, w') => (Ok tt, w')
  | (Panic m, w') => (Panic m, w')
  end.

Definition addFullStakeGuardPool (a : Address) : WM unit :=
  modify (SetData FullStakeGuardNodeAddr (getFundGuardKey KeyGuardNodes a) [Byte.x01]).
Definition isInFullStakeGuardNode (w : World) (a : Address) : bool :=
  bool_decide (is_Some (GetData w FullStakeGuardNodeAddr (getFundGuardKey KeyGuardNodes a))).
Definition removeFullStakeGuardNodeFromPool (a : Address) : WM unit :=
  modify (RemoveData FullStakeGuardNodeAddr (getFundGuardKey KeyGuardNodes a)).

(** *** Votes *)

Definition newVoteInfo : voteInfo := mkVote zeroB32 0.
Definition setVoteInfo (a : Address) (vf : voteInfo) : WM unit := store a KeyVote vf.
Definition delVoteInfo (a : Address) : WM unit := modify (RemoveData a KeyVote).
Definition initVoteInfo (a : Address) : WM voteInfo :=
  store a KeyVote newVoteInfo ;;; ret newVoteInfo.
Definition getVoteInfo (a : Address) : WM (option voteInfo) :=
  data <- gets (fun w => GetData w a KeyVote) ;;
  decodeNil data.
Definition voteMinerPool (vf : voteInfo) (source targetAddress : Address) (height : Z) : WM unit :=
  store source KeyVote (mkVote targetAddress height).
End accessors.
