(* ===== verification/StakeBounds.v ===== *)
(** * StakeBounds: the limits on stake over time

    [maximumStake], [getValidTicketsByHeight] and [getFullMinerPoolStake] of
    [src/core/miner_base.go]: what a single miner and a miner pool may hold at a
    height. *)
From S2P Require Import Prelude Bytes World Types MinerBase.
Local Open Scope Z_scope.

(** The schedule has thirteen steps of ten million blocks. *)
Definition stakeStep (n : nat) : Z := stakeLoop n 0 initMaxMinerStake.

Lemma maximumStake_step h : 0 <= h ->
  maximumStake h = stakeStep (Z.to_nat (Z.min 12 (h / MaxMinerStakeAdjustPeriod))).
Proof.
  intros Hh. unfold maximumStake, stakeStep. change stakeAdjustTimes with 12. f_equal. f_equal.
  unfold MaxMinerStakeAdjustPeriod. destruct (Z.ltb_spec (12 * 10000000) h).
  - rewrite Z.min_l; [done|]. apply Z.div_le_lower_bound; lia.
  - rewrite Z.min_r; [done|]. apply Z.lt_succ_r, Z.div_lt_upper_bound; lia.
Qed.

Lemma stakeStep_succ n : (n < 12)%nat ->
  stakeStep n + 125000 * ZVC <= stakeStep (S n) <= stakeStep n + 1000000 * ZVC.
Proof. intros Hn. do 12 (destruct n as [|n]; [vm_compute; split; discriminate|]). lia. Qed.

Lemma stakeStep_mono n m : (n <= m)%nat -> (m <= 12)%nat -> stakeStep n <= stakeStep m.
Proof.
  induction 1 as [|m Hle IH]; intros Hm; [done|].
  pose proof (stakeStep_succ m ltac:(lia)). specialize (IH ltac:(lia)). change ZVC with 1000000000 in *. lia.
Qed.

Lemma stake_period_mono h1 h2 : 0 <= h1 <= h2 ->
  (Z.to_nat (Z.min 12 (h1 / MaxMinerStakeAdjustPeriod)) <= Z.to_nat (Z.min 12 (h2 / MaxMinerStakeAdjustPeriod)))%nat.
Proof.
  intros Hh. pose proof (Z.div_le_mono h1 h2 MaxMinerStakeAdjustPeriod ltac:(done) ltac:(lia)). lia.
Qed.

(** The tickets a pool needs, without the wrap-around. *)
Lemma validTickets_exact h : u64_ok h ->
  getValidTicketsByHeight h = Z.max 1 (8 - 2 * (h / 30000000)).
Proof.
  unfold u64_ok, two64. intros Hh. unfold getValidTicketsByHeight.
  change (adjustWeightPeriod * 3) with 30000000.
  pose proof (Z.div_pos h 30000000 ltac:(lia) ltac:(lia)).
  pose proof (Z.div_lt_upper_bound h 30000000 614891469124 ltac:(lia) ltac:(lia)).
  change minerPoolReduceCount with 2. change initMinerPoolTickets with 8. change minMinerPoolTickets with 1.
  rewrite wrap64_id by (unfold u64_ok, two64; lia).
  destruct (Z.leb_spec 8 (h / 30000000 * 2)); [lia|].
  rewrite wrap64_id by (unfold u64_ok, two64; lia). lia.
Qed.

Lemma maximumStake_range h : 0 <= h -> 2500000 * ZVC <= maximumStake h <= 8125000 * ZVC.
Proof.
  intros Hh. rewrite maximumStake_step by done. set (n := Z.to_nat _).
  pose proof (stakeStep_mono 0 n ltac:(lia) ltac:(lia)) as H0.
  pose proof (stakeStep_mono n 12 ltac:(lia) ltac:(lia)) as H1.
  change (stakeStep 0) with (2500000 * ZVC) in H0.
  assert (stakeStep 12 = 8125000 * ZVC) as <- by (vm_compute; reflexivity). lia.
Qed.

(** The stake limit only grows with the height, from 2.5
    million ZVC to 8.125 million; the votes a pool needs only fall, from eight to
    one; and a pool's limit is their exact product, the 64-bit multiplication
    never wraps. *)
Theorem stake_bounds h1 h2 :
  u64_ok h1 -> u64_ok h2 -> h1 <= h2 ->
  2500000 * ZVC <= maximumStake h1 <= maximumStake h2 /\ maximumStake h2 <= 8125000 * ZVC /\
  1 <= getValidTicketsByHeight h2 <= getValidTicketsByHeight h1 /\ getValidTicketsByHeight h1 <= 8 /\
  getFullMinerPoolStake h1 = maximumStake h1 * getValidTicketsByHeight h1.
Proof.
  intros H1 H2 Hle. pose proof H1 as [Hn1 _]. pose proof H2 as [Hn2 _].
  pose proof (maximumStake_range h1 Hn1) as R1. pose proof (maximumStake_range h2 Hn2) as R2.
  assert (maximumStake h1 <= maximumStake h2) as Hm.
  { rewrite !maximumStake_step by done. apply stakeStep_mono; [apply stake_period_mono; lia|lia]. }
  pose proof (Z.div_le_mono h1 h2 30000000 ltac:(lia) Hle).
  pose proof (Z.div_pos h1 30000000 ltac:(lia) ltac:(lia)).
  unfold getFullMinerPoolStake. rewrite !validTickets_exact by done.
  split_and!; try lia. apply wrap64_id. change ZVC with 1000000000 in *. unfold u64_ok, two64.
  set (x := Z.max 1 _). assert (1 <= x <= 8) by lia. nia.
Qed.

Lemma stake_bounds_witness :
  2500000 * ZVC <= maximumStake 5 <= maximumStake 31000000 /\
  maximumStake 5 = 2500000 * ZVC /\ maximumStake 31000000 = 5500000 * ZVC /\
  getFullMinerPoolStake 5 = 20000000 * ZVC.
Proof.
  split; [apply stake_bounds; vm_compute; split_and?; congruence|vm_compute; done].
Defined.
