(* ===== verification/MinerOps.v ===== *)
(** * MinerOps: the miner operations

    [src/core/miner_operation.go] (the operations a transaction or a system
    routine performs: parse, then transition) and [src/core/miner_node.go] (the
    behaviour of each kind of miner behind the interface [baseIdentityOp]).
    The interface's implementations are the constructors of [identityOp]; a
    method is a function that dispatches on the kind, and a method that a kind
    inherits from the embedded [BaseMiner] falls through to the base version.

    The chain-wide services the code reaches through package variables are the
    fields of [ChainEnv]: [StakePlatformAddr()], which may read a contract of
    the latest state, and the group manager's live-group filter. *)
From S2P Require Import Prelude Bytes World Types MinerBase.
Local Open Scope Z_scope.
Local Open Scope zv_scope.

Class ChainEnv := {
  StakePlatformAddr : Address;
  (** [GroupManagerImpl.MinerJoinedLivedGroupCountFilter(maxCount, height)(addr)] *)
  MinerJoinedLivedGroupCountFilter : Z -> Z -> Address -> bool;
}.

(** The operations, parsed; [height] is the one of the transition context. *)
Record stakeAddOp := mkStakeAdd {
  sa_minerPks : MinerPks; sa_value : Z; sa_addSource : Address; sa_addTarget : Address;
  sa_minerType : Byte.byte; sa_height : Z }.
Record minerAbortOp := mkAbort { ab_addr : Address; ab_minerType : Byte.byte; ab_height : Z }.
Record stakeReduceOp := mkReduce {
  sr_cancelTarget : Address; sr_cancelSource : Address; sr_value : Z;
  sr_minerType : Byte.byte; sr_height : Z }.
Record stakeRefundOp := mkRefund {
  rf_refundTarget : Address; rf_refundSource : Address; rf_minerType : Byte.byte; rf_height : Z }.
Record voteMinerPoolOp := mkVoteOp { vo_source : Address; vo_targetAddr : Address; vo_height : Z }.
Record applyGuardMinerOp := mkApply { ag_targetAddr : Address; ag_height : Z }.
Record reduceTicketsOp := mkReduceTickets { rt_target : Address; rt_height : Z }.
Record changeFundGuardModeOp := mkChangeMode { cf_source : Address; cf_mode : Byte.byte; cf_height : Z }.
Record minerFreezeOp := mkFreeze { fz_addr : Address; fz_height : Z }.
Record minerPenaltyOp := mkPenalty {
  pn_targets : list Address; pn_rewards : list Address; pn_value : Z; pn_height : Z }.

Inductive identityOp :=
| VerifyMiner | NormalProposalMiner | GuardProposalMiner
| MinerPoolProposalMiner | InvalidProposalMiner | UnSupportMiner.

Definition geneBaseIdentityOp (opType : Byte.byte) (targetMiner : option Miner) : identityOp :=
  if bool_decide (opType = MinerTypeVerify) then VerifyMiner
  else match targetMiner with
       | None => NormalProposalMiner
       | Some m =>
           if bool_decide (m_Identity m = MinerNormal) then NormalProposalMiner
           else if bool_decide (m_Identity m = MinerGuard) then GuardProposalMiner
           else if bool_decide (m_Identity m = MinerPool) then MinerPoolProposalMiner
           else if bool_decide (m_Identity m = InValidMinerPool) then InvalidProposalMiner
           else UnSupportMiner
       end.

Definition initMiner (op : stakeAddOp) : Miner :=
  mkMiner (b32_bytes (sa_addTarget op)) [] [] (sa_height op) (sa_value op) 0
    (sa_minerType op) MinerStatusPrepare MinerNormal 0.

Definition needTransfer (amount : Z) : bool := negb (amount <=? 0).

Definition reduceBalance (target : Address) (value : Z) : WM unit :=
  if needTransfer value then
    can <- gets (fun w => CanTransfer w target value) ;;
    guard can (errOf "balance not enough" RSBalanceNotEnough) ;;;
    modify (SubBalance target value)
  else ret tt.

Definition unSupported {A} (msg : string) : WM A := fail (errOf msg RSMinerUnSupportOp).

Section ops.
Context `{MinerCodecs} `{ChainEnv}.

(** ** Stake add *)

Definition VerifyMiner_checkStakeAdd (op : stakeAddOp) : WM unit :=
  if decide (sa_addSource op <> sa_addTarget op)
  then unSupported "could not stake to other's verify node" else ret tt.

Definition NormalProposalMiner_checkStakeAdd (op : stakeAddOp) : WM unit :=
  if decide (sa_addSource op = sa_addTarget op \/ sa_addSource op = StakePlatformAddr)
  then ret tt
  else
    sourceMiner <- getMiner (sa_addSource op) MinerTypeProposal ;;
    match sourceMiner with
    | Some sm =>
        if IsMinerPool sm then ret tt
        else unSupported "stake add to normal node only can be stake add by fund owner or miner pool"
    | None => unSupported "stake add to normal node only can be stake add by fund owner or miner pool"
    end.

Definition GuardProposalMiner_checkStakeAdd (op : stakeAddOp) : WM unit :=
  if decide (sa_addSource op <> sa_addTarget op)
  then unSupported "guard miner node cannot be staked by others" else ret tt.

Definition MinerPoolProposalMiner_checkStakeAdd (op : stakeAddOp) : WM unit :=
  sourceMiner <- getMiner (sa_addSource op) MinerTypeProposal ;;
  match sourceMiner with
  | Some sm =>
      if IsMinerPool sm && bool_decide (sa_addSource op <> sa_addTarget op)
      then unSupported "miner pool can not stake add to other miner pool" else ret tt
  | None => ret tt
  end.

Definition checkStakeAdd (k : identityOp) (op : stakeAddOp) : WM unit :=
  match k with
  | VerifyMiner => VerifyMiner_checkStakeAdd op
  | NormalProposalMiner => NormalProposalMiner_checkStakeAdd op
  | GuardProposalMiner => GuardProposalMiner_checkStakeAdd op
  | MinerPoolProposalMiner => MinerPoolProposalMiner_checkStakeAdd op
  | InvalidProposalMiner => unSupported "invalid miner pool not support stake add"
  | UnSupportMiner => unSupported "unSupported stake add"
  end.

(** [checkUpperBound] of the interface. *)
Definition upperBoundOf (k : identityOp) (m : Miner) (height : Z) : bool :=
  match k with
  | MinerPoolProposalMiner => checkMinerPoolUpperBound m height
  | UnSupportMiner => false
  | _ => checkUpperBound m height
  end.

(** The miner that carries the added stake: the existing one or a new one. *)
Definition stakeAddMiner (op : stakeAddOp) (targetMiner : option Miner) : WM Miner :=
  match targetMiner with
  | Some m =>
      guard (negb (IsFrozen m)) (errOf "miner is frozen, cannot add stake" RSMinerStakeFrozen) ;;;
      guard (negb ((m_Stake m + sa_value op)%u64 <? m_Stake m)) (errOf "stake overflow" RSFail) ;;;
      ret (with_Stake (m_Stake m + sa_value op)%u64 m)
  | None => ret (initMiner op)
  end.

(** The pool and total-stake updates, and the activation, of the miner. *)
Definition stakeAddActivate (op : stakeAddOp) (m : Miner) : WM Miner :=
  if IsActive m then
    (if IsProposalRole (sa_minerType op) then addProposalTotalStake (sa_value op) else ret tt) ;;;
    ret m
  else if checkCanActivate m then
    addToPool (sa_minerType op) (sa_addTarget op) (m_Stake m) ;;;
    ret (UpdateStatus MinerStatusActive (sa_height op) m)
  else ret m.

Definition stakeAddDetail (op : stakeAddOp) : WM unit :=
  let detailKey := getDetailKey (sa_addSource op) (sa_minerType op) Staked in
  detail <- getDetail (sa_addTarget op) detailKey ;;
  d <- match detail with
       | Some d =>
           guard (negb ((sd_Value d + sa_value op)%u64 <? sd_Value d))
             (errOf "stake detail value overflow" RSFail) ;;;
           ret (mkDetail (sd_Value d + sa_value op)%u64 (sd_Height d)
                  (sd_DisMissHeight d) (sd_MarkNotFullHeight d))
       | None => ret (mkDetail (sa_value op) 0 0 0)
       end ;;
  setDetail (sa_addTarget op) detailKey
    (mkDetail (sd_Value d) (sa_height op) (sd_DisMissHeight d) (sd_MarkNotFullHeight d)).

Definition BaseMiner_processStakeAdd (op : stakeAddOp) (targetMiner : option Miner)
    (upper : Miner -> Z -> bool) : WM unit :=
  reduceBalance (sa_addSource op) (sa_value op) ;;;
  m0 <- stakeAddMiner op targetMiner ;;
  let m1 := if decide (sa_addTarget op = sa_addSource op)
            then setPks m0 (sa_minerPks op) else m0 in
  guard (upper m1 (sa_height op)) (errOf "stake more than upper bound" RSMinerStakeOverLimit) ;;;
  m2 <- stakeAddActivate op m1 ;;
  setMiner m2 ;;;
  stakeAddDetail op.

Definition processStakeAdd (k : identityOp) (op : stakeAddOp) (targetMiner : option Miner)
    (upper : Miner -> Z -> bool) : WM unit :=
  match k with
  | UnSupportMiner => unSupported "unSupported stake add"
  | _ => BaseMiner_processStakeAdd op targetMiner upper
  end.

Definition stakeAdd_Transition (op : stakeAddOp) : WM unit :=
  targetMiner <- getMiner (sa_addTarget op) (sa_minerType op) ;;
  let baseOp := geneBaseIdentityOp (sa_minerType op) targetMiner in
  checkStakeAdd baseOp op ;;;
  processStakeAdd baseOp op targetMiner (upperBoundOf baseOp).

(** ** Miner abort *)

Definition checkStakeAbort (op : minerAbortOp) (miner : option Miner) : WM Miner :=
  match miner with
  | None => fail (errOf "no miner info" RSMinerNotExists)
  | Some m =>
      guard (negb (IsPrepare m)) (errOf "already in prepare status" RSMinerAbortHasPrepared) ;;;
      guard (negb (IsFrozen m && (ab_height op <=? (m_StatusUpdateHeight m + oneHourBlocks)%u64)))
        (errOf "frozen miner can't abort less than 1 hour since frozen" RSMinerStakeFrozen) ;;;
      ret m
  end.

Definition BaseMiner_processMinerAbort (op : minerAbortOp) (miner : option Miner) : WM unit :=
  m <- checkStakeAbort op miner ;;
  (if IsActive m then removeFromPool (ab_minerType op) (ab_addr op) (m_Stake m) else ret tt) ;;;
  setMiner (UpdateStatus MinerStatusPrepare (ab_height op) m).

Definition processMinerAbort (k : identityOp) (op : minerAbortOp) (miner : option Miner) : WM unit :=
  match k with
  | InvalidProposalMiner => unSupported "invalid miner pool unSupported miner abort"
  | UnSupportMiner => unSupported "unSupported miner abort"
  | _ => BaseMiner_processMinerAbort op miner
  end.

Definition minerAbort_Transition (op : minerAbortOp) : WM unit :=
  miner <- getMiner (ab_addr op) (ab_minerType op) ;;
  processMinerAbort (geneBaseIdentityOp (ab_minerType op) miner) op miner.

(** ** Stake reduce *)

(** [miner] already carries the reduced stake. *)
Definition checkCanReduce (op : stakeReduceOp) (minerType : Byte.byte) (m : Miner) : WM unit :=
  guard (negb (IsFrozen m)) (errOf "frozen miner must abort first" RSMinerStakeFrozen) ;;;
  if negb (checkLowerBound m) && IsVerifyRole minerType then
    guard (negb (IsActive m))
      (errOf "active verify miner cann't reduce stake to below bound" RSMinerVerifyLowerStake) ;;;
    guard (MinerJoinedLivedGroupCountFilter 1 (sr_height op) (sr_cancelTarget op))
      (errOf "miner still in active groups, cannot reduce stake" RSMinerVerifyInGroup)
  else ret tt.

(** The pool and total-stake updates for the reduced miner. *)
Definition stakeReducePool (op : stakeReduceOp) (originStake : Z) (m : Miner) : WM Miner :=
  if IsActive m && IsProposalRole (sr_minerType op) then
    if negb (checkLowerBound m) then
      removeFromPool (sr_minerType op) (sr_cancelTarget op) originStake ;;;
      ret (UpdateStatus MinerStatusPrepare (sr_height op) m)
    else
      subProposalTotalStake (sr_value op) ;;;
      ret m
  else ret m.

(** Move the value from the staked detail to the frozen one. *)
Definition stakeReduceDetails (op : stakeReduceOp) (originStake : Z) : WM unit :=
  let stakedDetailKey := getDetailKey (sr_cancelSource op) (sr_minerType op) Staked in
  stakedDetail <- getDetail (sr_cancelTarget op) stakedDetailKey ;;
  match stakedDetail with
  | None => fail (errOf "target account has no staked detail data" RSFail)
  | Some sd =>
      guard (negb (sr_height op <? sd_DisMissHeight sd))
        (errOf "current height can not be reduce" RSMinerReduceHeightNotEnough) ;;;
      (if originStake <? sd_Value sd then panic "detail stake more than total stake of the miner"
       else ret tt) ;;;
      guard (negb (sd_Value sd <? sr_value op))
        (errOf "detail stake less than cancel amount" RSMinerStakeLessThanReduce) ;;;
      let left := (sd_Value sd - sr_value op)%u64 in
      (if left =? 0 then removeDetail (sr_cancelTarget op) stakedDetailKey
       else setDetail (sr_cancelTarget op) stakedDetailKey
              (mkDetail left (sr_height op) (sd_DisMissHeight sd) (sd_MarkNotFullHeight sd))) ;;;
      let frozenDetailKey := getDetailKey (sr_cancelSource op) (sr_minerType op) StakeFrozen in
      frozenDetail <- getDetail (sr_cancelTarget op) frozenDetailKey ;;
      setDetail (sr_cancelTarget op) frozenDetailKey
        (match frozenDetail with
         | None => mkDetail (sr_value op) (sr_height op) 0 0
         | Some fd => mkDetail (sd_Value fd + sr_value op)%u64 (sr_height op)
                        (sd_DisMissHeight fd) (sd_MarkNotFullHeight fd)
         end)
  end.

Definition BaseMiner_processStakeReduce (op : stakeReduceOp) (miner : option Miner) : WM unit :=
  match miner with
  | None => fail (errOf "no miner info" RSMinerNotExists)
  | Some m =>
      guard (negb (m_Stake m <? sr_value op))
        (errOf "miner stake not enough" RSMinerStakeLessThanReduce) ;;;
      let originStake := m_Stake m in
      let m1 := with_Stake (m_Stake m - sr_value op)%u64 m in
      checkCanReduce op (sr_minerType op) m1 ;;;
      m2 <- stakeReducePool op originStake m1 ;;
      setMiner m2 ;;;
      stakeReduceDetails op originStake
  end.

Definition processStakeReduce (k : identityOp) (op : stakeReduceOp) (miner : option Miner) : WM unit :=
  match k with
  | UnSupportMiner => unSupported "unSupported miner abort"
  | _ => BaseMiner_processStakeReduce op miner
  end.

Definition stakeReduce_Transition (op : stakeReduceOp) : WM unit :=
  miner <- getMiner (sr_cancelTarget op) (sr_minerType op) ;;
  processStakeReduce (geneBaseIdentityOp (sr_minerType op) miner) op miner.

(** ** Stake refund *)

Definition refundDeadline (op : stakeRefundOp) (frozenHeight : Z) : Z :=
  if IsZIP004 (rf_height op) then refundDeadlineTwoDays
  else if IsZIP003 frozenHeight && bool_decide (rf_refundSource op <> StakePlatformAddr)
  then refundDeadlineNinetyDays
  else refundDeadlineTwoDays.

Definition stakeRefund_Transition (op : stakeRefundOp) : WM unit :=
  let frozenDetailKey := getDetailKey (rf_refundSource op) (rf_minerType op) StakeFrozen in
  frozenDetail <- getDetail (rf_refundTarget op) frozenDetailKey ;;
  match frozenDetail with
  | None => fail (errOf "target has no frozen detail" RSFail)
  | Some fd =>
      let dl := refundDeadline op (sd_Height fd) in
      guard (negb (rf_height op <=? (sd_Height fd + dl)%u64))
        (errOf "refund cann't happen util days after last reduce" RSMinerRefundHeightNotEnougn) ;;;
      removeDetail (rf_refundTarget op) frozenDetailKey ;;;
      modify (AddBalance (rf_refundSource op) (sd_Value fd))
  end.

(** ** Tickets *)

Definition MinerPoolProposalMiner_afterTicketReduce (op : reduceTicketsOp) (miner : option Miner)
    (totalTickets : Z) : WM unit :=
  if negb (isFullTickets totalTickets (rt_height op)) then
    match miner with
    | None => fail (errOf "find miner pool miner is nil" RSFail)
    | Some m =>
        let m1 := UpdateIdentity InValidMinerPool (rt_height op) m in
        m2 <- (if IsActive m1 then
                 removeFromPool MinerTypeProposal (rt_target op) (m_Stake m1) ;;;
                 ret (UpdateStatus MinerStatusPrepare (rt_height op) m1)
               else ret m1) ;;
        setMiner m2
    end
  else ret tt.

Definition afterTicketReduce (k : identityOp) (op : reduceTicketsOp) (miner : option Miner)
    (totalTickets : Z) : WM unit :=
  match k with
  | MinerPoolProposalMiner => MinerPoolProposalMiner_afterTicketReduce op miner totalTickets
  | _ => ret tt
  end.

Definition processReduceTicket (k : identityOp) (op : reduceTicketsOp) (targetMiner : option Miner)
    (after : reduceTicketsOp -> option Miner -> Z -> WM unit) : WM unit :=
  match k with
  | UnSupportMiner => unSupported "unSupported reduce ticket"
  | _ =>
      totalTickets <- subTicket (rt_target op) ;;
      after op targetMiner totalTickets
  end.

Definition reduceTickets_Transition (op : reduceTicketsOp) : WM unit :=
  targetMiner <- getMiner (rt_target op) MinerTypeProposal ;;
  let baseOp := geneBaseIdentityOp MinerTypeProposal targetMiner in
  processReduceTicket baseOp op targetMiner (afterTicketReduce baseOp).

(** ** Votes *)

Definition BaseMiner_afterTicketsFull (op : voteMinerPoolOp) (targetMiner : option Miner) : WM unit :=
  let m := match targetMiner with
           | Some m => m
           | None => mkMiner (b32_bytes (vo_targetAddr op)) [] [] (vo_height op) 0 0
                       MinerTypeProposal MinerStatusPrepare MinerNormal 0
           end in
  setMiner (UpdateIdentity MinerPool (vo_height op) m).

Definition afterTicketsFull (k : identityOp) (op : voteMinerPoolOp) (targetMiner : option Miner) : WM unit :=
  match k with
  | MinerPoolProposalMiner | UnSupportMiner => ret tt
  | _ => BaseMiner_afterTicketsFull op targetMiner
  end.

Definition checkVote (op : voteMinerPoolOp) (vf : option voteInfo) : WM unit :=
  sourceMiner <- getMiner (vo_source op) MinerTypeProposal ;;
  match sourceMiner with
  | None => unSupported "miner info is nil,cannot vote"
  | Some sm =>
      guard (IsGuard sm) (errOf "this miner is not guard node,can not vote" RSMinerUnSupportOp) ;;;
      let voteHeight := from_option vf_Height 0 vf in
      guard (checkCanVote voteHeight (vo_height op))
        (errOf "has voted in this round,can not vote" RSVoteNotInRound)
  end.

(** [processVote] of [miner_base.go]: record the vote, move the ticket. *)
Definition processVoteBase (op : voteMinerPoolOp) (vf0 : option voteInfo) : WM bool :=
  vf <- match vf0 with Some vf => ret vf | None => initVoteInfo (vo_source op) end ;;
  let oldTarget := vf_Target vf in
  voteMinerPool vf (vo_source op) (vo_targetAddr op) (vo_height op) ;;;
  totalTickets <-
    (if decide (oldTarget = vo_targetAddr op /\ oldTarget <> zeroB32)
     then gets (fun w => getTickets w (vo_targetAddr op))
     else
       (if decide (oldTarget <> zeroB32)
        then reduceTickets_Transition (mkReduceTickets oldTarget (vo_height op))
        else ret tt) ;;;
       addTicket (vo_targetAddr op)) ;;
  ret (isFullTickets totalTickets (vo_height op)).

Definition BaseMiner_processVote (op : voteMinerPoolOp) (targetMiner : option Miner)
    (ticketsFull : voteMinerPoolOp -> option Miner -> WM unit) : WM unit :=
  vf <- getVoteInfo (vo_source op) ;;
  checkVote op vf ;;;
  isFull <- processVoteBase op vf ;;
  if isFull : bool then ticketsFull op targetMiner else ret tt.

Definition processVote (k : identityOp) (op : voteMinerPoolOp) (targetMiner : option Miner)
    (ticketsFull : voteMinerPoolOp -> option Miner -> WM unit) : WM unit :=
  match k with
  | VerifyMiner => unSupported "verify node not support vote"
  | GuardProposalMiner => unSupported "guard node not support vote"
  | UnSupportMiner => unSupported "unSupported miner abort"
  | _ => BaseMiner_processVote op targetMiner ticketsFull
  end.

Definition voteMinerPool_Transition (op : voteMinerPoolOp) : WM unit :=
  targetMiner <- getMiner (vo_targetAddr op) MinerTypeProposal ;;
  let baseOp := geneBaseIdentityOp MinerTypeProposal targetMiner in
  processVote baseOp op targetMiner (afterTicketsFull baseOp).

(** ** Guard nodes *)

Definition dismissAt (h : Z) (detail : stakeDetail) : stakeDetail :=
  mkDetail (sd_Value detail) (sd_Height detail) (h + adjustWeightPeriod / 2)%u64
    (sd_MarkNotFullHeight detail).

Definition NormalProposalMiner_afterBecomeFullGuardNode (detailKey : bytes) (detail : stakeDetail)
    (a : Address) (height : Z) : WM unit :=
  addFullStakeGuardPool a ;;;
  setDetail a detailKey (dismissAt height detail).

Definition GuardProposalMiner_afterBecomeFullGuardNode (detailKey : bytes) (detail : stakeDetail)
    (a : Address) (height : Z) : WM unit :=
  if sd_DisMissHeight detail =? 0 then
    updateFundGuardPoolStatus a fullStakeGuardNodeType height ;;;
    addFullStakeGuardPool a ;;;
    setDetail a detailKey (dismissAt height detail)
  else
    setDetail a detailKey (dismissAt (sd_DisMissHeight detail) detail).

Definition afterBecomeFullGuardNode (k : identityOp) (detailKey : bytes) (detail : stakeDetail)
    (a : Address) (height : Z) : WM unit :=
  match k with
  | NormalProposalMiner => NormalProposalMiner_afterBecomeFullGuardNode detailKey detail a height
  | GuardProposalMiner => GuardProposalMiner_afterBecomeFullGuardNode detailKey detail a height
  | _ => ret tt
  end.

Definition checkApplyGuard (op : applyGuardMinerOp) (miner : option Miner)
    (detail : option stakeDetail) : WM (Miner * stakeDetail) :=
  match miner, detail with
  | None, _ => fail (errOf "no miner info" RSMinerNotExists)
  | Some _, None => fail (errOf "target account has no staked detail data" RSMinerNotFullStake)
  | Some m, Some d =>
      guard (isFullStake (sd_Value d) (ag_height op))
        (errOf "not full stake,apply guard faild" RSMinerNotFullStake) ;;;
      guard (negb ((ag_height op <? sd_DisMissHeight d) &&
                   (adjustWeightPeriod / 2 <? (sd_DisMissHeight d - ag_height op)%u64)))
        (errOf "apply guard time too long" RSMinerMaxApplyGuard) ;;;
      ret (m, d)
  end.

Definition BaseMiner_processApplyGuard (op : applyGuardMinerOp) (miner : option Miner)
    (become : bytes -> stakeDetail -> Address -> Z -> WM unit) : WM unit :=
  let detailKey := getDetailKey (ag_targetAddr op) MinerTypeProposal Staked in
  stakedDetail <- getDetail (ag_targetAddr op) detailKey ;;
  md <- checkApplyGuard op miner stakedDetail ;;
  setMiner (UpdateIdentity MinerGuard (ag_height op) md.1) ;;;
  become detailKey md.2 (ag_targetAddr op) (ag_height op) ;;;
  vf <- getVoteInfo (ag_targetAddr op) ;;
  match vf with
  | Some v => setVoteInfo (ag_targetAddr op) (mkVote (vf_Target v) (ag_height op))
  | None => ret tt
  end.

Definition processApplyGuard (k : identityOp) (op : applyGuardMinerOp) (miner : option Miner)
    (become : bytes -> stakeDetail -> Address -> Z -> WM unit) : WM unit :=
  match k with
  | InvalidProposalMiner => unSupported "invalid miner pool not support apply guard node"
  | VerifyMiner => unSupported "verify node not support apply guard node"
  | MinerPoolProposalMiner => unSupported "miner pool not support apply guard node"
  | UnSupportMiner => unSupported "unSupported apply guard"
  | _ => BaseMiner_processApplyGuard op miner become
  end.

Definition applyGuardMiner_Transition (op : applyGuardMinerOp) : WM unit :=
  miner <- getMiner (ag_targetAddr op) MinerTypeProposal ;;
  match miner with
  | None => fail (errOf "no miner info" RSMinerNotExists)
  | Some _ =>
      let baseOp := geneBaseIdentityOp MinerTypeProposal miner in
      processApplyGuard baseOp op miner (afterBecomeFullGuardNode baseOp)
  end.

(** The error of [updateFundGuardMode] is tested the wrong way round: on
    success the source returns a nil error (with status [RSFail], which
    [Transition] ignores for a nil error), and a failure is dropped. *)
Definition BaseMiner_processChangeFundGuardMode (op : changeFundGuardModeOp) : WM unit :=
  guard (negb (adjustWeightPeriod / 2 <? cf_height op))
    (errOf "changge fund guard mode must be in suitable height" RSMinerChangeModeExpired) ;;;
  fn <- getFundGuardNode (cf_source op) ;;
  match fn with
  | None => unSupported "fund  guard info is nil"
  | Some f =>
      guard (isFundGuard f) (errOf "only fund guard can do this operator" RSMinerUnSupportOp) ;;;
      fun w => match updateFundGuardMode f (cf_source op) (cf_mode op) (cf_height op) w with
               | (Panic m, w') => (Panic m, w')
               | (_, w') => (Ok tt, w')
               end
  end.

Definition processChangeFundGuardMode (k : identityOp) (op : changeFundGuardModeOp) : WM unit :=
  match k with
  | UnSupportMiner => unSupported "unSupported change fund guard mode"
  | _ => BaseMiner_processChangeFundGuardMode op
  end.

Definition changeFundGuardMode_Transition (op : changeFundGuardModeOp) : WM unit :=
  targetMiner <- getMiner (cf_source op) MinerTypeProposal ;;
  processChangeFundGuardMode (geneBaseIdentityOp MinerTypeProposal targetMiner) op.

(** [guardNodeExpired] of [miner_base.go] *)
Definition guardNodeExpired (a : Address) (height : Z) (isFundGuardNode : bool) : WM unit :=
  miner <- getMiner a MinerTypeProposal ;;
  match miner with
  | None => fail (errOf "guard invalid find miner is nil" RSFail)
  | Some m =>
      setMiner (UpdateIdentity MinerNormal height m) ;;;
      (if negb isFundGuardNode then removeFullStakeGuardNodeFromPool a else ret tt) ;;;
      vf <- getVoteInfo a ;;
      match vf with
      | None => ret tt
      | Some v =>
          delVoteInfo a ;;;
          if decide (vf_Target v <> zeroB32)
          then reduceTickets_Transition (mkReduceTickets (vf_Target v) height)
          else ret tt
      end
  end.

(** ** Freeze and penalty *)

Definition minerFreeze_Transition (op : minerFreezeOp) : WM unit :=
  miner <- getMiner (fz_addr op) MinerTypeVerify ;;
  match miner with
  | None => fail (errOf "no miner info" RSMinerNotExists)
  | Some m =>
      guard (negb (IsFrozen m)) (errOf "already in forzen status" RSFail) ;;;
      guard (IsVerifyRole (m_Type m)) (errOf "not a verifier" RSFail) ;;;
      (if IsActive m then removeFromPool MinerTypeVerify (fz_addr op) (m_Stake m) else ret tt) ;;;
      setMiner (UpdateStatus MinerStatusFrozen (fz_height op) m)
  end.

Definition addPunishment (a : Address) (value height : Z) : WM unit :=
  let punishmentKey := getDetailKey PunishmentDetailAddr MinerTypeVerify StakePunishment in
  pd <- getDetail a punishmentKey ;;
  setDetail a punishmentKey
    (match pd with
     | None => mkDetail value height 0 0
     | Some d => mkDetail (sd_Value d + value)%u64 height (sd_DisMissHeight d) (sd_MarkNotFullHeight d)
     end).

(** Take the value from the staked detail of the target, the rest from its
    frozen one. *)
Definition subPunished (a : Address) (value height : Z) : WM unit :=
  let normalStakeKey := getDetailKey a MinerTypeVerify Staked in
  nd <- getDetail a normalStakeKey ;;
  match nd with
  | None => panic "penalty can't find detail of the target"
  | Some d =>
      if value <? sd_Value d then
        setDetail a normalStakeKey
          (mkDetail (sd_Value d - value)%u64 height (sd_DisMissHeight d) (sd_MarkNotFullHeight d))
      else
        let remain := (value - sd_Value d)%u64 in
        removeDetail a normalStakeKey ;;;
        if 0 <? remain then
          let frozenKey := getDetailKey a MinerTypeVerify StakeFrozen in
          fd <- getDetail a frozenKey ;;
          match fd with
          | None => panic "penalty can't find frozen detail of target"
          | Some f =>
              if sd_Value f <? remain then panic "frozen detail value less than remain punish value"
              else setDetail a frozenKey
                     (mkDetail (sd_Value f - remain)%u64 height (sd_DisMissHeight f) (sd_MarkNotFullHeight f))
          end
        else ret tt
  end.

Definition penalize (op : minerPenaltyOp) (a : Address) : WM unit :=
  miner <- getMiner a MinerTypeVerify ;;
  match miner with
  | None => fail (errOf "no miner info" RSMinerNotExists)
  | Some m =>
      guard (IsVerifyRole (m_Type m)) (errOf "not a verifier" RSFail) ;;;
      (if IsActive m then removeFromPool MinerTypeVerify a (m_Stake m) else ret tt) ;;;
      (if m_Stake m <? pn_value op then panic "stake less than punish value" else ret tt) ;;;
      setMiner (UpdateStatus MinerStatusFrozen (pn_height op)
                  (with_Stake (m_Stake m - pn_value op)%u64 m)) ;;;
      addPunishment a (pn_value op) (pn_height op) ;;;
      subPunished a (pn_value op) (pn_height op)
  end.

Definition penaltyShare (op : minerPenaltyOp) : Z :=
  (pn_value op * Z.of_nat (length (pn_targets op)))%u64 / Z.of_nat (length (pn_rewards op)).

Definition minerPenalty_Transition (op : minerPenaltyOp) : WM unit :=
  for_each (pn_targets op) (penalize op) ;;;
  if (0 <? length (pn_rewards op))%nat then
    for_each (pn_rewards op) (fun a => modify (AddBalance a (penaltyShare op)))
  else ret tt.

(** ** Parsing *)

Definition nilDeref {A} : WM A := panic "nil pointer dereference".
Definition deref {A} (p : option A) : WM A :=
  match p with Some x => ret x | None => nilDeref end.
Definition payload0 (tx : Transaction) : WM Byte.byte :=
  match tx_Data tx with b :: _ => ret b | [] => panic "index out of range" end.
Definition parseErr {A} (msg : string) : WM A := fail (errOf msg RSParseFail).

Definition stakeAdd_Parse (tx : Transaction) (height : Z) : WM stakeAddOp :=
  match DecodePayload (tx_Data tx) with
  | None => parseErr "payload error"
  | Some m =>
      src <- deref (tx_Source tx) ;;
      tgt <- deref (tx_Target tx) ;;
      if (0 <? length (pks_Pk m))%nat && bool_decide (b32_bytes src <> b32_bytes tgt)
      then parseErr "cann't specify target pubkeys when stakes for others"
      else
        v <- deref (tx_Value tx) ;;
        ret (mkStakeAdd m (wrap64 v) src tgt (pks_MType m) height)
  end.

Definition minerAbort_Parse (tx : Transaction) (height : Z) : WM minerAbortOp :=
  t <- payload0 tx ;;
  src <- deref (tx_Source tx) ;;
  ret (mkAbort src t height).

Definition stakeReduce_Parse (tx : Transaction) (height : Z) : WM stakeReduceOp :=
  t <- payload0 tx ;;
  tgt <- deref (tx_Target tx) ;;
  src <- deref (tx_Source tx) ;;
  v <- deref (tx_Value tx) ;;
  ret (mkReduce tgt src (wrap64 v) t height).

Definition stakeRefund_Parse (tx : Transaction) (height : Z) : WM stakeRefundOp :=
  t <- payload0 tx ;;
  tgt <- deref (tx_Target tx) ;;
  src <- deref (tx_Source tx) ;;
  ret (mkRefund tgt src t height).

Definition voteMinerPool_Parse (tx : Transaction) (height : Z) : WM voteMinerPoolOp :=
  match tx_Target tx with
  | None => parseErr "target must be not nil"
  | Some tgt =>
      src <- deref (tx_Source tx) ;;
      ret (mkVoteOp src tgt height)
  end.

Definition applyGuardMiner_Parse (tx : Transaction) (height : Z) : WM applyGuardMinerOp :=
  src <- deref (tx_Source tx) ;;
  ret (mkApply src height).

(** [fundGuardModeCheck] of [src/core/tx_validate.go] *)
Definition fundGuardModeCheck (md : Byte.byte) : bool :=
  bool_decide (md = SIXAddFive) || bool_decide (md = SIXAddSix).

Definition changeFundGuardMode_Parse (tx : Transaction) (height : Z) : WM changeFundGuardModeOp :=
  match tx_Data tx with
  | [md] =>
      if fundGuardModeCheck md then
        src <- deref (tx_Source tx) ;;
        ret (mkChangeMode src md height)
      else parseErr "unknown fund guard mode"
  | _ => parseErr "data length should be 1"
  end.
End ops.
