(* ===== verification/MinerView.v ===== *)
(** * MinerView: what the stored bytes mean

    The typed reading of a world that the miner components maintain: the miner
    of an address and role, the stake details of an account, the proposal
    total, the pools, and the sums the invariants of [MinerInv.v] relate.  Each
    read is computed after each kind of write, so that the operations' theorems
    never look at bytes. *)
From S2P Require Import Prelude Bytes World Types MinerBase.
Local Open Scope Z_scope.

(** ** Recognising keys *)

Fixpoint stripPrefix (p k : bytes) : option bytes :=
  match p, k with
  | [], _ => Some k
  | x :: p', y :: k' => if Byte.eqb x y then stripPrefix p' k' else None
  | _ :: _, [] => None
  end.

Lemma stripPrefix_app p k : stripPrefix p (p ++ k) = Some k.
Proof.
  induction p as [|x p IH]; simpl; [done|]. by rewrite (Byte.byte_dec_lb eq_refl).
Qed.
Lemma stripPrefix_Some p k r : stripPrefix p k = Some r -> k = p ++ r.
Proof.
  revert k. induction p as [|x p IH]; intros [|y k] E; simpl in *; simplify_eq; try done.
  destruct (Byte.eqb x y) eqn:Exy; [|done]. apply Byte.byte_dec_bl in Exy as ->.
  f_equal. by apply IH.
Qed.

Definition minerKeyType (k : bytes) : option Byte.byte :=
  match stripPrefix PrefixMiner k with Some [t] => Some t | _ => None end.

Definition detailKeyParts (k : bytes) : option (Address * Byte.byte * Byte.byte) :=
  match stripPrefix PrefixDetail k with
  | Some r =>
      match drop 32 r with
      | [t; s] => Some (BytesToAddress (take 32 r), t, s)
      | _ => None
      end
  | None => None
  end.

Lemma minerKeyType_miner t : minerKeyType (getMinerKey t) = Some t.
Proof. reflexivity. Qed.
Lemma minerKeyType_inv k t : minerKeyType k = Some t -> k = getMinerKey t.
Proof.
  unfold minerKeyType. destruct (stripPrefix _ _) as [r|] eqn:E; [|done].
  apply stripPrefix_Some in E. destruct r as [|? [|]]; intros; simplify_eq. done.
Qed.
Lemma detailKeyParts_detail a t s : detailKeyParts (getDetailKey a t s) = Some (a, t, s).
Proof.
  unfold detailKeyParts, getDetailKey. rewrite stripPrefix_app.
  rewrite <- (b32_length a), drop_app_length, take_app_length.
  by rewrite BytesToAddress_bytes.
Qed.
Lemma detailKeyParts_inv k a t s : detailKeyParts k = Some (a, t, s) -> k = getDetailKey a t s.
Proof.
  unfold detailKeyParts. destruct (stripPrefix _ _) as [r|] eqn:E; [|done].
  apply stripPrefix_Some in E. destruct (drop 32 r) as [|t' [|s' [|]]] eqn:Ed; intros; simplify_eq.
  unfold getDetailKey. f_equal. rewrite <- Ed. simpl.
  rewrite setBytes_id; [by rewrite take_drop|].
  apply (f_equal length) in Ed. rewrite length_drop in Ed. simpl in Ed.
  rewrite length_take. lia.
Qed.

Lemma minerKeyType_detail a t s : minerKeyType (getDetailKey a t s) = None.
Proof. reflexivity. Qed.
Lemma detailKeyParts_miner t : detailKeyParts (getMinerKey t) = None.
Proof. reflexivity. Qed.

#[global] Instance getMinerKey_inj : Inj eq eq getMinerKey.
Proof. intros t u E. unfold getMinerKey in E. by simplify_eq. Qed.

Lemma getDetailKey_inj a t s a' t' s' :
  getDetailKey a t s = getDetailKey a' t' s' -> a = a' /\ t = t' /\ s = s'.
Proof.
  intros E. apply (f_equal detailKeyParts) in E. rewrite !detailKeyParts_detail in E. by simplify_eq.
Qed.

Lemma getPoolKey_inj p a b : getPoolKey p a = getPoolKey p b -> a = b.
Proof. intros E. apply app_inv_head in E. by apply b32_eq. Qed.

(** The fixed key of the proposal total and the pool keys. *)
Definition poolKey (k : bytes) : bool :=
  bool_decide (k = KeyPoolProposalTotalStake) ||
  match k with
  | c :: r => (Byte.eqb c Byte.x70 || Byte.eqb c Byte.x76) && bool_decide (length r = 32%nat)
  | [] => false
  end.

(** A write that neither a miner, a stake detail, the total nor a pool sees. *)
Definition neutral (a : Address) (k : bytes) : Prop :=
  minerKeyType k = None /\ detailKeyParts k = None /\ (a = MinerPoolAddr -> poolKey k = false).

Lemma neutral_vote a : neutral a KeyVote.
Proof. repeat split. Qed.
Lemma neutral_tickets a b : neutral a (getTicketsKey b).
Proof. repeat split. Qed.
Lemma neutral_guard a b : neutral a (getFundGuardKey KeyGuardNodes b).
Proof. repeat split. Qed.
Lemma neutral_scan5 a : neutral a KeyScanSixAddFiveNodes.
Proof. repeat split. Qed.
Lemma neutral_scan6 a : neutral a KeyScanSixAddSixNodes.
Proof. repeat split. Qed.
#[export] Hint Resolve neutral_vote neutral_tickets neutral_guard neutral_scan5 neutral_scan6 : zv.

Lemma poolKey_pool a :
  poolKey (getPoolKey PrefixPoolProposal a) = true /\ poolKey (getPoolKey PrefixPoolVerifier a) = true.
Proof.
  unfold poolKey, getPoolKey. simpl. rewrite b32_length. by split.
Qed.
Lemma poolKey_miner t : poolKey (getMinerKey t) = false.
Proof. reflexivity. Qed.
Lemma poolKey_detail a t s : poolKey (getDetailKey a t s) = false.
Proof. reflexivity. Qed.

(** ** Typed reads *)

Section views.
Context `{MinerCodecs}.

Definition decodeView {A} `{Codec A} (data : option bytes) : option A :=
  match data with
  | Some d => if (0 <? length d)%nat then Unmarshal d else None
  | None => None
  end.

Definition minerAt (w : World) (a : Address) (t : Byte.byte) : option Miner :=
  decodeView (GetData w a (getMinerKey t)).
Definition detailAt (w : World) (a src : Address) (t s : Byte.byte) : option stakeDetail :=
  decodeView (GetData w a (getDetailKey src t s)).
Definition voteAt (w : World) (a : Address) : option voteInfo :=
  GetData w a KeyVote ≫= Unmarshal.
Definition inPool (w : World) (prefix : bytes) (a : Address) : Prop :=
  is_Some (GetData w MinerPoolAddr (getPoolKey prefix a)).
Definition poolPrefix (t : Byte.byte) : bytes :=
  if IsProposalRole t then PrefixPoolProposal else PrefixPoolVerifier.

Definition stakeAt (w : World) (a : Address) (t : Byte.byte) : Z :=
  from_option m_Stake 0 (minerAt w a t).
Definition detailVal (d : option stakeDetail) : Z := from_option sd_Value 0 d.

(** *** Sums *)

(** The value an entry locks: staked and frozen details, not punishments. *)
Definition lockedOf (k v : bytes) : Z :=
  match detailKeyParts k with
  | Some (_, _, s) =>
      if bool_decide (s = Staked) || bool_decide (s = StakeFrozen)
      then detailVal (decodeView (Some v)) else 0
  | None => 0
  end.
Definition locked (w : World) : Z := storage_sum (fun _ => lockedOf) w.

(** Everything a holder owns: balances, stakes and stakes being withdrawn. *)
Definition supply (w : World) : Z := total_balance w + locked w.

Definition stakedOf (t : Byte.byte) (k v : bytes) : Z :=
  match detailKeyParts k with
  | Some (_, t', s) =>
      if bool_decide (t' = t) && bool_decide (s = Staked)
      then detailVal (decodeView (Some v)) else 0
  | None => 0
  end.
(** The staked details kept in account [a] for role [t]. *)
Definition stakedSum (w : World) (a : Address) (t : Byte.byte) : Z :=
  from_option (fun o => map_sum (stakedOf t) (Storage o)) 0 (accounts w !! a).

Definition activeStake (m : option Miner) : Z :=
  from_option (fun m => if IsActive m then m_Stake m else 0) 0 m.
Definition activeOf (k v : bytes) : Z :=
  if bool_decide (k = getMinerKey MinerTypeProposal)
  then activeStake (decodeView (Some v)) else 0.
(** The stakes of the active proposal miners. *)
Definition proposalSum (w : World) : Z := storage_sum (fun _ => activeOf) w.

(** *** Reads through a write *)

Lemma decodeView_marshal {A} `{CodecLaws A} (x : A) bs :
  Marshal x = Some bs -> decodeView (Some bs) = Some x.
Proof.
  intros Hm. apply codec_roundtrip in Hm as [Hne Hu]. unfold decodeView.
  by destruct bs.
Qed.

Section writes.
Implicit Types (w : World) (a b : Address) (k : bytes).

(** A write to [a]'s entry [k]: the new value or a removal. *)
Definition write a k (v : option bytes) : World -> World := update a (setData k v).

Lemma SetData_write a k v w : SetData a k v w = write a k (Some v) w.
Proof. reflexivity. Qed.
Lemma RemoveData_write a k w : RemoveData a k w = write a k None w.
Proof. reflexivity. Qed.

Lemma minerAt_write a k v w b t :
  minerAt (write a k v w) b t =
  if decide (a = b /\ k = getMinerKey t) then decodeView v else minerAt w b t.
Proof. unfold minerAt, write. rewrite GetData_write. by case_decide. Qed.

Lemma detailAt_write a k v w b src t s :
  detailAt (write a k v w) b src t s =
  if decide (a = b /\ k = getDetailKey src t s) then decodeView v else detailAt w b src t s.
Proof. unfold detailAt, write. rewrite GetData_write. by case_decide. Qed.

Lemma inPool_write a k v w p b :
  inPool (write a k v w) p b <->
  if decide (a = MinerPoolAddr /\ k = getPoolKey p b) then is_Some v else inPool w p b.
Proof. unfold inPool, write. rewrite GetData_write. by case_decide. Qed.

Lemma getProposalTotalStake_write a k v w :
  getProposalTotalStake (write a k v w) =
  if decide (a = MinerPoolAddr /\ k = KeyPoolProposalTotalStake)
  then readUint64 v else getProposalTotalStake w.
Proof. unfold getProposalTotalStake, write. rewrite GetData_write. by case_decide. Qed.

Lemma locked_write a k v w :
  locked (write a k v w) =
  locked w - from_option (lockedOf k) 0 (GetData w a k) + from_option (lockedOf k) 0 v.
Proof. apply storage_sum_write. Qed.

Lemma proposalSum_write a k v w :
  proposalSum (write a k v w) =
  proposalSum w - from_option (activeOf k) 0 (GetData w a k) + from_option (activeOf k) 0 v.
Proof. apply storage_sum_write. Qed.

Lemma stakedSum_write a k v w b t :
  stakedSum (write a k v w) b t =
  stakedSum w b t +
  (if decide (a = b)
   then from_option (stakedOf t k) 0 v - from_option (stakedOf t k) 0 (GetData w a k) else 0).
Proof.
  unfold stakedSum, write, GetData. rewrite lookup_update. unfold getOrNewAccountObject.
  case_decide as E; [subst b|lia].
  destruct (accounts w !! a) as [o|], v as [x|]; simpl;
    rewrite ?map_sum_insert, ?map_sum_delete, ?lookup_empty, ?map_sum_empty; simpl; lia.
Qed.

Lemma total_balance_write a k v w : total_balance (write a k v w) = total_balance w.
Proof. unfold write. rewrite total_balance_update. simpl. lia. Qed.
Lemma GetBalance_write a k v w b : GetBalance (write a k v w) b = GetBalance w b.
Proof. by apply GetBalance_update_frame. Qed.

Lemma lockedOf_nondetail k v : detailKeyParts k = None -> lockedOf k v = 0.
Proof. unfold lockedOf. by intros ->. Qed.
Lemma stakedOf_nondetail t k v : detailKeyParts k = None -> stakedOf t k v = 0.
Proof. unfold stakedOf. by intros ->. Qed.
Lemma activeOf_nonminer k (v : bytes) : minerKeyType k = None -> activeOf k v = 0.
Proof.
  unfold activeOf. intros Hk. case_bool_decide as E; [|done]. by rewrite E in Hk.
Qed.
Lemma option_sum_zero (f : bytes -> Z) (v : option bytes) :
  (forall x, f x = 0) -> from_option f 0 v = 0.
Proof. destruct v; simpl; auto. Qed.
End writes.

(** *** Reads through a balance change *)

Lemma locked_AddBalance a v w : locked (AddBalance a v w) = locked w.
Proof. apply storage_sum_AddBalance. Qed.
Lemma locked_SubBalance a v w : locked (SubBalance a v w) = locked w.
Proof. apply storage_sum_SubBalance. Qed.
Lemma proposalSum_AddBalance a v w : proposalSum (AddBalance a v w) = proposalSum w.
Proof. apply storage_sum_AddBalance. Qed.
Lemma proposalSum_SubBalance a v w : proposalSum (SubBalance a v w) = proposalSum w.
Proof. apply storage_sum_SubBalance. Qed.

Lemma stakedSum_update_frame a f w b t :
  (forall o, Storage (f o) = Storage o) -> stakedSum (update a f w) b t = stakedSum w b t.
Proof.
  intros Hf. unfold stakedSum. rewrite lookup_update. case_decide as E; [subst b|done].
  unfold getOrNewAccountObject. simpl. rewrite Hf. destruct (accounts w !! a); simpl; [done|].
  apply map_sum_empty.
Qed.
Lemma stakedSum_AddBalance a v w b t : stakedSum (AddBalance a v w) b t = stakedSum w b t.
Proof. by apply stakedSum_update_frame. Qed.
Lemma stakedSum_SubBalance a v w b t : stakedSum (SubBalance a v w) b t = stakedSum w b t.
Proof. by apply stakedSum_update_frame. Qed.
End views.

(** ** The ledger after each kind of write

    For the writes the operations perform (a miner, a stake detail, the total,
    a pool entry, or a neutral entry), every read of the ledger.  These are the
    rules of the rewrite database [ledger]. *)

#[global] Arguments decodeView {A _} data : simpl never.

Definition locks (s : Byte.byte) : bool := bool_decide (s = Staked) || bool_decide (s = StakeFrozen).

Section ledger.
Context `{MinerCodecs}.
Implicit Types (w : World) (a b src : Address) (t u s : Byte.byte) (v : option bytes).

Lemma from_option_decode (g : option stakeDetail -> Z) v :
  g None = 0 -> from_option (fun x => g (decodeView (Some x))) 0 v = g (decodeView v).
Proof. by destruct v. Qed.

(** *** Writing a miner *)

Lemma minerAt_wminer a t v w b u :
  minerAt (write a (getMinerKey t) v w) b u =
  if decide (a = b /\ t = u) then decodeView v else minerAt w b u.
Proof.
  rewrite minerAt_write. repeat case_decide; try done; exfalso; naive_solver.
Qed.
Lemma detailAt_wminer a t v w b src u s :
  detailAt (write a (getMinerKey t) v w) b src u s = detailAt w b src u s.
Proof. rewrite detailAt_write. case_decide as E; [|done]. by destruct E as [_ E]. Qed.
Lemma locked_wminer a t v w : locked (write a (getMinerKey t) v w) = locked w.
Proof. rewrite locked_write, !option_sum_zero; [lia|done|done]. Qed.
Lemma stakedSum_wminer a t v w b u :
  stakedSum (write a (getMinerKey t) v w) b u = stakedSum w b u.
Proof. rewrite stakedSum_write, !option_sum_zero by done. case_decide; lia. Qed.
Lemma total_wminer a t v w :
  getProposalTotalStake (write a (getMinerKey t) v w) = getProposalTotalStake w.
Proof. rewrite getProposalTotalStake_write. case_decide as E; [|done]. by destruct E. Qed.
Lemma inPool_wminer a t v w u b :
  inPool (write a (getMinerKey t) v w) (poolPrefix u) b <-> inPool w (poolPrefix u) b.
Proof.
  rewrite inPool_write. case_decide as E; [|done]. destruct E as [_ E].
  unfold poolPrefix in E. by destruct (IsProposalRole u).
Qed.
Lemma proposalSum_wminer a t v w :
  proposalSum (write a (getMinerKey t) v w) =
  proposalSum w +
  (if decide (t = MinerTypeProposal) then activeStake (decodeView v) - activeStake (minerAt w a t) else 0).
Proof.
  rewrite proposalSum_write. unfold activeOf. case_decide as E.
  - subst t. rewrite !bool_decide_eq_true_2 by done. unfold minerAt.
    destruct v, (GetData w a (getMinerKey MinerTypeProposal)); simpl; lia.
  - rewrite !bool_decide_eq_false_2 by (intros E'; by apply (inj getMinerKey) in E').
    rewrite !option_sum_zero by done. lia.
Qed.

(** *** Writing a stake detail *)

Lemma minerAt_wdetail a src t s v w b u :
  minerAt (write a (getDetailKey src t s) v w) b u = minerAt w b u.
Proof. rewrite minerAt_write. case_decide as E; [|done]. by destruct E. Qed.
Lemma detailAt_wdetail a src t s v w b src' u s' :
  detailAt (write a (getDetailKey src t s) v w) b src' u s' =
  if decide (a = b /\ src = src' /\ t = u /\ s = s') then decodeView v else detailAt w b src' u s'.
Proof.
  rewrite detailAt_write. repeat case_decide; try done; exfalso.
  - match goal with E : _ = _ /\ getDetailKey _ _ _ = _ |- _ =>
      destruct E as [-> (-> & -> & ->)%getDetailKey_inj] end. tauto.
  - naive_solver.
Qed.
Lemma locked_wdetail a src t s v w :
  locked (write a (getDetailKey src t s) v w) =
  locked w + (if locks s then detailVal (decodeView v) - detailVal (detailAt w a src t s) else 0).
Proof.
  rewrite locked_write. unfold lockedOf. rewrite !detailKeyParts_detail. unfold locks, detailAt.
  destruct (bool_decide (s = Staked) || bool_decide (s = StakeFrozen)).
  - destruct v, (GetData w a (getDetailKey src t s)); simpl; lia.
  - rewrite !option_sum_zero by done. lia.
Qed.
Lemma stakedSum_wdetail a src t s v w b u :
  stakedSum (write a (getDetailKey src t s) v w) b u =
  stakedSum w b u +
  (if decide (a = b /\ t = u /\ s = Staked)
   then detailVal (decodeView v) - detailVal (detailAt w a src t s) else 0).
Proof.
  rewrite stakedSum_write. unfold stakedOf. rewrite !detailKeyParts_detail. unfold detailAt.
  destruct (decide (a = b /\ t = u /\ s = Staked)) as [(-> & -> & ->)|Hn].
  - rewrite decide_True by done. rewrite !bool_decide_eq_true_2 by done. simpl.
    destruct v, (GetData w b (getDetailKey src u Staked)); simpl; lia.
  - case_decide; [|lia]. destruct (bool_decide (t = u) && bool_decide (s = Staked)) eqn:E.
    + rewrite andb_true_iff, !bool_decide_eq_true in E. tauto.
    + rewrite !option_sum_zero by done. lia.
Qed.
Lemma total_wdetail a src t s v w :
  getProposalTotalStake (write a (getDetailKey src t s) v w) = getProposalTotalStake w.
Proof. rewrite getProposalTotalStake_write. case_decide as E; [|done]. by destruct E. Qed.
Lemma inPool_wdetail a src t s v w u b :
  inPool (write a (getDetailKey src t s) v w) (poolPrefix u) b <-> inPool w (poolPrefix u) b.
Proof.
  rewrite inPool_write. case_decide as E; [|done]. destruct E as [_ E].
  unfold poolPrefix in E. by destruct (IsProposalRole u).
Qed.
Lemma proposalSum_wdetail a src t s v w :
  proposalSum (write a (getDetailKey src t s) v w) = proposalSum w.
Proof. rewrite proposalSum_write, !option_sum_zero; [lia|done|done]. Qed.

(** *** Writing an entry of the pool account, or a neutral one *)

Definition plain (k : bytes) : Prop := minerKeyType k = None /\ detailKeyParts k = None.

Lemma plain_total : plain KeyPoolProposalTotalStake.
Proof. by split. Qed.
Lemma plain_pool t a : plain (getPoolKey (poolPrefix t) a).
Proof. unfold poolPrefix. by destruct (IsProposalRole t); split. Qed.
Lemma neutral_plain a k : neutral a k -> plain k.
Proof. intros (? & ? & _). by split. Qed.

Lemma minerAt_wplain a k v w b u : plain k -> minerAt (write a k v w) b u = minerAt w b u.
Proof.
  intros [Hk _]. rewrite minerAt_write. case_decide as E; [|done].
  destruct E as [_ ->]. done.
Qed.
Lemma detailAt_wplain a k v w b src u s :
  plain k -> detailAt (write a k v w) b src u s = detailAt w b src u s.
Proof.
  intros [_ Hk]. rewrite detailAt_write. case_decide as E; [|done].
  destruct E as [_ ->]. by rewrite detailKeyParts_detail in Hk.
Qed.
Lemma locked_wplain a k v w : plain k -> locked (write a k v w) = locked w.
Proof.
  intros [_ Hk]. rewrite locked_write, !option_sum_zero; [lia| |];
    intros; by apply lockedOf_nondetail.
Qed.
Lemma stakedSum_wplain a k v w b u : plain k -> stakedSum (write a k v w) b u = stakedSum w b u.
Proof.
  intros [_ Hk]. rewrite stakedSum_write, !option_sum_zero by (intros; by apply stakedOf_nondetail).
  case_decide; lia.
Qed.
Lemma proposalSum_wplain a k v w : plain k -> proposalSum (write a k v w) = proposalSum w.
Proof.
  intros [Hk _]. rewrite proposalSum_write, !option_sum_zero; [lia| |];
    intros; by apply activeOf_nonminer.
Qed.

Lemma total_wtotal x w :
  u64_ok x ->
  getProposalTotalStake (write MinerPoolAddr KeyPoolProposalTotalStake (Some (Uint64ToByte x)) w) = x.
Proof.
  intros Hx. rewrite getProposalTotalStake_write, decide_True by done.
  unfold readUint64, Uint64ToByte. rewrite BigEndian.put_length. simpl.
  by apply ByteToUInt64_Uint64ToByte.
Qed.
Lemma inPool_wtotal v w u b :
  inPool (write MinerPoolAddr KeyPoolProposalTotalStake v w) (poolPrefix u) b <->
  inPool w (poolPrefix u) b.
Proof.
  rewrite inPool_write. case_decide as E; [|done]. destruct E as [_ E].
  unfold poolPrefix in E. by destruct (IsProposalRole u).
Qed.
Lemma total_wpool t a v w :
  getProposalTotalStake (write MinerPoolAddr (getPoolKey (poolPrefix t) a) v w) =
  getProposalTotalStake w.
Proof.
  rewrite getProposalTotalStake_write. case_decide as E; [|done]. destruct E as [_ E].
  unfold poolPrefix in E. by destruct (IsProposalRole t).
Qed.

Definition role (t : Byte.byte) : Prop := t = MinerTypeVerify \/ t = MinerTypeProposal.

Lemma inPool_wpool t a v w u b :
  role t -> role u ->
  inPool (write MinerPoolAddr (getPoolKey (poolPrefix t) a) v w) (poolPrefix u) b <->
  if decide (a = b /\ t = u) then is_Some v else inPool w (poolPrefix u) b.
Proof.
  intros Ht Hu. rewrite inPool_write.
  destruct (decide (a = b /\ t = u)) as [[-> ->]|Hn]; [by rewrite decide_True|].
  rewrite decide_False; [done|]. intros [_ E].
  destruct Ht as [->| ->], Hu as [->| ->];
    try (by apply getPoolKey_inj in E; naive_solver); discriminate E.
Qed.

Lemma total_wneutral a k v w :
  neutral a k -> getProposalTotalStake (write a k v w) = getProposalTotalStake w.
Proof.
  intros (_ & _ & Hk). rewrite getProposalTotalStake_write. case_decide as E; [|done].
  destruct E as [-> ->]. by specialize (Hk eq_refl).
Qed.
Lemma inPool_wneutral a k v w u b :
  neutral a k -> inPool (write a k v w) (poolPrefix u) b <-> inPool w (poolPrefix u) b.
Proof.
  intros (_ & _ & Hk). rewrite inPool_write. case_decide as E; [|done].
  destruct E as [-> ->]. specialize (Hk eq_refl). unfold poolPrefix in Hk.
  destruct (poolKey_pool b) as [Hp Hv]. destruct (IsProposalRole u); congruence.
Qed.

(** *** Balance changes *)

Lemma minerAt_AddBalance a x w b u : minerAt (AddBalance a x w) b u = minerAt w b u.
Proof. unfold minerAt. by rewrite GetData_AddBalance. Qed.
Lemma minerAt_SubBalance a x w b u : minerAt (SubBalance a x w) b u = minerAt w b u.
Proof. unfold minerAt. by rewrite GetData_SubBalance. Qed.
Lemma detailAt_AddBalance a x w b src u s :
  detailAt (AddBalance a x w) b src u s = detailAt w b src u s.
Proof. unfold detailAt. by rewrite GetData_AddBalance. Qed.
Lemma detailAt_SubBalance a x w b src u s :
  detailAt (SubBalance a x w) b src u s = detailAt w b src u s.
Proof. unfold detailAt. by rewrite GetData_SubBalance. Qed.
Lemma total_AddBalance a x w : getProposalTotalStake (AddBalance a x w) = getProposalTotalStake w.
Proof. unfold getProposalTotalStake. by rewrite GetData_AddBalance. Qed.
Lemma total_SubBalance a x w : getProposalTotalStake (SubBalance a x w) = getProposalTotalStake w.
Proof. unfold getProposalTotalStake. by rewrite GetData_SubBalance. Qed.
Lemma inPool_AddBalance a x w p b : inPool (AddBalance a x w) p b <-> inPool w p b.
Proof. unfold inPool. by rewrite GetData_AddBalance. Qed.
Lemma inPool_SubBalance a x w p b : inPool (SubBalance a x w) p b <-> inPool w p b.
Proof. unfold inPool. by rewrite GetData_SubBalance. Qed.
End ledger.

Create Rewrite HintDb ledger.
#[export] Hint Rewrite @minerAt_wminer @detailAt_wminer @locked_wminer @stakedSum_wminer
  @total_wminer @inPool_wminer @proposalSum_wminer
  @minerAt_wdetail @detailAt_wdetail @locked_wdetail @stakedSum_wdetail @total_wdetail
  @inPool_wdetail @proposalSum_wdetail
  @total_wpool @inPool_wtotal
  @minerAt_AddBalance @minerAt_SubBalance @detailAt_AddBalance @detailAt_SubBalance
  @total_AddBalance @total_SubBalance @inPool_AddBalance @inPool_SubBalance
  @locked_AddBalance @locked_SubBalance @proposalSum_AddBalance @proposalSum_SubBalance
  @stakedSum_AddBalance @stakedSum_SubBalance
  GetBalance_AddBalance GetBalance_SubBalance
  total_balance_AddBalance total_balance_SubBalance
  @total_balance_write @GetBalance_write : ledger.
#[export] Hint Rewrite @minerAt_wplain @detailAt_wplain @locked_wplain @stakedSum_wplain
  @proposalSum_wplain using (first [apply plain_total | apply plain_pool]) : ledger.
