(* ===== verification/MinerInv.v ===== *)
(** * MinerInv: the invariant of the miner ledger

    What the miner operations of [MinerOps.v] keep true of the state: no coin is
    created or lost between balances, stakes and withdrawals; a miner's stake is
    the sum of the stake details kept in its account; the recorded proposal
    total is the sum of the active proposers' stakes; a miner is in its role's
    pool exactly when it is active.  With the invariant no user transaction
    reaches one of the [panic]s the source marks "must not happen". *)
From S2P Require Import Prelude Bytes World Types MinerBase MinerOps MinerView.
Local Open Scope Z_scope.

(** ** Specifications of the accessors *)

Section specs.
Context `{MinerCodecLaws} (pn : Prop).
Implicit Types (w : World) (a src : Address) (t s : Byte.byte).

Lemma wp_decodeOpt {A} `{Codec A} data w (Q : option A -> World -> Prop) :
  Q (decodeView data) w -> wp pn (decodeOpt data) w Q.
Proof.
  unfold decodeOpt, decodeView. intros HQ. by wsteps.
Qed.

Lemma wp_getMiner a t w Q : Q (minerAt w a t) w -> wp pn (getMiner a t) w Q.
Proof. unfold getMiner. intros HQ. wsteps. by apply wp_decodeOpt. Qed.

Lemma wp_getDetail a src t s w Q :
  Q (detailAt w a src t s) w -> wp pn (getDetail a (getDetailKey src t s)) w Q.
Proof. unfold getDetail. intros HQ. wsteps. by apply wp_decodeOpt. Qed.

Lemma wp_store {A} `{CodecLaws A} a k (x : A) w Q :
  (forall bs, decodeView (Some bs) = Some x -> Q tt (write a k (Some bs) w)) ->
  wp pn (store a k x) w Q.
Proof. unfold store. intros HQ. wsteps. by apply HQ, decodeView_marshal. Qed.

Lemma wp_setMiner m a w Q :
  m_ID m = b32_bytes a ->
  (forall bs, decodeView (Some bs) = Some m -> Q tt (write a (getMinerKey (m_Type m)) (Some bs) w)) ->
  wp pn (setMiner m) w Q.
Proof. unfold setMiner. intros -> HQ. rewrite BytesToAddress_bytes. by apply wp_store. Qed.

Lemma wp_setDetail a k d w Q :
  (forall bs, decodeView (Some bs) = Some d -> Q tt (write a k (Some bs) w)) ->
  wp pn (setDetail a k d) w Q.
Proof. apply wp_store. Qed.

Lemma wp_removeDetail a k w Q : Q tt (write a k None w) -> wp pn (removeDetail a k) w Q.
Proof. done. Qed.

Definition wtotal (x : Z) : World -> World :=
  write MinerPoolAddr KeyPoolProposalTotalStake (Some (Uint64ToByte x)).
Definition wpool (t : Byte.byte) (a : Address) (v : option bytes) : World -> World :=
  write MinerPoolAddr (getPoolKey (poolPrefix t) a) v.

Lemma total_ok w : u64_ok (getProposalTotalStake w).
Proof.
  unfold getProposalTotalStake, readUint64.
  destruct (GetData _ _ _) as [d|]; [|done]. destruct (0 <? length d)%nat; [|done].
  auto with zv.
Qed.

Lemma wp_addProposalTotalStake x w Q :
  0 <= x -> x + getProposalTotalStake w < two64 ->
  Q tt (wtotal (x + getProposalTotalStake w) w) -> wp pn (addProposalTotalStake x) w Q.
Proof.
  intros Hx Hb HQ. unfold addProposalTotalStake, setProposalTotalStake.
  pose proof (total_ok w) as Ht. unfold u64_ok in Ht.
  wsteps; rewrite wrap64_id in * by (unfold u64_ok; lia); [lia|done].
Qed.

Lemma wp_subProposalTotalStake x w Q :
  0 <= x <= getProposalTotalStake w ->
  Q tt (wtotal (getProposalTotalStake w - x) w) -> wp pn (subProposalTotalStake x) w Q.
Proof.
  intros Hx HQ. unfold subProposalTotalStake, setProposalTotalStake.
  wsteps; [lia|]. by rewrite wrap64_sub_small by (apply total_ok || lia).
Qed.

(** What entering or leaving the pool does to the state. *)
Definition enter t a x w : World :=
  wpool t a (Some [Byte.x01])
    (if decide (t = MinerTypeProposal) then wtotal (x + getProposalTotalStake w) w else w).
Definition leave t a x w : World :=
  wpool t a None
    (if decide (t = MinerTypeProposal) then wtotal (getProposalTotalStake w - x) w else w).

Lemma wp_removeFromPool t a x w Q :
  role t -> (t = MinerTypeProposal -> 0 <= x <= getProposalTotalStake w) ->
  Q tt (leave t a x w) -> wp pn (removeFromPool t a x) w Q.
Proof.
  intros Hr Hx HQ. unfold removeFromPool, setProposalTotalStake, leave in *.
  destruct Hr as [->| ->]; simpl in *; [done|]. specialize (Hx eq_refl).
  wsteps; [lia|]. by rewrite wrap64_sub_small by (apply total_ok || lia).
Qed.

Lemma wp_addToPool t a x w Q :
  role t -> (t = MinerTypeProposal -> 0 <= x /\ x + getProposalTotalStake w < two64) ->
  Q tt (enter t a x w) -> wp pn (addToPool t a x) w Q.
Proof.
  intros Hr Hx HQ. unfold addToPool, enter in *.
  destruct Hr as [->| ->]; simpl in *; [done|]. destruct (Hx eq_refl).
  wsteps. apply wp_addProposalTotalStake; [done..|]. by wsteps.
Qed.

Lemma wp_reduceBalance a x w (Q : unit -> World -> Prop) :
  (x <= 0 -> Q tt w) -> (0 < x <= GetBalance w a -> Q tt (SubBalance a x w)) ->
  wp pn (reduceBalance a x) w Q.
Proof.
  intros H1 H2. unfold reduceBalance, needTransfer, CanTransfer. wsteps; [|apply H1; lia].
  apply H2. destruct (Z.ltb_spec x 0); [done|lia].
Qed.
End specs.

(** ** The invariant

    [S] is the number of coins in existence.  An operation moves coins in
    several writes; between them [eps] coins are in no account and the stake of
    role [t] of account [a] is [delta] ahead of its details.  [MinerInv] is the
    balanced case. *)

Definition isActiveAt `{MinerCodecs} (w : World) (a : Address) (t : Byte.byte) : bool :=
  from_option IsActive false (minerAt w a t).

Lemma activeStake_at `{MinerCodecs} (w : World) (a : Address) (t : Byte.byte) :
  activeStake (minerAt w a t) = if isActiveAt w a t then stakeAt w a t else 0.
Proof. unfold isActiveAt, stakeAt. by destruct (minerAt w a t). Qed.

Record LedgerInv `{MinerCodecs} (S : Z) (a : Address) (t : Byte.byte) (delta eps : Z) (w : World) : Prop := {
  li_supply : supply w + eps = S;
  li_bound : S < two64;
  li_bal b : 0 <= GetBalance w b;
  li_det b src u s d : detailAt w b src u s = Some d -> 0 <= sd_Value d;
  li_wf b u m : minerAt w b u = Some m -> m_ID m = b32_bytes b /\ m_Type m = u;
  li_stake b u :
    stakeAt w b u = stakedSum w b u + (if decide (b = a /\ u = t) then delta else 0);
  li_total : getProposalTotalStake w = proposalSum w;
  li_pool b u : role u -> inPool w (poolPrefix u) b <-> isActiveAt w b u = true;
  li_self b src d : detailAt w b src MinerTypeVerify Staked = Some d -> src = b;
}.

Definition MinerInv `{MinerCodecs} (S : Z) (w : World) : Prop :=
  LedgerInv S zeroB32 MinerTypeVerify 0 0 w.

Section steps.
Context `{MinerCodecLaws}.
Implicit Types (w : World) (a b src : Address) (t u s : Byte.byte).

Lemma LedgerInv_focus S a t b u eps w :
  LedgerInv S a t 0 eps w -> LedgerInv S b u 0 eps w.
Proof.
  intros I. destruct I; constructor; auto. intros c r. rewrite li_stake0.
  repeat case_decide; lia.
Qed.

Lemma MinerInv_focus S w a t : MinerInv S w <-> LedgerInv S a t 0 0 w.
Proof. split; apply LedgerInv_focus. Qed.

Lemma LedgerInv_cast S a t delta eps delta' eps' w :
  LedgerInv S a t delta eps w -> delta = delta' -> eps = eps' -> LedgerInv S a t delta' eps' w.
Proof. by intros ? -> ->. Qed.

(** *** Bounds *)

Lemma total_balance_nonneg w : (forall b, 0 <= GetBalance w b) -> 0 <= total_balance w.
Proof.
  intros Hb. apply map_sum_nonneg. intros a o Ho. specialize (Hb a).
  unfold GetBalance in Hb. by rewrite Ho in Hb.
Qed.

Definition details_nonneg w : Prop :=
  forall b src u s d, detailAt w b src u s = Some d -> 0 <= sd_Value d.

Lemma entry_nonneg w a o k v src u s :
  details_nonneg w -> accounts w !! a = Some o -> Storage o !! k = Some v ->
  detailKeyParts k = Some (src, u, s) -> 0 <= detailVal (decodeView (Some v)).
Proof.
  intros Hd Ho Hk Hp. apply detailKeyParts_inv in Hp as ->.
  destruct (decodeView (Some v)) as [d|] eqn:E; [|done]. simpl.
  apply (Hd a src u s). unfold detailAt, GetData. rewrite Ho. simpl. by rewrite Hk.
Qed.

Lemma lockedOf_nonneg w a o k v :
  details_nonneg w -> accounts w !! a = Some o -> Storage o !! k = Some v -> 0 <= lockedOf k v.
Proof.
  intros Hd Ho Hk. unfold lockedOf. destruct (detailKeyParts k) as [[[src u] s]|] eqn:E; [|done].
  destruct (_ || _); [|done]. by eapply entry_nonneg.
Qed.

Lemma stakedOf_range w a o t k v :
  details_nonneg w -> accounts w !! a = Some o -> Storage o !! k = Some v ->
  0 <= stakedOf t k v <= lockedOf k v.
Proof.
  intros Hd Ho Hk. pose proof (lockedOf_nonneg w a o k v Hd Ho Hk) as Hl.
  unfold stakedOf, lockedOf in *. destruct (detailKeyParts k) as [[[src u] s]|] eqn:E; [|done].
  destruct (bool_decide (u = t)); cbn [andb]; [|lia].
  destruct (bool_decide (s = Staked)); cbn [orb] in *; lia.
Qed.

Lemma stakedSum_le_locked w a t : details_nonneg w -> stakedSum w a t <= locked w.
Proof.
  intros Hd. unfold stakedSum, locked, storage_sum.
  assert (forall b o, accounts w !! b = Some o -> 0 <= map_sum lockedOf (Storage o)) as Hn.
  { intros b o Ho. apply map_sum_nonneg. intros k v Hk. by eapply lockedOf_nonneg. }
  destruct (accounts w !! a) as [o|] eqn:Ho; simpl.
  - transitivity (map_sum lockedOf (Storage o)).
    + apply map_sum_le. intros k v Hk. by eapply stakedOf_range.
    + by apply (map_sum_lookup_le (fun _ o => map_sum lockedOf (Storage o)) _ a o).
  - by apply map_sum_nonneg.
Qed.

Lemma detail_le_stakedSum w a src t d :
  details_nonneg w -> detailAt w a src t Staked = Some d -> sd_Value d <= stakedSum w a t.
Proof.
  intros Hd Hdt. unfold stakedSum, detailAt, GetData in *.
  destruct (accounts w !! a) as [o|] eqn:Ho; [|done]. simpl in *.
  destruct (Storage o !! getDetailKey src t Staked) as [v|] eqn:Hk; [|done].
  transitivity (stakedOf t (getDetailKey src t Staked) v).
  - unfold stakedOf. rewrite detailKeyParts_detail, !bool_decide_eq_true_2 by done.
    simpl andb. cbv iota. rewrite Hdt. simpl. lia.
  - apply map_sum_lookup_le; [|done]. intros. by eapply stakedOf_range.
Qed.

Lemma stakedSum_nonneg w a t : details_nonneg w -> 0 <= stakedSum w a t.
Proof.
  intros Hd. unfold stakedSum. destruct (accounts w !! a) as [o|] eqn:Ho; [|done]. simpl.
  apply map_sum_nonneg. intros. by eapply stakedOf_range.
Qed.

Lemma detail_le_locked w a src t s d :
  details_nonneg w -> locks s = true -> detailAt w a src t s = Some d -> sd_Value d <= locked w.
Proof.
  intros Hd Hs Hdt. unfold detailAt, GetData in Hdt.
  destruct (accounts w !! a) as [o|] eqn:Ho; [|done]. simpl in *.
  destruct (Storage o !! getDetailKey src t s) as [v|] eqn:Hk; [|done].
  assert (lockedOf (getDetailKey src t s) v = sd_Value d) as <-.
  { unfold lockedOf. rewrite detailKeyParts_detail. unfold locks in Hs. rewrite Hs.
    by rewrite Hdt. }
  transitivity (map_sum lockedOf (Storage o)).
  - apply map_sum_lookup_le; [|done]. intros. by eapply lockedOf_nonneg.
  - apply (map_sum_lookup_le (fun _ o => map_sum lockedOf (Storage o)) _ a o); [|done].
    intros b o' Ho'. apply map_sum_nonneg. intros. by eapply lockedOf_nonneg.
Qed.

Lemma activeOf_sum w b o :
  accounts w !! b = Some o ->
  map_sum activeOf (Storage o) = activeStake (minerAt w b MinerTypeProposal).
Proof.
  intros Ho. change (map_sum activeOf (Storage o)) with
    (map_sum (fun k v => if bool_decide (k = getMinerKey MinerTypeProposal)
       then activeStake (decodeView (Some v)) else 0) (Storage o)).
  rewrite (map_sum_single (fun v => activeStake (decodeView (Some v)))).
  unfold minerAt, GetData. rewrite Ho. simpl. by destruct (Storage o !! _).
Qed.

Lemma ledger_details S a t delta eps w : LedgerInv S a t delta eps w -> details_nonneg w.
Proof. intros I. exact (li_det _ _ _ _ _ _ I). Qed.

Lemma ledger_locked S a t delta eps w :
  LedgerInv S a t delta eps w -> 0 <= locked w /\ locked w + eps <= S /\ S < two64.
Proof.
  intros I. pose proof (ledger_details _ _ _ _ _ _ I) as Hd.
  pose proof (total_balance_nonneg w (li_bal _ _ _ _ _ _ I)).
  pose proof (li_supply _ _ _ _ _ _ I) as Hs. unfold supply in Hs.
  pose proof (li_bound _ _ _ _ _ _ I).
  pose proof (stakedSum_nonneg w a t Hd). pose proof (stakedSum_le_locked w a t Hd). lia.
Qed.

Lemma ledger_detail_range S a t delta eps w b src u s d :
  LedgerInv S a t delta eps w -> detailAt w b src u s = Some d -> locks s = true ->
  0 <= sd_Value d <= locked w.
Proof.
  intros I Hd Hs. pose proof (ledger_details _ _ _ _ _ _ I) as Hn.
  split; [by eapply Hn|by eapply detail_le_locked].
Qed.

Section bounds.
Context S a t eps w (I : LedgerInv S a t 0 eps w).
Let Hdet : details_nonneg w := ledger_details _ _ _ _ _ _ I.

Lemma ledger_stake b u : stakeAt w b u = stakedSum w b u.
Proof. rewrite (li_stake _ _ _ _ _ _ I). case_decide; lia. Qed.

Lemma ledger_stake_range b u : 0 <= stakeAt w b u <= locked w.
Proof.
  rewrite ledger_stake.
  pose proof (stakedSum_nonneg w b u). pose proof (stakedSum_le_locked w b u). auto.
Qed.

Lemma ledger_miner_stake b u m : minerAt w b u = Some m -> 0 <= m_Stake m <= locked w.
Proof. intros Hm. pose proof (ledger_stake_range b u) as Hr. unfold stakeAt in Hr. by rewrite Hm in Hr. Qed.

Lemma ledger_active_range b :
  0 <= activeStake (minerAt w b MinerTypeProposal) <= stakeAt w b MinerTypeProposal.
Proof.
  pose proof (ledger_stake_range b MinerTypeProposal) as Hr. unfold stakeAt in *.
  destruct (minerAt w b MinerTypeProposal) as [m|]; simpl in *; [|lia]. destruct (IsActive m); lia.
Qed.

Lemma ledger_active_le b :
  activeStake (minerAt w b MinerTypeProposal) <= getProposalTotalStake w.
Proof.
  rewrite (li_total _ _ _ _ _ _ I). unfold proposalSum, storage_sum.
  assert (forall c o, accounts w !! c = Some o -> 0 <= map_sum activeOf (Storage o)) as Hp.
  { intros c o Ho. rewrite (activeOf_sum w c o Ho). apply ledger_active_range. }
  destruct (accounts w !! b) as [o|] eqn:Ho.
  - rewrite <- (activeOf_sum w b o Ho).
    by apply (map_sum_lookup_le (fun _ o => map_sum activeOf (Storage o)) _ b o).
  - unfold minerAt, GetData. rewrite Ho. simpl. by apply map_sum_nonneg.
Qed.

(** The stakes of the active proposers and of one idle proposer are covered
    by locked coins. *)
Lemma ledger_total_le b :
  getProposalTotalStake w - activeStake (minerAt w b MinerTypeProposal)
    + stakeAt w b MinerTypeProposal <= locked w.
Proof.
  rewrite (li_total _ _ _ _ _ _ I). unfold proposalSum, locked, storage_sum.
  set (c := stakeAt w b MinerTypeProposal - activeStake (minerAt w b MinerTypeProposal)).
  transitivity (map_sum (fun d o => map_sum activeOf (Storage o) +
                           (if bool_decide (d = b) then c else 0)) (accounts w)).
  - rewrite map_sum_add, (map_sum_single (fun _ => c)).
    destruct (accounts w !! b) eqn:Ho; simpl; [unfold c; lia|].
    unfold stakeAt, minerAt, GetData. rewrite Ho. simpl. lia.
  - apply map_sum_le. intros d o Ho. rewrite (activeOf_sum w d o Ho).
    transitivity (stakeAt w d MinerTypeProposal).
    + pose proof (ledger_active_range d). unfold c. case_bool_decide; subst; lia.
    + rewrite ledger_stake. unfold stakedSum. rewrite Ho. simpl. apply map_sum_le.
      intros. by eapply stakedOf_range.
Qed.
End bounds.
End steps.

(** ** Steps between balanced states *)

Section transitions.
Context `{MinerCodecLaws}.
Implicit Types (w : World) (a b src : Address) (t u s : Byte.byte).

(** [w1] is [w] with the total changed by [d] and the membership of [a] in the
    pool of role [t] set to [act]. *)
Record PoolStep (w w1 : World) (a : Address) (t : Byte.byte) (d : Z) (act : bool) : Prop := {
  ps_miner b u : minerAt w1 b u = minerAt w b u;
  ps_detail b src u s : detailAt w1 b src u s = detailAt w b src u s;
  ps_locked : locked w1 = locked w;
  ps_staked b u : stakedSum w1 b u = stakedSum w b u;
  ps_prop : proposalSum w1 = proposalSum w;
  ps_bal b : GetBalance w1 b = GetBalance w b;
  ps_tb : total_balance w1 = total_balance w;
  ps_total : getProposalTotalStake w1 = getProposalTotalStake w + d;
  ps_pool b u : role u ->
    inPool w1 (poolPrefix u) b <->
    if decide (a = b /\ t = u) then act = true else inPool w (poolPrefix u) b;
}.

Ltac pool_step :=
  constructor; intros; unfold wpool, wtotal; autorewrite with ledger; try done.

Lemma PoolStep_refl w a t act :
  (role t -> inPool w (poolPrefix t) a <-> act = true) -> PoolStep w w a t 0 act.
Proof. intros Hp. constructor; intros; try done; [lia|]. case_decide; naive_solver. Qed.

Lemma PoolStep_cast w w1 a t d d' act act' :
  PoolStep w w1 a t d act -> d = d' -> act = act' -> PoolStep w w1 a t d' act'.
Proof. by intros ? -> ->. Qed.

Lemma PoolStep_total w a t x act :
  u64_ok x -> (role t -> inPool w (poolPrefix t) a <-> act = true) ->
  PoolStep w (wtotal x w) a t (x - getProposalTotalStake w) act.
Proof.
  intros Hx Hp. pool_step.
  - rewrite total_wtotal by done. lia.
  - case_decide; naive_solver.
Qed.

Lemma PoolStep_enter w a t x :
  role t -> (t = MinerTypeProposal -> 0 <= x /\ x + getProposalTotalStake w < two64) ->
  PoolStep w (enter t a x w) a t (if decide (t = MinerTypeProposal) then x else 0) true.
Proof.
  intros Hr Hx. pose proof (total_ok w) as Ht. unfold u64_ok in Ht. unfold enter.
  pose proof Hr as Hr'. destruct Hr as [->| ->]; simpl; pool_step.
  - lia.
  - rewrite inPool_wpool by done. case_decide; [|done]. naive_solver.
  - rewrite total_wtotal by (unfold u64_ok; specialize (Hx eq_refl); lia). lia.
  - rewrite inPool_wpool by done. case_decide; [naive_solver|]. by rewrite inPool_wtotal.
Qed.

Lemma PoolStep_leave w a t x :
  role t -> (t = MinerTypeProposal -> 0 <= x <= getProposalTotalStake w) ->
  PoolStep w (leave t a x w) a t (if decide (t = MinerTypeProposal) then - x else 0) false.
Proof.
  intros Hr Hx. pose proof (total_ok w) as Ht. unfold u64_ok in Ht. unfold leave.
  pose proof Hr as Hr'. destruct Hr as [->| ->]; simpl; pool_step.
  - lia.
  - rewrite inPool_wpool by done. case_decide; [|done]. rewrite is_Some_alt. done.
  - rewrite total_wtotal by (unfold u64_ok; specialize (Hx eq_refl); lia). lia.
  - rewrite inPool_wpool by done. case_decide; [by rewrite is_Some_alt|]. by rewrite inPool_wtotal.
Qed.

(** The miner of [a] in role [t] becomes [m]. *)
Lemma LedgerInv_miner S a t delta eps w w1 d act m bs :
  LedgerInv S a t delta eps w -> PoolStep w w1 a t d act -> role t ->
  m_ID m = b32_bytes a -> m_Type m = t -> act = IsActive m ->
  d = (if decide (t = MinerTypeProposal) then activeStake (Some m) - activeStake (minerAt w a t) else 0) ->
  decodeView (Some bs) = Some m ->
  LedgerInv S a t (delta + m_Stake m - stakeAt w a t) eps (write a (getMinerKey t) (Some bs) w1).
Proof.
  intros I P Hr Hid Hty -> Hd Hbs.
  assert (forall b u, minerAt (write a (getMinerKey t) (Some bs) w1) b u =
    if decide (a = b /\ t = u) then Some m else minerAt w b u) as Hm.
  { intros b u. rewrite minerAt_wminer, Hbs, (ps_miner _ _ _ _ _ _ P). done. }
  constructor; intros; unfold supply; autorewrite with ledger.
  - rewrite (ps_locked _ _ _ _ _ _ P), (ps_tb _ _ _ _ _ _ P). apply (li_supply _ _ _ _ _ _ I).
  - apply (li_bound _ _ _ _ _ _ I).
  - rewrite (ps_bal _ _ _ _ _ _ P). apply (li_bal _ _ _ _ _ _ I).
  - match goal with E : detailAt _ _ _ _ _ = _ |- _ =>
      rewrite detailAt_wminer, (ps_detail _ _ _ _ _ _ P) in E; exact (li_det _ _ _ _ _ _ I _ _ _ _ _ E) end.
  - match goal with E : minerAt _ _ _ = _ |- _ => rewrite Hm in E; revert E end.
    destruct (decide (a = b /\ t = u)) as [[-> ->]|_]; [|apply (li_wf _ _ _ _ _ _ I)]. intros. by simplify_eq.
  - rewrite (ps_staked _ _ _ _ _ _ P). unfold stakeAt at 1. rewrite Hm.
    pose proof (li_stake _ _ _ _ _ _ I b u) as Hs. unfold stakeAt in *.
    destruct (decide (a = b /\ t = u)) as [[-> ->]|Hne].
    + rewrite decide_True in Hs |- * by done. simpl. lia.
    + rewrite decide_False in Hs |- * by naive_solver. done.
  - rewrite (ps_total _ _ _ _ _ _ P), (ps_prop _ _ _ _ _ _ P), (ps_miner _ _ _ _ _ _ P), Hbs, Hd.
    rewrite (li_total _ _ _ _ _ _ I). done.
  - rewrite (ps_pool _ _ _ _ _ _ P) by done. unfold isActiveAt. rewrite Hm.
    destruct (decide (a = b /\ t = u)); [done|]. by apply (li_pool _ _ _ _ _ _ I).
  - match goal with E : detailAt _ _ _ _ _ = _ |- _ =>
      rewrite detailAt_wminer, (ps_detail _ _ _ _ _ _ P) in E; exact (li_self _ _ _ _ _ _ I _ _ _ E) end.
Qed.

(** A stake detail of [a] becomes [v]; the coins it gains leave [eps]. *)
Lemma LedgerInv_detail S a t delta eps w src s v :
  LedgerInv S a t delta eps w ->
  (forall d, decodeView v = Some d -> 0 <= sd_Value d) ->
  (t = MinerTypeVerify -> s = Staked -> is_Some (@decodeView stakeDetail _ v) -> src = a) ->
  let gain := detailVal (decodeView v) - detailVal (detailAt w a src t s) in
  LedgerInv S a t (delta - if decide (s = Staked) then gain else 0)
    (eps - if locks s then gain else 0) (write a (getDetailKey src t s) v w).
Proof.
  intros I Hv Hself gain.
  constructor; intros; unfold supply; autorewrite with ledger.
  - rewrite <- (li_supply _ _ _ _ _ _ I). unfold supply, gain. destruct (locks s); lia.
  - apply (li_bound _ _ _ _ _ _ I).
  - apply (li_bal _ _ _ _ _ _ I).
  - lazymatch goal with E : detailAt _ _ _ _ _ = _ |- _ =>
      rewrite detailAt_wdetail in E; revert E; case_decide as Hc; intros E;
      [by apply Hv|exact (li_det _ _ _ _ _ _ I _ _ _ _ _ E)] end.
  - match goal with E : minerAt _ _ _ = _ |- _ => rewrite minerAt_wdetail in E; revert E end.
    apply (li_wf _ _ _ _ _ _ I).
  - unfold stakeAt. rewrite minerAt_wdetail. pose proof (li_stake _ _ _ _ _ _ I b u) as Hs.
    unfold stakeAt in Hs. rewrite Hs. unfold gain.
    destruct (decide (b = a /\ u = t)) as [[-> ->]|Hne].
    + destruct (decide (s = Staked)) as [->|Hs']; [rewrite decide_True by done; lia|].
      rewrite decide_False by tauto. lia.
    + rewrite decide_False by naive_solver. lia.
  - apply (li_total _ _ _ _ _ _ I).
  - unfold isActiveAt. rewrite minerAt_wdetail. by apply (li_pool _ _ _ _ _ _ I).
  - match goal with E : detailAt _ _ _ _ _ = _ |- _ =>
      rewrite detailAt_wdetail in E; revert E; case_decide as Hc; intros E;
      [|exact (li_self _ _ _ _ _ _ I _ _ _ E)] end.
    destruct Hc as (-> & <- & -> & ->). by apply Hself; [..|eexists].
Qed.

(** Coins leave or enter a balance. *)
Lemma LedgerInv_SubBalance S a t delta eps w b x :
  LedgerInv S a t delta eps w -> 0 <= x <= GetBalance w b ->
  LedgerInv S a t delta (eps + x) (SubBalance b x w).
Proof.
  intros I Hx. constructor; intros; unfold supply, stakeAt, isActiveAt in *; autorewrite with ledger in *.
  - rewrite <- (li_supply _ _ _ _ _ _ I). unfold supply. lia.
  - apply (li_bound _ _ _ _ _ _ I).
  - pose proof (li_bal _ _ _ _ _ _ I b0). case_decide; subst; lia.
  - by eapply (li_det _ _ _ _ _ _ I).
  - by apply (li_wf _ _ _ _ _ _ I).
  - apply (li_stake _ _ _ _ _ _ I).
  - apply (li_total _ _ _ _ _ _ I).
  - by apply (li_pool _ _ _ _ _ _ I).
  - by eapply (li_self _ _ _ _ _ _ I).
Qed.

Lemma LedgerInv_AddBalance S a t delta eps w b x :
  LedgerInv S a t delta eps w -> 0 <= x ->
  LedgerInv S a t delta (eps - x) (AddBalance b x w).
Proof.
  intros I Hx. constructor; intros; unfold supply, stakeAt, isActiveAt in *; autorewrite with ledger in *.
  - rewrite <- (li_supply _ _ _ _ _ _ I). unfold supply. lia.
  - apply (li_bound _ _ _ _ _ _ I).
  - pose proof (li_bal _ _ _ _ _ _ I b0). case_decide; subst; lia.
  - by eapply (li_det _ _ _ _ _ _ I).
  - by apply (li_wf _ _ _ _ _ _ I).
  - apply (li_stake _ _ _ _ _ _ I).
  - apply (li_total _ _ _ _ _ _ I).
  - by apply (li_pool _ _ _ _ _ _ I).
  - by eapply (li_self _ _ _ _ _ _ I).
Qed.

(** A neutral write. *)
Lemma LedgerInv_neutral S a t delta eps w b k v :
  LedgerInv S a t delta eps w -> neutral b k -> LedgerInv S a t delta eps (write b k v w).
Proof.
  intros I Hk. pose proof (neutral_plain _ _ Hk) as Hp.
  constructor; intros; unfold supply, stakeAt, isActiveAt in *.
  - rewrite total_balance_write, locked_wplain by done. apply (li_supply _ _ _ _ _ _ I).
  - apply (li_bound _ _ _ _ _ _ I).
  - rewrite GetBalance_write. apply (li_bal _ _ _ _ _ _ I).
  - rewrite detailAt_wplain in * by done. by eapply (li_det _ _ _ _ _ _ I).
  - rewrite minerAt_wplain in * by done. by apply (li_wf _ _ _ _ _ _ I).
  - rewrite minerAt_wplain, stakedSum_wplain by done. apply (li_stake _ _ _ _ _ _ I).
  - rewrite total_wneutral, proposalSum_wplain by done. apply (li_total _ _ _ _ _ _ I).
  - rewrite minerAt_wplain, inPool_wneutral by done. by apply (li_pool _ _ _ _ _ _ I).
  - rewrite detailAt_wplain in * by done. by eapply (li_self _ _ _ _ _ _ I).
Qed.
End transitions.
