(* ===== verification/MinerSafe.v ===== *)
(** * MinerSafe: every miner operation keeps the ledger balanced

    For each operation of [MinerOps.v]: run from a state that satisfies the
    invariant of [MinerInv.v] it returns an error or a state that satisfies it
    with the same number of coins; a user operation never panics. *)
From S2P Require Import Prelude Bytes World Types MinerBase MinerOps MinerView MinerInv.
Local Open Scope Z_scope.

Section stake_add.
Context `{MinerCodecLaws} `{ChainEnv}.
Implicit Types (w : World) (op : stakeAddOp).

Lemma wp_checkStakeAdd pn k op w (Q : unit -> World -> Prop) :
  ((k = VerifyMiner -> sa_addSource op = sa_addTarget op) -> Q tt w) ->
  wp pn (checkStakeAdd k op) w Q.
Proof.
  intros HQ. unfold checkStakeAdd, VerifyMiner_checkStakeAdd, NormalProposalMiner_checkStakeAdd,
    GuardProposalMiner_checkStakeAdd, MinerPoolProposalMiner_checkStakeAdd, unSupported.
  destruct k; wsteps; try (apply wp_getMiner; wsteps); try (by apply HQ).
  apply HQ. intros _. by apply dec_stable.
Qed.

(** The miner a stake operation works on, with its stake moved by [v]. *)
Record grown (w : World) (a : Address) (t : Byte.byte) (v : Z) (m : Miner) : Prop := {
  gr_id : m_ID m = b32_bytes a;
  gr_type : m_Type m = t;
  gr_stake : m_Stake m = stakeAt w a t + v;
  gr_active : IsActive m = isActiveAt w a t;
}.

Lemma wp_stakeAddMiner S eps op w :
  let a := sa_addTarget op in let t := sa_minerType op in
  LedgerInv S a t 0 eps w -> 0 <= sa_value op <= eps ->
  wp False (stakeAddMiner op (minerAt w a t)) w
    (fun m w' => w' = w /\ grown w a t (sa_value op) m).
Proof.
  intros a t I Hv. pose proof (ledger_locked _ _ _ _ _ _ I) as Hl. unfold stakeAddMiner.
  destruct (minerAt w a t) as [m|] eqn:Hm; wsteps.
  - pose proof (ledger_miner_stake _ _ _ _ _ I _ _ _ Hm) as Hs.
    destruct (li_wf _ _ _ _ _ _ I _ _ _ Hm) as [Hid Hty].
    rewrite wrap64_id by (unfold u64_ok; lia).
    split; [done|]. constructor; simpl; auto; unfold stakeAt, isActiveAt; by rewrite Hm.
  - split; [done|]. constructor; simpl; auto; unfold stakeAt, isActiveAt; by rewrite Hm.
Qed.

Lemma setPks_grown w a t v m pks : grown w a t v m -> grown w a t v (setPks m pks).
Proof. by intros []; constructor. Qed.

(** What the pool update must achieve for the miner that is stored next. *)
Definition pooled (w w' : World) (a : Address) (t : Byte.byte) (m : Miner) : Prop :=
  PoolStep w w' a t
    (if decide (t = MinerTypeProposal) then activeStake (Some m) - activeStake (minerAt w a t) else 0)
    (IsActive m).

Lemma wp_stakeAddActivate S eps op w m :
  let a := sa_addTarget op in let t := sa_minerType op in
  LedgerInv S a t 0 eps w -> role t -> 0 <= sa_value op <= eps -> grown w a t (sa_value op) m ->
  wp False (stakeAddActivate op m) w
    (fun m' w' => pooled w w' a t m' /\ m_ID m' = m_ID m /\ m_Type m' = m_Type m /\ m_Stake m' = m_Stake m).
Proof.
  intros a t I Hr Hv G. pose proof (ledger_locked _ _ _ _ _ _ I) as Hl.
  assert (role t -> inPool w (poolPrefix t) a <-> IsActive m = true) as Hpool.
  { intros _. rewrite (gr_active _ _ _ _ _ G). by apply (li_pool _ _ _ _ _ _ I). }
  pose proof (gr_stake _ _ _ _ _ G) as Hst. pose proof (gr_active _ _ _ _ _ G) as Hact.
  assert (t = MinerTypeProposal -> getProposalTotalStake w
    - (if IsActive m then stakeAt w a t else 0) + stakeAt w a t <= locked w) as Ht.
  { intros Et. rewrite Hact, <- activeStake_at, Et. by eapply ledger_total_le. }
  pose proof (ledger_stake_range _ _ _ _ _ I a t) as Hs.
  unfold stakeAddActivate, pooled. fold a t.
  rewrite activeStake_at, <- Hact. destruct (IsActive m) eqn:Ha.
  - wsteps.
    + assert (t = MinerTypeProposal) as Et by (by destruct Hr as [->| ->]).
      specialize (Ht Et).
      apply wp_addProposalTotalStake; [lia..|]. wsteps. split_and!; try done. simpl.
      rewrite Ha, decide_True by done.
      eapply PoolStep_cast; [apply PoolStep_total; [|exact Hpool]|lia|done].
      pose proof (total_ok w). unfold u64_ok in *. lia.
    + split_and!; try done. rewrite Ha, decide_False by (by intros ->). by apply PoolStep_refl.
  - wsteps.
    + apply wp_addToPool; [done|intros Et; specialize (Ht Et); lia|]. wsteps. split_and!; try done. simpl.
      eapply PoolStep_cast; [apply PoolStep_enter; [done|intros Et; specialize (Ht Et); lia]|case_decide; lia|done].
    + split_and!; try done. simpl. rewrite Ha.
      eapply PoolStep_cast; [by apply PoolStep_refl|case_decide; lia|done].
Qed.

Lemma wp_stakeAddDetail S op w :
  let a := sa_addTarget op in let t := sa_minerType op in
  LedgerInv S a t (sa_value op) (sa_value op) w -> 0 <= sa_value op ->
  (t = MinerTypeVerify -> sa_addSource op = a) ->
  wp False (stakeAddDetail op) w (fun _ w' => MinerInv S w').
Proof.
  intros a t I Hv Hself. pose proof (ledger_locked _ _ _ _ _ _ I) as Hl.
  unfold stakeAddDetail. fold a t. wsteps. apply wp_getDetail.
  assert (forall v d, decodeView (Some v) = Some d ->
    sd_Value d = detailVal (detailAt w a (sa_addSource op) t Staked) + sa_value op ->
    MinerInv S (write a (getDetailKey (sa_addSource op) t Staked) (Some v) w)) as Hstep.
  { intros v d Hd Hval. apply (MinerInv_focus _ _ a t).
    eapply LedgerInv_cast; [apply (LedgerInv_detail _ _ _ _ _ _ _ Staked (Some v) I)|..].
    - intros d' Hd'. simplify_eq. rewrite Hval. unfold detailVal.
      destruct (detailAt _ _ _ _ _) eqn:E; simpl; [|lia].
      pose proof (ledger_details _ _ _ _ _ _ I _ _ _ _ _ E). lia.
    - intros. by apply Hself.
    - rewrite Hd. simpl. rewrite Hval. lia.
    - rewrite Hd. simpl. rewrite Hval. lia. }
  destruct (detailAt _ _ _ _ _) as [d|] eqn:E; wsteps; apply wp_setDetail; intros bs Hbs;
    eapply Hstep; try done; simpl.
  pose proof (ledger_detail_range _ _ _ _ _ _ _ _ _ _ _ I E eq_refl).
  rewrite wrap64_id by (unfold u64_ok; lia). done.
Qed.

Lemma stakeAdd_inv S op w :
  MinerInv S w -> role (sa_minerType op) -> 0 <= sa_value op ->
  wp False (stakeAdd_Transition op) w (fun _ w' => MinerInv S w').
Proof.
  set (a := sa_addTarget op). set (t := sa_minerType op). intros I Hr Hv.
  apply (MinerInv_focus _ _ a t) in I. unfold stakeAdd_Transition. fold a t.
  wsteps. apply wp_getMiner. wsteps. apply wp_checkStakeAdd. intros Hself.
  set (k := geneBaseIdentityOp t (minerAt w a t)) in *.
  assert (t = MinerTypeVerify -> sa_addSource op = a) as Hself'.
  { intros Et. apply Hself. unfold k, geneBaseIdentityOp. by rewrite bool_decide_eq_true_2. }
  assert (forall w1, LedgerInv S a t 0 (sa_value op) w1 -> minerAt w1 a t = minerAt w a t ->
    wp False (m0 <- stakeAddMiner op (minerAt w a t) ;;
      let m1 := if decide (a = sa_addSource op) then setPks m0 (sa_minerPks op) else m0 in
      guard (upperBoundOf k m1 (sa_height op)) (errOf "stake more than upper bound" RSMinerStakeOverLimit) ;;;
      m2 <- stakeAddActivate op m1 ;; setMiner m2 ;;; stakeAddDetail op)%zv w1
      (fun _ w' => MinerInv S w')) as Hmain.
  { intros w1 I1 <-. wsteps. eapply wp_mono; [by eapply wp_stakeAddMiner|]. simpl.
    intros m0 w2 [-> G0]. set (m1 := if decide _ then _ else _).
    assert (grown w1 a t (sa_value op) m1) as G1
      by (unfold m1; case_decide; [by apply setPks_grown|done]).
    wsteps. eapply wp_mono; [by eapply wp_stakeAddActivate|]. simpl. fold a t.
    intros m2 w2 (P & Hid & Hty & Hst). wsteps.
    destruct G1 as [Gid Gty Gst _]. rewrite Gid in Hid. rewrite Gty in Hty. rewrite Gst in Hst.
    eapply (wp_setMiner _ _ a); [done|]. intros bs Hbs. eapply wp_stakeAddDetail; [|done..].
    rewrite Hty. eapply LedgerInv_cast; [by eapply LedgerInv_miner|fold a t; lia|done]. }
  unfold processStakeAdd, BaseMiner_processStakeAdd. fold a. destruct k; try apply wp_fail;
    (apply wp_bind, wp_reduceBalance; intros Hx; (apply Hmain;
     [eapply LedgerInv_cast; [first [apply LedgerInv_SubBalance; [exact I|lia]|exact I]|done|lia]
     |by autorewrite with ledger])).
Qed.
End stake_add.

(** ** Leaving the pool: abort, freeze *)

Section leaving.
Context `{MinerCodecLaws} `{ChainEnv}.
Implicit Types (w : World) (a : Address) (t : Byte.byte) (m : Miner).

Lemma wp_leavePool pn S a t eps w m :
  LedgerInv S a t 0 eps w -> role t -> minerAt w a t = Some m ->
  wp pn (if IsActive m then removeFromPool t a (m_Stake m) else ret tt) w
    (fun _ w' => PoolStep w w' a t
      (if decide (t = MinerTypeProposal) then - activeStake (minerAt w a t) else 0) false).
Proof.
  intros I Hr Hm.
  assert (t = MinerTypeProposal -> activeStake (Some m) <= getProposalTotalStake w) as Ht.
  { intros Et. rewrite <- Hm, Et. by eapply ledger_active_le. }
  pose proof (ledger_miner_stake _ _ _ _ _ I _ _ _ Hm) as Hs.
  rewrite Hm. simpl in *. destruct (IsActive m) eqn:Ha.
  - apply wp_removeFromPool; [done|intros Et; specialize (Ht Et); lia|].
    apply PoolStep_leave; [done|intros Et; specialize (Ht Et); lia].
  - wsteps. eapply PoolStep_cast; [apply (PoolStep_refl _ _ _ false)|by case_decide|done].
    intros _. rewrite (li_pool _ _ _ _ _ _ I) by done. unfold isActiveAt. by rewrite Hm, <- Ha.
Qed.

(** An inactive miner is stored once its pool entry is gone. *)
Lemma wp_storeInactive pn S a t delta eps w w1 m m' :
  LedgerInv S a t delta eps w -> role t -> minerAt w a t = Some m ->
  m_ID m' = m_ID m -> m_Type m' = m_Type m -> IsActive m' = false ->
  PoolStep w w1 a t
    (if decide (t = MinerTypeProposal) then - activeStake (minerAt w a t) else 0) false ->
  wp pn (setMiner m') w1
    (fun _ w' => LedgerInv S a t (delta + m_Stake m' - m_Stake m) eps w' /\
       forall b u, minerAt w' b u = if decide (a = b /\ t = u) then Some m' else minerAt w b u).
Proof.
  intros I Hr Hm Hid Hty Ha P. destruct (li_wf _ _ _ _ _ _ I _ _ _ Hm) as [Hid0 Hty0].
  rewrite Hid0 in Hid. rewrite Hty0 in Hty.
  apply (wp_setMiner _ _ a); [done|]. intros bs Hbs. rewrite Hty.
  split; [|intros; by rewrite minerAt_wminer, Hbs, (ps_miner _ _ _ _ _ _ P)].
  eapply LedgerInv_cast; [eapply LedgerInv_miner with (m := m'); try done|..].
  - simpl. by rewrite Ha.
  - unfold stakeAt. by rewrite Hm.
  - done.
Qed.

Lemma minerAbort_inv S op w :
  MinerInv S w -> role (ab_minerType op) ->
  wp False (minerAbort_Transition op) w (fun _ w' => MinerInv S w').
Proof.
  set (a := ab_addr op). set (t := ab_minerType op). intros I Hr.
  apply (MinerInv_focus _ _ a t) in I. unfold minerAbort_Transition, processMinerAbort, BaseMiner_processMinerAbort. fold a t.
  wsteps. apply wp_getMiner. cbv beta.
  assert (wp False (m <- checkStakeAbort op (minerAt w a t) ;;
      (if IsActive m then removeFromPool t a (m_Stake m) else ret tt) ;;;
      setMiner (UpdateStatus MinerStatusPrepare (ab_height op) m))%zv w
      (fun _ w' => MinerInv S w')) as Hmain.
  { unfold checkStakeAbort. destruct (minerAt w a t) as [m|] eqn:Hm; [|done]. do 6 wstep.
    cbv beta. apply wp_bind. eapply wp_mono; [by eapply wp_leavePool|].
    intros _u w1 P. eapply wp_mono; [by eapply wp_storeInactive|]. intros _v w2 [I2 _].
    apply (MinerInv_focus _ _ a t). eapply LedgerInv_cast; [exact I2|simpl; lia|done]. }
  destruct (geneBaseIdentityOp _ _); try apply wp_fail; exact Hmain.
Qed.

Lemma minerFreeze_inv S op w :
  MinerInv S w -> wp False (minerFreeze_Transition op) w (fun _ w' => MinerInv S w').
Proof.
  set (a := fz_addr op). intros I. apply (MinerInv_focus _ _ a MinerTypeVerify) in I.
  unfold minerFreeze_Transition. fold a. wsteps. apply wp_getMiner.
  destruct (minerAt w a MinerTypeVerify) as [m|] eqn:Hm; [|done]. do 5 wstep.
  cbv beta. eapply wp_mono; [eapply wp_leavePool; [done|by left|done]|].
  intros _u w1 P. eapply wp_mono; [eapply wp_storeInactive; [done|by left|done..]|]. intros _v w2 [I2 _].
  apply (MinerInv_focus _ _ a MinerTypeVerify). eapply LedgerInv_cast; [exact I2|simpl; lia|done].
Qed.
End leaving.

(** ** Withdrawing: reduce, refund *)

Section withdrawing.
Context `{MinerCodecLaws} `{ChainEnv}.
Implicit Types (w : World) (op : stakeReduceOp).

Lemma wp_checkCanReduce pn op t m w (Q : unit -> World -> Prop) :
  Q tt w -> wp pn (checkCanReduce op t m) w Q.
Proof. intros HQ. unfold checkCanReduce. by wsteps. Qed.

Lemma wp_stakeReducePool S op w m :
  let a := sr_cancelTarget op in let t := sr_minerType op in
  LedgerInv S a t 0 0 w -> role t -> 0 <= sr_value op ->
  grown w a t (- sr_value op) m -> 0 <= m_Stake m ->
  wp False (stakeReducePool op (stakeAt w a t) m) w
    (fun m' w' => pooled w w' a t m' /\ m_ID m' = m_ID m /\ m_Type m' = m_Type m /\ m_Stake m' = m_Stake m).
Proof.
  intros a t I Hr Hv G Hm. pose proof (ledger_locked _ _ _ _ _ _ I) as Hl.
  pose proof (gr_stake _ _ _ _ _ G) as Hst. pose proof (gr_active _ _ _ _ _ G) as Hact.
  assert (role t -> inPool w (poolPrefix t) a <-> IsActive m = true) as Hpool.
  { intros _. rewrite Hact. by apply (li_pool _ _ _ _ _ _ I). }
  assert (t = MinerTypeProposal -> (if IsActive m then stakeAt w a t else 0) <= getProposalTotalStake w) as Ht.
  { intros Et. rewrite Hact, <- activeStake_at, Et. by eapply ledger_active_le. }
  pose proof (ledger_stake_range _ _ _ _ _ I a t) as Hs.
  unfold stakeReducePool, pooled. fold a t. rewrite activeStake_at, <- Hact.
  destruct (IsActive m) eqn:Ha; cbn [andb].
  - destruct (decide (t = MinerTypeProposal)) as [Et|Et].
    + specialize (Ht Et). unfold IsProposalRole. rewrite bool_decide_eq_true_2 by done. wsteps.
      * apply wp_removeFromPool; [done|lia|]. wsteps. split_and!; try done.
        eapply PoolStep_cast; [apply PoolStep_leave; [done|lia]|by rewrite decide_True|done].
      * apply wp_subProposalTotalStake; [lia|]. wsteps. split_and!; try done. simpl. rewrite Ha.
        eapply PoolStep_cast; [apply PoolStep_total; [|exact Hpool]|lia|done].
        pose proof (total_ok w). unfold u64_ok in *. lia.
    + unfold IsProposalRole. rewrite bool_decide_eq_false_2 by done. wsteps. split_and!; try done. rewrite Ha.
      by apply PoolStep_refl.
  - wsteps. split_and!; try done. simpl. rewrite Ha.
    eapply PoolStep_cast; [by apply PoolStep_refl|by case_decide|done].
Qed.

(** The value taken from the staked detail arrives in the frozen one. *)
Lemma wp_addFrozen S a t src v h w :
  LedgerInv S a t 0 v w -> 0 <= v ->
  wp False (frozenDetail <- getDetail a (getDetailKey src t StakeFrozen) ;;
    setDetail a (getDetailKey src t StakeFrozen)
      (match frozenDetail with
       | None => mkDetail v h 0 0
       | Some fd => mkDetail (sd_Value fd + v)%u64 h (sd_DisMissHeight fd) (sd_MarkNotFullHeight fd)
       end))%zv w (fun _ w' => MinerInv S w').
Proof.
  intros I Hv. pose proof (ledger_locked _ _ _ _ _ _ I) as Hl. wsteps. apply wp_getDetail.
  apply wp_setDetail. intros bs Hbs. apply (MinerInv_focus _ _ a t).
  match type of Hbs with _ = Some ?d => assert (sd_Value d =
    detailVal (detailAt w a src t StakeFrozen) + v /\ 0 <= sd_Value d) as [Hval Hnn] end.
  { destruct (detailAt w a src t StakeFrozen) as [fd|] eqn:E; simpl; [|lia].
    pose proof (ledger_detail_range _ _ _ _ _ _ _ _ _ _ _ I E eq_refl).
    rewrite wrap64_id by (unfold u64_ok; lia). lia. }
  eapply LedgerInv_cast; [apply LedgerInv_detail; [exact I|..]|..].
  - intros d Hd. by simplify_eq.
  - done.
  - done.
  - rewrite Hbs. simpl in *. lia.
Qed.

Lemma wp_stakeReduceDetails S op w :
  let a := sr_cancelTarget op in let t := sr_minerType op in
  LedgerInv S a t (- sr_value op) 0 w -> 0 <= sr_value op ->
  wp False (stakeReduceDetails op (stakeAt w a t + sr_value op)) w (fun _ w' => MinerInv S w').
Proof.
  intros a t I Hv. unfold stakeReduceDetails. fold a t. wsteps. apply wp_getDetail.
  destruct (detailAt w a _ t Staked) as [sd|] eqn:Hsd; [|done].
  pose proof (detail_le_stakedSum w a _ t _ (ledger_details _ _ _ _ _ _ I) Hsd) as Hle.
  pose proof (li_stake _ _ _ _ _ _ I a t) as Hs. rewrite decide_True in Hs by done.
  pose proof (ledger_locked _ _ _ _ _ _ I) as Hl.
  pose proof (ledger_detail_range _ _ _ _ _ _ _ _ _ _ _ I Hsd eq_refl) as Hr.
  assert (forall v, (forall d, decodeView v = Some d -> 0 <= sd_Value d) ->
    detailVal (decodeView v) = sd_Value sd - sr_value op ->
    LedgerInv S a t 0 (sr_value op) (write a (getDetailKey (sr_cancelSource op) t Staked) v w)) as Hstep.
  { intros v Hnn Hval. eapply LedgerInv_cast; [apply LedgerInv_detail; [exact I|done|]|..].
    - intros Et _ _. rewrite Et in Hsd. by eapply li_self.
    - rewrite Hsd, Hval. simpl. lia.
    - rewrite Hsd, Hval. simpl. lia. }
  wsteps; [lia|..]; rewrite wrap64_sub_small in * by (unfold u64_ok; lia).
  - apply wp_removeDetail, wp_addFrozen; [|done]. apply Hstep; [done|]. simpl. lia.
  - apply wp_setDetail. intros bs Hbs. apply wp_addFrozen; [|done].
    apply Hstep; [intros d Hd; simplify_eq; simpl; lia|by rewrite Hbs].
Qed.

Lemma processStakeReduce_inv S op w :
  let a := sr_cancelTarget op in let t := sr_minerType op in
  LedgerInv S a t 0 0 w -> role t -> 0 <= sr_value op ->
  wp False (processStakeReduce NormalProposalMiner op (minerAt w a t)) w (fun _ w' => MinerInv S w').
Proof.
  intros a t I Hr Hv. unfold processStakeReduce, BaseMiner_processStakeReduce.
  destruct (minerAt w a t) as [m|] eqn:Hm; [|done]. fold a t.
  pose proof (ledger_locked _ _ _ _ _ _ I) as Hl.
  pose proof (ledger_miner_stake _ _ _ _ _ I _ _ _ Hm) as Hs.
  destruct (li_wf _ _ _ _ _ _ I _ _ _ Hm) as [Hid Hty].
  assert (m_Stake m = stakeAt w a t) as Es by (unfold stakeAt; by rewrite Hm).
  wsteps. rewrite wrap64_sub_small by (unfold u64_ok; lia).
  apply wp_checkCanReduce. apply wp_bind. rewrite Es in *.
  eapply wp_mono; [apply (wp_stakeReducePool S); try done|].
  - constructor; simpl; auto. unfold isActiveAt. fold a t. by rewrite Hm.
  - simpl. lia.
  - cbv beta. simpl. fold a t. intros m2 w2 (P & Hid2 & Hty2 & Hst2). wsteps.
    rewrite Hid in Hid2. rewrite Hty in Hty2.
    eapply (wp_setMiner _ _ a); [done|]. intros bs Hbs. rewrite Hty2.
    set (w3 := write a (getMinerKey t) (Some bs) w2).
    assert (stakeAt w3 a t = stakeAt w a t - sr_value op) as Es3.
    { unfold w3, stakeAt at 1. rewrite minerAt_wminer, decide_True, Hbs by done. done. }
    replace (stakeAt w a t) with (stakeAt w3 a t + sr_value op) by lia.
    apply wp_stakeReduceDetails; [|done].
    eapply LedgerInv_cast; [by eapply LedgerInv_miner|fold a t; lia|done].
Qed.

Lemma stakeReduce_inv S op w :
  MinerInv S w -> role (sr_minerType op) -> 0 <= sr_value op ->
  wp False (stakeReduce_Transition op) w (fun _ w' => MinerInv S w').
Proof.
  set (a := sr_cancelTarget op). set (t := sr_minerType op). intros I Hr Hv.
  apply (MinerInv_focus _ _ a t) in I. pose proof (processStakeReduce_inv S op w I Hr Hv) as Hmain.
  unfold stakeReduce_Transition. fold a t. wsteps; apply wp_getMiner.
  destruct (geneBaseIdentityOp _ _); try apply wp_fail; exact Hmain.
Qed.

Lemma stakeRefund_inv S (op : stakeRefundOp) w :
  MinerInv S w -> wp False (stakeRefund_Transition op) w (fun _ w' => MinerInv S w').
Proof.
  set (a := rf_refundTarget op). set (t := rf_minerType op). intros I.
  apply (MinerInv_focus _ _ a t) in I. unfold stakeRefund_Transition. fold a t.
  wsteps; apply wp_getDetail. destruct (detailAt _ _ _ _ _) as [fd|] eqn:E; [|done].
  wsteps; apply wp_removeDetail. wsteps. apply (MinerInv_focus _ _ a t).
  pose proof (ledger_details _ _ _ _ _ _ I _ _ _ _ _ E) as Hnn.
  eapply LedgerInv_cast; [apply LedgerInv_AddBalance; [apply LedgerInv_detail; [exact I|..]|]|..];
    rewrite ?E; try done. simpl. lia.
Qed.
End withdrawing.

(** ** Tickets, votes and guard nodes *)

Section voting.
Context `{MinerCodecLaws} `{ChainEnv}.
Implicit Types (w : World) (a b : Address) (k : bytes).

(** A step that changes neither miners nor stake details. *)
Record calm (S : Z) (w w' : World) : Prop := {
  calm_inv : MinerInv S w';
  calm_miner b u : minerAt w' b u = minerAt w b u;
  calm_detail b src u s : detailAt w' b src u s = detailAt w b src u s;
}.

Lemma calm_refl S w : MinerInv S w -> calm S w w.
Proof. by constructor. Qed.
Lemma calm_trans S w1 w2 w3 : calm S w1 w2 -> calm S w2 w3 -> calm S w1 w3.
Proof.
  intros [? Hm Hd] [? Hm' Hd']. constructor; intros; [done|by rewrite Hm', Hm|by rewrite Hd', Hd].
Qed.
Lemma calm_neutral S w a k v : MinerInv S w -> neutral a k -> calm S w (write a k v w).
Proof.
  intros I Hk. pose proof (neutral_plain _ _ Hk). constructor; intros.
  - by apply LedgerInv_neutral.
  - by apply minerAt_wplain.
  - by apply detailAt_wplain.
Qed.

Lemma wp_calm_store {A} `{CodecLaws A} S a k (x : A) w :
  MinerInv S w -> neutral a k -> wp False (store a k x) w (fun _ => calm S w).
Proof. intros. apply (wp_store False a k x). intros. by apply calm_neutral. Qed.

Lemma wp_calm_read {A} `{Codec A} S (data : option bytes) w :
  MinerInv S w -> wp False (decodeNil (A:=A) data) w (fun _ => calm S w).
Proof. intros. unfold decodeNil. wsteps; by apply calm_refl. Qed.

(** A miner is stored that agrees with the ledger on stake and activity. *)
Lemma wp_setMiner_same S a t eps w m :
  LedgerInv S a t 0 eps w -> role t -> grown w a t 0 m ->
  wp False (setMiner m) w (fun _ w' => LedgerInv S a t 0 eps w' /\
    (forall b u, ~ (b = a /\ u = t) -> minerAt w' b u = minerAt w b u) /\
    (forall b src u s, detailAt w' b src u s = detailAt w b src u s)).
Proof.
  intros I Hr [Hid Hty Hst Hac]. apply (wp_setMiner _ _ a); [done|]. intros bs Hbs. rewrite Hty.
  split_and!; intros; autorewrite with ledger; [|rewrite decide_False by naive_solver|]; try done.
  eapply LedgerInv_cast; [eapply LedgerInv_miner with (m := m) (d := 0); try done|lia|done].
  - apply PoolStep_refl. intros _. by apply (li_pool _ _ _ _ _ _ I).
  - rewrite activeStake_at, <- Hac, Z.add_0_r in *. simpl. rewrite Hst.
    destruct (IsActive m); case_decide; lia.
Qed.

Lemma grown_UpdateIdentity w a t v m i h :
  grown w a t v m -> grown w a t v (UpdateIdentity i h m).
Proof. by intros []; constructor. Qed.

Lemma grown_at S a t eps delta w b u m :
  LedgerInv S a t delta eps w -> minerAt w b u = Some m -> grown w b u 0 m.
Proof.
  intros I Hm. destruct (li_wf _ _ _ _ _ _ I _ _ _ Hm).
  constructor; try done; unfold stakeAt, isActiveAt; rewrite Hm; simpl; [lia|done].
Qed.

(** [w'] is balanced and differs from [w] in the proposal miner of [a] only. *)
Definition touches S a w w' : Prop :=
  MinerInv S w' /\
  forall b, b <> a -> minerAt w' b MinerTypeProposal = minerAt w b MinerTypeProposal.

Lemma calm_touches S a w w' : calm S w w' -> touches S a w w'.
Proof. intros [? Hm _]. by split. Qed.
Lemma touches_trans S a w1 w2 w3 : touches S a w1 w2 -> touches S a w2 w3 -> touches S a w1 w3.
Proof. intros [_ H1'] [? H2']. split; [done|]. intros. by rewrite H2', H1'. Qed.

(** A branch that updates the state on one side only. *)
Lemma wp_branch {A B} (c : bool) (x : WM unit) (p q : A) (f : A -> WM B) w Q :
  wp False (bind (if c then x else ret tt) (fun _ => f (if c then p else q))) w Q ->
  wp False (bind (if c then bind x (fun _ => ret p) else ret q) f) w Q.
Proof. destruct c; [|done]. unfold wp, bind. by destruct (x w) as [[]]. Qed.

Lemma wp_afterTicketReduce S (kind : identityOp) op w n :
  MinerInv S w ->
  wp False (afterTicketReduce kind op (minerAt w (rt_target op) MinerTypeProposal) n) w
    (fun _ => touches S (rt_target op) w).
Proof.
  set (a := rt_target op). intros I. pose proof I as I'.
  apply (MinerInv_focus _ _ a MinerTypeProposal) in I. unfold afterTicketReduce, MinerPoolProposalMiner_afterTicketReduce. fold a.
  assert (touches S a w w) by (by apply calm_touches, calm_refl).
  destruct kind; try by wsteps. destruct (negb _); [|done].
  destruct (minerAt w a MinerTypeProposal) as [m|] eqn:Hm; [|done].
  change (IsActive (UpdateIdentity _ _ m)) with (IsActive m).
  change (m_Stake (UpdateIdentity _ _ m)) with (m_Stake m).
  apply wp_branch, wp_bind. eapply wp_mono; [eapply wp_leavePool; [done|by right|done]|].
  intros _u w1 P. eapply wp_mono; [eapply wp_storeInactive; [exact I|by right|exact Hm|..|exact P]|].
  1-3: by destruct (IsActive m) eqn:?.
  intros _v w2 [I2 Hf]. split; [|intros; rewrite Hf, decide_False by naive_solver; done].
  apply (MinerInv_focus _ _ a MinerTypeProposal).
  eapply LedgerInv_cast; [exact I2|destruct (IsActive m); simpl; lia|done].
Qed.

Lemma reduceTickets_inv S op w :
  MinerInv S w ->
  wp False (reduceTickets_Transition op) w (fun _ => touches S (rt_target op) w).
Proof.
  intros I. unfold reduceTickets_Transition, processReduceTicket, subTicket.
  wsteps; apply wp_getMiner. destruct (geneBaseIdentityOp _ _); try apply wp_fail.
  all: wsteps; (match goal with |- wp _ _ (SetData ?b ?k ?v _) _ =>
         pose proof (calm_neutral S w b k (Some v) I ltac:(auto with zv)) as C end).
  all: rewrite <- (calm_miner _ _ _ C); eapply wp_mono; [apply wp_afterTicketReduce, C|].
  all: intros ? w' T; eapply touches_trans; [by apply calm_touches|exact T].
Qed.

(** *** Votes *)

Lemma wp_checkVote pn op vf w (Q : unit -> World -> Prop) :
  Q tt w -> wp pn (checkVote op vf) w Q.
Proof. intros HQ. unfold checkVote. wsteps. apply wp_getMiner. by wsteps. Qed.

(** [w'] is balanced and has the same proposal miner at [a]. *)
Definition spares S a w w' : Prop :=
  MinerInv S w' /\ minerAt w' a MinerTypeProposal = minerAt w a MinerTypeProposal.

Lemma spares_trans S a w1 w2 w3 : spares S a w1 w2 -> spares S a w2 w3 -> spares S a w1 w3.
Proof. intros [_ H1'] [? H2']. split; [done|]. by rewrite H2', H1'. Qed.
Lemma calm_spares S a w w' : calm S w w' -> spares S a w w'.
Proof. intros [? Hm _]. by split. Qed.

Lemma wp_moveTicket S old tgt h w :
  MinerInv S w -> ~ (old = tgt /\ old <> zeroB32) ->
  wp False ((if decide (old <> zeroB32)
     then reduceTickets_Transition (mkReduceTickets old h) else ret tt) ;;; addTicket tgt)%zv w
    (fun _ => spares S tgt w).
Proof.
  intros I Hne. apply wp_bind.
  apply (wp_mono _ _ _ (fun _ => spares S tgt w)).
  - wsteps; [|by apply calm_spares, calm_refl].
    eapply wp_mono; [by apply reduceTickets_inv|]. simpl. intros _u w1 [I1 Hf].
    split; [done|]. apply Hf. naive_solver.
  - intros _u w1 [I1 Hm]. unfold addTicket. wsteps. eapply spares_trans; [by split|].
    apply calm_spares, calm_neutral; auto with zv.
Qed.

Lemma wp_processVoteBase S op vf w :
  MinerInv S w -> wp False (processVoteBase op vf) w (fun _ => spares S (vo_targetAddr op) w).
Proof.
  intros I. unfold processVoteBase. apply wp_bind.
  apply (wp_mono _ _ _ (fun _ => calm S w)).
  - wsteps; [by apply calm_refl|]. unfold initVoteInfo. wsteps.
    eapply wp_mono; [apply wp_calm_store; auto with zv; done|]. intros. by wsteps.
  - intros v w1 C. unfold voteMinerPool. apply wp_bind.
    eapply wp_mono; [apply wp_calm_store; auto with zv; apply C|]. intros _u w2 C2.
    pose proof (calm_trans _ _ _ _ C C2) as C3. apply wp_bind.
    apply (wp_mono _ _ _ (fun _ => spares S (vo_targetAddr op) w2)).
    + wstep; [wsteps; by apply calm_spares, calm_refl, C3|]. apply wp_moveTicket; [apply C3|done].
    + intros n w4 Sp. wsteps. eapply spares_trans; [by apply calm_spares|done].
Qed.

Lemma wp_afterTicketsFull S (kind : identityOp) op w :
  MinerInv S w ->
  wp False (afterTicketsFull kind op (minerAt w (vo_targetAddr op) MinerTypeProposal)) w
    (fun _ w' => MinerInv S w').
Proof.
  set (a := vo_targetAddr op). intros I. apply (MinerInv_focus _ _ a MinerTypeProposal) in I.
  unfold afterTicketsFull, BaseMiner_afterTicketsFull. fold a. set (m := match minerAt _ _ _ with Some _ => _ | None => _ end).
  assert (grown w a MinerTypeProposal 0 (UpdateIdentity MinerPool (vo_height op) m)) as G.
  { apply grown_UpdateIdentity. unfold m. destruct (minerAt w a MinerTypeProposal) as [m0|] eqn:Hm.
    - by eapply grown_at.
    - constructor; try done; unfold stakeAt, isActiveAt; by rewrite Hm. }
  destruct kind; wsteps; try by apply (MinerInv_focus _ _ a MinerTypeProposal).
  all: eapply wp_mono; [apply wp_setMiner_same; [exact I|by right|exact G]|].
  all: intros ? w' [I' _]; by apply (MinerInv_focus _ _ a MinerTypeProposal).
Qed.

Lemma voteMinerPool_inv S op w :
  MinerInv S w -> wp False (voteMinerPool_Transition op) w (fun _ w' => MinerInv S w').
Proof.
  intros I. unfold voteMinerPool_Transition. wsteps. apply wp_getMiner.
  set (kind := geneBaseIdentityOp _ _).
  assert (wp False (vf <- getVoteInfo (vo_source op) ;; checkVote op vf ;;;
    isFull <- processVoteBase op vf ;;
    if isFull : bool
    then afterTicketsFull kind op (minerAt w (vo_targetAddr op) MinerTypeProposal) else ret tt)%zv
    w (fun _ w' => MinerInv S w')) as Hmain.
  { apply wp_bind. unfold getVoteInfo. wsteps. eapply wp_mono; [by apply wp_calm_read|].
    intros vf w1 C. wsteps. apply wp_checkVote. wsteps.
    eapply wp_mono; [apply wp_processVoteBase, C|]. intros b w2 [I2 Hm]. wsteps; [|done].
    rewrite <- (calm_miner _ _ _ C), <- Hm. by apply wp_afterTicketsFull. }
  destruct kind; try apply wp_fail; exact Hmain.
Qed.
End voting.

(** ** Guard nodes *)

Section guards.
Context `{MinerCodecLaws} `{ChainEnv}.
Implicit Types (w : World) (a b : Address).

(** A stake detail is stored again with the same value. *)
Lemma wp_setDetail_same S a src t w d d' :
  MinerInv S w -> detailAt w a src t Staked = Some d -> sd_Value d' = sd_Value d ->
  wp False (setDetail a (getDetailKey src t Staked) d') w (fun _ w' => MinerInv S w').
Proof.
  intros I Hd Hv. apply (MinerInv_focus _ _ a t) in I.
  apply wp_setDetail. intros bs Hbs. apply (MinerInv_focus _ _ a t).
  pose proof (ledger_details _ _ _ _ _ _ I _ _ _ _ _ Hd) as Hnn.
  eapply LedgerInv_cast; [apply LedgerInv_detail; [exact I|..]|..].
  - intros d0 Hd0. simplify_eq. lia.
  - intros -> _ _. by eapply li_self.
  - rewrite Hbs, Hd. simpl. lia.
  - rewrite Hbs, Hd. simpl. lia.
Qed.

Lemma getFundGuardNode_state a w : exists o, getFundGuardNode a w = (o, w) /\ forall g, o <> Panic g.
Proof.
  unfold getFundGuardNode, bind, gets, decodeNil.
  destruct (GetData _ _ _) as [bs|]; [destruct (Unmarshal bs)|]; by eexists.
Qed.

Lemma wp_updateFundGuardPoolStatus S a ty h w :
  MinerInv S w -> wp False (updateFundGuardPoolStatus a ty h) w (fun _ => calm S w).
Proof.
  intros I. unfold wp, updateFundGuardPoolStatus.
  destruct (getFundGuardNode_state a w) as ([[fn|]|e|g] & -> & Hp); try done.
  - apply (wp_calm_store S FundGuardNodeAddr (getFundGuardKey KeyGuardNodes a)); auto with zv.
  - by destruct (Hp g).
Qed.

Lemma wp_afterBecomeFullGuardNode S (kind : identityOp) a h w d :
  MinerInv S w -> detailAt w a a MinerTypeProposal Staked = Some d ->
  wp False (afterBecomeFullGuardNode kind (getDetailKey a MinerTypeProposal Staked) d a h) w
    (fun _ w' => MinerInv S w').
Proof.
  intros I Hd. unfold afterBecomeFullGuardNode, NormalProposalMiner_afterBecomeFullGuardNode,
    GuardProposalMiner_afterBecomeFullGuardNode, addFullStakeGuardPool.
  assert (forall w1 x y, calm S w w1 ->
    wp False (setDetail a (getDetailKey a MinerTypeProposal Staked) (mkDetail (sd_Value d) (sd_Height d) x y)) w1
      (fun _ w' => MinerInv S w')) as Hset.
  { intros w1 x y C. eapply wp_setDetail_same; [apply C|by rewrite (calm_detail _ _ _ C)|done]. }
  destruct kind; wsteps; try done.
  - by apply Hset, calm_neutral; auto with zv.
  - eapply wp_mono; [by apply wp_updateFundGuardPoolStatus|]. intros _u w1 C. wsteps.
    apply Hset. eapply calm_trans; [exact C|]. apply calm_neutral; [apply C|auto with zv].
  - by apply Hset, calm_refl.
Qed.

Lemma processApplyGuard_inv S (kind : identityOp) op w :
  MinerInv S w ->
  wp False (processApplyGuard NormalProposalMiner op (minerAt w (ag_targetAddr op) MinerTypeProposal)
    (afterBecomeFullGuardNode kind)) w (fun _ w' => MinerInv S w').
Proof.
  set (a := ag_targetAddr op). intros I. pose proof I as I0.
  apply (MinerInv_focus _ _ a MinerTypeProposal) in I.
  unfold processApplyGuard, BaseMiner_processApplyGuard. fold a. wsteps. apply wp_getDetail. wsteps. unfold checkApplyGuard.
  destruct (minerAt w a MinerTypeProposal) as [m|] eqn:Hm; [|done].
  destruct (detailAt w a a MinerTypeProposal Staked) as [d|] eqn:Hd; [|done].
  wsteps. simpl.
  eapply wp_mono; [apply wp_setMiner_same; [exact I|by right|]|].
  { apply grown_UpdateIdentity. by eapply grown_at. }
  intros _u w1 (I1 & _ & Hf). wsteps.
  apply (MinerInv_focus _ _ a MinerTypeProposal) in I1.
  eapply wp_mono; [apply wp_afterBecomeFullGuardNode; [exact I1|by rewrite Hf]|].
  intros _v w2 I2. unfold getVoteInfo. wsteps.
  eapply wp_mono; [apply wp_calm_read, I2|]. intros vf w3 C. wsteps; [|apply C].
  eapply wp_mono; [apply wp_calm_store; auto with zv; apply C|]. intros _x w4 C'. apply C'.
Qed.

Lemma applyGuardMiner_inv S op w :
  MinerInv S w -> wp False (applyGuardMiner_Transition op) w (fun _ w' => MinerInv S w').
Proof.
  intros I. pose proof (fun kind => processApplyGuard_inv S kind op w I) as Hmain.
  unfold applyGuardMiner_Transition. wsteps; apply wp_getMiner.
  destruct (minerAt w _ _) as [m|]; [|done].
  destruct (geneBaseIdentityOp _ _) eqn:Ek; try apply wp_fail; apply Hmain.
Qed.

Lemma changeFundGuardMode_inv S op w :
  MinerInv S w -> wp False (changeFundGuardMode_Transition op) w (fun _ w' => MinerInv S w').
Proof.
  intros I. unfold changeFundGuardMode_Transition, processChangeFundGuardMode,
    BaseMiner_processChangeFundGuardMode, unSupported.
  wsteps; apply wp_getMiner. destruct (geneBaseIdentityOp _ _); try apply wp_fail.
  all: wsteps; unfold getFundGuardNode; wsteps; (eapply wp_mono; [by apply wp_calm_read|]).
  all: intros fn w1 C; wsteps; unfold wp, updateFundGuardMode, setFundGuardNode, store.
  all: destruct (Marshal _); unfold modify, fail; [|apply C].
  all: apply (calm_neutral S w1 FundGuardNodeAddr); [apply C|auto with zv].
Qed.

Lemma guardNodeExpired_inv S a h isFund w :
  MinerInv S w -> wp False (guardNodeExpired a h isFund) w (fun _ w' => MinerInv S w').
Proof.
  intros I. apply (MinerInv_focus _ _ a MinerTypeProposal) in I.
  unfold guardNodeExpired. wsteps; apply wp_getMiner.
  destruct (minerAt w a MinerTypeProposal) as [m|] eqn:Hm; [|done]. wstep.
  eapply wp_mono; [apply wp_setMiner_same; [exact I|by right|]|].
  { apply grown_UpdateIdentity. by eapply grown_at. }
  intros _u w1 (I1 & _ & _). apply (MinerInv_focus _ _ a MinerTypeProposal) in I1.
  apply wp_bind, (wp_mono _ _ _ (fun _ => calm S w1)).
  { unfold removeFullStakeGuardNodeFromPool. wsteps; [apply calm_neutral; auto with zv|by apply calm_refl]. }
  intros _v w2 C2. unfold getVoteInfo, delVoteInfo. wsteps.
  eapply wp_mono; [apply wp_calm_read, C2|]. intros vf w3 C3. wstep; [|wsteps; apply C3].
  assert (MinerInv S (RemoveData a KeyVote w3)) as I4
    by (apply (calm_neutral S w3 a KeyVote None); [apply C3|auto with zv]).
  wsteps; [|done]. eapply wp_mono; [by apply reduceTickets_inv|]. by intros _x w5 [I5 _].
Qed.
End guards.

(** ** Penalty

    The value taken from each target leaves the ledger and is shared among the
    rewarded accounts; what the division leaves over is burnt. *)

Section penalty.
Context `{MinerCodecLaws} `{ChainEnv}.
Implicit Types (w : World) (a b : Address).

(** A verifier's stake is its own staked detail. *)
Lemma stakedSum_verify S b u delta eps w a :
  LedgerInv S b u delta eps w ->
  stakedSum w a MinerTypeVerify = detailVal (detailAt w a a MinerTypeVerify Staked).
Proof.
  intros I. unfold stakedSum, detailAt, GetData.
  destruct (accounts w !! a) as [o|] eqn:Ho; simpl; [|done].
  rewrite (map_sum_ext _ (fun k v => if bool_decide (k = getDetailKey a MinerTypeVerify Staked)
    then detailVal (decodeView (Some v)) else 0)).
  - rewrite (map_sum_single (fun v => detailVal (decodeView (Some v)))).
    by destruct (Storage o !! _).
  - intros k v Hk. unfold stakedOf. case_bool_decide as Ek.
    { subst k. by rewrite detailKeyParts_detail, !bool_decide_eq_true_2. }
    destruct (detailKeyParts k) as [[[src t'] s]|] eqn:Ep; [|done].
    apply detailKeyParts_inv in Ep as ->.
    destruct (bool_decide (t' = MinerTypeVerify) && bool_decide (s = Staked)) eqn:Eb; [|done].
    apply andb_true_iff in Eb as [->%bool_decide_eq_true ->%bool_decide_eq_true].
    destruct (decodeView (Some v)) as [d|] eqn:Ed; [|done]. destruct Ek.
    rewrite (li_self _ _ _ _ _ _ I a src d); [done|].
    unfold detailAt, GetData. rewrite Ho. simpl. by rewrite Hk.
Qed.

Lemma wp_addPunishment pn S a v h delta eps w :
  LedgerInv S a MinerTypeVerify delta eps w -> 0 <= v ->
  wp pn (addPunishment a v h) w (fun _ w' => LedgerInv S a MinerTypeVerify delta eps w' /\
    (forall b u, minerAt w' b u = minerAt w b u) /\
    (forall b src u s, s <> StakePunishment -> detailAt w' b src u s = detailAt w b src u s)).
Proof.
  intros I Hv. unfold addPunishment. wsteps; apply wp_getDetail, wp_setDetail. intros bs Hbs.
  split_and!; intros; autorewrite with ledger; [|done|rewrite decide_False by naive_solver; done].
  eapply LedgerInv_cast; [apply LedgerInv_detail; [exact I|..]|..]; simpl; try done; try lia.
  intros d Hd. rewrite Hbs in Hd. simplify_eq.
  destruct (detailAt w a PunishmentDetailAddr MinerTypeVerify StakePunishment); simpl; [|done].
  apply wrap64_ok.
Qed.

(** The value leaves the target's staked detail: its stake covers it. *)
Lemma wp_subPunished pn S a v h eps w :
  LedgerInv S a MinerTypeVerify (- v) eps w -> 0 <= v -> 0 <= eps ->
  0 <= stakeAt w a MinerTypeVerify -> (v = 0 -> pn) ->
  wp pn (subPunished a v h) w (fun _ w' => LedgerInv S a MinerTypeVerify 0 (eps + v) w' /\
    forall b u, minerAt w' b u = minerAt w b u).
Proof.
  intros I Hv He Hst Hpn. unfold subPunished. wsteps; apply wp_getDetail.
  pose proof (li_stake _ _ _ _ _ _ I a MinerTypeVerify) as Hs. rewrite decide_True in Hs by done.
  rewrite (stakedSum_verify _ _ _ _ _ _ a I) in Hs.
  destruct (detailAt w a a MinerTypeVerify Staked) as [d|] eqn:Hd; simpl in Hs;
    [|apply wp_panic, Hpn; lia].
  pose proof (ledger_detail_range _ _ _ _ _ _ _ _ _ _ _ I Hd eq_refl) as Hr.
  pose proof (ledger_locked _ _ _ _ _ _ I) as Hl.
  assert (forall x, (forall d', decodeView x = Some d' -> 0 <= sd_Value d') ->
    detailVal (decodeView x) = sd_Value d - v ->
    let w' := write a (getDetailKey a MinerTypeVerify Staked) x w in
    LedgerInv S a MinerTypeVerify 0 (eps + v) w' /\ forall b u, minerAt w' b u = minerAt w b u) as Hstep.
  { intros x Hnn Hx w'. split; [|intros; by apply minerAt_wdetail].
    eapply LedgerInv_cast; [apply LedgerInv_detail; [exact I|done|done]|..];
      rewrite Hx, Hd; simpl; lia. }
  rewrite !wrap64_sub_small by (unfold u64_ok; lia). destruct (Z.ltb_spec v (sd_Value d)).
  - apply wp_setDetail. intros bs Hbs. apply Hstep; [intros d' Hd'; simplify_eq; simpl; lia|].
    rewrite Hbs. simpl. lia.
  - wstep. apply wp_removeDetail. replace (v - sd_Value d) with 0 by lia. simpl.
    apply wp_ret, Hstep; [done|]. simpl. lia.
Qed.

Lemma wp_penalize pn S op a eps w :
  LedgerInv S a MinerTypeVerify 0 eps w -> 0 <= pn_value op -> 0 <= eps ->
  (pn_value op = 0 \/ stakeAt w a MinerTypeVerify < pn_value op -> pn) ->
  wp pn (penalize op a) w (fun _ w' => LedgerInv S a MinerTypeVerify 0 (eps + pn_value op) w' /\
    forall b, b <> a -> stakeAt w' b MinerTypeVerify = stakeAt w b MinerTypeVerify).
Proof.
  set (v := pn_value op). intros I Hv He Hpn. unfold penalize. fold v. wsteps; apply wp_getMiner.
  destruct (minerAt w a MinerTypeVerify) as [m|] eqn:Hm; [|done].
  assert (stakeAt w a MinerTypeVerify = m_Stake m) as Es by (unfold stakeAt; by rewrite Hm).
  pose proof (ledger_miner_stake _ _ _ _ _ I _ _ _ Hm) as Hs.
  pose proof (ledger_locked _ _ _ _ _ _ I) as Hl.
  do 3 wstep. eapply wp_mono; [eapply wp_leavePool; [done|by left|done]|].
  intros _u w1 P. apply wp_bind.
  destruct (Z.ltb_spec (m_Stake m) v); [apply wp_panic, Hpn; lia|]. do 2 wstep.
  rewrite wrap64_sub_small by (unfold u64_ok; lia).
  eapply wp_mono; [eapply wp_storeInactive; [exact I|by left|exact Hm| | | |exact P]; done|].
  simpl. intros _v w2 [I2 Hf2]. wstep.
  eapply wp_mono; [apply wp_addPunishment; [exact I2|done]|]. intros _x w3 (I3 & Hf3 & _).
  eapply wp_mono; [apply wp_subPunished; [eapply LedgerInv_cast; [exact I3|lia|done]|done|done|..]|].
  - unfold stakeAt. rewrite Hf3, Hf2, decide_True by done. simpl. lia.
  - intros ->. apply Hpn. by left.
  - intros _y w4 [I4 Hf4]. split; [done|]. intros b Hb.
    unfold stakeAt. by rewrite Hf4, Hf3, Hf2, decide_False by naive_solver.
Qed.

Lemma wp_penalizeAll pn S op l eps w :
  LedgerInv S zeroB32 MinerTypeVerify 0 eps w -> 0 <= pn_value op -> 0 <= eps ->
  pn \/ (0 < pn_value op /\ NoDup l /\
         forall a, a ∈ l -> pn_value op <= stakeAt w a MinerTypeVerify) ->
  wp pn (for_each l (penalize op)) w (fun _ w' =>
    LedgerInv S zeroB32 MinerTypeVerify 0 (eps + Z.of_nat (length l) * pn_value op) w').
Proof.
  revert eps w. induction l as [|a l IH]; intros eps w I Hv He Hs.
  - simpl. apply wp_ret. by rewrite Z.add_0_r.
  - apply (LedgerInv_focus _ _ _ a MinerTypeVerify) in I. simpl. wstep.
    eapply wp_mono; [apply wp_penalize; [exact I|done|done|]|].
    + intros Hbad. destruct Hs as [?|(? & _ & Hs)]; [done|].
      specialize (Hs a ltac:(apply list_elem_of_here)). lia.
    + intros _u w1 [I1 Hf]. apply (LedgerInv_focus _ _ _ zeroB32 MinerTypeVerify) in I1.
      eapply wp_mono; [apply IH; [exact I1|lia|lia|]|].
      * destruct Hs as [?|(? & Hnd & Hs)]; [by left|right]. apply NoDup_cons in Hnd as [Hna Hnd].
        split_and!; try done. intros b Hb. rewrite Hf by (by intros ->).
        apply Hs. by apply list_elem_of_further.
      * intros _v w2 I2. eapply LedgerInv_cast; [exact I2|done|]. lia.
Qed.

Lemma LedgerInv_settle S eps w :
  LedgerInv S zeroB32 MinerTypeVerify 0 eps w -> 0 <= eps -> MinerInv (S - eps) w.
Proof.
  intros [] ?. constructor; auto; lia.
Qed.

Lemma wp_payAll pn S x l eps w :
  LedgerInv S zeroB32 MinerTypeVerify 0 eps w -> 0 <= x ->
  wp pn (for_each l (fun a => modify (AddBalance a x) : WM unit)) w (fun _ w' =>
    LedgerInv S zeroB32 MinerTypeVerify 0 (eps - Z.of_nat (length l) * x) w').
Proof.
  revert eps w. induction l as [|a l IH]; intros eps w I Hx.
  - simpl. apply wp_ret. by rewrite Z.sub_0_r.
  - simpl. do 2 wstep. eapply wp_mono; [apply IH; [by apply LedgerInv_AddBalance|done]|].
    intros _u w1 I1. eapply LedgerInv_cast; [exact I1|done|]. lia.
Qed.

(** Coins left after the penalty: what the division leaves over is gone, all of
    it when nobody is rewarded. *)
Definition penaltySupply (S : Z) (op : minerPenaltyOp) : Z :=
  S - (Z.of_nat (length (pn_targets op)) * pn_value op) mod Z.of_nat (length (pn_rewards op)).

Lemma minerPenalty_inv pn S op w :
  MinerInv S w -> 0 <= pn_value op ->
  pn \/ (0 < pn_value op /\ NoDup (pn_targets op) /\
         forall a, a ∈ pn_targets op -> pn_value op <= stakeAt w a MinerTypeVerify) ->
  wp pn (minerPenalty_Transition op) w (fun _ w' => MinerInv (penaltySupply S op) w').
Proof.
  intros I Hv Hs. unfold minerPenalty_Transition. wstep.
  eapply wp_mono; [by apply (wp_penalizeAll _ S)|]. rewrite Z.add_0_l. intros _u w1 I1.
  set (n := Z.of_nat (length (pn_targets op))) in *.
  set (r := Z.of_nat (length (pn_rewards op))).
  pose proof (ledger_locked _ _ _ _ _ _ I1) as Hl. assert (0 <= n * pn_value op) by lia.
  unfold penaltySupply. fold n r. destruct (Nat.ltb_spec 0 (length (pn_rewards op))) as [Hr|Hr].
  - assert (penaltyShare op = n * pn_value op / r) as Eshare.
    { unfold penaltyShare. fold n r. rewrite wrap64_id by (unfold u64_ok; lia). f_equal. lia. }
    rewrite Eshare. assert (0 <= n * pn_value op / r) by (apply Z.div_pos; lia).
    eapply wp_mono; [by apply (wp_payAll _ S)|]. fold r. intros _v w2 I2.
    pose proof (Z.mul_div_le (n * pn_value op) r ltac:(lia)).
    apply LedgerInv_settle in I2; [|lia]. by rewrite Z.mod_eq by lia.
  - wstep. replace r with 0 by lia. rewrite Z.mod_0_r. by apply LedgerInv_settle.
Qed.
End penalty.
