(* ===== verification/MinerManager.v ===== *)
(** * MinerManager: running miner operations and expiring guard nodes

    [src/core/miner_manager.go]: the entry points through which operations reach
    the ledger, each inside a snapshot that is restored when the operation
    fails; the scan that ends guard-node terms; the miner addresses of a pool. *)
From S2P Require Import Prelude Bytes World Types MinerBase MinerOps.
Local Open Scope Z_scope.
Local Open Scope zv_scope.

Definition checkInterval : Z := 1000.

(** [snapshot := db.Snapshot(); ...; db.RevertToSnapshot(snapshot)] on an error. *)
Definition reverting {A} (m : WM A) : WM A := fun w =>
  match m w with
  | (Err e, _) => (Err e, w)
  | r => r
  end.

(** The loop [for _, x := range l { y, err := f(x); if err != nil { return err }; ... }]
    that collects what [f] selects. *)
Fixpoint collect {A B} (l : list A) (f : A -> WM (option B)) : WM (list B) :=
  match l with
  | [] => ret []
  | x :: l' =>
      o <- f x ;;
      r <- collect l' f ;;
      ret (match o with Some y => y :: r | None => r end)
  end.

(** [iter.Key[len(prefix):]] as an address, for every key the loop visits. *)
Definition keyAddr (prefix : bytes) (key : bytes) : Address := BytesToAddress (drop (length prefix) key).

Section manager.
Context `{MinerCodecs} `{ChainEnv}.

(** ** Operations *)

Definition executeOperation {Op} (parse : WM Op) (transition : Op -> WM unit) : WM bool :=
  op <- parse ;;
  reverting (transition op) ;;;
  ret true.

Definition MinerFrozen (miner : Address) (height : Z) : WM bool :=
  executeOperation (ret (mkFreeze miner height)) minerFreeze_Transition.

Definition MinerPenalty (penaltyTarget rewardTarget : list bytes) (height : Z) : WM bool :=
  executeOperation
    (ret (mkPenalty (map BytesToAddress penaltyTarget) (map BytesToAddress rewardTarget) minimumStake height))
    minerPenalty_Transition.

(** ** Guard nodes *)

Definition GetAllFullStakeGuardNodes (w : World) : list Address :=
  match DataIterator w FullStakeGuardNodeAddr KeyGuardNodes with
  | None => []
  | Some es => map (fun e => keyAddr KeyGuardNodes e.1) (iterPrefix KeyGuardNodes es)
  end.

(** The nil iterator of a missing account is dereferenced. *)
Definition GetAllFundStakeGuardNodes : WM (list (Address * fundGuardNode)) :=
  it <- gets (fun w => DataIterator w FundGuardNodeAddr KeyGuardNodes) ;;
  match it with
  | None => panic "nil pointer dereference"
  | Some es =>
      collect (iterPrefix KeyGuardNodes es) (fun e =>
        match Unmarshal e.2 with
        | None => fail (errOf "get fund guard nodes error" RSFail)
        | Some fn => ret (Some (keyAddr KeyGuardNodes e.1, fn))
        end)
  end.

Definition GetAllGuardNodeAddrs : WM (list Address) :=
  fullStakeAddrs <- gets GetAllFullStakeGuardNodes ;;
  fds <- GetAllFundStakeGuardNodes ;;
  ret (fullStakeAddrs ++ map fst (filter (fun fd => isGuardNode fd.2 = true) fds)).

(** The common body of the two fund-guard scans, which differ in the window of
    heights, the mark and the mode. *)
Definition fundGuardScan (scanned : World -> bool) (mark : WM unit) (mode : fundGuardNode -> bool)
    (height : Z) : WM (list Address) :=
  hasScanned <- gets scanned ;;
  if hasScanned : bool then ret []
  else
    fds <- GetAllFundStakeGuardNodes ;;
    expiredAddresses <- collect fds (fun fd =>
      if negb (isFundGuard fd.2) then ret None
      else if negb (mode fd.2) then ret None
      else
        updateFundGuardPoolStatus fd.1 normalNodeType height ;;;
        ret (Some fd.1)) ;;
    mark ;;;
    ret expiredAddresses.

Definition fundGuardSixAddFiveNodesCheck (height : Z) : WM (list Address) :=
  if (height <? adjustWeightPeriod / 2) || (adjustWeightPeriod * 2 <? height) then ret []
  else if negb (height mod checkInterval =? 0) then ret []
  else fundGuardScan hasScanedSixAddFiveFundGuards markScanedSixAddFiveFundGuards isSixAddFive height.

Definition fundGuardSixAddSixNodesCheck (height : Z) : WM (list Address) :=
  if (height <? adjustWeightPeriod) || (adjustWeightPeriod * 3 <? height) then ret []
  else if negb (height mod checkInterval =? 0) then ret []
  else fundGuardScan hasScanedSixAddSixFundGuards markScanedSixAddSixFundGuards isSixAddSix height.

Definition FundGuardExpiredCheck (height : Z) : WM (list Address) :=
  five <- fundGuardSixAddFiveNodesCheck height ;;
  six <- fundGuardSixAddSixNodesCheck height ;;
  ret (five ++ six).

Definition checkFullStakeGuardNodeExpired (a : Address) (height : Z) : WM bool :=
  let detailKey := getDetailKey a MinerTypeProposal Staked in
  stakedDetail <- getDetail a detailKey ;;
  match stakedDetail with
  | None => fail (errOf "check guard nodes,find stake detail is nil" RSFail)
  | Some d =>
      if (sd_DisMissHeight d + stakeBuffer)%u64 <? height then ret true
      else if 0 <? sd_MarkNotFullHeight d then
        ret ((sd_MarkNotFullHeight d + stakeBuffer)%u64 <? height)
      else if negb (isFullStake (sd_Value d) height) then
        setDetail a detailKey (mkDetail (sd_Value d) (sd_Height d) (sd_DisMissHeight d) height) ;;;
        ret false
      else ret false
  end.

Definition FullStakeGuardNodesCheck (height : Z) : WM (list Address) :=
  if height <? adjustWeightPeriod / 2 then ret []
  else if negb (height mod checkInterval =? 0) then ret []
  else
    fullStakeAddress <- gets GetAllFullStakeGuardNodes ;;
    collect fullStakeAddress (fun a =>
      isExpired <- checkFullStakeGuardNodeExpired a height ;;
      ret (if isExpired : bool then Some a else None)).

Definition processGuardNodeExpired (a : Address) (height : Z) : WM unit :=
  guardNodeExpired a height false.

(** Each half runs in its own snapshot; an error puts the snapshot back and
    goes on, so the check as a whole cannot fail. *)
Definition dropError (m : WM unit) : WM unit := fun w =>
  match reverting m w with
  | (Err _, w') => (Ok tt, w')
  | r => r
  end.

Definition GuardNodesCheck (bh : BlockHeader) : WM unit :=
  dropError (expired <- FullStakeGuardNodesCheck (bh_Height bh) ;;
             for_each expired (fun a => processGuardNodeExpired a (bh_Height bh))) ;;;
  dropError (expired <- FundGuardExpiredCheck (bh_Height bh) ;;
             for_each expired (fun a => guardNodeExpired a (bh_Height bh) true)).

(** ** The addresses of a pool *)

Definition iteratorAddrs (mType : Byte.byte) : WM (list Address) :=
  let prefix := if IsVerifyRole mType then PrefixPoolVerifier else PrefixPoolProposal in
  it <- gets (fun w => DataIterator w MinerPoolAddr prefix) ;;
  match it with
  | None => panic "nil pointer dereference"
  | Some es => ret (map (fun e => keyAddr prefix e.1) (iterPrefix prefix es))
  end.
End manager.
