(* ===== verification/MinerTheorems.v ===== *)
(** * MinerTheorems: what the miner subsystem guarantees

    The properties of the miner operations as they are run, inside the snapshots
    of [MinerManager.v]. *)
From S2P Require Import Prelude Bytes World Types MinerBase MinerOps MinerView MinerInv MinerSafe MinerManager.
Local Open Scope Z_scope.

(** The operations a transaction or a system routine can run on the ledger,
    without the penalty. *)
Inductive minerOp :=
| MStakeAdd (op : stakeAddOp) | MAbort (op : minerAbortOp) | MReduce (op : stakeReduceOp)
| MRefund (op : stakeRefundOp) | MVote (op : voteMinerPoolOp) | MApplyGuard (op : applyGuardMinerOp)
| MChangeMode (op : changeFundGuardModeOp) | MFreeze (op : minerFreezeOp).

Section theorems.
Context `{MinerCodecLaws} `{ChainEnv}.
Implicit Types (w : World) (S : Z).

Definition minerOp_Transition (op : minerOp) : WM unit :=
  match op with
  | MStakeAdd op => stakeAdd_Transition op
  | MAbort op => minerAbort_Transition op
  | MReduce op => stakeReduce_Transition op
  | MRefund op => stakeRefund_Transition op
  | MVote op => voteMinerPool_Transition op
  | MApplyGuard op => applyGuardMiner_Transition op
  | MChangeMode op => changeFundGuardMode_Transition op
  | MFreeze op => minerFreeze_Transition op
  end.

(** What transaction validation ensures: a known role and an amount that is a
    uint64. *)
Definition minerOp_valid (op : minerOp) : Prop :=
  match op with
  | MStakeAdd op => role (sa_minerType op) /\ u64_ok (sa_value op)
  | MAbort op => role (ab_minerType op)
  | MReduce op => role (sr_minerType op) /\ u64_ok (sr_value op)
  | _ => True
  end.

Lemma minerOp_inv S op w :
  MinerInv S w -> minerOp_valid op ->
  wp False (minerOp_Transition op) w (fun _ w' => MinerInv S w').
Proof.
  intros I Hv. destruct op; simpl in *; unfold u64_ok in *.
  - apply stakeAdd_inv; tauto.
  - by apply minerAbort_inv.
  - apply stakeReduce_inv; tauto.
  - by apply stakeRefund_inv.
  - by apply voteMinerPool_inv.
  - by apply applyGuardMiner_inv.
  - by apply changeFundGuardMode_inv.
  - by apply minerFreeze_inv.
Qed.

(** The outcome of a computation that reverts: never a panic, and the invariant
    holds after it whether it failed or not. *)
Definition settles {A} (m : WM A) w (P : World -> Prop) : Prop :=
  match m w with
  | (Panic _, _) => False
  | (_, w') => P w'
  end.

Lemma executeOperation_settles {Op} (parse : WM Op) (t : Op -> WM unit) w (P : World -> Prop) :
  readonly parse -> P w ->
  wp False parse w (fun op _ => wp False (t op) w (fun _ => P)) -> settles (executeOperation parse t) w P.
Proof.
  intros Hro Hw. specialize (Hro w). unfold settles, executeOperation, bind, ret, reverting, wp.
  destruct (parse w) as [[op|e|g] w0]; simpl in *; subst; try done.
  destruct (t op w) as [[[]|e|g] w']; auto.
Qed.
End theorems.

(** C1: every validated miner operation, run as the miner
    manager runs it, ends without a panic in a balanced ledger with the same
    number of coins: balances, stakes and withdrawals add up to the same supply,
    each miner's stake is the sum of its staked details, the proposal total is
    the sum of the active proposers' stakes and the pools list exactly the
    active miners. *)
Theorem miner_ops_conserve `{MinerCodecLaws} `{ChainEnv} S op w :
  MinerInv S w -> minerOp_valid op ->
  settles (executeOperation (ret op) minerOp_Transition) w (MinerInv S).
Proof. intros I Hv. apply executeOperation_settles; [done..|]. by apply minerOp_inv. Qed.

(** ** Accounts stay

    No miner operation removes an account, so an iterator that was there stays. *)

Section present.
Context `{MinerCodecs} `{ChainEnv} (a : Address).

Definition present (w : World) : Prop := is_Some (accounts w !! a).

Lemma present_update b f w : present w -> present (update b f w).
Proof. unfold present. rewrite lookup_update. case_decide; [by eexists|done]. Qed.

Lemma present_store {A} `{Codec A} b k (x : A) : stable present (store b k x).
Proof. unfold store. destruct (Marshal x); [|by intros ?]. apply stable_modify. intros w. apply present_update. Qed.

Lemma present_modify b (g : Account -> Account) : stable (E:=opError) present (modify (update b g)).
Proof. apply stable_modify. intros w. apply present_update. Qed.

Lemma present_decode {A} `{Codec A} data : stable present (decodeNil (A:=A) data).
Proof. apply stable_readonly. unfold decodeNil. readonly_tac. Qed.

Lemma present_decodeOpt {A} `{Codec A} data : stable present (decodeOpt (A:=A) data).
Proof. apply stable_readonly. unfold decodeOpt. readonly_tac. Qed.

#[local] Hint Resolve present_store present_modify present_decode present_decodeOpt : zv.

Lemma present_removeFromPool t b v : stable present (removeFromPool t b v).
Proof. unfold removeFromPool, setProposalTotalStake, SetData, RemoveData. stable_tac. Qed.
#[local] Hint Resolve present_removeFromPool : zv.

Lemma present_reduceTickets op : stable present (reduceTickets_Transition op).
Proof.
  unfold reduceTickets_Transition, processReduceTicket, afterTicketReduce,
    MinerPoolProposalMiner_afterTicketReduce, subTicket, unSupported, getMiner, setMiner, SetData.
  stable_tac.
Qed.
#[local] Hint Resolve present_reduceTickets : zv.

Lemma present_guardNodeExpired b h isFund : stable present (guardNodeExpired b h isFund).
Proof.
  unfold guardNodeExpired, removeFullStakeGuardNodeFromPool, getVoteInfo, delVoteInfo, getMiner, setMiner, RemoveData.
  stable_tac.
Qed.
End present.

(** ** Guard nodes *)

Section guard_checks.
Context `{MinerCodecLaws} `{ChainEnv}.
Implicit Types (w : World) (S : Z).

Lemma wp_collect {A B} (P : World -> Prop) (l : list A) (f : A -> WM (option B)) w :
  (forall x w0, P w0 -> wp False (f x) w0 (fun _ => P)) -> P w -> wp False (collect l f) w (fun _ => P).
Proof.
  intros Hf. revert w. induction l as [|x l IH]; intros w Hw; simpl; wstep; [done|].
  eapply wp_mono; [by apply Hf|]. intros o w1 Hw1. wstep.
  eapply wp_mono; [by apply IH|]. intros. by wstep.
Qed.

(** What every step of the checks keeps. *)
Definition guarded S w : Prop := MinerInv S w /\ present FundGuardNodeAddr w.

Lemma wp_guarded {A} (m : WM A) S w :
  stable (present FundGuardNodeAddr) m -> present FundGuardNodeAddr w ->
  wp False m w (fun _ => MinerInv S) -> wp False m w (fun _ => guarded S).
Proof. intros Hm Hp. specialize (Hm w Hp). unfold wp, guarded. by destruct (m w) as [[] w']. Qed.

Lemma wp_expire S (l : list Address) h isFund w :
  guarded S w -> wp False (for_each l (fun a => guardNodeExpired a h isFund)) w (fun _ => guarded S).
Proof.
  apply wp_for_each. intros a w0 _ [I Hp].
  apply wp_guarded; [apply present_guardNodeExpired|done|by apply guardNodeExpired_inv].
Qed.

Lemma wp_checkFullStake S a h w :
  guarded S w -> wp False (checkFullStakeGuardNodeExpired a h) w (fun _ => guarded S).
Proof.
  intros [I Hp]. apply wp_guarded; [|done|].
  - unfold checkFullStakeGuardNodeExpired, getDetail, setDetail. stable_tac; first [apply present_decodeOpt|apply present_store].
  - unfold checkFullStakeGuardNodeExpired. wsteps; apply wp_getDetail.
    destruct (detailAt w a a MinerTypeProposal Staked) as [d|] eqn:Hd; [|done]. wsteps; try done.
    eapply wp_mono; [by eapply wp_setDetail_same|]. intros. by wsteps.
Qed.

Lemma wp_fullStakeCheck S h w :
  guarded S w -> wp False (FullStakeGuardNodesCheck h) w (fun _ => guarded S).
Proof.
  intros Hg. unfold FullStakeGuardNodesCheck. wsteps; try done.
  apply wp_collect; [|done]. intros a w0 Hg0. wstep.
  eapply wp_mono; [by apply wp_checkFullStake|]. intros. by wsteps.
Qed.

Lemma present_updateFundGuardPoolStatus b a ty h :
  stable (present b) (updateFundGuardPoolStatus a ty h).
Proof.
  intros w Hp. unfold updateFundGuardPoolStatus.
  destruct (getFundGuardNode_state a w) as ([[fn|]|e|g] & -> & _); [by apply present_store|done..].
Qed.

Lemma wp_fundGuardScan S scanned mark mode h w :
  (forall w0, guarded S w0 -> wp False mark w0 (fun _ => guarded S)) ->
  guarded S w -> wp False (fundGuardScan scanned mark mode h) w (fun _ => guarded S).
Proof.
  intros Hmark Hg. unfold fundGuardScan, GetAllFundStakeGuardNodes. wsteps; [done|..].
  - eapply wp_mono; [apply (wp_collect (guarded S)); [|done]|].
    { intros e w0 Hg0. by wsteps. }
    intros fds w1 Hg1. wstep. eapply wp_mono; [apply (wp_collect (guarded S)); [|done]|].
    + intros fd w0 [I0 Hp0]. wsteps; try done. eapply wp_mono; [apply (wp_guarded _ S); [|done|]|].
      * apply present_updateFundGuardPoolStatus.
      * eapply wp_mono; [by apply (wp_updateFundGuardPoolStatus S)|]. by intros _ w' [].
      * intros. by wsteps.
    + intros l' w2 Hg2. wstep. eapply wp_mono; [by apply Hmark|]. intros. by wsteps.
  - exfalso. destruct Hg as [_ [o Ho]]. unfold DataIterator in *. by rewrite Ho in *.
Qed.

Lemma wp_mark S b k w : neutral b k -> guarded S w ->
  wp False (modify (SetData b k [Byte.x01]) : WM unit) w (fun _ => guarded S).
Proof. intros Hn [I Hp]. wstep. split; [by apply LedgerInv_neutral|by apply present_update]. Qed.

Lemma wp_fundGuardCheck S h w :
  guarded S w -> wp False (FundGuardExpiredCheck h) w (fun _ => guarded S).
Proof.
  intros Hg. unfold FundGuardExpiredCheck. wstep.
  apply (wp_mono _ _ _ (fun _ => guarded S)).
  { unfold fundGuardSixAddFiveNodesCheck. wsteps; try done.
    apply wp_fundGuardScan; [|done]. intros. apply wp_mark; auto with zv. }
  intros five w1 Hg1. wstep. apply (wp_mono _ _ _ (fun _ => guarded S)).
  { unfold fundGuardSixAddSixNodesCheck. wsteps; try done.
    apply wp_fundGuardScan; [|done]. intros. apply wp_mark; auto with zv. }
  intros. by wsteps.
Qed.

Lemma dropError_settles (m : WM unit) (P : World -> Prop) w :
  P w -> wp False m w (fun _ => P) -> exists w', dropError m w = (Ok tt, w') /\ P w'.
Proof.
  unfold dropError, reverting, wp. intros Hw Hm. destruct (m w) as [[[]|e|g] w']; [eauto|eauto|done].
Qed.

Lemma GuardNodesCheck_run S bh w :
  guarded S w -> exists w', GuardNodesCheck bh w = (Ok tt, w') /\ guarded S w'.
Proof.
  intros Hg. unfold GuardNodesCheck, bind, processGuardNodeExpired.
  edestruct (dropError_settles (expired <- FullStakeGuardNodesCheck (bh_Height bh) ;;
    for_each expired (fun a => guardNodeExpired a (bh_Height bh) false))%zv (guarded S) w) as (w1 & E1 & Hg1);
    [done|wstep; eapply wp_mono; [by apply wp_fullStakeCheck|]; intros; by apply wp_expire|].
  unfold bind in E1. rewrite E1.
  edestruct (dropError_settles (expired <- FundGuardExpiredCheck (bh_Height bh) ;;
    for_each expired (fun a => guardNodeExpired a (bh_Height bh) true))%zv (guarded S) w1) as (w2 & E2 & Hg2);
    [done|wstep; eapply wp_mono; [by apply wp_fundGuardCheck|]; intros; by apply wp_expire|].
  unfold bind in E2. rewrite E2. by exists w2.
Qed.
End guard_checks.

(** The guard-node check that ends every block runs
    to its end without a panic or an error, on any balanced ledger whose
    fund-guard account exists, and keeps the ledger balanced with the same number
    of coins. *)
Theorem guard_check_conserves `{MinerCodecLaws} `{ChainEnv} S bh w :
  MinerInv S w -> is_Some (accounts w !! FundGuardNodeAddr) ->
  exists w', GuardNodesCheck bh w = (Ok tt, w') /\ MinerInv S w'.
Proof.
  intros I Hp. destruct (GuardNodesCheck_run S bh w (conj I Hp)) as (w' & E & [I' _]). by exists w'.
Qed.

(** The penalty of a set of distinct verifiers, each
    with the minimum stake, takes 500 ZVC from each and shares it among the
    rewarded accounts: it never panics, a failure leaves the ledger untouched,
    and after a success the ledger is balanced with only the rest of the
    division gone (everything taken when nobody is rewarded). *)
Theorem penalty_conserves `{MinerCodecLaws} `{ChainEnv} S targets rewards h w :
  MinerInv S w -> NoDup (map BytesToAddress targets) ->
  (forall a, a ∈ map BytesToAddress targets -> 500 * ZVC <= stakeAt w a MinerTypeVerify) ->
  match MinerPenalty targets rewards h w with
  | (Ok _, w') => MinerInv (S - (Z.of_nat (length targets) * (500 * ZVC)) mod Z.of_nat (length rewards)) w'
  | (Err _, w') => w' = w
  | (Panic _, _) => False
  end.
Proof.
  intros I Hnd Hst. unfold MinerPenalty, executeOperation, reverting, bind, ret.
  set (op := mkPenalty _ _ _ _).
  pose proof (minerPenalty_inv False S op w I ltac:(done)
    ltac:(right; split_and!; [done|exact Hnd|exact Hst])) as Hw.
  unfold wp in Hw. destruct (minerPenalty_Transition op w) as [[[]|e|g] w']; [|done..].
  unfold penaltySupply in Hw. simpl in Hw. by rewrite !length_map in Hw.
Qed.

(** ** A concrete ledger, for the examples *)

Definition sampleEnv : ChainEnv := {|
  StakePlatformAddr := BigToAddress 100;
  MinerJoinedLivedGroupCountFilter := fun _ _ _ => true |}.
Definition alice : Address := BigToAddress 1001.
Definition bob : Address := BigToAddress 1002.
Definition samplePks : MinerPks :=
  mkPks MinerTypeVerify (replicate 128 Byte.x02) (replicate 32 Byte.x03).
Definition sampleWorld : World := AddBalance alice (10000 * ZVC) emptyWorld.
Definition sampleAdd : stakeAddOp :=
  mkStakeAdd samplePks (600 * ZVC) alice alice MinerTypeVerify 7.

#[local] Existing Instance bit_codecs.
#[local] Existing Instance bit_codecs_laws.
#[local] Existing Instance sampleEnv.

Lemma MinerInv_fresh a x : 0 <= x < two64 -> MinerInv x (AddBalance a x emptyWorld).
Proof.
  intros Hx. apply (MinerInv_focus _ _ a MinerTypeVerify).
  eapply LedgerInv_cast; [apply (LedgerInv_AddBalance x a MinerTypeVerify 0 x); [|lia]|done|lia].
  constructor; try done; try lia.
  - intros b u. by case_decide.
  - intros b u _. split; [by intros []|done].
Qed.

Lemma miner_ops_conserve_witness :
  fst (executeOperation (ret (MStakeAdd sampleAdd)) minerOp_Transition sampleWorld) = Ok true /\
  settles (executeOperation (ret (MStakeAdd sampleAdd)) minerOp_Transition) sampleWorld
    (MinerInv (10000 * ZVC)).
Proof.
  split; [vm_compute; reflexivity|].
  apply miner_ops_conserve; [by apply MinerInv_fresh|by split; [left|]].
Defined.

(** The ledger after Alice staked 600 ZVC as a verifier. *)
Definition stakedWorld : World := snd (minerOp_Transition (MStakeAdd sampleAdd) sampleWorld).

Lemma MinerInv_staked : MinerInv (10000 * ZVC) stakedWorld.
Proof.
  refine (wp_Ok False _ _ (fun _ => MinerInv (10000 * ZVC)) tt _ _ (run_fst _ _ _ _)); [|vm_compute; reflexivity].
  apply minerOp_inv; [by apply MinerInv_fresh|by split; [left|]].
Qed.

Lemma penalty_conserves_witness :
  fst (MinerPenalty [b32_bytes alice] [b32_bytes bob] 9 stakedWorld) = Ok true /\
  MinerInv (10000 * ZVC) (snd (MinerPenalty [b32_bytes alice] [b32_bytes bob] 9 stakedWorld)).
Proof.
  assert (fst (MinerPenalty [b32_bytes alice] [b32_bytes bob] 9 stakedWorld) = Ok true) as E
    by (vm_compute; reflexivity).
  split; [exact E|]. pose proof (penalty_conserves (10000 * ZVC) [b32_bytes alice] [b32_bytes bob] 9 stakedWorld
    MinerInv_staked) as Hp.
  rewrite (run_fst _ _ _ E) in Hp. apply Hp; [repeat constructor; by intros ?%not_elem_of_nil|].
  intros a Ha. apply list_elem_of_singleton in Ha as ->. vm_compute. discriminate.
Defined.

Definition headerAt (height : Z) : BlockHeader :=
  mkBlockHeader zeroB32 height zeroB32 0 [] 0 0 [] zeroB32 [] 0 zeroB32 zeroB32 zeroB32 [] [] 0.
Definition guardNodeWorld : World := SetData FundGuardNodeAddr KeyVote [Byte.x01] sampleWorld.

Lemma guard_check_conserves_witness :
  exists w', GuardNodesCheck (headerAt (adjustWeightPeriod * 2)) guardNodeWorld = (Ok tt, w') /\
    MinerInv (10000 * ZVC) w'.
Proof.
  apply guard_check_conserves.
  - apply LedgerInv_neutral; [by apply MinerInv_fresh|auto with zv].
  - vm_compute. by eexists.
Defined.
