(* ===== verification/MinerEffects.v ===== *)
(** * MinerEffects: what a successful miner operation does

    The conservation theorems of [MinerTheorems.v] say that no coin is lost; here
    is where the coins go.  Each theorem gives the whole effect of one operation
    on the miners, the stake details and the balances, and that nothing else
    changed. *)
From S2P Require Import Prelude Bytes World Types MinerBase MinerOps MinerView MinerInv MinerSafe MinerTheorems.
Local Open Scope Z_scope.

Section effects.
Context `{MinerCodecLaws} `{ChainEnv}.
Implicit Types (w : World) (a b src : Address) (t u s : Byte.byte).

(** What [src] has staked on [a], and what of it waits for its refund. *)
Definition staked w a src t : Z := detailVal (detailAt w a src t Staked).
Definition frozen w a src t : Z := detailVal (detailAt w a src t StakeFrozen).

(** The miner of [a] in role [t] and the listed details may differ, and the
    balances by [pay]. *)
Record onlyAt (w w' : World) (a : Address) (t : Byte.byte) (src : Address) (pay : Address -> Z) : Prop := {
  oa_miner b u : ~ (b = a /\ u = t) -> minerAt w' b u = minerAt w b u;
  oa_detail b x u s : ~ (b = a /\ x = src /\ u = t) -> detailAt w' b x u s = detailAt w b x u s;
  oa_bal b : GetBalance w' b = GetBalance w b + pay b;
}.

(** *** Stake add *)

Record addEffect (op : stakeAddOp) (w w' : World) : Prop := {
  ae_miner : exists m, minerAt w' (sa_addTarget op) (sa_minerType op) = Some m /\
    m_Stake m = stakeAt w (sa_addTarget op) (sa_minerType op) + sa_value op /\
    upperBoundOf (geneBaseIdentityOp (sa_minerType op) (minerAt w (sa_addTarget op) (sa_minerType op)))
      m (sa_height op) = true;
  ae_detail : staked w' (sa_addTarget op) (sa_addSource op) (sa_minerType op) =
    staked w (sa_addTarget op) (sa_addSource op) (sa_minerType op) + sa_value op;
  ae_frozen : frozen w' (sa_addTarget op) (sa_addSource op) (sa_minerType op) =
    frozen w (sa_addTarget op) (sa_addSource op) (sa_minerType op);
  ae_rest : onlyAt w w' (sa_addTarget op) (sa_minerType op) (sa_addSource op)
    (fun b => if decide (sa_addSource op = b) then - sa_value op else 0);
}.

Lemma upperBoundOf_stake k m1 m2 h : m_Stake m1 = m_Stake m2 -> upperBoundOf k m1 h = upperBoundOf k m2 h.
Proof. intros E. unfold upperBoundOf, checkUpperBound, checkMinerPoolUpperBound. by rewrite E. Qed.

(** The staked detail is written last. *)
Lemma wp_addDetailEffect S op w0 w eps m :
  let a := sa_addTarget op in let t := sa_minerType op in
  LedgerInv S a t (sa_value op) eps w -> 0 <= sa_value op <= eps ->
  minerAt w a t = Some m ->
  m_Stake m = stakeAt w0 a t + sa_value op ->
  upperBoundOf (geneBaseIdentityOp t (minerAt w0 a t)) m (sa_height op) = true ->
  (forall b u, ~ (b = a /\ u = t) -> minerAt w b u = minerAt w0 b u) ->
  (forall b src u s, detailAt w b src u s = detailAt w0 b src u s) ->
  (forall b, GetBalance w b = GetBalance w0 b + if decide (sa_addSource op = b) then - sa_value op else 0) ->
  wp True (stakeAddDetail op) w (fun _ w' => addEffect op w0 w').
Proof.
  intros a t I Hv Hm Hst Hub Hfm Hfd Hfb. pose proof (ledger_locked _ _ _ _ _ _ I) as Hl.
  unfold stakeAddDetail. fold a t. wsteps. apply wp_getDetail.
  assert (forall v d, decodeView (Some v) = Some d ->
    sd_Value d = detailVal (detailAt w a (sa_addSource op) t Staked) + sa_value op ->
    addEffect op w0 (write a (getDetailKey (sa_addSource op) t Staked) (Some v) w)) as Hstep.
  { intros v d Hd Hval. constructor; unfold staked, frozen; fold a t; autorewrite with ledger.
    - eauto.
    - rewrite decide_True, Hd by done. simpl. by rewrite Hval, Hfd.
    - rewrite decide_False by naive_solver. by rewrite Hfd.
    - constructor; intros; autorewrite with ledger; auto. rewrite decide_False by naive_solver. auto. }
  destruct (detailAt _ _ _ _ _) as [d|] eqn:E; wsteps; apply wp_setDetail; intros bs Hbs;
    eapply Hstep; try done; simpl.
  pose proof (ledger_detail_range _ _ _ _ _ _ _ _ _ _ _ I E eq_refl).
  rewrite wrap64_id by (unfold u64_ok; lia). done.
Qed.

Lemma wp_stakeAddEffect S op w :
  MinerInv S w -> role (sa_minerType op) -> 0 <= sa_value op ->
  wp True (stakeAdd_Transition op) w (fun _ w' => addEffect op w w').
Proof.
  set (a := sa_addTarget op). set (t := sa_minerType op). intros I Hr Hv.
  apply (MinerInv_focus _ _ a t) in I. unfold stakeAdd_Transition. fold a t.
  wsteps. apply wp_getMiner. wsteps. apply wp_checkStakeAdd. intros _.
  set (k := geneBaseIdentityOp t (minerAt w a t)).
  assert (forall w1, LedgerInv S a t 0 (sa_value op) w1 ->
    (forall b u, minerAt w1 b u = minerAt w b u) -> (forall b src u s, detailAt w1 b src u s = detailAt w b src u s) ->
    (forall b, GetBalance w1 b = GetBalance w b + if decide (sa_addSource op = b) then - sa_value op else 0) ->
    wp True (m0 <- stakeAddMiner op (minerAt w a t) ;;
      let m1 := if decide (a = sa_addSource op) then setPks m0 (sa_minerPks op) else m0 in
      guard (upperBoundOf k m1 (sa_height op)) (errOf "stake more than upper bound" RSMinerStakeOverLimit) ;;;
      m2 <- stakeAddActivate op m1 ;; setMiner m2 ;;; stakeAddDetail op)%zv w1
      (fun _ w' => addEffect op w w')) as Hmain.
  { intros w1 I1 Hm Hd Hb. rewrite <- (Hm a t). wsteps.
    eapply wp_mono; [by eapply wp_weaken, wp_stakeAddMiner|]. simpl.
    intros m0 w2 [-> G0]. set (m1 := if decide _ then _ else _).
    assert (grown w1 a t (sa_value op) m1) as G1
      by (unfold m1; case_decide; [by apply setPks_grown|done]).
    wsteps. eapply wp_mono; [by eapply wp_weaken, wp_stakeAddActivate|]. simpl. fold a t.
    intros m2 w2 (P & Hid & Hty & Hst). wsteps.
    destruct G1 as [Gid Gty Gst _]. rewrite Gid in Hid. rewrite Gty in Hty. rewrite Gst in Hst.
    eapply (wp_setMiner _ _ a); [done|]. intros bs Hbs. rewrite Hty.
    eapply (wp_addDetailEffect S _ _ _ (sa_value op) m2); fold a t; intros; autorewrite with ledger.
    - eapply LedgerInv_cast; [by eapply LedgerInv_miner|fold a t; lia|done].
    - lia.
    - by rewrite decide_True, Hbs.
    - rewrite Hst. unfold stakeAt. by rewrite Hm.
    - fold k. rewrite (upperBoundOf_stake k m2 m1); [done|]. by rewrite Hst, Gst.
    - rewrite decide_False by naive_solver. by rewrite (ps_miner _ _ _ _ _ _ P), Hm.
    - by rewrite (ps_detail _ _ _ _ _ _ P), Hd.
    - by rewrite (ps_bal _ _ _ _ _ _ P), Hb. }
  unfold processStakeAdd, BaseMiner_processStakeAdd. fold a. destruct k; try apply wp_fail;
    (apply wp_bind, wp_reduceBalance; intros Hx; (apply Hmain; intros; autorewrite with ledger;
     [eapply LedgerInv_cast; [first [apply LedgerInv_SubBalance; [exact I|lia]|exact I]|done|lia]|done..
     |repeat case_decide; naive_solver lia])).
Qed.

(** *** Stake reduce *)

Record reduceEffect (op : stakeReduceOp) (w w' : World) : Prop := {
  re_miner : exists m, minerAt w' (sr_cancelTarget op) (sr_minerType op) = Some m /\
    m_Stake m = stakeAt w (sr_cancelTarget op) (sr_minerType op) - sr_value op /\
    (IsActive m = true -> 500 * ZVC <= m_Stake m);
  re_detail : staked w' (sr_cancelTarget op) (sr_cancelSource op) (sr_minerType op) =
    staked w (sr_cancelTarget op) (sr_cancelSource op) (sr_minerType op) - sr_value op;
  re_frozen : exists d, detailAt w' (sr_cancelTarget op) (sr_cancelSource op) (sr_minerType op) StakeFrozen = Some d /\
    sd_Value d = frozen w (sr_cancelTarget op) (sr_cancelSource op) (sr_minerType op) + sr_value op /\
    sd_Height d = sr_height op;
  re_cover : sr_value op <= staked w (sr_cancelTarget op) (sr_cancelSource op) (sr_minerType op);
  re_rest : onlyAt w w' (sr_cancelTarget op) (sr_minerType op) (sr_cancelSource op) (fun _ => 0);
}.

(** Two details of one staker fit below the supply together. *)
Lemma ledger_two_details S a t delta w src d f :
  LedgerInv S a t delta 0 w -> detailAt w a src t Staked = Some d -> detailAt w a src t StakeFrozen = Some f ->
  sd_Value d + sd_Value f < two64.
Proof.
  intros I Hd Hf.
  epose proof (LedgerInv_detail S a t delta 0 w src Staked None I) as I1. rewrite Hd in I1. simpl in I1.
  specialize (I1 ltac:(done) ltac:(by intros _ _ [? ?])). pose proof (ledger_locked _ _ _ _ _ _ I1).
  assert (detailAt (write a (getDetailKey src t Staked) None w) a src t StakeFrozen = Some f) as Hf1
    by (autorewrite with ledger; rewrite decide_False by (by intros (_ & _ & _ & ?)); done).
  pose proof (ledger_detail_range _ _ _ _ _ _ _ _ _ _ _ I1 Hf1 eq_refl).
  lia.
Qed.

Lemma wp_reduceDetailsEffect S op w0 w m :
  let a := sr_cancelTarget op in let t := sr_minerType op in
  LedgerInv S a t (- sr_value op) 0 w -> 0 <= sr_value op ->
  minerAt w a t = Some m -> m_Stake m = stakeAt w0 a t - sr_value op ->
  (IsActive m = true -> 500 * ZVC <= m_Stake m) ->
  (forall b u, ~ (b = a /\ u = t) -> minerAt w b u = minerAt w0 b u) ->
  (forall b src u s, detailAt w b src u s = detailAt w0 b src u s) ->
  (forall b, GetBalance w b = GetBalance w0 b) ->
  wp True (stakeReduceDetails op (stakeAt w a t + sr_value op)) w (fun _ w' => reduceEffect op w0 w').
Proof.
  intros a t I Hv Hm Hst Hact Hfm Hfd Hfb. unfold stakeReduceDetails. fold a t. wsteps. apply wp_getDetail.
  destruct (detailAt w a _ t Staked) as [sd|] eqn:Hsd; [|done].
  pose proof (ledger_locked _ _ _ _ _ _ I) as Hl.
  pose proof (ledger_detail_range _ _ _ _ _ _ _ _ _ _ _ I Hsd eq_refl) as Hr.
  assert (forall v d' v', detailVal (decodeView v) = sd_Value sd - sr_value op -> sr_value op <= sd_Value sd ->
    decodeView (Some v') = Some d' ->
    sd_Value d' = detailVal (detailAt w a (sr_cancelSource op) t StakeFrozen) + sr_value op ->
    sd_Height d' = sr_height op ->
    reduceEffect op w0 (write a (getDetailKey (sr_cancelSource op) t StakeFrozen) (Some v')
      (write a (getDetailKey (sr_cancelSource op) t Staked) v w))) as Hstep.
  { intros v d' v' Hval Hle Hd' Hfz Hht. constructor; unfold staked, frozen; fold a t; autorewrite with ledger.
    - eauto.
    - rewrite decide_False, decide_True by naive_solver. rewrite Hval, <- Hfd, Hsd. done.
    - exists d'. rewrite decide_True, Hd', Hfz, <- Hfd by done. done.
    - by rewrite <- Hfd, Hsd.
    - constructor; intros; autorewrite with ledger; [by auto| |rewrite Hfb; lia].
      rewrite !decide_False by naive_solver. auto. }
  wsteps; [by apply wp_panic|..]; rewrite wrap64_sub_small in * by (unfold u64_ok; lia);
    [apply wp_removeDetail|apply wp_setDetail; intros bs Hbs]; wsteps; apply wp_getDetail, wp_setDetail;
    intros bs' Hbs'; autorewrite with ledger in Hbs'; rewrite decide_False in Hbs' by naive_solver;
    (eapply Hstep; [|lia|exact Hbs'|..]); rewrite ?Hbs; simpl; try lia;
    destruct (detailAt w a _ t StakeFrozen) as [fd|] eqn:E; simpl; try done;
    (pose proof (ledger_detail_range _ _ _ _ _ _ _ _ _ _ _ I E eq_refl);
     pose proof (ledger_two_details _ _ _ _ _ _ _ _ I Hsd E));
    rewrite wrap64_id by (unfold u64_ok; lia); done.
Qed.

(** A proposer that stays active is still above the minimum stake. *)
Lemma wp_reducePoolActive op origin m w :
  wp True (stakeReducePool op origin m) w (fun m' _ => IsActive m' = true ->
    IsActive m = true /\ (sr_minerType op = MinerTypeProposal -> checkLowerBound m = true)).
Proof.
  unfold stakeReducePool, IsProposalRole. wsteps.
  - apply wp_run; [done|]. intros [] w' _. by wstep.
  - apply wp_run; [done|]. intros [] w' _. wstep. intros ?. split; [done|].
    by destruct (checkLowerBound m).
  - intros Ha. split; [done|]. intros Et. rewrite Ha, bool_decide_eq_true_2 in * by done. done.
Qed.

Lemma wp_stakeReduceEffect S op w :
  MinerInv S w -> role (sr_minerType op) -> 0 <= sr_value op ->
  wp True (stakeReduce_Transition op) w (fun _ w' => reduceEffect op w w').
Proof.
  set (a := sr_cancelTarget op). set (t := sr_minerType op). intros I Hr Hv.
  apply (MinerInv_focus _ _ a t) in I.
  assert (wp True (BaseMiner_processStakeReduce op (minerAt w a t)) w (fun _ w' => reduceEffect op w w')) as Hmain.
  { unfold BaseMiner_processStakeReduce.
    destruct (minerAt w a t) as [m|] eqn:Hm; [|done]. fold a t.
    pose proof (ledger_locked _ _ _ _ _ _ I) as Hl.
    pose proof (ledger_miner_stake _ _ _ _ _ I _ _ _ Hm) as Hs.
    destruct (li_wf _ _ _ _ _ _ I _ _ _ Hm) as [Hid Hty].
    assert (m_Stake m = stakeAt w a t) as Es by (unfold stakeAt; by rewrite Hm).
    wsteps. rewrite wrap64_sub_small by (unfold u64_ok; lia). set (m1 := with_Stake _ m).
    apply (wp_mono _ _ _ (fun _ w' => w' = w /\
      (t = MinerTypeVerify -> IsActive m1 = true -> checkLowerBound m1 = true))).
    { unfold checkCanReduce, IsVerifyRole. fold t. wsteps; (split; [done|]); intros Ht Ha.
      - by rewrite Ha in *.
      - rewrite bool_decide_eq_true_2 in * by done. by destruct (checkLowerBound m1). }
    intros _u w1 [-> Hver]. wstep. unfold m1 in *. rewrite Es in *.
    eapply wp_mono; [apply wp_and; [apply wp_weaken, (wp_stakeReducePool S); try done|apply wp_reducePoolActive]|].
    - constructor; simpl; auto. unfold isActiveAt. fold a t. by rewrite Hm.
    - simpl. lia.
    - cbv beta. simpl. fold a t. intros m2 w2 [(P & Hid2 & Hty2 & Hst2) Hac]. wsteps.
      rewrite Hid in Hid2. rewrite Hty in Hty2.
      eapply (wp_setMiner _ _ a); [done|]. intros bs Hbs. rewrite Hty2.
      set (w3 := write a (getMinerKey t) (Some bs) w2).
      assert (minerAt w3 a t = Some m2) as Em3 by (unfold w3; by rewrite minerAt_wminer, decide_True).
      assert (stakeAt w3 a t = stakeAt w a t - sr_value op) as Es3 by (unfold stakeAt at 1; by rewrite Em3).
      replace (stakeAt w a t) with (stakeAt w3 a t + sr_value op) by lia.
      apply (wp_reduceDetailsEffect S op w w3 m2); fold a t; try done; intros.
      + eapply LedgerInv_cast; [by eapply LedgerInv_miner|fold a t; lia|done].
      + rewrite Hst2. change (500 * ZVC) with minimumStake. apply Z.leb_le.
        destruct (Hac ltac:(done)) as [Ha1 Hprop]. destruct Hr as [Hr|Hr]; [by apply Hver|by apply Hprop].
      + unfold w3. autorewrite with ledger. rewrite decide_False by naive_solver. by rewrite (ps_miner _ _ _ _ _ _ P).
      + unfold w3. autorewrite with ledger. by rewrite (ps_detail _ _ _ _ _ _ P).
      + unfold w3. autorewrite with ledger. by rewrite (ps_bal _ _ _ _ _ _ P). }
  unfold stakeReduce_Transition, processStakeReduce. fold a t. wsteps; apply wp_getMiner.
  destruct (geneBaseIdentityOp _ _); try apply wp_fail; exact Hmain.
Qed.

(** *** Stake refund *)

Record refundEffect (op : stakeRefundOp) (w w' : World) : Prop := {
  fe_frozen : exists d, detailAt w (rf_refundTarget op) (rf_refundSource op) (rf_minerType op) StakeFrozen = Some d /\
    (sd_Height d + refundDeadline op (sd_Height d))%u64 < rf_height op /\
    detailAt w' (rf_refundTarget op) (rf_refundSource op) (rf_minerType op) StakeFrozen = None /\
    forall b, GetBalance w' b = GetBalance w b + if decide (rf_refundSource op = b) then sd_Value d else 0;
  fe_miner b u : minerAt w' b u = minerAt w b u;
  fe_detail b src u s :
    ~ (b = rf_refundTarget op /\ src = rf_refundSource op /\ u = rf_minerType op /\ s = StakeFrozen) ->
    detailAt w' b src u s = detailAt w b src u s;
}.

Lemma wp_stakeRefundEffect op w :
  wp True (stakeRefund_Transition op) w (fun _ w' => refundEffect op w w').
Proof.
  unfold stakeRefund_Transition. wsteps; apply wp_getDetail. destruct (detailAt _ _ _ _ _) as [fd|] eqn:E; [|done].
  wsteps; apply wp_removeDetail. wsteps. constructor; intros; autorewrite with ledger; try done.
  - exists fd. split_and!; autorewrite with ledger; try done.
    + destruct (Z.leb_spec (rf_height op) (sd_Height fd + refundDeadline op (sd_Height fd))%u64); [done|lia].
    + by rewrite decide_True.
    + intros b. autorewrite with ledger. repeat case_decide; naive_solver lia.
  - by rewrite decide_False by naive_solver.
Qed.
End effects.

(** A successful stake-add on a balanced ledger takes
    exactly the value from the source, adds it to the miner's stake and to the
    source's staked detail, leaves the new stake within the upper bound of the
    miner's kind, and changes no other miner, detail or balance. *)
Theorem stake_add_effect `{MinerCodecLaws} `{ChainEnv} S op w w' :
  MinerInv S w -> minerOp_valid (MStakeAdd op) -> stakeAdd_Transition op w = (Ok tt, w') -> addEffect op w w'.
Proof. intros I [Hr [Hv _]]. eapply (wp_Ok True _ _ (fun _ => addEffect op w)), (wp_stakeAddEffect S); done. Qed.

(** A successful stake-reduce moves exactly the value
    from the source's staked detail, which covers it, to its frozen detail, whose
    waiting time starts again, lowers the miner's stake by it, never leaves an
    active miner below the minimum stake, and changes no balance. *)
Theorem stake_reduce_effect `{MinerCodecLaws} `{ChainEnv} S op w w' :
  MinerInv S w -> minerOp_valid (MReduce op) -> stakeReduce_Transition op w = (Ok tt, w') -> reduceEffect op w w'.
Proof. intros I [Hr [Hv _]]. eapply (wp_Ok True _ _ (fun _ => reduceEffect op w)), (wp_stakeReduceEffect S); done. Qed.

(** What a source has staked and frozen at a miner, and how balances moved. *)
Record cycleStep `{MinerCodecs} S (a src : Address) (t : Byte.byte) (w w' : World) (dStaked dFrozen dSource : Z) : Prop := {
  cs_ledger : MinerInv S w';
  cs_staked : staked w' a src t = staked w a src t + dStaked;
  cs_frozen : frozen w' a src t = frozen w a src t + dFrozen;
  cs_balance b : GetBalance w' b = GetBalance w b + if decide (src = b) then dSource else 0;
}.

(** C28: coins staked, reduced and refunded come back, on a ledger balanced at every
    step.  A source stakes a value at a miner, reduces its stake there by a value, and
    is refunded, each step successful.  Staking moves its value from the source's
    balance to its staked amount; reducing moves its value from the staked to the
    frozen amount; the refund pays the source all that is frozen, what had been frozen
    before included, and leaves nothing frozen; no other balance changes.  So with the
    same value staked and reduced, and nothing frozen before, every balance and the
    staked amount are in the end what they were. *)
Theorem stake_cycle `{MinerCodecLaws} `{ChainEnv} S add red ref w0 w1 w2 w3 (a src : Address) (t : Byte.byte) :
  MinerInv S w0 -> minerOp_valid (MStakeAdd add) -> minerOp_valid (MReduce red) ->
  sa_addTarget add = a -> sa_addSource add = src -> sa_minerType add = t ->
  sr_cancelTarget red = a -> sr_cancelSource red = src -> sr_minerType red = t ->
  rf_refundTarget ref = a -> rf_refundSource ref = src -> rf_minerType ref = t ->
  stakeAdd_Transition add w0 = (Ok tt, w1) ->
  stakeReduce_Transition red w1 = (Ok tt, w2) ->
  stakeRefund_Transition ref w2 = (Ok tt, w3) ->
  cycleStep S a src t w0 w1 (sa_value add) 0 (- sa_value add) /\
  cycleStep S a src t w1 w2 (- sr_value red) (sr_value red) 0 /\
  cycleStep S a src t w2 w3 0 (- frozen w2 a src t) (frozen w2 a src t) /\
  (sr_value red = sa_value add -> frozen w0 a src t = 0 ->
   (forall b, GetBalance w3 b = GetBalance w0 b) /\ staked w3 a src t = staked w0 a src t /\ frozen w3 a src t = 0).
Proof.
  intros I Va Vr <- <- <- E1 E2 E3 F1 F2 F3 Ra Rr Rf.
  assert (MinerInv S w1) as I1 by exact (wp_Ok _ _ _ _ _ _ (minerOp_inv S (MStakeAdd add) w0 I Va) Ra).
  assert (MinerInv S w2) as I2 by exact (wp_Ok _ _ _ _ _ _ (minerOp_inv S (MReduce red) w1 I1 Vr) Rr).
  assert (MinerInv S w3) as I3 by exact (wp_Ok _ _ _ _ _ _ (stakeRefund_inv S ref w2 I2) Rf).
  pose proof (wp_Ok _ _ _ _ _ _ (wp_stakeAddEffect S add w0 I (proj1 Va) (proj1 (proj2 Va))) Ra) as A.
  pose proof (wp_Ok _ _ _ _ _ _ (wp_stakeReduceEffect S red w1 I1 (proj1 Vr) (proj1 (proj2 Vr))) Rr) as R.
  destruct (wp_Ok _ _ _ _ _ _ (wp_stakeRefundEffect ref w2) Rf) as [(d & Hd & _ & Hn & Hb) _ Hdt].
  destruct R as [_ Rs (d' & Hd' & Hv' & _) _ [_ _ Rb]]. destruct A as [_ As Af [_ _ Ab]].
  rewrite E1, E2, E3 in *. rewrite F1, F2, F3 in *. simplify_eq.
  assert (frozen w2 (sa_addTarget add) (sa_addSource add) (sa_minerType add) = sd_Value d') as Hf2 by (unfold frozen; by rewrite Hd').
  assert (frozen w3 (sa_addTarget add) (sa_addSource add) (sa_minerType add) = 0) as Hf3 by (unfold frozen; by rewrite Hn).
  assert (staked w3 (sa_addTarget add) (sa_addSource add) (sa_minerType add) =
    staked w2 (sa_addTarget add) (sa_addSource add) (sa_minerType add)) as Hs3.
  { unfold staked. by rewrite Hdt by (intros (_ & _ & _ & ?); done). }
  split_and!; [constructor; [done|done|lia|done]|constructor; [done|lia|lia|intros b; rewrite Rb; by case_decide]| |].
  - constructor; [done|lia|lia|]. intros b. by rewrite Hb, Hf2.
  - intros Ev Hz. split_and!; [|lia|done]. intros b. rewrite Hb, Rb, Ab. case_decide; lia.
Qed.

(** ** Examples *)

#[local] Existing Instance bit_codecs.
#[local] Existing Instance bit_codecs_laws.
#[local] Existing Instance sampleEnv.

Definition proposerPks : MinerPks := mkPks MinerTypeProposal (replicate 128 Byte.x02) (replicate 32 Byte.x03).
Definition cycleAdd : stakeAddOp := mkStakeAdd proposerPks (600 * ZVC) alice alice MinerTypeProposal 7.
Definition cycleReduce : stakeReduceOp := mkReduce alice alice (600 * ZVC) MinerTypeProposal 8.
Definition cycleRefund : stakeRefundOp := mkRefund alice alice MinerTypeProposal 100000.
Definition cycle1 : World := snd (stakeAdd_Transition cycleAdd sampleWorld).
Definition cycle2 : World := snd (stakeReduce_Transition cycleReduce cycle1).
Definition cycle3 : World := snd (stakeRefund_Transition cycleRefund cycle2).

Lemma stake_add_effect_witness : addEffect cycleAdd sampleWorld cycle1.
Proof.
  eapply (stake_add_effect (10000 * ZVC)); [by apply MinerInv_fresh|by split; [right|]|].
  apply run_fst. vm_compute. reflexivity.
Defined.

Lemma cycle1_inv : MinerInv (10000 * ZVC) cycle1.
Proof.
  refine (wp_Ok False _ _ (fun _ => MinerInv (10000 * ZVC)) tt _
    (minerOp_inv (10000 * ZVC) (MStakeAdd cycleAdd) sampleWorld _ _) (run_fst _ _ _ _));
    [by apply MinerInv_fresh|by split; [right|]|vm_compute; reflexivity].
Qed.

Lemma stake_reduce_effect_witness : reduceEffect cycleReduce cycle1 cycle2.
Proof.
  eapply (stake_reduce_effect (10000 * ZVC)); [apply cycle1_inv|by split; [right|]|].
  unfold cycle2. apply run_fst. vm_compute. reflexivity.
Defined.

Lemma stake_cycle_witness : GetBalance cycle3 alice = GetBalance sampleWorld alice.
Proof.
  assert (MinerInv (10000 * ZVC) sampleWorld) as I by (by apply MinerInv_fresh).
  assert (minerOp_valid (MStakeAdd cycleAdd)) as Va by (by split; [right|]).
  assert (minerOp_valid (MReduce cycleReduce)) as Vr by (by split; [right|]).
  assert (frozen sampleWorld alice alice MinerTypeProposal = 0) as Hz by (vm_compute; reflexivity).
  assert (stakeAdd_Transition cycleAdd sampleWorld = (Ok tt, cycle1)) as E1
    by (unfold cycle1; apply run_fst; vm_compute; reflexivity).
  assert (stakeReduce_Transition cycleReduce cycle1 = (Ok tt, cycle2)) as E2
    by (unfold cycle2; apply run_fst; vm_compute; reflexivity).
  assert (stakeRefund_Transition cycleRefund cycle2 = (Ok tt, cycle3)) as E3
    by (unfold cycle3; apply run_fst; vm_compute; reflexivity).
  destruct (stake_cycle (10000 * ZVC) cycleAdd cycleReduce cycleRefund sampleWorld cycle1 cycle2 cycle3 alice alice MinerTypeProposal
    I Va Vr eq_refl eq_refl eq_refl eq_refl eq_refl eq_refl eq_refl eq_refl eq_refl E1 E2 E3) as (_ & _ & _ & Hc).
  exact (proj1 (Hc eq_refl Hz) alice).
Defined.
