(* ===== verification/Group.v ===== *)
(** * Group: verifier groups

    [src/core/group]: the transactions of the group-create rounds
    ([operation.go]) with the keys they are stored under ([store.go]), the chain
    of groups with its cache ([pool.go]) and the manager that ends each block
    ([manager.go]).

    The checker of the rounds is the interface [types.GroupCreateChecker], the
    skip counter the interface [groupSkipCounter]; both are parameters here, as
    they are in the package.  The cache of groups is the LRU cache of
    hashicorp/golang-lru, a parameter with its laws.  The hit meter of the cache
    only feeds the log and is left out. *)
From S2P Require Import Prelude Bytes World Types MinerBase MinerOps MinerView MinerInv MinerSafe MinerManager MinerTheorems.
Local Open Scope Z_scope.
Local Open Scope zv_scope.

(** ** Packets and groups *)

Record EncryptedSharePiecePacket := mkPiece {
  ep_SeedD : Hash; ep_SenderD : bytes; ep_Pubkey0D : bytes; ep_PiecesD : bytes }.
Record MpkPacket := mkMpk {
  mp_SeedD : Hash; mp_SenderD : bytes; mp_MpkD : bytes; mp_SignD : bytes }.
Record OriginSharePiecePacket := mkOrigin {
  op_SeedD : Hash; op_SenderD : bytes; op_EncSeckeyD : bytes; op_PiecesD : bytes }.

Record member := mkMember { mem_Id : bytes; mem_Pk : bytes }.
Record groupHeader := mkGroupHeader {
  gh_SeedD : Hash;
  gh_WorkHeightD : Z;
  gh_DismissHeightD : Z;
  gh_PublicKeyD : bytes;
  gh_ThresholdD : Z;
  gh_PreSeed : Hash;
  gh_GroupHeightD : Z;
}.
Record group := mkGroup { HeaderD : groupHeader; MembersD : list member }.

Definition livedAt (g : groupHeader) (height : Z) : bool := height <? gh_DismissHeightD g.
Definition activatedAt (g : groupHeader) (height : Z) : bool :=
  (gh_WorkHeightD g <=? height) && livedAt g height.

Definition hasMember (g : group) (id : bytes) : bool :=
  existsb (fun m => bool_decide (mem_Id m = id)) (MembersD g).

(** The group a checker reports: a [types.GroupI], of which the predecessor and
    the group height are not read. *)
Record groupInfo := mkGroupInfo {
  gi_Seed : Hash; gi_WorkHeight : Z; gi_DismissHeight : Z; gi_PublicKey : bytes; gi_Threshold : Z;
  gi_Members : list member }.

Definition newGroup (i : groupInfo) (top : option group) : group :=
  mkGroup (mkGroupHeader (gi_Seed i) (gi_WorkHeight i) (gi_DismissHeight i) (gi_PublicKey i) (gi_Threshold i)
             (from_option (fun t => gh_SeedD (HeaderD t)) zeroB32 top)
             (from_option (fun t => (gh_GroupHeightD (HeaderD t) + 1)%u64) 0 top))
    (gi_Members i).

Class GroupCodecs := {
  piece_codec :: Codec EncryptedSharePiecePacket;
  mpk_codec :: Codec MpkPacket;
  origin_codec :: Codec OriginSharePiecePacket;
  group_codec :: Codec group;
}.

(** ** Storage keys *)

Definition dataVersion : Byte.byte := Byte.x01.
Definition dataTypePiece : Byte.byte := Byte.x01.
Definition dataTypeMpk : Byte.byte := Byte.x02.
Definition dataTypeOriginPiece : Byte.byte := Byte.x03.
Definition originPieceReqKey : bytes := str "originPieceRequired".
Definition groupDataKey : bytes := str "group".
Definition topGroupKey : bytes := str "topGroup".
Definition skipCounterKey : bytes := str "skip_cnt".

Definition HashToAddress (h : Hash) : Address := BytesToAddress (b32_bytes h).

Record txDataKey := mkTxDataKey { tk_version : Byte.byte; tk_dataType : Byte.byte; tk_source : Address }.
Definition newTxDataKey (dataType : Byte.byte) (source : Address) : txDataKey :=
  mkTxDataKey dataVersion dataType source.
Definition keyToByte (key : txDataKey) : bytes :=
  tk_version key :: tk_dataType key :: b32_bytes (tk_source key).
Definition getKeyPrefix (dataType : Byte.byte) : bytes := [dataVersion; dataType].
Definition keyLength : nat := 2 + 32.
Definition byteToKey (bs : bytes) : option txDataKey :=
  if negb (length bs =? keyLength)%nat then None
  else
    match bs with
    | version :: dType :: rest =>
        if negb (bool_decide (version = dataVersion)) then None
        else Some (mkTxDataKey version dType (BytesToAddress (take 32 rest)))
    | _ => None
    end.

(** ** Interfaces *)

Inductive CreateResultCode := CreateResultSuccess | CreateResultMarkEvil | CreateResultFail | CreateResultIdle.
(** [GroupInfo] is nil unless the group was created. *)
Record CreateResult := mkCreateResult {
  cr_Seed : Hash; cr_Code : CreateResultCode; cr_GroupInfo : option groupInfo; cr_FrozenMiners : list bytes }.
Record PunishmentMsg := mkPunishment { pm_PenaltyTarget : list bytes; pm_RewardTarget : list bytes }.

(** The context of a check is a height; a check returns an error or nil. *)
Class GroupCreateChecker := {
  CheckEncryptedPiecePacket : EncryptedSharePiecePacket -> Z -> option opError;
  CheckMpkPacket : MpkPacket -> Z -> option opError;
  CheckOriginPiecePacket : OriginSharePiecePacket -> Z -> option opError;
  CheckGroupCreateResult : Z -> option CreateResult;
  CheckGroupCreatePunishment : Z -> option PunishmentMsg;
}.

(** The chain's headers and the skipped groups between two blocks; the map's keys
    are visited in no fixed order, so it is the list of a visit. *)
Class SkipEnv := {
  skip_QueryBlockHeaderByHash : Hash -> option BlockHeader;
  GroupSkipCountsBetween : BlockHeader -> Z -> list (Hash * Z);
}.

Class LruCache (K V : Type) := {
  cache : Type;
  cacheGet : K -> cache -> option V * cache;
  cacheAdd : K -> V -> cache -> cache;
  cacheContainsOrAdd : K -> V -> cache -> cache;
}.
Arguments cache K V {_}.

(** A cache holds what was added, until it evicts it. *)
Class LruLaws K V `{LruCache K V} := {
  held : cache K V -> K -> option V;
  cacheGet_held k c : fst (cacheGet k c) = held c k;
  cacheGet_keeps k c k' : held (snd (cacheGet k c)) k' = held c k';
  cacheAdd_held k v c k' v' :
    held (cacheAdd k v c) k' = Some v' -> (k' = k /\ v' = v) \/ (k' <> k /\ held c k' = Some v');
  cacheAdd_hit k v c : held (cacheAdd k v c) k = Some v;
  cacheContainsOrAdd_held k v c k' v' :
    held (cacheContainsOrAdd k v c) k' = Some v' -> (k' = k /\ v' = v) \/ held c k' = Some v';
}.

(** ** The operations of the rounds *)

Inductive groupOp :=
| sendPieceOp (data : EncryptedSharePiecePacket) (source : Address) (payload : bytes)
| sendMpkOp (data : MpkPacket) (source : option Address) (payload : bytes)
| sendOriginPieceOp (data : OriginSharePiecePacket) (source : option Address) (payload : bytes).

Section operations.
Context `{GroupCodecs} `{GroupCreateChecker}.

(** Nil and empty data are one value here; both are refused, the second by the
    decoder. *)
Definition packet {P} `{Codec P} (tx : Transaction) : WM P :=
  if bool_decide (tx_Data tx = []) then fail (errOf "payload length error" RSFail)
  else
    match Unmarshal (tx_Data tx) with
    | Some data => ret data
    | None => fail (errOf "decode error" RSFail)
    end.

Definition check (err : option opError) : WM unit :=
  match err with Some e => fail e | None => ret tt end.

Definition sendPiece_Parse (tx : Transaction) (height : Z) : WM groupOp :=
  data <- packet tx ;;
  source <- deref (tx_Source tx) ;;
  check (CheckEncryptedPiecePacket data height) ;;;
  ret (sendPieceOp data source (tx_Data tx)).

Definition sendMpk_Parse (tx : Transaction) (height : Z) : WM groupOp :=
  data <- packet tx ;;
  check (CheckMpkPacket data height) ;;;
  ret (sendMpkOp data (tx_Source tx) (tx_Data tx)).

Definition sendOriginPiece_Parse (tx : Transaction) (height : Z) : WM groupOp :=
  data <- packet tx ;;
  check (CheckOriginPiecePacket data height) ;;;
  ret (sendOriginPieceOp data (tx_Source tx) (tx_Data tx)).

(** [NewOperation] of one of the three group types, with its [ParseTransaction]. *)
Definition NewOperation_Parse (tx : Transaction) (height : Z) : WM groupOp :=
  if tx_Type tx =? TransactionTypeGroupPiece then sendPiece_Parse tx height
  else if tx_Type tx =? TransactionTypeGroupMpk then sendMpk_Parse tx height
  else if tx_Type tx =? TransactionTypeGroupOriginPiece then sendOriginPiece_Parse tx height
  else panic "nil pointer dereference".

Definition Operation (op : groupOp) : WM unit :=
  match op with
  | sendPieceOp data source payload =>
      modify (SetData (HashToAddress (ep_SeedD data)) (keyToByte (newTxDataKey dataTypePiece source)) payload)
  | sendMpkOp data source payload =>
      source <- deref source ;;
      modify (SetData (HashToAddress (mp_SeedD data)) (keyToByte (newTxDataKey dataTypeMpk source)) payload)
  | sendOriginPieceOp data source payload =>
      source <- deref source ;;
      modify (SetData (HashToAddress (op_SeedD data)) (keyToByte (newTxDataKey dataTypeOriginPiece source)) payload)
  end.

(** ** Reading the rounds' packets *)

(** The packets of one type stored for a seed; a packet that does not decode ends
    the loop with an error. *)
Definition decodePackets {P} `{Codec P} (prefix : bytes) (es : list (bytes * bytes)) : option (list P) :=
  mapM (fun e => Unmarshal e.2) (iterPrefix prefix es).

Definition GetEncryptedPiecePackets (db : World) (seed : Hash) : option (list EncryptedSharePiecePacket) :=
  let prefix := getKeyPrefix dataTypePiece in
  match DataIterator db (HashToAddress seed) prefix with
  | None => None
  | Some es => decodePackets prefix es
  end.

(** The other two readers do not test the iterator for nil. *)
Definition GetMpkPackets (db : World) (seed : Hash) : outcome opError (list MpkPacket) :=
  let prefix := getKeyPrefix dataTypeMpk in
  match DataIterator db (HashToAddress seed) prefix with
  | None => Panic "nil pointer dereference"
  | Some es =>
      match decodePackets prefix es with Some l => Ok l | None => Err (errOf "decode error" RSFail) end
  end.

Definition GetOriginPiecePackets (db : World) (seed : Hash) : outcome opError (list OriginSharePiecePacket) :=
  let prefix := getKeyPrefix dataTypeOriginPiece in
  match DataIterator db (HashToAddress seed) prefix with
  | None => Panic "nil pointer dereference"
  | Some es =>
      match decodePackets prefix es with Some l => Ok l | None => Err (errOf "decode error" RSFail) end
  end.

Definition hasSent (dataType : Byte.byte) (db : World) (sender : bytes) (seed : Hash) : bool :=
  bool_decide (is_Some (GetData db (HashToAddress seed) (keyToByte (newTxDataKey dataType (BytesToAddress sender))))).
Definition HasSentEncryptedPiecePacket := hasSent dataTypePiece.
Definition HasSentMpkPacket := hasSent dataTypeMpk.
Definition HasSentOriginPiecePacket := hasSent dataTypeOriginPiece.

Definition IsOriginPieceRequired (db : World) (seed : Hash) : bool :=
  bool_decide (is_Some (GetData db (HashToAddress seed) originPieceReqKey)).
End operations.

(** ** The chain of groups *)

(** The accounts the manager works on, the pool's cache and genesis group. *)
Record GroupState `{LruCache Hash group} := mkGroupState {
  gs_db : World; gs_cache : cache Hash group; gs_genesis : option group }.
Arguments mkGroupState {_} _ _ _.

Section pool.
Context `{GroupCodecs} `{LruCache Hash group}.
Abbreviation GM := (M GroupState opError).

Definition onGroupDB (f : World -> World) : GM unit :=
  modify (fun s => mkGroupState (f (gs_db s)) (gs_cache s) (gs_genesis s)).
Definition onCache (f : cache Hash group -> cache Hash group) : GM unit :=
  modify (fun s => mkGroupState (gs_db s) (f (gs_cache s)) (gs_genesis s)).
Definition setGenesis (g : option group) : GM unit :=
  modify (fun s => mkGroupState (gs_db s) (gs_cache s) g).

(** What the accounts hold under a seed. *)
Definition storedGroup (db : World) (seed : Hash) : option group :=
  data ← GetData db (HashToAddress seed) groupDataKey; Unmarshal data.

(** [get(db, seed)]: the cache first, then the accounts. *)
Definition pool_get (seed : Hash) : GM (option group) :=
  s <- get ;;
  let hit := cacheGet seed (gs_cache s) in
  onCache (fun _ => hit.2) ;;;
  match hit.1 with
  | Some g => ret (Some g)
  | None =>
      match storedGroup (gs_db s) seed with
      | Some gr => onCache (cacheContainsOrAdd seed gr) ;;; ret (Some gr)
      | None => ret None
      end
  end.

Definition getTopGroupSeed (db : World) : Hash :=
  BytesToHash (default [] (GetData db GroupTopAddress topGroupKey)).
Definition getTopGroup : GM (option group) :=
  s <- get ;; pool_get (getTopGroupSeed (gs_db s)).

Definition saveTopGroup (g : group) : GM unit :=
  onGroupDB (SetData GroupTopAddress topGroupKey (b32_bytes (gh_SeedD (HeaderD g)))).

Definition pool_add (g : group) : GM unit :=
  match Marshal g with
  | None => fail (errOf "encode error" RSFail)
  | Some byteData =>
      let seed := gh_SeedD (HeaderD g) in
      onGroupDB (SetData (HashToAddress seed) groupDataKey byteData) ;;;
      onCache (cacheAdd seed g) ;;;
      saveTopGroup g
  end.

Definition initGenesis (gen : groupInfo) : GM unit :=
  g <- pool_get (gi_Seed gen) ;;
  setGenesis g ;;;
  match g with
  | Some _ => ret tt
  | None =>
      let g := newGroup gen None in
      setGenesis (Some g) ;;;
      pool_add g
  end.

(** [iterateGroups]: from the top back to the genesis group, which is left out;
    the visitor says whether to go on.  [fuel] bounds the visits: see
    [walk_chain] below. *)
Fixpoint walk {A} (fuel : nat) (current : option group) (f : group -> A -> A * bool) (acc : A) : GM A :=
  match fuel with
  | O => panic "out of fuel"
  | S fuel' =>
      match current with
      | None => ret acc
      | Some g =>
          if 0 <? gh_WorkHeightD (HeaderD g) then
            let r := f g acc in
            if r.2 then
              next <- pool_get (gh_PreSeed (HeaderD g)) ;;
              walk fuel' next f r.1
            else ret r.1
          else ret acc
      end
  end.
Definition iterateGroups {A} (fuel : nat) (f : group -> A -> A * bool) (acc : A) : GM A :=
  top <- getTopGroup ;; walk fuel top f acc.

(** The visitors collect in visiting order; [revert] puts the oldest first, and
    the genesis group follows. *)
Definition GetActivatedGroupsAt (fuel : nat) (height : Z) : GM (list (option group)) :=
  gis <- iterateGroups fuel (fun g acc =>
    (if activatedAt (HeaderD g) height then acc ++ [Some g] else acc, livedAt (HeaderD g) height)) [] ;;
  s <- get ;;
  ret (rev gis ++ [gs_genesis s]).

Definition GetLivedGroupsAt (fuel : nat) (height : Z) : GM (list (option group)) :=
  gis <- iterateGroups fuel (fun g acc =>
    let lived := livedAt (HeaderD g) height in
    (if lived then acc ++ [Some g] else acc, lived)) [] ;;
  s <- get ;;
  ret (rev gis ++ [gs_genesis s]).

(** [limit] is the largest [int]. *)
Definition groupsAfter (fuel : nat) (height : Z) : GM (list (option group)) :=
  rs <- iterateGroups fuel (fun g acc =>
    if gh_GroupHeightD (HeaderD g) <? height then (acc, false) else (acc ++ [Some g], true)) [] ;;
  s <- get ;;
  ret (rev (if height =? 0 then rs ++ [gs_genesis s] else rs)).

(** The top group is dereferenced. *)
Definition pool_count : GM Z :=
  top <- getTopGroup ;;
  g <- lift (match top with Some g => Ok g | None => Panic "nil pointer dereference" end) ;;
  ret (gh_GroupHeightD (HeaderD g) + 1)%u64.

(** ** Skip counters *)

Definition getSkipCount (db : World) (seed : Hash) : Z :=
  match GetData db (HashToAddress seed) skipCounterKey with
  | None | Some [] => 0
  | Some bs => ByteToUInt16 bs
  end.

Definition updateSkipCount (seed : Hash) (cnt : Z) (db : World) : World :=
  let skip := getSkipCount db seed in
  if cnt =? 0 then
    if 0 <? skip then RemoveData (HashToAddress seed) skipCounterKey db else db
  else SetData (HashToAddress seed) skipCounterKey (UInt16ToByte ((cnt + skip) mod 65536)) db.

(** The loop over the map of counts. *)
Definition addSkipCounts (counts : list (Hash * Z)) (db : World) : World :=
  foldl (fun db e => updateSkipCount e.1 e.2 db) db counts.

Definition UpdateGroupSkipCounts `{SkipEnv} (bh : BlockHeader) (db : World) : World :=
  let db := updateSkipCount (bh_Group bh) 0 db in
  match skip_QueryBlockHeaderByHash (bh_PreHash bh) with
  | None => db
  | Some pre => addSkipCounts (GroupSkipCountsBetween pre (bh_Height bh)) db
  end.

(** ** The manager *)

Context `{MinerCodecs} `{ChainEnv} `{GroupCreateChecker}.

(** A call of the miner manager, whose error is logged. *)
Definition onMiners (m : WM bool) : GM unit := fun s =>
  match m (gs_db s) with
  | (Panic msg, w) => (Panic msg, mkGroupState w (gs_cache s) (gs_genesis s))
  | (_, w) => (Ok tt, mkGroupState w (gs_cache s) (gs_genesis s))
  end.

Definition markGroupFail (seed : Hash) : GM unit :=
  onGroupDB (SetData (HashToAddress seed) originPieceReqKey [Byte.x01]).

Definition frozeMiner (frozenMiners : list bytes) (height : Z) : GM unit :=
  for_each frozenMiners (fun p => onMiners (MinerFrozen (BytesToAddress p) height)).

(** An error of [saveGroup] panics. *)
Definition saveGroup (g : group) : GM unit := fun s =>
  match pool_add g s with
  | (Err _, s') => (Panic "saveGroup error", s')
  | r => r
  end.

Definition tryCreateGroup (height : Z) : GM unit :=
  match CheckGroupCreateResult height with
  | None => ret tt
  | Some createResult =>
      match cr_Code createResult with
      | CreateResultSuccess =>
          top <- getTopGroup ;;
          info <- lift (match cr_GroupInfo createResult with Some i => Ok i | None => Panic "nil pointer dereference" end) ;;
          saveGroup (newGroup info top)
      | CreateResultMarkEvil => markGroupFail (cr_Seed createResult)
      | CreateResultFail | CreateResultIdle => ret tt
      end ;;;
      if (0 <? length (cr_FrozenMiners createResult))%nat then frozeMiner (cr_FrozenMiners createResult) height
      else ret tt
  end.

Definition tryDoPunish (height : Z) : GM unit :=
  match CheckGroupCreatePunishment height with
  | None => ret tt
  | Some msg => onMiners (MinerPenalty (pm_PenaltyTarget msg) (pm_RewardTarget msg) height)
  end.

Definition RegularCheck (bh : BlockHeader) : GM unit :=
  tryCreateGroup (bh_Height bh) ;;;
  tryDoPunish (bh_Height bh).
End pool.

(** ** The chain of groups is walked to its end, and stays a chain

    What the group pool of [Group.v] guarantees while its cache agrees with the
    accounts, and that the cache is not tied to the accounts it was filled from. *)
Lemma HashToAddress_id h : HashToAddress h = h.
Proof. apply BytesToAddress_bytes. Qed.

(** ** The rounds' keys *)

Lemma byteToKey_keyToByte key : tk_version key = dataVersion -> byteToKey (keyToByte key) = Some key.
Proof.
  destruct key as [v t a]. simpl. intros ->. unfold byteToKey, keyToByte. simpl. rewrite b32_length. simpl.
  rewrite take_ge by (rewrite b32_length; lia). by rewrite BytesToAddress_bytes.
Qed.

Lemma keyToByte_inj k1 k2 : keyToByte k1 = keyToByte k2 -> k1 = k2.
Proof.
  destruct k1 as [v1 t1 a1], k2 as [v2 t2 a2]. unfold keyToByte. simpl. intros [= -> -> E].
  by rewrite (b32_eq _ _ E).
Qed.

Section chain.
Context `{GroupCodecs} `{!CodecLaws group} `{LruLaws Hash group}.
Implicit Types (s : GroupState) (w : World) (g : group) (seed : Hash).
Abbreviation GM := (M GroupState opError).

(** Everything the cache holds is what the accounts hold. *)
Definition coherent s : Prop :=
  forall seed g, held (gs_cache s) seed = Some g -> storedGroup (gs_db s) seed = Some g.

(** [s'] differs from [s] in the cache only. *)
Definition sameGroups s s' : Prop :=
  coherent s' /\ gs_db s' = gs_db s /\ gs_genesis s' = gs_genesis s.

Lemma sameGroups_trans s1 s2 s3 : sameGroups s1 s2 -> sameGroups s2 s3 -> sameGroups s1 s3.
Proof. intros (? & ? & ?) (? & ? & ?). split_and!; [done|congruence..]. Qed.

Lemma pool_get_stored seed s :
  coherent s -> exists s', pool_get seed s = (Ok (storedGroup (gs_db s) seed), s') /\ sameGroups s s'.
Proof.
  intros Hc. unfold pool_get, onCache, bind, get, modify, ret. simpl.
  pose proof (cacheGet_held seed (gs_cache s)) as Hg. pose proof (cacheGet_keeps seed (gs_cache s)) as Hk.
  destruct (cacheGet seed (gs_cache s)) as [[g|] c]; simpl in *.
  - eexists. rewrite (Hc seed g) by done. split; [done|]. split_and!; try done.
    intros seed' g' Hh. simpl in *. apply Hc. by rewrite <- Hk.
  - destruct (storedGroup (gs_db s) seed) as [gr|] eqn:Hs.
    + eexists. split; [done|]. split_and!; try done. intros seed' g' Hh. simpl in *.
      apply cacheContainsOrAdd_held in Hh as [[-> ->]|Hh]; [done|]. apply Hc. by rewrite <- Hk.
    + eexists. split; [done|]. split_and!; try done. intros seed' g' Hh. simpl in *. apply Hc. by rewrite <- Hk.
Qed.

(** The groups from a seed back to the first one. *)
Fixpoint chained w seed (l : list group) : Prop :=
  match l with
  | [] => seed = zeroB32 /\ storedGroup w seed = None
  | g :: l' =>
      storedGroup w seed = Some g /\ gh_SeedD (HeaderD g) = seed /\
      gh_GroupHeightD (HeaderD g) = Z.of_nat (length l') /\ chained w (gh_PreSeed (HeaderD g)) l'
  end.

Lemma chained_head w seed l : chained w seed l -> storedGroup w seed = head l.
Proof. destruct l; simpl; naive_solver. Qed.

(** The walk, on the list of the groups. *)
Fixpoint visit {A} (f : group -> A -> A * bool) (l : list group) (acc : A) : A :=
  match l with
  | [] => acc
  | g :: l' =>
      if 0 <? gh_WorkHeightD (HeaderD g) then
        let r := f g acc in if r.2 then visit f l' r.1 else r.1
      else acc
  end.

Lemma walk_chain {A} (f : group -> A -> A * bool) l fuel seed acc s :
  coherent s -> chained (gs_db s) seed l -> (length l < fuel)%nat ->
  exists s', walk fuel (head l) f acc s = (Ok (visit f l acc), s') /\ sameGroups s s'.
Proof.
  revert fuel seed acc s. induction l as [|g l IH]; intros fuel seed acc s Hc Hl Hf;
    destruct fuel as [|fuel]; simpl in Hf; [lia| |lia|]; simpl.
  - by exists s.
  - destruct (0 <? _); [|by exists s]. destruct (f g acc) as [acc' b]. simpl. destruct b; [|by exists s].
    destruct Hl as (Hs & Hseed & Hh & Hl).
    destruct (pool_get_stored (gh_PreSeed (HeaderD g)) s Hc) as (s1 & E1 & S1).
    unfold bind. rewrite E1. rewrite (chained_head _ _ _ Hl).
    destruct (IH fuel (gh_PreSeed (HeaderD g)) acc' s1) as (s2 & E2 & S2);
      [apply S1|destruct S1 as (_ & -> & _); done|lia|].
    rewrite E2. exists s2. split; [done|]. by eapply sameGroups_trans.
Qed.

Lemma iterateGroups_chain {A} (f : group -> A -> A * bool) l fuel acc s :
  coherent s -> chained (gs_db s) (getTopGroupSeed (gs_db s)) l -> (length l < fuel)%nat ->
  exists s', iterateGroups fuel f acc s = (Ok (visit f l acc), s') /\ sameGroups s s'.
Proof.
  intros Hc Hl Hf. unfold iterateGroups, getTopGroup, bind, get.
  destruct (pool_get_stored (getTopGroupSeed (gs_db s)) s Hc) as (s1 & -> & S1).
  rewrite (chained_head _ _ _ Hl).
  destruct (walk_chain f l fuel (getTopGroupSeed (gs_db s)) acc s1) as (s2 & -> & S2);
    [apply S1|destruct S1 as (_ & -> & _); done|done|].
  exists s2. split; [done|]. by eapply sameGroups_trans.
Qed.

(** Collecting while the groups live, newest first: nothing that lives is older
    than a group that does not. *)
Definition dismissOrder (newer older : group) : Prop :=
  gh_DismissHeightD (HeaderD older) <= gh_DismissHeightD (HeaderD newer).

Lemma dead_rest h g gs (P : group -> Prop) `{!forall x, Decision (P x)} :
  livedAt (HeaderD g) h = false -> Forall (dismissOrder g) gs -> (forall x, P x -> livedAt (HeaderD x) h = true) ->
  filter P gs = [].
Proof.
  unfold livedAt, dismissOrder. intros Hd Hs HP. induction Hs as [|x gs Hx _ IH]; [done|].
  rewrite filter_cons_False; [done|]. intros Px. specialize (HP x Px). lia.
Qed.

(** The newest groups down to the first one dismissed. *)
Fixpoint undismissed (h : Z) (gs : list group) : list group :=
  match gs with
  | [] => []
  | g :: gs' => if livedAt (HeaderD g) h then g :: undismissed h gs' else []
  end.

Lemma visit_undismissed h (P : group -> Prop) `{!forall x, Decision (P x)} gs g0 acc :
  (forall x, P x -> livedAt (HeaderD x) h = true) ->
  Forall (fun g => 0 < gh_WorkHeightD (HeaderD g)) gs -> gh_WorkHeightD (HeaderD g0) = 0 ->
  visit (fun g acc => (if decide (P g) then acc ++ [Some g] else acc, livedAt (HeaderD g) h)) (gs ++ [g0]) acc =
    acc ++ (Some <$> filter P (undismissed h gs)).
Proof.
  intros HP Hw Hw0. revert acc. induction Hw as [|g gs Hg Hw IH]; intros acc; simpl.
  - rewrite Hw0. simpl. by rewrite app_nil_r.
  - destruct (Z.ltb_spec 0 (gh_WorkHeightD (HeaderD g))); [|lia]. destruct (livedAt (HeaderD g) h) eqn:El.
    + rewrite IH, filter_cons. destruct (decide (P g)); [|done]. by rewrite <- app_assoc.
    + destruct (decide (P g)) as [Pg|]; [by rewrite (HP g Pg) in El|]. by rewrite app_nil_r.
Qed.

Lemma undismissed_all h (P : group -> Prop) `{!forall x, Decision (P x)} gs :
  (forall x, P x -> livedAt (HeaderD x) h = true) -> StronglySorted dismissOrder gs -> filter P (undismissed h gs) = filter P gs.
Proof.
  intros HP Hs. induction Hs as [|g gs Hs IH Hf]; [done|]. simpl. destruct (livedAt (HeaderD g) h) eqn:El.
  - by rewrite !filter_cons, IH.
  - rewrite filter_cons_False by (intros Pg; by rewrite (HP g Pg) in El). by rewrite (dead_rest h g gs P).
Qed.

Lemma visit_ext {A} (f f' : group -> A -> A * bool) l acc :
  (forall g acc, f g acc = f' g acc) -> visit f l acc = visit f' l acc.
Proof.
  intros Hf. revert acc. induction l as [|g l IH]; intros acc; simpl; [done|]. by rewrite Hf, IH.
Qed.

(** ** Appending a group *)

Lemma storedGroup_SetData w a k v seed :
  k <> groupDataKey -> storedGroup (SetData a k v w) seed = storedGroup w seed.
Proof. intros Hk. unfold storedGroup. rewrite GetData_SetData. case_decide; [naive_solver|done]. Qed.

Lemma storedGroup_put w g bs seed :
  Marshal g = Some bs ->
  storedGroup (SetData (HashToAddress (gh_SeedD (HeaderD g))) groupDataKey bs w) seed =
    if decide (seed = gh_SeedD (HeaderD g)) then Some g else storedGroup w seed.
Proof.
  intros Hm. apply codec_roundtrip in Hm as [_ Hu]. unfold storedGroup. rewrite GetData_SetData, !HashToAddress_id.
  destruct (decide (seed = _)) as [->|Hs]; [by rewrite decide_True|].
  rewrite decide_False; [done|]. intros [E _]. by apply Hs.
Qed.

Lemma pool_add_spec g s :
  coherent s -> is_Some (Marshal g) -> exists s', pool_add g s = (Ok tt, s') /\ coherent s' /\
    (forall seed, storedGroup (gs_db s') seed =
      if decide (seed = gh_SeedD (HeaderD g)) then Some g else storedGroup (gs_db s) seed) /\
    getTopGroupSeed (gs_db s') = gh_SeedD (HeaderD g) /\
    held (gs_cache s') (gh_SeedD (HeaderD g)) = Some g.
Proof.
  intros Hc [bs Hm]. unfold pool_add, saveTopGroup, onGroupDB, onCache, bind, modify. rewrite Hm.
  eexists. split; [done|]. simpl.
  assert (forall seed, storedGroup (SetData GroupTopAddress topGroupKey (b32_bytes (gh_SeedD (HeaderD g)))
    (SetData (HashToAddress (gh_SeedD (HeaderD g))) groupDataKey bs (gs_db s))) seed =
      if decide (seed = gh_SeedD (HeaderD g)) then Some g else storedGroup (gs_db s) seed) as Hst.
  { intros seed. rewrite storedGroup_SetData by done. by apply storedGroup_put. }
  split_and!; [|exact Hst| |apply cacheAdd_hit].
  - intros seed g' Hh. simpl in *. rewrite Hst.
    apply cacheAdd_held in Hh as [[-> ->]|[Hn Hh]]; [by rewrite decide_True|].
    rewrite decide_False by done. by apply Hc.
  - unfold getTopGroupSeed. rewrite GetData_SetData, decide_True by done. simpl.
    apply b32_eq. apply BytesToHash_bytes, b32_length.
Qed.

Lemma chained_extend w w' x g seed l :
  (forall seed, storedGroup w' seed = if decide (seed = x) then Some g else storedGroup w seed) ->
  x <> zeroB32 -> storedGroup w x = None -> chained w seed l -> chained w' seed l.
Proof.
  intros Hst Hx Hn. revert seed. induction l as [|g' l IH]; intros seed; simpl; rewrite Hst.
  - intros [-> ?]. by rewrite decide_False.
  - intros (Hg & ? & ? & ?). rewrite decide_False by congruence. eauto.
Qed.
End chain.

(** ** The ledger's neighbours: no key of this package is the ledger's *)

Lemma neutral_packet a t b : neutral a (keyToByte (newTxDataKey t b)).
Proof. by split_and!. Qed.
Lemma neutral_origin a : neutral a originPieceReqKey.
Proof. by split_and!. Qed.
Lemma neutral_group a : neutral a groupDataKey.
Proof. by split_and!. Qed.
Lemma neutral_top a : neutral a topGroupKey.
Proof. by split_and!. Qed.
Lemma neutral_skip a : neutral a skipCounterKey.
Proof. by split_and!. Qed.
#[export] Hint Resolve neutral_packet neutral_origin neutral_group neutral_top neutral_skip : zv.

(** ** Properties *)

Section properties.
Context `{GroupCodecs} `{!CodecLaws group} `{LruLaws Hash group}.

(** C37: walking the chain of groups, with a cache that agrees with the accounts,
    ends after at most one visit per group.  It goes from the newest group down to the
    first dismissed one and lists, the oldest first, those of them that are active at
    the height, whatever the order of the dismissals; the genesis group, which has no
    working height and is never asked for its own, always follows as the last.  When
    no group is dismissed before an older one, the ones listed before it are all the
    active groups there are.  The accounts are not touched. *)
Theorem activated_groups_exact (s : GroupState) (gs : list group) g0 fuel h :
  coherent s -> chained (gs_db s) (getTopGroupSeed (gs_db s)) (gs ++ [g0]) ->
  Forall (fun g => 0 < gh_WorkHeightD (HeaderD g)) gs -> gh_WorkHeightD (HeaderD g0) = 0 -> (length gs + 1 < fuel)%nat ->
  let active := filter (fun g => activatedAt (HeaderD g) h = true) in
  exists s', GetActivatedGroupsAt fuel h s = (Ok (rev (Some <$> active (undismissed h gs)) ++ [gs_genesis s]), s') /\
    gs_db s' = gs_db s /\ (StronglySorted dismissOrder gs -> active (undismissed h gs) = active gs).
Proof.
  intros Hc Hl Hw Hw0 Hf active. unfold GetActivatedGroupsAt, bind, get, ret.
  destruct (iterateGroups_chain (fun g acc =>
    (if activatedAt (HeaderD g) h then acc ++ [Some g] else acc, livedAt (HeaderD g) h)) _ fuel [] s Hc Hl)
    as (s1 & -> & _ & Hdb & Hg).
  { rewrite length_app. simpl. lia. }
  assert (forall x, activatedAt (HeaderD x) h = true -> livedAt (HeaderD x) h = true) as Hal by (unfold activatedAt; by intros x [_ ?]%andb_true_iff).
  exists s1. split; [|split; [done|by apply undismissed_all]]. rewrite Hg. do 3 f_equal.
  rewrite (visit_ext _ (fun g acc =>
    (if decide (activatedAt (HeaderD g) h = true) then acc ++ [Some g] else acc, livedAt (HeaderD g) h))).
  - by rewrite visit_undismissed.
  - intros g acc. by destruct (activatedAt (HeaderD g) h).
Qed.

(** C36: saving a newly created group with a fresh seed on a
    chain of groups gives the chain with that group on top: its predecessor is the
    old top, its height is the number of groups before it, and every older group is
    still found; the cache still agrees with the accounts. *)
Theorem group_chain_grows (s : GroupState) info g l :
  coherent s -> chained (gs_db s) (getTopGroupSeed (gs_db s)) (g :: l) ->
  gi_Seed info <> zeroB32 -> storedGroup (gs_db s) (gi_Seed info) = None ->
  is_Some (Marshal (newGroup info (Some g))) -> Z.of_nat (length l) + 2 < two64 ->
  exists s', (top <- getTopGroup ;; saveGroup (newGroup info top)) s = (Ok tt, s') /\ coherent s' /\
    chained (gs_db s') (getTopGroupSeed (gs_db s')) (newGroup info (Some g) :: g :: l) /\
    exists s'', pool_count s' = (Ok (Z.of_nat (length (g :: l)) + 1), s'').
Proof.
  intros Hc Hl Hnz Hfresh Hm Hlen. unfold getTopGroup, bind, get.
  destruct (pool_get_stored (getTopGroupSeed (gs_db s)) s Hc) as (s1 & E1 & Hc1 & Hdb1 & _).
  rewrite E1, (chained_head _ _ _ Hl). cbn [head]. unfold saveGroup.
  destruct (pool_add_spec (newGroup info (Some g)) s1 Hc1 Hm) as (s2 & -> & Hc2 & Hst & Htop & _).
  rewrite Hdb1 in Hst. simpl gh_SeedD in *.
  assert (chained (gs_db s2) (getTopGroupSeed (gs_db s2)) (newGroup info (Some g) :: g :: l)) as Hl2.
  { assert (chained (gs_db s2) (getTopGroupSeed (gs_db s)) (g :: l)) as Hold by (by eapply chained_extend).
    rewrite Htop. split_and!; [by rewrite Hst, decide_True|done| |].
    - destruct Hl as (_ & _ & Hh & _). simpl. rewrite Hh. rewrite wrap64_id; [lia|unfold u64_ok; lia].
    - simpl gh_PreSeed. by replace (gh_SeedD (HeaderD g)) with (getTopGroupSeed (gs_db s)) by (symmetry; apply Hl). }
  exists s2. split_and!; [done..|].
  unfold pool_count, getTopGroup, bind, get, lift, ret.
  destruct (pool_get_stored (getTopGroupSeed (gs_db s2)) s2 Hc2) as (s3 & E3 & _).
  rewrite E3, (chained_head _ _ _ Hl2). cbn [head]. eexists. do 2 f_equal.
  destruct Hl2 as (_ & _ & -> & _). simpl length. rewrite wrap64_id; [done|unfold u64_ok; lia].
Qed.

(** The cache is not tied to the accounts: after a
    group is saved while a block is executed, looking its seed up finds it against
    any accounts, such as those before the block when the block is thrown away. *)
Theorem discarded_group_stays (s : GroupState) g w0 :
  coherent s -> is_Some (Marshal g) ->
  exists s', saveGroup g s = (Ok tt, s') /\
    fst (pool_get (gh_SeedD (HeaderD g)) (mkGroupState w0 (gs_cache s') (gs_genesis s'))) = Ok (Some g).
Proof.
  intros Hc Hm. unfold saveGroup. destruct (pool_add_spec g s Hc Hm) as (s' & -> & _ & _ & _ & Hh).
  exists s'. split; [done|]. unfold pool_get, onCache, bind, get, modify, ret. simpl.
  by rewrite cacheGet_held, Hh.
Qed.
End properties.

(** *** Skip counters *)

Lemma update_comm a b f h w : a <> b -> update a f (update b h w) = update b h (update a f w).
Proof.
  intros Hab. unfold update, getOrNewAccountObject, getAccountObject. simpl.
  rewrite !lookup_insert_ne by done. by rewrite insert_insert_ne.
Qed.

Lemma getSkipCount_update seed seed' cnt w :
  seed <> seed' -> getSkipCount (updateSkipCount seed cnt w) seed' = getSkipCount w seed'.
Proof.
  intros Hs. unfold getSkipCount, updateSkipCount. rewrite !HashToAddress_id.
  destruct (cnt =? 0); [destruct (0 <? _); [|done]|].
  - rewrite GetData_RemoveData, decide_False by naive_solver. done.
  - rewrite GetData_SetData, decide_False by naive_solver. done.
Qed.

Lemma updateSkipCount_comm s1 c1 s2 c2 w :
  s1 <> s2 -> updateSkipCount s1 c1 (updateSkipCount s2 c2 w) = updateSkipCount s2 c2 (updateSkipCount s1 c1 w).
Proof.
  intros Hs. unfold updateSkipCount at 1 3. rewrite !getSkipCount_update by done.
  unfold updateSkipCount. rewrite !HashToAddress_id. unfold RemoveData, SetData.
  repeat (case_match; try done); by apply update_comm.
Qed.

(** The accounts after a block's skip counters are
    written do not depend on the order in which the map of counts is visited, so
    every node computes the same state. *)
Theorem skip_counts_order_free (l1 l2 : list (Hash * Z)) w :
  Permutation l1 l2 -> NoDup (fst <$> l1) ->
  addSkipCounts l1 w = addSkipCounts l2 w.
Proof.
  unfold addSkipCounts. intros HP. revert w. induction HP as [|x l1 l2 HP IH|x y l|l1 l2 l3 HP1 IH1 HP2 IH2]; intros w Hnd; simpl in *.
  - done.
  - apply NoDup_cons in Hnd as [_ Hnd]. by apply IH.
  - rewrite updateSkipCount_comm; [done|]. apply NoDup_cons in Hnd as [Hn _].
    intros E. apply Hn. rewrite E. apply list_elem_of_here.
  - rewrite IH1 by done. apply IH2. by rewrite <- HP1.
Qed.

(** ** Examples *)

#[global] Instance piece_eq_dec : EqDecision EncryptedSharePiecePacket.
Proof. solve_decision. Defined.
#[global] Instance mpk_eq_dec : EqDecision MpkPacket.
Proof. solve_decision. Defined.
#[global] Instance origin_eq_dec : EqDecision OriginSharePiecePacket.
Proof. solve_decision. Defined.
#[global] Instance member_eq_dec : EqDecision member.
Proof. solve_decision. Defined.
#[global] Instance groupHeader_eq_dec : EqDecision groupHeader.
Proof. solve_decision. Defined.
#[global] Instance group_eq_dec : EqDecision group.
Proof. solve_decision. Defined.
#[global] Instance piece_countable : Countable EncryptedSharePiecePacket.
Proof.
  refine (inj_countable' (fun p => (ep_SeedD p, ep_SenderD p, ep_Pubkey0D p, ep_PiecesD p))
    (fun '(a, b, c, d) => mkPiece a b c d) _). by intros [].
Defined.
#[global] Instance mpk_countable : Countable MpkPacket.
Proof.
  refine (inj_countable' (fun p => (mp_SeedD p, mp_SenderD p, mp_MpkD p, mp_SignD p))
    (fun '(a, b, c, d) => mkMpk a b c d) _). by intros [].
Defined.
#[global] Instance origin_countable : Countable OriginSharePiecePacket.
Proof.
  refine (inj_countable' (fun p => (op_SeedD p, op_SenderD p, op_EncSeckeyD p, op_PiecesD p))
    (fun '(a, b, c, d) => mkOrigin a b c d) _). by intros [].
Defined.
#[global] Instance member_countable : Countable member.
Proof. refine (inj_countable' (fun m => (mem_Id m, mem_Pk m)) (fun '(a, b) => mkMember a b) _). by intros []. Defined.
#[global] Instance groupHeader_countable : Countable groupHeader.
Proof.
  refine (inj_countable' (fun h => (gh_SeedD h, gh_WorkHeightD h, gh_DismissHeightD h, gh_PublicKeyD h,
    gh_ThresholdD h, gh_PreSeed h, gh_GroupHeightD h))
    (fun '(a, b, c, d, e, f, g) => mkGroupHeader a b c d e f g) _). by intros [].
Defined.
#[global] Instance group_countable : Countable group.
Proof. refine (inj_countable' (fun g => (HeaderD g, MembersD g)) (fun '(a, b) => mkGroup a b) _). by intros []. Defined.

Definition bit_group_codecs : GroupCodecs := {|
  piece_codec := countable_codec _; mpk_codec := countable_codec _;
  origin_codec := countable_codec _; group_codec := countable_codec _ |}.

(** A cache that never evicts. *)
Definition mapCache : LruCache Hash group := {|
  cache := gmap Hash group;
  cacheGet k c := (c !! k, c);
  cacheAdd k v c := <[k:=v]> c;
  cacheContainsOrAdd k v c := match c !! k with Some _ => c | None => <[k:=v]> c end |}.
#[local] Existing Instances bit_group_codecs mapCache.

#[refine] Definition mapCache_laws : LruLaws Hash group := {| held (c : cache Hash group) k := (c : gmap Hash group) !! k |}.
Proof.
  - done.
  - done.
  - intros k v c k' v'. simpl. rewrite lookup_insert. case_decide; naive_solver.
  - intros k v c. apply lookup_insert_eq.
  - intros k v c k' v'. simpl. destruct (_ !! k) eqn:E; [naive_solver|].
    rewrite lookup_insert. case_decide; naive_solver.
Defined.
#[local] Existing Instance mapCache_laws.
#[local] Instance bit_group_laws : CodecLaws group := countable_codec_laws group.

Definition sampleInfo (seed work dismiss : Z) : groupInfo :=
  mkGroupInfo (BigToAddress seed) work dismiss [] 2 [].
Definition genesisGroup : group := newGroup (sampleInfo 50 0 1000000) None.
Definition firstGroup : group := newGroup (sampleInfo 51 100 500) (Some genesisGroup).
Definition secondGroup : group := newGroup (sampleInfo 52 200 600) (Some firstGroup).
Definition noGroups : GroupState := mkGroupState emptyWorld (∅ : gmap Hash group) None.
Definition twoGroups : GroupState :=
  snd ((initGenesis (sampleInfo 50 0 1000000) ;;; saveGroup firstGroup ;;; saveGroup secondGroup) noGroups).

Lemma twoGroups_coherent : coherent twoGroups.
Proof.
  apply (map_Forall_lookup (fun seed g => storedGroup (gs_db twoGroups) seed = Some g) (gs_cache twoGroups)).
  apply (bool_decide_unpack _). vm_compute. exact I.
Qed.

Lemma twoGroups_chained :
  chained (gs_db twoGroups) (getTopGroupSeed (gs_db twoGroups)) [secondGroup; firstGroup; genesisGroup].
Proof. repeat split; vm_compute; reflexivity. Qed.

Lemma activated_groups_exact_witness :
  exists s', GetActivatedGroupsAt 4 550 twoGroups = (Ok [Some secondGroup; Some genesisGroup], s') /\
    gs_db s' = gs_db twoGroups.
Proof.
  destruct (activated_groups_exact twoGroups [secondGroup; firstGroup] genesisGroup 4 550) as (s' & E & Hdb & _).
  - apply twoGroups_coherent.
  - apply twoGroups_chained.
  - repeat constructor.
  - reflexivity.
  - simpl. lia.
  - exists s'. split; [exact E|exact Hdb].
Defined.

Lemma group_chain_grows_witness :
  exists s', (top <- getTopGroup ;; saveGroup (newGroup (sampleInfo 53 300 700) top)) twoGroups = (Ok tt, s') /\
    exists s'', pool_count s' = (Ok 4, s'').
Proof.
  destruct (group_chain_grows twoGroups (sampleInfo 53 300 700) secondGroup [firstGroup; genesisGroup])
    as (s' & E & _ & _ & s'' & Hcount).
  - apply twoGroups_coherent.
  - apply twoGroups_chained.
  - intros E. apply (f_equal b32_bytes) in E. vm_compute in E. discriminate.
  - vm_compute. reflexivity.
  - by eexists.
  - reflexivity.
  - exists s'. split; [exact E|]. by exists s''.
Defined.

Lemma discarded_group_stays_witness :
  exists s', saveGroup firstGroup noGroups = (Ok tt, s') /\
    fst (pool_get (gh_SeedD (HeaderD firstGroup)) (mkGroupState emptyWorld (gs_cache s') (gs_genesis s'))) =
      Ok (Some firstGroup).
Proof.
  apply (discarded_group_stays noGroups firstGroup emptyWorld); [|by eexists].
  intros seed g Hh. simpl in Hh. rewrite lookup_empty in Hh. discriminate.
Defined.

Lemma skip_counts_order_free_witness :
  addSkipCounts [(BigToAddress 51, 3); (BigToAddress 52, 1)] emptyWorld =
  addSkipCounts [(BigToAddress 52, 1); (BigToAddress 51, 3)] emptyWorld.
Proof.
  apply skip_counts_order_free; [constructor|]. simpl. repeat constructor; [|by intros ?%not_elem_of_nil].
  intros E%list_elem_of_singleton. apply (f_equal b32_bytes) in E. vm_compute in E. discriminate.
Defined.
