(* ===== verification/Tvm.v ===== *)
(** * Tvm: running contracts

    [src/tvm]: the controller that runs a contract inside the virtual machine and
    the bridge through which the machine reads and writes the chain's state.

    The machine itself is the C library [libtvm], which is not part of the
    repository.  It is a parameter: a state, the functions of its interface that
    change it, and, for the two functions that run contract code, the host calls
    they make as a tree ([vmProg]).  A host call hands over the library's state,
    because a contract call enters the library again before it returns.  Every
    theorem holds for every such library. *)
From stdpp Require Import pretty.
From S2P Require Import Prelude Bytes Sha256 World Types.
Local Open Scope Z_scope.
Local Open Scope zv_scope.

Definition TVMExecutedError : Z := 1001.
Definition TVMGasNotEnoughError : Z := 1002.
Definition TVMCheckABIError : Z := 1003.
Definition TVMCallMaxDeepError : Z := 1004.
Definition TVMNoCodeError : Z := 1005.
Definition RETURN_TYPE_EXCEPTION : Z := 4.
Definition MaxDepth : nat := 5.

(** ** The library's interface *)

Inductive tvm_parse_kind := PARSE_KIND_FILE | PARSE_KIND_EVAL.

Record ExecuteResult := mkResult { ResultType : Z; ErrorCode : Z; Content : bytes }.

(** The functions of [bridge.go], with their results; C strings are bytes. *)
Inductive hostCall : Type -> Type :=
| HTransfer (toAddress value : bytes) : hostCall unit
| HGetBalance (address : bytes) : hostCall bytes
| HGetData (key : bytes) : hostCall (option bytes)
| HSetData (key value : bytes) : hostCall unit
| HRemoveData (key : bytes) : hostCall unit
| HBlockHash (height : Z) : hostCall (option bytes)
| HNumber : hostCall Z
| HTimestamp : hostCall Z
| HTxGasLimit : hostCall Z
| HContractCall (address funName jsonParms : bytes) : hostCall ExecuteResult
| HEventCall (eventName data : bytes) : hostCall unit.

(** A run of the library: it ends with a result, or calls the host. *)
Inductive vmProg (St : Type) : Type :=
| VDone (r : ExecuteResult) (st : St)
| VCall (R : Type) (c : hostCall R) (st : St) (k : R -> St -> vmProg St).
Arguments VDone {St} r st.
Arguments VCall {St R} c st k.

Class TvmLib := {
  vmState : Type;
  tvm_start : vmState -> vmState;
  tvm_gc : vmState -> vmState;
  tvm_create_context : vmState -> vmState;
  tvm_remove_context : vmState -> vmState;
  tvm_set_register : vmState -> vmState;
  tvm_get_gas : vmState -> Z;
  tvm_set_gas : Z -> vmState -> vmState;
  tvm_set_msg : bytes -> Z -> vmState -> vmState;
  tvm_set_this : bytes -> vmState -> vmState;
  tvm_set_zips : bool -> bool -> vmState -> vmState;
  tvm_execute : bytes -> bytes -> tvm_parse_kind -> vmState -> vmProg vmState;
  tvm_fun_call : bytes -> bytes -> bytes -> vmState -> vmProg vmState;
}.

(** [encoding/json] on the two records the package decodes. *)
Class Json := {
  jsonValue : Type;
  unmarshalContract : bytes -> bytes * bytes;
  decodeABI : bytes -> bytes + (bytes * list jsonValue);
  marshalArgs : list jsonValue -> bytes;
}.

(** The chain reader the controller is given. *)
Class ChainReader := { QueryBlockHeaderByHeight : Z -> option BlockHeader }.

(** ** Text conversions *)

(** [regexp "^[Zz][Vv][0-9a-fA-F]{64}$"] *)
Definition ValidateAddress (addr : bytes) : bool :=
  match addr with
  | z :: v :: hex =>
      (bool_decide (toLower z = Byte.x7a) && bool_decide (toLower v = Byte.x76)) &&
      ((length hex =? 64)%nat && forallb (fun c => bool_decide (is_Some (fromHexChar c))) hex)
  | _ => false
  end.

(** The digits of [big.Int.SetString(s, 10)]. *)
Fixpoint parseDigits (acc : Z) (s : bytes) : option Z :=
  match s with
  | [] => Some acc
  | c :: s' =>
      let d := Z_of_byte c - 48 in
      if (0 <=? d) && (d <=? 9) then parseDigits (10 * acc + d) s' else None
  end.
Definition parseInt (s : bytes) : option Z :=
  match s with
  | [] => None
  | c :: s' =>
      if bool_decide (c = Byte.x2d) then (if (0 <? length s')%nat then Z.opp <$> parseDigits 0 s' else None)
      else if bool_decide (c = Byte.x2b) then (if (0 <? length s')%nat then parseDigits 0 s' else None)
      else parseDigits 0 s
  end.
Definition bigString (z : Z) : bytes := str (pretty z).

Definition HashHex (h : Hash) : bytes := str "0x" ++ Bytes2Hex (b32_bytes h).

(** ** The controller *)

Record Log := mkLog {
  log_Topic : Hash; log_Index : Z; log_Data : bytes; log_TxHash : Hash; log_TxIndex : Z;
  log_Address : Address; log_BlockNumber : Z;
}.

Record Contract := mkContract { c_Code : bytes; c_ContractName : bytes; c_ContractAddress : Address }.

(** [Sender] is a pointer: nil when the transaction has no source. *)
Record TVM := mkTVM { vm_Contract : Contract; vm_Sender : option Address; vm_Logs : list Log }.

Record Controller := mkController {
  con_BlockHeader : option BlockHeader;
  con_Transaction : Transaction;
  con_VM : option TVM;
  con_VMStack : list TVM;
  con_GasLeft : Z;
}.

Record TransactionError := mkTxError { te_Code : Z; te_Message : bytes }.

(** An [int] passed as a C [int]. *)
Definition toInt32 (z : Z) : Z := (z + 2 ^ 31) mod 2 ^ 32 - 2 ^ 31.

Definition transactionErrorWith (result : ExecuteResult) : option TransactionError :=
  if ResultType result =? 4 then
    if ErrorCode result =? TVMGasNotEnoughError then
      Some (mkTxError TVMGasNotEnoughError (str "does not have enough gas to run!"))
    else if ErrorCode result =? TVMCheckABIError then Some (mkTxError TVMCheckABIError (Content result))
    else Some (mkTxError TVMExecutedError (Content result))
  else None.

Section controller.
Context `{TvmLib} `{Json} `{ChainReader}.

(** The global controller, the account database it works on, the library. *)
Record TvmState := mkTvmState { ts_con : Controller; ts_db : World; ts_vm : vmState }.

(** The functions of the package fail only by panicking: no error is returned. *)
Abbreviation CM := (M TvmState Empty_set).

Definition lib (f : vmState -> vmState) : CM unit :=
  modify (fun s => mkTvmState (ts_con s) (ts_db s) (f (ts_vm s))).
Definition onDB (f : World -> World) : CM unit :=
  modify (fun s => mkTvmState (ts_con s) (f (ts_db s)) (ts_vm s)).
Definition onCon (f : Controller -> Controller) : CM unit :=
  modify (fun s => mkTvmState (f (ts_con s)) (ts_db s) (ts_vm s)).

Definition setVM (vm : option TVM) (c : Controller) : Controller :=
  mkController (con_BlockHeader c) (con_Transaction c) vm (con_VMStack c) (con_GasLeft c).
Definition setVMStack (l : list TVM) (c : Controller) : Controller :=
  mkController (con_BlockHeader c) (con_Transaction c) (con_VM c) l (con_GasLeft c).
Definition setGasLeft (g : Z) (c : Controller) : Controller :=
  mkController (con_BlockHeader c) (con_Transaction c) (con_VM c) (con_VMStack c) g.
Definition setLogs (logs : list Log) (vm : TVM) : TVM := mkTVM (vm_Contract vm) (vm_Sender vm) logs.

Definition need {A} (o : option A) : CM A :=
  match o with Some x => ret x | None => panic "nil pointer dereference" end.

(** [controller.VM], dereferenced *)
Definition theVM : CM TVM := o <- gets (fun s => con_VM (ts_con s)) ;; need o.
Definition thisAddr : CM Address := vm <- theVM ;; ret (c_ContractAddress (vm_Contract vm)).

Definition Gas : CM Z := gets (fun s => tvm_get_gas (ts_vm s)).
Definition SetGas (gas : Z) : CM unit := lib (tvm_set_gas (toInt32 gas)).

Definition LoadContract (a : Address) : CM Contract :=
  jsonString <- gets (fun s => GetCode (ts_db s) a) ;;
  let c := unmarshalContract (default [] jsonString) in
  ret (mkContract c.1 c.2 a).

Definition StoreVMContext (newTvm : TVM) : CM bool :=
  stack <- gets (fun s => con_VMStack (ts_con s)) ;;
  if (MaxDepth <=? length stack)%nat then ret false
  else
    lib tvm_create_context ;;;
    currentVM <- theVM ;;
    onCon (fun c => setVM (Some newTvm) (setVMStack (stack ++ [currentVM]) c)) ;;;
    ret true.

Definition RecoverVMContext : CM unit :=
  vm <- theVM ;;
  stack <- gets (fun s => con_VMStack (ts_con s)) ;;
  match last stack with
  | None => panic "index out of range"
  | Some top =>
      onCon (fun c => setVM (Some (setLogs (vm_Logs vm) top)) (setVMStack (take (length stack - 1) stack) c)) ;;;
      lib tvm_remove_context
  end.

Definition NewTVMForRetainContext (sender : option Address) (contract : Contract) (logs : list Log)
    (blockHeight : Z) : CM TVM :=
  lib (tvm_set_gas 1000000) ;;;
  lib (tvm_set_zips (IsZIP002 blockHeight) (IsZIP003 blockHeight)) ;;;
  ret (mkTVM contract sender logs).

Definition NewTVM (sender : option Address) (contract : Contract) (blockHeight : Z) : CM TVM :=
  lib (tvm_set_gas 100000) ;;;
  lib tvm_start ;;;
  NewTVMForRetainContext sender contract [] blockHeight.

Definition controllerHeight : CM Z :=
  gets (fun s => from_option bh_Height 0 (con_BlockHeader (ts_con s))).

(** ** The bridge *)

Definition BTransfer (toAddress value : bytes) : CM unit :=
  if negb (ValidateAddress toAddress) then ret tt
  else
    match parseInt value with
    | None => ret tt
    | Some transValue =>
        contractAddr <- thisAddr ;;
        let to := StringToAddress toAddress in
        can <- gets (fun s => CanTransfer (ts_db s) contractAddr transValue) ;;
        if can : bool then onDB (Transfer contractAddr to transValue) else ret tt
    end.

Definition BGetBalance (address : bytes) : CM bytes :=
  if negb (ValidateAddress address) then ret (str "0")
  else gets (fun s => bigString (GetBalance (ts_db s) (StringToAddress address))).

Definition BGetData (key : bytes) : CM (option bytes) :=
  a <- thisAddr ;;
  gets (fun s => GetData (ts_db s) a key).

Definition BSetData (key value : bytes) : CM unit :=
  a <- thisAddr ;;
  onDB (SetData a key value).

Definition BRemoveData (key : bytes) : CM unit :=
  a <- thisAddr ;;
  onDB (RemoveData a key).

Definition BBlockHash (height : Z) : CM (option bytes) :=
  ret ((fun b => HashHex (bh_Hash b)) <$> QueryBlockHeaderByHeight height).

Definition BNumber : CM Z :=
  h <- gets (fun s => con_BlockHeader (ts_con s)) ;; b <- need h ;; ret (bh_Height b).
Definition BTimestamp : CM Z :=
  h <- gets (fun s => con_BlockHeader (ts_con s)) ;; b <- need h ;; ret (wrap64 (bh_CurTime b)).
Definition BTxGasLimit : CM Z :=
  tx <- gets (fun s => con_Transaction (ts_con s)) ;; g <- need (tx_GasLimit tx) ;; ret (wrap64 g).

(** The C wrapper declares [EventCall] with two parameters and passes on only
    those; the length is the one the library had in the third register. *)
Definition BEventCall (eventName data : bytes) : CM unit :=
  vm <- theVM ;;
  con <- gets ts_con ;;
  bh <- need (con_BlockHeader con) ;;
  let log := mkLog (BytesToHash (Sha256 eventName)) (Z.of_nat (length (vm_Logs vm))) data
               (tx_Hash (con_Transaction con)) 0 (c_ContractAddress (vm_Contract vm)) (bh_Height bh) in
  onCon (setVM (Some (setLogs (vm_Logs vm ++ [log]) vm))).

(** ** Running the library *)

(** Serve the host calls of a run; [callContract] serves the nested ones. *)
Definition host (callContract : bytes -> bytes -> bytes -> CM ExecuteResult) {R} (c : hostCall R) : CM R :=
  match c in hostCall R return CM R with
  | HTransfer to v => BTransfer to v
  | HGetBalance a => BGetBalance a
  | HGetData k => BGetData k
  | HSetData k v => BSetData k v
  | HRemoveData k => BRemoveData k
  | HBlockHash h => BBlockHash h
  | HNumber => BNumber
  | HTimestamp => BTimestamp
  | HTxGasLimit => BTxGasLimit
  | HContractCall a f p => callContract a f p
  | HEventCall e d => BEventCall e d
  end.

Fixpoint runProg (callContract : bytes -> bytes -> bytes -> CM ExecuteResult) (p : vmProg vmState)
    : CM ExecuteResult :=
  match p with
  | VDone r st => lib (fun _ => st) ;;; ret r
  | VCall c st k =>
      lib (fun _ => st) ;;;
      r <- host callContract c ;;
      st' <- gets ts_vm ;;
      runProg callContract (k r st')
  end.

Section calls.
Variable callContract : bytes -> bytes -> bytes -> CM ExecuteResult.

Definition executePycode (tvm : TVM) (code : bytes) (kind : tvm_parse_kind) : CM ExecuteResult :=
  st <- gets ts_vm ;;
  runProg callContract (tvm_execute code (c_ContractName (vm_Contract tvm)) kind st).

Definition funcCall (tvm : TVM) (funcName jsonArgs : bytes) : CM ExecuteResult :=
  st <- gets ts_vm ;;
  runProg callContract (tvm_fun_call (c_ContractName (vm_Contract tvm)) funcName jsonArgs st).

Definition executeABIKindEval (tvm : TVM) (abi : bytes * list jsonValue) : CM ExecuteResult :=
  funcCall tvm abi.1 (marshalArgs abi.2).

(** The registers, the message and the address of the contract. *)
Definition loadMsg (tvm : TVM) (value : Z) : CM unit :=
  lib tvm_set_register ;;;
  sender <- need (vm_Sender tvm) ;;
  lib (tvm_set_msg (AddrPrefixString sender) value) ;;;
  lib (tvm_set_this (AddrPrefixString (c_ContractAddress (vm_Contract tvm)))).

(** The code's result, and whether it is an exception. *)
Definition CreateContractInstance (tvm : TVM) (value : Z) : CM (ExecuteResult * bool) :=
  loadMsg tvm value ;;;
  result <- executePycode tvm (c_Code (vm_Contract tvm)) PARSE_KIND_FILE ;;
  ret (result, ResultType result =? RETURN_TYPE_EXCEPTION).

Definition TVM_Deploy (tvm : TVM) (value : Z) : CM ExecuteResult :=
  loadMsg tvm value ;;;
  result <- executePycode tvm (c_Code (vm_Contract tvm)) PARSE_KIND_FILE ;;
  if ResultType result =? RETURN_TYPE_EXCEPTION then ret result
  else funcCall tvm (str "__init__") (str "[]").

(** [{"func_name": "%s", "args": %s}] *)
Definition abiJSON (funcName params : bytes) : bytes :=
  str "{" ++ [Byte.x22] ++ str "func_name" ++ [Byte.x22] ++ str ": " ++ [Byte.x22] ++ funcName ++ [Byte.x22] ++
  str ", " ++ [Byte.x22] ++ str "args" ++ [Byte.x22] ++ str ": " ++ params ++ str "}".

(** The body of a contract call, once the context is stored. *)
Definition callBody (funcName params : bytes) : CM ExecuteResult :=
  vm <- theVM ;;
  r <- CreateContractInstance vm 0 ;;
  if r.2 then ret r.1
  else
    match decodeABI (abiJSON funcName params) with
    | inl err => ret (mkResult RETURN_TYPE_EXCEPTION TVMCheckABIError err)
    | inr abi => vm' <- theVM ;; executeABIKindEval vm' abi
    end.
End calls.

Definition ShortHex (hex : bytes) : bytes :=
  if (length hex <? 12)%nat then hex else take 6 hex ++ str "-" ++ drop (length hex - 6) hex.

(** The calls nest through the library; [fuel] bounds the nesting of the model,
    [StoreVMContext] that of the program, at [MaxDepth]. *)
Fixpoint CallContract (fuel : nat) (contractAddr funcName params : bytes) : CM ExecuteResult :=
  match fuel with
  | O => panic "out of fuel"
  | S fuel' =>
      if negb (ValidateAddress contractAddr) then
        ret (mkResult RETURN_TYPE_EXCEPTION TVMNoCodeError (str "invalid address " ++ contractAddr ++ str "!"))
      else
        let conAddr := StringToAddress contractAddr in
        contract <- LoadContract conAddr ;;
        if bool_decide (c_Code contract = []) then
          ret (mkResult RETURN_TYPE_EXCEPTION TVMNoCodeError
            (str "get code from address " ++ ShortHex (AddrPrefixString conAddr) ++ str ", but no code!"))
        else
          vm <- theVM ;;
          remainGas <- Gas ;;
          blockHeight <- controllerHeight ;;
          oneVM <- NewTVMForRetainContext (Some (c_ContractAddress (vm_Contract vm))) contract (vm_Logs vm) blockHeight ;;
          SetGas remainGas ;;;
          finished <- StoreVMContext oneVM ;;
          if finished : bool then
            result <- callBody (CallContract fuel') funcName params ;;
            remainGas' <- Gas ;;
            RecoverVMContext ;;;
            SetGas remainGas' ;;;
            ret result
          else
            ret (mkResult RETURN_TYPE_EXCEPTION TVMCallMaxDeepError
              (str "call max deep cannot more than " ++ bigString (Z.of_nat MaxDepth)))
  end.

(** The nesting of a call made at the top is at most [MaxDepth + 1]. *)
Definition callFuel : nat := S MaxDepth.

(** ** The controller's operations *)

(** [defer func() { con.VM.DelTVM(); con.GasLeft = uint64(con.VM.Gas()) }()] *)
Definition finishVM : CM unit :=
  lib tvm_gc ;;;
  g <- Gas ;;
  onCon (setGasLeft (wrap64 g)).

Definition txValue (tx : Transaction) : Z := from_option wrap64 0 (tx_Value tx).

Definition Deploy (contract : Contract) : CM (option ExecuteResult * list Log * option TransactionError) :=
  blockHeight <- controllerHeight ;;
  tx <- gets (fun s => con_Transaction (ts_con s)) ;;
  vm <- NewTVM (tx_Source tx) contract blockHeight ;;
  onCon (setVM (Some vm)) ;;;
  g <- gets (fun s => con_GasLeft (ts_con s)) ;;
  SetGas g ;;;
  result <- TVM_Deploy (CallContract callFuel) vm (txValue tx) ;;
  finishVM ;;;
  vm' <- theVM ;;
  ret (match transactionErrorWith result with
       | Some e => (Some result, [], Some e)
       | None => (Some result, vm_Logs vm', None)
       end).

Definition ExecuteAbiEval (sender : option Address) (contract : Contract) (abiText : bytes)
    : CM (option ExecuteResult * list Log * option TransactionError) :=
  blockHeight <- controllerHeight ;;
  tx <- gets (fun s => con_Transaction (ts_con s)) ;;
  vm <- NewTVM sender contract blockHeight ;;
  onCon (setVM (Some vm)) ;;;
  g <- gets (fun s => con_GasLeft (ts_con s)) ;;
  SetGas g ;;;
  r <- CreateContractInstance (CallContract callFuel) vm (txValue tx) ;;
  if r.2 then
    finishVM ;;;
    ret (Some r.1, [], transactionErrorWith r.1)
  else
    match decodeABI abiText with
    | inl err => finishVM ;;; ret (None, [], Some (mkTxError TVMCheckABIError err))
    | inr abi =>
        vm1 <- theVM ;;
        result <- executeABIKindEval (CallContract callFuel) vm1 abi ;;
        finishVM ;;;
        vm' <- theVM ;;
        ret (match transactionErrorWith result with
             | Some e => (Some result, [], Some e)
             | None => (Some result, vm_Logs vm', None)
             end)
    end.

(** [NewController]: the controller's next transaction. *)
Definition NewController {E} (bh : option BlockHeader) (tx : Transaction) (gasUsed : Z) (db : World) (vm : vmState)
    : outcome E TvmState :=
  match tx_GasLimit tx with
  | None => Panic "nil pointer dereference"
  | Some gl =>
      if wrap64 gl <? gasUsed then Panic "gasLimit less than gasUsed"
      else Ok (mkTvmState (mkController bh tx None [] (wrap64 gl - gasUsed)%u64) db vm)
  end.
End controller.
