(* ===== verification/TvmSafe.v ===== *)
(** * TvmSafe: what a contract cannot do

    For every library and every contract: a run returns without a panic, creates
    and destroys no coins, changes no code, and leaves the storage, the nonce and
    at least the balance of every account that carries no contract.  Calls nest at
    most [MaxDepth] deep, so the bound of the model is never reached.  What a
    library guarantees further, about the keys it writes and about its own state,
    holds of whole transactions ([Guarantee]); the gas meter is such a
    guarantee. *)
From S2P Require Import Prelude Bytes Sha256 World Types Tvm.
Local Open Scope Z_scope.
Local Open Scope zv_scope.

Section safe.
Context `{TvmLib} `{Json} `{ChainReader}.
Abbreviation CM := (M TvmState Empty_set).
Implicit Types (s : TvmState) (w : World) (a : Address).

Definition hasCode w a : Prop := (unmarshalContract (default [] (GetCode w a))).1 <> [].

(** The changes a contract's host calls make: an owner pays, or an owner's entry
    at an allowed key is written. *)
Inductive vmMove (owner : Address -> Prop) (keys : bytes -> Prop) : World -> World -> Prop :=
| move_pay a b x w : owner a -> CanTransfer w a x = true -> vmMove owner keys w (Transfer a b x w)
| move_write a k v w : owner a -> keys k -> vmMove owner keys w (update a (setData k v) w).

(** What a run may do to the accounts when only [owner]s run code. *)
Record vmStep (owner : Address -> Prop) (keys : bytes -> Prop) (w w' : World) : Prop := {
  vs_moves : rtc (vmMove owner keys) w w';
  vs_total : total_balance w' = total_balance w;
  vs_code a : GetCode w' a = GetCode w a;
  vs_data a k : ~ owner a -> GetData w' a k = GetData w a k;
  vs_nonce a : GetNonce w' a = GetNonce w a;
  vs_balance a : ~ owner a -> GetBalance w a <= GetBalance w' a;
  vs_nonneg : (forall a, 0 <= GetBalance w a) -> forall a, 0 <= GetBalance w' a;
}.

#[local] Instance vmStep_preorder owner keys : PreOrder (vmStep owner keys).
Proof.
  split; [by constructor|]. intros w1 w2 w3 [] []. constructor; intros; try congruence; auto.
  - by transitivity w2.
  - transitivity (GetData w2 a k); auto.
  - transitivity (GetBalance w2 a); auto.
Qed.

(** ** What a library guarantees

    [keys] are the only storage keys its programs write, and [rel] relates its
    states over everything that happens while a contract runs. *)

Definition writes (keys : bytes -> Prop) {R} (c : hostCall R) : Prop :=
  match c with HSetData k _ | HRemoveData k => keys k | _ => True end.

Fixpoint tidy (keys : bytes -> Prop) (rel : vmState -> vmState -> Prop) (st : vmState) (p : vmProg vmState) : Prop :=
  match p with
  | VDone _ st' => rel st st'
  | VCall c st' k => rel st st' /\ writes keys c /\ forall r st'', rel st' st'' -> tidy keys rel st'' (k r st'')
  end.

Record Guarantee (keys : bytes -> Prop) (rel : vmState -> vmState -> Prop) : Prop := {
  gu_pre : PreOrder rel;
  gu_create st : rel st (tvm_create_context st);
  gu_register st : rel st (tvm_set_register st);
  gu_msg sender v st : rel st (tvm_set_msg sender v st);
  gu_this this st : rel st (tvm_set_this this st);
  gu_gc st : rel st (tvm_gc st);
  gu_reset z2 z3 st : rel st (tvm_set_gas (toInt32 (tvm_get_gas st)) (tvm_set_zips z2 z3 (tvm_set_gas 1000000 st)));
  gu_recover st : rel st (tvm_set_gas (toInt32 (tvm_get_gas st)) (tvm_remove_context st));
  gu_execute code name kind st : tidy keys rel st (tvm_execute code name kind st);
  gu_call name f args st : tidy keys rel st (tvm_fun_call name f args st);
}.

Variable owner : Address -> Prop.
Variable keys : bytes -> Prop.
Variable rel : vmState -> vmState -> Prop.
Hypothesis G : Guarantee keys rel.

#[local] Instance rel_preorder : PreOrder rel := gu_pre _ _ G.

(** What a transaction's run has set up: a machine with a sender, a header, a gas
    limit; every machine runs an owner's code, and the owners are all the accounts
    with code. *)
Record tvmInv s : Prop := {
  ti_vm : exists vm, con_VM (ts_con s) = Some vm /\ is_Some (vm_Sender vm) /\ owner (c_ContractAddress (vm_Contract vm));
  ti_header : is_Some (con_BlockHeader (ts_con s));
  ti_gas : is_Some (tx_GasLimit (con_Transaction (ts_con s)));
  ti_stack : Forall (fun vm => is_Some (vm_Sender vm) /\ owner (c_ContractAddress (vm_Contract vm)))
    (con_VMStack (ts_con s));
  ti_code a : hasCode (ts_db s) a -> owner a;
}.

Definition depth s : nat := length (con_VMStack (ts_con s)).

(** A step that keeps the depth of the stack. *)
Definition step s s' : Prop :=
  vmStep owner keys (ts_db s) (ts_db s') /\ depth s' = depth s /\ rel (ts_vm s) (ts_vm s').

#[local] Instance step_preorder : PreOrder step.
Proof.
  split; [by intros s; split_and!; [apply vmStep_preorder| |reflexivity]|].
  intros s1 s2 s3 (V12 & E12 & R12) (V23 & E23 & R23). split_and!; [by etransitivity|congruence|by etransitivity].
Qed.

(** A computation that, run at depth [n], returns after such a step. *)
Definition safe (n : nat) {A} (m : CM A) : Prop :=
  forall s, tvmInv s -> depth s = n -> wp False m s (fun _ s' => step s s' /\ tvmInv s').

Section at_depth.
Variable n : nat.

Lemma safe_ret {A} (x : A) : safe n (ret x).
Proof. intros s I Hd. wstep. split; [reflexivity|done]. Qed.
Lemma safe_gets {A} (f : TvmState -> A) : safe n (gets f).
Proof. intros s I Hd. wstep. split; [reflexivity|done]. Qed.
Lemma safe_bind {A B} (m : CM A) (k : A -> CM B) :
  safe n m -> (forall x, safe n (k x)) -> safe n (bind m k).
Proof.
  intros Hm Hk s I Hd. wstep. eapply wp_mono; [by apply Hm|]. intros x s1 [S1 I1].
  eapply wp_mono; [apply Hk; [done|destruct S1 as (_ & ? & _); congruence]|]. intros y s2 [S2 I2].
  split; [by etransitivity|done].
Qed.
Lemma safe_lib f : (forall st, rel st (f st)) -> safe n (lib f).
Proof. intros Hf s [] Hd. unfold lib. wstep. split; [split_and!; [reflexivity|done|apply Hf]|done]. Qed.

(** Reading the current machine yields an owner with a sender. *)
Lemma wp_theVM s Q :
  tvmInv s -> (forall vm, con_VM (ts_con s) = Some vm -> is_Some (vm_Sender vm) ->
    owner (c_ContractAddress (vm_Contract vm)) -> Q vm s) ->
  wp False theVM s Q.
Proof. intros I HQ. destruct (ti_vm _ I) as (vm & E & Hs & Ho). unfold theVM. wsteps. rewrite E. by apply HQ. Qed.
Lemma wp_thisAddr s Q : tvmInv s -> (forall a, owner a -> Q a s) -> wp False thisAddr s Q.
Proof. intros I HQ. unfold thisAddr. wstep. apply wp_theVM; [done|]. intros. wstep. auto. Qed.
Lemma safe_theVM {A} (k : TVM -> CM A) :
  (forall vm, is_Some (vm_Sender vm) -> safe n (k vm)) -> safe n (bind theVM k).
Proof. intros Hk s I Hd. wstep. apply wp_theVM; [done|]. intros. by apply Hk. Qed.
Lemma safe_header {A} (k : BlockHeader -> CM A) :
  (forall b, safe n (k b)) -> safe n (h <- gets (fun s => con_BlockHeader (ts_con s)) ;; b <- need h ;; k b).
Proof.
  intros Hk s I Hd. wsteps. destruct (ti_header _ I) as [b ->]. by apply Hk.
Qed.

Hint Resolve safe_ret safe_gets : zv.
Ltac safe_tac :=
  repeat first
    [ solve [auto with zv]
    | apply safe_lib; intros ?; apply G
    | apply safe_theVM; intros ? ?
    | apply safe_header; intros ?
    | apply safe_bind; [|intros ?]
    | match goal with |- safe _ (match ?x with _ => _ end) => destruct x end ].

(** A change of the accounts of an owner. *)
Lemma onDB_safe s f : tvmInv s -> vmStep owner keys (ts_db s) (f (ts_db s)) ->
  wp False (onDB f) s (fun _ s' => step s s' /\ tvmInv s').
Proof.
  intros [Iv Ih Ig Is Ic] V. unfold onDB. wstep.
  split; [by split_and!; [|done|reflexivity]|]. constructor; simpl; try done.
  intros a Ha. apply Ic. unfold hasCode in *. by rewrite (vs_code _ _ _ _ V) in Ha.
Qed.

Lemma vmStep_data a k v w : owner a -> keys k -> vmStep owner keys w (update a (setData k v) w).
Proof.
  intros Ha Hk. constructor; intros.
  - by apply rtc_once, move_write.
  - rewrite total_balance_update. simpl. lia.
  - by apply GetCode_update_frame.
  - rewrite GetData_write. case_decide; naive_solver.
  - by apply GetNonce_update_frame.
  - by rewrite GetBalance_update_frame.
  - rewrite GetBalance_update_frame; auto.
Qed.

Lemma vmStep_transfer a b x w :
  owner a -> CanTransfer w a x = true -> vmStep owner keys w (Transfer a b x w).
Proof.
  intros Ha Hc. assert (rtc (vmMove owner keys) w (Transfer a b x w)) as Hm by (by apply rtc_once, move_pay).
  unfold Transfer in *. destruct (Z.leb_spec x 0); [reflexivity|].
  unfold CanTransfer in Hc. destruct (Z.ltb_spec x 0); [done|]. apply Z.leb_le in Hc.
  constructor; intros; [done|..].
  - rewrite total_balance_AddBalance, total_balance_SubBalance. lia.
  - unfold AddBalance, SubBalance. by rewrite !GetCode_update_frame.
  - by rewrite GetData_AddBalance, GetData_SubBalance.
  - by rewrite GetNonce_AddBalance, GetNonce_SubBalance.
  - rewrite GetBalance_AddBalance, GetBalance_SubBalance. repeat case_decide; naive_solver lia.
  - rewrite GetBalance_AddBalance, GetBalance_SubBalance.
    match goal with Hn : forall _, 0 <= _ |- _ => specialize (Hn a0) end.
    repeat case_decide; subst; lia.
Qed.

(** ** The bridge *)

Lemma safe_BTransfer to v : safe n (BTransfer to v).
Proof.
  intros s I Hd. unfold BTransfer. wsteps; try by split.
  apply wp_thisAddr; [done|]. intros a Ha. wsteps; [|by split].
  apply onDB_safe; [done|]. by apply vmStep_transfer.
Qed.
Lemma safe_BSetData k v : keys k -> safe n (BSetData k v).
Proof.
  intros Hk s I Hd. unfold BSetData. wsteps. apply wp_thisAddr; [done|]. intros a Ha.
  apply onDB_safe; [done|]. by apply vmStep_data.
Qed.
Lemma safe_BRemoveData k : keys k -> safe n (BRemoveData k).
Proof.
  intros Hk s I Hd. unfold BRemoveData. wsteps. apply wp_thisAddr; [done|]. intros a Ha.
  apply onDB_safe; [done|]. by apply vmStep_data.
Qed.
Lemma safe_BGetData k : safe n (BGetData k).
Proof. intros s I Hd. unfold BGetData. wsteps. apply wp_thisAddr; [done|]. intros. wsteps. by split. Qed.
Lemma safe_BTxGasLimit : safe n BTxGasLimit.
Proof. intros s I Hd. unfold BTxGasLimit. wsteps. destruct (ti_gas _ I) as [g ->]. apply wp_ret, wp_ret. by split. Qed.

Lemma safe_BEventCall e d : safe n (BEventCall e d).
Proof.
  intros s I Hd. unfold BEventCall. wstep. apply wp_theVM; [done|]. intros vm Hvm Hs Ho. wsteps.
  destruct (ti_header _ I) as [b ->]. apply wp_ret. unfold onCon. wstep. destruct I as [Iv Ih Ig Is Ic].
  split; [by split_and!|]. constructor; simpl; try done. eauto.
Qed.
Hint Resolve safe_BTransfer safe_BSetData safe_BRemoveData safe_BGetData safe_BTxGasLimit safe_BEventCall : zv.

Lemma safe_host callContract {R} (c : hostCall R) :
  (forall x f p, safe n (callContract x f p)) -> writes keys c -> safe n (host callContract c).
Proof.
  intros Hc Hw. destruct c; simpl in *; auto with zv;
    unfold BGetBalance, BBlockHash, BNumber, BTimestamp; safe_tac.
Qed.

Lemma wp_runProg callContract p s :
  (forall x f p, safe n (callContract x f p)) -> tvmInv s -> depth s = n -> tidy keys rel (ts_vm s) p ->
  wp False (runProg callContract p) s (fun _ s' => step s s' /\ tvmInv s').
Proof.
  intros Hc. revert s. induction p as [r st|R c st k IH]; intros s I Hd Ht; simpl in *; unfold lib.
  - wsteps. split; [by split_and!|by destruct I].
  - destruct Ht as (Hr & Hw & Ht). wsteps. set (s1 := mkTvmState _ _ _).
    assert (step s s1) as S1 by (by split_and!).
    eapply wp_mono; [apply (safe_host callContract c Hc Hw s1); [by destruct I|done]|].
    intros r s2 [S2 I2]. wsteps. eapply wp_mono; [apply IH; [done| |apply Ht, S2]|].
    + destruct S2 as (_ & E & _). by rewrite E.
    + intros x s3 [S3 I3]. split; [|done]. etransitivity; [exact S1|]. by transitivity s2.
Qed.

Section calls.
Variable callContract : bytes -> bytes -> bytes -> CM ExecuteResult.
Hypothesis Hcall : forall x f p, safe n (callContract x f p).

Lemma safe_executePycode vm code kind : safe n (executePycode callContract vm code kind).
Proof. intros s I Hd. unfold executePycode. wsteps. apply wp_runProg; auto. apply G. Qed.
Lemma safe_funcCall vm f args : safe n (funcCall callContract vm f args).
Proof. intros s I Hd. unfold funcCall. wsteps. apply wp_runProg; auto. apply G. Qed.
Lemma safe_loadMsg vm v : is_Some (vm_Sender vm) -> safe n (loadMsg vm v).
Proof. intros [a Ha]. unfold loadMsg. rewrite Ha. simpl. safe_tac. Qed.
Hint Resolve safe_executePycode safe_funcCall safe_loadMsg : zv.

Lemma safe_CreateContractInstance vm v : is_Some (vm_Sender vm) -> safe n (CreateContractInstance callContract vm v).
Proof. intros. unfold CreateContractInstance. safe_tac. Qed.
Lemma safe_TVM_Deploy vm v : is_Some (vm_Sender vm) -> safe n (TVM_Deploy callContract vm v).
Proof. intros. unfold TVM_Deploy. safe_tac. Qed.
Hint Resolve safe_CreateContractInstance : zv.
Lemma safe_callBody f p : safe n (callBody callContract f p).
Proof. unfold callBody, executeABIKindEval. safe_tac. Qed.
End calls.
End at_depth.
Hint Resolve safe_ret safe_gets : zv.
Ltac safe_tac :=
  repeat first
    [ solve [auto with zv]
    | apply safe_lib; intros ?; apply G
    | apply safe_theVM; intros ? ?
    | apply safe_header; intros ?
    | apply safe_bind; [|intros ?]
    | match goal with |- safe _ (match ?x with _ => _ end) => destruct x end ].

(** ** Nested calls *)

Lemma tvmInv_lib s st : tvmInv s -> tvmInv (mkTvmState (ts_con s) (ts_db s) st).
Proof. by intros []. Qed.

(** The machine's context is pushed, unless the stack is full. *)
Lemma wp_StoreVMContext s vm (Q : bool -> TvmState -> Prop) :
  tvmInv s -> is_Some (vm_Sender vm) -> owner (c_ContractAddress (vm_Contract vm)) -> Q false s ->
  (forall s', ts_db s' = ts_db s -> depth s' = S (depth s) -> rel (ts_vm s) (ts_vm s') ->
    (depth s < MaxDepth)%nat -> tvmInv s' -> Q true s') ->
  wp False (StoreVMContext vm) s Q.
Proof.
  intros I Hs Ho Qf Qt. unfold StoreVMContext. wsteps; [done|]. unfold lib, onCon. wsteps.
  apply wp_theVM; [by apply tvmInv_lib|]. simpl. intros cur Hcur Hsc Hoc. wsteps.
  apply Nat.leb_gt in Heqb. destruct I as [Iv Ih Ig Is Ic]. apply Qt; simpl.
  - reflexivity.
  - unfold depth. simpl. rewrite length_app. simpl. lia.
  - apply G.
  - done.
  - constructor; simpl; eauto. apply Forall_app. split; [done|]. by constructor.
Qed.

Lemma wp_RecoverVMContext s k :
  tvmInv s -> depth s = S k ->
  wp False RecoverVMContext s (fun _ s' =>
    ts_db s' = ts_db s /\ tvmInv s' /\ depth s' = k /\ ts_vm s' = tvm_remove_context (ts_vm s)).
Proof.
  intros I Hd. unfold RecoverVMContext. wstep. apply wp_theVM; [done|]. intros vm Hvm Hs Ho. wsteps.
  - unfold onCon, lib. wsteps. destruct I as [Iv Ih Ig Is Ic].
    assert (exists l, con_VMStack (ts_con s) = l ++ [t]) as [l El] by (by apply last_Some).
    unfold depth in *. simpl. rewrite El in *. apply Forall_app in Is as [Isl Ist]. apply Forall_cons in Ist as [[Hst Hot] _].
    rewrite length_app in *. simpl in *. rewrite Nat.add_sub, take_app_length.
    split_and!; [done| |lia|done]. constructor; simpl; eauto.
  - exfalso. apply last_None in Heqo. unfold depth in Hd. by rewrite Heqo in Hd.
Qed.

Lemma safe_CallContract fuel n x f p :
  (n <= MaxDepth)%nat -> (MaxDepth < fuel + n)%nat -> safe n (CallContract fuel x f p).
Proof.
  revert n x f p. induction fuel as [|fuel IH]; intros n x f p Hn Hf; [lia|]. simpl.
  intros s I Hd. wstep; [wsteps; by split|]. unfold LoadContract. wsteps; [by split|].
  apply bool_decide_eq_false in Heqb0. simpl in Heqb0.
  assert (owner (StringToAddress x)) as Hx by (by apply (ti_code _ I)).
  apply wp_theVM; [done|]. intros vm Hvm Hs Ho. unfold Gas, controllerHeight, NewTVMForRetainContext, SetGas, lib. wsteps.
  simpl. set (s1 := mkTvmState _ _ _). assert (tvmInv s1) as I1 by (by apply tvmInv_lib).
  assert (step s s1) as S1 by (split_and!; [reflexivity|done|apply G]).
  apply wp_StoreVMContext; [done|by eexists|done|by wsteps|]. intros s2 E2 L2 R2 Hlt I2. wsteps.
  change (depth s1) with (depth s) in *.
  eapply wp_mono; [apply (safe_callBody (S n)); [|done|congruence]|].
  { intros. apply IH; lia. }
  intros r s3 [(V3 & L3 & R3) I3]. wsteps.
  eapply wp_mono; [apply (wp_RecoverVMContext _ n); [done|congruence]|]. intros _u s4 (E4 & I4 & L4 & R4). wsteps.
  split; [|by apply tvmInv_lib]. etransitivity; [exact S1|]. split_and!; simpl.
  - change (ts_db s1) with (ts_db s) in E2. rewrite E4. change (ts_db s1) with (ts_db s). by rewrite <- E2.
  - unfold depth in *. simpl. congruence.
  - transitivity (ts_vm s2); [done|]. transitivity (ts_vm s3); [done|]. rewrite R4. apply G.
Qed.

Lemma safe_callFuel x f p : safe 0 (CallContract callFuel x f p).
Proof. apply safe_CallContract; unfold callFuel; lia. Qed.

(** ** The controller *)

(** A computation at the top that returns with the gas left recorded. *)
Definition ends {A} (m : CM A) : Prop :=
  forall s, tvmInv s -> depth s = 0%nat -> wp False m s (fun _ s' =>
    step s s' /\ con_GasLeft (ts_con s') = wrap64 (tvm_get_gas (ts_vm s'))).

Lemma ends_bind {A B} (m : CM A) (k : A -> CM B) : safe 0 m -> (forall x, ends (k x)) -> ends (bind m k).
Proof.
  intros Hm Hk s I Hd. wstep. eapply wp_mono; [by apply Hm|]. intros x s1 [S1 I1].
  eapply wp_mono; [apply Hk; [done|destruct S1 as (_ & ? & _); congruence]|]. intros y s2 [S2 E2].
  split; [by transitivity s1|done].
Qed.

Lemma ends_theVM {A} (k : TVM -> CM A) : (forall vm, ends (k vm)) -> ends (bind theVM k).
Proof. intros Hk s I Hd. wstep. apply wp_theVM; [done|]. intros. by apply Hk. Qed.

Lemma ends_finish {A} (m : CM A) :
  (forall s, tvmInv s -> wp False m s (fun _ s' => s' = s)) -> ends (finishVM ;;; m).
Proof.
  intros Hm s I Hd. unfold finishVM, Gas, lib, onCon. wsteps. eapply wp_mono; [apply Hm|].
  - by destruct I.
  - intros x s' ->. simpl. split; [|done]. split_and!; [reflexivity|done|apply G].
Qed.

Lemma ends_ret {A} (x : A) : ends (finishVM ;;; ret x).
Proof. apply ends_finish. intros s I. by wsteps. Qed.
Lemma ends_logs {A} (f : TVM -> A) : ends (finishVM ;;; vm <- theVM ;; ret (f vm)).
Proof. apply ends_finish. intros s I. wstep. apply wp_theVM; [done|]. intros. by wsteps. Qed.

(** What [NewController] sets up for a transaction of a block. *)
Record ready s : Prop := {
  rd_stack : con_VMStack (ts_con s) = [];
  rd_header : is_Some (con_BlockHeader (ts_con s));
  rd_gas : is_Some (tx_GasLimit (con_Transaction (ts_con s)));
}.

(** The gas left is what the library reports in a state reached from one in which
    the gas was set to what was left before. *)
Definition metered s s' : Prop :=
  con_GasLeft (ts_con s') = wrap64 (tvm_get_gas (ts_vm s')) /\
  exists st, rel (tvm_set_gas (toInt32 (con_GasLeft (ts_con s))) st) (ts_vm s').

Lemma wp_firstVM {A} sender c h (m : TVM -> CM A) s :
  ready s -> is_Some sender -> (forall a, hasCode (ts_db s) a -> owner a) -> owner (c_ContractAddress c) ->
  (forall vm, is_Some (vm_Sender vm) -> ends (m vm)) ->
  wp False (vm <- NewTVM sender c h ;; onCon (setVM (Some vm)) ;;;
            g <- gets (fun s => con_GasLeft (ts_con s)) ;; SetGas g ;;; m vm) s
    (fun _ s' => vmStep owner keys (ts_db s) (ts_db s') /\ metered s s').
Proof.
  intros [Hst Hh Hg] Hsn Hcode Ho Hm. unfold NewTVM, NewTVMForRetainContext, SetGas, lib, onCon. wsteps. simpl.
  eapply wp_mono; [apply Hm; [done|..]|].
  - constructor; simpl; try done; [|by rewrite Hst]. by eexists.
  - unfold depth. simpl. by rewrite Hst.
  - intros x s' ((V & _ & R) & E). simpl in *. split; [done|]. split; [done|]. by eexists.
Qed.

Lemma safe_Deploy c s :
  ready s -> is_Some (tx_Source (con_Transaction (ts_con s))) ->
  (forall a, hasCode (ts_db s) a -> owner a) -> owner (c_ContractAddress c) ->
  wp False (Deploy c) s (fun _ s' => vmStep owner keys (ts_db s) (ts_db s') /\ metered s s').
Proof.
  intros Hr Hsn Hcode Ho. unfold Deploy, controllerHeight. do 4 wstep.
  apply wp_firstVM; [done..|]. intros vm Hvm.
  apply ends_bind; [apply safe_TVM_Deploy; auto using safe_callFuel|]. intros r. apply ends_logs.
Qed.

Lemma safe_ExecuteAbiEval sender c abi s :
  ready s -> is_Some sender ->
  (forall a, hasCode (ts_db s) a -> owner a) -> owner (c_ContractAddress c) ->
  wp False (ExecuteAbiEval sender c abi) s (fun _ s' => vmStep owner keys (ts_db s) (ts_db s') /\ metered s s').
Proof.
  intros Hr Hsn Hcode Ho. unfold ExecuteAbiEval, controllerHeight. do 4 wstep.
  apply wp_firstVM; [done..|]. intros vm Hvm.
  apply ends_bind; [apply safe_CreateContractInstance; auto using safe_callFuel|]. intros [r b]. simpl.
  destruct b; [apply ends_ret|]. destruct (decodeABI abi); [apply ends_ret|].
  apply ends_theVM. intros vm1. apply ends_bind; [|intros; apply ends_logs].
  unfold executeABIKindEval. apply safe_funcCall, safe_callFuel.
Qed.
End safe.

Lemma wp_returns {S A} (m : M S Empty_set A) s Q :
  wp False m s Q -> exists x s', m s = (Ok x, s') /\ Q x s'.
Proof. unfold wp. destruct (m s) as [[x|[]|g] s']; [eauto|done]. Qed.

(** Any library guarantees nothing. *)
Lemma noGuarantee `{TvmLib} : Guarantee (fun _ => True) (fun _ _ => True).
Proof.
  assert (forall st p, tidy (fun _ => True) (fun _ _ => True) st p) as Ht.
  { intros st p. revert st. induction p as [r st'|R c st' k IH]; intros st; simpl; [done|].
    split_and!; [done|by destruct c|auto]. }
  constructor; auto. by split.
Qed.

(** ** Gas *)

(** The machine's gas only goes down, and not below zero. *)
Definition gasRel `{TvmLib} (st st' : vmState) : Prop :=
  0 <= tvm_get_gas st < 2 ^ 31 -> 0 <= tvm_get_gas st' <= tvm_get_gas st.

(** A library that writes only [keys], meters gas, and reports the gas it was
    given. *)
Record MeteredLib `{TvmLib} (keys : bytes -> Prop) : Prop := {
  ml_guarantee : Guarantee keys gasRel;
  ml_set g st : 0 <= g < 2 ^ 31 -> tvm_get_gas (tvm_set_gas g st) = g;
}.

Lemma metered_gas `{TvmLib} keys s s' :
  MeteredLib keys -> metered gasRel s s' -> 0 <= con_GasLeft (ts_con s) < 2 ^ 31 ->
  0 <= con_GasLeft (ts_con s') <= con_GasLeft (ts_con s).
Proof.
  intros L [E [st R]] Hg. assert (toInt32 (con_GasLeft (ts_con s)) = con_GasLeft (ts_con s)) as Ei.
  { unfold toInt32. rewrite Z.mod_small; lia. }
  rewrite Ei in R. unfold gasRel in R. rewrite (ml_set _ L) in R by done. specialize (R Hg).
  rewrite E, wrap64_id; [done|]. unfold u64_ok, two64. lia.
Qed.

(** ** Properties *)

(** C27: deploying a contract, whatever its code and whatever
    the virtual machine does, returns without a panic, however deep its calls try
    to nest; it creates and destroys no coins, changes no code and no nonce, makes
    no balance negative, and leaves the storage and at least the balance of every
    account other than the new contract that carries no contract. *)
Theorem deploy_confined `{TvmLib} `{Json} `{ChainReader} c s :
  ready s -> is_Some (tx_Source (con_Transaction (ts_con s))) ->
  exists r s', Deploy c s = (Ok r, s') /\
    vmStep (fun a => hasCode (ts_db s) a \/ a = c_ContractAddress c) (fun _ => True) (ts_db s) (ts_db s').
Proof.
  intros Hr Hs. apply wp_returns.
  eapply wp_mono; [apply (safe_Deploy (fun a => hasCode (ts_db s) a \/ a = c_ContractAddress c) _ _ noGuarantee); auto|]. by intros r s' [].
Qed.

(** C26: the same of a contract call: it returns, and only
    accounts that carry a contract can have their storage changed or lose coins. *)
Theorem call_confined `{TvmLib} `{Json} `{ChainReader} sender c abi s :
  ready s -> is_Some sender -> hasCode (ts_db s) (c_ContractAddress c) ->
  exists r s', ExecuteAbiEval sender c abi s = (Ok r, s') /\
    vmStep (hasCode (ts_db s)) (fun _ => True) (ts_db s) (ts_db s').
Proof.
  intros Hr Hs Hc. apply wp_returns.
  eapply wp_mono; [apply (safe_ExecuteAbiEval (hasCode (ts_db s)) _ _ noGuarantee sender c abi s); auto|].
  by intros r s' [].
Qed.

(** ** Example: a library that pays, stores and calls itself without end *)

Definition selfAddr : Address := BigToAddress 4242.
Definition otherAddr : Address := BigToAddress 99.
Definition selfCode : bytes := str "code".

(** Gas is the library's state.  Running the code does nothing; a function call
    pays one coin, stores a value and calls the contract again. *)
Definition burn (st : Z) : Z := Z.max 0 (st - 1).
Definition loopLib : TvmLib := {|
  vmState := Z;
  tvm_start st := st; tvm_gc st := st; tvm_create_context st := st; tvm_remove_context st := st;
  tvm_set_register st := st; tvm_get_gas st := st; tvm_set_gas g st := g;
  tvm_set_msg _ _ st := st; tvm_set_this _ st := st; tvm_set_zips _ _ st := st;
  tvm_execute _ _ _ st := VDone (mkResult 0 0 []) (burn st);
  tvm_fun_call _ _ _ st :=
    VCall (HTransfer (AddrPrefixString otherAddr) (str "1")) (burn st) (fun _ st =>
    VCall (HSetData (str "k") (str "v")) (burn st) (fun _ st =>
    VCall (HContractCall (AddrPrefixString selfAddr) (str "f") (str "[]")) (burn st) (fun r st => VDone r st)))
|}.
Definition rawJson : Json := {|
  jsonValue := unit; unmarshalContract b := (b, str "C"); decodeABI b := inr (b, []); marshalArgs _ := str "[]" |}.
Definition noReader : ChainReader := {| QueryBlockHeaderByHeight _ := None |}.
#[local] Existing Instances loopLib rawJson noReader.

Definition selfContract : Contract := mkContract selfCode (str "C") selfAddr.
Definition selfWorld : World := AddBalance selfAddr 100 (SetCode selfAddr selfCode emptyWorld).
Definition callTx : Transaction := {|
  tx_Data := str "abi"; tx_Value := Some 0; tx_Nonce := 1; tx_Target := Some selfAddr; tx_Type := 1;
  tx_GasLimit := Some 1000; tx_GasPrice := Some 500; tx_ExtraData := []; tx_Sign := None;
  tx_Source := Some otherAddr; tx_Hash := zeroB32 |}.
Definition anyHeader : BlockHeader :=
  mkBlockHeader zeroB32 7 zeroB32 0 [] 0 0 [] zeroB32 [] 0 zeroB32 zeroB32 zeroB32 [] [] 0.
Definition selfState : TvmState := mkTvmState (mkController (Some anyHeader) callTx None [] 600) selfWorld 0.
Definition callResult := ExecuteAbiEval (Some otherAddr) selfContract (str "abi") selfState.

(** Six payments: the call and the five nested ones; the sixth nested call is
    refused. *)
Lemma call_confined_witness :
  GetBalance (ts_db (snd callResult)) otherAddr = 6 /\
  exists r s', callResult = (Ok r, s') /\ vmStep (hasCode selfWorld) (fun _ => True) selfWorld (ts_db s').
Proof.
  split; [vm_compute; reflexivity|].
  apply (call_confined (Some otherAddr) selfContract (str "abi") selfState); [by split|by eexists|discriminate].
Defined.

Lemma deploy_confined_witness :
  exists r s', Deploy selfContract selfState = (Ok r, s') /\
    vmStep (fun a => hasCode selfWorld a \/ a = selfAddr) (fun _ => True) selfWorld (ts_db s').
Proof. apply (deploy_confined selfContract selfState); [by split|by eexists]. Defined.

Lemma burn_gas (st : Z) : gasRel (H := loopLib) st (burn st).
Proof. unfold gasRel, burn. simpl. lia. Qed.

Lemma loopLib_metered (keys : bytes -> Prop) : keys (str "k") -> MeteredLib (H := loopLib) keys.
Proof.
  intros Hk.
  assert (forall st : Z, 0 <= st < 2 ^ 31 -> toInt32 st = st) as Hi.
  { intros st ?. unfold toInt32. rewrite Z.mod_small; lia. }
  split; [|by intros g st _]. constructor.
  - split; [intros a|intros a b c]; unfold gasRel; simpl; lia.
  - intros. unfold gasRel. simpl. lia.
  - intros. unfold gasRel. simpl. lia.
  - intros. unfold gasRel. simpl. lia.
  - intros. unfold gasRel. simpl. lia.
  - intros. unfold gasRel. simpl. lia.
  - intros z2 z3 st. unfold gasRel. simpl. intros. rewrite Hi; lia.
  - intros st. unfold gasRel. simpl. intros. rewrite Hi; lia.
  - intros. apply burn_gas.
  - intros. split_and!; try done; [apply burn_gas|]. intros _ st1 H1. split_and!; try done; [apply burn_gas|].
    intros _ st2 H2. split_and!; try done; [apply burn_gas|]. intros r st3 H3. unfold gasRel. simpl. lia.
Qed.
