(* ===== verification/Supply.v ===== *)
(** * Supply: how coins enter, leave and move in a balanced ledger

    The steps of transaction execution outside the miner operations, as steps of
    the ledger's invariant [MinerInv S]. *)
From S2P Require Import Prelude Bytes World Types MinerBase MinerOps MinerView MinerInv MinerSafe.
From S2P Require Import MinerManager MinerTheorems Tvm TvmSafe.
Local Open Scope Z_scope.

Section supply.
Context `{MinerCodecLaws}.
Implicit Types (w : World) (a b : Address) (S : Z).

Lemma MinerInv_nonneg S w : MinerInv S w -> 0 <= S.
Proof.
  intros I. pose proof (li_supply _ _ _ _ _ _ I) as Hs. unfold supply in Hs.
  assert (0 <= total_balance w) by (apply total_balance_nonneg, (li_bal _ _ _ _ _ _ I)).
  assert (0 <= locked w); [|lia]. apply map_sum_nonneg. intros a o Ho. apply map_sum_nonneg. intros k v Hk.
  eapply lockedOf_nonneg; [|exact Ho|exact Hk]. intros b src u s d. apply (li_det _ _ _ _ _ _ I).
Qed.

Lemma MinerInv_mint S w a x : MinerInv S w -> 0 <= x -> S + x < two64 -> MinerInv (S + x) (AddBalance a x w).
Proof.
  intros I Hx Hb. destruct (LedgerInv_AddBalance S zeroB32 MinerTypeVerify 0 0 w a x I Hx) as [].
  constructor; auto. lia.
Qed.

Lemma MinerInv_burn S w a x : MinerInv S w -> 0 <= x <= GetBalance w a -> MinerInv (S - x) (SubBalance a x w).
Proof.
  intros I Hx. pose proof (LedgerInv_SubBalance S zeroB32 MinerTypeVerify 0 0 w a x I Hx) as I'.
  apply LedgerInv_settle in I'; [|lia]. by replace (S - x) with (S - (0 + x)) by lia.
Qed.

Lemma MinerInv_transfer S w a b x : MinerInv S w -> CanTransfer w a x = true -> MinerInv S (Transfer a b x w).
Proof.
  intros I Hc. unfold CanTransfer, Transfer in *. destruct (Z.leb_spec x 0); [done|].
  destruct (Z.ltb_spec x 0); [lia|]. apply Z.leb_le in Hc.
  replace S with (S - x + x) by lia. pose proof (li_bound _ _ _ _ _ _ I).
  apply MinerInv_mint; [|lia|lia]. apply MinerInv_burn; [done|lia].
Qed.

(** A change of nonce or code, or a new account. *)
Lemma MinerInv_frame S w a f :
  (forall o, Storage (f o) = Storage o) -> (forall o, Balance (f o) = Balance o) ->
  MinerInv S w -> MinerInv S (update a f w).
Proof.
  intros Hs Hb I.
  assert (forall b k, GetData (update a f w) b k = GetData w b k) as Ed by (intros; by apply GetData_update_frame).
  assert (forall b t, minerAt (update a f w) b t = minerAt w b t) as Em by (intros; unfold minerAt; by rewrite Ed).
  assert (forall b src t s, detailAt (update a f w) b src t s = detailAt w b src t s) as Et
    by (intros; unfold detailAt; by rewrite Ed).
  constructor; intros; unfold stakeAt, isActiveAt in *; rewrite ?Em, ?Et in *.
  - rewrite <- (li_supply _ _ _ _ _ _ I). unfold supply, locked.
    rewrite total_balance_update, Hb, storage_sum_update_frame by done. lia.
  - apply (li_bound _ _ _ _ _ _ I).
  - rewrite GetBalance_update_frame by done. apply (li_bal _ _ _ _ _ _ I).
  - by eapply (li_det _ _ _ _ _ _ I).
  - by apply (li_wf _ _ _ _ _ _ I).
  - rewrite stakedSum_update_frame by done. apply (li_stake _ _ _ _ _ _ I).
  - unfold getProposalTotalStake, proposalSum. rewrite Ed, storage_sum_update_frame by done.
    apply (li_total _ _ _ _ _ _ I).
  - unfold inPool. rewrite Ed. by apply (li_pool _ _ _ _ _ _ I).
  - by eapply (li_self _ _ _ _ _ _ I).
Qed.

Lemma MinerInv_SetNonce S w a n : MinerInv S w -> MinerInv S (SetNonce a n w).
Proof. by apply MinerInv_frame. Qed.
Lemma MinerInv_SetCode S w a c : MinerInv S w -> MinerInv S (SetCode a c w).
Proof. by apply MinerInv_frame. Qed.
Lemma MinerInv_CreateAccount S w a : MinerInv S w -> MinerInv S (CreateAccount a w).
Proof. by apply MinerInv_frame. Qed.

(** What a contract does, when the keys it writes are not the ledger's. *)
Definition foreignKey (k : bytes) : Prop := forall a, neutral a k.

Lemma MinerInv_vmMoves S owner w w' :
  rtc (vmMove owner foreignKey) w w' -> MinerInv S w -> MinerInv S w'.
Proof.
  induction 1 as [|w1 w2 w3 Hm _ IH]; [done|]. intros I. apply IH.
  destruct Hm as [a b x w Ha Hc|a k v w Ha Hk]; [by apply MinerInv_transfer|].
  apply LedgerInv_neutral; auto.
Qed.
End supply.
#[export] Hint Resolve MinerInv_SetNonce MinerInv_SetCode MinerInv_CreateAccount : zv.
