(* ===== verification/Rewards.v ===== *)
(** * Rewards: block rewards and the reward transaction

    [src/core/rewards_manager.go]: how many coins a block mints and how they are
    split between the proposer, the verifiers, the packer of the reward
    transaction, the daemon nodes and the user nodes; the encoding of the reward
    transaction that pays the verifiers of a block. *)
From S2P Require Import Prelude Bytes World Sha256 Types TxHash MinerBase.
Local Open Scope Z_scope.

Definition initialRewards : Z := 62224000000.
Definition halveRewardsPeriod : Z := 30000000.
Definition tokensOfMiners : Z := 3500000000 * ZVC.
Definition noRewardsHeight : Z := 120000000.

Definition initialDaemonNodeWeight : Z := 440.
Definition initialMinerNodeWeight : Z := 6460.
Definition userNodeWeight : Z := 100.
Definition totalNodeWeight : Z := 7000.
Definition adjustWeight : Z := 80.

Definition castorRewardsWeight : Z := 8.
Definition packedRewardsWeight : Z := 1.
Definition verifyRewardsWeight : Z := 1.
Definition totalRewardsWeight : Z := 10.

Definition gasFeeCastorRewardsWeight : Z := 9.
Definition gasFeeVerifyRewardsWeight : Z := 1.
Definition gasFeeTotalRewardsWeight : Z := 10.

(** ** What a block mints *)

Definition blockRewards (height : Z) : Z :=
  if noRewardsHeight <? height then 0
  else
    let period := height / adjustWeightPeriod in
    let speedUp := if 1 <=? period then 2 else 0 in
    Z.shiftr initialRewards (height / halveRewardsPeriod + speedUp).

Definition userNodesRewards (height : Z) : Z :=
  let rewards := blockRewards height in
  if rewards =? 0 then 0 else (rewards * userNodeWeight)%u64 / totalNodeWeight.

Definition daemonNodesRewards (height : Z) : Z :=
  let rewards := blockRewards height in
  if rewards =? 0 then 0
  else
    let daemonNodeWeight := (initialDaemonNodeWeight + height / adjustWeightPeriod * adjustWeight)%u64 in
    (rewards * daemonNodeWeight)%u64 / totalNodeWeight.

Definition minerNodesRewards (height : Z) : Z :=
  let rewards := blockRewards height in
  if rewards =? 0 then 0
  else
    let minerNodesWeight := (initialMinerNodeWeight - height / adjustWeightPeriod * adjustWeight)%u64 in
    if totalNodeWeight <? minerNodesWeight then 0
    else (rewards * minerNodesWeight)%u64 / totalNodeWeight.

Definition calculateCastorRewards (height : Z) : Z :=
  (minerNodesRewards height * castorRewardsWeight)%u64 / totalRewardsWeight.
Definition calculatePackedRewards (height : Z) : Z :=
  (minerNodesRewards height * packedRewardsWeight)%u64 / totalRewardsWeight.
Definition calculateVerifyRewards (height : Z) : Z :=
  (minerNodesRewards height * verifyRewardsWeight)%u64 / totalRewardsWeight.
Definition calculateGasFeeVerifyRewards (gasFee : Z) : Z :=
  (gasFee * gasFeeVerifyRewardsWeight)%u64 / gasFeeTotalRewardsWeight.
Definition calculateGasFeeCastorRewards (gasFee : Z) : Z :=
  (gasFee * gasFeeCastorRewardsWeight)%u64 / gasFeeTotalRewardsWeight.

Record CastRewardShare := {
  ForBlockProposal : Z; ForBlockVerify : Z; ForRewardTxPacking : Z;
  FeeForProposer : Z; FeeForVerifier : Z }.
Definition CalculateCastRewardShare (height gasFee : Z) : CastRewardShare := {|
  ForBlockProposal := calculateCastorRewards height;
  ForBlockVerify := calculateVerifyRewards height;
  ForRewardTxPacking := calculatePackedRewards height;
  FeeForProposer := calculateGasFeeCastorRewards gasFee;
  FeeForVerifier := calculateGasFeeVerifyRewards gasFee |}.

(** ** The reward transaction *)

Definition rewardVersion : Byte.byte := Byte.x01.

(** [GroupManagerImpl.GetGroupBySeed]: the ids of the members of a group. *)
Class RewardEnv := { GetGroupBySeed : Hash -> option (list bytes) }.

Record Reward := {
  rw_TxHash : Hash; rw_TargetIds : list Z; rw_BlockHash : Hash; rw_Group : Hash; rw_TotalValue : Z }.

Definition rewardExtra (targetIds : list Z) (gSeed : Hash) (packFee : Z) : bytes :=
  rewardVersion :: b32_bytes gSeed ++ Uint64ToByte packFee ++
  concat (map (fun idIdx => UInt16ToByte (idIdx mod 65536)) targetIds).

Definition with_Hash (h : Hash) (tx : Transaction) : Transaction := {|
  tx_Data := tx_Data tx; tx_Value := tx_Value tx; tx_Nonce := tx_Nonce tx; tx_Target := tx_Target tx;
  tx_Type := tx_Type tx; tx_GasLimit := tx_GasLimit tx; tx_GasPrice := tx_GasPrice tx;
  tx_ExtraData := tx_ExtraData tx; tx_Sign := tx_Sign tx; tx_Source := tx_Source tx; tx_Hash := h |}.
Definition NewTransaction (raw : Transaction) : Transaction := with_Hash (GenHash raw) raw.

Definition GenerateReward (targetIds : list Z) (blockHash gSeed : Hash) (totalValue packFee : Z)
    : option (Reward * Transaction) :=
  match targetIds with
  | [] => None
  | _ =>
      let tx := NewTransaction {|
        tx_Data := b32_bytes blockHash;
        tx_Value := Some (totalValue / Z.of_nat (length targetIds));
        tx_Nonce := 0; tx_Target := None; tx_Type := TransactionTypeReward;
        tx_GasLimit := Some 0; tx_GasPrice := Some 0;
        tx_ExtraData := rewardExtra targetIds gSeed packFee;
        tx_Sign := None; tx_Source := None; tx_Hash := zeroB32 |} in
      Some ({| rw_TxHash := tx_Hash tx; rw_TargetIds := targetIds; rw_BlockHash := blockHash;
               rw_Group := gSeed; rw_TotalValue := totalValue |}, tx)
  end.

(** [bytes.Reader.Read] into a buffer: nothing left is an error, otherwise the
    bytes there are, over the front of the buffer. *)
Definition readInto (buf r : bytes) : option (bytes * bytes) :=
  match r with
  | [] => None
  | _ =>
      let got := take (length buf) r in
      Some (got ++ drop (length got) buf, drop (length buf) r)
  end.

(** The loop that reads target indexes, over one reused two-byte buffer; every
    round consumes input, so the remaining length is enough fuel. *)
Fixpoint readIdxs (fuel : nat) (buf r : bytes) : list Z :=
  match fuel with
  | O => []
  | S fuel' =>
      match readInto buf r with
      | None => []
      | Some (buf', r') => ByteToUInt16 buf' :: readIdxs fuel' buf' r'
      end
  end.

Section parse.
Context `{RewardEnv}.

Fixpoint targetsOf (members : list bytes) (idxs : list Z) : outcome opError (list bytes) :=
  match idxs with
  | [] => Ok []
  | idx :: idxs' =>
      if Z.of_nat (length members) mod 65536 <=? idx then Err (errOf "target index exceed" RSParseFail)
      else match members !! Z.to_nat idx with
           | None => Panic "index out of range"
           | Some m => match targetsOf members idxs' with
                       | Ok ms => Ok (m :: ms)
                       | e => e
                       end
           end
  end.

Definition parseRewardBlockHash (tx : Transaction) : Hash := BytesToHash (tx_Data tx).

Record ParsedReward := mkParsedReward {
  pr_gSeed : Hash; pr_targets : list bytes; pr_blockHash : Hash; pr_packFee : Z }.

Definition ParseRewardTransaction (tx : Transaction) : outcome opError ParsedReward :=
  match tx_ExtraData tx with
  | [] => Err (errOf "EOF" RSParseFail)
  | version :: r =>
      if decide (version <> rewardVersion) then Err (errOf "reward version error" RSParseFail) else
      match readInto (replicate 32 Byte.x00) r with
      | None => Err (errOf "read group seed error" RSParseFail)
      | Some (gSeedBytes, r1) =>
          match readInto (replicate 8 Byte.x00) r1 with
          | None => Err (errOf "read pack fee error" RSParseFail)
          | Some (pf, r2) =>
              let targetIdxs := readIdxs (length r2) (replicate 2 Byte.x00) r2 in
              let gSeed := BytesToHash gSeedBytes in
              match GetGroupBySeed gSeed with
              | None => Err (errOf "group is nil" RSParseFail)
              | Some members =>
                  match targetsOf members targetIdxs with
                  | Ok ids =>
                      match ByteToUint64 pf with
                      | Ok fee => Ok (mkParsedReward gSeed ids (parseRewardBlockHash tx) fee)
                      | Err e => Err e
                      | Panic g => Panic g
                      end
                  | Err e => Err e
                  | Panic g => Panic g
                  end
              end
          end
      end
  end.
End parse.

(** ** Marks of the blocks already rewarded *)

Definition getRewardData (w : World) (key : bytes) : option bytes := GetData w RewardStoreAddr key.
Definition setRewardData (key value : bytes) : World -> World := SetData RewardStoreAddr key value.
Definition HasRewardedOfBlock (w : World) (blockHash : Hash) : bool :=
  bool_decide (is_Some (getRewardData w (b32_bytes blockHash))).
Definition MarkBlockRewarded (blockHash transactionHash : Hash) : World -> World :=
  setRewardData (b32_bytes blockHash) (b32_bytes transactionHash).

(** ** Lemmas *)

Section reading.
Lemma readInto_exact buf a r :
  length a = length buf -> a <> [] -> readInto buf (a ++ r) = Some (a, r).
Proof.
  intros Hl Ha. unfold readInto. destruct (a ++ r) as [|x l] eqn:E.
  { by apply app_eq_nil in E as [-> _]. }
  rewrite <- E, <- Hl, take_app_length, drop_app_length, Hl, drop_ge, app_nil_r by lia. done.
Qed.

Lemma ByteToUInt16_UInt16ToByte i : 0 <= i < 65536 -> ByteToUInt16 (UInt16ToByte i) = i.
Proof.
  intros Hi. unfold ByteToUInt16, UInt16ToByte. rewrite bytesToNumber_put.
  by apply Z.mod_small.
Qed.

Lemma readIdxs_written ids fuel buf :
  Forall (fun i => 0 <= i < 65536) ids -> length buf = 2%nat -> (length ids <= fuel)%nat ->
  readIdxs fuel buf (concat (map (fun i => UInt16ToByte (i mod 65536)) ids)) = ids.
Proof.
  intros Hids. revert fuel buf. induction Hids as [|i ids Hi _ IH]; intros fuel buf Hb Hf.
  - by destruct fuel.
  - destruct fuel as [|fuel]; simpl in Hf; [lia|]. cbn [map concat readIdxs].
    assert (length (UInt16ToByte (i mod 65536)) = 2%nat) as Hl by apply BigEndian.put_length.
    rewrite readInto_exact; [|by rewrite Hl, Hb|by intros E; rewrite E in Hl].
    rewrite Z.mod_small, ByteToUInt16_UInt16ToByte by done. f_equal.
    apply IH; [|lia]. apply BigEndian.put_length.
Qed.

Lemma targetsOf_lookup members ids ms :
  Z.of_nat (length members) < 65536 -> Forall (fun i => 0 <= i) ids ->
  mapM (fun i => members !! Z.to_nat i) ids = Some ms -> targetsOf members ids = Ok ms.
Proof.
  intros Hn Hids. revert ms. induction Hids as [|i ids Hi _ IH]; simpl; intros ms Hms.
  - by injection Hms as <-.
  - apply bind_Some in Hms as (m & Hm & Hms). apply bind_Some in Hms as (ms' & Hms' & [= <-]).
    pose proof (lookup_lt_Some _ _ _ Hm) as Hlt.
    rewrite Z.mod_small by lia. destruct (Z.leb_spec (Z.of_nat (length members)) i); [lia|].
    by rewrite Hm, (IH ms').
Qed.
End reading.

Section amounts.
Implicit Types (h : Z).

Lemma blockRewards_range h : 0 <= h -> 0 <= blockRewards h <= initialRewards.
Proof.
  intros Hh. unfold blockRewards. case_match; [done|].
  set (n := h / halveRewardsPeriod + _). assert (0 <= n) as Hn.
  { apply Z.add_nonneg_nonneg; [by apply Z.div_pos|by case_match]. }
  split; [by apply Z.shiftr_nonneg|]. rewrite Z.shiftr_div_pow2 by done.
  apply Z.div_le_upper_bound; [by apply Z.pow_pos_nonneg|].
  pose proof (Z.pow_pos_nonneg 2 n). unfold initialRewards. nia.
Qed.

Lemma period_range h : 0 <= h -> blockRewards h <> 0 -> 0 <= h / adjustWeightPeriod <= 12.
Proof.
  intros Hh Hr. split; [by apply Z.div_pos|]. unfold blockRewards in Hr.
  destruct (Z.ltb_spec noRewardsHeight h); [done|].
  apply (Z.div_le_mono h noRewardsHeight adjustWeightPeriod) in H; [|done]. exact H.
Qed.

(** A share is its exact part of the whole, rounded down, without overflow. *)
Lemma share_exact r weight total :
  0 <= r <= initialRewards -> 0 <= weight <= 7000 -> (r * weight)%u64 / total = r * weight / total.
Proof.
  intros Hr Hw. rewrite wrap64_id; [done|]. unfold u64_ok, two64, initialRewards in *. nia.
Qed.

Lemma minerWeight_exact h :
  0 <= h -> blockRewards h <> 0 ->
  (initialMinerNodeWeight - h / adjustWeightPeriod * adjustWeight)%u64 =
  6460 - h / adjustWeightPeriod * 80.
Proof.
  intros Hh Hr. pose proof (period_range h Hh Hr).
  rewrite !wrap64_id; [done|..]; unfold u64_ok, two64, adjustWeight, initialMinerNodeWeight; try lia.
Qed.

Lemma daemonWeight_exact h :
  0 <= h -> blockRewards h <> 0 ->
  (initialDaemonNodeWeight + h / adjustWeightPeriod * adjustWeight)%u64 =
  440 + h / adjustWeightPeriod * 80.
Proof.
  intros Hh Hr. pose proof (period_range h Hh Hr).
  rewrite !wrap64_id; [done|..]; unfold u64_ok, two64, adjustWeight, initialDaemonNodeWeight; try lia.
Qed.
End amounts.

Lemma minerNodesRewards_range h : 0 <= h -> 0 <= minerNodesRewards h <= initialRewards.
Proof.
  intros Hh. pose proof (blockRewards_range h Hh) as Hr. unfold minerNodesRewards.
  cbv zeta.
  destruct (Z.eqb_spec (blockRewards h) 0) as [_|Hnz]; [done|].
  pose proof (period_range h Hh Hnz) as Hp. rewrite minerWeight_exact by done.
  destruct (_ <? _); [done|]. rewrite share_exact by lia. unfold totalNodeWeight. split.
  - apply Z.div_pos; nia.
  - apply Z.div_le_upper_bound; nia.
Qed.

Lemma BytesToHash_b32 (h : Hash) : BytesToHash (b32_bytes h) = h.
Proof. apply BytesToAddress_bytes. Qed.

Lemma read_Uint64ToByte x : u64_ok x -> BigEndian.read (take 8 (Uint64ToByte x)) = x.
Proof.
  intros Hx. unfold Uint64ToByte. rewrite take_ge by (rewrite BigEndian.put_length; lia).
  rewrite BigEndian.read_put. by apply Z.mod_small.
Qed.

Lemma length_concat_idx ids :
  length (concat (map (fun i => UInt16ToByte (i mod 65536)) ids)) = (2 * length ids)%nat.
Proof.
  induction ids as [|i ids IH]; [done|]. cbn [map concat]. rewrite length_app, IH.
  unfold UInt16ToByte. rewrite BigEndian.put_length. simpl. lia.
Qed.

Lemma mapM_index_range {A} (l : list A) ids ms :
  Z.of_nat (length l) < 65536 -> Forall (fun i => 0 <= i) ids ->
  mapM (fun i => l !! Z.to_nat i) ids = Some ms -> Forall (fun i => 0 <= i < 65536) ids.
Proof.
  intros Hn Hids. revert ms. induction Hids as [|i ids Hi _ IH]; simpl; intros ms Hms; [done|].
  apply bind_Some in Hms as (m & Hm & Hms). apply bind_Some in Hms as (ms' & Hms' & _).
  apply lookup_lt_Some in Hm. constructor; [lia|eauto].
Qed.

(** ** The reward of a block

    It is halved at every [halveRewardsPeriod], and at the last height with a reward,
    120000000, for a fourth time. *)

Lemma blockRewards_segment h :
  0 <= h ->
  blockRewards h =
    (if h <? 10000000 then 62224000000 else if h <? 30000000 then 15556000000
     else if h <? 60000000 then 7778000000 else if h <? 90000000 then 3889000000
     else if h <? 120000000 then 1944500000 else if h <? 120000001 then 972250000 else 0).
Proof.
  intros Hh. unfold blockRewards, noRewardsHeight, halveRewardsPeriod, adjustWeightPeriod.
  assert (forall a b q, 0 < b -> q * b <= a < (q + 1) * b -> a / b = q) as Hdiv.
  { intros a b q Hb Hq. symmetry. apply (Z.div_unique a b q (a - q * b)); lia. }
  destruct (Z.ltb_spec 120000000 h).
  { repeat (case_match; try lia). }
  destruct (Z.leb_spec 1 (h / 10000000)) as [H1|H1].
  - assert (10000000 <= h) by (pose proof (Z.mul_div_le h 10000000); lia).
    destruct (Z.ltb_spec h 10000000); [lia|].
    destruct (Z.ltb_spec h 30000000); [by rewrite (Hdiv h 30000000 0) by lia|].
    destruct (Z.ltb_spec h 60000000); [by rewrite (Hdiv h 30000000 1) by lia|].
    destruct (Z.ltb_spec h 90000000); [by rewrite (Hdiv h 30000000 2) by lia|].
    destruct (Z.ltb_spec h 120000000); [by rewrite (Hdiv h 30000000 3) by lia|].
    destruct (Z.ltb_spec h 120000001); [by rewrite (Hdiv h 30000000 4) by lia|lia].
  - assert (h < 10000000).
    { destruct (Z.lt_ge_cases h 10000000) as [|Hge]; [done|].
      apply (Z.div_le_mono _ _ 10000000) in Hge; [|lia]. rewrite Z.div_same in Hge by lia. lia. }
    destruct (Z.ltb_spec h 10000000); [|lia]. by rewrite (Hdiv h 30000000 0) by lia.
Qed.

(** ** Properties *)

(** At every height the user, daemon and miner shares
    computed with uint64 arithmetic add up to the block reward, less than three
    RA of rounding. *)
Theorem node_rewards_split h :
  0 <= h ->
  0 <= blockRewards h - (userNodesRewards h + daemonNodesRewards h + minerNodesRewards h) < 3.
Proof.
  intros Hh. pose proof (blockRewards_range h Hh) as Hr.
  unfold userNodesRewards, daemonNodesRewards, minerNodesRewards.
  destruct (Z.eqb_spec (blockRewards h) 0) as [->|Hnz]; [lia|].
  pose proof (period_range h Hh Hnz) as Hp.
  rewrite minerWeight_exact, daemonWeight_exact by done.
  unfold userNodeWeight, totalNodeWeight. destruct (Z.ltb_spec 7000 (6460 - h / adjustWeightPeriod * 80)); [lia|].
  rewrite !share_exact by lia.
  set (r := blockRewards h) in *. set (p := h / adjustWeightPeriod) in *.
  pose proof (Z.div_mod (r * 100) 7000 ltac:(lia)). pose proof (Z.mod_pos_bound (r * 100) 7000).
  pose proof (Z.div_mod (r * (440 + p * 80)) 7000 ltac:(lia)).
  pose proof (Z.mod_pos_bound (r * (440 + p * 80)) 7000).
  pose proof (Z.div_mod (r * (6460 - p * 80)) 7000 ltac:(lia)).
  pose proof (Z.mod_pos_bound (r * (6460 - p * 80)) 7000). lia.
Qed.

Lemma node_rewards_split_witness :
  0 <= blockRewards 31000000 -
    (userNodesRewards 31000000 + daemonNodesRewards 31000000 + minerNodesRewards 31000000) < 3.
Proof. apply (node_rewards_split 31000000). lia. Defined.

(** The proposer, verifier and packing shares of
    a block add up to the miners' reward, less than three RA of rounding, and the
    two gas shares never exceed the gas fee, provided nine times the fee fits
    uint64. *)
Theorem cast_reward_share_split h gasFee :
  0 <= h -> 0 <= gasFee -> 9 * gasFee < two64 ->
  let s := CalculateCastRewardShare h gasFee in
  0 <= minerNodesRewards h - (ForBlockProposal s + ForBlockVerify s + ForRewardTxPacking s) < 3 /\
  0 <= gasFee - (FeeForProposer s + FeeForVerifier s) < 2.
Proof.
  intros Hh Hg Hg9. simpl. unfold calculateCastorRewards, calculateVerifyRewards, calculatePackedRewards,
    calculateGasFeeCastorRewards, calculateGasFeeVerifyRewards, castorRewardsWeight, verifyRewardsWeight,
    packedRewardsWeight, gasFeeCastorRewardsWeight, gasFeeVerifyRewardsWeight, totalRewardsWeight,
    gasFeeTotalRewardsWeight.
  pose proof (minerNodesRewards_range h Hh) as Hr. set (r := minerNodesRewards h) in *.
  rewrite !wrap64_id by (unfold u64_ok, two64, initialRewards in *; lia).
  assert (forall x, x / 10 * 10 <= x < x / 10 * 10 + 10) as Hd.
  { intros x. pose proof (Z.div_mod x 10). pose proof (Z.mod_pos_bound x 10). lia. }
  pose proof (Hd (r * 8)). pose proof (Hd (r * 1)). pose proof (Hd (gasFee * 9)).
  pose proof (Hd (gasFee * 1)). lia.
Qed.

Lemma cast_reward_share_split_witness :
  let s := CalculateCastRewardShare 5 1000003 in
  0 <= minerNodesRewards 5 - (ForBlockProposal s + ForBlockVerify s + ForRewardTxPacking s) < 3 /\
  0 <= 1000003 - (FeeForProposer s + FeeForVerifier s) < 2.
Proof. apply (cast_reward_share_split 5 1000003); unfold two64; lia. Defined.

(** C25: parsing the transaction that [GenerateReward]
    builds for members of a known group gives back the group seed, the members'
    ids in order, the block hash and the pack fee; the amounts it pays do not
    exceed the total. *)
Theorem reward_tx_roundtrip `{RewardEnv} ids blockHash gSeed total packFee rw tx members ms :
  GenerateReward ids blockHash gSeed total packFee = Some (rw, tx) ->
  GetGroupBySeed gSeed = Some members -> Z.of_nat (length members) < 65536 ->
  Forall (fun i => 0 <= i) ids -> mapM (fun i => members !! Z.to_nat i) ids = Some ms ->
  u64_ok packFee -> 0 <= total ->
  ParseRewardTransaction tx = Ok (mkParsedReward gSeed ms blockHash packFee) /\
  default 0 (tx_Value tx) * Z.of_nat (length ids) <= total.
Proof.
  intros Hgen Hg Hn Hnn Hms Hpf Ht. destruct ids as [|i0 ids0]; [done|].
  set (ids := i0 :: ids0) in *. simpl in Hgen. injection Hgen as _ <-. split.
  - unfold ParseRewardTransaction. cbn [tx_ExtraData NewTransaction with_Hash]. unfold rewardExtra.
    rewrite decide_False by (intros E; by apply E).
    rewrite readInto_exact; [|by rewrite b32_length, length_replicate|
      by intros E; pose proof (b32_length gSeed) as El; rewrite E in El].
    rewrite readInto_exact; [|by rewrite length_replicate; apply BigEndian.put_length|
      apply Uint64ToByte_not_nil].
    rewrite readIdxs_written; [|by eapply mapM_index_range|done|].
    + rewrite BytesToHash_b32, Hg. rewrite (targetsOf_lookup _ _ ms) by done.
      unfold ByteToUint64. rewrite decide_True by (unfold Uint64ToByte; rewrite BigEndian.put_length; lia).
      unfold parseRewardBlockHash. cbn [tx_Data NewTransaction with_Hash]. rewrite BytesToHash_b32. do 2 f_equal.
      by apply read_Uint64ToByte.
    + rewrite length_concat_idx. lia.
  - cbn [tx_Value NewTransaction with_Hash default]. rewrite Z.mul_comm. apply Z.mul_div_le. simpl. lia.
Qed.

(** A group of three members, for the examples. *)
Definition sampleGroup : RewardEnv := {| GetGroupBySeed := fun s =>
  if decide (s = BigToAddress 9) then Some [[Byte.x0a]; [Byte.x0b]; [Byte.x0c]] else None |}.

Lemma reward_tx_roundtrip_witness :
  exists rw tx, GenerateReward [2; 0] (BigToAddress 7) (BigToAddress 9) 100 3 = Some (rw, tx) /\
    @ParseRewardTransaction sampleGroup tx =
      Ok (mkParsedReward (BigToAddress 9) [[Byte.x0c]; [Byte.x0a]] (BigToAddress 7) 3).
Proof.
  eexists _, _. split; [reflexivity|].
  refine (proj1 (@reward_tx_roundtrip sampleGroup [2; 0] (BigToAddress 7) (BigToAddress 9) 100 3 _ _
    [[Byte.x0a]; [Byte.x0b]; [Byte.x0c]] _ eq_refl _ _ _ _ _ _)).
  - vm_compute. reflexivity.
  - done.
  - repeat constructor; lia.
  - reflexivity.
  - done.
  - done.
Defined.
