(* ===== verification/RewardVerify.v ===== *)
(** * RewardVerify: the check of a reward transaction

    [Processor.VerifyRewardTransaction] of
    [src/consensus/logical/processor_misc.go], which a reward transaction passes
    before it enters the pool, and [rewardValidate]'s use of it: the amounts are
    those [Rewards.v] computes for the rewarded block, the targets are different
    members of the block's group, and the group signed it. *)
From S2P Require Import Prelude Bytes World Sha256 Types TxHash MinerBase Rewards.
Local Open Scope Z_scope.
Local Open Scope zv_scope.

(** The chain index, the group reader and the group signature scheme. *)
Class GroupSigEnv := {
  QueryBlockHeaderByHash : Hash -> option BlockHeader;
  (** [group.memberSize()], [None] for an unknown seed *)
  memberSize : Hash -> option nat;
  (** [groupsig.DeserializeID(id).IsValid()] *)
  idValid : bytes -> bool;
  (** [group.getMemberIndex], negative for a stranger *)
  getMemberIndex : Hash -> bytes -> Z;
  (** [groupsig.VerifySig] under the group's public key *)
  verifyGroupSig : Hash -> bytes -> bytes -> bool;
}.

Definition SignatureLength : nat := 33.

Definition TotalForVerifier (crs : CastRewardShare) : Z := (ForBlockVerify crs + FeeForVerifier crs)%u64.

Definition rerr {A} (msg : string) : outcome opError A := Err (errOf msg RSFail).
Definition rguard (b : bool) (msg : string) : outcome opError unit := oguard b (errOf msg RSFail).

Section verify.
Context `{RewardEnv} `{GroupSigEnv}.

(** The marks of the members already seen. *)
Fixpoint checkTargets (gSeed : Hash) (marks : list bool) (targetIds : list bytes) : outcome opError unit :=
  match targetIds with
  | [] => Ok tt
  | id :: ids =>
      rguard (idValid id) "invalid group member" ;;!
      let idx := getMemberIndex gSeed id in
      rguard (negb (idx <? 0)) "member id not exist" ;;!
      match marks !! Z.to_nat idx with
      | None => Panic "index out of range"
      | Some true => rerr "duplicated target id"
      | Some false => checkTargets gSeed (<[Z.to_nat idx := true]> marks) ids
      end
  end.

Definition VerifyRewardTransaction (tx : Transaction) : outcome opError unit :=
  let signBytes := default [] (tx_Sign tx) in
  rguard (SignatureLength <=? length signBytes)%nat "not enough bytes for reward signature" ;;!
  pr <-! ParseRewardTransaction tx ;;
  match QueryBlockHeaderByHash (pr_blockHash pr) with
  | None => rerr "chain does not have this block"
  | Some bh =>
      rguard (bool_decide (pr_gSeed pr = bh_Group bh)) "group seed not equal to the block verifier" ;;!
      let rewardShare := CalculateCastRewardShare (bh_Height bh) (bh_GasFee bh) in
      rguard (ForRewardTxPacking rewardShare =? pr_packFee pr) "pack fee error" ;;!
      let verifyRewards := TotalForVerifier rewardShare in
      (if (length (pr_targets pr) =? 0)%nat then Panic "integer divide by zero" else Ok tt) ;;!
      match tx_Value tx with
      | None => Panic "nil pointer dereference"
      | Some v =>
          rguard (verifyRewards / Z.of_nat (length (pr_targets pr)) =? wrap64 v) "invalid verify reward" ;;!
          match memberSize (pr_gSeed pr) with
          | None => rerr "group is nil"
          | Some n =>
              checkTargets (pr_gSeed pr) (replicate n false) (pr_targets pr) ;;!
              rguard (verifyGroupSig (pr_gSeed pr) (b32_bytes (tx_Hash tx)) (take SignatureLength signBytes))
                "verify reward sign fail"
          end
      end
  end.
End verify.

(** ** Lemmas *)

Section lemmas.
Context `{RewardEnv} `{GroupSigEnv}.

Lemma checkTargets_distinct g marks ids :
  checkTargets g marks ids = Ok tt ->
  NoDup (map (getMemberIndex g) ids) /\
  forall i, i ∈ map (getMemberIndex g) ids -> 0 <= i /\ marks !! Z.to_nat i = Some false.
Proof.
  revert marks. induction ids as [|id ids IH]; cbn [checkTargets map]; intros marks Hc.
  - split; [constructor|]. intros i Hi. by apply not_elem_of_nil in Hi.
  - apply obind_Ok_inv in Hc as ([] & _ & Hc). apply obind_Ok_inv in Hc as ([] & Hge & Hc).
    apply oguard_Ok_inv in Hge. destruct (marks !! _) as [[]|] eqn:Em; [done| |done].
    apply IH in Hc as [Hnd Hall]. set (i := getMemberIndex g id) in *.
    assert (i ∉ map (getMemberIndex g) ids) as Hni.
    { intros Hin. apply Hall in Hin as [_ Hin]. rewrite list_lookup_insert_eq in Hin; [done|].
      by eapply lookup_lt_Some. }
    split; [by constructor|]. intros j [->|Hj]%elem_of_cons; [split; [lia|done]|].
    destruct (Hall j Hj) as [Hj0 Hm]. split; [done|].
    rewrite list_lookup_insert_ne in Hm; [done|]. intros E. apply Hni.
    by replace i with j by lia.
Qed.
End lemmas.

(** ** Properties *)

(** A reward transaction that passes verification
    names at least one target, all different members of the block's group, and
    pays them together no more than the verifiers' share of the block's rewards
    and gas fee, and the packer exactly the packing share. *)
Theorem reward_verified_bounded `{RewardEnv} `{GroupSigEnv} tx :
  VerifyRewardTransaction tx = Ok tt -> u64_ok (default 0 (tx_Value tx)) ->
  exists pr bh, ParseRewardTransaction tx = Ok pr /\ QueryBlockHeaderByHash (pr_blockHash pr) = Some bh /\
    let share := CalculateCastRewardShare (bh_Height bh) (bh_GasFee bh) in
    pr_targets pr <> [] /\ NoDup (map (getMemberIndex (pr_gSeed pr)) (pr_targets pr)) /\
    default 0 (tx_Value tx) * Z.of_nat (length (pr_targets pr)) <= TotalForVerifier share /\
    pr_packFee pr = ForRewardTxPacking share.
Proof.
  unfold VerifyRewardTransaction. intros Hv Hval.
  apply obind_Ok_inv in Hv as ([] & _ & Hv). apply obind_Ok_inv in Hv as (pr & Hp & Hv).
  destruct (QueryBlockHeaderByHash (pr_blockHash pr)) as [bh|] eqn:Hbh; [|done].
  apply obind_Ok_inv in Hv as ([] & _ & Hv). apply obind_Ok_inv in Hv as ([] & Hpf%oguard_Ok_inv & Hv).
  apply obind_Ok_inv in Hv as ([] & Hlen & Hv).
  destruct (tx_Value tx) as [v|]; [|done]. apply obind_Ok_inv in Hv as ([] & Hdiv%oguard_Ok_inv & Hv).
  destruct (memberSize _) as [n|]; [|done]. apply obind_Ok_inv in Hv as ([] & Hct & _).
  apply checkTargets_distinct in Hct as [Hnd _].
  destruct (Nat.eqb_spec (length (pr_targets pr)) 0) as [|Hn0]; [done|].
  exists pr, bh. split_and!; try done.
  - by intros E; rewrite E in Hn0.
  - simpl. apply Z.eqb_eq in Hdiv. simpl in Hval. rewrite wrap64_id in Hdiv by done. rewrite <- Hdiv, Z.mul_comm.
    apply Z.mul_div_le. lia.
  - apply Z.eqb_eq in Hpf. done.
Qed.

(** ** Examples *)

Definition sampleShare : CastRewardShare := CalculateCastRewardShare 5 1000.
Definition sampleHeader : BlockHeader := mkBlockHeader (BigToAddress 7) 5 zeroB32 0 [] 0 0 [] (BigToAddress 9) []
  0 zeroB32 zeroB32 zeroB32 [] [] 1000.
(** A group of three whose member [0x0a + i] has index [i]. *)
Definition sampleSigs : GroupSigEnv := {|
  QueryBlockHeaderByHash h := if decide (h = BigToAddress 7) then Some sampleHeader else None;
  memberSize s := if decide (s = BigToAddress 9) then Some 3%nat else None;
  idValid id := negb (BigEndian.read id =? 0);
  getMemberIndex _ id := BigEndian.read id - 10;
  verifyGroupSig _ _ _ := true |}.
Definition rewardTx (ids : list Z) : Transaction := {|
  tx_Data := b32_bytes (BigToAddress 7);
  tx_Value := Some (TotalForVerifier sampleShare / Z.of_nat (length ids));
  tx_Nonce := 0; tx_Target := None; tx_Type := TransactionTypeReward;
  tx_GasLimit := Some 0; tx_GasPrice := Some 0;
  tx_ExtraData := rewardExtra ids (BigToAddress 9) (ForRewardTxPacking sampleShare);
  tx_Sign := Some (replicate 33 Byte.x05); tx_Source := None; tx_Hash := zeroB32 |}.

(** A reward transaction with no target
    index parses, and its verification divides by the number of targets: it
    ends in a panic, not in an error. *)
Theorem reward_without_targets_panics `{RewardEnv} `{GroupSigEnv} tx pr bh :
  (SignatureLength <= length (default [] (tx_Sign tx)))%nat ->
  ParseRewardTransaction tx = Ok pr -> pr_targets pr = [] ->
  QueryBlockHeaderByHash (pr_blockHash pr) = Some bh -> pr_gSeed pr = bh_Group bh ->
  pr_packFee pr = ForRewardTxPacking (CalculateCastRewardShare (bh_Height bh) (bh_GasFee bh)) ->
  VerifyRewardTransaction tx = Panic "integer divide by zero".
Proof.
  intros Hs Hp Ht Hb Hg Hf. unfold VerifyRewardTransaction, rguard.
  rewrite (proj2 (Nat.leb_le _ _) Hs). cbn [obind oguard]. rewrite Hp. cbn [obind]. rewrite Hb.
  rewrite (bool_decide_eq_true_2 _ Hg). cbn [obind oguard]. rewrite Hf, Z.eqb_refl. cbn [obind oguard].
  by rewrite Ht.
Qed.

Lemma reward_without_targets_panics_witness :
  @VerifyRewardTransaction sampleGroup sampleSigs (rewardTx []) = Panic "integer divide by zero".
Proof.
  eapply (@reward_without_targets_panics sampleGroup sampleSigs (rewardTx [])
    (mkParsedReward (BigToAddress 9) [] (BigToAddress 7) (ForRewardTxPacking sampleShare)) sampleHeader);
    vm_compute; try reflexivity; lia.
Defined.

Lemma reward_verified_bounded_witness :
  @VerifyRewardTransaction sampleGroup sampleSigs (rewardTx [2; 0]) = Ok tt /\
  exists pr, @ParseRewardTransaction sampleGroup (rewardTx [2; 0]) = Ok pr /\ pr_targets pr <> [].
Proof.
  assert (@VerifyRewardTransaction sampleGroup sampleSigs (rewardTx [2; 0]) = Ok tt) as Hv
    by (vm_compute; reflexivity).
  split; [exact Hv|].
  destruct (@reward_verified_bounded sampleGroup sampleSigs (rewardTx [2; 0]) Hv) as (pr & bh & Hp & _ & Hne & _).
  - vm_compute. split; [discriminate|reflexivity].
  - exists pr. split; [exact Hp|exact Hne].
Defined.
