(* ===== verification/Checkpoint.v ===== *)
(** * Checkpoint: epochs and checkpoints

    [src/middleware/types/epoch.go] and [src/core/checkpoint.go]: the epochs of the
    chain, the votes the groups cast by verifying blocks, and the two ways a
    checkpoint is computed, from the votes kept in the account database and from
    the block headers. *)
From S2P Require Import Prelude Bytes World Types Group.
Local Open Scope Z_scope.
Local Open Scope zv_scope.

(** ** Epochs *)

Definition EpochLength : Z := 240.
Definition GroupLiveEpochs : Z := 25.
Definition GroupActivateEpochGap : Z := 1.

(** An [epoch], or a [genesisEpoch], held in the interface by value or as a
    pointer. *)
Inductive Epoch :=
| epoch (e : Z)
| genesisEpoch (pointer : bool).

Definition EpochAt (h : Z) : Epoch := epoch (h / EpochLength).

Definition Start (e : Epoch) : Z :=
  match e with epoch e => (e * EpochLength)%u64 | genesisEpoch _ => 0 end.
Definition End_ (e : Epoch) : Z :=
  match e with epoch _ => (Start e + EpochLength)%u64 | genesisEpoch _ => 0 end.
Definition Equal (e e2 : Epoch) : bool :=
  match e with
  | epoch _ => End_ e =? End_ e2
  | genesisEpoch _ => match e2 with genesisEpoch p => p | epoch _ => false end
  end.
Definition Prev (e : Epoch) : Epoch :=
  match e with
  | epoch _ => if Start e <? 1 then genesisEpoch false else EpochAt (Start e - 1)%u64
  | genesisEpoch _ => genesisEpoch false
  end.
Definition Next (e : Epoch) : Epoch :=
  match e with epoch _ => EpochAt (End_ e + 1)%u64 | genesisEpoch _ => EpochAt 1 end.
Definition Add (e : Epoch) (delta : Z) : Epoch :=
  match e with
  | epoch _ =>
      if 0 <=? delta then EpochAt (Start e + wrap64 (delta * EpochLength))%u64
      else if wrap64 (- delta * EpochLength) <=? Start e then EpochAt (Start e - wrap64 (- delta * EpochLength))%u64
      else genesisEpoch true
  | genesisEpoch _ =>
      if delta <=? 0 then genesisEpoch false
      else if delta =? 1 then EpochAt 0
      else EpochAt (Start e + wrap64 (delta * EpochLength))%u64
  end.

Definition CreateEpochsOfActivatedGroupsAt (h : Z) : Epoch * Epoch :=
  let ep := EpochAt h in
  let end_ := Add ep (- GroupActivateEpochGap) in
  (Add end_ (- GroupLiveEpochs), end_).
Definition ActivateEpochOfGroupsCreatedAt (h : Z) : Epoch := Add (EpochAt h) (GroupActivateEpochGap + 1).
Definition DismissEpochOfGroupsCreatedAt (h : Z) : Epoch :=
  Add (ActivateEpochOfGroupsCreatedAt h) GroupLiveEpochs.

(** ** The threshold, in floating point *)

(** [m / 2^s], to the nearest integer, ties to even. *)
Definition roundShift (m s : Z) : Z :=
  let q := m / 2 ^ s in
  let r := m mod 2 ^ s in
  if 2 * r <? 2 ^ s then q
  else if 2 ^ s <? 2 * r then q + 1
  else if Z.even q then q else q + 1.

(** [groupThreshold] as a [float64]: 0.7 is [groupThresholdMantissa / 2^53]. *)
Definition groupThresholdMantissa : Z := 6305039478318694.

(** [int(math.Ceil(float64(groupNum) * groupThreshold))]: the product has 53
    significant bits. *)
Definition cpGroupThreshold (groupNum : Z) : Z :=
  let m := groupNum * groupThresholdMantissa in
  let s := Z.max 0 (Z.log2 m - 52) in
  - ((- (roundShift m s * 2 ^ s)) / 2 ^ 53).

(** ** The votes of an epoch *)

Definition groupNumMin : nat := 10.
Definition cpMaxScanEpochs : nat := 10.
Definition cpBlockBuffer : Z := 20.

Definition cpAddress : Address := BytesToAddress (str "cp_votes").
Definition cpVoteKey : bytes := str "votes".
Definition cpEpochKey : bytes := str "epoch".

(** [activatedGroupReader], which the group manager implements. *)
Class activatedGroupReader := { reader_ActivatedGroupsAt : Z -> list group }.

(** The error of [AccountDBAt]: the state has been pruned, or another one. *)
Inductive dbError := MissingNodeError | OtherDBError.
Class blockQuerier := {
  q_Height : Z;
  q_AccountDBAt : Z -> World + dbError;
  q_QueryBlockHeaderFloor : Z -> option BlockHeader;
  q_BatchGetBlockHeadersBetween : Z -> Z -> list BlockHeader;
}.

Record cpContext := mkCpContext {
  cc_epoch : Epoch;
  cc_groupIndexes : gmap Hash nat;
  cc_threshold : Z;
}.

Definition groupIndexesOf (groups : list group) : gmap Hash nat :=
  foldl (fun m ig => <[gh_SeedD (HeaderD ig.2) := ig.1]> m) ∅ (imap pair groups).

Definition newCpContext (ep : Epoch) (groups : list group) : cpContext :=
  mkCpContext ep (groupIndexesOf groups) (cpGroupThreshold (Z.of_nat (size (groupIndexesOf groups)))).
Definition groupSize (ctx : cpContext) : nat := size (cc_groupIndexes ctx).
Definition groupIndex (ctx : cpContext) (g : Hash) : option nat := cc_groupIndexes ctx !! g.
Definition groupsEnough (ctx : cpContext) : bool := (groupNumMin <=? groupSize ctx)%nat.

(** The account database and the context the checker keeps between blocks, nil
    before [init]. *)
Record CpState := mkCp { cs_db : World; cs_ctx : option cpContext }.
Abbreviation CPM := (M CpState Empty_set).

Section checker.
Context `{activatedGroupReader}.

Definition reset (ep : Epoch) : CPM cpContext :=
  let ctx := newCpContext ep (reader_ActivatedGroupsAt (Start ep)) in
  modify (fun s => mkCp (cs_db s) (Some ctx)) ;;;
  ret ctx.

Definition cpInit `{blockQuerier} : CPM unit := reset (EpochAt q_Height) ;;; ret tt.

(** The buffer holds whole entries: [setGroupVotes] is its only writer. *)
Fixpoint decodeVotes {E} (b : bytes) : outcome E (list Z) :=
  match b with
  | [] => Ok []
  | [_] => Panic "slice bounds out of range"
  | x :: y :: b' => votes <-! decodeVotes b' ;; Ok (ByteToUInt16 [x; y] :: votes)
  end.
Definition getGroupVotes {E} (db : World) : outcome E (list Z) :=
  decodeVotes (default [] (GetData db cpAddress cpVoteKey)).
Definition setGroupVotes (votes : list Z) : World -> World :=
  SetData cpAddress cpVoteKey (concat (UInt16ToByte <$> votes)).
Definition setGroupEpoch (ep : Epoch) : World -> World :=
  SetData cpAddress cpEpochKey (Uint64ToByte (Start ep)).
Definition getGroupEpoch {E} (db : World) : outcome E Epoch :=
  h <-! ByteToUint64 (default [] (GetData db cpAddress cpEpochKey)) ;;
  Ok (EpochAt h).

Definition onCpDB (f : World -> World) : CPM unit := modify (fun s => mkCp (f (cs_db s)) (cs_ctx s)).

(** The votes the block's epoch has so far, and the context of the epoch. *)
Definition epochVotes (ep : Epoch) : CPM (list Z * cpContext) :=
  db <- gets cs_db ;;
  dbGroupEpoch <- lift (getGroupEpoch db) ;;
  if Start (Next dbGroupEpoch) <=? Start ep then
    ctx <- reset ep ;;
    onCpDB (setGroupEpoch ep) ;;;
    ret (replicate (groupSize ctx) 0, ctx)
  else if Equal ep dbGroupEpoch then
    votes <- lift (getGroupVotes db) ;;
    c <- gets cs_ctx ;;
    match c with
    | None => panic "nil pointer dereference"
    | Some ctx => if Equal ep (cc_epoch ctx) then ret (votes, ctx) else ctx <- reset ep ;; ret (votes, ctx)
    end
  else panic "group epoch is before block epoch".

Definition updateVotes (bh : BlockHeader) : CPM unit :=
  let ep := EpochAt (bh_Height bh) in
  vc <- epochVotes ep ;;
  let '(votes, ctx) := vc in
  match groupIndex ctx (bh_Group bh) with
  | None => panic "cannot find group"
  | Some gIndex =>
      if negb (length votes =? groupSize ctx)%nat then panic "vote size not equal to group size"
      else if (length votes <=? gIndex)%nat then panic "index out of range"
      else onCpDB (setGroupVotes (<[gIndex := (bh_Height bh - Start ep + 1) mod 65536]> votes))
  end.

(** ** Checkpoints *)

(** [sort.Ints]. *)
Definition sortInts (l : list Z) : list Z := merge_sort Z.le l.

Definition calcCheckpointByDB {E} (db : World) (ep : Epoch) (threshold : Z) : outcome E (option Z) :=
  gEp <-! getGroupEpoch db ;;
  if Equal gEp ep then
    votes <-! getGroupVotes db ;;
    let validVotes := filter (fun v => 0 < v) votes in
    let n := Z.of_nat (length validVotes) in
    if threshold <=? n then
      match sortInts validVotes !! Z.to_nat (n - threshold) with
      | Some v => Ok (Some (wrap64 (v + Start ep - 1)))
      | None => Panic "index out of range"
      end
    else Ok None
  else Ok None.

(** The loop, from the last block back; [votes] the groups met so far. *)
Fixpoint scanVotes (ep : Epoch) (threshold : Z) (votes : gset Hash) (blocks : list BlockHeader) : option Z :=
  match blocks with
  | [] => None
  | bh :: blocks' =>
      if Equal (EpochAt (bh_Height bh)) ep then
        let votes' := {[ bh_Group bh ]} ∪ votes in
        if threshold <=? Z.of_nat (size votes') then Some (bh_Height bh)
        else scanVotes ep threshold votes' blocks'
      else scanVotes ep threshold votes blocks'
  end.
Definition calcCheckpointByBlocks (blocks : list BlockHeader) (ep : Epoch) (threshold : Z) : option Z :=
  scanVotes ep threshold ∅ (reverse blocks).

(** The loop of [checkPointOf], over the blocks in reverse. *)
Fixpoint scanEpochs (ctx : cpContext) (votes : gset Hash) (blocks : list BlockHeader) : option BlockHeader :=
  match blocks with
  | [] => None
  | bh :: blocks' =>
      if Equal (EpochAt (bh_Height bh)) (cc_epoch ctx) then
        if negb (groupsEnough ctx) then scanEpochs ctx votes blocks'
        else
          let votes' := {[ bh_Group bh ]} ∪ votes in
          if cc_threshold ctx <=? Z.of_nat (size votes') then Some bh
          else scanEpochs ctx votes' blocks'
      else
        let ep := EpochAt (bh_Height bh) in
        scanEpochs (newCpContext ep (reader_ActivatedGroupsAt (Start ep))) {[ bh_Group bh ]} blocks'
  end.

(** The blocks above a height, dropped from a list in reverse; the whole list when
    no block is left. *)
Fixpoint dropAbove (h : Z) (blocks : list BlockHeader) : list BlockHeader :=
  match blocks with
  | [] => []
  | bh :: blocks' => if bh_Height bh <=? h then blocks else dropAbove h blocks'
  end.

Definition checkPointOf (chainSlice : list BlockHeader) : option BlockHeader :=
  match reverse chainSlice with
  | [] => None
  | top :: _ =>
      if bh_Height top <=? cpBlockBuffer then None
      else
        let blocks := match dropAbove (bh_Height top - cpBlockBuffer) (reverse chainSlice) with
                      | [] => reverse chainSlice
                      | l => l
                      end in
        match blocks with
        | [] => None
        | top :: _ =>
            let ep := EpochAt (bh_Height top) in
            scanEpochs (newCpContext ep (reader_ActivatedGroupsAt (Start ep))) ∅ blocks
        end
  end.

Section query.
Context `{blockQuerier}.

(** The checkpoint of one epoch, from the votes in the state at [h] or, when that
    state has been pruned, from the headers.  [Err tt] is an error other than a
    missing node; the boolean is [calcByAccountDB] after the call. *)
Definition checkpointOfEpoch (ctx : cpContext) (h : Z) (byDB : bool) : outcome unit (bool * option Z) :=
  let byBlocks :=
    calcCheckpointByBlocks (q_BatchGetBlockHeadersBetween (Start (cc_epoch ctx)) (h + 1)%u64) (cc_epoch ctx) (cc_threshold ctx) in
  if byDB then
    match q_AccountDBAt h with
    | inl db => r <-! calcCheckpointByDB db (cc_epoch ctx) (cc_threshold ctx) ;; Ok (true, r)
    | inr MissingNodeError => Ok (false, byBlocks)
    | inr OtherDBError => Err tt
    end
  else Ok (false, byBlocks).

(** The loop over the epochs, newest first. *)
Fixpoint scanCheckpoint (scans : nat) (h : Z) (byDB : bool) : outcome unit Z :=
  match scans with
  | O => Ok 0
  | S scans' =>
      let ep := EpochAt h in
      let ctx := newCpContext ep (reader_ActivatedGroupsAt (Start ep)) in
      r <-! (if groupsEnough ctx then checkpointOfEpoch ctx h byDB else Ok (byDB, None)) ;;
      match r.2 with
      | Some cp => Ok cp
      | None => if Start ep =? 0 then Ok 0 else scanCheckpoint scans' (Start ep - 1)%u64 r.1
      end
  end.

Definition checkpointAt (h : Z) : outcome unit Z :=
  if h <=? cpBlockBuffer then Ok 0
  else
    let h := h - cpBlockBuffer in
    h <-! (if q_Height <? h then Ok q_Height
           else match q_QueryBlockHeaderFloor h with
                | Some bh => Ok (bh_Height bh)
                | None => Panic "nil pointer dereference"
                end) ;;
    match scanCheckpoint cpMaxScanEpochs h true with
    | Err _ => Ok 0
    | r => r
    end.
End query.
End checker.
