(* ===== verification/CheckpointTheorems.v ===== *)
(** * CheckpointTheorems: the checkpoint is the quorum's block

    The votes the account database keeps are, for every group, its last block of
    the epoch; the checkpoint computed from them is the one computed from the
    headers, so a node that has pruned its states finds the same checkpoints as
    one that has not. *)
From S2P Require Import Prelude Bytes World Types Group Rewards Checkpoint.
Local Open Scope Z_scope.
Local Open Scope zv_scope.

(** ** Epochs *)

(** A height below which no epoch computation wraps. *)
Definition heightOk (h : Z) : Prop := 0 <= h < two64 - 2 * EpochLength.
Definition epochNo (h : Z) : Z := h / EpochLength.

Lemma epochNo_bounds h : epochNo h * EpochLength <= h < epochNo h * EpochLength + EpochLength.
Proof. unfold epochNo, EpochLength. pose proof (Z.div_mod h 240 ltac:(lia)). pose proof (Z.mod_pos_bound h 240 ltac:(lia)). lia. Qed.

Lemma epochNo_nonneg h : 0 <= h -> 0 <= epochNo h.
Proof. intros Hh. apply Z.div_pos; [done|reflexivity]. Qed.

Lemma epochNo_unique h n : n * EpochLength <= h < n * EpochLength + EpochLength -> epochNo h = n.
Proof. pose proof (epochNo_bounds h). unfold EpochLength in *. lia. Qed.

Lemma Start_EpochAt h : heightOk h -> Start (EpochAt h) = epochNo h * EpochLength.
Proof.
  intros Hh. pose proof (epochNo_bounds h). unfold heightOk in Hh. pose proof (epochNo_nonneg h ltac:(lia)).
  apply wrap64_id. unfold u64_ok, EpochLength, epochNo in *. lia.
Qed.

Lemma End_EpochAt h : heightOk h -> End_ (EpochAt h) = epochNo h * EpochLength + EpochLength.
Proof.
  intros Hh. pose proof (epochNo_bounds h). pose proof (Start_EpochAt h Hh) as HS. unfold heightOk in Hh.
  pose proof (epochNo_nonneg h ltac:(lia)).
  unfold End_, EpochAt in *. rewrite HS. apply wrap64_id. unfold u64_ok, EpochLength in *. lia.
Qed.

Lemma Equal_EpochAt h h' : heightOk h -> heightOk h' ->
  Equal (EpochAt h) (EpochAt h') = bool_decide (epochNo h = epochNo h').
Proof.
  intros Hh Hh'. change (Equal (EpochAt h) (EpochAt h')) with (End_ (EpochAt h) =? End_ (EpochAt h')).
  rewrite !End_EpochAt by done. unfold EpochLength.
  case_bool_decide; [apply Z.eqb_eq|apply Z.eqb_neq]; lia.
Qed.

Lemma Start_Next_EpochAt h : heightOk h -> Start (Next (EpochAt h)) = (epochNo h + 1) * EpochLength.
Proof.
  intros Hh. pose proof (epochNo_bounds h). pose proof (End_EpochAt h Hh) as HE. unfold heightOk in Hh.
  pose proof (epochNo_nonneg h ltac:(lia)).
  change (Next (EpochAt h)) with (EpochAt (End_ (EpochAt h) + 1)%u64). rewrite HE.
  rewrite wrap64_id by (unfold u64_ok, EpochLength in *; lia).
  unfold EpochAt, Start. fold (epochNo (epochNo h * EpochLength + EpochLength + 1)).
  rewrite (epochNo_unique _ (epochNo h + 1)) by (unfold EpochLength; lia).
  apply wrap64_id. unfold u64_ok, EpochLength in *. lia.
Qed.

(** ** The threshold *)

Lemma roundShift_near m s : 0 <= m -> 0 <= s -> 2 * Z.abs (roundShift m s * 2 ^ s - m) <= 2 ^ s.
Proof.
  intros Hm Hs. unfold roundShift.
  pose proof (Z.pow_pos_nonneg 2 s ltac:(lia) Hs) as Hp.
  pose proof (Z.div_mod m (2 ^ s) ltac:(lia)). pose proof (Z.mod_pos_bound m (2 ^ s) Hp).
  set (q := m / 2 ^ s) in *. set (r := m mod 2 ^ s) in *.
  destruct (Z.ltb_spec (2 * r) (2 ^ s)); [nia|].
  destruct (Z.ltb_spec (2 ^ s) (2 * r)); [nia|].
  destruct (Z.even q); nia.
Qed.

(** Rounding does not pass a representable bound. *)
Lemma roundShift_le m s t : 0 <= s -> m <= t * 2 ^ s -> roundShift m s <= t.
Proof.
  intros Hs Hm. unfold roundShift.
  pose proof (Z.pow_pos_nonneg 2 s ltac:(lia) Hs) as Hp.
  pose proof (Z.div_mod m (2 ^ s) ltac:(lia)). pose proof (Z.mod_pos_bound m (2 ^ s) Hp).
  set (q := m / 2 ^ s) in *. set (r := m mod 2 ^ s) in *.
  assert (q <= t) by nia. assert (r = 0 \/ q < t) by nia.
  destruct (Z.ltb_spec (2 * r) (2 ^ s)); [lia|].
  destruct (Z.ltb_spec (2 ^ s) (2 * r)); [lia|].
  destruct (Z.even q); lia.
Qed.

Lemma threshold_exact n : 0 < n < 2 ^ 32 -> cpGroupThreshold n = (7 * n + 9) / 10.
Proof.
  intros Hn. unfold cpGroupThreshold, groupThresholdMantissa.
  set (m := n * 6305039478318694). set (c := (7 * n + 9) / 10).
  pose proof (Z.div_mod (7 * n + 9) 10 ltac:(lia)) as Hc. pose proof (Z.mod_pos_bound (7 * n + 9) 10 ltac:(lia)).
  fold c in Hc.
  assert (52 <= Z.log2 m) as Hl by (apply Z.log2_le_pow2; lia).
  rewrite Z.max_r by lia. set (s := Z.log2 m - 52).
  pose proof (Z.log2_spec m ltac:(lia)) as [Hlo _].
  assert (Z.log2 m < 85) as Hu by (apply Z.log2_lt_pow2; lia).
  assert (2 ^ Z.log2 m = 2 ^ s * 2 ^ 52) as Hs by (rewrite <- Z.pow_add_r by lia; f_equal; lia).
  assert (c * 2 ^ 53 = c * 2 ^ (53 - s) * 2 ^ s) as Ht
    by (rewrite <- Z.mul_assoc, <- Z.pow_add_r by lia; do 2 f_equal; lia).
  pose proof (roundShift_near m s ltac:(lia) ltac:(lia)) as Hr.
  pose proof (roundShift_le m s (c * 2 ^ (53 - s)) ltac:(lia) ltac:(lia)) as Hle.
  assert (0 < 2 ^ s) by (apply Z.pow_pos_nonneg; lia).
  assert (roundShift m s * 2 ^ s <= c * 2 ^ 53) by (rewrite Ht; nia).
  set (v := roundShift m s * 2 ^ s) in *.
  symmetry. apply Z.opp_inj. rewrite Z.opp_involutive.
  apply (Z.div_unique_pos _ _ _ (c * 2 ^ 53 - v)); lia.
Qed.

(** ** Counting in a sorted list *)

Lemma sorted_count (l : list Z) i v :
  StronglySorted Z.le l -> l !! i = Some v ->
  (length l - i <= length (filter (fun x => v <= x)%Z l))%nat /\
  (length (filter (fun x => v < x)%Z l) < length l - i)%nat.
Proof.
  intros Hs Hi. rewrite <- (take_drop_middle l i v Hi) in Hs |- *.
  apply lookup_lt_Some in Hi as Hlt. pose proof (length_take_le l i ltac:(lia)) as Hti.
  assert (forall x, x ∈ take i l -> x <= v) as Hlow.
  { intros x Hx. apply (StronglySorted_app_1_elem_of _ _ _ _ _ Hs Hx), list_elem_of_here. }
  apply StronglySorted_app_1_r in Hs as Hr. apply StronglySorted_inv in Hr as [_ Hhi].
  rewrite !filter_app, !length_app, (filter_cons_True _ v), (filter_cons_False (fun x => v < x)) by lia.
  rewrite (filter_none (fun x => v < x) (take i l)) by (intros x Hx; specialize (Hlow x Hx); lia).
  assert (filter (fun x => v <= x) (drop (Datatypes.S i) l) = drop (Datatypes.S i) l) as ->.
  { clear -Hhi. induction Hhi; [done|]. rewrite filter_cons_True by done. by f_equal. }
  pose proof (length_filter (fun x => v < x) (drop (Datatypes.S i) l)).
  simpl. lia.
Qed.

(** ** The checkpoint of an epoch's blocks

    The lowest block such that it and the blocks above it come from a quorum of
    groups. *)

Definition ascending (bs : list BlockHeader) : Prop :=
  StronglySorted (fun b b' => bh_Height b < bh_Height b') bs.
Definition descending (bs : list BlockHeader) : Prop :=
  StronglySorted (fun b b' => bh_Height b' < bh_Height b) bs.

Definition groupsSince (h : Z) (bs : list BlockHeader) : gset Hash :=
  list_to_set (bh_Group <$> filter (fun b => h <= bh_Height b) bs).

Definition isCheckpoint (bs : list BlockHeader) (threshold h : Z) : Prop :=
  (exists b, b ∈ bs /\ bh_Height b = h) /\
  Z.of_nat (size (groupsSince (h + 1) bs)) < threshold <= Z.of_nat (size (groupsSince h bs)).

Lemma elem_of_groupsSince g h bs : g ∈ groupsSince h bs <-> exists b, b ∈ bs /\ h <= bh_Height b /\ bh_Group b = g.
Proof.
  unfold groupsSince. rewrite elem_of_list_to_set, list_elem_of_fmap.
  setoid_rewrite list_elem_of_filter. naive_solver.
Qed.

Lemma groupsSince_mono h h' bs : h <= h' -> groupsSince h' bs ⊆ groupsSince h bs.
Proof. intros Hle g. rewrite !elem_of_groupsSince. intros (b & ? & ? & ?). exists b. split_and!; [done|lia|done]. Qed.

Lemma groupsSince_perm h bs bs' : bs ≡ₚ bs' -> groupsSince h bs = groupsSince h bs'.
Proof. intros Hp. apply set_eq. intros g. rewrite !elem_of_groupsSince. by setoid_rewrite Hp. Qed.

Lemma groupsSince_cons h b bs : h <= bh_Height b -> groupsSince h (b :: bs) = {[ bh_Group b ]} ∪ groupsSince h bs.
Proof. intros Hh. unfold groupsSince. by rewrite filter_cons_True. Qed.

Lemma groupsSince_none h bs : (forall b, b ∈ bs -> bh_Height b < h) -> groupsSince h bs = ∅.
Proof.
  intros Hb. apply set_eq. intros g. rewrite elem_of_groupsSince. split; [|set_solver].
  intros (b & Hin & Hh & _). specialize (Hb b Hin). lia.
Qed.

Lemma isCheckpoint_unique bs t h h' : isCheckpoint bs t h -> isCheckpoint bs t h' -> h = h'.
Proof.
  intros [_ [Hlo Hhi]] [_ [Hlo' Hhi']]. destruct (Z.lt_trichotomy h h') as [Hlt|[?|Hlt]]; [|done|].
  - pose proof (subseteq_size _ _ (groupsSince_mono (h + 1) h' bs ltac:(lia))). lia.
  - pose proof (subseteq_size _ _ (groupsSince_mono (h' + 1) h bs ltac:(lia))). lia.
Qed.

(** The scan from the last block back finds it. *)
Lemma scanVotes_spec ep t votes bs :
  descending bs -> Forall (fun b => Equal (EpochAt (bh_Height b)) ep = true) bs ->
  Z.of_nat (size votes) < t ->
  match scanVotes ep t votes bs with
  | Some h => (exists b, b ∈ bs /\ bh_Height b = h) /\
      Z.of_nat (size (votes ∪ groupsSince (h + 1) bs)) < t <= Z.of_nat (size (votes ∪ groupsSince h bs))
  | None => forall h, Z.of_nat (size (votes ∪ groupsSince h bs)) < t
  end.
Proof.
  intros Hd He. revert votes. induction Hd as [|b bs Hd IH Hlow]; intros votes Ht; cbn [scanVotes].
  { intros h. by rewrite groupsSince_none, union_empty_r_L by set_solver. }
  apply Forall_cons in He as [Hb He]. rewrite Hb. rewrite Forall_forall in Hlow.
  destruct (Z.leb_spec t (Z.of_nat (size ({[ bh_Group b ]} ∪ votes)))) as [Hq|Hq].
  - split; [exists b; split; [apply list_elem_of_here|done]|].
    rewrite groupsSince_none, union_empty_r_L.
    + split; [done|]. rewrite groupsSince_cons by lia.
      etrans; [exact Hq|]. apply inj_le, subseteq_size. set_solver.
    + intros b' Hb'. apply elem_of_cons in Hb' as [->|Hb']; [lia|]. specialize (Hlow b' Hb'). lia.
  - specialize (IH He _ Hq). destruct (scanVotes _ _ _ bs) as [h|].
    + destruct IH as [(b' & Hb' & Hh) Hsz]. specialize (Hlow b' Hb').
      split; [exists b'; split; [by apply list_elem_of_further|done]|].
      rewrite !groupsSince_cons, !(union_assoc_L votes), !(union_comm_L votes) by lia. exact Hsz.
    + intros h. eapply Z.le_lt_trans; [|exact (IH h)]. apply inj_le, subseteq_size.
      intros g. rewrite !elem_of_union, !elem_of_groupsSince, elem_of_singleton.
      setoid_rewrite elem_of_cons. naive_solver.
Qed.

Definition epochBlocks (n : Z) (bs : list BlockHeader) : list BlockHeader :=
  filter (fun b => epochNo (bh_Height b) = n) bs.

Lemma scanVotes_filter h t votes bs :
  heightOk h -> Forall (fun b => heightOk (bh_Height b)) bs ->
  scanVotes (EpochAt h) t votes bs = scanVotes (EpochAt h) t votes (epochBlocks (epochNo h) bs).
Proof.
  intros Hh Hbs. revert votes. induction Hbs as [|b bs Hb Hbs IH]; intros votes; [done|].
  unfold epochBlocks in *. rewrite filter_cons. cbn [scanVotes]. rewrite Equal_EpochAt by done.
  case_bool_decide; case_decide; try done. cbn [scanVotes]. rewrite Equal_EpochAt, bool_decide_eq_true_2 by done.
  destruct (t <=? _); [done|apply IH].
Qed.

Lemma descending_reverse bs : ascending bs -> descending (reverse bs).
Proof.
  induction 1 as [|b bs Hs IH Hall]; [constructor|]. rewrite reverse_cons.
  apply StronglySorted_app_2; [|done|repeat constructor].
  intros x y Hx Hy. apply list_elem_of_singleton in Hy as ->. rewrite Forall_forall in Hall.
  apply Hall. by apply elem_of_reverse.
Qed.

Lemma filter_reverse {A} (P : A -> Prop) `{!forall x, Decision (P x)} (l : list A) :
  filter P (reverse l) = reverse (filter P l).
Proof.
  induction l as [|x l IH]; [done|]. rewrite reverse_cons, filter_app, IH, (filter_cons _ x).
  rewrite filter_cons, filter_nil. case_decide; [by rewrite reverse_cons|by rewrite app_nil_r].
Qed.

Lemma calcCheckpointByBlocks_spec bs h t :
  ascending bs -> Forall (fun b => heightOk (bh_Height b)) bs -> heightOk h -> 0 < t ->
  match calcCheckpointByBlocks bs (EpochAt h) t with
  | Some c => isCheckpoint (epochBlocks (epochNo h) bs) t c
  | None => forall c, Z.of_nat (size (groupsSince c (epochBlocks (epochNo h) bs))) < t
  end.
Proof.
  intros Ha Hb Hh Ht. unfold calcCheckpointByBlocks.
  rewrite scanVotes_filter by (rewrite ?Forall_reverse; done). unfold epochBlocks. rewrite filter_reverse.
  fold (epochBlocks (epochNo h) bs).
  pose proof (reverse_Permutation (epochBlocks (epochNo h) bs)) as Hp.
  assert (Forall (fun b => Equal (EpochAt (bh_Height b)) (EpochAt h) = true) (reverse (epochBlocks (epochNo h) bs))) as He.
  { apply Forall_reverse, Forall_forall. intros b [Hbn Hbi]%list_elem_of_filter. rewrite Forall_forall in Hb.
    rewrite Equal_EpochAt by auto. by apply bool_decide_eq_true_2. }
  pose proof (scanVotes_spec (EpochAt h) t ∅ _ (descending_reverse _ (StronglySorted_filter _ _ _ Ha)) He) as Hs.
  specialize (Hs ltac:(by rewrite size_empty)). unfold epochBlocks in *.
  destruct (scanVotes _ _ _ _) as [c|].
  - rewrite !union_empty_l_L, !(groupsSince_perm _ _ _ Hp) in Hs. destruct Hs as [(b & Hin & Heq) Hsz].
    split; [|done]. exists b. by rewrite Hp in Hin.
  - intros c. rewrite <- (groupsSince_perm _ _ _ Hp), <- (union_empty_l_L (groupsSince _ _)). apply Hs.
Qed.

(** ** The votes in the database *)

Lemma decodeVotes_encode {E} votes :
  Forall (fun v => 0 <= v < 65536) votes ->
  decodeVotes (E:=E) (concat (UInt16ToByte <$> votes)) = Ok votes.
Proof.
  induction 1 as [|v votes Hv Hvs IH]; [done|]. rewrite fmap_cons. cbn [concat].
  pose proof (ByteToUInt16_UInt16ToByte v Hv) as Hd.
  destruct (UInt16ToByte v) as [|x [|y [|z l]]] eqn:Eb;
    try (apply (f_equal length) in Eb; unfold UInt16ToByte in Eb; by rewrite BigEndian.put_length in Eb).
  simpl in IH |- *. by rewrite IH, Hd.
Qed.

(** The last vote of a group: its last block, counted from one. *)
Definition voteOf (start : Z) (bs : list BlockHeader) (g : Hash) : Z :=
  foldl (fun v b => if bool_decide (bh_Group b = g) then bh_Height b - start + 1 else v) 0 bs.

Lemma voteOf_snoc start bs b g :
  voteOf start (bs ++ [b]) g = if bool_decide (bh_Group b = g) then bh_Height b - start + 1 else voteOf start bs g.
Proof. unfold voteOf. by rewrite foldl_app. Qed.

Lemma voteOf_ge start bs g x :
  ascending bs -> 0 < x ->
  x <= voteOf start bs g <-> exists b, b ∈ bs /\ bh_Group b = g /\ x <= bh_Height b - start + 1.
Proof.
  intros Ha Hx. induction bs as [|b bs IH] using rev_ind.
  - unfold voteOf; simpl. split; [lia|]. intros (b & Hb & _). by apply elem_of_nil in Hb.
  - rewrite voteOf_snoc. apply StronglySorted_app in Ha as (Hlt & Ha & _). specialize (IH Ha).
    setoid_rewrite elem_of_app. setoid_rewrite list_elem_of_singleton. case_bool_decide as Hg; split.
    + intros Hv. exists b. auto.
    + intros (b' & [Hb'| ->] & _ & Hv); [|done]. specialize (Hlt b' b Hb' (list_elem_of_here _ _)). lia.
    + intros Hv. apply IH in Hv as (b' & ? & ? & ?). exists b'. auto.
    + intros (b' & [Hb'| ->] & ? & ?); [|done]. apply IH. eauto.
Qed.

Lemma length_filter_fmap {A B} (f : A -> B) (P : B -> Prop) `{!forall x, Decision (P x)} (l : list A) :
  length (filter P (f <$> l)) = length (filter (fun x => P (f x)) l).
Proof. induction l as [|x l IH]; [done|]. rewrite fmap_cons, !filter_cons. case_decide; simpl; by rewrite IH. Qed.

(** How many groups voted at or above a height. *)
Lemma votes_count start bs gs x :
  ascending bs -> NoDup gs -> (forall b, b ∈ bs -> bh_Group b ∈ gs) -> 0 < x ->
  length (filter (fun v => x <= v) (voteOf start bs <$> gs)) = size (groupsSince (start + x - 1) bs).
Proof.
  intros Ha Hnd Hin Hx. rewrite length_filter_fmap.
  rewrite <- (size_list_to_set (C:=gset Hash)) by (by apply NoDup_filter).
  f_equal. apply set_eq. intros g.
  rewrite elem_of_list_to_set, list_elem_of_filter, elem_of_groupsSince.
  rewrite voteOf_ge by done. split.
  - intros [(b & ? & ? & ?) _]. exists b. split_and!; [done|lia|done].
  - intros (b & ? & ? & <-). split; [exists b; split_and!; [done|done|lia]|auto].
Qed.

(** The vote at position [length - threshold] of the sorted votes is the
    checkpoint. *)
Lemma sorted_votes_checkpoint start bs gs t :
  ascending bs -> NoDup gs -> (forall b, b ∈ bs -> bh_Group b ∈ gs) -> 0 < t ->
  let valid := filter (fun v => 0 < v) (voteOf start bs <$> gs) in
  t <= Z.of_nat (length valid) ->
  exists v, sortInts valid !! Z.to_nat (Z.of_nat (length valid) - t) = Some v /\
    isCheckpoint bs t (v + start - 1).
Proof.
  intros Ha Hnd Hin Ht valid Hlen.
  assert (sortInts valid ≡ₚ valid) as Hp by apply merge_sort_Permutation.
  pose proof (Permutation_length Hp) as Hl.
  destruct (lookup_lt_is_Some_2 (sortInts valid) (Z.to_nat (Z.of_nat (length valid) - t))) as [v Hv]; [lia|].
  exists v. split; [done|].
  pose proof (sorted_count _ _ _ (StronglySorted_merge_sort Z.le valid) Hv) as [Hge Hgt]. unfold sortInts in *.
  assert (v ∈ valid) as Hvv by (rewrite <- Hp; by eapply list_elem_of_lookup_2).
  apply list_elem_of_filter in Hvv as [Hpos Hvv].
  rewrite Hp in Hge, Hgt. set (n := length valid) in *. unfold valid in Hge, Hgt.
  rewrite list_filter_filter_l in Hge, Hgt by lia.
  rewrite (list_filter_iff _ (fun x => v + 1 <= x)) in Hgt by lia.
  rewrite votes_count in Hge, Hgt by (done || lia).
  replace (start + v - 1) with (v + start - 1) in Hge by lia.
  replace (start + (v + 1) - 1) with (v + start - 1 + 1) in Hgt by lia.
  split; [|lia].
  apply list_elem_of_fmap in Hvv as (g & -> & _).
  destruct (proj1 (voteOf_ge start bs g (voteOf start bs g) Ha Hpos) ltac:(lia)) as (b & Hb & Hg & Hle).
  exists b. split; [done|].
  assert (bh_Height b - start + 1 <= voteOf start bs g); [|lia].
  apply voteOf_ge; [done|lia|]. exists b. auto with lia.
Qed.

(** ** The context of an epoch *)

Abbreviation seed g := (gh_SeedD (HeaderD g)).

Lemma groupIndexesOf_snoc gs g : groupIndexesOf (gs ++ [g]) = <[seed g := length gs]> (groupIndexesOf gs).
Proof. unfold groupIndexesOf. by rewrite imap_app, foldl_app; simpl; rewrite Nat.add_0_r. Qed.

Lemma lookup_groupIndexesOf gs s i :
  NoDup ((fun g => seed g) <$> gs) -> groupIndexesOf gs !! s = Some i <-> ((fun g => seed g) <$> gs) !! i = Some s.
Proof.
  induction gs as [|g gs IH] using rev_ind; [by rewrite list_lookup_fmap|].
  rewrite fmap_app, list_fmap_singleton. intros (Hnd & Hni & _)%NoDup_app. specialize (IH Hnd). rewrite groupIndexesOf_snoc.
  destruct (decide (seed g = s)) as [<-|Hne].
  - rewrite lookup_insert_eq. split.
    + intros [= <-]. rewrite list_lookup_middle by (by rewrite length_fmap). done.
    + intros Hi. destruct (decide (i < length gs)%nat) as [Hlt|Hge].
      * rewrite lookup_app_l in Hi by (by rewrite length_fmap).
        apply list_elem_of_lookup_2 in Hi. exfalso. apply (Hni _ Hi), list_elem_of_here.
      * apply lookup_lt_Some in Hi as Hlt. rewrite length_app, length_fmap in Hlt. simpl in Hlt. f_equal. lia.
  - rewrite lookup_insert_ne, IH by done. rewrite lookup_app.
    destruct (_ !! i) as [s'|] eqn:E; [done|].
    split; [done|]. intros Hi. apply list_elem_of_lookup_2, list_elem_of_singleton in Hi. congruence.
Qed.

Lemma size_groupIndexesOf gs : NoDup ((fun g => seed g) <$> gs) -> size (groupIndexesOf gs) = length gs.
Proof.
  induction gs as [|g gs IH] using rev_ind; [done|].
  rewrite fmap_app, list_fmap_singleton. intros (Hnd & Hni & _)%NoDup_app. rewrite groupIndexesOf_snoc, map_size_insert_None.
  - rewrite IH, length_app by done. simpl. lia.
  - apply eq_None_not_Some. intros [i Hi]. apply lookup_groupIndexesOf in Hi; [|done].
    apply list_elem_of_lookup_2 in Hi. apply (Hni _ Hi), list_elem_of_here.
Qed.

Lemma insert_vote start bs gs b i :
  NoDup gs -> gs !! i = Some (bh_Group b) ->
  <[i := bh_Height b - start + 1]> (voteOf start bs <$> gs) = voteOf start (bs ++ [b]) <$> gs.
Proof.
  intros Hnd Hi. apply list_eq. intros j. rewrite list_lookup_fmap.
  destruct (decide (j = i)) as [->|Hne].
  - rewrite list_lookup_insert_eq by (rewrite length_fmap; by eapply lookup_lt_Some).
    rewrite Hi. simpl. by rewrite voteOf_snoc, bool_decide_eq_true_2.
  - rewrite list_lookup_insert_ne, list_lookup_fmap by done. destruct (gs !! j) as [g|] eqn:E; [|done]. simpl.
    rewrite voteOf_snoc, bool_decide_eq_false_2; [done|]. intros <-. apply Hne. by eapply NoDup_lookup.
Qed.

(** ** Chains of voting blocks *)

Section votes.
Context `{activatedGroupReader}.

Definition contextAt (h : Z) : cpContext := newCpContext (EpochAt h) (reader_ActivatedGroupsAt (Start (EpochAt h))).
Definition seedsAt (h : Z) : list Hash := (fun g => seed g) <$> reader_ActivatedGroupsAt (Start (EpochAt h)).

(** The two entries the checker keeps. *)
Definition cpData (w : World) : option bytes * option bytes :=
  (GetData w cpAddress cpEpochKey, GetData w cpAddress cpVoteKey).

(** The blocks of a chain, executed one after the other: the state after the last
    one.  The rest of a block's execution changes the accounts but not the
    checker's entries; the context may be that of any epoch, as the checker is
    restarted with the node and also runs on other branches. *)
Inductive voted : list BlockHeader -> World -> Prop :=
| voted_genesis g w :
    bh_Height g = 0 -> length (seedsAt 0) = 1%nat ->
    cpData w = cpData (setGroupEpoch (EpochAt 0) (setGroupVotes [1] emptyWorld)) ->
    voted [g] w
| voted_block bs g w w1 hc bh s' w' :
    voted (bs ++ [g]) w -> cpData w1 = cpData w -> heightOk hc -> heightOk (bh_Height bh) -> bh_Height g < bh_Height bh ->
    updateVotes bh (mkCp w1 (Some (contextAt hc))) = (Ok tt, s') -> cpData w' = cpData (cs_db s') ->
    voted (bs ++ [g; bh]) w'.

(** What the entries hold when [g] is the last of the blocks. *)
Record votesHeld (bs : list BlockHeader) (g : BlockHeader) (w : World) (votes : list Z) : Prop := {
  vh_epoch : GetData w cpAddress cpEpochKey = Some (Uint64ToByte (Start (EpochAt (bh_Height g))));
  vh_votes : GetData w cpAddress cpVoteKey = Some (concat (UInt16ToByte <$> votes));
  vh_range : Forall (fun v => 0 <= v < 65536) votes;
  vh_length : length votes = length (seedsAt (bh_Height g));
  vh_exact : 0 < epochNo (bh_Height g) ->
    votes = voteOf (Start (EpochAt (bh_Height g))) (epochBlocks (epochNo (bh_Height g)) bs) <$> seedsAt (bh_Height g);
  vh_groups : 0 < epochNo (bh_Height g) ->
    forall b, b ∈ epochBlocks (epochNo (bh_Height g)) bs -> bh_Group b ∈ seedsAt (bh_Height g);
}.

Hypothesis seeds_distinct : forall h, NoDup (seedsAt h).

Lemma EpochAt_epochNo h h' : epochNo h = epochNo h' -> EpochAt h = EpochAt h'.
Proof. unfold EpochAt, epochNo. by intros ->. Qed.

Lemma epochNo_mono h h' : h <= h' -> epochNo h <= epochNo h'.
Proof. intros Hle. apply Z.div_le_mono; [reflexivity|done]. Qed.

Lemma getGroupEpoch_held {E} w h :
  heightOk h -> GetData w cpAddress cpEpochKey = Some (Uint64ToByte (Start (EpochAt h))) ->
  getGroupEpoch (E:=E) w = Ok (EpochAt h).
Proof.
  intros Hh Hd. unfold getGroupEpoch. rewrite Hd. cbn [from_option id]. rewrite Start_EpochAt by done.
  pose proof (epochNo_bounds h). pose proof (epochNo_nonneg h ltac:(unfold heightOk in Hh; lia)).
  unfold ByteToUint64, Uint64ToByte. rewrite BigEndian.put_length, decide_True by lia.
  fold (Uint64ToByte (epochNo h * EpochLength)).
  rewrite read_Uint64ToByte by (unfold u64_ok, heightOk, EpochLength in *; lia). simpl. f_equal.
  apply EpochAt_epochNo, epochNo_unique. unfold EpochLength. lia.
Qed.

Lemma groupSize_contextAt h : groupSize (contextAt h) = length (seedsAt h).
Proof. unfold groupSize, contextAt, seedsAt. rewrite length_fmap. apply size_groupIndexesOf, seeds_distinct. Qed.

Lemma groupIndex_contextAt h s i : groupIndex (contextAt h) s = Some i <-> seedsAt h !! i = Some s.
Proof. apply lookup_groupIndexesOf, seeds_distinct. Qed.

(** The votes a block starts from. *)
Definition votesBefore (g : BlockHeader) (h : Z) (votes : list Z) : list Z :=
  if decide (epochNo (bh_Height g) = epochNo h) then votes else replicate (length (seedsAt h)) 0.

Lemma epochVotes_run bs g w votes hc h :
  votesHeld bs g w votes -> heightOk (bh_Height g) -> heightOk hc -> heightOk h -> bh_Height g < h ->
  exists w', epochVotes (EpochAt h) (mkCp w (Some (contextAt hc))) =
      (Ok (votesBefore g h votes, contextAt h), mkCp w' (Some (contextAt h))) /\
    GetData w' cpAddress cpEpochKey = Some (Uint64ToByte (Start (EpochAt h))).
Proof.
  intros Hv Hg Hc Hh Hlt. pose proof (epochNo_mono (bh_Height g) h ltac:(lia)) as Hmono.
  unfold epochVotes, votesBefore. unfold bind at 1 2, gets at 1, lift at 1. cbn [cs_db].
  rewrite (getGroupEpoch_held _ (bh_Height g)) by (done || apply (vh_epoch _ _ _ _ Hv)).
  rewrite Start_Next_EpochAt, Start_EpochAt, Equal_EpochAt by done.
  destruct (Z.leb_spec ((epochNo (bh_Height g) + 1) * EpochLength) (epochNo h * EpochLength)) as [Hle|Hgt].
  - rewrite decide_False by (unfold EpochLength in *; lia).
    eexists. cbv [bind reset modify ret onCpDB]. fold (contextAt h). cbn [cs_db cs_ctx]. rewrite groupSize_contextAt.
    split; [done|]. unfold setGroupEpoch. rewrite GetData_SetData, decide_True, Start_EpochAt by done. done.
  - assert (epochNo (bh_Height g) = epochNo h) as Heq by (unfold EpochLength in *; lia).
    rewrite decide_True, bool_decide_eq_true_2 by done.
    unfold getGroupVotes. rewrite (vh_votes _ _ _ _ Hv). cbn [from_option id]. rewrite decodeVotes_encode by apply (vh_range _ _ _ _ Hv).
    cbv [bind reset modify ret lift gets]. cbn [cs_db cs_ctx contextAt newCpContext cc_epoch].
    rewrite Equal_EpochAt by done. exists w. case_bool_decide as Hcc.
    + unfold contextAt. rewrite (EpochAt_epochNo hc h) by done. split; [done|].
      by rewrite (vh_epoch _ _ _ _ Hv), Start_EpochAt, Heq.
    + split; [done|]. by rewrite (vh_epoch _ _ _ _ Hv), Start_EpochAt, Heq.
Qed.

Lemma seedsAt_epochNo h h' : epochNo h = epochNo h' -> seedsAt h = seedsAt h'.
Proof. intros E. unfold seedsAt. by rewrite (EpochAt_epochNo h h'). Qed.

Lemma epochBlocks_snoc bs b : epochBlocks (epochNo (bh_Height b)) (bs ++ [b]) = epochBlocks (epochNo (bh_Height b)) bs ++ [b].
Proof. unfold epochBlocks. by rewrite filter_app, (filter_cons_True _ b). Qed.

(** The votes before a block are those of the blocks before it. *)
Lemma votesBefore_exact bs g w votes h :
  votesHeld bs g w votes -> (forall b, b ∈ bs -> bh_Height b <= bh_Height g) -> bh_Height g < h -> 0 < epochNo h ->
  votesBefore g h votes = voteOf (Start (EpochAt h)) (epochBlocks (epochNo h) bs) <$> seedsAt h /\
  forall b, b ∈ epochBlocks (epochNo h) bs -> bh_Group b ∈ seedsAt h.
Proof.
  intros Hv Hb Hlt Hn. unfold votesBefore. destruct (decide _) as [Heq|Hne].
  - rewrite <- Heq in Hn |- *. rewrite <- (EpochAt_epochNo _ _ Heq), <- (seedsAt_epochNo _ _ Heq).
    split; [by apply (vh_exact _ _ _ _ Hv)|by apply (vh_groups _ _ _ _ Hv)].
  - assert (epochBlocks (epochNo h) bs = []) as ->.
    { apply filter_none. intros b Hin Hbn. pose proof (epochNo_mono _ _ (Hb b Hin)).
      pose proof (epochNo_mono (bh_Height g) h ltac:(lia)). lia. }
    split; [|by intros b Hb0%elem_of_nil].
    unfold voteOf. simpl. by rewrite <- const_fmap with (l := seedsAt h) (f := fun _ => 0).
Qed.

Lemma votesBefore_ok bs g w votes h :
  votesHeld bs g w votes ->
  length (votesBefore g h votes) = length (seedsAt h) /\ Forall (fun v => 0 <= v < 65536) (votesBefore g h votes).
Proof.
  intros Hv. unfold votesBefore. destruct (decide _) as [Heq|Hne].
  - rewrite (vh_length _ _ _ _ Hv), (seedsAt_epochNo _ _ Heq). split; [done|apply (vh_range _ _ _ _ Hv)].
  - rewrite length_replicate. split; [done|]. apply Forall_replicate. lia.
Qed.

Lemma voteOffset h : heightOk h -> (h - Start (EpochAt h) + 1) mod 65536 = h - Start (EpochAt h) + 1.
Proof.
  intros Hh. rewrite Start_EpochAt by done. pose proof (epochNo_bounds h). unfold EpochLength in *.
  apply Z.mod_small. lia.
Qed.

Lemma updateVotes_held bs g w votes hc bh :
  votesHeld bs g w votes -> (forall b, b ∈ bs -> bh_Height b <= bh_Height g) ->
  heightOk (bh_Height g) -> heightOk hc -> heightOk (bh_Height bh) -> bh_Height g < bh_Height bh ->
  match updateVotes bh (mkCp w (Some (contextAt hc))) with
  | (Ok _, s') => exists votes', votesHeld (bs ++ [bh]) bh (cs_db s') votes'
  | (Err _, _) => False
  | (Panic _, _) => bh_Group bh ∉ seedsAt (bh_Height bh)
  end.
Proof.
  intros Hv Hb Hg Hc Hh Hlt. unfold updateVotes, bind at 1.
  destruct (epochVotes_run bs g w votes hc (bh_Height bh) Hv Hg Hc Hh Hlt) as (w' & -> & Hep).
  destruct (votesBefore_ok bs g w votes (bh_Height bh) Hv) as [Hlen Hrange].
  destruct (groupIndex (contextAt (bh_Height bh)) (bh_Group bh)) as [i|] eqn:Ei.
  2:{ simpl. intros [i Hi]%list_elem_of_lookup. apply groupIndex_contextAt in Hi. congruence. }
  apply groupIndex_contextAt in Ei. apply lookup_lt_Some in Ei as Hi.
  rewrite groupSize_contextAt, Hlen, Nat.eqb_refl. cbn [negb].
  destruct (Nat.leb_spec (length (seedsAt (bh_Height bh))) i); [lia|].
  unfold onCpDB, modify. cbn [cs_db]. rewrite voteOffset by done. eexists. split.
  - unfold setGroupVotes. by rewrite GetData_SetData, decide_False by naive_solver.
  - unfold setGroupVotes. by rewrite GetData_SetData, decide_True.
  - apply Forall_insert; [done|]. rewrite <- (voteOffset (bh_Height bh)) by done. by apply Z.mod_pos_bound.
  - by rewrite length_insert.
  - intros Hn. destruct (votesBefore_exact bs g w votes _ Hv Hb Hlt Hn) as [-> _].
    rewrite epochBlocks_snoc. by apply insert_vote.
  - intros Hn. destruct (votesBefore_exact bs g w votes _ Hv Hb Hlt Hn) as [_ Hgs].
    rewrite epochBlocks_snoc. intros b [Hin|Hin]%elem_of_app; [auto|].
    apply list_elem_of_singleton in Hin as ->. by eapply list_elem_of_lookup_2.
Qed.

Lemma votesHeld_cpData bs g w w' votes : cpData w' = cpData w -> votesHeld bs g w votes -> votesHeld bs g w' votes.
Proof. intros [= He Hd] []. split; first [congruence|done]. Qed.

(** Every block of the chain has left the votes of its epoch, exactly. *)
Lemma voted_held bs w :
  voted bs w -> exists bs' g votes, bs = bs' ++ [g] /\ votesHeld bs g w votes /\ ascending bs /\
    Forall (fun b => heightOk (bh_Height b)) bs.
Proof.
  induction 1 as [g w Hg Hs Hd|bs g w w1 hc bh s' w' _ IH Hw1 Hc Hh Hlt Hrun Hw'].
  - assert (heightOk (bh_Height g)) by (rewrite Hg; done). exists [], g, [1]. split_and!; [done| |repeat constructor|by constructor].
    eapply votesHeld_cpData; [exact Hd|]. split; rewrite ?Hg, ?Hs; first [done|by constructor].
  - destruct IH as (bs' & g' & votes & [<- [= <-]]%app_inj_tail & Hv & Ha & Hok).
    apply StronglySorted_app in Ha as Ha'. destruct Ha' as (Hlast & Ha1 & _).
    assert (forall b, b ∈ bs ++ [g] -> bh_Height b <= bh_Height g) as Hmax.
    { intros b [Hb|Hb]%elem_of_app; [|apply list_elem_of_singleton in Hb as ->; lia].
      specialize (Hlast b g Hb (list_elem_of_here _ _)). lia. }
    assert (heightOk (bh_Height g)) as Hg by (rewrite Forall_forall in Hok; apply Hok; set_solver).
    pose proof (updateVotes_held _ g w1 votes hc bh (votesHeld_cpData _ _ _ _ _ Hw1 Hv) Hmax Hg Hc Hh Hlt) as Hu.
    rewrite Hrun in Hu. destruct Hu as [votes' Hu].
    replace (bs ++ [g; bh]) with ((bs ++ [g]) ++ [bh]) by (by rewrite <- app_assoc).
    exists (bs ++ [g]), bh, votes'. split_and!; [done|by eapply votesHeld_cpData| |].
    + apply StronglySorted_app_2; [|done|repeat constructor].
      intros x y Hx Hy. apply list_elem_of_singleton in Hy as ->. specialize (Hmax x Hx). lia.
    + apply Forall_app. split; [done|by constructor].
Qed.

Lemma calcCheckpointByBlocks_epoch bs bs' h t :
  heightOk h -> Forall (fun b => heightOk (bh_Height b)) bs -> Forall (fun b => heightOk (bh_Height b)) bs' ->
  epochBlocks (epochNo h) bs = epochBlocks (epochNo h) bs' ->
  calcCheckpointByBlocks bs (EpochAt h) t = calcCheckpointByBlocks bs' (EpochAt h) t.
Proof.
  intros Hh Hb Hb' He. unfold calcCheckpointByBlocks.
  rewrite (scanVotes_filter h _ _ (reverse bs)), (scanVotes_filter h _ _ (reverse bs')) by (rewrite ?Forall_reverse; done).
  unfold epochBlocks in *. by rewrite !filter_reverse, He.
Qed.

(** The choice among the valid votes is the choice among the blocks. *)
Lemma valid_votes_checkpoint bs h t :
  ascending bs -> Forall (fun b => heightOk (bh_Height b)) bs -> heightOk h -> 0 < t ->
  (forall b, b ∈ epochBlocks (epochNo h) bs -> bh_Group b ∈ seedsAt h) ->
  let valid := filter (fun v => 0 < v) (voteOf (Start (EpochAt h)) (epochBlocks (epochNo h) bs) <$> seedsAt h) in
  match calcCheckpointByBlocks bs (EpochAt h) t with
  | Some c => t <= Z.of_nat (length valid) /\ exists v,
      sortInts valid !! Z.to_nat (Z.of_nat (length valid) - t) = Some v /\ wrap64 (v + Start (EpochAt h) - 1) = c
  | None => Z.of_nat (length valid) < t
  end.
Proof.
  intros Ha Hok Hh Ht Hgs valid. set (ebs := epochBlocks (epochNo h) bs) in *. set (start := Start (EpochAt h)) in *.
  assert (ascending ebs) as Hea by by apply StronglySorted_filter.
  assert (length valid = size (groupsSince start ebs)) as Hlen.
  { unfold valid. rewrite (list_filter_iff _ (fun v => 1 <= v)) by lia.
    rewrite votes_count by (done || apply seeds_distinct). do 2 f_equal. lia. }
  pose proof (calcCheckpointByBlocks_spec bs h t Ha Hok Hh Ht) as Hs. fold ebs in Hs.
  destruct (calcCheckpointByBlocks _ _ _) as [c|]; [|rewrite Hlen; apply Hs].
  destruct Hs as [(b & Hb & <-) Hsz] eqn:E; clear E.
  apply list_elem_of_filter in Hb as Hb'. destruct Hb' as [Hbn Hbi].
  assert (start <= bh_Height b) as Hsb.
  { unfold start. rewrite Start_EpochAt, <- Hbn by done. apply epochNo_bounds. }
  pose proof (subseteq_size _ _ (groupsSince_mono _ _ ebs Hsb)).
  assert (t <= Z.of_nat (length valid)) as Hq by lia. split; [done|].
  destruct (sorted_votes_checkpoint start ebs (seedsAt h) t Hea (seeds_distinct h) Hgs Ht Hq) as (v & Hv & Hcp).
  exists v. split; [exact Hv|]. rewrite (isCheckpoint_unique ebs t (v + start - 1) (bh_Height b)) by (done || by split; [exists b|]).
  apply wrap64_id. rewrite Forall_forall in Hok. specialize (Hok b Hbi). unfold heightOk, u64_ok, EpochLength in *. lia.
Qed.

(** The checkpoint computed from votes held by the database is the one computed
    from the headers. *)
Lemma calcCheckpointByDB_held {E} bs g w votes h t :
  votesHeld bs g w votes -> ascending bs -> Forall (fun b => heightOk (bh_Height b)) bs ->
  (forall b, b ∈ bs -> bh_Height b <= bh_Height g) -> g ∈ bs ->
  heightOk h -> bh_Height g <= h -> 0 < epochNo h -> 0 < t ->
  calcCheckpointByDB (E:=E) w (EpochAt h) t = Ok (calcCheckpointByBlocks bs (EpochAt h) t).
Proof.
  intros Hv Ha Hok Hmax Hin Hh Hle Hn Ht.
  assert (heightOk (bh_Height g)) as Hg by (rewrite Forall_forall in Hok; auto).
  unfold calcCheckpointByDB. rewrite (getGroupEpoch_held _ (bh_Height g)) by (done || apply (vh_epoch _ _ _ _ Hv)).
  cbn [obind]. rewrite Equal_EpochAt by done. case_bool_decide as Heq.
  - unfold getGroupVotes. rewrite (vh_votes _ _ _ _ Hv). cbn [from_option id].
    rewrite decodeVotes_encode by apply (vh_range _ _ _ _ Hv). cbn [obind].
    rewrite (vh_exact _ _ _ _ Hv), Heq by lia. rewrite (EpochAt_epochNo _ h Heq), (seedsAt_epochNo _ h Heq).
    pose proof (vh_groups _ _ _ _ Hv ltac:(lia)) as Hgs. rewrite Heq, (seedsAt_epochNo _ h Heq) in Hgs.
    pose proof (valid_votes_checkpoint bs h t Ha Hok Hh Ht Hgs) as Hs. cbv zeta in Hs.
    destruct (calcCheckpointByBlocks _ _ _) as [c|].
    + destruct Hs as [Hq (v & Hv' & <-)]. apply Z.leb_le in Hq. by rewrite Hq, Hv'.
    + apply Z.leb_gt in Hs. by rewrite Hs.
  - pose proof (calcCheckpointByBlocks_spec bs h t Ha Hok Hh Ht) as Hs.
    destruct (calcCheckpointByBlocks _ _ _) as [c|]; [|done]. destruct Hs as [(b & [Hbn Hb]%list_elem_of_filter & _) _].
    pose proof (epochNo_mono _ _ (Hmax b Hb)). pose proof (epochNo_mono _ _ Hle). lia.
Qed.
End votes.

(** ** Checkpoints of a chain *)

Definition blocksUpTo (h : Z) (bs : list BlockHeader) : list BlockHeader := filter (fun b => bh_Height b <= h) bs.

(** The queries, answered from the blocks [bs] of a chain; states may have been
    pruned. *)
Record answersFrom `{activatedGroupReader} (bs : list BlockHeader) (q : blockQuerier) : Prop := {
  af_top : exists top, last bs = Some top /\ q_Height (blockQuerier:=q) = bh_Height top;
  af_floor : forall h, q_QueryBlockHeaderFloor (blockQuerier:=q) h = last (blocksUpTo h bs);
  af_between : forall b e, q_BatchGetBlockHeadersBetween (blockQuerier:=q) b e = filter (fun x => b <= bh_Height x < e) bs;
  af_state : forall h, 0 <= h ->
    match q_AccountDBAt (blockQuerier:=q) h with
    | inl w => voted (blocksUpTo h bs) w
    | inr MissingNodeError => True
    | inr OtherDBError => False
    end;
}.

Lemma cpGroupThreshold_pos n : 0 < n -> 0 < cpGroupThreshold n.
Proof.
  intros Hn. unfold cpGroupThreshold, groupThresholdMantissa. set (m := n * 6305039478318694).
  set (s := Z.max 0 (Z.log2 m - 52)). pose proof (roundShift_near m s ltac:(lia) ltac:(lia)) as Hr.
  pose proof (Z.log2_spec m ltac:(lia)) as [Hlo _]. assert (0 <= Z.log2 m) by apply Z.log2_nonneg.
  assert (2 ^ s <= 2 ^ Z.log2 m) by (apply Z.pow_le_mono_r; lia).
  assert (- (roundShift m s * 2 ^ s) / 2 ^ 53 < 0); [|lia]. apply Z.div_lt_upper_bound; lia.
Qed.

Lemma voted_has_genesis `{activatedGroupReader} bs' w : voted bs' w -> exists g, g ∈ bs' /\ bh_Height g = 0.
Proof.
  induction 1 as [g w Hg|bs' g w w1 hc bh s' w' _ (g0 & Hg0 & ?)]; [exists g; split; [by apply list_elem_of_singleton|done]|].
  exists g0. split; [|done]. rewrite (cons_middle g bs' [bh]), app_assoc. set_solver.
Qed.

Section chain.
Context `{activatedGroupReader} (seeds_distinct : forall h, NoDup (seedsAt h)).
Context (bs : list BlockHeader) (wtop : World) (Hvoted : voted bs wtop).

Lemma voted_genesis_group bs' w : voted bs' w -> length (seedsAt 0) = 1%nat.
Proof. by induction 1. Qed.

Lemma voted_ascending bs' w : voted bs' w -> ascending bs' /\ Forall (fun b => heightOk (bh_Height b)) bs'.
Proof. intros Hv. destruct (voted_held seeds_distinct _ _ Hv) as (? & ? & ? & _ & _ & ? & ?). auto. Qed.

Lemma blocksUpTo_ok h : ascending (blocksUpTo h bs) /\ Forall (fun b => heightOk (bh_Height b)) (blocksUpTo h bs).
Proof.
  destruct (voted_ascending _ _ Hvoted) as [Ha Hok]. split; [by apply StronglySorted_filter|].
  apply Forall_forall. intros b [_ Hb]%list_elem_of_filter. rewrite Forall_forall in Hok. auto.
Qed.

(** Only an epoch after the first has groups enough. *)
Lemma groupsEnough_epoch h : groupsEnough (contextAt h) = true -> heightOk h -> 0 < epochNo h.
Proof.
  unfold groupsEnough. rewrite groupSize_contextAt by done. intros Hn%Nat.leb_le Hh.
  pose proof (epochNo_nonneg h ltac:(unfold heightOk in Hh; lia)).
  assert (epochNo h <> 0) as Hne; [|lia]. intros E0.
  rewrite (seedsAt_epochNo h 0), (voted_genesis_group _ _ Hvoted) in Hn by (rewrite E0; done). unfold groupNumMin in Hn. lia.
Qed.

Lemma threshold_pos h : groupsEnough (contextAt h) = true -> 0 < cc_threshold (contextAt h).
Proof.
  intros Hn%Nat.leb_le. apply cpGroupThreshold_pos. unfold groupSize, groupNumMin, contextAt, newCpContext in Hn. cbn [cc_groupIndexes] in Hn. lia.
Qed.

(** One epoch, whichever way it is computed. *)
Lemma checkpointOfEpoch_run q h byDB :
  answersFrom bs q -> heightOk h -> groupsEnough (contextAt h) = true ->
  exists byDB', checkpointOfEpoch (contextAt h) h byDB =
    Ok (byDB', calcCheckpointByBlocks (blocksUpTo h bs) (EpochAt h) (cc_threshold (contextAt h))).
Proof.
  intros Hq Hh Hn. destruct (blocksUpTo_ok h) as [Ha Hok].
  assert (calcCheckpointByBlocks (q_BatchGetBlockHeadersBetween (Start (EpochAt h)) (h + 1)%u64) (EpochAt h)
            (cc_threshold (contextAt h)) =
          calcCheckpointByBlocks (blocksUpTo h bs) (EpochAt h) (cc_threshold (contextAt h))) as Hblocks.
  { rewrite (af_between _ _ Hq), wrap64_id by (unfold heightOk, u64_ok, EpochLength in *; lia).
    apply calcCheckpointByBlocks_epoch; [done| |done|].
    - apply Forall_forall. intros b [? Hb]%list_elem_of_filter.
      destruct (voted_ascending _ _ Hvoted) as [_ Hall]. rewrite Forall_forall in Hall. auto.
    - unfold epochBlocks, blocksUpTo. rewrite !list_filter_filter. apply list_filter_iff. intros b.
      rewrite Start_EpochAt by done. pose proof (epochNo_bounds (bh_Height b)).
      split; [intros [? ?]; split; [done|lia]|]. intros [Hb ?]. rewrite Hb in *. lia. }
  unfold checkpointOfEpoch. change (cc_epoch (contextAt h)) with (EpochAt h).
  destruct byDB; [|by eexists; rewrite Hblocks].
  pose proof (af_state _ _ Hq h ltac:(unfold heightOk in Hh; lia)) as Hst.
  destruct (q_AccountDBAt h) as [w|[]]; [|by eexists; rewrite Hblocks|done].
  destruct (voted_held seeds_distinct _ _ Hst) as (bs' & g & votes & E & Hv & Hasc & Hok').
  exists true. erewrite calcCheckpointByDB_held; try done; try by apply threshold_pos.
  - intros b Hb. rewrite E in Hb, Hasc. apply elem_of_app in Hb as [Hb|Hb]; [|apply list_elem_of_singleton in Hb as ->; lia].
    pose proof (StronglySorted_app_1_elem_of _ _ _ b g Hasc Hb (list_elem_of_here _ _)). simpl in *. lia.
  - rewrite E. set_solver.
  - assert (g ∈ blocksUpTo h bs) as Hg by (rewrite E; set_solver). by apply list_elem_of_filter in Hg as [? _].
  - by apply groupsEnough_epoch.
Qed.

(** A block of an epoch with enough groups; seven tenths of these have verified
    blocks of the epoch from it up to [h0]. *)
Definition quorumSince (h0 c : Z) : Prop :=
  let voters := groupsSince c (epochBlocks (epochNo c) (blocksUpTo h0 bs)) in
  (exists b, b ∈ bs /\ bh_Height b = c) /\ c <= h0 /\
  (groupNumMin <= length (seedsAt c))%nat /\ voters ⊆ list_to_set (seedsAt c) /\
  (Z.of_nat (length (seedsAt c)) < 2 ^ 32 -> 7 * Z.of_nat (length (seedsAt c)) <= 10 * Z.of_nat (size voters)).

Lemma voted_groups bs' w b : voted bs' w -> b ∈ bs' -> 0 < epochNo (bh_Height b) -> bh_Group b ∈ seedsAt (bh_Height b).
Proof.
  intros Hv. pose proof Hv as Hv'. induction Hv' as [g w Hg|bs' g w w1 hc bh s' w' Hv' IH].
  - intros ->%list_elem_of_singleton. by rewrite Hg.
  - rewrite (cons_middle g bs' [bh]), app_assoc. intros [Hb|Hb]%elem_of_app Hn; [by apply IH|].
    apply list_elem_of_singleton in Hb as ->.
    destruct (voted_held seeds_distinct _ _ Hv) as (l & g' & votes & E & Hh & _).
    rewrite (cons_middle g bs' [bh]), app_assoc in E, Hh. apply app_inj_tail in E as [<- <-].
    apply (vh_groups _ _ _ _ Hh Hn). rewrite epochBlocks_snoc. set_solver.
Qed.

Lemma calc_quorum h0 h c :
  heightOk h -> h <= h0 -> groupsEnough (contextAt h) = true ->
  calcCheckpointByBlocks (blocksUpTo h bs) (EpochAt h) (cc_threshold (contextAt h)) = Some c -> quorumSince h0 c.
Proof.
  intros Hh Hle Hn Hc. destruct (blocksUpTo_ok h) as [Ha Hok].
  pose proof (calcCheckpointByBlocks_spec _ h _ Ha Hok Hh (threshold_pos h Hn)) as Hs. rewrite Hc in Hs.
  destruct Hs as [(b & [Hbn [Hbh Hb]%list_elem_of_filter]%list_elem_of_filter & <-) [_ Hq]].
  pose proof (groupsEnough_epoch h Hn Hh) as Hpos. rewrite <- Hbn in Hq, Hpos.
  unfold groupsEnough in Hn. rewrite groupSize_contextAt in Hn by done. apply Nat.leb_le in Hn.
  rewrite (seedsAt_epochNo h (bh_Height b)) in Hn by done. split_and!; [eauto|lia|done| |].
  - intros g. rewrite elem_of_groupsSince, elem_of_list_to_set.
    intros (x & [Hx [_ Hxb]%list_elem_of_filter]%list_elem_of_filter & _ & <-).
    rewrite <- (seedsAt_epochNo (bh_Height x)) by done. eapply voted_groups; [exact Hvoted|done|lia].
  - intros Hlt. assert (cc_threshold (contextAt h) = (7 * Z.of_nat (length (seedsAt (bh_Height b))) + 9) / 10) as Ht.
    { rewrite <- (seedsAt_epochNo h) by done. rewrite <- groupSize_contextAt by done. apply threshold_exact.
      rewrite (seedsAt_epochNo (bh_Height b) h), <- groupSize_contextAt in Hlt, Hn by done.
      unfold groupNumMin in Hn. lia. }
    rewrite Ht in Hq. pose proof (Z.div_mod (7 * Z.of_nat (length (seedsAt (bh_Height b))) + 9) 10 ltac:(lia)) as Hd.
    pose proof (Z.mod_pos_bound (7 * Z.of_nat (length (seedsAt (bh_Height b))) + 9) 10 ltac:(lia)).
    enough (size (groupsSince (bh_Height b) (epochBlocks (epochNo (bh_Height b)) (blocksUpTo h bs))) <=
            size (groupsSince (bh_Height b) (epochBlocks (epochNo (bh_Height b)) (blocksUpTo h0 bs))))%nat by lia.
    apply subseteq_size. intros g. rewrite !elem_of_groupsSince. unfold epochBlocks, blocksUpTo.
    setoid_rewrite list_elem_of_filter. setoid_rewrite list_elem_of_filter. intros (x & ? & ? & ?). exists x. intuition lia.
Qed.

(** The scan over the epochs. *)
Lemma scanCheckpoint_agree q1 q2 n h0 h b1 b2 :
  answersFrom bs q1 -> answersFrom bs q2 -> heightOk h -> h <= h0 ->
  exists c, scanCheckpoint (H0:=q1) n h b1 = Ok c /\ scanCheckpoint (H0:=q2) n h b2 = Ok c /\ (c = 0 \/ quorumSince h0 c).
Proof.
  intros Hq1 Hq2. revert h b1 b2. induction n as [|n IH]; intros h b1 b2 Hh Hle; [exists 0; auto|].
  cbn [scanCheckpoint]. fold (contextAt h).
  assert (Start (EpochAt h) <> 0 -> forall b1 b2, exists c, scanCheckpoint (H0:=q1) n (Start (EpochAt h) - 1)%u64 b1 = Ok c /\
    scanCheckpoint (H0:=q2) n (Start (EpochAt h) - 1)%u64 b2 = Ok c /\ (c = 0 \/ quorumSince h0 c)) as Hnext.
  { intros Hne b1' b2'. pose proof (epochNo_bounds h). rewrite Start_EpochAt in * by done.
    pose proof (epochNo_nonneg h ltac:(unfold heightOk in Hh; lia)).
    rewrite wrap64_id by (unfold heightOk, u64_ok, EpochLength in *; lia).
    apply IH; unfold heightOk, EpochLength in *; lia. }
  destruct (groupsEnough (contextAt h)) eqn:En.
  - destruct (checkpointOfEpoch_run q1 h b1 Hq1 Hh En) as [b1' ->].
    destruct (checkpointOfEpoch_run q2 h b2 Hq2 Hh En) as [b2' ->]. cbn [obind fst snd].
    destruct (calcCheckpointByBlocks _ _ _) as [c|] eqn:Ec.
    + exists c. split_and!; [done|done|]. right. by eapply calc_quorum.
    + destruct (Z.eqb_spec (Start (EpochAt h)) 0); [exists 0; auto|]. by apply Hnext.
  - cbn [obind fst snd]. destruct (Z.eqb_spec (Start (EpochAt h)) 0); [exists 0; auto|]. by apply Hnext.
Qed.

(** The height the scan starts from is answered alike by all nodes. *)
Lemma checkpoint_start h :
  heightOk h -> cpBlockBuffer < h -> exists h', h' <= h - cpBlockBuffer /\ heightOk h' /\ forall q, answersFrom bs q ->
    (if q_Height (blockQuerier:=q) <? h - cpBlockBuffer then Ok (E:=unit) (q_Height (blockQuerier:=q))
     else match q_QueryBlockHeaderFloor (blockQuerier:=q) (h - cpBlockBuffer) with
          | Some bh => Ok (bh_Height bh) | None => Panic "nil pointer dereference" end) = Ok h'.
Proof.
  intros Hh Hs. destruct (voted_held seeds_distinct _ _ Hvoted) as (bs' & top & _ & E & _ & _ & Hok).
  rewrite Forall_forall in Hok. destruct (Z.lt_ge_cases (bh_Height top) (h - cpBlockBuffer)) as [Hlt|Hge].
  - exists (bh_Height top). split_and!; [lia|apply Hok; rewrite E; set_solver|]. intros q Hq.
    destruct (af_top _ _ Hq) as (t & Et & ->). rewrite E, last_snoc in Et. injection Et as <-.
    by apply Z.ltb_lt in Hlt as ->.
  - destruct (voted_has_genesis _ _ Hvoted) as (g0 & Hg0 & H0).
    destruct (last (blocksUpTo (h - cpBlockBuffer) bs)) as [b|] eqn:El.
    2:{ apply last_None in El. assert (g0 ∈ blocksUpTo (h - cpBlockBuffer) bs) as Hin
          by (apply list_elem_of_filter; split; [unfold cpBlockBuffer in *; lia|done]).
        rewrite El in Hin. by apply elem_of_nil in Hin. }
    apply last_Some_elem_of in El as Hb. apply list_elem_of_filter in Hb as [Hbh Hb].
    exists (bh_Height b). split_and!; [done|auto|]. intros q Hq. destruct (af_top _ _ Hq) as (t & Et & ->).
    rewrite E, last_snoc in Et. injection Et as <-. apply Z.ltb_ge in Hge as ->. by rewrite (af_floor _ _ Hq), El.
Qed.
End chain.

(** C38: on a chain of blocks executed one after the other,
    the checkpoint of a height is found without an error or a panic and does not
    depend on which states a node has pruned: it is the same from the votes in the
    account database and from the headers.  A checkpoint other than 0 is a block at
    least [cpBlockBuffer] below the height, and seven tenths of the groups active in
    its epoch have verified blocks of the epoch from it up to there. *)
Theorem checkpoint_agreed `{activatedGroupReader} bs w q1 q2 h :
  (forall h, NoDup (seedsAt h)) -> voted bs w -> answersFrom bs q1 -> answersFrom bs q2 -> heightOk h ->
  exists c, checkpointAt (H0:=q1) h = Ok c /\ checkpointAt (H0:=q2) h = Ok c /\
    (c = 0 \/ quorumSince bs (h - cpBlockBuffer) c).
Proof.
  intros Hnd Hv Hq1 Hq2 Hh. unfold checkpointAt. destruct (Z.leb_spec h cpBlockBuffer) as [Hs|Hs]; [exists 0; auto|].
  destruct (checkpoint_start Hnd bs w Hv h Hh Hs) as (h' & Hle & Hh' & Heq).
  rewrite !Heq by done. cbn [obind].
  destruct (scanCheckpoint_agree Hnd bs w Hv q1 q2 cpMaxScanEpochs (h - cpBlockBuffer) h' true true) as (c & -> & -> & Hc); try done.
  by exists c.
Qed.

(** *** A chain with ten groups *)

Section execute.
Context `{activatedGroupReader}.

(** The state after a chain, given in reverse; [None] when it does not execute. *)
Fixpoint executeVotes (rbs : list BlockHeader) : option World :=
  match rbs with
  | [] => None
  | bh :: rbs' =>
      match rbs' with
      | [] =>
          if (bh_Height bh =? 0) && (length (seedsAt 0) =? 1)%nat
          then Some (setGroupEpoch (EpochAt 0) (setGroupVotes [1] emptyWorld)) else None
      | g :: _ =>
          w ← executeVotes rbs';
          if (0 <=? bh_Height g) && (bh_Height g <? bh_Height bh) && (bh_Height bh <? two64 - 2 * EpochLength) then
            match updateVotes bh (mkCp w (Some (contextAt (bh_Height bh)))) with
            | (Ok _, s') => Some (cs_db s')
            | _ => None
            end
          else None
      end
  end.

Lemma executeVotes_voted rbs w : executeVotes rbs = Some w -> voted (reverse rbs) w.
Proof.
  revert w. induction rbs as [|bh rbs IH]; [done|]. intros w. cbn [executeVotes].
  destruct rbs as [|g rbs].
  - destruct (_ && _) eqn:E; [|done]. intros [= <-]. apply andb_true_iff in E as [?%Z.eqb_eq ?%Nat.eqb_eq]. by constructor.
  - destruct (executeVotes (g :: rbs)) as [w0|]; [cbn [mbind option_bind]|done].
    destruct (_ && _) eqn:E; [|done]. rewrite !andb_true_iff in E. destruct E as [[?%Z.leb_le ?%Z.ltb_lt] ?%Z.ltb_lt].
    destruct (updateVotes _ _) as [[u|[]|] s'] eqn:Eu; [|done]. intros [= <-]. destruct u.
    rewrite !reverse_cons, <- app_assoc.
    apply (voted_block _ g w0 w0 (bh_Height bh) bh s'); try done; try (unfold heightOk; lia).
    rewrite <- reverse_cons. by apply IH.
Qed.

Definition nodeOf (bs : list BlockHeader) (pruned : bool) : blockQuerier := {|
  q_Height := from_option bh_Height 0 (last bs);
  q_AccountDBAt h := match executeVotes (reverse (blocksUpTo h bs)) with
                     | Some w => if pruned then inr MissingNodeError else inl w
                     | None => inr MissingNodeError
                     end;
  q_QueryBlockHeaderFloor h := last (blocksUpTo h bs);
  q_BatchGetBlockHeadersBetween b e := filter (fun x => b <= bh_Height x < e) bs;
|}.

Lemma nodeOf_answers bs pruned : bs <> [] -> answersFrom bs (nodeOf bs pruned).
Proof.
  intros Hne. split; [|done|done|].
  - destruct (last bs) as [b|] eqn:E; [|by apply last_None in E]. exists b. simpl. by rewrite E.
  - intros h _. cbn [q_AccountDBAt nodeOf]. destruct (executeVotes _) as [w|] eqn:E; [|done].
    destruct pruned; [done|]. apply executeVotes_voted in E. by rewrite reverse_involutive in E.
Qed.
End execute.

Definition numbered (n : Z) : Hash := BytesToAddress (BigEndian.put 32 n).
Definition numberedGroup (n : nat) : group := mkGroup (mkGroupHeader (numbered (Z.of_nat n)) 0 0 [] 0 zeroB32 0) [].
Definition tenGroups : activatedGroupReader :=
  {| reader_ActivatedGroupsAt h := numberedGroup <$> seq 1 (if h <? EpochLength then 1 else 10) |}.
Definition votingBlock (h g : Z) : BlockHeader :=
  mkBlockHeader zeroB32 h zeroB32 0 [] 0 0 [] (numbered g) [] 0 zeroB32 zeroB32 zeroB32 [] [] 0.
Definition votingChain : list BlockHeader :=
  votingBlock 0 0 :: votingBlock 7 1 :: ((fun i => votingBlock (Z.of_nat (2 * i) + 238) (Z.of_nat i)) <$> seq 1 10).

Lemma checkpoint_agreed_witness :
  checkpointAt (H:=tenGroups) (H0:=nodeOf (H:=tenGroups) votingChain false) 278 = Ok 246 /\
  checkpointAt (H:=tenGroups) (H0:=nodeOf (H:=tenGroups) votingChain true) 278 = Ok 246.
Proof.
  assert (voted (H:=tenGroups) votingChain (default emptyWorld (executeVotes (H:=tenGroups) (reverse votingChain)))) as E.
  { rewrite <- (reverse_involutive votingChain) at 1. apply executeVotes_voted. vm_compute. reflexivity. }
  destruct (checkpoint_agreed (H:=tenGroups) votingChain (default emptyWorld (executeVotes (H:=tenGroups) (reverse votingChain)))
    (nodeOf (H:=tenGroups) votingChain false) (nodeOf (H:=tenGroups) votingChain true) 278) as (c & Hc & Hp & _).
  - intros h. unfold seedsAt. simpl. destruct (_ <? _); apply (bool_decide_unpack _); vm_compute; exact I.
  - exact E.
  - by apply nodeOf_answers.
  - by apply nodeOf_answers.
  - done.
  - assert (checkpointAt (H:=tenGroups) (H0:=nodeOf (H:=tenGroups) votingChain false) 278 = Ok 246) as Hv by (vm_compute; reflexivity).
    split; [exact Hv|]. rewrite Hv in Hc. injection Hc as <-. exact Hp.
Defined.
