(* ===== verification/Govern.v ===== *)
(** * Govern: the blacklist and the guard nodes' vote on it

    [src/core/govern.go] with [BlackOperator] of [src/middleware/types/miner.go]:
    accounts on the blacklist may not send transactions; the list changes by a
    transaction of the administrator that carries the signatures of more than
    half of the guard nodes.  [governManager] caches the list per storage root
    of the store account. *)
From S2P Require Import Prelude Bytes World Sha256 Types MinerBase MinerOps MinerManager.
Local Open Scope Z_scope.
Local Open Scope zv_scope.

Definition blackStoreAddr : Address := BytesToAddress (str "black-store").
Definition blackPrefix : bytes := str "list-".

Record BlackOperator := mkBlack {
  bo_Addrs : list Address; bo_OpType : Byte.byte; bo_Signs : list bytes }.

Definition GenBlackOperateSignData (operator : Address) (nonce : Z) (opType : Byte.byte)
    (addrs : list Address) : bytes :=
  Sha256 (b32_bytes operator ++ Uint64ToByte nonce ++ [opType] ++ concat (map b32_bytes addrs)).

(** [common.BytesToSign], [RecoverPubkey] and [GetAddress]: the signer of a
    message, [None] when one of them fails. *)
Class SignEnv := { recoverAddress : bytes -> bytes -> option Address }.

(** ** The cached list *)

(** [GetRootHash] of a state object: the root of its storage trie, which [updateRoot]
    brings up to date together with the trie. *)
Class RootEnv := { GetRootHash : Account -> Hash }.

Record governManager := mkGovern { gm_blacks : gset Address; gm_root : Hash }.

Definition newGovernManager : governManager := mkGovern ∅ zeroB32.

Definition loadBlacks (w : World) : gset Address :=
  match DataIterator w blackStoreAddr blackPrefix with
  | None => ∅
  | Some es => list_to_set (map (fun e => keyAddr blackPrefix e.1) (iterPrefix blackPrefix es))
  end.

Definition isBlack `{RootEnv} (w : World) (a : Address) (gm : governManager) : bool * governManager :=
  match getAccountObject w blackStoreAddr with
  | None => (false, gm)
  | Some obj =>
      let gm' :=
        if bool_decide (gm_root gm = zeroB32) || bool_decide (GetRootHash obj <> gm_root gm)
        then mkGovern (loadBlacks w) (GetRootHash obj) else gm in
      (bool_decide (a ∈ gm_blacks gm'), gm')
  end.

Definition genKey (a : Address) : bytes := blackPrefix ++ b32_bytes a.
Definition addBlacks (addrs : list Address) : World -> World :=
  fun w => foldl (fun w a => SetData blackStoreAddr (genKey a) [Byte.x01] w) w addrs.
Definition removeBlacks (addrs : list Address) : World -> World :=
  fun w => foldl (fun w a => RemoveData blackStoreAddr (genKey a) w) w addrs.

(** ** The vote *)

Section vote.
Context `{MinerCodecs} `{SignEnv} `{Codec BlackOperator}.

Definition getAllGuardNodes : WM (list Address) := GetAllGuardNodeAddrs.

(** The loop that rejects a repeated signature. *)
Fixpoint distinctSigns (seen : gset bytes) (signs : list bytes) : bool :=
  match signs with
  | [] => true
  | s :: signs' => if decide (s ∈ seen) then false else distinctSigns ({[s]} ∪ seen) signs'
  end.

Definition checkSign (signBytes : bytes) (guardNodes : list Address) (sig : bytes) : WM unit :=
  match recoverAddress sig signBytes with
  | None => fail (errOf "decode sign fail" RSParseFail)
  | Some src => guard (bool_decide (src ∈ guardNodes)) (errOf "sign is not from a guard node" RSParseFail)
  end.

Definition decodeAndVerifyBlackUpdateTx (payload : bytes) (operator : option Address) (nonce : Z) : WM BlackOperator :=
  match Unmarshal payload with
  | None => fail (errOf "msgpack: decode" RSParseFail)
  | Some b =>
      guard (0 <? length (bo_Addrs b))%nat (errOf "address list is empty" RSParseFail) ;;;
      src <- deref operator ;;
      let signBytes := GenBlackOperateSignData src nonce (bo_OpType b) (bo_Addrs b) in
      guardNodes <- getAllGuardNodes ;;
      let threshold := (length guardNodes / 2 + 1)%nat in
      guard (distinctSigns ∅ (bo_Signs b)) (errOf "duplate sign found" RSParseFail) ;;;
      guard (threshold <=? length (bo_Signs b))%nat (errOf "not enough guard node signs" RSParseFail) ;;;
      for_each (bo_Signs b) (checkSign signBytes guardNodes) ;;;
      ret b
  end.

Definition blackUpdateTx_Parse (tx : Transaction) : WM BlackOperator :=
  decodeAndVerifyBlackUpdateTx (tx_Data tx) (tx_Source tx) (tx_Nonce tx).

Definition blackUpdateTx_Transition (op : BlackOperator) : WM unit :=
  if bool_decide (bo_OpType op = Byte.x01) then modify (removeBlacks (bo_Addrs op))
  else modify (addBlacks (bo_Addrs op)).
End vote.

(** ** Lemmas *)

Lemma elem_of_loadBlacks w a :
  a ∈ loadBlacks w <->
  exists o k v, accounts w !! blackStoreAddr = Some o /\ StorageTrie o !! k = Some v /\
    blackPrefix `prefix_of` k /\ keyAddr blackPrefix k = a.
Proof.
  unfold loadBlacks. destruct (DataIterator w blackStoreAddr blackPrefix) as [es|] eqn:E.
  - rewrite elem_of_list_to_set, list_elem_of_fmap. split.
    + intros ([k v] & -> & Hin). rewrite (elem_of_iterPrefix _ _ _ _ _ _ E) in Hin.
      destruct Hin as (Hp & o & Ho & Hk). eauto 10.
    + intros (o & k & v & Ho & Hk & Hp & <-). exists (k, v). split; [done|].
      rewrite (elem_of_iterPrefix _ _ _ _ _ _ E). eauto.
  - split; [set_solver|]. intros (o & k & v & Ho & _). unfold DataIterator in E.
    by rewrite Ho in E.
Qed.

Lemma loadBlacks_ext w1 w2 o1 o2 :
  accounts w1 !! blackStoreAddr = Some o1 -> accounts w2 !! blackStoreAddr = Some o2 ->
  StorageTrie o1 = StorageTrie o2 -> loadBlacks w1 = loadBlacks w2.
Proof.
  intros H1 H2 E. unfold loadBlacks, DataIterator. by rewrite H1, H2; simpl; rewrite E.
Qed.

Lemma prefix_genKey a : blackPrefix `prefix_of` genKey a.
Proof. by exists (b32_bytes a). Qed.
Lemma keyAddr_genKey a : keyAddr blackPrefix (genKey a) = a.
Proof. unfold keyAddr, genKey. rewrite drop_app_length. apply BytesToAddress_bytes. Qed.
#[global] Instance genKey_inj : Inj eq eq genKey.
Proof. intros a b E. apply app_inv_head in E. by apply b32_eq. Qed.

(** Questions asked one after the other, each of the state at hand; the manager is
    kept in between. *)
Fixpoint askAll `{RootEnv} (gm : governManager) (qs : list (World * Address)) : list bool :=
  match qs with
  | [] => []
  | (w, a) :: qs' => let r := isBlack w a gm in r.1 :: askAll r.2 qs'
  end.

(** Among these states, store accounts with the same root have the same trie. *)
Definition rootsTellApart `{RootEnv} (ws : list World) : Prop :=
  forall w1 w2 o1 o2, w1 ∈ ws -> w2 ∈ ws -> accounts w1 !! blackStoreAddr = Some o1 -> accounts w2 !! blackStoreAddr = Some o2 ->
    GetRootHash o1 = GetRootHash o2 -> StorageTrie o1 = StorageTrie o2.

(** The manager remembers nothing, or the root and the list of one of the states. *)
Definition govern_ok `{RootEnv} (ws : list World) (gm : governManager) : Prop :=
  gm_root gm = zeroB32 \/
  exists w o, w ∈ ws /\ accounts w !! blackStoreAddr = Some o /\ GetRootHash o = gm_root gm /\
    gm_blacks gm = loadBlacks w.

Lemma isBlack_step `{RootEnv} ws w a gm :
  rootsTellApart ws -> w ∈ ws -> govern_ok ws gm ->
  govern_ok ws (snd (isBlack w a gm)) /\ fst (isBlack w a gm) = bool_decide (a ∈ loadBlacks w).
Proof.
  intros Hd Hw Hok. unfold isBlack, getAccountObject.
  destruct (accounts w !! blackStoreAddr) as [obj|] eqn:Ho; simpl.
  - destruct (bool_decide (gm_root gm = zeroB32) || bool_decide (GetRootHash obj <> gm_root gm)) eqn:E; simpl.
    + split; [right; by exists w, obj|done].
    + apply orb_false_iff in E as [E1%bool_decide_eq_false E2%bool_decide_eq_false].
      split; [done|]. destruct Hok as [?|(w0 & o & Hw0 & Ho0 & Hr & Hb)]; [done|].
      apply dec_stable in E2. rewrite Hb, (loadBlacks_ext w0 w o obj); [done..|].
      apply (Hd w0 w); [done..|]. by rewrite Hr.
  - split; [done|]. symmetry. apply bool_decide_eq_false. rewrite elem_of_loadBlacks.
    intros (o & k & v & Ho' & _). congruence.
Qed.

Lemma distinctSigns_NoDup seen signs :
  distinctSigns seen signs = true -> NoDup signs /\ forall s, s ∈ signs -> s ∉ seen.
Proof.
  revert seen. induction signs as [|s signs IH]; simpl; intros seen Hd.
  - split; [constructor|]. intros s Hs. by apply not_elem_of_nil in Hs.
  - case_decide as Hs; [done|]. apply IH in Hd as [Hnd Hout]. split.
    + constructor; [|done]. intros Hin. apply Hout in Hin. set_solver.
    + intros s' [->|Hin]%elem_of_cons; [done|]. apply Hout in Hin. set_solver.
Qed.

Lemma wp_checkSigns `{MinerCodecs} `{SignEnv} sb gs signs w :
  wp True (for_each signs (checkSign sb gs)) w (fun _ w' => w' = w /\
    forall sig, sig ∈ signs -> exists g, g ∈ gs /\ recoverAddress sig sb = Some g).
Proof.
  induction signs as [|s signs IH]; simpl.
  - apply wp_ret. split; [done|]. intros s Hs. by apply not_elem_of_nil in Hs.
  - apply wp_bind. unfold checkSign at 1. destruct (recoverAddress s sb) as [g|] eqn:Eg; [|done].
    wsteps. eapply wp_mono; [exact IH|]. intros _u w' [-> Hall]. split; [done|].
    apply bool_decide_eq_true in Hg. intros s' [->|Hin]%elem_of_cons; eauto.
Qed.

(** Writing one value under the keys of several addresses. *)
Lemma writeAll_lookup (v : option bytes) addrs w a :
  GetData (foldl (fun w a => update blackStoreAddr (setData (genKey a) v) w) w addrs)
    blackStoreAddr (genKey a) =
  if decide (a ∈ addrs) then v else GetData w blackStoreAddr (genKey a).
Proof.
  revert w. induction addrs as [|b addrs IH]; intros w; cbn [foldl].
  - by rewrite decide_False by apply not_elem_of_nil.
  - rewrite IH, GetData_write. destruct (decide (a ∈ addrs)) as [Hin|Hin].
    + by rewrite decide_True by (by apply list_elem_of_further).
    + destruct (decide (a = b)) as [->|Hne].
      * rewrite !decide_True; [done|apply list_elem_of_here|done].
      * rewrite !decide_False; [done| |].
        -- by intros [?|?]%elem_of_cons.
        -- intros [_ E]. apply Hne. by apply (inj genKey).
Qed.

(** ** Properties *)

(** C29: a new manager is asked about any accounts on any sequence of states, in any
    order.  If the roots of the store account tell its tries apart in these states,
    every answer is the one a scan of the store account's trie in the state at hand
    would give, whatever list is cached at the time. *)
Theorem isBlack_coherent `{RootEnv} qs :
  rootsTellApart qs.*1 -> askAll newGovernManager qs = map (fun q => bool_decide (q.2 ∈ loadBlacks q.1)) qs.
Proof.
  intros Hd. assert (govern_ok qs.*1 newGovernManager) as Hok by (by left). revert Hok.
  assert (forall q, q ∈ qs -> q.1 ∈ qs.*1) as Hin by (intros q; apply list_elem_of_fmap_2). revert Hd Hin.
  generalize newGovernManager, (qs.*1). induction qs as [|[w a] qs IH]; intros gm ws Hd Hin Hok; [done|]. simpl.
  destruct (isBlack_step ws w a gm Hd (Hin (w, a) ltac:(left)) Hok) as [Hok' ->]. f_equal.
  apply (IH _ ws Hd); [|done]. intros q Hq. apply Hin. by right.
Qed.

(** A blacklist update that passes verification
    carries more signatures than half the number of guard nodes, all different
    byte strings, each by a guard node. *)
Theorem black_update_quorum `{MinerCodecs} `{SignEnv} `{Codec BlackOperator} payload src nonce w b w' :
  decodeAndVerifyBlackUpdateTx payload (Some src) nonce w = (Ok b, w') ->
  exists guardNodes, getAllGuardNodes w = (Ok guardNodes, w') /\
    (length guardNodes < 2 * length (bo_Signs b))%nat /\ NoDup (bo_Signs b) /\
    forall sig, sig ∈ bo_Signs b -> exists g, g ∈ guardNodes /\
      recoverAddress sig (GenBlackOperateSignData src nonce (bo_OpType b) (bo_Addrs b)) = Some g.
Proof.
  intros Hrun. pattern b, w'. eapply (wp_Ok True); [|exact Hrun]. clear Hrun.
  unfold decodeAndVerifyBlackUpdateTx. wsteps. simpl deref. wsteps.
  apply wp_run; [done|]. intros gs w1 Hgs. wsteps.
  eapply wp_mono; [apply wp_checkSigns|]. intros _u w2 [-> Hall]. wsteps.
  exists gs. split; [done|].
  match goal with E : distinctSigns _ _ = true |- _ => apply distinctSigns_NoDup in E as [Hnd _] end.
  match goal with E : (_ <=? _)%nat = true |- _ => apply Nat.leb_le in E as Hle end.
  pose proof (Nat.div_mod_eq (length gs) 2). pose proof (Nat.mod_upper_bound (length gs) 2).
  split; [lia|done].
Qed.

(** After [addBlacks] exactly the added addresses are
    newly listed in the store account, after [removeBlacks] exactly the removed
    ones are gone. *)
Theorem blacklist_updates addrs w a :
  GetData (addBlacks addrs w) blackStoreAddr (genKey a) =
    (if decide (a ∈ addrs) then Some [Byte.x01] else GetData w blackStoreAddr (genKey a)) /\
  GetData (removeBlacks addrs w) blackStoreAddr (genKey a) =
    (if decide (a ∈ addrs) then None else GetData w blackStoreAddr (genKey a)).
Proof. split; apply writeAll_lookup. Qed.

(** ** Examples *)

#[global] Instance BlackOperator_eq_dec : EqDecision BlackOperator.
Proof. solve_decision. Defined.
#[global] Instance BlackOperator_countable : Countable BlackOperator.
Proof.
  refine (inj_countable' (fun b => (bo_Addrs b, bo_OpType b, bo_Signs b))
            (fun p => mkBlack p.1.1 p.1.2 p.2) _).
  by intros [].
Defined.
Definition blackCodec : Codec BlackOperator := countable_codec BlackOperator.

Definition sampleGuards : list Address := [BigToAddress 11; BigToAddress 12; BigToAddress 13].
Definition guardTrie : gmap bytes bytes :=
  list_to_map (map (fun a => (getFundGuardKey KeyGuardNodes a, [Byte.x01])) sampleGuards).
Definition guardWorld : World := mkWorld
  (<[FullStakeGuardNodeAddr := mkAccount 0 1 None false guardTrie guardTrie]>
   (<[FundGuardNodeAddr := mkAccount 0 1 None false ∅ ∅]> ∅)) 0.

(** A signature scheme in which a signer has many signatures of one message, as
    ECDSA does: the first byte of a signature names the signer. *)
Definition sampleSigner : SignEnv := {|
  recoverAddress sig _ := match sig with b :: _ => Some (BigToAddress (Z_of_byte b)) | [] => None end |}.

(** Two signatures of guard 11, none of guards 12 and 13. *)
Definition oneGuardOp : BlackOperator :=
  mkBlack [BigToAddress 77] Byte.x00 [[Byte.x0b; Byte.x00]; [Byte.x0b; Byte.x01]].
Definition oneGuardPayload : bytes := default [] (@Marshal _ blackCodec oneGuardOp).

(** Signatures are compared as byte strings and the
    signers are not, so with three guard nodes two signatures of the same one
    pass the test for a majority. *)
Theorem one_guard_is_quorum :
  fst (getAllGuardNodes (H := bit_codecs) guardWorld) = Ok sampleGuards /\
  fst (decodeAndVerifyBlackUpdateTx (H := bit_codecs) (H0 := sampleSigner) (H1 := blackCodec)
         oneGuardPayload (Some zeroB32) 1 guardWorld) = Ok oneGuardOp /\
  forall sig data, sig ∈ bo_Signs oneGuardOp -> @recoverAddress sampleSigner sig data = Some (BigToAddress 11).
Proof.
  split; [vm_compute; reflexivity|]. split; [vm_compute; reflexivity|].
  intros sig data Hin. unfold oneGuardOp in Hin. simpl in Hin. rewrite !elem_of_cons in Hin.
  destruct Hin as [->|[->|Hin]]; [reflexivity..|by apply not_elem_of_nil in Hin].
Qed.

Lemma black_update_quorum_witness :
  exists guardNodes w',
    @getAllGuardNodes bit_codecs guardWorld = (Ok guardNodes, w') /\
    (length guardNodes < 2 * length (bo_Signs oneGuardOp))%nat.
Proof.
  destruct (@black_update_quorum bit_codecs sampleSigner blackCodec oneGuardPayload zeroB32 1 guardWorld
    oneGuardOp _ (run_fst _ _ _ ltac:(vm_compute; reflexivity))) as (gs & Hgs & Hlt & _).
  exists gs. eexists. split; [exact Hgs|exact Hlt].
Defined.

Definition sampleRoot : RootEnv := {| GetRootHash o := BigToAddress (Z.of_nat (size (StorageTrie o)) + 1) |}.

Definition blackTrie : gmap bytes bytes := {[genKey (BigToAddress 77) := [Byte.x01]]}.
Definition blackWorld : World :=
  mkWorld (<[blackStoreAddr := mkAccount 0 1 None false blackTrie blackTrie]> ∅) 0.

(** Asked before the account is listed, then twice after. *)
Definition blackQueries : list (World * Address) :=
  [(guardWorld, BigToAddress 77); (blackWorld, BigToAddress 77); (blackWorld, BigToAddress 78)].

Lemma isBlack_coherent_witness : @askAll sampleRoot newGovernManager blackQueries = [false; true; false].
Proof.
  rewrite (@isBlack_coherent sampleRoot blackQueries).
  - vm_compute. reflexivity.
  - assert (forall w o, w ∈ blackQueries.*1 -> accounts w !! blackStoreAddr = Some o -> StorageTrie o = blackTrie) as Ht.
    { intros w o Hw Ho. unfold blackQueries in Hw. simpl in Hw. rewrite !elem_of_cons in Hw.
      destruct Hw as [->|[->|[->|Hw]]]; [vm_compute in Ho; discriminate| | |by apply not_elem_of_nil in Hw];
        unfold blackWorld in Ho; simpl in Ho; rewrite lookup_insert_eq in Ho; by injection Ho as <-. }
    intros w1 w2 o1 o2 Hw1 Hw2 H1 H2 _. by rewrite (Ht w1 o1), (Ht w2 o2).
Defined.
