(* ===== verification/Present.v ===== *)
(** * Present: accounts are not dropped

    No operation of a transaction removes an account, so the accounts that are
    iterated at the end of a block stay.  [guarded S] is the invariant of the
    ledger together with the account of the fund guard nodes. *)
From S2P Require Import Prelude Bytes World Types MinerBase MinerOps MinerView MinerInv MinerSafe.
From S2P Require Import MinerManager MinerTheorems Tvm TvmSafe Supply.
Local Open Scope Z_scope.

Section present.
Context `{MinerCodecs} `{ChainEnv} (a : Address).

Lemma present_AddBalance b v : stable (E:=opError) (present a) (modify (AddBalance b v)).
Proof. apply present_modify. Qed.
Lemma present_SubBalance b v : stable (E:=opError) (present a) (modify (SubBalance b v)).
Proof. apply present_modify. Qed.
Lemma present_SetData b k v : stable (E:=opError) (present a) (modify (SetData b k v)).
Proof. apply present_modify. Qed.
Lemma present_RemoveData b k : stable (E:=opError) (present a) (modify (RemoveData b k)).
Proof. apply present_modify. Qed.
#[local] Hint Resolve present_AddBalance present_SubBalance present_SetData present_RemoveData : zv.
#[local] Hint Resolve present_store present_decode present_decodeOpt present_removeFromPool present_reduceTickets : zv.

Create HintDb opsteps.
#[local] Hint Unfold unSupported getMiner setMiner getDetail setDetail removeDetail setProposalTotalStake
  subProposalTotalStake addProposalTotalStake addToPool addTicket reduceBalance setFundGuardNode getFundGuardNode
  updateFundGuardMode addFullStakeGuardPool setVoteInfo initVoteInfo getVoteInfo voteMinerPool : opsteps.
#[local] Hint Unfold stakeAdd_Transition checkStakeAdd processStakeAdd BaseMiner_processStakeAdd stakeAddMiner
  stakeAddActivate stakeAddDetail VerifyMiner_checkStakeAdd NormalProposalMiner_checkStakeAdd
  GuardProposalMiner_checkStakeAdd MinerPoolProposalMiner_checkStakeAdd : opsteps.
#[local] Hint Unfold minerAbort_Transition processMinerAbort BaseMiner_processMinerAbort checkStakeAbort
  stakeReduce_Transition processStakeReduce BaseMiner_processStakeReduce checkCanReduce stakeReducePool
  stakeReduceDetails stakeRefund_Transition minerFreeze_Transition : opsteps.
#[local] Hint Unfold voteMinerPool_Transition processVote BaseMiner_processVote processVoteBase checkVote
  afterTicketsFull BaseMiner_afterTicketsFull : opsteps.
#[local] Hint Unfold applyGuardMiner_Transition processApplyGuard BaseMiner_processApplyGuard checkApplyGuard
  afterBecomeFullGuardNode NormalProposalMiner_afterBecomeFullGuardNode GuardProposalMiner_afterBecomeFullGuardNode
  changeFundGuardMode_Transition processChangeFundGuardMode BaseMiner_processChangeFundGuardMode : opsteps.

Lemma present_dropErr {A} (m : WM A) : stable (present a) m ->
  stable (E:=opError) (present a) (fun w => match m w with (Panic g, w') => (Panic g, w') | (_, w') => (Ok tt, w') end).
Proof. intros Hm w Hw. specialize (Hm w Hw). by destruct (m w) as [[] w']. Qed.
#[local] Hint Resolve present_dropErr present_updateFundGuardPoolStatus : zv.

Lemma present_minerOp op : stable (present a) (minerOp_Transition op).
Proof. destruct op; unfold minerOp_Transition; autounfold with opsteps; stable_tac. Qed.
End present.

(** ** Steps of a guarded ledger *)

Section guarded.
Context `{MinerCodecLaws}.
Implicit Types (w : World) (b : Address) (S : Z).

Lemma guarded_update S w b f : MinerInv S (update b f w) -> guarded S w -> guarded S (update b f w).
Proof. intros I [_ Hp]. split; [done|by apply present_update]. Qed.

Lemma guarded_cast S S' w : guarded S w -> S = S' -> guarded S' w.
Proof. by intros ? <-. Qed.

Lemma guarded_mint S w b x : guarded S w -> 0 <= x -> S + x < two64 -> guarded (S + x) (AddBalance b x w).
Proof. intros [I Hp] Hx Hb. split; [by apply MinerInv_mint|by apply present_update]. Qed.

Lemma guarded_burn S w b x : guarded S w -> 0 <= x <= GetBalance w b -> guarded (S - x) (SubBalance b x w).
Proof. intros [I Hp] Hx. split; [by apply MinerInv_burn|by apply present_update]. Qed.

Lemma guarded_neutral S w b k v : guarded S w -> neutral b k -> guarded S (update b (setData k v) w).
Proof. intros [I Hp] Hn. split; [by apply LedgerInv_neutral|by apply present_update]. Qed.

Lemma guarded_transfer S w b c x : guarded S w -> CanTransfer w b x = true -> guarded S (Transfer b c x w).
Proof.
  intros [I Hp] Hc. split; [by apply MinerInv_transfer|]. unfold Transfer. destruct (x <=? 0); [done|].
  by do 2 apply present_update.
Qed.

Lemma guarded_SetNonce S w b n : guarded S w -> guarded S (SetNonce b n w).
Proof. intros [I Hp]. split; [auto with zv|by apply present_update]. Qed.
Lemma guarded_SetCode S w b c : guarded S w -> guarded S (SetCode b c w).
Proof. intros [I Hp]. split; [auto with zv|by apply present_update]. Qed.
Lemma guarded_CreateAccount S w b : guarded S w -> guarded S (CreateAccount b w).
Proof. intros [I Hp]. split; [auto with zv|by apply present_update]. Qed.

Lemma guarded_vmMoves S owner w w' : rtc (vmMove owner foreignKey) w w' -> guarded S w -> guarded S w'.
Proof.
  induction 1 as [|w1 w2 w3 Hm _ IH]; [done|]. intros I. apply IH.
  destruct Hm as [a b x w Ha Hc|a k v w Ha Hk]; [by apply guarded_transfer|by apply guarded_neutral].
Qed.

Lemma guarded_minerOp `{ChainEnv} S op w :
  guarded S w -> minerOp_valid op -> wp False (minerOp_Transition op) w (fun _ => guarded S).
Proof.
  intros [I Hp] Hv. apply wp_guarded; [apply present_minerOp|done|by apply minerOp_inv].
Qed.
End guarded.
#[export] Hint Resolve guarded_SetNonce guarded_SetCode guarded_CreateAccount : zv.
