(* ===== verification/TxValidate.v ===== *)
(** * TxValidate: which transactions are admitted

    [src/core/tx_validate.go]: the checks on a transaction's form, its gas, its
    amount and its sender that run when a transaction enters the pool or a block
    is verified; [stateValidate] runs again just before execution. *)
From S2P Require Import Prelude Bytes World Sha256 Types TxHash MinerBase MinerOps MinerView MinerInv MinerManager.
From S2P Require Import MinerTheorems Rewards RewardVerify Govern.
Local Open Scope Z_scope.
Local Open Scope zv_scope.

Definition txMaxSize : Z := 64000.
Definition gasLimitPerTransaction : Z := 500000.
Definition GasLimitPerBlock : Z := 2000000.
Definition TransactionGasCost : Z := 400.
Definition CodeBytePrice : Z := 19073.
Definition CodeBytePricePrecision : Z := 10000.
Definition adjustGasPricePeriod : Z := 30000000.
Definition adjustGasPriceTimes : Z := 3.
Definition initialMinGasPrice : Z := 500.

(** What the validators reach through package variables: the chain's top state
    and height, and the address manager. *)
Class ValidateEnv := {
  LatestAccountDB : option World;
  chainHeight : Z;
  AdminAddr : Address;
  IsInExtractGuardNodes : Address -> bool;
}.

(** The interface [governManagerI], as far as validation uses it. *)
Class Governor := { governIsBlack : World -> Address -> bool }.

Definition verr {A} (msg : string) : outcome opError A := Err (errOf msg RSFail).
Definition vguard (b : bool) (msg : string) : outcome opError unit := oguard b (errOf msg RSFail).
Definition oderef {E A} (p : option A) : outcome E A :=
  match p with Some x => Ok x | None => Panic "nil pointer dereference" end.

(** [big.Int.IsUint64] *)
Definition isUint64 (v : Z) : bool := (0 <=? v) && (v <? two64).
(** [len(tx.Data) == 0] and the like *)
Definition dataLen (b : bytes) : Z := Z.of_nat (length b).

(** [len] is an [int]: the sum is not truncated. *)
Definition intrinsicGas (tx : Transaction) : Z :=
  let gas := (dataLen (tx_Data tx) + dataLen (tx_ExtraData tx)) * CodeBytePrice / CodeBytePricePrecision in
  (TransactionGasCost + gas)%u64.

Definition commonValidate (tx : Transaction) : outcome opError unit :=
  let size := dataLen (tx_Data tx) + dataLen (tx_ExtraData tx) in
  vguard (negb (txMaxSize <? size)) "tx size should not larger than the bound" ;;!
  vguard (bool_decide (is_Some (tx_Sign tx))) "tx sign nil".

Definition gasValidate (tx : Transaction) : outcome opError unit :=
  match tx_GasLimit tx, tx_GasPrice tx with
  | None, _ => verr "gas limit is nil"
  | Some gl, gpo =>
      vguard (isUint64 gl) "gas limit is not uint64" ;;!
      match gpo with
      | None => verr "gas price is nil"
      | Some gp =>
          vguard (isUint64 gp) "gas price is not uint64" ;;!
          vguard (negb (gasLimitPerTransaction <? gl)) "gas limit too high" ;;!
          vguard (negb (gl <? intrinsicGas tx)) "gas limit too low"
      end
  end.

Definition valueValidate (tx : Transaction) : outcome opError unit :=
  match tx_Value tx with
  | None => verr "value is nil"
  | Some v => vguard (isUint64 v) "value is not uint64"
  end.

Definition validGasPrice (gasPrice height : Z) : bool :=
  let times := height / adjustGasPricePeriod in
  let times := if adjustGasPriceTimes <? times then adjustGasPriceTimes else times in
  negb (gasPrice <? Z.shiftl initialMinGasPrice times).

Section validators.
Context `{MinerCodecs} `{SignEnv} `{Codec BlackOperator} `{ValidateEnv} `{Governor}
  `{RewardEnv} `{GroupSigEnv}.

Definition sourceRecover (tx : Transaction) : outcome opError unit :=
  match recoverAddress (default [] (tx_Sign tx)) (b32_bytes (tx_Hash tx)) with
  | None => verr "recover fail"
  | Some src =>
      given <-! oderef (tx_Source tx) ;;
      vguard (bool_decide (b32_bytes src = b32_bytes given)) "recovered source not equal to the given one"
  end.

Definition senderValidate (sender : Address) (db : World) (height : Z) : outcome opError unit :=
  vguard (negb (IsZIP003 height && governIsBlack db sender)) "sender cannot launch the transaction".

Definition needsValue (typ : Z) : bool :=
  (typ =? TransactionTypeTransfer) || (typ =? TransactionTypeContractCreate) ||
  (typ =? TransactionTypeContractCall) || (typ =? TransactionTypeStakeAdd).

Definition stateValidate (accountDB : World) (tx : Transaction) (height : Z) : outcome opError Z :=
  gp <-! oderef (tx_GasPrice tx) ;;
  gl <-! oderef (tx_GasLimit tx) ;;
  src <-! oderef (tx_Source tx) ;;
  let gasLimitFee := gp * gl in
  let balance := GetBalance accountDB src in
  vguard (negb (balance <? gasLimitFee)) "balance not enough for paying gas" ;;!
  (if needsValue (tx_Type tx) then
     v <-! oderef (tx_Value tx) ;;
     vguard (negb (balance <? gasLimitFee + v)) "balance not enough for paying gas and value"
   else Ok tt) ;;!
  vguard (validGasPrice gp height) "gas price below the lower bound" ;;!
  (if tx_Type tx =? TransactionTypeMinerAbort then Ok tt else senderValidate src accountDB height) ;;!
  Ok balance.

Definition transferValidator (tx : Transaction) : outcome opError unit :=
  vguard (bool_decide (is_Some (tx_Target tx))) "target is nil" ;;!
  valueValidate tx.

Definition minerTypeCheck (mt : Byte.byte) : outcome opError unit :=
  vguard (IsProposalRole mt || IsVerifyRole mt) "unknown miner type".

Definition stakeAddValidator (tx : Transaction) : outcome opError unit :=
  vguard (negb (dataLen (tx_Data tx) =? 0)) "data is empty" ;;!
  vguard (bool_decide (is_Some (tx_Target tx))) "target is nil" ;;!
  match DecodePayload (tx_Data tx) with
  | None => verr "payload error"
  | Some pks =>
      minerTypeCheck (pks_MType pks) ;;!
      valueValidate tx
  end.

(** [tx.Data[0]] of data whose length was just tested to be one. *)
Definition oneByte (tx : Transaction) : outcome opError Byte.byte :=
  match tx_Data tx with
  | [b] => Ok b
  | _ => verr "data length should be 1"
  end.

Definition minerAbortValidator (tx : Transaction) : outcome opError unit :=
  b <-! oneByte tx ;;
  minerTypeCheck b.

Definition stakeReduceValidator (tx : Transaction) : outcome opError unit :=
  b <-! oneByte tx ;;
  vguard (bool_decide (is_Some (tx_Target tx))) "target is nil" ;;!
  minerTypeCheck b ;;!
  match tx_Value tx with
  | None => verr "value is nil"
  | Some v =>
      vguard (isUint64 v) "value is not uint64" ;;!
      vguard (negb (v =? 0)) "value is 0"
  end.

Definition stakeRefundValidator (tx : Transaction) : outcome opError unit :=
  b <-! oneByte tx ;;
  vguard (bool_decide (is_Some (tx_Target tx))) "target is nil" ;;!
  minerTypeCheck b.

Definition applyGuardValidator (tx : Transaction) : outcome opError unit := Ok tt.

Definition voteMinerPoolValidator (tx : Transaction) : outcome opError unit :=
  vguard (bool_decide (is_Some (tx_Target tx))) "target is nil".

(** The first byte is read before the length is tested. *)
Definition changeFundGuardModeValidator (tx : Transaction) : outcome opError unit :=
  match tx_Data tx with
  | [] => Panic "index out of range"
  | md :: _ =>
      vguard (fundGuardModeCheck md) "unknown fund guard mode" ;;!
      src <-! oderef (tx_Source tx) ;;
      vguard (IsInExtractGuardNodes src) "operator addr is not in extract guard nodes" ;;!
      vguard (dataLen (tx_Data tx) =? 1) "data length should be 1"
  end.

Definition groupValidator (tx : Transaction) : outcome opError unit :=
  vguard (negb (dataLen (tx_Data tx) =? 0)) "data is empty" ;;!
  vguard (bool_decide (tx_Target tx = None)) "target should be nil".

Definition contractCreateValidator (tx : Transaction) : outcome opError unit :=
  vguard (negb (dataLen (tx_Data tx) =? 0)) "data is empty" ;;!
  vguard (bool_decide (tx_Target tx = None)) "target should be nil" ;;!
  valueValidate tx.

Definition contractCallValidator (tx : Transaction) : outcome opError unit :=
  vguard (negb (dataLen (tx_Data tx) =? 0)) "data is empty" ;;!
  vguard (bool_decide (is_Some (tx_Target tx))) "target is nil" ;;!
  valueValidate tx.

Definition rewardValidate (tx : Transaction) : outcome opError unit :=
  vguard (dataLen (tx_Data tx) =? 32) "data length should be 32bit" ;;!
  vguard (negb (dataLen (tx_ExtraData tx) =? 0)) "extra data empty" ;;!
  valueValidate tx ;;!
  VerifyRewardTransaction tx.

Definition blackUpdateValidate (tx : Transaction) (validateState : bool) : outcome opError unit :=
  vguard (IsZIP003 chainHeight) "unknown transaction type" ;;!
  vguard (negb (dataLen (tx_Data tx) =? 0)) "data is empty" ;;!
  src <-! oderef (tx_Source tx) ;;
  vguard (bool_decide (src = AdminAddr)) "cannot launch the kind of transaction" ;;!
  if validateState then
    match LatestAccountDB with
    | None => verr "fail get last state db"
    | Some db =>
        fst (decodeAndVerifyBlackUpdateTx (tx_Data tx) (tx_Source tx) (tx_Nonce tx) db) ;;! Ok tt
    end
  else Ok tt.

(** The [switch] on the transaction's type. *)
Definition typeValidator (tx : Transaction) (validateState : bool) : outcome opError unit :=
  let typ := tx_Type tx in
  if typ =? TransactionTypeTransfer then transferValidator tx
  else if typ =? TransactionTypeContractCreate then contractCreateValidator tx
  else if typ =? TransactionTypeContractCall then contractCallValidator tx
  else if typ =? TransactionTypeStakeAdd then stakeAddValidator tx
  else if typ =? TransactionTypeMinerAbort then minerAbortValidator tx
  else if typ =? TransactionTypeStakeReduce then stakeReduceValidator tx
  else if typ =? TransactionTypeStakeRefund then stakeRefundValidator tx
  else if typ =? TransactionTypeApplyGuardMiner then applyGuardValidator tx
  else if typ =? TransactionTypeVoteMinerPool then voteMinerPoolValidator tx
  else if typ =? TransactionTypeChangeFundGuardMode then changeFundGuardModeValidator tx
  else if (typ =? TransactionTypeGroupPiece) || (typ =? TransactionTypeGroupMpk)
          || (typ =? TransactionTypeGroupOriginPiece) then groupValidator tx
  else if typ =? TransactionTypeBlacklistUpdate then blackUpdateValidate tx validateState
  else verr "no such kind of tx".

Definition getValidator (tx : Transaction) (validateState : bool) : outcome opError unit :=
  commonValidate tx ;;!
  if IsReward tx then rewardValidate tx
  else
    gasValidate tx ;;!
    vguard (bool_decide (is_Some (tx_Source tx))) "source is nil" ;;!
    (if validateState then
       match LatestAccountDB with
       | None => verr "fail get last state db"
       | Some db => stateValidate db tx chainHeight ;;! Ok tt
       end
     else Ok tt) ;;!
    typeValidator tx validateState ;;!
    sourceRecover tx.
End validators.

(** ** Parsing after validation *)

(** [ParseTransaction] of the miner operations, by transaction type; [None] for
    the other types. *)
Definition minerOp_Parse (tx : Transaction) (height : Z) : option (WM minerOp) :=
  let typ := tx_Type tx in
  if typ =? TransactionTypeStakeAdd then Some (op <- stakeAdd_Parse tx height ;; ret (MStakeAdd op))
  else if typ =? TransactionTypeMinerAbort then Some (op <- minerAbort_Parse tx height ;; ret (MAbort op))
  else if typ =? TransactionTypeVoteMinerPool then Some (op <- voteMinerPool_Parse tx height ;; ret (MVote op))
  else if typ =? TransactionTypeStakeReduce then Some (op <- stakeReduce_Parse tx height ;; ret (MReduce op))
  else if typ =? TransactionTypeApplyGuardMiner then Some (op <- applyGuardMiner_Parse tx height ;; ret (MApplyGuard op))
  else if typ =? TransactionTypeStakeRefund then Some (op <- stakeRefund_Parse tx height ;; ret (MRefund op))
  else if typ =? TransactionTypeChangeFundGuardMode then
    Some (op <- changeFundGuardMode_Parse tx height ;; ret (MChangeMode op))
  else None.

(** Take a successful validation apart. *)
Ltac vinv H :=
  repeat match type of H with
  | obind _ _ = Ok _ =>
      let x := fresh "x" in let Hx := fresh "Hv" in
      apply obind_Ok_inv in H as (x & Hx & H); match type of x with unit => destruct x | _ => idtac end
  | vguard _ _ = Ok _ => apply oguard_Ok_inv in H
  end.

Lemma role_check mt : IsProposalRole mt || IsVerifyRole mt = true -> role mt.
Proof.
  unfold IsProposalRole, IsVerifyRole. intros [E|E]%orb_true_iff; apply bool_decide_eq_true in E;
    [by right|by left].
Qed.

Lemma minerTypeCheck_Ok mt : minerTypeCheck mt = Ok tt -> role mt.
Proof. intros E. apply oguard_Ok_inv in E. by apply role_check. Qed.

Lemma oneByte_Ok tx b : oneByte tx = Ok b -> tx_Data tx = [b].
Proof. unfold oneByte. destruct (tx_Data tx) as [|? []]; naive_solver. Qed.

(** Resolve the [switch] for a known type. *)
Ltac select_type H E :=
  rewrite E in H;
  lazy beta iota zeta delta [Z.eqb Pos.eqb orb TransactionTypeTransfer TransactionTypeContractCreate
    TransactionTypeContractCall TransactionTypeStakeAdd TransactionTypeMinerAbort TransactionTypeStakeReduce
    TransactionTypeStakeRefund TransactionTypeApplyGuardMiner TransactionTypeVoteMinerPool
    TransactionTypeChangeFundGuardMode] in H.

Section validated.
Context `{MinerCodecs} `{SignEnv} `{Codec BlackOperator} `{ValidateEnv} `{Governor}
  `{RewardEnv} `{GroupSigEnv}.
Implicit Types (tx : Transaction).

(** What admission gives for a transaction that is not a reward. *)
Lemma getValidator_inv tx vs :
  getValidator tx vs = Ok tt -> tx_Type tx <> TransactionTypeReward ->
  is_Some (tx_Source tx) /\ gasValidate tx = Ok tt /\ typeValidator tx vs = Ok tt /\
  sourceRecover tx = Ok tt.
Proof.
  unfold getValidator, IsReward. intros Hv Hty. vinv Hv.
  destruct (Z.eqb_spec (tx_Type tx) TransactionTypeReward); [done|]. vinv Hv.
  match goal with E : vguard (bool_decide (is_Some _)) _ = _ |- _ =>
    apply oguard_Ok_inv, bool_decide_eq_true in E end. done.
Qed.

Lemma parse_valid tx vs h p w :
  is_Some (tx_Source tx) -> typeValidator tx vs = Ok tt -> minerOp_Parse tx h = Some p ->
  wp False p w (fun op w' => w' = w /\ minerOp_valid op).
Proof.
  intros [src Hsrc] Hty Hp. unfold minerOp_Parse, typeValidator in *.
  destruct (Z.eqb_spec (tx_Type tx) TransactionTypeStakeAdd) as [E|].
  { select_type Hty E. injection Hp as <-. unfold stakeAddValidator in Hty. vinv Hty.
    unfold stakeAdd_Parse. destruct (DecodePayload (tx_Data tx)) as [pks|]; [|done]. vinv Hty.
    unfold valueValidate in Hty. destruct (tx_Value tx); [|done].
    rewrite Hsrc. destruct (tx_Target tx) as [tgt|]; [|done]. unfold deref, parseErr.
    wsteps. split; [done|]. split; [by apply minerTypeCheck_Ok|apply wrap64_ok]. }
  destruct (Z.eqb_spec (tx_Type tx) TransactionTypeMinerAbort) as [E|].
  { select_type Hty E. injection Hp as <-. unfold minerAbortValidator in Hty. vinv Hty.
    match goal with E : oneByte _ = _ |- _ => apply oneByte_Ok in E as Hd end.
    unfold minerAbort_Parse, payload0. rewrite Hd, Hsrc. unfold deref. wsteps.
    split; [done|]. by apply minerTypeCheck_Ok. }
  destruct (Z.eqb_spec (tx_Type tx) TransactionTypeVoteMinerPool) as [E|].
  { injection Hp as <-. unfold voteMinerPool_Parse, parseErr. rewrite Hsrc. unfold deref. by wsteps. }
  destruct (Z.eqb_spec (tx_Type tx) TransactionTypeStakeReduce) as [E|].
  { select_type Hty E. injection Hp as <-. unfold stakeReduceValidator in Hty. vinv Hty.
    match goal with E : oneByte _ = _ |- _ => apply oneByte_Ok in E as Hd end.
    unfold stakeReduce_Parse, payload0. rewrite Hd, Hsrc.
    destruct (tx_Value tx); [|done]. destruct (tx_Target tx) as [tgt|]; [|done]. unfold deref. wsteps.
    split; [done|]. split; [by apply minerTypeCheck_Ok|apply wrap64_ok]. }
  destruct (Z.eqb_spec (tx_Type tx) TransactionTypeApplyGuardMiner) as [E|].
  { injection Hp as <-. unfold applyGuardMiner_Parse. rewrite Hsrc. unfold deref. by wsteps. }
  destruct (Z.eqb_spec (tx_Type tx) TransactionTypeStakeRefund) as [E|].
  { select_type Hty E. injection Hp as <-. unfold stakeRefundValidator in Hty. vinv Hty.
    match goal with E : oneByte _ = _ |- _ => apply oneByte_Ok in E as Hd end.
    unfold stakeRefund_Parse, payload0. rewrite Hd, Hsrc.
    destruct (tx_Target tx) as [tgt|]; [|done]. unfold deref. by wsteps. }
  destruct (Z.eqb_spec (tx_Type tx) TransactionTypeChangeFundGuardMode) as [E|]; [|done].
  injection Hp as <-. unfold changeFundGuardMode_Parse, parseErr. rewrite Hsrc. unfold deref. by wsteps.
Qed.
End validated.

Lemma minerOp_Parse_readonly tx h p : minerOp_Parse tx h = Some p -> readonly p.
Proof.
  unfold minerOp_Parse. intros Hp.
  repeat (match type of Hp with context [Z.eqb ?a ?b] => destruct (Z.eqb a b) end;
    [injection Hp as <-;
     unfold stakeAdd_Parse, minerAbort_Parse, voteMinerPool_Parse, stakeReduce_Parse, applyGuardMiner_Parse,
       stakeRefund_Parse, changeFundGuardMode_Parse, payload0, deref, nilDeref, parseErr; readonly_tac|]).
  done.
Qed.

(** ** Properties *)

(** C24: a miner transaction that passed validation,
    parsed and run by the miner manager on a balanced ledger, never panics and
    leaves a balanced ledger with the same number of coins. *)
Theorem validated_tx_conserves `{MinerCodecLaws} `{ChainEnv} `{SignEnv} `{Codec BlackOperator} `{ValidateEnv}
    `{Governor} `{RewardEnv} `{GroupSigEnv} tx vs h p S w :
  getValidator tx vs = Ok tt -> minerOp_Parse tx h = Some p -> MinerInv S w ->
  settles (executeOperation p minerOp_Transition) w (MinerInv S).
Proof.
  intros Hv Hp I.
  assert (tx_Type tx <> TransactionTypeReward) as Hty.
  { intros E. unfold minerOp_Parse in Hp. by rewrite E in Hp. }
  apply getValidator_inv in Hv as (Hsrc & _ & Htv & _); [|done].
  apply executeOperation_settles; [by eapply minerOp_Parse_readonly|done|].
  eapply wp_mono; [by eapply parse_valid|]. intros op w' [-> Hop]. by apply minerOp_inv.
Qed.

(** A transaction admitted against a state has a
    sender whose balance covers the whole gas limit at its price, plus the value
    when the type moves one, and a gas price at the height's lower bound. *)
Theorem stateValidate_covers `{Governor} db tx h balance :
  0 <= h -> stateValidate db tx h = Ok balance ->
  exists src gp gl, tx_Source tx = Some src /\ tx_GasPrice tx = Some gp /\ tx_GasLimit tx = Some gl /\
    balance = GetBalance db src /\ gp * gl <= balance /\
    (needsValue (tx_Type tx) = true -> exists v, tx_Value tx = Some v /\ gp * gl + v <= balance) /\
    initialMinGasPrice * 2 ^ Z.min (h / adjustGasPricePeriod) adjustGasPriceTimes <= gp.
Proof.
  unfold stateValidate. intros Hh Hs.
  destruct (tx_GasPrice tx) as [gp|]; [|done]. destruct (tx_GasLimit tx) as [gl|]; [|done].
  destruct (tx_Source tx) as [src|]; [|done]. cbn [obind oderef] in Hs. vinv Hs.
  apply oguard_Ok_inv in Hv. apply oguard_Ok_inv in Hv1. injection Hs as <-.
  exists src, gp, gl. split_and!; try done; [lia|..].
  - intros Hn. rewrite Hn in Hv0. destruct (tx_Value tx) as [v|]; [|done]. cbn [obind oderef] in Hv0.
    apply oguard_Ok_inv in Hv0. exists v. split; [done|lia].
  - unfold validGasPrice in Hv1. set (times := if _ <? _ then _ else _) in Hv1.
    assert (times = Z.min (h / adjustGasPricePeriod) adjustGasPriceTimes) as <-.
    { unfold times. destruct (Z.ltb_spec adjustGasPriceTimes (h / adjustGasPricePeriod)); lia. }
    rewrite Z.shiftl_mul_pow2 in Hv1; [lia|].
    unfold times. destruct (adjustGasPriceTimes <? _); [done|]. by apply Z.div_pos.
Qed.

(** Validation against the state dereferences the value
    before testing it for nil: a well-formed transfer, contract or stake-add
    transaction without a value, from a sender who can pay its gas, ends
    validation in a panic instead of an error. *)
Theorem nil_value_panics `{MinerCodecs} `{SignEnv} `{Codec BlackOperator} `{ValidateEnv} `{Governor}
    `{RewardEnv} `{GroupSigEnv} tx db src gp gl :
  LatestAccountDB = Some db -> commonValidate tx = Ok tt -> gasValidate tx = Ok tt ->
  tx_Source tx = Some src -> tx_GasPrice tx = Some gp -> tx_GasLimit tx = Some gl ->
  gp * gl <= GetBalance db src -> needsValue (tx_Type tx) = true -> tx_Value tx = None ->
  getValidator tx true = Panic "nil pointer dereference".
Proof.
  intros Hdb Hc Hg Hs Hp Hl Hb Hn Hv.
  assert (IsReward tx = false) as Hr.
  { unfold IsReward, needsValue in *. destruct (Z.eqb_spec (tx_Type tx) TransactionTypeReward) as [E|]; [|done].
    by rewrite E in Hn. }
  unfold getValidator. rewrite Hc. cbn [obind]. rewrite Hr, Hg. cbn [obind]. rewrite Hs. cbn [obind].
  rewrite bool_decide_eq_true_2 by done. rewrite Hdb.
  assert (stateValidate db tx chainHeight = Panic "nil pointer dereference") as ->; [|done].
  unfold stateValidate. rewrite Hs, Hp, Hl. cbn [obind oderef].
  destruct (Z.ltb_spec (GetBalance db src) (gp * gl)); [lia|]. by rewrite Hn, Hv.
Qed.

(** The validator of fund-guard mode changes reads the
    first data byte before it tests the length: with empty data it panics. *)
Theorem change_mode_panics `{MinerCodecs} `{SignEnv} `{Codec BlackOperator} `{ValidateEnv} `{Governor}
    `{RewardEnv} `{GroupSigEnv} tx :
  commonValidate tx = Ok tt -> gasValidate tx = Ok tt -> is_Some (tx_Source tx) ->
  tx_Type tx = TransactionTypeChangeFundGuardMode -> tx_Data tx = [] ->
  getValidator tx false = Panic "index out of range".
Proof.
  intros Hc Hg Hs Ht Hd. unfold getValidator, IsReward. rewrite Hc, Ht, Hg. cbn [obind Z.eqb].
  rewrite bool_decide_eq_true_2 by done. unfold typeValidator, changeFundGuardModeValidator.
  by rewrite Ht, Hd.
Qed.

(** ** Examples *)

Definition anySigner : SignEnv := {| recoverAddress _ _ := Some alice |}.
Definition sampleChain : ValidateEnv := {|
  LatestAccountDB := Some sampleWorld; chainHeight := 7; AdminAddr := bob; IsInExtractGuardNodes _ := true |}.
Definition noBlacks : Governor := {| governIsBlack _ _ := false |}.

Definition userTx (typ : Z) (data : bytes) (value : option Z) : Transaction := {|
  tx_Data := data; tx_Value := value; tx_Nonce := 1; tx_Target := Some alice; tx_Type := typ;
  tx_GasLimit := Some 1000; tx_GasPrice := Some 500; tx_ExtraData := []; tx_Sign := Some [Byte.x01];
  tx_Source := Some alice; tx_Hash := zeroB32 |}.
Definition stakeTx : Transaction :=
  userTx TransactionTypeStakeAdd (EncodePayload samplePks) (Some (600 * ZVC)).

#[local] Existing Instances bit_codecs bit_codecs_laws sampleEnv anySigner sampleChain noBlacks
  sampleGroup sampleSigs blackCodec.

Lemma validated_tx_conserves_witness :
  exists p, minerOp_Parse stakeTx 7 = Some p /\ fst (executeOperation p minerOp_Transition sampleWorld) = Ok true /\
    settles (executeOperation p minerOp_Transition) sampleWorld (MinerInv (10000 * ZVC)).
Proof.
  eexists. split; [reflexivity|]. split; [vm_compute; reflexivity|].
  apply (validated_tx_conserves stakeTx false 7); [vm_compute; reflexivity|reflexivity|by apply MinerInv_fresh].
Defined.

Lemma stateValidate_covers_witness :
  stateValidate sampleWorld stakeTx 7 = Ok (10000 * ZVC) /\
  exists src gp gl, tx_Source stakeTx = Some src /\ tx_GasPrice stakeTx = Some gp /\
    tx_GasLimit stakeTx = Some gl /\ gp * gl <= 10000 * ZVC.
Proof.
  split; [vm_compute; reflexivity|].
  destruct (stateValidate_covers sampleWorld stakeTx 7 (10000 * ZVC)) as (src & gp & gl & ? & ? & ? & _ & ? & _);
    [lia|vm_compute; reflexivity|].
  by exists src, gp, gl.
Defined.

Lemma nil_value_panics_witness :
  getValidator (userTx TransactionTypeTransfer [] None) true = Panic "nil pointer dereference".
Proof.
  apply (nil_value_panics (userTx TransactionTypeTransfer [] None) sampleWorld alice 500 1000); try reflexivity.
  vm_compute. discriminate.
Defined.

Lemma change_mode_panics_witness :
  getValidator (userTx TransactionTypeChangeFundGuardMode [] None) false = Panic "index out of range".
Proof. apply change_mode_panics; try reflexivity. by eexists. Defined.
