(* ===== verification/Transition.v ===== *)
(** * Transition: executing a transaction

    [src/core/state_processor.go], up to [applyStateTransition]: the operation of
    a transaction by its type, its parsing, its transition inside a snapshot, and
    the gas that is taken before and given back after. *)
From S2P Require Import Prelude Bytes Sha256 World Types MinerBase MinerOps MinerManager MinerTheorems.
From S2P Require Import Group Rewards RewardVerify Govern TxValidate Tvm.
Local Open Scope Z_scope.
Local Open Scope zv_scope.

(** [result]; [err] with its message. *)
Record result := mkRes {
  cumulativeGasUsed : Z;
  transitionStatus : ReceiptStatus;
  err : option bytes;
  logs : list Log;
  contractAddress : Address;
}.

Definition newResult : result := mkRes 0 RSSuccess None [] zeroB32.
Definition setError (msg : bytes) (status : ReceiptStatus) (r : result) : result :=
  mkRes (cumulativeGasUsed r) status (Some msg) (logs r) (contractAddress r).
Definition setResultLogs (l : list Log) (r : result) : result :=
  mkRes (cumulativeGasUsed r) (transitionStatus r) (err r) l (contractAddress r).
Definition setContractAddress (a : Address) (r : result) : result :=
  mkRes (cumulativeGasUsed r) (transitionStatus r) (err r) (logs r) a.
Definition setGasUsed (g : Z) (r : result) : result :=
  mkRes g (transitionStatus r) (err r) (logs r) (contractAddress r).

(** The operations, parsed; the transition context keeps the transaction and the
    header. *)
Inductive parsedOp :=
| OpTransfer (source target : Address) (value : option Z)
| OpCreate (source : Address)
| OpCall
| OpMiner (op : minerOp)
| OpGroup (op : groupOp)
| OpBlack (op : BlackOperator).

Section transition.
Context `{MinerCodecs} `{ChainEnv} `{SignEnv} `{Codec BlackOperator} `{Governor} `{RewardEnv} `{GroupSigEnv}.
Context `{GroupCodecs} `{GroupCreateChecker} `{TvmLib} `{Json} `{ChainReader}.

(** The account database and the C library, whose state outlives a snapshot. *)
Record ExecState := mkExec { es_db : World; es_vm : vmState }.
Abbreviation EM := (M ExecState opError).
(** A transition reports its error in the result. *)
Abbreviation TM := (M ExecState Empty_set).

Definition setDB (w : World) (s : ExecState) : ExecState := mkExec w (es_vm s).

(** Code that only works on the accounts. *)
Definition onWorld {A} (m : WM A) : EM A := fun s =>
  let '(o, w) := m (es_db s) in (o, setDB w s).

(** A change of the accounts. *)
Definition onAccounts {E} (f : World -> World) : M ExecState E unit := modify (fun s => setDB (f (es_db s)) s).

(** [Amount]: nil when the transaction has no value; its [Sign] panics then. *)
Definition Amount (tx : Transaction) : option Z := tx_Value tx.

(** ** Parsing *)

Definition groupType (typ : Z) : bool :=
  (typ =? TransactionTypeGroupPiece) || (typ =? TransactionTypeGroupMpk) || (typ =? TransactionTypeGroupOriginPiece).

(** [getOpByType] with [ParseTransaction] of the operation it selects. *)
Definition ParseTransaction (tx : Transaction) (height : Z) : WM parsedOp :=
  let typ := tx_Type tx in
  if typ =? TransactionTypeTransfer then
    target <- deref (tx_Target tx) ;;
    source <- deref (tx_Source tx) ;;
    ret (OpTransfer source target (Amount tx))
  else if typ =? TransactionTypeContractCreate then
    source <- deref (tx_Source tx) ;;
    ret (OpCreate source)
  else if typ =? TransactionTypeContractCall then ret OpCall
  else
    match minerOp_Parse tx height with
    | Some parse => op <- parse ;; ret (OpMiner op)
    | None =>
        if groupType typ then op <- NewOperation_Parse tx height ;; ret (OpGroup op)
        else if typ =? TransactionTypeBlacklistUpdate then op <- blackUpdateTx_Parse tx ;; ret (OpBlack op)
        else fail (errOf "unSupported tx type" RSParseFail)
    end.

(** Every operation but [unSupported] embeds the transition context. *)
Definition supported (typ : Z) : bool :=
  (typ =? TransactionTypeTransfer) || (typ =? TransactionTypeContractCreate) || (typ =? TransactionTypeContractCall) ||
  (typ =? TransactionTypeStakeAdd) || (typ =? TransactionTypeMinerAbort) || (typ =? TransactionTypeVoteMinerPool) ||
  (typ =? TransactionTypeStakeReduce) || (typ =? TransactionTypeApplyGuardMiner) || (typ =? TransactionTypeStakeRefund) ||
  (typ =? TransactionTypeChangeFundGuardMode) || groupType typ || (typ =? TransactionTypeBlacklistUpdate).

(** ** Transitions *)

Definition transfer (source target : Address) (amount : option Z) : TM bool :=
  v <- lift (oderef amount) ;;
  if negb (needTransfer v) then ret true
  else
    can <- gets (fun s => CanTransfer (es_db s) source v) ;;
    if can : bool then
      onAccounts (Transfer source target v) ;;;
      ret true
    else ret false.

Definition txTransfer_Transition (source target : Address) (value : option Z) : TM result :=
  v <- lift (oderef value) ;;
  if needTransfer v then
    can <- gets (fun s => CanTransfer (es_db s) source v) ;;
    if can : bool then
      onAccounts (Transfer source target v) ;;;
      ret newResult
    else ret (setError (str "balance not enough") RSBalanceNotEnough newResult)
  else ret newResult.

(** An operation that reports its error in the result. *)
Definition resultOf (m : WM unit) : TM result := fun s =>
  let '(o, w) := m (es_db s) in
  match o with
  | Ok _ => (Ok newResult, setDB w s)
  | Err e => (Ok (setError (str (e_msg e)) (e_status e) newResult), setDB w s)
  | Panic msg => (Panic msg, setDB w s)
  end.

(** [GetCodeHash] is the zero hash for a missing account only. *)
Definition createContract (tx : Transaction) : TM (option Address) := fun s =>
  match tx_Source tx with
  | None => (Panic "nil pointer dereference", s)
  | Some operator =>
      let contractAddr := BytesToAddress (Sha256 (BytesCombine [b32_bytes operator; Uint64ToByte (tx_Nonce tx)])) in
      if Exist (es_db s) contractAddr then (Ok None, s)
      else (Ok (Some contractAddr),
            setDB (SetNonce contractAddr 1 (SetCode contractAddr (tx_Data tx) (CreateAccount contractAddr (es_db s)))) s)
  end.

(** The controller's package works on its own view of the state. *)
Definition inTvm {A} (con : Controller) (m : M TvmState Empty_set A) : TM (A * Controller) := fun s =>
  match m (mkTvmState con (es_db s) (es_vm s)) with
  | (Ok x, t) => (Ok (x, ts_con t), mkExec (ts_db t) (ts_vm t))
  | (Err e, _) => match e with end
  | (Panic msg, t) => (Panic msg, mkExec (ts_db t) (ts_vm t))
  end.

Definition createErrStatus (code : Z) : ReceiptStatus :=
  if code =? TVMGasNotEnoughError then RSGasNotEnoughError else RSTvmError.
Definition callErrStatus (code : Z) : ReceiptStatus :=
  if code =? TVMCheckABIError then RSAbiError
  else if code =? TVMGasNotEnoughError then RSGasNotEnoughError else RSTvmError.
Definition vmOutcome (status : Z -> ReceiptStatus) (out : option ExecuteResult * list Log * option TransactionError)
    : result :=
  let r := setResultLogs out.1.2 newResult in
  match out.2 with
  | Some e => setError (te_Message e) (status (te_Code e)) r
  | None => r
  end.

(** The result and the gas used: the limit less what the controller has left. *)
Definition contractCreator_Transition (tx : Transaction) (bh : BlockHeader) (source : Address) (intrinsic : Z)
    : TM (result * Z) :=
  s0 <- get ;;
  t0 <- lift (NewController (Some bh) tx (wrap64 intrinsic) (es_db s0) (es_vm s0)) ;;
  let con0 := ts_con t0 in
  addr <- createContract tx ;;
  rc <- match addr with
        | None => ret (setError (str "contract address conflict") RSFail newResult, con0)
        | Some a =>
            c <- inTvm con0 (LoadContract a) ;;
            isTransferSuccess <- transfer source (c_ContractAddress c.1) (Amount tx) ;;
            if isTransferSuccess : bool then
              out <- inTvm con0 (Deploy c.1) ;;
              ret (vmOutcome createErrStatus out.1, out.2)
            else ret (setError (str "balance not enough") RSBalanceNotEnough newResult, con0)
        end ;;
  let gasLimit := default 0 (tx_GasLimit tx) in
  ret (setContractAddress (default zeroB32 addr) rc.1, gasLimit - con_GasLeft rc.2).

Definition contractCaller_Transition (tx : Transaction) (bh : BlockHeader) (intrinsic : Z) : TM (result * Z) :=
  s0 <- get ;;
  t0 <- lift (NewController (Some bh) tx (wrap64 intrinsic) (es_db s0) (es_vm s0)) ;;
  let con0 := ts_con t0 in
  target <- lift (oderef (tx_Target tx)) ;;
  c <- inTvm con0 (LoadContract target) ;;
  rc <- (if bool_decide (c_Code c.1 = []) then
           ret (setError (str "no code at the given address") RSNoCodeError newResult, con0)
         else
           operator <- lift (oderef (tx_Source tx)) ;;
           isTransferSuccess <- transfer operator (c_ContractAddress c.1) (Amount tx) ;;
           if isTransferSuccess : bool then
             out <- inTvm con0 (ExecuteAbiEval (tx_Source tx) c.1 (tx_Data tx)) ;;
             ret (vmOutcome callErrStatus out.1, out.2)
           else ret (setError (str "balance not enough") RSBalanceNotEnough newResult, con0)) ;;
  let gasLimit := default 0 (tx_GasLimit tx) in
  ret (rc.1, gasLimit - con_GasLeft rc.2).

(** The transition of a parsed operation, with the gas it used. *)
Definition opTransition (tx : Transaction) (bh : BlockHeader) (op : parsedOp) : TM (result * Z) :=
  let intrinsic := intrinsicGas tx in
  let fixed m := r <- m ;; ret (r, intrinsic) in
  match op with
  | OpTransfer src tgt v => fixed (txTransfer_Transition src tgt v)
  | OpCreate src => contractCreator_Transition tx bh src intrinsic
  | OpCall => contractCaller_Transition tx bh intrinsic
  | OpMiner op => fixed (resultOf (minerOp_Transition op))
  | OpGroup op => fixed (resultOf (fun w =>
      match Operation op w with (Err e, w') => (Err (mkErr (e_msg e) RSFail), w') | r => r end))
  | OpBlack op => fixed (resultOf (blackUpdateTx_Transition op))
  end.

(** ** The reward transaction *)

Record rewardOp := mkRewardOp {
  ro_blockHash : Hash; ro_targets : list Address; ro_reward : option Z; ro_packFee : Z; ro_proposal : Address }.

Definition rewardExecutor_Parse (tx : Transaction) (bh : BlockHeader) : WM rewardOp :=
  pr <- lift (ParseRewardTransaction tx) ;;
  match QueryBlockHeaderByHash (pr_blockHash pr) with
  | None => fail (errOf "block not exist" RSFail)
  | Some _ =>
      rewarded <- gets (fun w => HasRewardedOfBlock w (pr_blockHash pr)) ;;
      if rewarded : bool then fail (errOf "reward transaction already executed" RSFail)
      else ret (mkRewardOp (pr_blockHash pr) (map BytesToAddress (pr_targets pr)) (Amount tx) (pr_packFee pr)
                  (BytesToAddress (bh_Castor bh)))
  end.

Definition rewardExecutor_Transition (tx : Transaction) (op : rewardOp) : TM result :=
  for_each (ro_targets op) (fun a => v <- lift (oderef (ro_reward op)) ;; onAccounts (AddBalance a v)) ;;;
  onAccounts (AddBalance (ro_proposal op) (ro_packFee op)) ;;;
  onAccounts (MarkBlockRewarded (ro_blockHash op) (tx_Hash tx)) ;;;
  ret newResult.

(** ** Applying a transaction *)

Definition validateNonce (w : World) (tx : Transaction) : outcome opError bool :=
  if tx_Type tx =? TransactionTypeReward then Ok true
  else
    src <-! oderef (tx_Source tx) ;;
    Ok (tx_Nonce tx =? (GetNonce w src + 1)%u64).

Definition checkState (w : World) (tx : Transaction) (height : Z) : outcome opError unit :=
  ok <-! validateNonce w tx ;;
  vguard ok "nonce error" ;;!
  stateValidate w tx height ;;!
  Ok tt.

(** The transition inside its snapshot: an error puts the accounts back. *)
Definition doTransition {A} (getResult : A -> result) (m : TM A) : EM A := fun s =>
  match m s with
  | (Ok r, s') => (Ok r, if decide (is_Some (err (getResult r))) then setDB (es_db s) s' else s')
  | (Err e, _) => match e with end
  | (Panic msg, s') => (Panic msg, s')
  end.

(** [ParseTransaction] and [doTransition] of an operation, with the gas used: a
    transaction that does not parse still pays. *)
Definition executeParsed (tx : Transaction) (bh : BlockHeader) : EM (result * Z) := fun s =>
  match onWorld (ParseTransaction tx (bh_Height bh)) s with
  | (Ok op, s') => doTransition fst (opTransition tx bh op) s'
  | (Err e, s') =>
      (Ok (setError (str (e_msg e)) RSParseFail newResult, if supported (tx_Type tx) then intrinsicGas tx else 0), s')
  | (Panic msg, s') => (Panic msg, s')
  end.

(** The transactions that never reach a block are the errors of this function. *)
Definition applyStateTransition (tx : Transaction) (bh : BlockHeader) : EM result :=
  if IsReward tx then
    op <- onWorld (rewardExecutor_Parse tx bh) ;;
    doTransition id (rewardExecutor_Transition tx op)
  else
    w <- gets es_db ;;
    lift (checkState w tx (bh_Height bh)) ;;;
    gl <- lift (oderef (tx_GasLimit tx)) ;;
    gp <- lift (oderef (tx_GasPrice tx)) ;;
    src <- lift (oderef (tx_Source tx)) ;;
    onAccounts (SubBalance src (gl * gp)) ;;;
    rg <- executeParsed tx bh ;;
    (if rg.2 <? gl then onAccounts (AddBalance src ((gl - rg.2) * gp)) else ret tt) ;;;
    ret (setGasUsed rg.2 rg.1).
End transition.
