(* ===== verification/TransitionTheorems.v ===== *)
(** * TransitionTheorems: executing a transaction conserves coins

    Every admitted transaction, of whatever type, is executed without a panic on a
    balanced ledger, and leaves a balanced ledger from which exactly the price of
    the gas it used is gone; a reward transaction adds exactly what it pays, and
    is executed once per block. *)
From S2P Require Import Prelude Bytes Sha256 World Types MinerBase MinerOps MinerView MinerInv MinerSafe MinerManager.
From S2P Require Import MinerTheorems Group Tvm TvmSafe Supply Rewards RewardVerify Govern TxValidate.
From S2P Require Import Present Transition.
Local Open Scope Z_scope.
Local Open Scope zv_scope.

(** ** Parsing changes nothing *)

Lemma readonly_lift {S E A} (o : outcome E A) : readonly (S:=S) (lift o).
Proof. by destruct o. Qed.
Lemma readonly_deref {A} (p : option A) : readonly (deref p).
Proof. unfold deref, nilDeref. by destruct p. Qed.
Lemma readonly_check err : readonly (check err).
Proof. by destruct err. Qed.
Lemma readonly_for_each {S E A} (body : A -> M S E unit) l :
  (forall x, readonly (body x)) -> readonly (for_each l body).
Proof. intros Hb. induction l; simpl; [done|]. by apply readonly_bind. Qed.
Lemma readonly_collect {A B} (l : list A) (f : A -> WM (option B)) :
  (forall x, readonly (f x)) -> readonly (collect l f).
Proof.
  intros Hf. induction l as [|x l IH]; simpl; [done|].
  apply readonly_bind; [done|intros o]. apply readonly_bind; [done|by intros].
Qed.
#[export] Hint Resolve readonly_lift readonly_deref readonly_check : zv.

Section parse.
Context `{MinerCodecs} `{SignEnv} `{Codec BlackOperator}.

Lemma getAllGuardNodes_readonly : readonly getAllGuardNodes.
Proof.
  unfold getAllGuardNodes, GetAllGuardNodeAddrs, GetAllFundStakeGuardNodes. readonly_tac.
  apply readonly_collect. intros x. destruct (Unmarshal x.2); auto with zv.
Qed.

Lemma blackUpdateTx_Parse_readonly tx : readonly (blackUpdateTx_Parse tx).
Proof.
  pose proof getAllGuardNodes_readonly.
  unfold blackUpdateTx_Parse, decodeAndVerifyBlackUpdateTx. readonly_tac.
  apply readonly_for_each. intros sig. unfold checkSign. readonly_tac.
Qed.
End parse.

Lemma NewOperation_Parse_readonly `{GroupCodecs} `{GroupCreateChecker} tx h : readonly (NewOperation_Parse tx h).
Proof.
  unfold NewOperation_Parse, sendPiece_Parse, sendMpk_Parse, sendOriginPiece_Parse, packet. readonly_tac.
Qed.

Lemma ParseTransaction_readonly `{MinerCodecs} `{SignEnv} `{Codec BlackOperator} `{GroupCodecs}
    `{GroupCreateChecker} tx h : readonly (ParseTransaction tx h).
Proof.
  pose proof (blackUpdateTx_Parse_readonly tx). pose proof (NewOperation_Parse_readonly tx h).
  unfold ParseTransaction. destruct (minerOp_Parse tx h) as [p|] eqn:Ep.
  - pose proof (minerOp_Parse_readonly tx h p Ep). readonly_tac.
  - readonly_tac.
Qed.

(** ** What admission gives *)

Record admitted (tx : Transaction) (gl gp : Z) : Prop := {
  ad_src : is_Some (tx_Source tx);
  ad_gl : tx_GasLimit tx = Some gl;
  ad_gp : tx_GasPrice tx = Some gp;
  ad_gas : intrinsicGas tx <= gl <= gasLimitPerTransaction;
  ad_price : 0 <= gp;
  ad_value : needsValue (tx_Type tx) = true -> is_Some (tx_Value tx);
  ad_target : tx_Type tx = TransactionTypeTransfer \/ tx_Type tx = TransactionTypeContractCall -> is_Some (tx_Target tx);
  ad_supported : supported (tx_Type tx) = true;
}.

Section admission.
Context `{MinerCodecs} `{SignEnv} `{Codec BlackOperator} `{ValidateEnv} `{Governor} `{RewardEnv} `{GroupSigEnv}.

Lemma valueValidate_Some tx : valueValidate tx = Ok tt -> is_Some (tx_Value tx).
Proof. unfold valueValidate. by destruct (tx_Value tx). Qed.

Lemma is_Some_guard {A} (o : option A) msg : vguard (bool_decide (is_Some o)) msg = Ok tt -> is_Some o.
Proof. intros E. by apply oguard_Ok_inv, bool_decide_eq_true in E. Qed.

Lemma typeValidator_value tx vs : typeValidator tx vs = Ok tt -> needsValue (tx_Type tx) = true -> is_Some (tx_Value tx).
Proof.
  unfold typeValidator, needsValue. intros Hv Hn.
  rewrite !orb_true_iff, !Z.eqb_eq in Hn. destruct Hn as [[[E|E]|E]|E]; select_type Hv E.
  - unfold transferValidator in Hv. vinv Hv. by apply valueValidate_Some.
  - unfold contractCreateValidator in Hv. vinv Hv. by apply valueValidate_Some.
  - unfold contractCallValidator in Hv. vinv Hv. by apply valueValidate_Some.
  - unfold stakeAddValidator in Hv. vinv Hv. destruct (DecodePayload _); [|done]. vinv Hv. by apply valueValidate_Some.
Qed.

Lemma typeValidator_target tx vs : typeValidator tx vs = Ok tt ->
  tx_Type tx = TransactionTypeTransfer \/ tx_Type tx = TransactionTypeContractCall -> is_Some (tx_Target tx).
Proof.
  unfold typeValidator. intros Hv [E|E]; select_type Hv E.
  - unfold transferValidator in Hv. vinv Hv. by eapply is_Some_guard.
  - unfold contractCallValidator in Hv. vinv Hv. by eapply is_Some_guard.
Qed.

Lemma typeValidator_supported tx vs : typeValidator tx vs = Ok tt -> supported (tx_Type tx) = true.
Proof.
  unfold typeValidator, supported, groupType. intros Hv.
  do 13 (match type of Hv with context [?x =? ?y] => destruct (Z.eqb_spec x y) end;
    [by rewrite ?orb_true_r|]). by destruct (_ =? _); rewrite ?orb_true_r.
Qed.

Lemma gasValidate_inv tx : gasValidate tx = Ok tt ->
  exists gl gp, tx_GasLimit tx = Some gl /\ tx_GasPrice tx = Some gp /\
    intrinsicGas tx <= gl <= gasLimitPerTransaction /\ 0 <= gp.
Proof.
  unfold gasValidate. destruct (tx_GasLimit tx) as [gl|]; [|done]. intros Hv. vinv Hv.
  destruct (tx_GasPrice tx) as [gp|]; [|done]. vinv Hv.
  repeat match goal with E : vguard _ _ = Ok _ |- _ => apply oguard_Ok_inv in E end.
  exists gl, gp. unfold isUint64 in *. split_and!; try done; lia.
Qed.

Lemma validated_admitted tx vs :
  getValidator tx vs = Ok tt -> IsReward tx = false -> exists gl gp, admitted tx gl gp /\ typeValidator tx vs = Ok tt.
Proof.
  intros Hv Hr. apply getValidator_inv in Hv as (Hs & Hg & Ht & _).
  - apply gasValidate_inv in Hg as (gl & gp & ? & ? & ? & ?). exists gl, gp. split; [|done]. constructor; try done.
    + by eapply typeValidator_value.
    + by eapply typeValidator_target.
    + by eapply typeValidator_supported.
  - intros E. unfold IsReward in Hr. by rewrite E in Hr.
Qed.
End admission.

Lemma intrinsicGas_range tx : 0 <= intrinsicGas tx.
Proof. unfold intrinsicGas. apply wrap64_ok. Qed.

(** ** Transitions *)

Section transitions.
Context `{MinerCodecLaws} `{ChainEnv} `{SignEnv} `{Codec BlackOperator} `{Governor} `{RewardEnv} `{GroupSigEnv}.
Context `{GroupCodecs} `{GroupCreateChecker} `{TvmLib} `{Json} `{ChainReader}.
Implicit Types (s : ExecState) (w : World) (S : Z) (I : World -> Prop).
Abbreviation EM := (M ExecState opError).
Abbreviation TM := (M ExecState Empty_set).

(** A transition that keeps [I] of the accounts where it succeeds, and whose results
    satisfy [Q]. *)
Definition keeps {A} (res : A -> result) (m : TM A) I s (Q : A -> Prop) : Prop :=
  wp False m s (fun r s' => (err (res r) = None -> I (es_db s')) /\ Q r).

Lemma doTransition_keeps {A} (res : A -> result) (m : TM A) I s Q :
  I (es_db s) -> keeps res m I s Q ->
  exists r s', doTransition res m s = (Ok r, s') /\ I (es_db s') /\ Q r.
Proof.
  unfold keeps, wp, doTransition. intros Hi Hk. destruct (m s) as [[r|[]|g] s']; [|done]. destruct Hk as [Hi' HQ].
  eexists r, _. split; [done|]. split; [|done]. destruct (decide (is_Some (err (res r)))) as [Hs|Hn]; [done|].
  apply Hi'. by destruct (err (res r)); [destruct Hn; eexists|].
Qed.

Lemma keeps_resultOf (m : WM unit) S s :
  wp False m (es_db s) (fun _ w' => guarded S w') -> keeps id (resultOf m) (guarded S) s (fun _ => True).
Proof. unfold keeps, wp, resultOf. by destruct (m (es_db s)) as [[[]|e|g] w']. Qed.

Lemma keeps_fixed (m : TM result) S s gl tx :
  intrinsicGas tx <= gl -> keeps id m (guarded S) s (fun _ => True) ->
  keeps fst (r <- m ;; ret (r, intrinsicGas tx)) (guarded S) s (fun rg => intrinsicGas tx <= rg.2 <= gl).
Proof.
  intros Hg Hm. unfold keeps. wstep. eapply wp_mono; [exact Hm|]. intros r s' [Hi _]. wstep. simpl.
  split; [done|lia].
Qed.

Lemma wp_lift_Some {T A} (x : A) (t : T) (Q : A -> T -> Prop) :
  Q x t -> wp (E := Empty_set) False (lift (oderef (Some x))) t Q.
Proof. done. Qed.

Lemma keeps_transfer source target v S s :
  guarded S (es_db s) -> keeps id (txTransfer_Transition source target (Some v)) (guarded S) s (fun _ => True).
Proof.
  intros I. unfold keeps, txTransfer_Transition, onAccounts. wstep. apply wp_lift_Some. wsteps; try done.
  simpl. split; [|done]. intros _. by apply guarded_transfer.
Qed.

(** ** Contracts *)

Definition gasWithin (con : Controller) tx gl : Prop := 0 <= con_GasLeft con <= gl - intrinsicGas tx.

(** The controller set up for an admitted transaction. *)
Lemma NewController_admitted {E} bh tx gl gp w st :
  admitted tx gl gp -> exists t, NewController (E:=E) (Some bh) tx (wrap64 (intrinsicGas tx)) w st = Ok t /\
    ready t /\ con_Transaction (ts_con t) = tx /\ gasWithin (ts_con t) tx gl.
Proof.
  intros []. pose proof (intrinsicGas_range tx). unfold NewController. rewrite ad_gl0.
  assert (u64_ok gl /\ u64_ok (intrinsicGas tx)) as [? ?].
  { unfold u64_ok, gasLimitPerTransaction, two64 in *. lia. }
  rewrite !wrap64_id by done. destruct (Z.ltb_spec gl (intrinsicGas tx)); [lia|].
  eexists. split; [done|]. split; [constructor; simpl; eauto|]. split; [done|].
  unfold gasWithin. simpl. rewrite wrap64_sub_small by (done || lia). lia.
Qed.

Lemma wp_inTvm {A} con (m : M TvmState Empty_set A) s Q :
  wp False m (mkTvmState con (es_db s) (es_vm s))
    (fun x t => Q (x, ts_con t) (mkExec (ts_db t) (ts_vm t))) ->
  wp False (inTvm con m) s Q.
Proof. unfold wp, inTvm. by destruct (m _) as [[x|[]|g] t]. Qed.

Lemma readyFor con w st w' st' : ready (mkTvmState con w st) -> ready (mkTvmState con w' st').
Proof. by intros []. Qed.

(** What a contract transaction keeps: [I] of the accounts and [gas] of the
    controller, when the library guarantees [keys] and [rel]. *)
Record vmKeeps (keys : bytes -> Prop) (rel : vmState -> vmState -> Prop) (I : World -> Prop) (gas : Controller -> Prop)
    : Prop := {
  vk_lib : Guarantee keys rel;
  vk_transfer a b x w : CanTransfer w a x = true -> I w -> I (Transfer a b x w);
  vk_create a c w : I w -> I (SetNonce a 1 (SetCode a c (CreateAccount a w)));
  vk_run t t' : vmStep (fun _ => True) keys (ts_db t) (ts_db t') -> I (ts_db t) -> I (ts_db t');
  vk_gas t t' : metered rel t t' -> gas (ts_con t) -> gas (ts_con t');
}.

Section contracts.
Context (keys : bytes -> Prop) (rel : vmState -> vmState -> Prop) (I : World -> Prop) (gas : Controller -> Prop).
Hypothesis K : vmKeeps keys rel I gas.

Lemma wp_transfer source target v s (Q : bool -> ExecState -> Prop) :
  I (es_db s) -> Q false s -> (forall s', I (es_db s') -> es_vm s' = es_vm s -> Q true s') ->
  wp False (transfer source target (Some v)) s Q.
Proof.
  intros Hi Qf Qt. unfold transfer, onAccounts. wstep. apply wp_lift_Some. wsteps; [by apply Qt| |done].
  apply Qt; [|done]. simpl. by apply (vk_transfer _ _ _ _ K).
Qed.

(** A run of the machine inside a transition. *)
Lemma wp_vmRun {A} con (m : M TvmState Empty_set A) s Q :
  I (es_db s) -> gas con ->
  wp False m (mkTvmState con (es_db s) (es_vm s)) (fun _ t =>
    vmStep (fun _ => True) keys (es_db s) (ts_db t) /\ metered rel (mkTvmState con (es_db s) (es_vm s)) t) ->
  (forall x con' s', I (es_db s') -> gas con' -> Q (x, con') s') ->
  wp False (inTvm con m) s Q.
Proof.
  intros Hi Hg Hm HQ. apply wp_inTvm. eapply wp_mono; [exact Hm|]. intros x t [V Hmt].
  apply HQ; [exact (vk_run _ _ _ _ K (mkTvmState con (es_db s) (es_vm s)) t V Hi)|exact (vk_gas _ _ _ _ K _ t Hmt Hg)].
Qed.

Lemma wp_createContract tx s Q :
  I (es_db s) -> is_Some (tx_Source tx) ->
  (forall o s', I (es_db s') -> es_vm s' = es_vm s -> Q o s') ->
  wp False (createContract tx) s Q.
Proof.
  intros Hi [src Hs] HQ. unfold wp, createContract. rewrite Hs. destruct (Exist _ _); [by apply HQ|].
  apply HQ; [|done]. simpl. by apply (vk_create _ _ _ _ K).
Qed.

(** The gas used is the limit less what a controller has left. *)
Definition gasSpent gl (rg : result * Z) : Prop := exists con, gas con /\ rg.2 = gl - con_GasLeft con.

Lemma keeps_create bh tx gl gp source s :
  admitted tx gl gp -> is_Some (tx_Value tx) -> I (es_db s) -> (forall con, gasWithin con tx gl -> gas con) ->
  keeps fst (contractCreator_Transition tx bh source (intrinsicGas tx)) I s (gasSpent gl).
Proof.
  intros Ha [v Hv] Hi Hgas. destruct (NewController_admitted (E := Empty_set) bh tx gl gp (es_db s) (es_vm s) Ha) as (t & Et & Hr & Htx & Hg%Hgas).
  unfold keeps, contractCreator_Transition, Amount, LoadContract. rewrite Hv, (ad_gl _ _ _ Ha). wstep. apply wp_gets. wstep.
  rewrite Et. apply wp_ret. wstep. simpl. apply (wp_createContract tx); [done|apply Ha|].
  intros o s1 I1 E1. wstep.
  assert (forall r con' s', gas con' -> I (es_db s') ->
    wp (E := Empty_set) False (ret (setContractAddress (default zeroB32 o) r, gl - con_GasLeft con')) s'
      (fun rg s' => (err rg.1 = None -> I (es_db s')) /\ gasSpent gl rg)) as Hend.
  { intros r con' s' Hg' I'. wstep. simpl. split; [done|]. by exists con'. }
  destruct o as [a|]; [|wsteps; by apply Hend]. wstep. apply wp_inTvm. wsteps. simpl.
  apply wp_transfer; [done|wsteps; by apply Hend|]. intros s2 I2 E2. wstep.
  eapply wp_vmRun; [exact I2|exact Hg| |].
  - apply safe_Deploy; [apply (vk_lib _ _ _ _ K)| |simpl; rewrite Htx; apply Ha|done|done].
    destruct t. by eapply readyFor.
  - intros x con' s' I' Hg'. wsteps. by apply Hend.
Qed.

Lemma keeps_call bh tx gl gp s :
  admitted tx gl gp -> is_Some (tx_Value tx) -> is_Some (tx_Target tx) -> I (es_db s) ->
  (forall con, gasWithin con tx gl -> gas con) ->
  keeps fst (contractCaller_Transition tx bh (intrinsicGas tx)) I s (gasSpent gl).
Proof.
  intros Ha [v Hv] [tgt Ht] Hi Hgas.
  destruct (NewController_admitted (E := Empty_set) bh tx gl gp (es_db s) (es_vm s) Ha) as (t & Et & Hr & Htx & Hg%Hgas).
  destruct (ad_src _ _ _ Ha) as [src Hs].
  unfold keeps, contractCaller_Transition, Amount, LoadContract. rewrite Hv, Ht, Hs, (ad_gl _ _ _ Ha).
  wstep. apply wp_gets. wstep. rewrite Et. apply wp_ret. wstep. apply wp_lift_Some. wstep. apply wp_inTvm. wstep.
  assert (forall r con' s', gas con' -> I (es_db s') ->
    wp (E := Empty_set) False (ret (r, gl - con_GasLeft con')) s'
      (fun rg s' => (err rg.1 = None -> I (es_db s')) /\ gasSpent gl rg)) as Hend.
  { intros r con' s' Hg' I'. wstep. simpl. split; [done|]. by exists con'. }
  wstep. simpl. wstep. case_bool_decide; [wsteps; by apply Hend|]. do 2 wstep. apply wp_lift_Some. wstep.
  apply wp_transfer; [done|wsteps; by apply Hend|]. intros s2 I2 E2. wstep.
  eapply wp_vmRun; [exact I2|exact Hg| |].
  - apply safe_ExecuteAbiEval; [apply (vk_lib _ _ _ _ K)| |by eexists|done|done].
    destruct t. by eapply readyFor.
  - intros x con' s' I' Hg'. wsteps. by apply Hend.
Qed.
End contracts.

(** A library that meters gas and stays off the ledger's keys keeps the ledger. *)
Lemma vmKeeps_metered S tx gl gp :
  MeteredLib foreignKey -> admitted tx gl gp -> vmKeeps foreignKey gasRel (guarded S) (fun con => gasWithin con tx gl).
Proof.
  intros L Ha. constructor.
  - apply L.
  - intros. by apply guarded_transfer.
  - auto with zv.
  - intros t t' V. exact (guarded_vmMoves S _ _ _ (vs_moves _ _ _ _ V)).
  - intros t t' Hmt Hg. unfold gasWithin in *. pose proof (ad_gas _ _ _ Ha). pose proof (intrinsicGas_range tx).
    pose proof (metered_gas foreignKey _ _ L Hmt) as Hl. unfold gasLimitPerTransaction in *. lia.
Qed.

(** Any library keeps the sum of the balances. *)
Lemma vmKeeps_total T : vmKeeps (fun _ => True) (fun _ _ => True) (fun w => total_balance w = T) (fun con => 0 <= con_GasLeft con).
Proof.
  constructor.
  - apply noGuarantee.
  - intros a b x w _ <-. unfold Transfer. destruct (x <=? 0); [done|].
    rewrite total_balance_AddBalance, total_balance_SubBalance. lia.
  - intros a c w <-. unfold SetCode, CreateAccount. rewrite total_balance_SetNonce, !total_balance_update. simpl. unfold id. lia.
  - intros t t' V <-. apply V.
  - intros t t' [-> _] _. apply wrap64_ok.
Qed.

(** ** Any operation *)

(** The transactions, and the operations, that run the virtual machine. *)
Definition runsContract tx : bool :=
  (tx_Type tx =? TransactionTypeContractCreate) || (tx_Type tx =? TransactionTypeContractCall).
Definition contractOp (op : parsedOp) : bool := match op with OpCreate _ | OpCall => true | _ => false end.

(** What parsing an admitted transaction gives. *)
Definition opOk tx (op : parsedOp) : Prop :=
  match op with
  | OpTransfer _ _ v => is_Some v
  | OpCreate _ => is_Some (tx_Value tx)
  | OpCall => is_Some (tx_Value tx) /\ is_Some (tx_Target tx)
  | OpMiner op => minerOp_valid op
  | OpGroup (sendMpkOp _ src _) | OpGroup (sendOriginPieceOp _ src _) => is_Some src
  | OpGroup _ | OpBlack _ => True
  end.

Lemma neutral_black a b : neutral a (genKey b).
Proof. by split_and!. Qed.

Lemma guarded_blacks S (v : option bytes) addrs w :
  guarded S w -> guarded S (foldl (fun w a => update blackStoreAddr (setData (genKey a) v) w) w addrs).
Proof.
  revert w. induction addrs as [|a addrs IH]; intros w I; [done|]. simpl. apply IH.
  apply guarded_neutral; [done|apply neutral_black].
Qed.

Lemma wp_Operation op S w :
  opOk (userTx 0 [] None) (OpGroup op) -> guarded S w -> wp False (Operation op) w (fun _ => guarded S).
Proof.
  intros Hop I. assert (forall a t b v, guarded S (SetData a (keyToByte (newTxDataKey t b)) v w)) as Hw.
  { intros. apply guarded_neutral; [done|auto with zv]. }
  destruct op as [data src pl|data src pl|data src pl]; simpl in *; unfold deref;
    [|destruct Hop as [a ->]..]; by wsteps.
Qed.

Lemma keeps_op bh tx gl gp op S s :
  admitted tx gl gp -> opOk tx op -> (contractOp op = true -> MeteredLib foreignKey) -> guarded S (es_db s) ->
  keeps fst (opTransition tx bh op) (guarded S) s (fun rg => intrinsicGas tx <= rg.2 <= gl).
Proof.
  intros Ha Hop L I. pose proof (ad_gas _ _ _ Ha) as [Hg _].
  assert (forall m, keeps fst m (guarded S) s (gasSpent (fun con => gasWithin con tx gl) gl) ->
    keeps fst m (guarded S) s (fun rg => intrinsicGas tx <= rg.2 <= gl)) as Hgas.
  { intros m Hm. eapply wp_mono; [exact Hm|]. intros rg s' [Hi (con & Hc & ->)]. unfold gasWithin in Hc. split; [done|lia]. }
  destruct op as [src tgt v|src| |op|op|op]; simpl in *.
  - destruct Hop as [x ->]. apply keeps_fixed; [done|]. by apply keeps_transfer.
  - apply Hgas. eapply keeps_create; [eapply vmKeeps_metered|..]; eauto.
  - destruct Hop. apply Hgas. eapply keeps_call; [eapply vmKeeps_metered|..]; eauto.
  - apply keeps_fixed; [done|]. apply keeps_resultOf. by apply guarded_minerOp.
  - apply keeps_fixed; [done|]. apply keeps_resultOf.
    assert (wp False (Operation op) (es_db s) (fun _ => guarded S)) as Hw by (by apply wp_Operation; destruct op).
    unfold wp in *. by destruct (Operation op (es_db s)) as [[[]|e|g] w'].
  - apply keeps_fixed; [done|]. apply keeps_resultOf. unfold blackUpdateTx_Transition, removeBlacks, addBlacks.
    wsteps; by apply guarded_blacks.
Qed.

(** A contract operation with any library. *)
Lemma keeps_contractOp bh tx gl gp op T s :
  admitted tx gl gp -> opOk tx op -> contractOp op = true -> total_balance (es_db s) = T ->
  keeps fst (opTransition tx bh op) (fun w => total_balance w = T) s (fun rg => rg.2 <= gl).
Proof.
  intros Ha Hop Hc HT.
  assert (forall con, gasWithin con tx gl -> 0 <= con_GasLeft con) as Hgas by (by intros con []).
  assert (forall m, keeps fst m (fun w => total_balance w = T) s (gasSpent (fun con => 0 <= con_GasLeft con) gl) ->
    keeps fst m (fun w => total_balance w = T) s (fun rg => rg.2 <= gl)) as Hend.
  { intros m Hm. eapply wp_mono; [exact Hm|]. intros rg s' [Hi (con & ? & ->)]. split; [done|lia]. }
  destruct op; try done; apply Hend.
  - eapply keeps_create; eauto using vmKeeps_total.
  - destruct Hop. eapply keeps_call; eauto using vmKeeps_total.
Qed.

Lemma wp_blackParse tx w :
  is_Some (tx_Source tx) -> present FundGuardNodeAddr w ->
  wp False (blackUpdateTx_Parse tx) w (fun _ _ => True).
Proof.
  intros [src Hs] [o Ho]. unfold blackUpdateTx_Parse, decodeAndVerifyBlackUpdateTx. rewrite Hs. unfold deref.
  unfold getAllGuardNodes, GetAllGuardNodeAddrs, GetAllFundStakeGuardNodes.
  wsteps; [|exfalso; unfold DataIterator in *; by rewrite Ho in *].
  eapply wp_mono; [apply (wp_collect (fun _ => True)); [|done]|].
  - intros e w0 _. by wsteps.
  - intros fds w1 _. wsteps. eapply wp_mono; [apply (wp_for_each False (fun _ => True)); [|done]|].
    + intros sig w2 _ _. unfold checkSign. by wsteps.
    + intros. by wsteps.
Qed.

Lemma parse_opOk tx gl gp vs h w `{ValidateEnv} :
  admitted tx gl gp -> typeValidator tx vs = Ok tt -> present FundGuardNodeAddr w ->
  wp False (ParseTransaction tx h) w (fun op _ => opOk tx op /\ contractOp op = runsContract tx).
Proof.
  intros Ha Ht Hp. destruct (ad_src _ _ _ Ha) as [src Hs].
  pose proof (ad_value _ _ _ Ha) as Hv. pose proof (ad_target _ _ _ Ha) as Htg. unfold needsValue in Hv.
  unfold ParseTransaction, Amount, deref, runsContract. rewrite Hs.
  destruct (Z.eqb_spec (tx_Type tx) TransactionTypeTransfer) as [E|].
  { destruct (Htg ltac:(by left)) as [tgt ->]. wsteps. rewrite E. split; [by apply Hv|done]. }
  destruct (Z.eqb_spec (tx_Type tx) TransactionTypeContractCreate) as [E|]; [wsteps; split; [by apply Hv|done]|].
  destruct (Z.eqb_spec (tx_Type tx) TransactionTypeContractCall) as [E|].
  { wsteps. split; [split; [by apply Hv|apply Htg; by right]|done]. }
  destruct (minerOp_Parse tx h) as [p|] eqn:Ep.
  { wstep. eapply wp_mono; [eapply parse_valid; [by eexists|exact Ht|exact Ep]|]. intros op w' [-> Hop]. by wstep. }
  wstep.
  - wstep. unfold NewOperation_Parse, sendPiece_Parse, sendMpk_Parse, sendOriginPiece_Parse, packet, check, deref.
    rewrite Hs. unfold groupType in *. wsteps; try done; split; try done; by eexists.
  - wstep; [|done]. wstep. eapply wp_mono; [by apply wp_blackParse|]. intros. by wstep.
Qed.

(** ** The state checks *)

(** An outcome that is no panic and, when it is a value, satisfies [Q]. *)
Definition sound {E A} (o : outcome E A) (Q : A -> Prop) : Prop :=
  match o with Ok x => Q x | Err _ => True | Panic _ => False end.
Lemma sound_bind {E A B} (o : outcome E A) (k : A -> outcome E B) Q :
  sound o (fun x => sound (k x) Q) -> sound (obind o k) Q.
Proof. by destruct o. Qed.
Lemma sound_guard b msg (Q : unit -> Prop) : (b = true -> Q tt) -> sound (vguard b msg) Q.
Proof. destruct b; simpl; auto. Qed.

Lemma sound_all {E A} (o : outcome E A) (Q : A -> Prop) : sound o (fun _ => True) -> (forall x, Q x) -> sound o Q.
Proof. destruct o; simpl; auto. Qed.

Lemma checkState_admitted tx gl gp w h :
  admitted tx gl gp ->
  sound (checkState w tx h) (fun _ => exists src, tx_Source tx = Some src /\ gl * gp <= GetBalance w src).
Proof.
  intros Ha. destruct (ad_src _ _ _ Ha) as [src Hs]. pose proof (ad_value _ _ _ Ha) as Hv.
  unfold checkState, validateNonce, stateValidate. rewrite (ad_gl _ _ _ Ha), (ad_gp _ _ _ Ha), Hs. cbn [oderef].
  apply sound_bind, sound_all; [by destruct (_ =? _)|]. intros b. apply sound_bind, sound_guard. intros _.
  apply sound_bind. cbn [obind]. apply sound_bind, sound_guard. intros Hbal. apply sound_bind, sound_all.
  { destruct (needsValue (tx_Type tx)); [|done]. destruct (Hv eq_refl) as [v ->]. by apply sound_guard. }
  intros _. apply sound_bind, sound_guard. intros _. apply sound_bind, sound_all.
  { destruct (_ =? _); [done|]. by apply sound_guard. }
  intros _. exists src. split; [done|]. destruct (Z.ltb_spec (GetBalance w src) (gp * gl)); [done|lia].
Qed.

(** Executing the parsed operation, or giving up on it. *)
Lemma executed tx gl gp vs bh I (Q : result * Z -> Prop) s `{ValidateEnv} :
  admitted tx gl gp -> typeValidator tx vs = Ok tt -> present FundGuardNodeAddr (es_db s) -> I (es_db s) ->
  (forall op, opOk tx op -> contractOp op = runsContract tx -> keeps fst (opTransition tx bh op) I s Q) ->
  (forall r, Q (r, intrinsicGas tx)) ->
  exists rg s', executeParsed tx bh s = (Ok rg, s') /\ I (es_db s') /\ Q rg.
Proof.
  intros Ha Ht Hpr Hi Hk HQ. unfold executeParsed, onWorld.
  pose proof (parse_opOk tx gl gp vs (bh_Height bh) (es_db s) Ha Ht Hpr) as Hw.
  pose proof (ParseTransaction_readonly tx (bh_Height bh) (es_db s)) as Hro. unfold wp in Hw.
  destruct (ParseTransaction tx (bh_Height bh) (es_db s)) as [[op|e|g] w']; simpl in Hro; subst w'; [| |done].
  - replace (setDB (es_db s) s) with s by (by destruct s). destruct Hw. apply doTransition_keeps; auto.
  - rewrite (ad_supported _ _ _ Ha). replace (setDB (es_db s) s) with s by (by destruct s).
    by eexists _, s.
Qed.

(** The gas is bought before the transaction runs, and the rest is paid back. *)
Lemma apply_user tx gl gp bh w st (Post : Z -> World -> Prop) :
  admitted tx gl gp -> IsReward tx = false ->
  (forall src, tx_Source tx = Some src -> gl * gp <= GetBalance w src ->
    exists rg s', executeParsed tx bh (setDB (SubBalance src (gl * gp) w) (mkExec w st)) = (Ok rg, s') /\
      Post rg.2 (if rg.2 <? gl then AddBalance src ((gl - rg.2) * gp) (es_db s') else es_db s')) ->
  match applyStateTransition tx bh (mkExec w st) with
  | (Ok r, s') => Post (cumulativeGasUsed r) (es_db s')
  | (Err _, s') => s' = mkExec w st
  | (Panic _, _) => False
  end.
Proof.
  intros Ha Hr He. unfold applyStateTransition. rewrite Hr. unfold bind, gets. simpl.
  pose proof (checkState_admitted tx gl gp w (bh_Height bh) Ha) as Hc.
  destruct (checkState w tx (bh_Height bh)) as [[]|e|g]; simpl in *; [|done..].
  destruct Hc as (src & Hs & Hbal). rewrite (ad_gl _ _ _ Ha), (ad_gp _ _ _ Ha), Hs. simpl.
  destruct (He src Hs Hbal) as (rg & s2 & -> & HP). by destruct (rg.2 <? gl).
Qed.

Lemma apply_admitted tx gl gp vs bh S w st `{ValidateEnv} :
  (runsContract tx = true -> MeteredLib foreignKey) ->
  admitted tx gl gp -> typeValidator tx vs = Ok tt -> IsReward tx = false -> guarded S w ->
  match applyStateTransition tx bh (mkExec w st) with
  | (Ok r, s') => intrinsicGas tx <= cumulativeGasUsed r <= gl /\ guarded (S - cumulativeGasUsed r * gp) (es_db s')
  | (Err _, s') => s' = mkExec w st
  | (Panic _, _) => False
  end.
Proof.
  intros L Ha Ht Hr I.
  apply (apply_user tx gl gp bh w st (fun used w' => intrinsicGas tx <= used <= gl /\ guarded (S - used * gp) w')); [done..|].
  intros src Hs Hbal. pose proof (ad_gas _ _ _ Ha) as Hg. pose proof (ad_price _ _ _ Ha) as Hgp.
  pose proof (intrinsicGas_range tx). assert (0 <= gl * gp) by (apply Z.mul_nonneg_nonneg; lia).
  assert (guarded (S - gl * gp) (SubBalance src (gl * gp) w)) as I1 by (apply guarded_burn; [done|lia]).
  destruct (executed tx gl gp vs bh (guarded (S - gl * gp)) (fun rg => intrinsicGas tx <= rg.2 <= gl)
    (setDB (SubBalance src (gl * gp) w) (mkExec w st)) Ha Ht) as (rg & s2 & -> & I2 & Hu); [apply I1|done| |simpl; lia|].
  { intros op Hop Hc. eapply keeps_op; [done..| |done]. by rewrite Hc. }
  exists rg, s2. split; [done|]. split; [done|]. pose proof (li_bound _ _ _ _ _ _ (proj1 I)) as Hb.
  destruct (Z.ltb_spec rg.2 gl).
  - replace (S - rg.2 * gp) with (S - gl * gp + (gl - rg.2) * gp) by lia. apply guarded_mint; [done|nia|nia].
  - by replace (rg.2) with gl by lia.
Qed.

(** A contract transaction, whatever the library does. *)
Lemma apply_contract tx gl gp vs bh w st `{ValidateEnv} :
  runsContract tx = true -> admitted tx gl gp -> typeValidator tx vs = Ok tt -> present FundGuardNodeAddr w ->
  match applyStateTransition tx bh (mkExec w st) with
  | (Ok r, s') => cumulativeGasUsed r <= gl /\ total_balance (es_db s') = total_balance w - cumulativeGasUsed r * gp
  | (Err _, s') => s' = mkExec w st
  | (Panic _, _) => False
  end.
Proof.
  intros Hc Ha Ht Hp.
  apply (apply_user tx gl gp bh w st (fun used w' => used <= gl /\ total_balance w' = total_balance w - used * gp)); [done| |].
  { unfold runsContract, IsReward in *. destruct (Z.eqb_spec (tx_Type tx) TransactionTypeReward) as [E|]; [|done]. by rewrite E in Hc. }
  intros src Hs Hbal. pose proof (ad_gas _ _ _ Ha) as Hg.
  destruct (executed tx gl gp vs bh (fun w' => total_balance w' = total_balance w - gl * gp) (fun rg => rg.2 <= gl)
    (setDB (SubBalance src (gl * gp) w) (mkExec w st)) Ha Ht) as (rg & s2 & -> & E2 & Hu); [by apply present_update| | |simpl; lia|].
  - simpl. apply total_balance_SubBalance.
  - intros op Hop Ho. rewrite Hc in Ho. eapply keeps_contractOp; [done..|]. simpl. apply total_balance_SubBalance.
  - exists rg, s2. split; [done|]. split; [done|]. destruct (Z.ltb_spec rg.2 gl).
    + rewrite total_balance_AddBalance, E2. lia.
    + rewrite E2. replace (rg.2) with gl by lia. done.
Qed.

(** ** The reward transaction *)

Lemma parse_fee_nonneg tx pr : ParseRewardTransaction tx = Ok pr -> 0 <= pr_packFee pr.
Proof.
  unfold ParseRewardTransaction, ByteToUint64. intros E.
  repeat (case_match; try done; try discriminate). simplify_eq. simpl. apply BigEndian.read_range.
Qed.

Lemma neutral_reward h : neutral RewardStoreAddr (b32_bytes h).
Proof.
  split_and!; [| |done].
  - destruct (minerKeyType (b32_bytes h)) eqn:E; [|done]. apply minerKeyType_inv, (f_equal length) in E.
    by rewrite b32_length in E.
  - destruct (detailKeyParts (b32_bytes h)) as [[[a t] u]|] eqn:E; [|done].
    apply detailKeyParts_inv, (f_equal length) in E. unfold getDetailKey in E.
    rewrite !length_app, !b32_length in E. by simpl in E.
Qed.

Lemma wp_payTargets l v S s :
  guarded S (es_db s) -> 0 <= v -> S + Z.of_nat (length l) * v < two64 ->
  wp False (for_each l (fun a => v <- lift (oderef (Some v)) ;; onAccounts (AddBalance a v)) : TM unit) s
    (fun _ s' => guarded (S + Z.of_nat (length l) * v) (es_db s') /\
      forall k, GetData (es_db s') RewardStoreAddr k = GetData (es_db s) RewardStoreAddr k).
Proof.
  revert S s. induction l as [|a l IH]; intros S s I Hv Hb.
  - simpl. wstep. by rewrite Z.add_0_r.
  - cbn [for_each length] in *. wstep. wstep. apply wp_lift_Some. unfold onAccounts at 1. wstep. simpl.
    rewrite Nat2Z.inj_succ in *.
    eapply wp_mono; [apply (IH (S + v)); [simpl; apply guarded_mint; [done|lia|nia]|lia|lia]|].
    intros _u s' [I' Hd]. split; [|intros k; by rewrite Hd; simpl; rewrite GetData_AddBalance].
    by replace (S + Z.succ (Z.of_nat (length l)) * v) with (S + v + Z.of_nat (length l) * v) by lia.
Qed.

Lemma apply_reward tx pr v bh S w st :
  IsReward tx = true -> ParseRewardTransaction tx = Ok pr -> tx_Value tx = Some v -> 0 <= v -> 0 <= pr_packFee pr ->
  guarded S w -> S + Z.of_nat (length (pr_targets pr)) * v + pr_packFee pr < two64 ->
  match applyStateTransition tx bh (mkExec w st) with
  | (Ok r, s') => HasRewardedOfBlock w (pr_blockHash pr) = false /\ HasRewardedOfBlock (es_db s') (pr_blockHash pr) = true /\
      cumulativeGasUsed r = 0 /\ guarded (S + Z.of_nat (length (pr_targets pr)) * v + pr_packFee pr) (es_db s')
  | (Err _, s') => s' = mkExec w st
  | (Panic _, _) => False
  end.
Proof.
  intros Hr Hp Hv Hv0 Hf I Hb. unfold applyStateTransition, rewardExecutor_Parse. rewrite Hr. unfold bind at 1, onWorld.
  simpl. rewrite Hp. unfold bind, lift, gets, ret. destruct (QueryBlockHeaderByHash (pr_blockHash pr)); [|done].
  destruct (HasRewardedOfBlock w (pr_blockHash pr)) eqn:Eh; [done|]. unfold setDB. simpl.
  set (op := mkRewardOp _ _ _ _ _). set (S' := S + Z.of_nat (length (pr_targets pr)) * v + pr_packFee pr).
  assert (0 <= Z.of_nat (length (pr_targets pr)) * v) by nia.
  assert (wp False (rewardExecutor_Transition tx op) (mkExec w st) (fun r s' => err r = None /\ cumulativeGasUsed r = 0 /\
    guarded S' (es_db s') /\ HasRewardedOfBlock (es_db s') (pr_blockHash pr) = true)) as Hw.
  { unfold rewardExecutor_Transition. simpl. unfold Amount. rewrite Hv. wstep.
    eapply wp_mono; [apply (wp_payTargets _ v S); [done|done|rewrite length_map; lia]|].
    rewrite length_map. intros _u s1 [I1 _]. unfold onAccounts. wsteps. simpl. split_and!; try done.
    - apply guarded_neutral; [|apply neutral_reward]. apply guarded_mint; [done|done|lia].
    - unfold HasRewardedOfBlock, MarkBlockRewarded, getRewardData, setRewardData.
      rewrite GetData_SetData, decide_True by done. by rewrite bool_decide_eq_true_2. }
  unfold doTransition, wp in *. destruct (rewardExecutor_Transition tx op _) as [[r|[]|g] s']; [|done].
  destruct Hw as (He & Hg & I' & Hm). simpl. unfold id. rewrite decide_False by (rewrite He; by intros []). done.
Qed.
End transitions.

Lemma validated_reward `{MinerCodecs} `{SignEnv} `{Codec BlackOperator} `{Governor} `{RewardEnv} `{GroupSigEnv} `{ValidateEnv} tx vs :
  getValidator tx vs = Ok tt -> IsReward tx = true -> exists v, tx_Value tx = Some v /\ 0 <= v.
Proof.
  intros Hv Hr. unfold getValidator in Hv. rewrite Hr in Hv. unfold rewardValidate in Hv. vinv Hv.
  match goal with E : valueValidate tx = Ok _ |- _ => rename E into Hval end.
  unfold valueValidate in Hval. destruct (tx_Value tx) as [v|] eqn:Ev; [|done]. apply oguard_Ok_inv in Hval.
  exists v. split; [done|]. unfold isUint64 in Hval. lia.
Qed.

(** ** Properties *)

(** C22: every admitted transaction other than a reward is executed on a balanced
    ledger without a panic.  If it is refused nothing has changed.  If it is included
    and runs no contract, it used at least its intrinsic gas and at most its gas
    limit, and the ledger is balanced with exactly the price of that gas gone.  If it
    runs a contract, then whatever the virtual machine does, the gas it is charged
    for is at most the limit, and the balances of all accounts sum to what they did
    less the price of that gas. *)
Theorem tx_conserves `{MinerCodecLaws} `{ChainEnv} `{SignEnv} `{Codec BlackOperator} `{Governor} `{RewardEnv}
    `{GroupSigEnv} `{GroupCodecs} `{GroupCreateChecker} `{TvmLib} `{Json} `{ChainReader} `{ValidateEnv}
    tx vs bh S w st :
  getValidator tx vs = Ok tt -> IsReward tx = false -> guarded S w ->
  match applyStateTransition tx bh (mkExec w st) with
  | (Ok r, s') => exists gl gp, tx_GasLimit tx = Some gl /\ tx_GasPrice tx = Some gp /\ cumulativeGasUsed r <= gl /\
      if runsContract tx then total_balance (es_db s') = total_balance w - cumulativeGasUsed r * gp
      else intrinsicGas tx <= cumulativeGasUsed r /\ guarded (S - cumulativeGasUsed r * gp) (es_db s')
  | (Err _, s') => s' = mkExec w st
  | (Panic _, _) => False
  end.
Proof.
  intros Hv Hr I. apply validated_admitted in Hv as (gl & gp & Ha & Ht); [|done]. destruct (runsContract tx) eqn:Ec.
  - pose proof (apply_contract tx gl gp vs bh w st Ec Ha Ht (proj2 I)) as Happ.
    destruct (applyStateTransition tx bh (mkExec w st)) as [[r|e|g] s']; [|done..].
    exists gl, gp. split_and!; [apply Ha|apply Ha|apply Happ..].
  - pose proof (apply_admitted tx gl gp vs bh S w st ltac:(by rewrite Ec) Ha Ht Hr I) as Happ.
    destruct (applyStateTransition tx bh (mkExec w st)) as [[r|e|g] s']; [|done..].
    exists gl, gp. split_and!; [apply Ha|apply Ha|apply Happ..].
Qed.

(** With a virtual machine that meters gas and stays off the ledger's keys, a
    contract transaction keeps the ledger too. *)
Lemma tx_conserves_metered `{MinerCodecLaws} `{ChainEnv} `{SignEnv} `{Codec BlackOperator} `{Governor} `{RewardEnv}
    `{GroupSigEnv} `{GroupCodecs} `{GroupCreateChecker} `{TvmLib} `{Json} `{ChainReader} `{ValidateEnv}
    tx vs bh S w st :
  MeteredLib foreignKey -> getValidator tx vs = Ok tt -> IsReward tx = false -> guarded S w ->
  match applyStateTransition tx bh (mkExec w st) with
  | (Ok r, s') => exists gl gp, tx_GasLimit tx = Some gl /\ tx_GasPrice tx = Some gp /\
      intrinsicGas tx <= cumulativeGasUsed r <= gl /\ guarded (S - cumulativeGasUsed r * gp) (es_db s')
  | (Err _, s') => s' = mkExec w st
  | (Panic _, _) => False
  end.
Proof.
  intros L Hv Hr I. apply validated_admitted in Hv as (gl & gp & Ha & Ht); [|done].
  pose proof (apply_admitted tx gl gp vs bh S w st ltac:(done) Ha Ht Hr I) as Happ.
  destruct (applyStateTransition tx bh (mkExec w st)) as [[r|e|g] s']; [|done..].
  exists gl, gp. split_and!; [apply Ha|apply Ha|apply Happ..].
Qed.

(** C23: a verified reward transaction is executed without
    a panic; if it is included the block was not rewarded before and is marked
    rewarded after, and the ledger is balanced with exactly the amounts it pays
    added; otherwise, as when the block was rewarded already, nothing has changed. *)
Theorem reward_tx_mints_once `{MinerCodecLaws} `{ChainEnv} `{SignEnv} `{Codec BlackOperator} `{Governor} `{RewardEnv}
    `{GroupSigEnv} `{GroupCodecs} `{GroupCreateChecker} `{TvmLib} `{Json} `{ChainReader} `{ValidateEnv}
    tx vs pr bh S w st :
  getValidator tx vs = Ok tt -> IsReward tx = true -> ParseRewardTransaction tx = Ok pr ->
  guarded S w -> S + Z.of_nat (length (pr_targets pr)) * default 0 (tx_Value tx) + pr_packFee pr < two64 ->
  match applyStateTransition tx bh (mkExec w st) with
  | (Ok r, s') =>
      HasRewardedOfBlock w (pr_blockHash pr) = false /\ HasRewardedOfBlock (es_db s') (pr_blockHash pr) = true /\
      guarded (S + Z.of_nat (length (pr_targets pr)) * default 0 (tx_Value tx) + pr_packFee pr) (es_db s')
  | (Err _, s') => s' = mkExec w st
  | (Panic _, _) => False
  end.
Proof.
  intros Hv Hr Hp I Hb. destruct (validated_reward tx vs Hv Hr) as (v & Ev & Hv0). rewrite Ev in *.
  pose proof (parse_fee_nonneg _ _ Hp). pose proof (apply_reward tx pr v bh S w st Hr Hp Ev) as Happ. simpl in *.
  destruct (applyStateTransition tx bh (mkExec w st)) as [[r|e|g] s']; [|by apply Happ..].
  destruct Happ as (? & ? & _ & ?); auto.
Qed.

(** ** Examples *)

#[local] Existing Instances bit_codecs bit_codecs_laws sampleEnv anySigner sampleChain noBlacks
  sampleGroup sampleSigs blackCodec bit_group_codecs loopLib rawJson noReader.

(** A checker that accepts nothing. *)
Definition noRounds : GroupCreateChecker := {|
  CheckEncryptedPiecePacket _ _ := Some (errOf "no round" RSFail);
  CheckMpkPacket _ _ := Some (errOf "no round" RSFail);
  CheckOriginPiecePacket _ _ := Some (errOf "no round" RSFail);
  CheckGroupCreateResult _ := None;
  CheckGroupCreatePunishment _ := None |}.
#[local] Existing Instance noRounds.

Lemma foreign_k : foreignKey (str "k").
Proof. intros a. by split_and!. Qed.

Definition guardedWorld : World := guardNodeWorld.
Lemma guarded_world : guarded (10000 * ZVC) guardedWorld.
Proof. split; [apply LedgerInv_neutral; [by apply MinerInv_fresh|auto with zv]|vm_compute; by eexists]. Qed.

(** Staking 600 ZVC uses the intrinsic gas of the transaction. *)
Definition stakeRun := applyStateTransition stakeTx (headerAt 7) (mkExec guardedWorld 0).

Lemma tx_conserves_witness :
  exists r s', stakeRun = (Ok r, s') /\ err r = None /\ guarded (10000 * ZVC - cumulativeGasUsed r * 500) (es_db s').
Proof.
  assert (exists r, fst stakeRun = Ok r /\ err r = None) as (r & E & He) by (eexists; vm_compute; split; reflexivity).
  exists r, (snd stakeRun). split; [by apply run_fst|]. split; [exact He|].
  assert (getValidator stakeTx false = Ok tt) as Hv by (vm_compute; reflexivity).
  pose proof (tx_conserves stakeTx false (headerAt 7) (10000 * ZVC) guardedWorld 0
    Hv eq_refl guarded_world) as Ht.
  rewrite (run_fst _ _ _ E) in Ht. destruct Ht as (gl & gp & _ & Hgp & _ & _ & Ht).
  injection Hgp as <-. exact Ht.
Defined.

Definition sampleReward : Transaction := rewardTx [2; 0].
Definition sampleParsed : ParsedReward :=
  mkParsedReward (BigToAddress 9) [[Byte.x0c]; [Byte.x0a]] (BigToAddress 7) (ForRewardTxPacking sampleShare).
Definition rewardRun := applyStateTransition sampleReward (headerAt 9) (mkExec guardedWorld 0).

Lemma reward_tx_mints_once_witness :
  exists r s', rewardRun = (Ok r, s') /\ HasRewardedOfBlock (es_db s') (BigToAddress 7) = true.
Proof.
  assert (exists r, fst rewardRun = Ok r) as (r & E) by (eexists; vm_compute; reflexivity).
  exists r, (snd rewardRun). split; [by apply run_fst|].
  assert (getValidator sampleReward false = Ok tt) as Hv by (vm_compute; reflexivity).
  assert (ParseRewardTransaction sampleReward = Ok sampleParsed) as Hp by (vm_compute; reflexivity).
  pose proof (reward_tx_mints_once sampleReward false sampleParsed (headerAt 9) (10000 * ZVC) guardedWorld 0
    Hv eq_refl Hp guarded_world ltac:(vm_compute; reflexivity)) as Ht.
  rewrite (run_fst _ _ _ E) in Ht. exact (proj1 (proj2 Ht)).
Defined.
