(* ===== verification/AddressManager.v ===== *)
(** * AddressManager: the addresses of the chain's own accounts

    [src/middleware/types/address_manager.go], the constants of the main and of the
    test net, and [src/core/address_manager.go], which reads them from the storage of
    a contract once that is deployed; with the values contracts store
    ([src/tvm/controller.go]). *)
From S2P Require Import Prelude Bytes World Types.
Local Open Scope Z_scope.
Local Open Scope zv_scope.

(** ** Stored values *)

(** [BytesToBigInt]: big-endian two's complement; nil for no bytes. *)
Definition BytesToBigInt (bs : bytes) : option Z :=
  match bs with
  | [] => None
  | b :: _ =>
      if negb (Z.land (Z_of_byte b) 128 =? 0) then
        let data := BigEndian.put (length bs) (BigEndian.read bs - 1) in
        Some (- BigEndian.read ((fun x => byte_of_Z (255 - Z_of_byte x)) <$> data))
      else Some (BigEndian.read bs)
  end.

(** The values [VmDataConvert] returns; [VNil] is its nil. *)
Inductive vmValue :=
| VNil | VInt (x : Z) | VBig (x : Z) | VDict | VString (s : bytes) | VList | VBool (b : bool) | VBytes (s : bytes).

(** [binary.Read] of a little-endian [int64]. *)
Definition readInt64LE (b : bytes) : option Z :=
  if decide (8 <= length b)%nat then
    let x := BigEndian.read (reverse (take 8 b)) in
    Some (if x <? 2 ^ 63 then x else x - 2 ^ 64)
  else None.

Definition VmDataConvert (value : bytes) : vmValue :=
  match value with
  | [] => VNil
  | tag :: rest =>
      if bool_decide (tag = Byte.x6d) then from_option VInt VNil (readInt64LE rest)
      else if bool_decide (tag = Byte.x69) then from_option VBig VNil (BytesToBigInt rest)
      else if bool_decide (tag = Byte.x64) then VDict
      else if bool_decide (tag = Byte.x73) then VString rest
      else if bool_decide (tag = Byte.x6c) then VList
      else if bool_decide (tag = Byte.x62) then
        match rest with [b] => VBool (bool_decide (b <> Byte.x30)) | _ => VNil end
      else if bool_decide (tag = Byte.x6e) then VNil
      else if bool_decide (tag = Byte.x79) then VBytes rest
      else VNil
  end.

(** ** The constants *)

Definition addressOf (s : string) : Address := StringToAddress (str s).

Record chainAddresses := mkAddresses {
  cst_admin : Address; cst_stakePlatform : Address; cst_circulates : Address; cst_userNode : Address;
  cst_daemonNode : Address; cst_businessFoundation : Address; cst_teamFoundation : Address }.

Definition normalAddresses : chainAddresses := {|
  cst_admin := addressOf "zv556dca04a59808f1598f90fabb1fa8a061ed1a636d270ff1a0c809e8aeb000ed";
  cst_stakePlatform := addressOf "zv88200d8e51a63301911c19f72439cac224afc7076ee705391c16f203109c0ccf";
  cst_circulates := addressOf "zv1d676136438ef8badbc59c89bae08ea3cdfccbbe8f4b22ac8d47361d6a3d510d";
  cst_userNode := addressOf "zv9f03cdec76c6617a151c65d393e9f6149cec59f10df00bb8918be4873b314cf4";
  cst_daemonNode := addressOf "zvb5344ed02ff6e01239c13e9e4a27b3c5caf28c1d9d2f1fa15b809607a33cb12d";
  cst_businessFoundation := addressOf "zvd675bea39b6f329919fc73c729292c7d8a3d305fb628e47f95986ec725c43824";
  cst_teamFoundation := addressOf "zvc2a3709ec6f183132faf8bacbc34cdb340eb0a45a69e9d4c26290e93829de64b" |}.

Definition testAddresses : chainAddresses := {|
  cst_admin := addressOf "zv28f9849c1301a68af438044ea8b4b60496c056601efac0954ddb5ea09417031b";
  cst_stakePlatform := addressOf "zv01cf40d3a25d0a00bb6876de356e702ae5a2a379c95e77c5fd04f4cc6bb680c0";
  cst_circulates := addressOf "zvebb50bcade66df3fcb8df1eeeebad6c76332f2aee43c9c11b5cd30187b45f6d3";
  cst_userNode := addressOf "zve30c75b3fd8888f410ac38ec0a07d82dcc613053513855fb4dd6d75bc69e8139";
  cst_daemonNode := addressOf "zvae1889182874d8dad3c3e033cde3229a3320755692e37cbe1caab687bf6a1122";
  cst_businessFoundation := addressOf "zv2535dbd81110f983559bf1895df82726185e95bc00f991bdc27541380f74ca92";
  cst_teamFoundation := addressOf "zv3e6918c1808123b3eecaa3709f8e1d1c85a23348a67aa5960cdc8408fff7c788" |}.

(** ** Reading the contract *)

Definition AddressContract : Address := addressOf "zv0000000000000000000000000000000000000000000000000000000000000006".

(** [BlockChainImpl]: nil before the chain is set up; its top block and the accounts
    of the latest block. *)
Record chainView := mkView { view_top : option BlockHeader; view_db : option World }.
Class AddressEnv := { BlockChainImpl : option chainView; IsNormalChain : bool }.

(** The loop of [loadNormalAddress]. *)
Fixpoint findAddress (key : bytes) (es : list (bytes * bytes)) : option Address :=
  match es with
  | [] => None
  | (k, v) :: es' =>
      if bool_decide (key = k) then
        match VmDataConvert v with VString s => Some (StringToAddress s) | _ => findAddress key es' end
      else findAddress key es'
  end.

Section addresses.
Context `{AddressEnv}.

Definition constantAddresses : chainAddresses := if IsNormalChain then normalAddresses else testAddresses.

Definition isUseContract : bool :=
  match BlockChainImpl with
  | Some chain => match view_top chain with Some top => IsZIP006 (bh_Height top) | None => false end
  | None => false
  end.

Definition loadNormalAddress (key : bytes) : option Address :=
  chain ← BlockChainImpl;
  db ← view_db chain;
  es ← DataIterator db AddressContract key;
  findAddress key es.

Definition managedAddress (key : string) (constant : chainAddresses -> Address) : Address :=
  if isUseContract then default (constant constantAddresses) (loadNormalAddress (str key))
  else constant constantAddresses.

Definition DaemonNodeAddress : Address := managedAddress "daemonNodeAddr" cst_daemonNode.
Definition UserNodeAddress : Address := managedAddress "userNodeAddr" cst_userNode.
Definition CirculatesAddr : Address := managedAddress "circulatesAddr" cst_circulates.
Definition StakePlatformAddress : Address := managedAddress "stakePlatformAddr" cst_stakePlatform.
Definition AdminAddr : Address := managedAddress "adminAddr" cst_admin.
End addresses.
