(* ===== verification/Block.v ===== *)
(** * Block: executing a block

    [process] of [src/core/state_processor.go]: the transactions one after the other
    within the block's gas, the rewards of the proposer and the nodes, the changes at
    fork heights, and the checks at the end of the block, in the order
    [src/core/blockchain.go] registers them. *)
From S2P Require Import Prelude Bytes Sha256 World Types TxHash MinerBase MinerOps MinerView MinerInv MinerSafe MinerManager MinerTheorems Group Tvm TvmSafe Supply Rewards RewardVerify Checkpoint Govern Present TxValidate Transition TransitionTheorems AddressManager.
Local Open Scope Z_scope.
Local Open Scope zv_scope.

Definition GasLimitPerBlock : Z := 2000000.
Definition GasLimitForPackage : Z := GasLimitPerBlock.

(** [big.Int.Uint64]: the low 64 bits of the magnitude. *)
Definition bigUint64 (x : Z) : Z := wrap64 (Z.abs x).

(** [Receipt], without the post state, which is nil, and the unused bloom. *)
Record Receipt := mkReceipt {
  rc_Status : ReceiptStatus; rc_CumulativeGasUsed : Z; rc_Logs : list Log; rc_TxHash : Hash;
  rc_ContractAddress : Address; rc_Height : Z; rc_TxIndex : Z }.
Definition NewReceipt (status : ReceiptStatus) (cumulativeGasUsed : Z) : Receipt :=
  mkReceipt status cumulativeGasUsed [] zeroB32 zeroB32 0 0.

Definition setTxIndex (idx : nat) (l : Log) : Log :=
  mkLog (log_Topic l) (log_Index l) (log_Data l) (log_TxHash l) (Z.of_nat idx) (log_Address l) (log_BlockNumber l).

Definition receiptOf (ret : result) (gas : Z) (tx : Transaction) (bh : BlockHeader) (idx : nat) : Receipt :=
  let r := NewReceipt (transitionStatus ret) gas in
  mkReceipt (rc_Status r) (rc_CumulativeGasUsed r) (setTxIndex idx <$> logs ret) (tx_Hash tx) (contractAddress ret)
    (bh_Height bh) (Z.of_nat idx mod 65536).

(** The variables of the loop over the transactions. *)
Record txLoop := mkLoop {
  tl_totalGasUsed : Z; tl_gasFee : Z; tl_evicted : list Hash; tl_executed : list Transaction; tl_receipts : list Receipt }.
Definition loopStart : txLoop := mkLoop 0 0 [] [] [].

(** [IntermediateRoot]: the root of the trie of accounts. *)
Class StateRoot := { IntermediateRoot : World -> Hash }.

(** [json.Marshal] of the contract and its source for the net. *)
Class AddressContractText := { addressContractCode : bytes; addressContractJson : bytes }.

Section block.
Context `{MinerCodecs} `{ChainEnv} `{SignEnv} `{Codec BlackOperator} `{Governor} `{RewardEnv} `{GroupSigEnv}.
Context `{GroupCodecs} `{GroupCreateChecker} `{TvmLib} `{Json} `{ChainReader}.
Context `{LruCache Hash group} `{SkipEnv} `{activatedGroupReader} `{AddressEnv} `{AddressContractText} `{StateRoot}.

(** ** The transactions *)

(** One transaction; the boolean says whether the loop goes on. *)
Definition executeTx (bh : BlockHeader) (tx : Transaction) (l : txLoop) : M ExecState Empty_set (txLoop * bool) := fun s =>
  match applyStateTransition tx bh s with
  | (Panic msg, s') => (Panic msg, s')
  | (Err _, s') =>
      (Ok (mkLoop (tl_totalGasUsed l) (tl_gasFee l) (tl_evicted l ++ [tx_Hash tx]) (tl_executed l) (tl_receipts l), true), s')
  | (Ok ret, s') =>
      let cumulativeGas := bigUint64 (cumulativeGasUsed ret) in
      let totalGasUsed := (tl_totalGasUsed l + cumulativeGas)%u64 in
      if GasLimitPerBlock <? totalGasUsed then
        (Ok (mkLoop totalGasUsed (tl_gasFee l) (tl_evicted l) (tl_executed l) (tl_receipts l), false), setDB (es_db s) s')
      else
        match tx_GasPrice tx with
        | None => (Panic "nil pointer dereference", s')
        | Some gasPrice =>
            let gasFee := (tl_gasFee l + bigUint64 (cumulativeGasUsed ret * gasPrice))%u64 in
            let db := from_option (fun src => SetNonce src (tx_Nonce tx) (es_db s')) (es_db s') (tx_Source tx) in
            let idx := length (tl_executed l) in
            (Ok (mkLoop totalGasUsed gasFee (tl_evicted l) (tl_executed l ++ [tx])
                   (tl_receipts l ++ [receiptOf ret cumulativeGas tx bh idx]), true), setDB db s')
        end
  end.

(** [late i]: the time for packing is over when the [i]-th transaction is reached. *)
Fixpoint executeTxs (bh : BlockHeader) (pack : bool) (late : nat -> bool) (i : nat) (txs : list Transaction) (l : txLoop)
    : M ExecState Empty_set txLoop :=
  match txs with
  | [] => ret l
  | tx :: txs' =>
      if pack && late i then ret l
      else if pack && (GasLimitForPackage <=? tl_totalGasUsed l) then ret l
      else
        r <- executeTx bh tx l ;;
        if r.2 then executeTxs bh pack late (S i) txs' r.1 else ret r.1
  end.

(** ** Rewards and fork heights *)

Definition payBlockRewards (bh : BlockHeader) (gasFee : Z) (db : World) : World :=
  let castorTotalRewards := (calculateGasFeeCastorRewards gasFee + calculateCastorRewards (bh_Height bh))%u64 in
  let deamonNodeRewards := daemonNodesRewards (bh_Height bh) in
  let db := if deamonNodeRewards =? 0 then db else AddBalance DaemonNodeAddress deamonNodeRewards db in
  let userRewards := userNodesRewards (bh_Height bh) in
  let db := if userRewards =? 0 then db else AddBalance UserNodeAddress userRewards db in
  AddBalance (BytesToAddress (bh_Castor bh)) castorTotalRewards db.

Definition reduceFoundations (db : World) : World :=
  let business := cst_businessFoundation constantAddresses in
  let team := cst_teamFoundation constantAddresses in
  let db := SubBalance business 138750000000000000 db in
  let db := SubBalance team 416250000000000000 db in
  let db := SetData business (str "total_token") (Byte.x69 :: BigEndian.put 8 111250000000000000) db in
  SetData team (str "total_token") (Byte.x69 :: BigEndian.put 8 333750000000000000) db.

Definition addressManagerTx : Transaction :=
  let raw h := {| tx_Data := []; tx_Value := Some 0; tx_Nonce := 0; tx_Target := None; tx_Type := 0; tx_GasLimit := Some 300000;
                  tx_GasPrice := None; tx_ExtraData := []; tx_Sign := None; tx_Source := Some (addressOf "zv0007"); tx_Hash := h |} in
  raw (GenHash (raw zeroB32)).

Definition DeployAddressManagerContract : M ExecState Empty_set unit :=
  s0 <- get ;;
  t0 <- lift (NewController None addressManagerTx 0 (es_db s0) (es_vm s0)) ;;
  onAccounts (CreateAccount AddressContract) ;;;
  onAccounts (SetCode AddressContract addressContractJson) ;;;
  out <- inTvm (ts_con t0) (SetGas 500000 ;;; Deploy (mkContract addressContractCode (str "AddressManager") AddressContract)) ;;
  match out.1.2 with
  | Some _ => panic "deploy Addressmanagercontract error"
  | None => ret tt
  end.

(** ** The checks at the end of a block *)

(** What outlives a block besides the accounts: the C library, the checkpoint
    context, the cache and the genesis group of the group manager. *)
Record ChainState := mkChain {
  ch_exec : ExecState; ch_ctx : option cpContext; ch_cache : cache Hash group; ch_genesis : option group }.
Abbreviation BM := (M ChainState Empty_set).
Definition ch_db (s : ChainState) : World := es_db (ch_exec s).

Definition onExec {A} (m : M ExecState Empty_set A) : BM A := fun s =>
  let '(o, e) := m (ch_exec s) in (o, mkChain e (ch_ctx s) (ch_cache s) (ch_genesis s)).

(** The checks return nothing. *)
Definition finished {E A} (o : outcome E A) : outcome Empty_set unit :=
  match o with Ok _ | Err _ => Ok tt | Panic msg => Panic msg end.
Definition onGroups (m : M GroupState opError unit) : BM unit := fun s =>
  let '(o, g) := m (mkGroupState (ch_db s) (ch_cache s) (ch_genesis s)) in
  (finished o, mkChain (setDB (gs_db g) (ch_exec s)) (ch_ctx s) (gs_cache g) (gs_genesis g)).
Definition onVotes (m : M CpState Empty_set unit) : BM unit := fun s =>
  let '(o, c) := m (mkCp (ch_db s) (ch_ctx s)) in
  (o, mkChain (setDB (cs_db c) (ch_exec s)) (cs_ctx c) (ch_cache s) (ch_genesis s)).
Definition onLedger (m : WM unit) : BM unit := fun s =>
  let '(o, w) := m (ch_db s) in
  (finished o, mkChain (setDB w (ch_exec s)) (ch_ctx s) (ch_cache s) (ch_genesis s)).

Definition procs : list (BlockHeader -> BM unit) :=
  [ fun bh => onGroups (RegularCheck bh);
    fun bh => onVotes (updateVotes bh);
    fun bh => onLedger (GuardNodesCheck bh);
    fun bh => onLedger (modify (UpdateGroupSkipCounts bh)) ].

(** ** The block *)

Definition process (bh preHeader : BlockHeader) (txs : list Transaction) (pack : bool) (late : nat -> bool)
    : BM (Hash * txLoop) :=
  l <- onExec (executeTxs bh pack late 0 txs loopStart) ;;
  onExec (onAccounts (payBlockRewards bh (tl_gasFee l))) ;;;
  (if IsZIP005Checkpoint (bh_Height preHeader) (bh_Height bh) then onExec (onAccounts reduceFoundations) else ret tt) ;;;
  (if IsZIP006Checkpoint (bh_Height preHeader) (bh_Height bh) then onExec DeployAddressManagerContract else ret tt) ;;;
  for_each procs (fun proc => proc bh) ;;;
  db <- gets ch_db ;;
  ret (IntermediateRoot db, l).
End block.

(** ** A block keeps the ledger balanced

    Executing a block of admitted transactions burns the gas they used, mints the
    rewards its reward transactions pay and the rewards of the block, and nothing
    else; the gas of the transactions it includes is within the block's limit. *)
(** ** What a block burns and mints *)

Definition sumZ (l : list Z) : Z := foldr Z.add 0 l.

Lemma sumZ_app l1 l2 : sumZ (l1 ++ l2) = sumZ l1 + sumZ l2.
Proof. induction l1 as [|x l1 IH]; simpl; [done|]. rewrite IH. lia. Qed.

Section block.
Context `{MinerCodecLaws} `{ChainEnv} `{SignEnv} `{Codec BlackOperator} `{Governor} `{RewardEnv} `{GroupSigEnv}.
Context `{GroupCodecs} `{GroupCreateChecker} `{TvmLib} `{Json} `{ChainReader} `{ValidateEnv}.
Implicit Types (w : World) (S : Z).

(** The coins a reward transaction pays out. *)
Definition payout (tx : Transaction) : Z :=
  if IsReward tx then
    match ParseRewardTransaction tx with
    | Ok pr => Z.of_nat (length (pr_targets pr)) * default 0 (tx_Value tx) + pr_packFee pr
    | _ => 0
    end
  else 0.

(** The fee of an included transaction. *)
Definition feeOf (tr : Transaction * Receipt) : Z := rc_CumulativeGasUsed tr.2 * default 0 (tx_GasPrice tr.1).

Definition burnt (l : txLoop) : Z := sumZ (feeOf <$> zip (tl_executed l) (tl_receipts l)).
Definition minted (l : txLoop) : Z := sumZ (payout <$> tl_executed l).
Definition gasUsed (l : txLoop) : Z := sumZ (rc_CumulativeGasUsed <$> tl_receipts l).

(** A transaction as the pool admits it. *)
Record poolTx (tx : Transaction) : Prop := {
  pt_valid : exists vs, getValidator tx vs = Ok tt;
  pt_price : is_Some (tx_GasPrice tx);
  pt_reward : IsReward tx = true -> exists pr, ParseRewardTransaction tx = Ok pr;
}.

Lemma payout_reward tx pr v :
  IsReward tx = true -> ParseRewardTransaction tx = Ok pr -> tx_Value tx = Some v ->
  payout tx = Z.of_nat (length (pr_targets pr)) * v + pr_packFee pr.
Proof. intros Hr Hp Hv. unfold payout. by rewrite Hr, Hp, Hv. Qed.

Lemma payout_nonneg tx : poolTx tx -> 0 <= payout tx.
Proof.
  intros [[vs Hv] _ Hrw]. destruct (IsReward tx) eqn:Er; [|unfold payout; by rewrite Er].
  destruct (Hrw eq_refl) as [pr Hp]. destruct (validated_reward tx vs Hv Er) as (v & Ev & ?).
  rewrite (payout_reward tx pr v) by done. pose proof (parse_fee_nonneg _ _ Hp). nia.
Qed.

(** A transaction that runs no contract, unless the virtual machine is known to
    meter gas and to stay off the ledger's keys. *)
Definition tame (tx : Transaction) : Prop := runsContract tx = true -> MeteredLib foreignKey.

(** What applying an admitted transaction does to the supply. *)
Lemma apply_pool tx bh S w st :
  tame tx -> poolTx tx -> guarded S w -> S + payout tx < two64 ->
  match applyStateTransition tx bh (mkExec w st) with
  | (Ok r, s') => 0 <= cumulativeGasUsed r <= gasLimitPerTransaction /\
      0 <= cumulativeGasUsed r * default 0 (tx_GasPrice tx) /\
      guarded (S - cumulativeGasUsed r * default 0 (tx_GasPrice tx) + payout tx) (es_db s')
  | (Err _, s') => s' = mkExec w st
  | (Panic _, _) => False
  end.
Proof.
  intros L Htx I Hb. destruct Htx as [[vs Hv] _ Hrw]. destruct (IsReward tx) eqn:Er.
  - destruct (Hrw eq_refl) as [pr Hp]. destruct (validated_reward tx vs Hv Er) as (v & Ev & Hv0).
    pose proof (parse_fee_nonneg _ _ Hp) as Hf. rewrite (payout_reward tx pr v) in * by done.
    pose proof (apply_reward tx pr v bh S w st Er Hp Ev Hv0 Hf I ltac:(lia)) as Ha.
    destruct (applyStateTransition tx bh (mkExec w st)) as [[r|e|g] s']; [|done..].
    destruct Ha as (_ & _ & Hg & I'). rewrite Hg. split_and!; [done|done|done|].
    eapply guarded_cast; [exact I'|lia].
  - apply validated_admitted in Hv as (gl & gp & Ha & Ht); [|done].
    pose proof (apply_admitted tx gl gp vs bh S w st L Ha Ht Er I) as Happ.
    destruct (applyStateTransition tx bh (mkExec w st)) as [[r|e|g] s']; [|done..].
    destruct Happ as [Hg I']. pose proof (ad_gas _ _ _ Ha). pose proof (intrinsicGas_range tx).
    pose proof (ad_price _ _ _ Ha). rewrite (ad_gp _ _ _ Ha). simpl. split_and!; [lia|lia|nia|].
    unfold payout. by rewrite Er, Z.add_0_r.
Qed.

(** ** The loop *)

Record loopInv S (l : txLoop) w : Prop := {
  lv_guarded : guarded (S - burnt l + minted l) w;
  lv_length : length (tl_executed l) = length (tl_receipts l);
  lv_gas : 0 <= gasUsed l <= GasLimitPerBlock;
  lv_fee : tl_gasFee l = wrap64 (burnt l);
  lv_burnt : 0 <= burnt l;
  lv_minted : 0 <= minted l;
}.

Lemma loopInv_start S w : guarded S w -> loopInv S loopStart w.
Proof. intros I. constructor; try done. eapply guarded_cast; [exact I|]. unfold burnt, minted. simpl. lia. Qed.

Section snoc.
Context (l : txLoop) (total fee : Z) (ev : list Hash) (tx : Transaction) (r : Receipt).
Context (Hlen : length (tl_executed l) = length (tl_receipts l)).
Let l' := mkLoop total fee ev (tl_executed l ++ [tx]) (tl_receipts l ++ [r]).

Lemma burnt_snoc : burnt l' = burnt l + feeOf (tx, r).
Proof. unfold burnt, l'. simpl. rewrite zip_with_app, fmap_app, sumZ_app by done. simpl. lia. Qed.
Lemma minted_snoc : minted l' = minted l + payout tx.
Proof. unfold minted, l'. simpl. rewrite fmap_app, sumZ_app. simpl. lia. Qed.
Lemma gasUsed_snoc : gasUsed l' = gasUsed l + rc_CumulativeGasUsed r.
Proof. unfold gasUsed, l'. simpl. rewrite fmap_app, sumZ_app. simpl. lia. Qed.
End snoc.

Lemma executeTx_run bh tx l S s :
  tame tx -> poolTx tx -> loopInv S l (es_db s) -> tl_totalGasUsed l = gasUsed l ->
  S + minted l + payout tx < two64 ->
  exists l' b s', executeTx bh tx l s = (Ok (l', b), s') /\ loopInv S l' (es_db s') /\
    (b = true -> tl_totalGasUsed l' = gasUsed l') /\ minted l' <= minted l + payout tx /\
    (tl_executed l' = tl_executed l \/ tl_executed l' = tl_executed l ++ [tx]).
Proof.
  intros L Htx I Htot Hb. pose proof (payout_nonneg tx Htx) as Hpay. destruct s as [w st]. unfold executeTx.
  pose proof (lv_burnt _ _ _ I). pose proof (lv_gas _ _ _ I) as Hgas. pose proof (lv_length _ _ _ I) as Hlen.
  pose proof (apply_pool tx bh _ w st L Htx (lv_guarded _ _ _ I) ltac:(lia)) as Ha.
  destruct (applyStateTransition tx bh (mkExec w st)) as [[r|e|g] s']; [|subst s'|done].
  2:{ eexists _, true, _. split; [done|]. split; [by destruct I|]. split; [done|]. split; [unfold minted; simpl; lia|by left]. }
  destruct Ha as (Hg & Hfee & I'). unfold gasLimitPerTransaction, GasLimitPerBlock in *.
  assert (bigUint64 (cumulativeGasUsed r) = cumulativeGasUsed r) as ->.
  { unfold bigUint64. rewrite Z.abs_eq by lia. apply wrap64_id. unfold u64_ok, two64. lia. }
  rewrite Htot, wrap64_id by (unfold u64_ok, two64; lia).
  destruct (Z.ltb_spec 2000000 (gasUsed l + cumulativeGasUsed r)) as [Hover|Hfits].
  { eexists _, false, _. split; [done|]. split; [by destruct I|]. split; [done|]. split; [unfold minted; simpl; lia|by left]. }
  destruct (pt_price _ Htx) as [gp Hgp]. rewrite Hgp in *. simpl in Hfee, I'.
  eexists _, true, _. split; [done|]. split_and!; [|intros _; by rewrite gasUsed_snoc|by rewrite minted_snoc|by right].
  assert (guarded (S - (burnt l + cumulativeGasUsed r * gp) + (minted l + payout tx)) (es_db s')) as I2
    by (eapply guarded_cast; [exact I'|lia]).
  constructor; rewrite ?burnt_snoc, ?minted_snoc, ?gasUsed_snoc by done; unfold feeOf; simpl; rewrite ?Hgp; simpl.
  - destruct (tx_Source tx); simpl; [by apply guarded_SetNonce|done].
  - rewrite !length_app. simpl. lia.
  - unfold GasLimitPerBlock. lia.
  - rewrite (lv_fee _ _ _ I). unfold bigUint64. rewrite Z.abs_eq by lia. unfold wrap64. by rewrite <- Zplus_mod.
  - lia.
  - pose proof (lv_minted _ _ _ I). lia.
Qed.

Definition payouts (txs : list Transaction) : Z := sumZ (payout <$> txs).

Lemma payouts_nonneg txs : Forall poolTx txs -> 0 <= payouts txs.
Proof.
  induction 1 as [|tx txs Htx _ IH]; [done|]. pose proof (payout_nonneg tx Htx).
  change (payouts (tx :: txs)) with (payout tx + payouts txs). lia.
Qed.

Lemma executeTxs_run bh pack late i txs l S s :
  Forall tame txs -> Forall poolTx txs -> loopInv S l (es_db s) -> tl_totalGasUsed l = gasUsed l ->
  S + minted l + payouts txs < two64 ->
  exists l' s', executeTxs bh pack late i txs l s = (Ok l', s') /\ loopInv S l' (es_db s') /\
    minted l' <= minted l + payouts txs /\ exists sub, tl_executed l' = tl_executed l ++ sub /\ sub `sublist_of` txs.
Proof.
  intros L Htxs. revert i l s L. induction Htxs as [|tx txs Htx Htxs IH]; intros i l s L I Htot Hb; cbn [executeTxs].
  { exists l, s. split_and!; [done|done|unfold payouts; simpl; lia|]. exists []. by rewrite app_nil_r. }
  pose proof (payouts_nonneg txs Htxs). pose proof (payout_nonneg tx Htx). apply Forall_cons in L as [L Ls].
  change (payouts (tx :: txs)) with (payout tx + payouts txs) in *.
  assert (exists sub, tl_executed l = tl_executed l ++ sub /\ sub `sublist_of` tx :: txs) as Hnone
    by (exists []; rewrite app_nil_r; split; [done|apply sublist_nil_l]).
  destruct (pack && late i); [exists l, s; split_and!; [done|done|lia|exact Hnone]|].
  destruct (pack && _); [exists l, s; split_and!; [done|done|lia|exact Hnone]|].
  destruct (executeTx_run bh tx l S s L Htx I Htot ltac:(lia)) as (l1 & b & s1 & E1 & I1 & Ht1 & Hm1 & Hx1).
  unfold bind. rewrite E1. simpl. destruct b.
  - destruct (IH (Datatypes.S i) l1 s1 Ls I1 (Ht1 eq_refl) ltac:(lia)) as (l2 & s2 & -> & I2 & Hm2 & sub & Hx2 & Hsub).
    exists l2, s2. split_and!; [done|done|lia|]. destruct Hx1 as [Hx1|Hx1]; rewrite Hx1 in Hx2.
    + exists sub. split; [done|by apply sublist_cons].
    + exists (tx :: sub). rewrite Hx2, <- app_assoc. split; [done|by apply sublist_skip].
  - exists l1, s1. split_and!; [done|done|lia|]. destruct Hx1 as [->| ->]; [exact Hnone|].
    exists [tx]. split; [done|]. apply sublist_skip, sublist_nil_l.
Qed.
End block.

(** ** Rewards *)

Definition blockEmission (h : Z) : Z := calculateCastorRewards h + daemonNodesRewards h + userNodesRewards h.

Lemma rewards_nonneg h fee :
  0 <= calculateCastorRewards h /\ 0 <= daemonNodesRewards h /\ 0 <= userNodesRewards h /\
  (0 <= fee -> 0 <= calculateGasFeeCastorRewards fee <= fee).
Proof.
  assert (forall x d, 0 < d -> 0 <= wrap64 x / d) as Hdiv.
  { intros x d Hd. apply Z.div_pos; [apply wrap64_ok|done]. }
  split_and!.
  - by apply Hdiv.
  - unfold daemonNodesRewards. destruct (_ =? _); [done|by apply Hdiv].
  - unfold userNodesRewards. destruct (_ =? _); [done|by apply Hdiv].
  - intros Hf. split; [by apply Hdiv|]. unfold calculateGasFeeCastorRewards.
    apply Z.div_le_upper_bound; [done|]. unfold wrap64, gasFeeCastorRewardsWeight, gasFeeTotalRewardsWeight.
    pose proof (Z.mod_le (fee * 9) two64 ltac:(lia) ltac:(done)). lia.
Qed.

Lemma payBlockRewards_guarded `{MinerCodecLaws} `{AddressEnv} bh fee S w :
  guarded S w -> 0 <= fee -> S + fee + blockEmission (bh_Height bh) < two64 ->
  guarded (S + calculateGasFeeCastorRewards fee + blockEmission (bh_Height bh)) (payBlockRewards bh fee w).
Proof.
  intros I Hf Hb. destruct (rewards_nonneg (bh_Height bh) fee) as (Hc & Hd & Hu & Hg). specialize (Hg Hf).
  pose proof (MinerInv_nonneg _ _ (proj1 I)) as HS. unfold blockEmission, payBlockRewards in *.
  set (h := bh_Height bh) in *.
  assert (forall S b a x, 0 <= x -> S + x < two64 -> guarded S b ->
    guarded (S + x) (if x =? 0 then b else AddBalance a x b)) as Hpay.
  { intros S0 b a x Hx Hlt I0. destruct (Z.eqb_spec x 0) as [->|]; [by rewrite Z.add_0_r|by apply guarded_mint]. }
  rewrite wrap64_id by (unfold u64_ok; lia).
  eapply guarded_cast; [apply guarded_mint; [apply Hpay; [done| |apply Hpay; [done| |exact I]]|lia|]|]; lia.
Qed.

(** ** The checks *)

Section checks.
Context `{MinerCodecLaws} `{ChainEnv} `{GroupCodecs} `{GroupCreateChecker} `{LruCache Hash group}.
Implicit Types (w : World) (S : Z).

(** What the group checker reports at a height: no punishment, and a group when it
    reports success. *)
Record quietRound (h : Z) : Prop := {
  qr_punish : CheckGroupCreatePunishment h = None;
  qr_info r : CheckGroupCreateResult h = Some r -> cr_Code r = CreateResultSuccess -> is_Some (cr_GroupInfo r);
  qr_encode : forall g : group, is_Some (Marshal g);
}.

Definition groupGuarded S (s : GroupState) : Prop := guarded S (gs_db s).

Lemma pool_get_run seed S s :
  groupGuarded S s -> wp False (pool_get seed) s (fun _ => groupGuarded S).
Proof.
  intros I. unfold pool_get, onCache. wstep. unfold wp at 1. simpl. do 2 wstep.
  destruct (_.1); [by wstep|]. destruct (storedGroup _ _); wsteps; done.
Qed.

Lemma frozeMiner_run l h S s :
  groupGuarded S s -> wp False (frozeMiner l h) s (fun _ => groupGuarded S).
Proof.
  intros I. apply wp_for_each; [|done]. intros p s0 _ I0. unfold onMiners, wp, MinerFrozen.
  assert (settles (executeOperation (ret (mkFreeze (BytesToAddress p) h)) minerFreeze_Transition) (gs_db s0) (guarded S)) as Hs.
  { apply executeOperation_settles; [done..|]. apply (guarded_minerOp S (MFreeze _)); done. }
  unfold settles in Hs. by destruct (executeOperation _ _ _) as [[b|e|g] w'].
Qed.

Lemma saveGroup_run g S s :
  (forall g : group, is_Some (Marshal g)) -> groupGuarded S s -> wp False (saveGroup g) s (fun _ => groupGuarded S).
Proof.
  intros Hm I. destruct (Hm g) as [bs Hbs]. unfold saveGroup, pool_add, wp. rewrite Hbs. simpl.
  unfold groupGuarded. simpl. by repeat (apply guarded_neutral; [|auto with zv]).
Qed.

Lemma RegularCheck_run bh S s :
  quietRound (bh_Height bh) -> groupGuarded S s -> wp False (RegularCheck bh) s (fun _ => groupGuarded S).
Proof.
  intros [Hp Hi Hm] I. unfold RegularCheck, tryDoPunish. rewrite Hp. wstep.
  apply (wp_mono _ _ _ (fun _ => groupGuarded S)); [|intros; by wstep]. unfold tryCreateGroup.
  destruct (CheckGroupCreateResult (bh_Height bh)) as [r|] eqn:Er; [|by wstep]. wstep.
  apply (wp_mono _ _ _ (fun _ => groupGuarded S)).
  - destruct (cr_Code r) eqn:Ec; try by wstep.
    + unfold getTopGroup. do 2 wstep. unfold wp at 1. simpl. eapply wp_mono; [by apply pool_get_run|]. intros top s1 I1.
      wstep. destruct (Hi r eq_refl Ec) as [info ->]. unfold wp at 1. simpl. by apply saveGroup_run.
    + unfold markGroupFail, onGroupDB. wstep. apply guarded_neutral; [done|auto with zv].
  - intros _ s1 I1. destruct (_ <? _)%nat; [by apply frozeMiner_run|by wstep].
Qed.

Lemma neutral_votes a : neutral a cpVoteKey /\ neutral a cpEpochKey.
Proof. by split; split_and!. Qed.

Lemma updateVotes_guarded `{activatedGroupReader} bh S : stable (fun c => guarded S (cs_db c)) (updateVotes bh).
Proof.
  assert (forall c a k v, guarded S (cs_db c) -> neutral a k -> guarded S (SetData a k v (cs_db c))) as Hset
    by (intros; by apply guarded_neutral).
  unfold updateVotes, epochVotes, onCpDB, setGroupVotes, setGroupEpoch, Checkpoint.reset. destruct (neutral_votes cpAddress).
  stable_tac; apply stable_modify; intros x Hx; simpl; by auto.
Qed.

Lemma UpdateGroupSkipCounts_guarded `{SkipEnv} bh S w : guarded S w -> guarded S (UpdateGroupSkipCounts bh w).
Proof.
  assert (forall seed cnt w, guarded S w -> guarded S (updateSkipCount seed cnt w)) as Hu.
  { intros seed cnt w0 I. unfold updateSkipCount. destruct (cnt =? 0); [destruct (0 <? _)|]; try done;
      (apply guarded_neutral; [done|auto with zv]). }
  intros I. unfold UpdateGroupSkipCounts. destruct (skip_QueryBlockHeaderByHash _) as [pre|]; [|by apply Hu].
  unfold addSkipCounts. generalize (GroupSkipCountsBetween pre (bh_Height bh)) (updateSkipCount (bh_Group bh) 0 w) (Hu (bh_Group bh) 0 w I).
  intros counts. induction counts as [|c counts IH]; intros w0 I0; [done|]. simpl. by apply IH, Hu.
Qed.
End checks.

(** The checks return no error. *)
Definition noErr {T E A} (m : M T E A) : Prop := forall s e, fst (m s) <> Err e.

Lemma noErr_bind {T E A B} (m : M T E A) (k : A -> M T E B) : noErr m -> (forall a, noErr (k a)) -> noErr (bind m k).
Proof.
  intros Hm Hk s e. unfold bind. specialize (Hm s). destruct (m s) as [[a|e'|g] s']; [by apply Hk| |done].
  by destruct (Hm e').
Qed.

Lemma noErr_for_each {T E A} (l : list A) (f : A -> M T E unit) : (forall x, noErr (f x)) -> noErr (for_each l f).
Proof. intros Hf. induction l as [|x l IH]; [done|]. by apply noErr_bind. Qed.

Lemma RegularCheck_noErr `{MinerCodecs} `{ChainEnv} `{GroupCodecs} `{GroupCreateChecker} `{LruCache Hash group} bh :
  noErr (RegularCheck bh).
Proof.
  assert (forall m, noErr (onMiners m)) as Hm.
  { intros m s e. unfold onMiners. by destruct (m (gs_db s)) as [[]]. }
  assert (forall seed, noErr (pool_get seed)) as Hg.
  { intros seed s e. unfold pool_get, onCache, bind, get, modify.
    destruct (fst (cacheGet _ _)); [done|]. by destruct (storedGroup _ _). }
  assert (forall g, noErr (saveGroup g)) as Hs.
  { intros g s e. unfold saveGroup. by destruct (pool_add g s) as [[]]. }
  unfold RegularCheck, tryCreateGroup, tryDoPunish, getTopGroup, frozeMiner, markGroupFail, onGroupDB.
  repeat first [ by intros ? ? | apply Hm | apply Hg | apply Hs | apply noErr_bind; [|intros ?] | apply noErr_for_each; intros ?
    | match goal with |- noErr (match ?x with _ => _ end) => destruct x end
    | intros ? ?; by match goal with |- context [match ?x with _ => _ end] => destruct x end ].
Qed.

Section processing.
Context `{MinerCodecLaws} `{ChainEnv} `{SignEnv} `{Codec BlackOperator} `{Governor} `{RewardEnv} `{GroupSigEnv}.
Context `{GroupCodecs} `{GroupCreateChecker} `{TvmLib} `{Json} `{ChainReader} `{ValidateEnv}.
Context `{LruCache Hash group} `{SkipEnv} `{activatedGroupReader} `{AddressEnv} `{AddressContractText} `{StateRoot}.

Lemma groups_run bh S s :
  quietRound (bh_Height bh) -> guarded S (ch_db s) ->
  exists s', onGroups (RegularCheck bh) s = (Ok tt, s') /\ guarded S (ch_db s').
Proof.
  intros Hq I. unfold onGroups.
  pose proof (RegularCheck_run bh S (mkGroupState (ch_db s) (ch_cache s) (ch_genesis s)) Hq I) as Hr. unfold wp in Hr.
  pose proof (RegularCheck_noErr bh (mkGroupState (ch_db s) (ch_cache s) (ch_genesis s))) as Hn.
  destruct (RegularCheck bh _) as [[[]|e|g] s']; simpl in *; [by eexists|by destruct (Hn e)|done].
Qed.

(** The block up to the update of the votes: the transactions, the rewards of the
    block, and the round of group creation. *)
Definition beforeVotes bh txs pack late : M ChainState Empty_set txLoop :=
  l <- onExec (executeTxs bh pack late 0 txs loopStart) ;;
  onExec (onAccounts (payBlockRewards bh (tl_gasFee l))) ;;;
  onGroups (RegularCheck bh) ;;;
  ret l.

(** What the block is to have done by then. *)
Record blockDone bh txs S (l : txLoop) w : Prop := {
  bd_sub : tl_executed l `sublist_of` txs;
  bd_length : length (tl_receipts l) = length (tl_executed l);
  bd_gas : gasUsed l <= GasLimitPerBlock;
  bd_fee : tl_gasFee l = wrap64 (burnt l);
  bd_ledger : guarded (S - burnt l + minted l + calculateGasFeeCastorRewards (tl_gasFee l) + blockEmission (bh_Height bh)) w;
}.

Lemma beforeVotes_run bh txs pack late S s :
  Forall tame txs -> Forall poolTx txs -> quietRound (bh_Height bh) ->
  guarded S (ch_db s) -> S + payouts txs + blockEmission (bh_Height bh) < two64 ->
  exists l s1, beforeVotes bh txs pack late s = (Ok l, s1) /\ blockDone bh txs S l (ch_db s1).
Proof.
  intros L Htxs Hq I Hb. unfold beforeVotes. unfold bind at 1, onExec at 1.
  assert (minted loopStart = 0 /\ gasUsed loopStart = 0) as [Hm0 Hg0] by done.
  destruct (rewards_nonneg (bh_Height bh) 0) as (Hc & Hd & Hu & _).
  destruct (executeTxs_run bh pack late 0 txs loopStart S (ch_exec s) L Htxs (loopInv_start _ _ I) ltac:(done)
    ltac:(unfold blockEmission in *; lia)) as (l & s1 & -> & Il & Hm & sub & Hx & Hsub).
  pose proof (lv_burnt _ _ _ Il) as Hbu. pose proof (lv_fee _ _ _ Il) as Hfee.
  assert (0 <= tl_gasFee l <= burnt l) by (rewrite Hfee; split; [apply wrap64_ok|by apply Z.mod_le]).
  pose proof (payBlockRewards_guarded bh (tl_gasFee l) _ _ (lv_guarded _ _ _ Il) ltac:(lia)
    ltac:(unfold blockEmission in *; lia)) as Ir.
  unfold bind at 1, onExec, onAccounts, modify. unfold bind.
  set (s2 := mkChain _ _ _ _). destruct (groups_run bh _ s2 Hq Ir) as (s3 & -> & I3).
  exists l, s3. split; [done|]. constructor; [by rewrite Hx|symmetry; apply (lv_length _ _ _ Il)|apply (lv_gas _ _ _ Il)|done..].
Qed.

(** What is left of the block. *)
Definition afterVotes bh (l : txLoop) : M ChainState Empty_set (Hash * txLoop) :=
  onVotes (updateVotes bh) ;;;
  onLedger (GuardNodesCheck bh) ;;;
  onLedger (modify (UpdateGroupSkipCounts bh)) ;;;
  db <- gets ch_db ;;
  ret (IntermediateRoot db, l).

Lemma process_split bh pre txs pack late l s s1 :
  IsZIP005Checkpoint (bh_Height pre) (bh_Height bh) = false -> IsZIP006Checkpoint (bh_Height pre) (bh_Height bh) = false ->
  beforeVotes bh txs pack late s = (Ok l, s1) ->
  process bh pre txs pack late s =
    afterVotes bh l s1.
Proof.
  intros Z5 Z6. unfold beforeVotes, afterVotes, process, procs. rewrite Z5, Z6. cbn [for_each]. unfold bind.
  destruct (onExec (executeTxs _ _ _ _ _ _) s) as [[l0|e|g] t]; [|done..].
  destruct (onExec (onAccounts _) t) as [[u|e|g] t1]; [|done..]. unfold ret.
  destruct (onGroups _ t1) as [[v|e|g] t2]; [|done..]. intros [= -> ->].
  destruct (onVotes _ s1) as [[x|e|g] t3]; [|done..].
  destruct (onLedger _ t3) as [[y|e|g] t4]; [|done..].
  by destruct (onLedger _ t4) as [[z|e|g] t5].
Qed.

Lemma afterVotes_run bh l S s1 c :
  fst (updateVotes bh (mkCp (ch_db s1) (ch_ctx s1))) = Ok c -> guarded S (ch_db s1) ->
  exists root s', afterVotes bh l s1 = (Ok (root, l), s') /\ guarded S (ch_db s').
Proof.
  intros Hv I1. unfold afterVotes. unfold bind at 1, onVotes at 1.
  pose proof (updateVotes_guarded bh S (mkCp (ch_db s1) (ch_ctx s1)) I1) as I2.
  destruct (updateVotes bh (mkCp (ch_db s1) (ch_ctx s1))) as [[u|[]|g] c1]; simpl in I2, Hv; [|done].
  unfold bind at 1, onLedger at 1. unfold ch_db at 1. simpl.
  destruct (GuardNodesCheck_run S bh (cs_db c1) I2) as (w3 & -> & I3). simpl. unfold bind, onLedger, modify, gets, ret.
  eexists _, _. split; [done|]. unfold ch_db. simpl. by apply UpdateGroupSkipCounts_guarded.
Qed.
End processing.

(** C2: a block is executed whose transactions the pool admitted and run no contract;
    at its height nobody is punished for a failed group creation, a created group
    comes with its data, and no balances are changed by decree (the two fork heights
    ZIP005 and ZIP006); its payouts and emission fit in 64 bits together with the coins there are.
    Then the transactions, the rewards and the round of group creation run to their
    end.  The transactions included are some of those given, in their order, use no
    more than the block's gas, and each has its receipt.  The block ends, with the
    ledger balanced, exactly the price of the gas used gone, and exactly the amounts
    of the reward transactions, the block's emission and the proposer's share of the
    fees added; it panics exactly when updating the votes of the epoch panics on the
    state reached, with that panic. *)
Theorem block_conserves `{MinerCodecLaws} `{ChainEnv} `{SignEnv} `{Codec BlackOperator} `{Governor} `{RewardEnv}
    `{GroupSigEnv} `{GroupCodecs} `{GroupCreateChecker} `{TvmLib} `{Json} `{ChainReader} `{ValidateEnv}
    `{LruCache Hash group} `{SkipEnv} `{activatedGroupReader} `{AddressEnv} `{AddressContractText} `{StateRoot}
    bh pre txs pack late S s :
  Forall poolTx txs -> Forall (fun tx => runsContract tx = false) txs -> quietRound (bh_Height bh) ->
  IsZIP005Checkpoint (bh_Height pre) (bh_Height bh) = false -> IsZIP006Checkpoint (bh_Height pre) (bh_Height bh) = false ->
  guarded S (ch_db s) -> S + payouts txs + blockEmission (bh_Height bh) < two64 ->
  exists l s1, beforeVotes bh txs pack late s = (Ok l, s1) /\ blockDone bh txs S l (ch_db s1) /\
    match fst (updateVotes bh (mkCp (ch_db s1) (ch_ctx s1))) with
    | Ok _ => exists root s', process bh pre txs pack late s = (Ok (root, l), s') /\ blockDone bh txs S l (ch_db s')
    | Err _ => False
    | Panic msg => fst (process bh pre txs pack late s) = Panic msg
    end.
Proof.
  intros Htxs Hc Hq Z5 Z6 I Hb.
  assert (Forall tame txs) as L by (eapply Forall_impl; [exact Hc|]; intros tx E; unfold tame; by rewrite E).
  destruct (beforeVotes_run bh txs pack late S s L Htxs Hq I Hb) as (l & s1 & E1 & D).
  exists l, s1. split; [done|]. split; [done|]. rewrite (process_split bh pre txs pack late l s s1 Z5 Z6 E1).
  destruct (fst (updateVotes bh (mkCp (ch_db s1) (ch_ctx s1)))) as [u|[]|g] eqn:Ev.
  - destruct (afterVotes_run bh l _ s1 u Ev (bd_ledger _ _ _ _ _ D)) as (root & s' & -> & I').
    exists root, s'. split; [done|]. by destruct D.
  - unfold afterVotes, bind at 1, onVotes at 1. by destruct (updateVotes bh _) as [[]]; simpl in *; simplify_eq.
Qed.

(** *** A block with a stake and a reward *)

#[local] Existing Instances bit_codecs bit_codecs_laws sampleEnv anySigner sampleChain noBlacks
  sampleGroup sampleSigs blackCodec bit_group_codecs loopLib rawJson noReader noRounds mapCache.

Definition zeroGroup : activatedGroupReader :=
  {| reader_ActivatedGroupsAt _ := [mkGroup (mkGroupHeader zeroB32 0 0 [] 0 zeroB32 0) []] |}.
Definition noSkips : SkipEnv := {| skip_QueryBlockHeaderByHash _ := None; GroupSkipCountsBetween _ _ := [] |}.
Definition mainNet : AddressEnv := {| BlockChainImpl := None; IsNormalChain := true |}.
Definition noText : AddressContractText := {| addressContractCode := []; addressContractJson := [] |}.
Definition noRoot : StateRoot := {| IntermediateRoot _ := zeroB32 |}.
#[local] Existing Instances zeroGroup noSkips mainNet noText noRoot.

Definition blockWorld : World := setGroupEpoch (EpochAt 0) (setGroupVotes [1] guardedWorld).
Definition chainBefore : ChainState := mkChain (mkExec blockWorld 0) (Some (newCpContext (EpochAt 0) (reader_ActivatedGroupsAt 0))) ∅ None.
Definition sampleBlock : list Transaction := [stakeTx; sampleReward].
Definition blockRun := process (headerAt 9) (headerAt 8) sampleBlock true (fun _ => false) chainBefore.

Lemma guarded_block : guarded (10000 * ZVC) blockWorld.
Proof. destruct (neutral_votes cpAddress). do 2 (apply guarded_neutral; [|done]). apply guarded_world. Qed.

Lemma quiet_nine : quietRound 9.
Proof. split; [done|done|]. intros g. by eexists. Qed.

Lemma poolTx_sample : Forall poolTx sampleBlock.
Proof.
  constructor; [|constructor; [|constructor]].
  - split; [exists false; vm_compute; reflexivity|by eexists|done].
  - split; [exists false; vm_compute; reflexivity|by eexists|]. intros _. exists sampleParsed. vm_compute. reflexivity.
Qed.

Lemma contracts_sample : Forall (fun tx => runsContract tx = false) sampleBlock.
Proof. by repeat constructor. Qed.

Lemma block_conserves_witness :
  exists root l s', blockRun = (Ok (root, l), s') /\ length (tl_executed l) = 2%nat /\ blockDone (headerAt 9) sampleBlock (10000 * ZVC) l (ch_db s').
Proof.
  assert (exists x, fst blockRun = Ok x /\ length (tl_executed x.2) = 2%nat) as ([root l] & E & He)
    by (eexists; vm_compute; split; reflexivity).
  assert (exists t, blockRun = (Ok (root, l), t)) as [t Eb] by (eexists; by apply run_fst).
  exists root, l, t. split; [exact Eb|]. split; [exact He|].
  destruct (block_conserves (headerAt 9) (headerAt 8) sampleBlock true (fun _ => false) (10000 * ZVC) chainBefore
    poolTx_sample contracts_sample quiet_nine eq_refl eq_refl guarded_block ltac:(vm_compute; reflexivity)) as (l' & s1 & _ & _ & Hm).
  fold blockRun in Hm. rewrite Eb in Hm. destruct (fst (updateVotes _ _)) as [u|[]|g]; [|discriminate Hm].
  destruct Hm as (root' & s' & Er & D). injection Er as <- <- <-. exact D.
Defined.
