(* ===== verification/Rlp.v ===== *)
(** * Rlp: the byte format of the storage

    [src/storage/rlp]: strings and lists with length headers.  [encode.go] writes
    the strings into one buffer and remembers where the list headers go
    ([encbuf]); the model keeps that buffer, and [encode] is the format it
    implements.  [raw.go] takes encodings apart.  The traversal of Go values by
    reflection is not modelled: a value is the [item] it is written as.  Lengths
    are below [2^64] in every theorem that needs it. *)
From S2P Require Import Prelude Bytes.
Local Open Scope Z_scope.
Local Open Scope zv_scope.

Inductive item :=
| Str (b : bytes)
| Lst (l : list item).

Definition len (b : bytes) : Z := Z.of_nat (length b).

(** ** Headers ([encode.go]) *)

(** The number of bytes [putint] writes. *)
Definition putintSize (i : Z) : nat :=
  if i <? 2 ^ 8 then 1 else if i <? 2 ^ 16 then 2 else if i <? 2 ^ 24 then 3
  else if i <? 2 ^ 32 then 4 else if i <? 2 ^ 40 then 5 else if i <? 2 ^ 48 then 6
  else if i <? 2 ^ 56 then 7 else 8.
Definition putint (i : Z) : bytes := BigEndian.put (putintSize i) i.

Definition puthead (smalltag largetag size : Z) : bytes :=
  if size <? 56 then [byte_of_Z (smalltag + size)]
  else byte_of_Z (largetag + Z.of_nat (putintSize size)) :: putint size.

(** [for size = 1; ; size++ { if i >>= 8; i == 0 { return size } }], at most eight rounds. *)
Fixpoint intsizeFrom (fuel : nat) (size i : Z) : Z :=
  match fuel with
  | O => size
  | S fuel' => if Z.shiftr i 8 =? 0 then size else intsizeFrom fuel' (size + 1) (Z.shiftr i 8)
  end.
Definition intsize (i : Z) : Z := intsizeFrom 8 1 i.

Definition headsize (size : Z) : Z := if size <? 56 then 1 else 1 + intsize size.

Definition encodeStringHeader (size : Z) : bytes :=
  if size <? 56 then [byte_of_Z (0x80 + size)]
  else byte_of_Z (0xB7 + Z.of_nat (putintSize size)) :: putint size.

Definition encodeString (b : bytes) : bytes :=
  match b with
  | [x] => if Z_of_byte x <=? 0x7F then [x] else encodeStringHeader (len b) ++ b
  | _ => encodeStringHeader (len b) ++ b
  end.

(** ** The format *)

Fixpoint encode (it : item) : bytes :=
  match it with
  | Str b => encodeString b
  | Lst l => let content := concat (map encode l) in puthead 0xC0 0xF7 (len content) ++ content
  end.

Definition encodeAll (l : list item) : bytes := concat (map encode l).

(** ** The buffer of [encode.go] *)

Record listhead := mkHead { lh_offset : nat; lh_size : Z }.
Record encbuf := mkBuf { eb_str : bytes; eb_lheads : list listhead; eb_lhsize : Z }.

Definition encbuf_size (w : encbuf) : Z := len (eb_str w) + eb_lhsize w.
Definition write (b : bytes) (w : encbuf) : encbuf := mkBuf (eb_str w ++ b) (eb_lheads w) (eb_lhsize w).

(** [w.list()]: the new header, by its place among the headers. *)
Definition list_ (w : encbuf) : nat * encbuf :=
  (length (eb_lheads w),
   mkBuf (eb_str w) (eb_lheads w ++ [mkHead (length (eb_str w)) (eb_lhsize w)]) (eb_lhsize w)).

Definition listEnd (i : nat) (w : encbuf) : encbuf :=
  match eb_lheads w !! i with
  | Some lh =>
      let size := encbuf_size w - Z.of_nat (lh_offset lh) - lh_size lh in
      mkBuf (eb_str w) (<[i := mkHead (lh_offset lh) size]> (eb_lheads w))
        (if size <? 56 then eb_lhsize w + 1 else eb_lhsize w + (1 + intsize size))
  | None => w
  end.

(** The writer of a value: a byte string, or a slice or struct element by element. *)
Fixpoint writeItem (it : item) (w : encbuf) : encbuf :=
  match it with
  | Str b => write (encodeString b) w
  | Lst l =>
      let '(lh, w1) := list_ w in
      listEnd lh (fold_left (fun w it => writeItem it w) l w1)
  end.

(** The string data up to each header, the header, and what is left. *)
Fixpoint toBytesFrom (str : bytes) (strpos : nat) (heads : list listhead) : bytes :=
  match heads with
  | [] => drop strpos str
  | h :: heads' =>
      take (lh_offset h - strpos) (drop strpos str) ++ puthead 0xC0 0xF7 (lh_size h) ++
      toBytesFrom str (lh_offset h) heads'
  end.
Definition toBytes (w : encbuf) : bytes := toBytesFrom (eb_str w) 0 (eb_lheads w).

Definition EncodeToBytes (it : item) : bytes := toBytes (writeItem it (mkBuf [] [] 0)).

(** ** Taking encodings apart ([raw.go]) *)

Inductive Kind := Byte_ | String_ | List_.
#[global] Instance Kind_eq_dec : EqDecision Kind.
Proof. solve_decision. Defined.

Inductive rlpError := ErrUnexpectedEOF | ErrCanonSize | ErrValueTooLarge | ErrExpectedString | ErrExpectedList.

Definition readSize (b : bytes) (slen : Z) : outcome rlpError Z :=
  if len b <? slen then Err ErrUnexpectedEOF
  else
    let s := BigEndian.read (take (Z.to_nat slen) b) in
    match b with
    | [] => Panic "index out of range"
    | b0 :: _ => if (s <? 56) || (Z_of_byte b0 =? 0) then Err ErrCanonSize else Ok s
    end.

Definition readKind (buf : bytes) : outcome rlpError (Kind * Z * Z) :=
  match buf with
  | [] => Err ErrUnexpectedEOF
  | x :: rest =>
      let b := Z_of_byte x in
      r <-! (if b <? 0x80 then Ok (Byte_, 0, 1)
             else if b <? 0xB8 then
               let contentsize := b - 0x80 in
               match rest with
               | y :: _ =>
                   if (contentsize =? 1) && (Z_of_byte y <? 128) then Err ErrCanonSize
                   else Ok (String_, 1, contentsize)
               | [] => Ok (String_, 1, contentsize)
               end
             else if b <? 0xC0 then
               s <-! readSize rest (b - 0xB7) ;; Ok (String_, b - 0xB7 + 1, s)
             else if b <? 0xF8 then Ok (List_, 1, b - 0xC0)
             else s <-! readSize rest (b - 0xF7) ;; Ok (List_, b - 0xF7 + 1, s)) ;;
      let '(k, tagsize, contentsize) := r in
      if (wrap64 (len buf - tagsize)) <? contentsize then Err ErrValueTooLarge
      else Ok (k, tagsize, contentsize)
  end.

Definition Split (b : bytes) : outcome rlpError (Kind * bytes * bytes) :=
  r <-! readKind b ;;
  let '(k, ts, cs) := r in
  Ok (k, take (Z.to_nat cs) (drop (Z.to_nat ts) b), drop (Z.to_nat (ts + cs)) b).

Definition SplitString (b : bytes) : outcome rlpError (bytes * bytes) :=
  r <-! Split b ;;
  let '(k, content, rest) := r in
  if decide (k = List_) then Err ErrExpectedString else Ok (content, rest).

Definition SplitList (b : bytes) : outcome rlpError (bytes * bytes) :=
  r <-! Split b ;;
  let '(k, content, rest) := r in
  if decide (k = List_) then Ok (content, rest) else Err ErrExpectedList.

(** Every round takes a byte at least. *)
Fixpoint countFrom (fuel : nat) (i : Z) (b : bytes) : outcome rlpError Z :=
  match b, fuel with
  | [], _ => Ok i
  | _, O => Ok i
  | _, S fuel' =>
      r <-! readKind b ;;
      let '(_, tagsize, size) := r in
      countFrom fuel' (i + 1) (drop (Z.to_nat (tagsize + size)) b)
  end.
Definition CountValues (b : bytes) : outcome rlpError Z := countFrom (length b) 0 b.

(** ** The format reads back

    The buffer of the encoder produces the format, and [Split], [SplitList] and
    [CountValues] take an encoding apart into what was written. *)
Lemma item_ind' (P : item -> Prop) :
  (forall b, P (Str b)) -> (forall l, Forall P l -> P (Lst l)) -> forall it, P it.
Proof.
  intros HS HL. fix IH 1. intros [b|l]; [apply HS|]. apply HL. induction l as [|it l IHl]; constructor; [apply IH|exact IHl].
Qed.

(** ** Headers *)

Lemma putintSize_bound i :
  0 <= i < 2 ^ 64 ->
  (1 <= putintSize i <= 8)%nat /\ i < 256 ^ Z.of_nat (putintSize i) /\
  (putintSize i = 1%nat \/ 256 ^ Z.of_nat (putintSize i - 1) <= i).
Proof.
  intros Hi. unfold putintSize.
  repeat match goal with |- context [if ?a <? ?b then _ else _] => destruct (Z.ltb_spec a b) end;
    simpl; (split; [lia|split; [lia|first [by left|right; lia]]]).
Qed.

Lemma intsizeFrom_spec fuel size i n :
  0 <= i -> (n <= fuel)%nat -> (1 <= n)%nat -> i < 256 ^ Z.of_nat n -> (n = 1%nat \/ 256 ^ Z.of_nat (n - 1) <= i) ->
  intsizeFrom fuel size i = size + Z.of_nat n - 1.
Proof.
  revert size i n. induction fuel as [|fuel IH]; intros size i n Hi Hn Hn1 Hlt Hge; [lia|]. simpl.
  rewrite Z.shiftr_div_pow2 by lia. change (2 ^ 8) with 256.
  destruct (Z.eqb_spec (i / 256) 0) as [E|E].
  - assert (i < 256) as Hs by (apply Z.div_small_iff in E; lia). destruct Hge as [->|Hge]; [lia|].
    destruct n as [|[|n]]; [lia|lia|]. exfalso. replace (S (S n) - 1)%nat with (S n) in Hge by lia.
    rewrite Nat2Z.inj_succ, Z.pow_succ_r in Hge by lia. assert (0 < 256 ^ Z.of_nat n) by (apply Z.pow_pos_nonneg; lia). lia.
  - destruct n as [|[|n]]; [lia| |].
    { exfalso. apply E. apply Z.div_small. simpl in Hlt. lia. }
    rewrite (IH _ _ (S n)); [lia|apply Z.div_pos; lia|lia|lia| |].
    + rewrite Nat2Z.inj_succ, Z.pow_succ_r in Hlt by lia. apply Z.div_lt_upper_bound; lia.
    + destruct n as [|n]; [by left|right]. destruct Hge as [?|Hge]; [lia|]. apply Z.div_le_lower_bound; [lia|].
      replace (S (S (S n)) - 1)%nat with (S (S n)) in Hge by lia. replace (S (S n) - 1)%nat with (S n) by lia.
      rewrite (Nat2Z.inj_succ (S n)), Z.pow_succ_r in Hge by lia. lia.
Qed.

(** [intsize] is the length of what [putint] writes. *)
Lemma intsize_putint i : 0 <= i < 2 ^ 64 -> intsize i = Z.of_nat (putintSize i).
Proof.
  intros Hi. destruct (putintSize_bound i Hi) as (Hn & Hlt & Hge). unfold intsize.
  rewrite (intsizeFrom_spec 8 1 i (putintSize i)); [lia|lia|lia|lia|done|done].
Qed.

Lemma length_puthead s t size : 0 <= size < 2 ^ 64 -> len (puthead s t size) = headsize size.
Proof.
  intros Hs. unfold puthead, headsize. destruct (size <? 56); [done|]. unfold len, putint. simpl.
  rewrite BigEndian.put_length, intsize_putint by done. lia.
Qed.

(** ** The buffer *)

(** The string data of an item, the bytes its list headers take, the headers with
    their places. *)
Fixpoint flat (it : item) : bytes :=
  match it with
  | Str b => encodeString b
  | Lst l => concat (map flat l)
  end.
Fixpoint headBytes (it : item) : Z :=
  match it with
  | Str _ => 0
  | Lst l => fold_right (fun it acc => headBytes it + acc) 0 l + headsize (len (encodeAll l))
  end.
Fixpoint heads (off : nat) (it : item) : list listhead :=
  match it with
  | Str _ => []
  | Lst l =>
      mkHead off (len (encodeAll l)) ::
      (fix go off l := match l with
                       | [] => []
                       | it :: l' => heads off it ++ go (off + length (flat it))%nat l'
                       end) off l
  end.
Fixpoint headsAll (off : nat) (l : list item) : list listhead :=
  match l with
  | [] => []
  | it :: l' => heads off it ++ headsAll (off + length (flat it)) l'
  end.
Definition flatAll (l : list item) : bytes := concat (map flat l).
Definition headBytesAll (l : list item) : Z := fold_right (fun it acc => headBytes it + acc) 0 l.

Lemma heads_Lst off l : heads off (Lst l) = mkHead off (len (encodeAll l)) :: headsAll off l.
Proof. done. Qed.

Lemma len_app b1 b2 : len (b1 ++ b2) = len b1 + len b2.
Proof. unfold len. rewrite length_app. lia. Qed.
Lemma len_nonneg b : 0 <= len b.
Proof. unfold len. lia. Qed.

Lemma encode_Lst l : encode (Lst l) = puthead 0xC0 0xF7 (len (encodeAll l)) ++ encodeAll l.
Proof. done. Qed.

Lemma encodeAll_cons it l : encodeAll (it :: l) = encode it ++ encodeAll l.
Proof. done. Qed.
Lemma flatAll_cons it l : flatAll (it :: l) = flat it ++ flatAll l.
Proof. done. Qed.

(** Short enough for the headers' 64-bit sizes. *)
Definition small (b : bytes) : Prop := len b < 2 ^ 64.

Lemma small_app b1 b2 : small (b1 ++ b2) -> small b1 /\ small b2.
Proof. unfold small. rewrite len_app. pose proof (len_nonneg b1). pose proof (len_nonneg b2). lia. Qed.

Lemma small_Lst l : small (encode (Lst l)) -> small (encodeAll l).
Proof. rewrite encode_Lst. by intros [_ ?]%small_app. Qed.

Definition sizeOk (it : item) : Prop := small (encode it) -> len (encode it) = len (flat it) + headBytes it.

Lemma len_encodeAll l :
  Forall sizeOk l -> small (encodeAll l) -> len (encodeAll l) = len (flatAll l) + headBytesAll l.
Proof.
  induction 1 as [|it l Hit _ IH]; intros Hs; [done|].
  rewrite encodeAll_cons in *. apply small_app in Hs as [Hs1 Hs2].
  rewrite flatAll_cons, !len_app, IH, Hit by done. simpl. lia.
Qed.

Lemma len_encode it : sizeOk it.
Proof.
  induction it as [b|l IH] using item_ind'; intros Hs; [simpl; lia|].
  apply small_Lst in Hs as Hs'. rewrite encode_Lst, len_app, length_puthead by (split; [apply len_nonneg|done]).
  change (flat (Lst l)) with (flatAll l). change (headBytes (Lst l)) with (headBytesAll l + headsize (len (encodeAll l))).
  rewrite (len_encodeAll l IH Hs') at 2. lia.
Qed.

Definition written (it : item) : Prop :=
  forall w, small (encode it) ->
  writeItem it w = mkBuf (eb_str w ++ flat it) (eb_lheads w ++ heads (length (eb_str w)) it) (eb_lhsize w + headBytes it).

Lemma write_all l w :
  Forall written l -> small (encodeAll l) ->
  fold_left (fun w it => writeItem it w) l w =
  mkBuf (eb_str w ++ flatAll l) (eb_lheads w ++ headsAll (length (eb_str w)) l) (eb_lhsize w + headBytesAll l).
Proof.
  intros Hl. revert w. induction Hl as [|it l Hit _ IH]; intros w Hs.
  - simpl. rewrite !app_nil_r, Z.add_0_r. by destruct w.
  - rewrite encodeAll_cons in Hs. apply small_app in Hs as [Hs1 Hs2]. simpl. rewrite IH, Hit by done. simpl.
    rewrite flatAll_cons, length_app, !app_assoc. f_equal. lia.
Qed.

Lemma write_item it : written it.
Proof.
  induction it as [b|l IH] using item_ind'; intros w Hs.
  - simpl. unfold write. by rewrite app_nil_r, Z.add_0_r.
  - apply small_Lst in Hs as Hs'. cbn [writeItem list_]. rewrite write_all by done. simpl eb_str. simpl eb_lheads. simpl eb_lhsize.
    unfold listEnd. simpl eb_lheads. rewrite <- app_assoc. cbn [app]. rewrite list_lookup_middle by done.
    unfold encbuf_size. simpl eb_str. simpl eb_lhsize. cbn [lh_offset lh_size].
    assert (len (eb_str w ++ flatAll l) + (eb_lhsize w + headBytesAll l) - Z.of_nat (length (eb_str w)) - eb_lhsize w = len (encodeAll l)) as ->.
    { rewrite len_app, (len_encodeAll l (Forall_true _ _ len_encode) Hs'). unfold len. lia. }
    rewrite heads_Lst. change (flat (Lst l)) with (flatAll l). f_equal.
    + simpl. rewrite insert_app_r_alt by lia. by rewrite Nat.sub_diag.
    + change (headBytes (Lst l)) with (headBytesAll l + headsize (len (encodeAll l))). unfold headsize.
      destruct (len (encodeAll l) <? 56); lia.
Qed.

(** Rendering: nothing but string data up to the next header. *)
Definition startsAfter (q : nat) (hs : list listhead) : Prop :=
  match hs with [] => True | h :: _ => (q <= lh_offset h)%nat end.

Lemma render_data str p n hs :
  startsAfter (p + n) hs -> toBytesFrom str p hs = take n (drop p str) ++ toBytesFrom str (p + n) hs.
Proof.
  intros Hst. destruct hs as [|h hs]; simpl in *.
  - by rewrite <- drop_drop, take_drop.
  - rewrite !app_assoc. f_equal. f_equal. rewrite <- drop_drop. rewrite <- (take_drop n (drop p str)) at 1.
    rewrite take_app. rewrite take_take, Nat.min_r by lia.
    destruct (decide (n <= length (drop p str))%nat) as [Hn|Hn].
    + rewrite length_take, Nat.min_l by lia. f_equal. f_equal. lia.
    + rewrite (drop_ge (drop p str)) by lia. by rewrite !take_nil.
Qed.

Lemma headsAll_after off l q hs :
  (q <= off)%nat -> startsAfter (off + length (flatAll l)) hs -> startsAfter q (headsAll off l ++ hs).
Proof.
  revert off. induction l as [|it l IH]; intros off Hq Hst; simpl in *.
  - destruct hs as [|h hs]; simpl in *; [done|lia].
  - destruct it as [b|l0]; [|simpl; lia]. simpl. apply IH; [lia|]. rewrite flatAll_cons, length_app in Hst.
    by rewrite Nat.add_assoc in Hst.
Qed.

Definition rendered (it : item) : Prop :=
  forall pre post hs, startsAfter (length pre + length (flat it)) hs ->
  toBytesFrom (pre ++ flat it ++ post) (length pre) (heads (length pre) it ++ hs) =
  encode it ++ toBytesFrom (pre ++ flat it ++ post) (length pre + length (flat it)) hs.

Lemma render_all l :
  Forall rendered l -> forall pre post hs, startsAfter (length pre + length (flatAll l)) hs ->
  toBytesFrom (pre ++ flatAll l ++ post) (length pre) (headsAll (length pre) l ++ hs) =
  encodeAll l ++ toBytesFrom (pre ++ flatAll l ++ post) (length pre + length (flatAll l)) hs.
Proof.
  induction 1 as [|it l Hit _ IH]; intros pre post hs Hst; [simpl; by rewrite Nat.add_0_r|].
  rewrite flatAll_cons, length_app in *. rewrite encodeAll_cons. cbn [headsAll]. rewrite <- !app_assoc, Hit.
  - f_equal. specialize (IH (pre ++ flat it) post hs). rewrite length_app, <- !app_assoc in IH.
    rewrite Nat.add_assoc in Hst |- *. by apply IH.
  - apply headsAll_after; [done|]. by rewrite <- Nat.add_assoc.
Qed.

Lemma render_item it : rendered it.
Proof.
  induction it as [b|l IH] using item_ind'; intros pre post hs Hst.
  - simpl in *. rewrite (render_data _ _ _ _ Hst). f_equal. by rewrite drop_app_length, take_app_length.
  - rewrite heads_Lst, encode_Lst. simpl toBytesFrom at 1. rewrite Nat.sub_diag, take_0. simpl app at 1.
    rewrite <- app_assoc. f_equal. by apply render_all.
Qed.

(** What the buffer produces is the format. *)
Lemma EncodeToBytes_encode it : small (encode it) -> EncodeToBytes it = encode it.
Proof.
  intros Hs. unfold EncodeToBytes, toBytes. rewrite write_item by done. simpl.
  pose proof (render_item it [] [] []) as Hr. simpl in Hr. rewrite !app_nil_r in Hr. rewrite Hr by done.
  by rewrite drop_all, app_nil_r.
Qed.

(** ** Reading back *)

Lemma read_cons x b : BigEndian.read (x :: b) = Z_of_byte x * 256 ^ len b + BigEndian.read b.
Proof.
  induction b as [|y b IH] using rev_ind; [unfold BigEndian.read, len; simpl; lia|].
  rewrite app_comm_cons, !BigEndian.read_snoc, IH, len_app. change (len [y]) with 1.
  rewrite Z.pow_add_r by (first [apply len_nonneg|lia]). lia.
Qed.

Lemma read_putint i : 0 <= i < 2 ^ 64 -> BigEndian.read (putint i) = i.
Proof.
  intros Hi. destruct (putintSize_bound i Hi) as (_ & Hlt & _). unfold putint. rewrite BigEndian.read_put.
  apply Z.mod_small. lia.
Qed.

(** No leading zero byte. *)
Lemma putint_head i :
  0 < i < 2 ^ 64 -> exists x b, putint i = x :: b /\ Z_of_byte x <> 0.
Proof.
  intros Hi. destruct (putintSize_bound i ltac:(lia)) as (Hn & _ & Hge).
  pose proof (BigEndian.put_length (putintSize i) i) as Hl. pose proof (read_putint i ltac:(lia)) as Hr.
  fold (putint i) in Hl. destruct (putint i) as [|x b]; [simpl in Hl; lia|]. exists x, b. split; [done|]. intros Hx.
  rewrite read_cons, Hx in Hr. pose proof (BigEndian.read_range b) as Hb. simpl in Hl. destruct Hge as [E|Hge].
  - destruct b; [|simpl in Hl; lia]. unfold BigEndian.read in Hr. simpl in Hr. lia.
  - replace (putintSize i - 1)%nat with (length b) in Hge by lia. lia.
Qed.

Lemma readSize_putint size tail :
  56 <= size < 2 ^ 64 -> readSize (putint size ++ tail) (Z.of_nat (putintSize size)) = Ok size.
Proof.
  intros Hs. unfold readSize. assert (length (putint size) = putintSize size) as Hl by apply BigEndian.put_length.
  rewrite len_app. unfold len. rewrite Hl. rewrite (proj2 (Z.ltb_ge _ _)) by lia.
  rewrite Nat2Z.id, <- Hl, take_app_length, read_putint by lia.
  destruct (putint_head size ltac:(lia)) as (x & b & -> & Hx). simpl.
  rewrite (proj2 (Z.ltb_ge _ _)), (proj2 (Z.eqb_neq _ _)) by (done || lia). done.
Qed.

(** What [Split] calls the item, and the content it returns. *)
Definition kindOf (it : item) : Kind :=
  match it with
  | Str [x] => if Z_of_byte x <=? 0x7F then Byte_ else String_
  | Str _ => String_
  | Lst _ => List_
  end.
Definition payloadOf (it : item) : bytes :=
  match it with Str b => b | Lst l => encodeAll l end.

Definition headerOf (it : item) : bytes :=
  match it with
  | Str b => if decide (kindOf it = Byte_) then [] else encodeStringHeader (len b)
  | Lst l => puthead 0xC0 0xF7 (len (encodeAll l))
  end.

Lemma encode_parts it : encode it = headerOf it ++ payloadOf it.
Proof.
  destruct it as [b|l]; [|done]. unfold headerOf. simpl.
  destruct b as [|x [|y b]]; simpl; [done| |done]. by destruct (Z_of_byte x <=? 127).
Qed.

Lemma tag_of n m : 0 <= m < 256 -> n = m -> Z_of_byte (byte_of_Z n) = m.
Proof. intros Hm ->. rewrite Z_of_byte_of_Z. by apply Z.mod_small. Qed.

(** The tag byte decides the kind and the sizes. *)
Definition readTag (x : Byte.byte) (rest : bytes) : outcome rlpError (Kind * Z * Z) :=
  let b := Z_of_byte x in
  if b <? 0x80 then Ok (Byte_, 0, 1)
  else if b <? 0xB8 then
    let contentsize := b - 0x80 in
    match rest with
    | y :: _ =>
        if (contentsize =? 1) && (Z_of_byte y <? 128) then Err ErrCanonSize
        else Ok (String_, 1, contentsize)
    | [] => Ok (String_, 1, contentsize)
    end
  else if b <? 0xC0 then
    s <-! readSize rest (b - 0xB7) ;; Ok (String_, b - 0xB7 + 1, s)
  else if b <? 0xF8 then Ok (List_, 1, b - 0xC0)
  else s <-! readSize rest (b - 0xF7) ;; Ok (List_, b - 0xF7 + 1, s).

Lemma readKind_tag x rest k ts cs :
  small (x :: rest) -> readTag x rest = Ok (k, ts, cs) -> 0 <= ts -> 0 <= cs -> ts + cs <= len (x :: rest) ->
  readKind (x :: rest) = Ok (k, ts, cs).
Proof.
  intros Hs Hr Ht Hc Hl. unfold readKind. fold (readTag x rest). rewrite Hr. cbn [obind].
  assert (wrap64 (len (x :: rest) - ts) = len (x :: rest) - ts) as ->.
  { apply Z.mod_small. unfold small in Hs. change two64 with (2 ^ 64). lia. }
  by rewrite (proj2 (Z.ltb_ge _ _)) by lia.
Qed.

Lemma readTag_string b rest :
  small b -> kindOf (Str b) <> Byte_ ->
  exists x h, encodeStringHeader (len b) = x :: h /\
    readTag x (h ++ b ++ rest) = Ok (String_, len (encodeStringHeader (len b)), len b).
Proof.
  intros Hs Hk. pose proof (len_nonneg b) as Hn. unfold encodeStringHeader. destruct (Z.ltb_spec (len b) 56) as [H|H].
  - do 2 eexists. split; [done|]. unfold readTag. rewrite (tag_of _ (0x80 + len b)) by lia. cbv zeta.
    rewrite (proj2 (Z.ltb_ge _ _)), (proj2 (Z.ltb_lt _ _)) by lia. replace (128 + len b - 128) with (len b) by lia. simpl app.
    destruct b as [|x [|y b]]; cbn [app].
    + by destruct rest.
    + simpl in Hk |- *. destruct (Z.leb_spec (Z_of_byte x) 127); [done|]. by rewrite (proj2 (Z.ltb_ge _ _)) by lia.
    + rewrite (proj2 (Z.eqb_neq _ _)); [done|]. unfold len. simpl. lia.
  - destruct (putintSize_bound (len b) ltac:(unfold small in Hs; lia)) as (Hz & _). do 2 eexists. split; [done|]. unfold readTag.
    rewrite (tag_of _ (0xB7 + Z.of_nat (putintSize (len b)))) by lia. cbv zeta.
    rewrite 2!(proj2 (Z.ltb_ge _ _)), (proj2 (Z.ltb_lt _ _)) by lia.
    replace (183 + Z.of_nat (putintSize (len b)) - 183) with (Z.of_nat (putintSize (len b))) by lia.
    rewrite readSize_putint by (unfold small in Hs; lia). cbn [obind]. do 3 f_equal.
    unfold len, putint. simpl. rewrite BigEndian.put_length. lia.
Qed.

Lemma readTag_list b rest :
  small b ->
  exists x h, puthead 0xC0 0xF7 (len b) = x :: h /\
    readTag x (h ++ b ++ rest) = Ok (List_, len (puthead 0xC0 0xF7 (len b)), len b).
Proof.
  intros Hs. pose proof (len_nonneg b) as Hn. unfold puthead. destruct (Z.ltb_spec (len b) 56) as [H|H].
  - do 2 eexists. split; [done|]. unfold readTag. rewrite (tag_of _ (0xC0 + len b)) by lia. cbv zeta.
    rewrite 3!(proj2 (Z.ltb_ge _ _)), (proj2 (Z.ltb_lt _ _)) by lia. do 3 f_equal. lia.
  - destruct (putintSize_bound (len b) ltac:(unfold small in Hs; lia)) as (Hz & _). do 2 eexists. split; [done|]. unfold readTag.
    rewrite (tag_of _ (0xF7 + Z.of_nat (putintSize (len b)))) by lia. cbv zeta.
    rewrite 4!(proj2 (Z.ltb_ge _ _)) by lia.
    replace (247 + Z.of_nat (putintSize (len b)) - 247) with (Z.of_nat (putintSize (len b))) by lia.
    rewrite readSize_putint by (unfold small in Hs; lia). cbn [obind]. do 3 f_equal.
    unfold len, putint. simpl. rewrite BigEndian.put_length. lia.
Qed.

Lemma readKind_parts hd x h c rest k :
  hd = x :: h -> small (hd ++ c ++ rest) -> readTag x (h ++ c ++ rest) = Ok (k, len hd, len c) ->
  readKind (hd ++ c ++ rest) = Ok (k, len hd, len c).
Proof.
  intros -> Hs Hr. apply (readKind_tag x (h ++ c ++ rest)); [done|done|apply len_nonneg|apply len_nonneg|].
  rewrite app_comm_cons, !len_app. pose proof (len_nonneg rest). lia.
Qed.

Lemma readKind_encode it rest :
  small (encode it ++ rest) -> readKind (encode it ++ rest) = Ok (kindOf it, len (headerOf it), len (payloadOf it)).
Proof.
  intros Hs. assert (small (payloadOf it)) as Hc.
  { apply small_app in Hs as [Hs _]. rewrite encode_parts in Hs. by apply small_app in Hs as [_ ?]. }
  rewrite encode_parts, <- app_assoc in *. destruct it as [b|l].
  - simpl payloadOf in *. unfold headerOf in *. destruct (decide (kindOf (Str b) = Byte_)) as [Hk|Hk].
    + rewrite Hk. simpl in Hk. destruct b as [|x [|y b]]; [done| |done].
      destruct (Z.leb_spec (Z_of_byte x) 127); [|done]. apply (readKind_tag x rest); [done| |done|done|unfold len; simpl; lia].
      unfold readTag. by rewrite (proj2 (Z.ltb_lt _ _)) by lia.
    + destruct (readTag_string b rest Hc Hk) as (x & h & E & Hr).
      assert (kindOf (Str b) = String_) as ->; [|by eapply readKind_parts].
      simpl in *. destruct b as [|x0 [|y b]]; [done| |done]. by destruct (Z_of_byte x0 <=? 127).
  - destruct (readTag_list (encodeAll l) rest Hc) as (x & h & E & Hr). by eapply readKind_parts.
Qed.

Lemma Split_encode it rest :
  small (encode it ++ rest) -> Split (encode it ++ rest) = Ok (kindOf it, payloadOf it, rest).
Proof.
  intros Hs. unfold Split. rewrite readKind_encode by done. cbn [obind]. rewrite encode_parts, <- app_assoc.
  unfold len. rewrite <- Nat2Z.inj_add, !Nat2Z.id, drop_app_length, take_app_length, <- drop_drop, !drop_app_length. done.
Qed.

Lemma SplitString_encode b rest :
  small (encode (Str b) ++ rest) -> SplitString (encode (Str b) ++ rest) = Ok (b, rest).
Proof.
  intros Hs. unfold SplitString. rewrite Split_encode by done. cbn [obind]. rewrite decide_False; [done|].
  simpl. destruct b as [|x [|y b]]; [done| |done]. by destruct (Z_of_byte x <=? 127).
Qed.

Lemma SplitList_encode l rest :
  small (encode (Lst l) ++ rest) -> SplitList (encode (Lst l) ++ rest) = Ok (encodeAll l, rest).
Proof. intros Hs. unfold SplitList. by rewrite Split_encode by done. Qed.

Lemma encode_nonempty it : (0 < length (encode it))%nat.
Proof.
  rewrite encode_parts, length_app. destruct it as [b|l]; unfold headerOf; simpl.
  - destruct b as [|x b]; simpl; lia.
  - unfold puthead. destruct (_ <? _); simpl; lia.
Qed.

Lemma countFrom_encode l fuel i :
  small (encodeAll l) -> (length l <= fuel)%nat -> countFrom fuel i (encodeAll l) = Ok (i + Z.of_nat (length l)).
Proof.
  revert fuel i. induction l as [|it l IH]; intros fuel i Hs Hf; [destruct fuel; simpl; f_equal; lia|].
  destruct fuel as [|fuel]; [simpl in Hf; lia|]. pose proof (encode_nonempty it) as Hne.
  rewrite encodeAll_cons in *. apply small_app in Hs as Hs'. pose proof (readKind_encode it (encodeAll l) Hs) as Hr.
  pose proof (f_equal length (encode_parts it)) as Hl. rewrite length_app in Hl.
  destruct (encode it ++ encodeAll l) as [|x t] eqn:E; [destruct (encode it); simpl in *; [lia|done]|].
  cbn [countFrom]. rewrite Hr. cbn [obind]. unfold len. rewrite <- Nat2Z.inj_add, Nat2Z.id, <- Hl, <- E, drop_app_length.
  rewrite IH by (simpl in *; tauto || lia). simpl. f_equal. lia.
Qed.

Lemma CountValues_encode l : small (encodeAll l) -> CountValues (encodeAll l) = Ok (Z.of_nat (length l)).
Proof.
  intros Hs. apply countFrom_encode; [done|]. clear. induction l as [|it l IH]; [done|].
  rewrite encodeAll_cons, length_app. pose proof (encode_nonempty it). simpl. lia.
Qed.

(** Different items have different encodings. *)
Lemma encode_prefix it it' rest rest' :
  small (encode it ++ rest) -> encode it ++ rest = encode it' ++ rest' -> it = it' /\ rest = rest'.
Proof.
  revert it' rest rest'. induction it as [b|l IH] using item_ind'; intros it' rest rest' Hs E.
  all: pose proof (Split_encode _ rest Hs) as H1; rewrite E in Hs, H1; pose proof (Split_encode it' rest' Hs) as H2;
    rewrite H1 in H2; injection H2 as Hk Hc Hr; (split; [|done]).
  - destruct it' as [b'|l']; [simpl in Hc; congruence|]. simpl in Hk. destruct b as [|x [|y b]]; try done.
    by destruct (Z_of_byte x <=? 127).
  - destruct it' as [b'|l']; [simpl in Hk; destruct b' as [|x [|y b']]; try done; by destruct (Z_of_byte x <=? 127)|].
    simpl in Hc. f_equal. apply small_app in Hs as [Hs _]. apply small_Lst in Hs. rewrite <- Hc in Hs. clear -IH Hc Hs.
    revert l' Hc Hs. induction IH as [|it l Hit _ IHl]; intros [|it' l'] Hc Hs; [done| | |].
    + pose proof (encode_nonempty it') as Hn. apply (f_equal length) in Hc. rewrite encodeAll_cons, length_app in Hc. simpl in Hc. lia.
    + pose proof (encode_nonempty it) as Hn. apply (f_equal length) in Hc. rewrite encodeAll_cons, length_app in Hc. simpl in Hc. lia.
    + rewrite !encodeAll_cons in *. destruct (Hit _ _ _ Hs Hc) as [-> Hc']. apply small_app in Hs as [_ Hs]. f_equal. by apply IHl.
Qed.

Lemma encode_inj it it' : small (encode it) -> encode it = encode it' -> it = it'.
Proof. intros Hs E. apply (encode_prefix it it' [] []); by rewrite !app_nil_r. Qed.
