(* ===== verification/Keccak.v ===== *)
(** * Keccak: the hash of the trie nodes

    [src/storage/sha3]: the permutation of [keccakf.go], written for speed with four
    rounds unrolled that leave the lanes in permuted places, and the sponge of
    [sha3.go], which takes its input in chunks of any size.  [round1] to [round4] are
    the assignments of the source, a lane of the array per variable.

    On amd64 an assembly version of the permutation is linked in its place. *)
From Stdlib Require Import Btauto.
From S2P Require Import Prelude Bytes.
Local Open Scope Z_scope.

(** ** The permutation *)

Definition rotl (t : Z) (n : Z) : Z := Z.lor (wrap64 (Z.shiftl t n)) (Z.shiftr t (64 - n)).

Definition rc : list Z := [
  0x0000000000000001; 0x0000000000008082; 0x800000000000808A; 0x8000000080008000;
  0x000000000000808B; 0x0000000080000001; 0x8000000080008081; 0x8000000000008009;
  0x000000000000008A; 0x0000000000000088; 0x0000000080008009; 0x000000008000000A;
  0x000000008000808B; 0x800000000000008B; 0x8000000000008089; 0x8000000000008003;
  0x8000000000008002; 0x8000000000000080; 0x000000000000800A; 0x800000008000000A;
  0x8000000080008081; 0x8000000000008080; 0x0000000080000001; 0x8000000080008008].

Definition round1 (rc : Z) (a : list Z) : list Z :=
  match a with
  | [a0; a1; a2; a3; a4; a5; a6; a7; a8; a9; a10; a11; a12; a13; a14; a15; a16; a17; a18; a19; a20; a21; a22; a23; a24] =>
      let bc0 := Z.lxor (Z.lxor (Z.lxor (Z.lxor a0 a5) a10) a15) a20 in
      let bc1 := Z.lxor (Z.lxor (Z.lxor (Z.lxor a1 a6) a11) a16) a21 in
      let bc2 := Z.lxor (Z.lxor (Z.lxor (Z.lxor a2 a7) a12) a17) a22 in
      let bc3 := Z.lxor (Z.lxor (Z.lxor (Z.lxor a3 a8) a13) a18) a23 in
      let bc4 := Z.lxor (Z.lxor (Z.lxor (Z.lxor a4 a9) a14) a19) a24 in
      let d0 := Z.lxor bc4 (rotl bc1 1) in
      let d1 := Z.lxor bc0 (rotl bc2 1) in
      let d2 := Z.lxor bc1 (rotl bc3 1) in
      let d3 := Z.lxor bc2 (rotl bc4 1) in
      let d4 := Z.lxor bc3 (rotl bc0 1) in
      let bc0 := Z.lxor a0 d0 in
      let t := Z.lxor a6 d1 in
      let bc1 := rotl t 44 in
      let t := Z.lxor a12 d2 in
      let bc2 := rotl t 43 in
      let t := Z.lxor a18 d3 in
      let bc3 := rotl t 21 in
      let t := Z.lxor a24 d4 in
      let bc4 := rotl t 14 in
      let a0 := Z.lxor (Z.lxor bc0 (Z.ldiff bc2 bc1)) rc in
      let a6 := Z.lxor bc1 (Z.ldiff bc3 bc2) in
      let a12 := Z.lxor bc2 (Z.ldiff bc4 bc3) in
      let a18 := Z.lxor bc3 (Z.ldiff bc0 bc4) in
      let a24 := Z.lxor bc4 (Z.ldiff bc1 bc0) in
      let t := Z.lxor a10 d0 in
      let bc2 := rotl t 3 in
      let t := Z.lxor a16 d1 in
      let bc3 := rotl t 45 in
      let t := Z.lxor a22 d2 in
      let bc4 := rotl t 61 in
      let t := Z.lxor a3 d3 in
      let bc0 := rotl t 28 in
      let t := Z.lxor a9 d4 in
      let bc1 := rotl t 20 in
      let a10 := Z.lxor bc0 (Z.ldiff bc2 bc1) in
      let a16 := Z.lxor bc1 (Z.ldiff bc3 bc2) in
      let a22 := Z.lxor bc2 (Z.ldiff bc4 bc3) in
      let a3 := Z.lxor bc3 (Z.ldiff bc0 bc4) in
      let a9 := Z.lxor bc4 (Z.ldiff bc1 bc0) in
      let t := Z.lxor a20 d0 in
      let bc4 := rotl t 18 in
      let t := Z.lxor a1 d1 in
      let bc0 := rotl t 1 in
      let t := Z.lxor a7 d2 in
      let bc1 := rotl t 6 in
      let t := Z.lxor a13 d3 in
      let bc2 := rotl t 25 in
      let t := Z.lxor a19 d4 in
      let bc3 := rotl t 8 in
      let a20 := Z.lxor bc0 (Z.ldiff bc2 bc1) in
      let a1 := Z.lxor bc1 (Z.ldiff bc3 bc2) in
      let a7 := Z.lxor bc2 (Z.ldiff bc4 bc3) in
      let a13 := Z.lxor bc3 (Z.ldiff bc0 bc4) in
      let a19 := Z.lxor bc4 (Z.ldiff bc1 bc0) in
      let t := Z.lxor a5 d0 in
      let bc1 := rotl t 36 in
      let t := Z.lxor a11 d1 in
      let bc2 := rotl t 10 in
      let t := Z.lxor a17 d2 in
      let bc3 := rotl t 15 in
      let t := Z.lxor a23 d3 in
      let bc4 := rotl t 56 in
      let t := Z.lxor a4 d4 in
      let bc0 := rotl t 27 in
      let a5 := Z.lxor bc0 (Z.ldiff bc2 bc1) in
      let a11 := Z.lxor bc1 (Z.ldiff bc3 bc2) in
      let a17 := Z.lxor bc2 (Z.ldiff bc4 bc3) in
      let a23 := Z.lxor bc3 (Z.ldiff bc0 bc4) in
      let a4 := Z.lxor bc4 (Z.ldiff bc1 bc0) in
      let t := Z.lxor a15 d0 in
      let bc3 := rotl t 41 in
      let t := Z.lxor a21 d1 in
      let bc4 := rotl t 2 in
      let t := Z.lxor a2 d2 in
      let bc0 := rotl t 62 in
      let t := Z.lxor a8 d3 in
      let bc1 := rotl t 55 in
      let t := Z.lxor a14 d4 in
      let bc2 := rotl t 39 in
      let a15 := Z.lxor bc0 (Z.ldiff bc2 bc1) in
      let a21 := Z.lxor bc1 (Z.ldiff bc3 bc2) in
      let a2 := Z.lxor bc2 (Z.ldiff bc4 bc3) in
      let a8 := Z.lxor bc3 (Z.ldiff bc0 bc4) in
      let a14 := Z.lxor bc4 (Z.ldiff bc1 bc0) in
      [a0; a1; a2; a3; a4; a5; a6; a7; a8; a9; a10; a11; a12; a13; a14; a15; a16; a17; a18; a19; a20; a21; a22; a23; a24]
  | _ => a
  end.

Definition round2 (rc : Z) (a : list Z) : list Z :=
  match a with
  | [a0; a1; a2; a3; a4; a5; a6; a7; a8; a9; a10; a11; a12; a13; a14; a15; a16; a17; a18; a19; a20; a21; a22; a23; a24] =>
      let bc0 := Z.lxor (Z.lxor (Z.lxor (Z.lxor a0 a5) a10) a15) a20 in
      let bc1 := Z.lxor (Z.lxor (Z.lxor (Z.lxor a1 a6) a11) a16) a21 in
      let bc2 := Z.lxor (Z.lxor (Z.lxor (Z.lxor a2 a7) a12) a17) a22 in
      let bc3 := Z.lxor (Z.lxor (Z.lxor (Z.lxor a3 a8) a13) a18) a23 in
      let bc4 := Z.lxor (Z.lxor (Z.lxor (Z.lxor a4 a9) a14) a19) a24 in
      let d0 := Z.lxor bc4 (rotl bc1 1) in
      let d1 := Z.lxor bc0 (rotl bc2 1) in
      let d2 := Z.lxor bc1 (rotl bc3 1) in
      let d3 := Z.lxor bc2 (rotl bc4 1) in
      let d4 := Z.lxor bc3 (rotl bc0 1) in
      let bc0 := Z.lxor a0 d0 in
      let t := Z.lxor a16 d1 in
      let bc1 := rotl t 44 in
      let t := Z.lxor a7 d2 in
      let bc2 := rotl t 43 in
      let t := Z.lxor a23 d3 in
      let bc3 := rotl t 21 in
      let t := Z.lxor a14 d4 in
      let bc4 := rotl t 14 in
      let a0 := Z.lxor (Z.lxor bc0 (Z.ldiff bc2 bc1)) rc in
      let a16 := Z.lxor bc1 (Z.ldiff bc3 bc2) in
      let a7 := Z.lxor bc2 (Z.ldiff bc4 bc3) in
      let a23 := Z.lxor bc3 (Z.ldiff bc0 bc4) in
      let a14 := Z.lxor bc4 (Z.ldiff bc1 bc0) in
      let t := Z.lxor a20 d0 in
      let bc2 := rotl t 3 in
      let t := Z.lxor a11 d1 in
      let bc3 := rotl t 45 in
      let t := Z.lxor a2 d2 in
      let bc4 := rotl t 61 in
      let t := Z.lxor a18 d3 in
      let bc0 := rotl t 28 in
      let t := Z.lxor a9 d4 in
      let bc1 := rotl t 20 in
      let a20 := Z.lxor bc0 (Z.ldiff bc2 bc1) in
      let a11 := Z.lxor bc1 (Z.ldiff bc3 bc2) in
      let a2 := Z.lxor bc2 (Z.ldiff bc4 bc3) in
      let a18 := Z.lxor bc3 (Z.ldiff bc0 bc4) in
      let a9 := Z.lxor bc4 (Z.ldiff bc1 bc0) in
      let t := Z.lxor a15 d0 in
      let bc4 := rotl t 18 in
      let t := Z.lxor a6 d1 in
      let bc0 := rotl t 1 in
      let t := Z.lxor a22 d2 in
      let bc1 := rotl t 6 in
      let t := Z.lxor a13 d3 in
      let bc2 := rotl t 25 in
      let t := Z.lxor a4 d4 in
      let bc3 := rotl t 8 in
      let a15 := Z.lxor bc0 (Z.ldiff bc2 bc1) in
      let a6 := Z.lxor bc1 (Z.ldiff bc3 bc2) in
      let a22 := Z.lxor bc2 (Z.ldiff bc4 bc3) in
      let a13 := Z.lxor bc3 (Z.ldiff bc0 bc4) in
      let a4 := Z.lxor bc4 (Z.ldiff bc1 bc0) in
      let t := Z.lxor a10 d0 in
      let bc1 := rotl t 36 in
      let t := Z.lxor a1 d1 in
      let bc2 := rotl t 10 in
      let t := Z.lxor a17 d2 in
      let bc3 := rotl t 15 in
      let t := Z.lxor a8 d3 in
      let bc4 := rotl t 56 in
      let t := Z.lxor a24 d4 in
      let bc0 := rotl t 27 in
      let a10 := Z.lxor bc0 (Z.ldiff bc2 bc1) in
      let a1 := Z.lxor bc1 (Z.ldiff bc3 bc2) in
      let a17 := Z.lxor bc2 (Z.ldiff bc4 bc3) in
      let a8 := Z.lxor bc3 (Z.ldiff bc0 bc4) in
      let a24 := Z.lxor bc4 (Z.ldiff bc1 bc0) in
      let t := Z.lxor a5 d0 in
      let bc3 := rotl t 41 in
      let t := Z.lxor a21 d1 in
      let bc4 := rotl t 2 in
      let t := Z.lxor a12 d2 in
      let bc0 := rotl t 62 in
      let t := Z.lxor a3 d3 in
      let bc1 := rotl t 55 in
      let t := Z.lxor a19 d4 in
      let bc2 := rotl t 39 in
      let a5 := Z.lxor bc0 (Z.ldiff bc2 bc1) in
      let a21 := Z.lxor bc1 (Z.ldiff bc3 bc2) in
      let a12 := Z.lxor bc2 (Z.ldiff bc4 bc3) in
      let a3 := Z.lxor bc3 (Z.ldiff bc0 bc4) in
      let a19 := Z.lxor bc4 (Z.ldiff bc1 bc0) in
      [a0; a1; a2; a3; a4; a5; a6; a7; a8; a9; a10; a11; a12; a13; a14; a15; a16; a17; a18; a19; a20; a21; a22; a23; a24]
  | _ => a
  end.

Definition round3 (rc : Z) (a : list Z) : list Z :=
  match a with
  | [a0; a1; a2; a3; a4; a5; a6; a7; a8; a9; a10; a11; a12; a13; a14; a15; a16; a17; a18; a19; a20; a21; a22; a23; a24] =>
      let bc0 := Z.lxor (Z.lxor (Z.lxor (Z.lxor a0 a5) a10) a15) a20 in
      let bc1 := Z.lxor (Z.lxor (Z.lxor (Z.lxor a1 a6) a11) a16) a21 in
      let bc2 := Z.lxor (Z.lxor (Z.lxor (Z.lxor a2 a7) a12) a17) a22 in
      let bc3 := Z.lxor (Z.lxor (Z.lxor (Z.lxor a3 a8) a13) a18) a23 in
      let bc4 := Z.lxor (Z.lxor (Z.lxor (Z.lxor a4 a9) a14) a19) a24 in
      let d0 := Z.lxor bc4 (rotl bc1 1) in
      let d1 := Z.lxor bc0 (rotl bc2 1) in
      let d2 := Z.lxor bc1 (rotl bc3 1) in
      let d3 := Z.lxor bc2 (rotl bc4 1) in
      let d4 := Z.lxor bc3 (rotl bc0 1) in
      let bc0 := Z.lxor a0 d0 in
      let t := Z.lxor a11 d1 in
      let bc1 := rotl t 44 in
      let t := Z.lxor a22 d2 in
      let bc2 := rotl t 43 in
      let t := Z.lxor a8 d3 in
      let bc3 := rotl t 21 in
      let t := Z.lxor a19 d4 in
      let bc4 := rotl t 14 in
      let a0 := Z.lxor (Z.lxor bc0 (Z.ldiff bc2 bc1)) rc in
      let a11 := Z.lxor bc1 (Z.ldiff bc3 bc2) in
      let a22 := Z.lxor bc2 (Z.ldiff bc4 bc3) in
      let a8 := Z.lxor bc3 (Z.ldiff bc0 bc4) in
      let a19 := Z.lxor bc4 (Z.ldiff bc1 bc0) in
      let t := Z.lxor a15 d0 in
      let bc2 := rotl t 3 in
      let t := Z.lxor a1 d1 in
      let bc3 := rotl t 45 in
      let t := Z.lxor a12 d2 in
      let bc4 := rotl t 61 in
      let t := Z.lxor a23 d3 in
      let bc0 := rotl t 28 in
      let t := Z.lxor a9 d4 in
      let bc1 := rotl t 20 in
      let a15 := Z.lxor bc0 (Z.ldiff bc2 bc1) in
      let a1 := Z.lxor bc1 (Z.ldiff bc3 bc2) in
      let a12 := Z.lxor bc2 (Z.ldiff bc4 bc3) in
      let a23 := Z.lxor bc3 (Z.ldiff bc0 bc4) in
      let a9 := Z.lxor bc4 (Z.ldiff bc1 bc0) in
      let t := Z.lxor a5 d0 in
      let bc4 := rotl t 18 in
      let t := Z.lxor a16 d1 in
      let bc0 := rotl t 1 in
      let t := Z.lxor a2 d2 in
      let bc1 := rotl t 6 in
      let t := Z.lxor a13 d3 in
      let bc2 := rotl t 25 in
      let t := Z.lxor a24 d4 in
      let bc3 := rotl t 8 in
      let a5 := Z.lxor bc0 (Z.ldiff bc2 bc1) in
      let a16 := Z.lxor bc1 (Z.ldiff bc3 bc2) in
      let a2 := Z.lxor bc2 (Z.ldiff bc4 bc3) in
      let a13 := Z.lxor bc3 (Z.ldiff bc0 bc4) in
      let a24 := Z.lxor bc4 (Z.ldiff bc1 bc0) in
      let t := Z.lxor a20 d0 in
      let bc1 := rotl t 36 in
      let t := Z.lxor a6 d1 in
      let bc2 := rotl t 10 in
      let t := Z.lxor a17 d2 in
      let bc3 := rotl t 15 in
      let t := Z.lxor a3 d3 in
      let bc4 := rotl t 56 in
      let t := Z.lxor a14 d4 in
      let bc0 := rotl t 27 in
      let a20 := Z.lxor bc0 (Z.ldiff bc2 bc1) in
      let a6 := Z.lxor bc1 (Z.ldiff bc3 bc2) in
      let a17 := Z.lxor bc2 (Z.ldiff bc4 bc3) in
      let a3 := Z.lxor bc3 (Z.ldiff bc0 bc4) in
      let a14 := Z.lxor bc4 (Z.ldiff bc1 bc0) in
      let t := Z.lxor a10 d0 in
      let bc3 := rotl t 41 in
      let t := Z.lxor a21 d1 in
      let bc4 := rotl t 2 in
      let t := Z.lxor a7 d2 in
      let bc0 := rotl t 62 in
      let t := Z.lxor a18 d3 in
      let bc1 := rotl t 55 in
      let t := Z.lxor a4 d4 in
      let bc2 := rotl t 39 in
      let a10 := Z.lxor bc0 (Z.ldiff bc2 bc1) in
      let a21 := Z.lxor bc1 (Z.ldiff bc3 bc2) in
      let a7 := Z.lxor bc2 (Z.ldiff bc4 bc3) in
      let a18 := Z.lxor bc3 (Z.ldiff bc0 bc4) in
      let a4 := Z.lxor bc4 (Z.ldiff bc1 bc0) in
      [a0; a1; a2; a3; a4; a5; a6; a7; a8; a9; a10; a11; a12; a13; a14; a15; a16; a17; a18; a19; a20; a21; a22; a23; a24]
  | _ => a
  end.

Definition round4 (rc : Z) (a : list Z) : list Z :=
  match a with
  | [a0; a1; a2; a3; a4; a5; a6; a7; a8; a9; a10; a11; a12; a13; a14; a15; a16; a17; a18; a19; a20; a21; a22; a23; a24] =>
      let bc0 := Z.lxor (Z.lxor (Z.lxor (Z.lxor a0 a5) a10) a15) a20 in
      let bc1 := Z.lxor (Z.lxor (Z.lxor (Z.lxor a1 a6) a11) a16) a21 in
      let bc2 := Z.lxor (Z.lxor (Z.lxor (Z.lxor a2 a7) a12) a17) a22 in
      let bc3 := Z.lxor (Z.lxor (Z.lxor (Z.lxor a3 a8) a13) a18) a23 in
      let bc4 := Z.lxor (Z.lxor (Z.lxor (Z.lxor a4 a9) a14) a19) a24 in
      let d0 := Z.lxor bc4 (rotl bc1 1) in
      let d1 := Z.lxor bc0 (rotl bc2 1) in
      let d2 := Z.lxor bc1 (rotl bc3 1) in
      let d3 := Z.lxor bc2 (rotl bc4 1) in
      let d4 := Z.lxor bc3 (rotl bc0 1) in
      let bc0 := Z.lxor a0 d0 in
      let t := Z.lxor a1 d1 in
      let bc1 := rotl t 44 in
      let t := Z.lxor a2 d2 in
      let bc2 := rotl t 43 in
      let t := Z.lxor a3 d3 in
      let bc3 := rotl t 21 in
      let t := Z.lxor a4 d4 in
      let bc4 := rotl t 14 in
      let a0 := Z.lxor (Z.lxor bc0 (Z.ldiff bc2 bc1)) rc in
      let a1 := Z.lxor bc1 (Z.ldiff bc3 bc2) in
      let a2 := Z.lxor bc2 (Z.ldiff bc4 bc3) in
      let a3 := Z.lxor bc3 (Z.ldiff bc0 bc4) in
      let a4 := Z.lxor bc4 (Z.ldiff bc1 bc0) in
      let t := Z.lxor a5 d0 in
      let bc2 := rotl t 3 in
      let t := Z.lxor a6 d1 in
      let bc3 := rotl t 45 in
      let t := Z.lxor a7 d2 in
      let bc4 := rotl t 61 in
      let t := Z.lxor a8 d3 in
      let bc0 := rotl t 28 in
      let t := Z.lxor a9 d4 in
      let bc1 := rotl t 20 in
      let a5 := Z.lxor bc0 (Z.ldiff bc2 bc1) in
      let a6 := Z.lxor bc1 (Z.ldiff bc3 bc2) in
      let a7 := Z.lxor bc2 (Z.ldiff bc4 bc3) in
      let a8 := Z.lxor bc3 (Z.ldiff bc0 bc4) in
      let a9 := Z.lxor bc4 (Z.ldiff bc1 bc0) in
      let t := Z.lxor a10 d0 in
      let bc4 := rotl t 18 in
      let t := Z.lxor a11 d1 in
      let bc0 := rotl t 1 in
      let t := Z.lxor a12 d2 in
      let bc1 := rotl t 6 in
      let t := Z.lxor a13 d3 in
      let bc2 := rotl t 25 in
      let t := Z.lxor a14 d4 in
      let bc3 := rotl t 8 in
      let a10 := Z.lxor bc0 (Z.ldiff bc2 bc1) in
      let a11 := Z.lxor bc1 (Z.ldiff bc3 bc2) in
      let a12 := Z.lxor bc2 (Z.ldiff bc4 bc3) in
      let a13 := Z.lxor bc3 (Z.ldiff bc0 bc4) in
      let a14 := Z.lxor bc4 (Z.ldiff bc1 bc0) in
      let t := Z.lxor a15 d0 in
      let bc1 := rotl t 36 in
      let t := Z.lxor a16 d1 in
      let bc2 := rotl t 10 in
      let t := Z.lxor a17 d2 in
      let bc3 := rotl t 15 in
      let t := Z.lxor a18 d3 in
      let bc4 := rotl t 56 in
      let t := Z.lxor a19 d4 in
      let bc0 := rotl t 27 in
      let a15 := Z.lxor bc0 (Z.ldiff bc2 bc1) in
      let a16 := Z.lxor bc1 (Z.ldiff bc3 bc2) in
      let a17 := Z.lxor bc2 (Z.ldiff bc4 bc3) in
      let a18 := Z.lxor bc3 (Z.ldiff bc0 bc4) in
      let a19 := Z.lxor bc4 (Z.ldiff bc1 bc0) in
      let t := Z.lxor a20 d0 in
      let bc3 := rotl t 41 in
      let t := Z.lxor a21 d1 in
      let bc4 := rotl t 2 in
      let t := Z.lxor a22 d2 in
      let bc0 := rotl t 62 in
      let t := Z.lxor a23 d3 in
      let bc1 := rotl t 55 in
      let t := Z.lxor a24 d4 in
      let bc2 := rotl t 39 in
      let a20 := Z.lxor bc0 (Z.ldiff bc2 bc1) in
      let a21 := Z.lxor bc1 (Z.ldiff bc3 bc2) in
      let a22 := Z.lxor bc2 (Z.ldiff bc4 bc3) in
      let a23 := Z.lxor bc3 (Z.ldiff bc0 bc4) in
      let a24 := Z.lxor bc4 (Z.ldiff bc1 bc0) in
      [a0; a1; a2; a3; a4; a5; a6; a7; a8; a9; a10; a11; a12; a13; a14; a15; a16; a17; a18; a19; a20; a21; a22; a23; a24]
  | _ => a
  end.

(** [for i := 0; i < 24; i += 4] *)
Fixpoint keccakLoop (rcs a : list Z) : list Z :=
  match rcs with
  | c0 :: c1 :: c2 :: c3 :: rcs' => keccakLoop rcs' (round4 c3 (round3 c2 (round2 c1 (round1 c0 a))))
  | _ => a
  end.
Definition keccakF1600 (a : list Z) : list Z := keccakLoop rc a.

(** ** The sponge *)

Record state := mkState { st_a : list Z; st_buf : bytes; st_squeezing : bool }.

Definition readLE (b : bytes) : Z := BigEndian.read (rev b).
Definition putLE (w : Z) : bytes := rev (BigEndian.put 8 w).

(** [xorInGeneric]: the whole words of the buffer *)
Fixpoint xorIn (a : list Z) (buf : bytes) : list Z :=
  match a with
  | [] => []
  | w :: a' => if (length buf <? 8)%nat then a else Z.lxor w (readLE (take 8 buf)) :: xorIn a' (drop 8 buf)
  end.

(** [copyOutGeneric] into a buffer of [n] bytes, a multiple of eight *)
Definition copyOut (a : list Z) (n : nat) : bytes := take n (concat (map putLE a)).

Section sponge.
Variables (rate : nat) (dsbyte : Byte.byte).

Definition Reset : state := mkState (replicate 25 0) [] false.

(** [permute] when absorbing *)
Definition absorbBuf (d : state) : state := mkState (keccakF1600 (xorIn (st_a d) (st_buf d))) [] (st_squeezing d).

(** The loop of [Write]; every round takes a byte at least. *)
Fixpoint writeLoop (fuel : nat) (p : bytes) (d : state) : state :=
  match fuel, p with
  | _, [] | O, _ => d
  | S fuel', _ =>
      if (length (st_buf d) =? 0)%nat && (rate <=? length p)%nat then
        writeLoop fuel' (drop rate p) (mkState (keccakF1600 (xorIn (st_a d) (take rate p))) (st_buf d) (st_squeezing d))
      else
        let todo := Nat.min (rate - length (st_buf d)) (length p) in
        let d' := mkState (st_a d) (st_buf d ++ take todo p) (st_squeezing d) in
        writeLoop fuel' (drop todo p) (if (length (st_buf d') =? rate)%nat then absorbBuf d' else d')
  end.
Definition Write (p : bytes) (d : state) : outcome string state :=
  if st_squeezing d then Panic "sha3: write to sponge after read" else Ok (writeLoop (length p) p d).

(** [append(d.buf, dsbyte)], the zeros, and the last bit *)
Definition padded (buf : bytes) : bytes :=
  let b := buf ++ [dsbyte] ++ replicate (rate - length buf - 1) Byte.x00 in
  match last b with
  | Some x => take (rate - 1) b ++ [byte_of_Z (Z.lxor (Z_of_byte x) 0x80)]
  | None => b
  end.
Definition padAndPermute (d : state) : state :=
  let a := keccakF1600 (xorIn (st_a d) (padded (st_buf d))) in
  mkState a (copyOut a rate) true.

(** [Read] of [n] bytes; [permute] when squeezing gives the next [rate] bytes. *)
Fixpoint readLoop (fuel n : nat) (d : state) : bytes * state :=
  match fuel with
  | O => ([], d)
  | S fuel' =>
      if (n =? 0)%nat then ([], d)
      else
        let out := take n (st_buf d) in
        let rest := drop n (st_buf d) in
        let d' := if (length rest =? 0)%nat
                  then let a := keccakF1600 (st_a d) in mkState a (copyOut a rate) true
                  else mkState (st_a d) rest true in
        let r := readLoop fuel' (n - length out) d' in
        (out ++ r.1, r.2)
  end.
Definition Read (n : nat) (d : state) : bytes * state :=
  readLoop n n (if st_squeezing d then d else padAndPermute d).

End sponge.

(** [NewKeccak256] *)
Definition keccakRate : nat := 136.
Definition keccakDs : Byte.byte := Byte.x01.

(** [h.sha.Reset(); h.sha.Write(data); h.sha.Read(n)] of [hasher.go]; [crypto.Keccak256] is the
    same with the data in chunks. *)
Definition keccak256 (data : bytes) : outcome string bytes :=
  match Write keccakRate data Reset with
  | Ok d => Ok (Read keccakRate keccakDs 32 d).1
  | Err e => Err e
  | Panic p => Panic p
  end.

(** ** The hash is Keccak-256

    The unrolled permutation is the textbook one, step by step, with its round
    constants and rotations generated as the standard does; the buffered sponge
    gives what the textbook sponge gives on the whole input, however it is cut into
    chunks. *)
(** ** The reference *)

(** Lane [(x, y)] of the state. *)
Definition lane (s : list Z) (x y : nat) : Z := nth (x mod 5 + 5 * (y mod 5)) s 0.
Definition column (s : list Z) (x : nat) : Z :=
  Z.lxor (Z.lxor (Z.lxor (Z.lxor (lane s x 0) (lane s x 1)) (lane s x 2)) (lane s x 3)) (lane s x 4).

(** The rotation of a lane: the [t]th on the walk [(x, y) -> (y, 2x + 3y)] from [(1, 0)] turns by
    [(t + 1)(t + 2) / 2]. *)
Fixpoint rhoWalk (fuel t x y x0 y0 : nat) : Z :=
  match fuel with
  | O => 0
  | S fuel' =>
      if ((x =? x0) && (y =? y0))%nat then Z.of_nat ((t + 1) * (t + 2) / 2) mod 64
      else rhoWalk fuel' (S t) y ((2 * x + 3 * y) mod 5) x0 y0
  end.
Definition rho (x y : nat) : Z := rhoWalk 24 0 1 0 x y.

Definition turn (w n : Z) : Z := if n =? 0 then w else rotl w n.

Definition mixed (s : list Z) (x y : nat) : Z :=
  Z.lxor (lane s x y) (Z.lxor (column s (x + 4)) (rotl (column s (x + 1)) 1)).
(** Lane [(x, y)] goes to [(y, 2x + 3y)]. *)
Definition moved (s : list Z) (x y : nat) : Z :=
  let x' := ((x + 3 * y) mod 5)%nat in
  let y' := (x mod 5)%nat in
  turn (mixed s x' y') (rho x' y').
Definition chosen (s : list Z) (x y : nat) : Z :=
  Z.lxor (moved s x y) (Z.ldiff (moved s (x + 2) y) (moved s (x + 1) y)).

Definition keccakRound (c : Z) (s : list Z) : list Z :=
  map (fun i => let w := chosen s (i mod 5) (i / 5) in if (i =? 0)%nat then Z.lxor w c else w) (seq 0 25).

(** The round constants, from the shift register of the standard. *)
Definition lfsrStep (r : Z) : Z := let r2 := Z.shiftl r 1 in if Z.testbit r2 8 then Z.lxor r2 0x171 else r2.
Definition lfsrBit (t : nat) : bool := Z.testbit (Nat.iter t lfsrStep 1) 0.
Definition roundConstant (i : nat) : Z :=
  fold_left (fun acc j => if lfsrBit (j + 7 * i) then Z.lor acc (Z.shiftl 1 (2 ^ Z.of_nat j - 1)) else acc) (seq 0 7) 0.

Definition keccakP (s : list Z) : list Z := fold_left (fun s i => keccakRound (roundConstant i) s) (seq 0 24) s.

(** ** The unrolled rounds *)

(** Where the [k]th round leaves the lanes. *)
Definition placed (k x r : nat) : nat := Nat.iter k (fun r => (2 * x + 3 * r) mod 5)%nat r.
Definition arrange (k : nat) (s : list Z) : list Z :=
  map (fun p => lane s (p mod 5) (placed k (p mod 5) (p / 5))) (seq 0 25).

Lemma length_25 (s : list Z) :
  length s = 25%nat ->
  exists a0 a1 a2 a3 a4 a5 a6 a7 a8 a9 a10 a11 a12 a13 a14 a15 a16 a17 a18 a19 a20 a21 a22 a23 a24,
  s = [a0; a1; a2; a3; a4; a5; a6; a7; a8; a9; a10; a11; a12; a13; a14; a15; a16; a17; a18; a19; a20; a21; a22; a23; a24].
Proof.
  intros Hs. do 25 (destruct s as [|? s]; [done|]). destruct s; [|done]. by repeat eexists.
Qed.

Ltac lanes s := destruct (length_25 s) as
  (a0 & a1 & a2 & a3 & a4 & a5 & a6 & a7 & a8 & a9 & a10 & a11 & a12 & a13 & a14 & a15 & a16 & a17 & a18 & a19 & a20 & a21 & a22 & a23 & a24 & ->); [done|].

(** The lanes of a column stay in it. *)
Lemma column_arrange k x s : length s = 25%nat -> (k < 4)%nat -> (x < 5)%nat -> column (arrange k s) x = column s x.
Proof.
  intros Hs Hk Hx. lanes s. apply Z.bits_inj'. intros n _.
  do 4 (destruct k as [|k]; [do 5 (destruct x as [|x]; [cbv -[Z.lxor Z.testbit]; rewrite !Z.lxor_spec; btauto|]); lia|]). lia.
Qed.

Ltac unrolled k s Hs :=
  pose proof (column_arrange k 0 s Hs ltac:(lia) ltac:(lia)) as C0; pose proof (column_arrange k 1 s Hs ltac:(lia) ltac:(lia)) as C1;
  pose proof (column_arrange k 2 s Hs ltac:(lia) ltac:(lia)) as C2; pose proof (column_arrange k 3 s Hs ltac:(lia) ltac:(lia)) as C3;
  pose proof (column_arrange k 4 s Hs ltac:(lia) ltac:(lia)) as C4;
  lanes s; cbv -[Z.lxor Z.ldiff rotl] in C0, C1, C2, C3, C4 |- *; rewrite ?C0, ?C1, ?C2, ?C3, ?C4; reflexivity.

Lemma round1_ok c s : length s = 25%nat -> round1 c (arrange 0 s) = arrange 1 (keccakRound c s).
Proof. intros Hs. unrolled 0%nat s Hs. Qed.
Lemma round2_ok c s : length s = 25%nat -> round2 c (arrange 1 s) = arrange 2 (keccakRound c s).
Proof. intros Hs. unrolled 1%nat s Hs. Qed.
Lemma round3_ok c s : length s = 25%nat -> round3 c (arrange 2 s) = arrange 3 (keccakRound c s).
Proof. intros Hs. unrolled 2%nat s Hs. Qed.
Lemma round4_ok c s : length s = 25%nat -> round4 c (arrange 3 s) = arrange 4 (keccakRound c s).
Proof. intros Hs. unrolled 3%nat s Hs. Qed.

Lemma arrange_id s : length s = 25%nat -> arrange 0 s = s /\ arrange 4 s = s.
Proof. intros Hs. lanes s. by split. Qed.

Lemma length_keccakRound c s : length (keccakRound c s) = 25%nat.
Proof. unfold keccakRound. by rewrite length_map, length_seq. Qed.

Lemma rounds4 c0 c1 c2 c3 s :
  length s = 25%nat ->
  round4 c3 (round3 c2 (round2 c1 (round1 c0 s))) = keccakRound c3 (keccakRound c2 (keccakRound c1 (keccakRound c0 s))).
Proof.
  intros Hs. rewrite <- (proj1 (arrange_id s Hs)) at 1.
  rewrite round1_ok, round2_ok, round3_ok, round4_ok by (done || apply length_keccakRound).
  apply arrange_id, length_keccakRound.
Qed.

Lemma rc_generated : rc = map roundConstant (seq 0 24).
Proof. vm_compute. reflexivity. Qed.

Lemma keccakLoop_rounds n rcs s :
  length rcs = (4 * n)%nat -> length s = 25%nat -> keccakLoop rcs s = fold_left (fun s c => keccakRound c s) rcs s.
Proof.
  revert rcs s. induction n as [|n IH]; intros rcs s Hl Hs; [by destruct rcs|].
  destruct rcs as [|c0 [|c1 [|c2 [|c3 rcs]]]]; simpl in Hl; try lia. cbn [keccakLoop fold_left].
  rewrite rounds4 by done. apply IH; [lia|apply length_keccakRound].
Qed.

(** The unrolled permutation is the textbook one. *)
Lemma keccakF1600_ok s : length s = 25%nat -> keccakF1600 s = keccakP s.
Proof.
  intros Hs. unfold keccakF1600, keccakP. rewrite (keccakLoop_rounds 6) by done. rewrite rc_generated.
  generalize (seq 0 24). intros l. clear Hs. revert s. induction l as [|i l IH]; intros s; [done|]. simpl. apply IH.
Qed.

Lemma length_keccakF1600 s : length s = 25%nat -> length (keccakF1600 s) = 25%nat.
Proof.
  intros Hs. rewrite keccakF1600_ok by done. unfold keccakP.
  assert (forall l s, length s = 25%nat -> length (fold_left (fun s i => keccakRound (roundConstant i) s) l s) = 25%nat) as Hf; [|by apply Hf].
  induction l as [|i l IH]; intros s0 Hs0; [done|]. apply IH, length_keccakRound.
Qed.

Lemma length_xorIn a b : length (xorIn a b) = length a.
Proof. revert b. induction a as [|w a IH]; intros b; simpl; [done|]. destruct (_ <? _)%nat; simpl; [done|by rewrite IH]. Qed.

(** ** The sponge *)

Section sponge.
Variables (rate : nat) (dsbyte : Byte.byte).
Hypothesis rate_range : (0 < rate <= 200)%nat.

Fixpoint absorbBlocks (n : nat) (s : list Z) (m : bytes) : list Z * bytes :=
  match n with
  | O => (s, m)
  | S n' => absorbBlocks n' (keccakP (xorIn s (take rate m))) (drop rate m)
  end.
(** All the whole blocks, and what is left of the message. *)
Definition absorb (s : list Z) (m : bytes) : list Z * bytes := absorbBlocks (length m / rate) s m.

(** The suffix and [10..01] padding of a last block. *)
Definition pad (m : bytes) : bytes :=
  if (length m =? rate - 1)%nat then m ++ [byte_of_Z (Z.lxor (Z_of_byte dsbyte) 0x80)]
  else m ++ [dsbyte] ++ replicate (rate - length m - 2) Byte.x00 ++ [Byte.x80].

(** The first [rate] bytes of the state and of its next permutations. *)
Fixpoint squeeze (blocks : nat) (s : list Z) : bytes :=
  match blocks with
  | O => []
  | S blocks' => take rate (concat (map putLE s)) ++ squeeze blocks' (keccakP s)
  end.

Definition spongeHash (n : nat) (m : bytes) : bytes :=
  let r := absorb (replicate 25 0) m in
  take n (squeeze (S (n / rate)) (keccakP (xorIn r.1 (pad r.2)))).

Lemma absorb_short s m : (length m < rate)%nat -> absorb s m = (s, m).
Proof. intros Hm. unfold absorb. by rewrite Nat.div_small. Qed.

Lemma absorb_long s m : (rate <= length m)%nat -> absorb s m = absorb (keccakP (xorIn s (take rate m))) (drop rate m).
Proof.
  intros Hm. unfold absorb. rewrite length_drop. replace (length m / rate)%nat with (S ((length m - rate) / rate)); [done|].
  replace (length m) with (1 * rate + (length m - rate))%nat at 2 by lia. by rewrite Nat.div_add_l by lia.
Qed.

Lemma writeLoop_ok fuel p d :
  (length p <= fuel)%nat -> (length (st_buf d) < rate)%nat -> length (st_a d) = 25%nat ->
  writeLoop rate fuel p d = let r := absorb (st_a d) (st_buf d ++ p) in mkState r.1 r.2 (st_squeezing d).
Proof.
  revert p d. induction fuel as [|fuel IH]; intros p d Hf Hb Ha.
  { destruct p; [|simpl in Hf; lia]. rewrite app_nil_r, absorb_short by done. by destruct d. }
  destruct p as [|x p]; [simpl; rewrite app_nil_r, absorb_short by done; by destruct d|].
  remember (x :: p) as q eqn:Eq. assert (0 < length q)%nat as Hq by (rewrite Eq; simpl; lia).
  assert (writeLoop rate (S fuel) q d =
    if (length (st_buf d) =? 0)%nat && (rate <=? length q)%nat then
      writeLoop rate fuel (drop rate q) (mkState (keccakF1600 (xorIn (st_a d) (take rate q))) (st_buf d) (st_squeezing d))
    else
      let todo := Nat.min (rate - length (st_buf d)) (length q) in
      let d' := mkState (st_a d) (st_buf d ++ take todo q) (st_squeezing d) in
      writeLoop rate fuel (drop todo q) (if (length (st_buf d') =? rate)%nat then absorbBuf d' else d')) as -> by (by rewrite Eq).
  clear Eq x p. destruct d as [a buf sq]. cbn [st_a st_buf st_squeezing] in *.
  destruct (Nat.eqb_spec (length buf) 0) as [E|E]; [destruct (Nat.leb_spec rate (length q)) as [L|L]|]; simpl andb; cbv iota.
  - destruct buf; [|done]. rewrite IH; [|rewrite length_drop; lia|simpl; lia|by apply length_keccakF1600; rewrite length_xorIn].
    cbn [st_a st_buf st_squeezing app]. rewrite (absorb_long a q), keccakF1600_ok by (done || by rewrite length_xorIn). done.
  - destruct buf; [|done]. cbv zeta. rewrite Nat.min_r by (simpl; lia). rewrite take_ge, drop_ge by lia. cbn [app st_buf].
    rewrite (proj2 (Nat.eqb_neq _ _)) by lia. rewrite IH; [|simpl; lia|done|done]. cbn [st_a st_buf st_squeezing]. by rewrite app_nil_r.
  - cbv zeta. cbn [st_buf]. rewrite length_app, length_take. destruct (Nat.leb_spec (rate - length buf) (length q)) as [L|L].
    + rewrite (Nat.min_l (rate - length buf)), Nat.min_l by lia. rewrite (proj2 (Nat.eqb_eq _ _)) by lia. unfold absorbBuf. cbn [st_a st_buf st_squeezing].
      rewrite IH; [|rewrite length_drop; lia|simpl; lia|by apply length_keccakF1600; rewrite length_xorIn]. cbn [st_a st_buf st_squeezing app].
      rewrite (absorb_long a (buf ++ q)) by (rewrite length_app; lia).
      rewrite take_app_ge, drop_app_ge by lia. by rewrite keccakF1600_ok by (by rewrite length_xorIn).
    + rewrite (Nat.min_r (rate - length buf)), Nat.min_id by lia. rewrite take_ge, drop_ge by lia. rewrite (proj2 (Nat.eqb_neq _ _)) by lia.
      rewrite IH; [|simpl; lia|cbn [st_buf]; rewrite length_app; lia|done]. cbn [st_a st_buf st_squeezing]. by rewrite app_nil_r.
Qed.

Lemma absorb_rest s m : (length (absorb s m).2 < rate)%nat.
Proof.
  remember (length m) as n eqn:Hn. revert s m Hn. induction n as [n IH] using lt_wf_ind. intros s m ->.
  destruct (Nat.leb_spec rate (length m)) as [L|L]; [|by rewrite absorb_short].
  rewrite absorb_long by done. eapply IH; [|done]. rewrite length_drop. lia.
Qed.

Lemma length_keccakP s : length s = 25%nat -> length (keccakP s) = 25%nat.
Proof. intros Hs. rewrite <- keccakF1600_ok by done. by apply length_keccakF1600. Qed.

Lemma absorb_length s m : length s = 25%nat -> length (absorb s m).1 = 25%nat.
Proof.
  remember (length m) as n eqn:Hn. revert s m Hn. induction n as [n IH] using lt_wf_ind. intros s m -> Hs.
  destruct (Nat.leb_spec rate (length m)) as [L|L]; [|by rewrite absorb_short].
  rewrite absorb_long by done. eapply IH; [|done|apply length_keccakP; by rewrite length_xorIn]. rewrite length_drop. lia.
Qed.

(** Absorbing in two steps. *)
Lemma absorb_app s m m' : absorb s (m ++ m') = let r := absorb s m in absorb r.1 (r.2 ++ m').
Proof.
  remember (length m) as n eqn:Hn. revert s m Hn. induction n as [n IH] using lt_wf_ind. intros s m ->.
  destruct (Nat.leb_spec rate (length m)) as [L|L]; [|by rewrite (absorb_short s m)].
  rewrite (absorb_long s (m ++ m')), (absorb_long s m) by (rewrite ?length_app; lia).
  rewrite take_app_le, drop_app_le by lia. eapply IH; [|done]. rewrite length_drop. lia.
Qed.

Lemma padded_pad m : (length m < rate)%nat -> padded rate dsbyte m = pad m.
Proof.
  intros Hm. unfold padded, pad. cbv zeta. destruct (Nat.eqb_spec (length m) (rate - 1)) as [E|E].
  - replace (rate - length m - 1)%nat with O by lia. simpl replicate. simpl app. rewrite last_snoc.
    f_equal. by rewrite <- E, take_app_length.
  - replace (rate - length m - 1)%nat with (S (rate - length m - 2)) by lia. rewrite replicate_S_end, !app_assoc, last_snoc.
    change (byte_of_Z (Z.lxor (Z_of_byte Byte.x00) 128)) with Byte.x80. f_equal.
    rewrite take_app_length'; [done|]. rewrite !length_app, length_replicate. simpl. lia.
Qed.

(** [Write] for every chunk in turn. *)
Fixpoint writes (ps : list bytes) (d : state) : outcome string state :=
  match ps with
  | [] => Ok d
  | p :: ps' => match Write rate p d with Ok d' => writes ps' d' | o => o end
  end.

Lemma writes_ok ps s buf :
  (length buf < rate)%nat -> length s = 25%nat ->
  writes ps (mkState s buf false) = let r := absorb s (buf ++ concat ps) in Ok (mkState r.1 r.2 false).
Proof.
  revert s buf. induction ps as [|p ps IH]; intros s buf Hb Hs; simpl.
  - by rewrite app_nil_r, absorb_short.
  - unfold Write. cbn [st_squeezing]. rewrite writeLoop_ok by done. cbv zeta. cbn [st_a st_buf st_squeezing].
    rewrite IH by (apply absorb_rest || by apply absorb_length). cbv zeta. by rewrite app_assoc, (absorb_app s (buf ++ p)).
Qed.

Lemma length_squeezed s : length s = 25%nat -> length (concat (map putLE s)) = 200%nat.
Proof.
  intros Hs. lanes s. cbn [map concat]. rewrite !length_app. unfold putLE. rewrite !length_rev, !BigEndian.put_length. done.
Qed.

(** A state that gives out bytes. *)
Record squeezing (d : state) : Prop := {
  sq_flag : st_squeezing d = true;
  sq_state : length (st_a d) = 25%nat;
  sq_buf : (0 < length (st_buf d))%nat;
}.

(** What it has left, [k] more blocks counted. *)
Definition left (k : nat) (d : state) : bytes := st_buf d ++ squeeze k (keccakP (st_a d)).

Lemma length_copyOut s : length s = 25%nat -> length (copyOut s rate) = rate.
Proof. intros Hs. unfold copyOut. rewrite length_take, length_squeezed by done. lia. Qed.

(** Reading takes the next bytes. *)
Lemma readLoop_ok fuel n d k :
  (n <= fuel)%nat -> squeezing d -> (n < length (st_buf d) + k * rate)%nat ->
  let r := readLoop rate fuel n d in
  length r.1 = n /\ squeezing r.2 /\ exists k', left k d = r.1 ++ left k' r.2 /\ (length (st_buf d) + k * rate = n + length (st_buf r.2) + k' * rate)%nat.
Proof.
  revert n d k. induction fuel as [|fuel IH]; intros n d k Hf Hd Hk; cbn [readLoop].
  { assert (n = 0)%nat as -> by lia. cbn [fst snd]. split_and!; [done|done|]. by exists k. }
  destruct (Nat.eqb_spec n 0) as [->|Hn]; [cbn [fst snd]; split_and!; [done|done|by exists k]|]. pose proof (sq_buf _ Hd) as Hb.
  cbv zeta. cbn [fst snd]. rewrite length_drop, length_take.
  destruct (Nat.eqb_spec (length (st_buf d) - n) 0) as [E|E].
  - assert (0 < k)%nat as Hk0 by (destruct k; lia). destruct k as [|k]; [lia|]. rewrite Nat.min_r by lia.
    pose proof (sq_state _ Hd) as Ha. rewrite keccakF1600_ok by done. set (d' := mkState (keccakP (st_a d)) _ true).
    assert (length (keccakP (st_a d)) = 25%nat) as Ha' by (by apply length_keccakP).
    assert (squeezing d') as Hd' by (constructor; [done|done|cbn [st_buf d']; rewrite length_copyOut; lia]).
    assert (length (st_buf d') = rate) as Hl by (by apply length_copyOut).
    destruct (IH (n - length (st_buf d))%nat d' k ltac:(lia) Hd' ltac:(rewrite Hl; simpl in Hk; lia)) as (H1 & H2 & k' & H3 & H4).
    split_and!; [rewrite length_app, H1, length_take; lia|done|]. exists k'. split; [|rewrite Hl in H4; simpl; lia].
    rewrite <- app_assoc, <- H3, take_ge by lia. unfold left. cbn [squeeze st_a st_buf d']. done.
  - rewrite Nat.min_l, Nat.sub_diag by lia. set (d' := mkState (st_a d) (drop n (st_buf d)) true).
    assert (readLoop rate fuel 0 d' = ([], d')) as -> by (by destruct fuel). cbn [fst snd]. rewrite app_nil_r.
    split_and!; [rewrite length_take; lia|constructor; [done|apply Hd|cbn [st_buf d']; rewrite length_drop; lia]|].
    exists k. split; [|cbn [st_buf d']; rewrite length_drop; lia]. unfold left. cbn [st_a st_buf d']. by rewrite app_assoc, take_drop.
Qed.

(** [Read] in pieces of the given lengths. *)
Fixpoint reads (ns : list nat) (d : state) : bytes :=
  match ns with
  | [] => []
  | n :: ns' => let r := Read rate dsbyte n d in r.1 ++ reads ns' r.2
  end.

Lemma reads_one n d : reads [n] d = (Read rate dsbyte n d).1.
Proof. simpl. apply app_nil_r. Qed.

Lemma reads_left ns d k :
  squeezing d -> (sum_list ns < length (st_buf d) + k * rate)%nat -> reads ns d = take (sum_list ns) (left k d).
Proof.
  revert d k. induction ns as [|n ns IH]; intros d k Hd Hk; [done|].
  change (sum_list (n :: ns)) with (n + sum_list ns)%nat in *. cbn [reads]. unfold Read. rewrite (sq_flag _ Hd).
  destruct (readLoop_ok n n d k (le_n n) Hd ltac:(lia)) as (H1 & H2 & k' & H3 & H4). rewrite (IH _ k' H2) by lia.
  rewrite H3, take_app_ge by lia. rewrite H1. do 2 f_equal. lia.
Qed.

Lemma reads_first ns d :
  length (st_a d) = 25%nat -> (length (st_buf d) < rate)%nat -> st_squeezing d = false ->
  reads ns d = take (sum_list ns) (squeeze (S (sum_list ns / rate)) (keccakP (xorIn (st_a d) (pad (st_buf d))))).
Proof.
  intros Ha Hb Hq. set (s := keccakP _). assert (length s = 25%nat) as Hs by (apply length_keccakP; by rewrite length_xorIn).
  assert (padAndPermute rate dsbyte d = mkState s (copyOut s rate) true) as E.
  { unfold padAndPermute. cbv zeta. by rewrite padded_pad, keccakF1600_ok by (done || by rewrite length_xorIn). }
  assert (squeezing (mkState s (copyOut s rate) true)) as Hd by (constructor; [done|done|cbn [st_buf]; rewrite length_copyOut; [lia|done]]).
  destruct ns as [|n ns]; [done|].
  transitivity (reads (n :: ns) (mkState s (copyOut s rate) true)).
  { cbn [reads]. unfold Read. by rewrite Hq, E. }
  rewrite (reads_left _ _ (sum_list (n :: ns) / rate)); [done|done|]. cbn [st_buf]. rewrite length_copyOut by done.
  pose proof (Nat.div_mod_eq (sum_list (n :: ns)) rate). pose proof (Nat.mod_upper_bound (sum_list (n :: ns)) rate). lia.
Qed.

End sponge.



Lemma keccak256_ok data : keccak256 data = Ok (spongeHash keccakRate keccakDs 32 data).
Proof.
  unfold keccak256. assert (0 < keccakRate <= 200)%nat as Hr by (unfold keccakRate; lia).
  pose proof (writes_ok keccakRate Hr [data] (replicate 25 0) [] ltac:(unfold keccakRate; simpl; lia) eq_refl) as Hw.
  cbn [writes concat app] in Hw. rewrite app_nil_r in Hw. unfold Reset. destruct (Write _ _ _) as [d| |]; try done. injection Hw as ->. f_equal.
  rewrite <- reads_one. rewrite (reads_first keccakRate keccakDs Hr [32]%nat); [|by apply absorb_length|by apply absorb_rest|done].
  reflexivity.
Qed.
