(* ===== verification/Trie.v ===== *)
(** * Trie: the Merkle Patricia trie

    [src/storage/trie/trie.go] and the node types of [node.go].  A node is loaded or
    a hash to be resolved from the node database; loaded nodes carry the caching
    metadata ([nodeFlag]) the hasher works with.  The trie's own fields are the
    root, which the operations take and return, and those of [TrieEnv]: the nodes
    of its database and its cache generation.

    The recursion goes down the key, with one more step where a hash is resolved;
    [fuel] bounds it and the entry points give twice the key's length. *)
From S2P Require Import Prelude Bytes TrieEncoding.
Local Open Scope Z_scope.
Local Open Scope zv_scope.

(** [gen] is a uint16. *)
Record nodeFlag := mkFlag { nf_hash : option Hash; nf_gen : Z; nf_dirty : bool }.

Inductive node :=
| nilNode
| valueNode (v : bytes)
| shortNode (Key : hex) (Val : node) (flags : nodeFlag)
| fullNode (Children : list node) (flags : nodeFlag)
| hashNode (h : Hash).

Inductive trieError :=
| MissingNodeError (NodeHash : Hash) (Path : hex)
| OutOfFuel.

(** [db.node(hash, t.cachegen)], which panics on a malformed node, and [t.cachegen]. *)
Class TrieEnv := { readNode : Hash -> outcome trieError (option node); cachegen : Z }.

Section trie.
Context `{TrieEnv}.

Definition newFlag : nodeFlag := mkFlag None cachegen true.
Definition touch (fl : nodeFlag) : nodeFlag := mkFlag (nf_hash fl) cachegen (nf_dirty fl).

Definition resolveHash (h : Hash) (prefix : hex) : outcome trieError node :=
  r <-! readNode h ;;
  match r with
  | Some n => Ok n
  | None => Err (MissingNodeError h prefix)
  end.

Definition resolve (n : node) (prefix : hex) : outcome trieError node :=
  match n with
  | hashNode h => resolveHash h prefix
  | _ => Ok n
  end.

(** [n.Children[i]] and its assignment: an array of 17. *)
Definition child (cs : list node) (i : Z) : outcome trieError node :=
  match cs !! Z.to_nat i with
  | Some c => Ok c
  | None => Panic "index out of range"
  end.
Definition setChild (cs : list node) (i : Z) (c : node) : list node := <[Z.to_nat i := c]> cs.

(** The value, the node with what was loaded on the way, and whether anything was.
    [prefix] is [key[:pos]], [key] what is left. *)
Fixpoint tryGet (fuel : nat) (n : node) (prefix key : hex) : outcome trieError (option bytes * node * bool) :=
  match fuel with
  | O => Err OutOfFuel
  | S fuel' =>
      match n with
      | nilNode => Ok (None, nilNode, false)
      | valueNode v => Ok (Some v, n, false)
      | shortNode k c fl =>
          if (length key <? length k)%nat || negb (bool_decide (k = take (length k) key)) then Ok (None, n, false)
          else
            r <-! tryGet fuel' c (prefix ++ k) (drop (length k) key) ;;
            let '(value, newnode, didResolve) := r in
            Ok (value, if didResolve : bool then shortNode k newnode (touch fl) else n, didResolve)
      | fullNode cs fl =>
          match key with
          | [] => Panic "index out of range"
          | x :: key' =>
              c <-! child cs x ;;
              r <-! tryGet fuel' c (prefix ++ [x]) key' ;;
              let '(value, newnode, didResolve) := r in
              Ok (value, if didResolve : bool then fullNode (setChild cs x newnode) (touch fl) else n, didResolve)
          end
      | hashNode h =>
          c <-! resolveHash h prefix ;;
          r <-! tryGet fuel' c prefix key ;;
          let '(value, newnode, _) := r in Ok (value, newnode, true)
      end
  end.

(** Whether anything changed, and the new node.  The value inserted is a node:
    splitting a short node moves its subtree. *)
Fixpoint insert (fuel : nat) (n : node) (prefix key : hex) (value : node) : outcome trieError (bool * node) :=
  match fuel with
  | O => Err OutOfFuel
  | S fuel' =>
      match key with
      | [] =>
          match n with
          | valueNode v =>
              match value with
              | valueNode v' => Ok (negb (bool_decide (v = v')), value)
              | _ => Panic "interface conversion"
              end
          | _ => Ok (true, value)
          end
      | x :: key' =>
          match n with
          | shortNode k c _ =>
              let matchlen := prefixLen key k in
              if (matchlen =? length k)%nat then
                r <-! insert fuel' c (prefix ++ take matchlen key) (drop matchlen key) value ;;
                let '(dirty, nn) := r in
                if dirty : bool then Ok (true, shortNode k nn newFlag) else Ok (false, n)
              else
                match k !! matchlen, key !! matchlen with
                | Some kx, Some keyx =>
                    r1 <-! insert fuel' nilNode (prefix ++ take (matchlen + 1) k) (drop (matchlen + 1) k) c ;;
                    r2 <-! insert fuel' nilNode (prefix ++ take (matchlen + 1) key) (drop (matchlen + 1) key) value ;;
                    let branch := fullNode (setChild (setChild (replicate 17 nilNode) kx r1.2) keyx r2.2) newFlag in
                    if (matchlen =? 0)%nat then Ok (true, branch)
                    else Ok (true, shortNode (take matchlen key) branch newFlag)
                | _, _ => Panic "index out of range"
                end
          | fullNode cs _ =>
              c <-! child cs x ;;
              r <-! insert fuel' c (prefix ++ [x]) key' value ;;
              let '(dirty, nn) := r in
              if dirty : bool then Ok (true, fullNode (setChild cs x nn) newFlag) else Ok (false, n)
          | nilNode => Ok (true, shortNode key value newFlag)
          | hashNode h =>
              rn <-! resolveHash h prefix ;;
              r <-! insert fuel' rn prefix key value ;;
              let '(dirty, nn) := r in
              if dirty : bool then Ok (true, nn) else Ok (false, rn)
          | valueNode _ => Panic "invalid node"
          end
      end
  end.

(** The loop over the children: the index of the only one left, -1 if there is none,
    -2 if there are two. *)
Fixpoint remaining (i : Z) (cs : list node) (pos : Z) : Z :=
  match cs with
  | [] => pos
  | nilNode :: cs' => remaining (i + 1) cs' pos
  | _ :: cs' => if pos =? -1 then remaining (i + 1) cs' i else -2
  end.

Definition reduce (cs : list node) (prefix : hex) : outcome trieError (bool * node) :=
  let pos := remaining 0 cs (-1) in
  if 0 <=? pos then
    c <-! child cs pos ;;
    if pos =? 16 then Ok (true, shortNode [pos] c newFlag)
    else
      cnode <-! resolve c prefix ;;
      match cnode with
      | shortNode k v _ => Ok (true, shortNode (pos :: k) v newFlag)
      | _ => Ok (true, shortNode [pos] c newFlag)
      end
  else Ok (true, fullNode cs newFlag).

Fixpoint delete (fuel : nat) (n : node) (prefix key : hex) : outcome trieError (bool * node) :=
  match fuel with
  | O => Err OutOfFuel
  | S fuel' =>
      match n with
      | shortNode k c _ =>
          let matchlen := prefixLen key k in
          if (matchlen <? length k)%nat then Ok (false, n)
          else if (matchlen =? length key)%nat then Ok (true, nilNode)
          else
            r <-! delete fuel' c (prefix ++ take (length k) key) (drop (length k) key) ;;
            let '(dirty, ch) := r in
            if negb dirty then Ok (false, n)
            else match ch with
                 | shortNode k' v _ => Ok (true, shortNode (k ++ k') v newFlag)
                 | _ => Ok (true, shortNode k ch newFlag)
                 end
      | fullNode cs _ =>
          match key with
          | [] => Panic "index out of range"
          | x :: key' =>
              c <-! child cs x ;;
              r <-! delete fuel' c (prefix ++ [x]) key' ;;
              let '(dirty, nn) := r in
              if negb dirty then Ok (false, n) else reduce (setChild cs x nn) prefix
          end
      | valueNode _ => Ok (true, nilNode)
      | nilNode => Ok (false, nilNode)
      | hashNode h =>
          rn <-! resolveHash h prefix ;;
          r <-! delete fuel' rn prefix key ;;
          let '(dirty, nn) := r in
          if dirty : bool then Ok (true, nn) else Ok (false, rn)
      end
  end.

(** ** The trie's interface *)

Definition fuelFor (key : hex) : nat := 2 * length key + 2.

Definition TryGet (root : node) (key : bytes) : outcome trieError (option bytes * node) :=
  let k := keybytesToHex key in
  r <-! tryGet (fuelFor k) root [] k ;;
  let '(value, newroot, didResolve) := r in
  Ok (value, if didResolve : bool then newroot else root).

Definition TryDelete (root : node) (key : bytes) : outcome trieError node :=
  let k := keybytesToHex key in
  r <-! delete (fuelFor k) root [] k ;; Ok r.2.

Definition TryUpdate (root : node) (key value : bytes) : outcome trieError node :=
  let k := keybytesToHex key in
  match value with
  | [] => TryDelete root key
  | _ => r <-! insert (fuelFor k) root [] k (valueNode value) ;; Ok r.2
  end.

End trie.
