(* ===== verification/TrieTheorems.v ===== *)
(** * TrieTheorems: the trie is a finite map, in canonical form

    A node stands for the part of a map below it ([okNode]): short nodes lead to a
    value or to a branch, a branch has two children at least, a hash resolves to
    what it stands for.  [insert], [delete] and [tryGet] act on the node as the
    operations of the map act on the map, whatever part of the tree is loaded, and
    two trees for one map are the same tree once loaded. *)
From S2P Require Import Prelude Bytes TrieEncoding Trie.
Local Open Scope Z_scope.
Local Open Scope zv_scope.

(** What is below a node: the value at the rest of a key. *)
Definition content : Type := hex -> option bytes.

Definition put (m : content) (k : hex) (v : option bytes) : content :=
  fun j => if decide (j = k) then v else m j.
Definition below (m : content) (p : hex) : content := fun r => m (p ++ r).

Section trie.
Context `{TrieEnv}.
Implicit Types (n c : node) (m : content) (k key : hex) (fl : nodeFlag).

Definition linked (P : node -> content -> Prop) c m : Prop :=
  P c m \/ exists h n, c = hashNode h /\ readNode h = Ok (Some n) /\ P n m.

Definition childOk (P : node -> content -> Prop) c m : Prop :=
  (c = nilNode /\ forall j, m j = None) \/ linked P c m.

Definition only k (v : bytes) m : Prop := v <> [] /\ forall j, m j = if decide (j = k) then Some v else None.

Definition valueOk c m : Prop :=
  (c = nilNode /\ forall j, m j = None) \/ exists v, c = valueNode v /\ only [] v m.

(** The last of the seventeen children is the value of the key that ends here. *)
Definition slotOk (P : node -> content -> Prop) (x : Z) c m : Prop :=
  if decide (x = 16) then valueOk c m else childOk P c m.

Definition isBranch c (cs : list node) : Prop :=
  (exists fl, c = fullNode cs fl) \/ exists h fl, c = hashNode h /\ readNode h = Ok (Some (fullNode cs fl)).

Definition index (x : Z) : Prop := 0 <= x <= 16.

Definition branchOk (P : node -> content -> Prop) (cs : list node) m : Prop :=
  length cs = 17%nat /\ m [] = None /\ (forall x j, ~ index x -> m (x :: j) = None) /\
  forall x c, index x -> cs !! Z.to_nat x = Some c -> slotOk P x c (below m [x]).

Definition twoChildren (cs : list node) : Prop :=
  exists x y cx cy, index x /\ index y /\ x <> y /\ cs !! Z.to_nat x = Some cx /\ cs !! Z.to_nat y = Some cy /\
                    cx <> nilNode /\ cy <> nilNode.

(** Caching metadata plays no part. *)
Definition noFlag : nodeFlag := mkFlag None 0 false.

(** A loaded node and the map below it, [d] bounding its depth. *)
Fixpoint okNode (d : nat) n m {struct d} : Prop :=
  match d with
  | O => False
  | S d' =>
      match n with
      | shortNode k c _ =>
          (termKey k /\ exists v, c = valueNode v /\ only k v m) \/
          (path k /\ k <> [] /\ (forall j, ~ k `prefix_of` j -> m j = None) /\
           exists cs, isBranch c cs /\ okNode d' (fullNode cs noFlag) (below m k))
      | fullNode cs _ => branchOk (okNode d') cs m /\ twoChildren cs
      | _ => False
      end
  end.

(** ** Structure *)

Lemma childOk_impl (P Q : node -> content -> Prop) c m m' :
  (forall j, m j = m' j) -> (forall n, P n m -> Q n m') -> childOk P c m -> childOk Q c m'.
Proof.
  intros Hm HPQ [[-> Hn]|[Hp|(h & n & -> & Hr & Hp)]].
  - left. split; [done|]. intros j. by rewrite <- Hm.
  - right. left. by apply HPQ.
  - right. right. exists h, n. by split_and!; [| |apply HPQ].
Qed.

Lemma only_ext k v m m' : (forall j, m j = m' j) -> only k v m -> only k v m'.
Proof. intros Hm [Hv Ho]. split; [done|]. intros j. by rewrite <- Hm. Qed.

Lemma valueOk_ext c m m' : (forall j, m j = m' j) -> valueOk c m -> valueOk c m'.
Proof.
  intros Hm [[-> Hn]|(v & -> & Ho)]; [left; split; [done|]; intros j; by rewrite <- Hm|].
  right. exists v. split; [done|]. by eapply only_ext.
Qed.

Lemma slotOk_impl (P Q : node -> content -> Prop) x c m m' :
  (forall j, m j = m' j) -> (forall n, P n m -> Q n m') -> slotOk P x c m -> slotOk Q x c m'.
Proof.
  intros Hm HPQ. unfold slotOk. destruct (decide (x = 16)); [by apply valueOk_ext|by apply childOk_impl].
Qed.

(** Depth is only a bound, and a map is known by its entries. *)
Lemma okNode_mono d d' n m m' :
  (d <= d')%nat -> (forall j, m j = m' j) -> okNode d n m -> okNode d' n m'.
Proof.
  revert d' n m m'. induction d as [|d IH]; intros d' n m m' Hle Hm Hok; [done|].
  destruct d' as [|d']; [lia|]. apply le_S_n in Hle. destruct n as [|v|k c fl|cs fl|h]; simpl in Hok |- *; try done.
  - destruct Hok as [[Hk (v & -> & Ho)]|(Hp & Hne & Hout & cs & Hb & Hok)].
    + left. split; [done|]. exists v. split; [done|]. by eapply only_ext.
    + right. split_and!; [done|done|intros j Hj; rewrite <- Hm; by apply Hout|]. exists cs. split; [done|].
      eapply IH; [exact Hle| |exact Hok]. intros j. apply Hm.
  - destruct Hok as [(Hlen & Hnil & Hout & Hs) Htwo]. split; [|done]. split_and!; [done|by rewrite <- Hm| |].
    + intros x j Hx. rewrite <- Hm. by apply Hout.
    + intros x c Hx Hc. specialize (Hs x c Hx Hc). eapply slotOk_impl; [| |exact Hs]; [intros j; apply Hm|].
      intros n Hn. eapply IH; [exact Hle| |exact Hn]. intros j. apply Hm.
Qed.

Lemma okNode_ext d n m m' : (forall j, m j = m' j) -> okNode d n m -> okNode d n m'.
Proof. by apply okNode_mono. Qed.

Lemma childOk_mono d d' c m m' :
  (d <= d')%nat -> (forall j, m j = m' j) -> childOk (okNode d) c m -> childOk (okNode d') c m'.
Proof. intros Hd Hm. apply childOk_impl; [done|]. intros n. by apply okNode_mono. Qed.

Lemma slotOk_mono d d' x c m m' :
  (d <= d')%nat -> (forall j, m j = m' j) -> slotOk (okNode d) x c m -> slotOk (okNode d') x c m'.
Proof. intros Hd Hm. apply slotOk_impl; [done|]. intros n. by apply okNode_mono. Qed.

Lemma okNode_shape d n m : okNode d n m -> (exists k c fl, n = shortNode k c fl) \/ exists cs fl, n = fullNode cs fl.
Proof. destruct d, n; simpl; try done; eauto. Qed.

Lemma okNode_flag d cs fl fl' m : okNode d (fullNode cs fl) m -> okNode d (fullNode cs fl') m.
Proof. by destruct d. Qed.

Lemma index_nibble x : index x -> x = 16 \/ nibble x.
Proof. unfold index, nibble. lia. Qed.

Lemma index_lookup (cs : list node) x : length cs = 17%nat -> index x -> exists c, cs !! Z.to_nat x = Some c.
Proof. intros Hl Hx. apply lookup_lt_is_Some. unfold index in Hx. lia. Qed.

Lemma setChild_lookup (cs : list node) x y c :
  length cs = 17%nat -> index x -> index y ->
  setChild cs x c !! Z.to_nat y = if decide (x = y) then Some c else cs !! Z.to_nat y.
Proof.
  intros Hl Hx Hy. unfold setChild, index in *. destruct (decide (x = y)) as [->|Hne].
  - apply list_lookup_insert_eq. lia.
  - apply list_lookup_insert_ne. lia.
Qed.

Lemma length_setChild (cs : list node) x c : length (setChild cs x c) = length cs.
Proof. apply length_insert. Qed.

(** ** Branches *)

Lemma branch_update d d' cs m m' x c :
  branchOk (okNode d) cs m -> index x -> slotOk (okNode d') x c (below m' [x]) ->
  m' [] = None -> (forall y j, y <> x -> m' (y :: j) = m (y :: j)) ->
  branchOk (okNode (d `max` d')) (setChild cs x c) m'.
Proof.
  intros (Hlen & Hnil & Hout & Hs) Hx Hc Hnil' Hm. split_and!; [by rewrite length_setChild|done| |].
  - intros y j Hy. rewrite Hm; [by apply Hout|]. intros ->. done.
  - intros y c' Hy. rewrite setChild_lookup by done. destruct (decide (x = y)) as [<-|Hne].
    + intros [= <-]. eapply slotOk_mono; [| |exact Hc]; [lia|done].
    + intros Hc'. eapply slotOk_mono; [| |by apply Hs]; [lia|]. intros j. simpl. symmetry. apply Hm. congruence.
Qed.

Definition emptyContent : content := fun _ => None.

Lemma branch_empty d : branchOk (okNode d) (replicate 17 nilNode) emptyContent.
Proof.
  split_and!; try done. intros x c Hx Hc. apply lookup_replicate in Hc as [-> _].
  unfold slotOk. destruct (decide (x = 16)); by left.
Qed.

(** A branch with two given children. *)
Lemma branch_two {fl} d m x y cx cy :
  index x -> index y -> x <> y -> cx <> nilNode -> cy <> nilNode ->
  slotOk (okNode d) x cx (below m [x]) -> slotOk (okNode d) y cy (below m [y]) ->
  m [] = None -> (forall z j, z <> x -> z <> y -> m (z :: j) = None) ->
  okNode (S d) (fullNode (setChild (setChild (replicate 17 nilNode) x cx) y cy) fl) m.
Proof.
  intros Hx Hy Hxy Hcx Hcy Hsx Hsy Hnil Hout. split.
  - set (mx := fun j => match j with z :: _ => if decide (z = x) then m j else None | [] => None end : option bytes).
    pose proof (branch_update d d _ emptyContent mx x cx (branch_empty d) Hx) as H1.
    rewrite Nat.max_id in H1. specialize (H1 ltac:(eapply slotOk_mono; [| |exact Hsx]; [lia|];
      intros j; unfold mx, below; simpl; by rewrite decide_True) eq_refl).
    specialize (H1 ltac:(intros z j Hz; unfold mx; by rewrite decide_False)).
    rewrite <- (Nat.max_id d). apply (branch_update d d _ mx m y cy H1 Hy Hsy Hnil).
    intros z j Hz. unfold mx. destruct (decide (z = x)) as [->|]; [done|by apply Hout].
  - exists x, y, cx, cy. rewrite !setChild_lookup by (by rewrite ?length_setChild).
    rewrite (decide_False (P := y = x)), !decide_True by done. by split_and!.
Qed.

Lemma two_update cs x c :
  length cs = 17%nat -> index x -> c <> nilNode -> twoChildren cs -> twoChildren (setChild cs x c).
Proof.
  intros Hl Hx Hc (y & z & cy & cz & Hy & Hz & Hyz & Hcy & Hcz & Hny & Hnz).
  exists y, z. rewrite !setChild_lookup by done.
  exists (if decide (x = y) then c else cy), (if decide (x = z) then c else cz).
  destruct (decide (x = y)), (decide (x = z)); by split_and!.
Qed.

(** ** Short nodes *)

Definition restOk (x : Z) (key : hex) : Prop := if decide (x = 16) then key = [] else termKey key.

Lemma restOk_split p x r : termKey (p ++ x :: r) -> path p /\ index x /\ restOk x r.
Proof.
  intros Hk. apply termKey_split in Hk as [Hp [[-> ->]|[Hx Hr]]]; unfold restOk, index, nibble in *.
  - by rewrite decide_True.
  - rewrite decide_False by lia. split_and!; [done|lia|lia|done].
Qed.

(** What hangs below the first symbols of a short node's key. *)
Definition subShort (k : hex) c : node := match k with [] => c | _ => shortNode k c newFlag end.

Lemma only_below p k v m : only (p ++ k) v m -> only k v (below m p).
Proof.
  intros [Hv Ho]. split; [done|]. intros j. unfold below. rewrite Ho.
  destruct (decide (j = k)) as [->|Hne]; [by rewrite decide_True|]. rewrite decide_False; [done|].
  intros Heq. by apply app_inv_head in Heq.
Qed.

Lemma below_app m p q j : below (below m p) q j = below m (p ++ q) j.
Proof. unfold below. by rewrite app_assoc. Qed.

Lemma short_slot {fl} d p x k c m :
  okNode (S d) (shortNode (p ++ x :: k) c fl) m ->
  index x /\ subShort k c <> nilNode /\ slotOk (okNode (S d)) x (subShort k c) (below m (p ++ [x])).
Proof.
  intros [[Hk (v & -> & Ho)]|(Hp & Hne & Hout & cs & Hb & Hok)].
  - apply termKey_split in Hk as [Hp Hx]. unfold slotOk, index, nibble in *.
    assert (only k v (below m (p ++ [x]))) as Hob by (apply only_below; by rewrite <- app_assoc).
    destruct Hx as [[-> ->]|[Hx Hk]].
    + rewrite decide_True by done. split_and!; [lia|lia|done|]. right. by exists v.
    + rewrite decide_False by lia. destruct k as [|y k]; [by apply termKey_not_nil in Hk|].
      split_and!; [lia|lia|done|]. right. left. left. split; [done|]. by exists v.
  - apply Forall_app in Hp as [Hp Hx]. apply Forall_cons in Hx as [Hx Hk]. unfold slotOk, index, nibble in *.
    rewrite decide_False by lia. destruct k as [|y k].
    + split_and!; [lia|lia|by destruct Hb as [(? & ->)|(h & ? & -> & _)]|]. right.
      destruct Hb as [(flb & ->)|(h & flb & -> & Hr)]; [left|right; exists h, (fullNode cs flb); split_and!; [done|done|]];
        (eapply okNode_mono; [| |exact (okNode_flag _ _ _ flb _ Hok)]; [lia|done]).
    + split_and!; [lia|lia|done|]. right. left. right. split_and!; [done|done| |].
      * intros j Hj. apply Hout. intros [r Hr]. apply Hj. exists r. apply (app_inv_head (p ++ [x])).
        rewrite Hr. by rewrite <- !app_assoc.
      * exists cs. split; [done|]. eapply okNode_ext; [|exact Hok]. intros j. rewrite below_app. by rewrite <- app_assoc.
Qed.

(** Nothing of a short node's map is outside its key. *)
Lemma short_outside {fl} d k c m j : okNode (S d) (shortNode k c fl) m -> ~ k `prefix_of` j -> m j = None.
Proof.
  intros [[Hk (v & -> & [_ Ho])]|(Hp & Hne & Hout & _)] Hj; [|by apply Hout].
  rewrite Ho, decide_False; [done|]. intros ->. by apply Hj.
Qed.

(** ** Insertion *)

Lemma below_put m p k v j : below (put m (p ++ k) v) p j = put (below m p) k v j.
Proof.
  unfold below, put. destruct (decide (j = k)) as [->|Hne]; [by rewrite decide_True|].
  rewrite decide_False; [done|]. intros Heq. by apply app_inv_head in Heq.
Qed.

Lemma below_put_other m p q k v j : ~ p `prefix_of` (q ++ k) -> below (put m (q ++ k) v) p j = below m p j.
Proof.
  intros Hp. unfold below, put. rewrite decide_False; [done|]. intros Heq. apply Hp. by exists j.
Qed.

(** A new value at a slot. *)
Lemma new_slot d x r v m :
  restOk x r -> v <> [] -> (forall j, m j = None) ->
  slotOk (okNode (S d)) x (subShort r (valueNode v)) (put m r (Some v)) /\ subShort r (valueNode v) <> nilNode.
Proof.
  intros Hr Hv Hm. unfold restOk, slotOk in *. assert (only r v (put m r (Some v))) as Ho.
  { split; [done|]. intros j. unfold put. by destruct (decide (j = r)). }
  destruct (decide (x = 16)) as [->|].
  - subst r. split; [|done]. right. by exists v.
  - destruct r as [|y r]; [by apply termKey_not_nil in Hr|]. split; [|done]. right. left. left. split; [done|]. by exists v.
Qed.

Lemma split_ok {fl} d p x y k r c m v :
  okNode (S d) (shortNode (p ++ x :: k) c fl) m -> termKey (p ++ y :: r) -> x <> y -> v <> [] ->
  let branch := fullNode (setChild (setChild (replicate 17 nilNode) x (subShort k c)) y (subShort r (valueNode v))) newFlag in
  exists d', okNode d' (subShort p branch) (put m (p ++ y :: r) (Some v)).
Proof.
  intros Hok Hkey Hxy Hv branch. destruct (short_slot d p x k c m Hok) as (Hx & Hnx & Hsx).
  apply restOk_split in Hkey as (Hp & Hy & Hr).
  set (m' := put m (p ++ y :: r) (Some v)).
  assert (forall j, below m (p ++ [y]) j = None) as Hemp.
  { intros j. apply (short_outside d _ _ _ _ Hok). rewrite <- app_assoc. simpl. intros [q Hq].
    rewrite <- app_assoc in Hq. apply app_inv_head in Hq. simpl in Hq. congruence. }
  assert (okNode (S (S d)) branch (below m' p)) as Hbr.
  { apply branch_two; try done.
    - by apply (new_slot d y r v (below m (p ++ [y]))).
    - eapply slotOk_mono; [| |exact Hsx]; [lia|]. intros j. rewrite below_app. unfold m'.
      rewrite below_put_other; [done|]. intros [q Hq]. rewrite <- app_assoc in Hq. apply app_inv_head in Hq. simpl in Hq. congruence.
    - eapply slotOk_mono; [| |by apply (new_slot d y r v (below m (p ++ [y])))]; [lia|].
      intros j. rewrite below_app. unfold m'. change (y :: r) with ([y] ++ r). rewrite app_assoc. symmetry. apply below_put.
    - unfold m', below, put. rewrite app_nil_r, decide_False.
      + apply (short_outside d _ _ _ _ Hok). intros [q Hq]. apply (f_equal length) in Hq. rewrite !length_app in Hq. simpl in Hq. lia.
      + intros Hq. apply (f_equal length) in Hq. rewrite !length_app in Hq. simpl in Hq. lia.
    - intros z j Hzx Hzy. unfold m', below, put. rewrite decide_False.
      + apply (short_outside d _ _ _ _ Hok). intros [q Hq]. rewrite <- app_assoc in Hq. apply app_inv_head in Hq. simpl in Hq. congruence.
      + intros Hq. apply app_inv_head in Hq. congruence. }
  destruct p as [|z p]; [by exists (S (S d))|]. exists (S (S (S d))). right. split_and!; [done|done| |].
  - intros j Hj. unfold m', put. rewrite decide_False.
    + apply (short_outside d _ _ _ _ Hok). intros [q Hq]. apply Hj. exists (x :: k ++ q). rewrite Hq. by rewrite <- app_assoc.
    + intros ->. apply Hj. by exists (y :: r).
  - eexists. split; [left; by eexists|]. exact (okNode_flag _ _ _ _ _ Hbr).
Qed.

Definition cost n : nat := match n with hashNode _ => 2 | _ => 1 end.

Lemma okNode_cost d n m : okNode d n m -> cost n = 1%nat.
Proof. intros Hok. by apply okNode_shape in Hok as [(k & c & fl & ->)|(cs & fl & ->)]. Qed.

Lemma insert_nil f pre key value : insert (S f) nilNode pre key value = Ok (true, subShort key value).
Proof. by destruct key. Qed.

(** What [insert] does at a slot. *)
Definition inserted (x : Z) n m key (v : bytes) (r : outcome trieError (bool * node)) : Prop :=
  exists dirty n', r = Ok (dirty, n') /\ (exists d', slotOk (okNode d') x n' (put m key (Some v))) /\
    n' <> nilNode /\ (dirty = false -> m key = Some v) /\
    (forall cs, isBranch n cs -> exists cs' fl', n' = fullNode cs' fl').

Lemma put_same m key v j : m key = v -> put m key v j = m j.
Proof. intros <-. unfold put. by destruct (decide (j = key)) as [->|]. Qed.

Lemma slot_nibble d x n m : x <> 16 -> slotOk (okNode d) x n m -> childOk (okNode d) n m.
Proof. intros Hx. unfold slotOk. by rewrite decide_False. Qed.

Lemma okNode_slot d x n m : x <> 16 -> okNode d n m -> slotOk (okNode d) x n m.
Proof. intros Hx Hok. unfold slotOk. rewrite decide_False by done. right. by left. Qed.

Definition insertsAt (f : nat) : Prop :=
  forall x d n m pre key v,
  slotOk (okNode d) x n m -> restOk x key -> v <> [] -> (2 * length key + cost n <= f)%nat ->
  inserted x n m key v (insert f n pre key (valueNode v)).

(** Loaded or not, an unchanged node still stands for the map. *)
Lemma inserted_same x d n m key v n' :
  slotOk (okNode d) x n' m -> m key = Some v -> n' <> nilNode ->
  (forall cs, isBranch n cs -> exists cs' fl', n' = fullNode cs' fl') ->
  inserted x n m key v (Ok (false, n')).
Proof.
  intros Hs Hk Hn Hb. exists false, n'. split_and!; try done. exists d.
  eapply slotOk_mono; [| |exact Hs]; [done|]. intros j. symmetry. by apply put_same.
Qed.

Lemma insert_at_value f n m pre v :
  valueOk n m -> v <> [] -> inserted 16 n m [] v (insert (S f) n pre [] (valueNode v)).
Proof.
  intros Hn Hv. assert (slotOk (okNode 0) 16 (valueNode v) (put m [] (Some v))) as Hs.
  { unfold slotOk. rewrite decide_True by done. right. exists v. split; [done|]. split; [done|].
    intros j. unfold put. destruct (decide (j = [])) as [->|Hj]; [done|].
    destruct Hn as [[_ Hn]|(v0 & _ & [_ Ho])]; [done|]. by rewrite Ho, decide_False. }
  assert (forall cs, isBranch n cs -> exists cs' fl', valueNode v = fullNode cs' fl') as Hb.
  { intros cs [(? & ->)|(h & ? & -> & _)]; destruct Hn as [[? _]|(v0 & ? & _)]; done. }
  destruct Hn as [[-> Hn]|(v0 & -> & [_ Ho])]; simpl.
  - exists true, (valueNode v). split_and!; try done; eauto.
  - exists (negb (bool_decide (v0 = v))), (valueNode v). split_and!; try done; eauto.
    intros Hd. apply negb_false_iff, bool_decide_eq_true in Hd as ->. by rewrite Ho.
Qed.

Lemma insert_at_full {fl} f x d cs m pre z key v :
  insertsAt f -> x <> 16 -> okNode (S d) (fullNode cs fl) m -> termKey (z :: key) -> v <> [] ->
  (2 * length (z :: key) <= f)%nat ->
  inserted x (fullNode cs fl) m (z :: key) v (insert (S f) (fullNode cs fl) pre (z :: key) (valueNode v)).
Proof.
  intros IH Hx [Hb Htwo] Hk Hv Hf. pose proof (restOk_split [] z key Hk) as (_ & Hz & Hr).
  pose proof Hb as (Hlen & Hnil & Hout & Hs). destruct (index_lookup cs z Hlen Hz) as [c Hc].
  specialize (Hs z c Hz Hc). cbn [insert]. unfold child. rewrite Hc. cbn [obind].
  destruct (IH z d c (below m [z]) (pre ++ [z]) key v Hs Hr Hv) as (dirty & nn & Hi & (d' & Hs') & Hnn & Hsame & _).
  { simpl in Hf. assert (cost c <= 2)%nat by (destruct c; simpl; lia). lia. }
  rewrite Hi. cbn [obind]. destruct dirty.
  - exists true, (fullNode (setChild cs z nn) newFlag). split_and!; try done; [|by intros; do 2 eexists].
    exists (S (d `max` d')). apply okNode_slot; [done|]. split; [|by apply two_update].
    eapply branch_update; [done|done| | |].
    + eapply slotOk_mono; [| |exact Hs']; [done|]. intros j. symmetry. apply (below_put m [z] key).
    + unfold put. by rewrite decide_False.
    + intros y j Hy. unfold put. by rewrite decide_False by congruence.
  - apply (inserted_same x (S d)); [by apply okNode_slot|by apply Hsame|done|by intros; do 2 eexists].
Qed.

Lemma insert_at_branch_below {fl} f x d k r c cs m pre v :
  insertsAt f -> x <> 16 -> path k -> k <> [] -> (forall j, ~ k `prefix_of` j -> m j = None) -> isBranch c cs ->
  okNode d (fullNode cs noFlag) (below m k) -> termKey (k ++ r) -> v <> [] -> (2 * length (k ++ r) <= f)%nat ->
  inserted x (shortNode k c fl) m (k ++ r) v
    (r0 <-! insert f c pre r (valueNode v) ;;
     let '(dirty, nn) := r0 in
     if dirty : bool then Ok (true, shortNode k nn newFlag) else Ok (false, shortNode k c fl)).
Proof.
  intros IH Hx Hk Hne Hout Hb Hok Hkey Hv Hf.
  destruct (IH 0 d c (below m k) pre r v) as (dirty & nn & Hi & (d' & Hs') & Hnn & Hsame & Hbr); [| |done| |].
  - unfold slotOk. rewrite decide_False by done. right.
    destruct Hb as [(flb & ->)|(h & flb & -> & Hr)]; apply (okNode_flag _ _ _ flb) in Hok; [by left|right]. by exists h, (fullNode cs flb).
  - unfold restOk. rewrite decide_False by done. by apply (termKey_app k).
  - rewrite length_app in Hf. destruct k; [done|]. simpl in Hf. assert (cost c <= 2)%nat by (destruct c; simpl; lia). lia.
  - destruct (Hbr cs Hb) as (cs' & fl' & ->). rewrite Hi. cbn [obind].
    assert (forall cs0, isBranch (shortNode k c fl) cs0 -> exists cs'0 fl0, shortNode k (fullNode cs' fl') newFlag = fullNode cs'0 fl0) as Hnb
      by (intros cs0 [(? & ?)|(h & ? & ? & _)]; done).
    assert (forall cs0, isBranch (shortNode k c fl) cs0 -> exists cs'0 fl0, shortNode k c fl = fullNode cs'0 fl0) as Hnb2
      by (intros cs0 [(? & ?)|(h & ? & ? & _)]; done).
    destruct dirty.
    + exists true, (shortNode k (fullNode cs' fl') newFlag). split_and!; try done. exists (S d'). apply okNode_slot; [done|].
      right. split_and!; [done|done| |].
      * intros j Hj. unfold put. rewrite decide_False; [by apply Hout|]. intros ->. apply Hj. by exists r.
      * exists cs'. split; [left; by eexists|]. apply slot_nibble in Hs'; [|done].
        destruct Hs' as [[? _]|[Hs'|(h & n0 & ? & _)]]; [done| |done].
        eapply okNode_ext; [|exact (okNode_flag _ _ _ noFlag _ Hs')]. intros j. symmetry. apply below_put.
    + apply (inserted_same x (S d)); [|by apply Hsame|done|done]. apply okNode_slot; [done|].
      right. split_and!; try done. by exists cs.
Qed.

Lemma key_not_prefix {fl} k key d c m :
  okNode (S d) (shortNode k c fl) m -> termKey key -> (prefixLen key k < length k)%nat -> (prefixLen key k < length key)%nat.
Proof.
  intros Hok Hkey Hlt. destruct (prefixLen_le key k) as [Hle _]. apply Nat.le_lteq in Hle as [Hle|Heq]; [done|exfalso].
  assert (exists r, k = key ++ r) as [r ->].
  { exists (drop (length key) k). pose proof (prefixLen_take key k) as Ht. rewrite Heq, firstn_all in Ht.
    rewrite Ht at 1. by rewrite take_drop. }
  rewrite Heq, length_app in Hlt. destruct Hok as [[Hk _]|(Hp & _)].
  - apply termKey_prefix in Hk; [|done]. subst r. simpl in Hlt. lia.
  - destruct Hkey as (p & _ & ->). apply Forall_app in Hp as [Hp _]. apply Forall_app in Hp as [_ Hp].
    apply Forall_cons in Hp as [Hp _]. unfold nibble in Hp. lia.
Qed.

Lemma insert_at_split {fl} f x d k c m pre z key v :
  x <> 16 -> okNode (S d) (shortNode k c fl) m -> termKey (z :: key) -> v <> [] ->
  (prefixLen (z :: key) k < length k)%nat ->
  inserted x (shortNode k c fl) m (z :: key) v (insert (S (S f)) (shortNode k c fl) pre (z :: key) (valueNode v)).
Proof.
  intros Hx Hok Hkey Hv Hlt. pose proof (key_not_prefix _ _ _ _ _ Hok Hkey Hlt) as Hlt'.
  remember (S f) as g eqn:Eg. cbn [insert]. subst g. rewrite (proj2 (Nat.eqb_neq _ _)) by lia.
  destruct (prefixLen_split (z :: key) k Hlt' Hlt) as (p & y & x' & r & k' & Ekey & -> & Hne & Hp).
  rewrite <- Hp. rewrite Ekey in Hkey |- *. rewrite !list_lookup_middle by done.
  rewrite !insert_nil. cbn [obind snd].
  assert (forall (l : hex) w, drop (length p + 1) (p ++ w :: l) = l) as Hdrop.
  { intros l w. rewrite drop_app_ge by lia. rewrite Nat.add_comm, Nat.add_sub. done. }
  rewrite !Hdrop, take_app_length.
  destruct (split_ok d p x' y k' r c m v Hok Hkey) as [d' Hd]; [congruence|done|]. simpl in Hd.
  set (branch := fullNode _ newFlag) in *. exists true, (subShort p branch). split; [by destruct p|]. split_and!.
  - exists d'. by apply okNode_slot.
  - by destruct p.
  - done.
  - intros cs [(? & ?)|(h & ? & ? & _)]; done.
Qed.

Lemma insert_ok f : insertsAt f.
Proof.
  induction f as [|f IH]; intros x d n m pre key v Hs Hk Hv Hf.
  { assert (1 <= cost n)%nat by (destruct n; simpl; lia). lia. }
  unfold restOk in Hk. destruct (decide (x = 16)) as [->|Hx].
  { subst key. unfold slotOk in Hs. rewrite decide_True in Hs by done. by apply insert_at_value. }
  apply slot_nibble in Hs; [|done]. destruct key as [|z key]; [by apply termKey_not_nil in Hk|].
  destruct Hs as [[-> Hm]|[Hok|(h & n0 & -> & Hr & Hok)]].
  - rewrite insert_nil. destruct (new_slot 0 x (z :: key) v m) as [Hs' Hn]; [unfold restOk; by rewrite decide_False|done|done|].
    exists true, (subShort (z :: key) (valueNode v)). split_and!; try done; [by exists 1%nat|].
    intros cs [(? & ?)|(h & ? & ? & _)]; done.
  - destruct d as [|d]; [done|]. destruct n as [| |k c fl|cs fl|]; try done; [|by apply (insert_at_full f x d); try done; simpl in *; lia].
    destruct (decide (prefixLen (z :: key) k = length k)) as [Heq|Hne].
    + destruct (prefixLen_full _ _ Heq) as [r Er]. cbn [insert]. rewrite Heq, Nat.eqb_refl.
      rewrite Er in Hf, Hk |- *. rewrite take_app_length, drop_app_length. destruct Hok as [[Hk' (v0 & -> & [Hv0 Ho])]|(Hp & Hne & Hout & cs & Hb & Hok)].
      * apply termKey_prefix in Hk; [|done]. subst r. rewrite app_nil_r in *.
        destruct f as [|f]; [rewrite <- Er in Hf; simpl in Hf; lia|]. cbn [insert obind].
        assert (forall v' fl', v' <> [] -> slotOk (okNode 1) x (shortNode k (valueNode v') fl') (put m k (Some v'))) as Hleaf.
        { intros v' fl' Hv'. apply okNode_slot; [done|]. left. split; [done|]. exists v'. split; [done|]. split; [done|].
          intros j. unfold put. destruct (decide (j = k)) as [->|]; [done|]. by rewrite Ho, decide_False. }
        case_bool_decide as E; simpl.
        -- subst v0. apply (inserted_same x 1); [|by rewrite Ho, decide_True|done|by intros cs [(? & ?)|(h & ? & ? & _)]].
           eapply slotOk_mono; [| |by apply (Hleaf v)]; [done|]. intros j. apply put_same. by rewrite Ho, decide_True.
        -- exists true, (shortNode k (valueNode v) newFlag). split_and!; try done; [exists 1%nat; by apply Hleaf|].
           intros cs [(? & ?)|(h & ? & ? & _)]; done.
      * eapply insert_at_branch_below; try done. simpl in Hf. lia.
    + destruct f as [|f]; [simpl in Hf; lia|]. apply (insert_at_split f x d); try done.
      destruct (prefixLen_le (z :: key) k). lia.
  - cbn [insert]. unfold resolveHash. rewrite Hr. cbn [obind].
    destruct (IH x d n0 m pre (z :: key) v) as (dirty & nn & Hi & Hs' & Hnn & Hsame & Hbr); [by apply okNode_slot| |done| |].
    + unfold restOk. by rewrite decide_False.
    + rewrite (okNode_cost _ _ _ Hok). simpl in *. lia.
    + assert (forall cs, isBranch (hashNode h) cs -> isBranch n0 cs) as Hb0.
      { intros cs [(? & ?)|(h' & flb & [= <-] & Hr')]; [done|]. left. exists flb. congruence. }
      rewrite Hi. cbn [obind]. destruct dirty.
      * exists true, nn. split_and!; try done. intros cs Hb. by apply (Hbr cs), Hb0.
      * apply (inserted_same x d); [by apply okNode_slot|by apply Hsame| |].
        -- by apply okNode_shape in Hok as [(k & c & fl & ->)|(cs & fl & ->)].
        -- intros cs [(? & ?)|(h' & flb & [= <-] & Hr')]; [done|]. exists cs, flb. congruence.
Qed.

(** ** Lookup *)

Definition found (x : Z) n m key (r : outcome trieError (option bytes * node * bool)) : Prop :=
  exists n' did, r = Ok (m key, n', did) /\ (exists d', slotOk (okNode d') x n' m) /\
    (did = true -> n <> nilNode) /\ (n <> nilNode -> n' <> nilNode) /\
    (forall cs, isBranch n cs -> exists cs', isBranch n' cs').

Definition findsAt (f : nat) : Prop :=
  forall x d n m pre key,
  slotOk (okNode d) x n m -> restOk x key -> (2 * length key + cost n <= f)%nat ->
  found x n m key (tryGet f n pre key).

Lemma found_same x d n m key r : slotOk (okNode d) x n m -> r = Ok (m key, n, false) -> found x n m key r.
Proof. intros Hs ->. exists n, false. split_and!; try done; eauto. Qed.

Lemma branch_of_child d c cs m : childOk (okNode d) c m -> isBranch c cs -> okNode d (fullNode cs noFlag) m.
Proof.
  intros Hc Hb. destruct Hc as [[-> _]|[Hok|(h & n & -> & Hr & Hok)]].
  - by destruct Hb as [(? & ?)|(h & ? & ? & _)].
  - destruct Hb as [(? & ->)|(h & ? & -> & _)]; [exact (okNode_flag _ _ _ _ _ Hok)|]. by apply okNode_shape in Hok as [(k & c & fl0 & ?)|(cs' & fl0 & ?)].
  - destruct Hb as [(? & ?)|(h' & flb & [= <-] & Hr')]; [done|]. rewrite Hr in Hr'. injection Hr' as ->. exact (okNode_flag _ _ _ _ _ Hok).
Qed.

Lemma child_of_branch d c cs m : isBranch c cs -> okNode d (fullNode cs noFlag) m -> childOk (okNode d) c m.
Proof.
  intros [(flb & ->)|(h & flb & -> & Hr)] Hok; apply (okNode_flag _ _ _ flb) in Hok; right; [by left|right]. by exists h, (fullNode cs flb).
Qed.

Lemma cost_le c : (1 <= cost c <= 2)%nat.
Proof. destruct c; simpl; lia. Qed.

Lemma get_at_full {fl} f x d cs m pre z key :
  findsAt f -> x <> 16 -> okNode (S d) (fullNode cs fl) m -> termKey (z :: key) -> (2 * length (z :: key) <= f)%nat ->
  found x (fullNode cs fl) m (z :: key) (tryGet (S f) (fullNode cs fl) pre (z :: key)).
Proof.
  intros IH Hx [Hb Htwo] Hk Hf. pose proof (restOk_split [] z key Hk) as (_ & Hz & Hr).
  pose proof Hb as (Hlen & Hnil & Hout & Hs). destruct (index_lookup cs z Hlen Hz) as [c Hc].
  specialize (Hs z c Hz Hc). cbn [tryGet]. unfold child. rewrite Hc. cbn [obind].
  destruct (IH z d c (below m [z]) (pre ++ [z]) key Hs Hr) as (n' & did & Hi & (d' & Hs') & Hdid & Hnn & _).
  { simpl in Hf. pose proof (cost_le c). lia. }
  rewrite Hi. cbn [obind]. destruct did; [|by apply (found_same x (S d)); [apply okNode_slot|]].
  exists (fullNode (setChild cs z n') (touch fl)), true. split_and!; try done; [|by intros; eexists; left; eexists].
  exists (S (d `max` d')). apply okNode_slot; [done|]. split.
  - by eapply branch_update.
  - apply two_update; try done. by apply Hnn, Hdid.
Qed.

Lemma get_ok f : findsAt f.
Proof.
  induction f as [|f IH]; intros x d n m pre key Hs Hk Hf; [pose proof (cost_le n); lia|].
  unfold restOk in Hk. destruct (decide (x = 16)) as [->|Hx].
  { subst key. pose proof Hs as Hs0. unfold slotOk in Hs. rewrite decide_True in Hs by done.
    apply (found_same 16 d); [done|]. destruct Hs as [[-> Hn]|(v & -> & [_ Ho])]; simpl; by rewrite ?Hn, ?Ho. }
  pose proof Hs as Hs0. apply slot_nibble in Hs; [|done].
  destruct Hs as [[-> Hm]|[Hok|(h & n0 & -> & Hr & Hok)]].
  - apply (found_same x d); [done|]. simpl. by rewrite Hm.
  - destruct d as [|d]; [done|]. destruct n as [| |k c fl|cs fl|]; try done.
    + cbn [tryGet]. destruct ((length key <? length k)%nat || _) eqn:Ecmp.
      { apply (found_same x (S d)); [done|]. rewrite (short_outside d k c m key Hok); [done|].
        intros [r ->]. apply orb_true_iff in Ecmp as [El|En].
        - apply Nat.ltb_lt in El. rewrite length_app in El. lia.
        - apply negb_true_iff, bool_decide_eq_false in En. apply En. by rewrite take_app_length. }
      apply orb_false_iff in Ecmp as [_ En]. apply negb_false_iff, bool_decide_eq_true in En.
      assert (exists r, key = k ++ r) as [r ->] by (exists (drop (length k) key); rewrite En at 1; by rewrite take_drop).
      rewrite drop_app_length. clear En. destruct Hok as [[Hk' (v & -> & [Hv Ho])]|(Hp & Hne & Hout & cs & Hb & Hok)].
      * apply termKey_prefix in Hk; [|done]. subst r. rewrite app_nil_r in *.
        destruct f as [|f]; [apply termKey_not_nil in Hk'; destruct k; [done|]; simpl in Hf; lia|]. simpl.
        apply (found_same x (S d)); [done|]. by rewrite Ho, decide_True.
      * destruct (IH 0 d c (below m k) (pre ++ k) r) as (n' & did & Hi & (d' & Hs') & _ & _ & Hbr).
        { unfold slotOk. rewrite decide_False by done. by apply (child_of_branch d c cs). }
        { unfold restOk. rewrite decide_False by done. by apply (termKey_app k). }
        { rewrite length_app in Hf. destruct k; [done|]. simpl in Hf. pose proof (cost_le c). lia. }
        rewrite Hi. cbn [obind]. destruct did; [|by apply (found_same x (S d)); [done|]].
        destruct (Hbr cs Hb) as [cs' Hb']. apply slot_nibble in Hs'; [|done].
        exists (shortNode k n' (touch fl)), true. split_and!; try done.
        -- exists (S d'). apply okNode_slot; [done|]. right. split_and!; try done. exists cs'. split; [done|].
           by apply (branch_of_child d' n').
        -- by intros cs0 [(? & ?)|(h & ? & ? & _)].
    + destruct key as [|z key]; [by apply termKey_not_nil in Hk|]. apply (get_at_full f x d); try done. simpl in *. lia.
  - cbn [tryGet]. unfold resolveHash. rewrite Hr. cbn [obind].
    destruct (IH x d n0 m pre key) as (n' & did & Hi & Hs' & _ & Hnn & Hbr); [by apply okNode_slot|unfold restOk; by rewrite decide_False| |].
    { rewrite (okNode_cost _ _ _ Hok). simpl in *. lia. }
    rewrite Hi. cbn [obind]. exists n', true. split_and!; try done.
    + intros _. apply Hnn. by apply okNode_shape in Hok as [(k & c & fl & ->)|(cs & fl & ->)].
    + intros cs [(? & ?)|(h' & flb & [= <-] & Hr')]; [done|]. apply (Hbr cs). left. exists flb. congruence.
Qed.

(** ** Deletion *)

#[global] Instance nilNode_dec c : Decision (c = nilNode).
Proof. destruct c; [left|right..]; done. Defined.

Lemma remaining_seen i cs pos :
  pos <> -1 ->
  (remaining i cs pos = pos /\ Forall (fun c => c = nilNode) cs) \/
  (remaining i cs pos = -2 /\ exists j c, cs !! j = Some c /\ c <> nilNode).
Proof.
  intros Hpos. revert i. induction cs as [|c cs IH]; intros i; [left; by split|].
  destruct (decide (c = nilNode)) as [->|Hc].
  - simpl. destruct (IH (i + 1)) as [[-> Hall]|[-> (j & c & Hj & Hc)]]; [left; by split; [|constructor]|right].
    split; [done|]. by exists (S j), c.
  - right. split; [destruct c; simpl; try done; by rewrite (proj2 (Z.eqb_neq _ _))|]. by exists O, c.
Qed.

Lemma remaining_start i cs :
  0 <= i ->
  (remaining i cs (-1) = -1 /\ Forall (fun c => c = nilNode) cs) \/
  (exists j c, remaining i cs (-1) = i + Z.of_nat j /\ cs !! j = Some c /\ c <> nilNode /\
               forall j' c', cs !! j' = Some c' -> j' <> j -> c' = nilNode) \/
  (remaining i cs (-1) = -2 /\ exists j j' c c', j <> j' /\ cs !! j = Some c /\ cs !! j' = Some c' /\ c <> nilNode /\ c' <> nilNode).
Proof.
  revert i. induction cs as [|c cs IH]; intros i Hi; [left; by split|].
  destruct (decide (c = nilNode)) as [->|Hc].
  - simpl. destruct (IH (i + 1)) as [[-> Hall]|[(j & c & -> & Hj & Hc & Ho)|(-> & j & j' & c & c' & Hne & Hj & Hj' & Hcc)]]; [lia|..].
    + left. by split; [|constructor].
    + right. left. exists (S j), c. split_and!; [lia|done|done|]. intros [|j'] c' Hj' Hne; simpl in Hj'; [congruence|].
      apply (Ho j' c' Hj'). congruence.
    + right. right. split; [done|]. exists (S j), (S j'), c, c'. split_and!; try done; [congruence|apply Hcc..].
  - assert (remaining i (c :: cs) (-1) = remaining (i + 1) cs i) as -> by (by destruct c).
    destruct (remaining_seen (i + 1) cs i) as [[-> Hall]|[-> (j & c' & Hj & Hc')]]; [lia|right; left|right; right].
    + exists O, c. split_and!; [lia|done|done|]. intros [|j'] c' Hj' Hne; [done|]. simpl in Hj'.
      rewrite Forall_lookup in Hall. by apply (Hall j').
    + split; [done|]. by exists O, (S j), c, c'.
Qed.

(** A short node under a path is a short node with a longer key. *)
Lemma short_prepend {fl} fl' d p k c m :
  okNode d (shortNode k c fl) (below m p) -> path p -> (forall j, ~ p `prefix_of` j -> m j = None) ->
  okNode d (shortNode (p ++ k) c fl') m.
Proof.
  intros Hok Hp Hout. destruct d as [|d]; [done|].
  destruct Hok as [[(q & Hq & ->) (v & -> & [Hv Ho])]|(Hk & Hne & Hout' & cs & Hb & Hok)].
  - left. split; [exists (p ++ q); split; [by apply Forall_app|by rewrite app_assoc]|]. exists v. split; [done|]. split; [done|].
    intros j. destruct (decide (p `prefix_of` j)) as [[r ->]|Hj].
    + specialize (Ho r). unfold below in Ho. rewrite Ho. destruct (decide (r = q ++ [16])) as [->|Hr]; [by rewrite decide_True|].
      rewrite decide_False; [done|]. intros Heq. by apply app_inv_head in Heq.
    + rewrite decide_False; [by apply Hout|]. intros ->. apply Hj. by exists (q ++ [16]).
  - right. split_and!; [by apply Forall_app|by destruct p| |].
    + intros j Hj. destruct (decide (p `prefix_of` j)) as [[r ->]|Hj']; [|by apply Hout].
      apply (Hout' r). intros [q ->]. apply Hj. exists q. by rewrite app_assoc.
    + exists cs. split; [done|]. eapply okNode_ext; [|exact Hok]. intros j. apply below_app.
Qed.

Lemma slot_nil d x m : slotOk (okNode d) x nilNode m -> forall j, m j = None.
Proof.
  unfold slotOk. intros Hs. destruct (decide (x = 16)).
  - by destruct Hs as [[_ Hs]|(v & ? & _)].
  - destruct Hs as [[_ Hs]|[Hs|(h & n0 & ? & _)]]; [done| |done].
    by apply okNode_shape in Hs as [(k & c & fl0 & ?)|(cs & fl0 & ?)].
Qed.

Lemma reduce_ok d cs m pre :
  branchOk (okNode d) cs m -> (exists x c, index x /\ cs !! Z.to_nat x = Some c /\ c <> nilNode) ->
  exists n', reduce cs pre = Ok (true, n') /\ exists d', okNode d' n' m.
Proof.
  intros Hb (x0 & c0 & Hx0 & Hc0 & Hn0). pose proof Hb as (Hlen & Hnil & Hout & Hs). unfold reduce.
  destruct (remaining_start 0 cs) as [[_ Hall]|[(j & c & -> & Hj & Hc & Ho)|(-> & j & j' & c & c' & Hne & Hj & Hj' & Hcc)]]; [lia|..].
  - rewrite Forall_lookup in Hall. by destruct (Hn0 (Hall _ _ Hc0)).
  - pose proof (lookup_lt_Some _ _ _ Hj) as Hlt. rewrite Hlen in Hlt. rewrite Z.add_0_l.
    rewrite (proj2 (Z.leb_le _ _)) by lia. unfold child. rewrite Nat2Z.id, Hj. cbn [obind].
    assert (index (Z.of_nat j)) as Hx by (unfold index; lia).
    pose proof (Hs (Z.of_nat j) c Hx ltac:(by rewrite Nat2Z.id)) as Hsj.
    assert (forall i, ~ [Z.of_nat j] `prefix_of` i -> m i = None) as Hout'.
    { intros [|y i] Hi; [done|]. destruct (decide (index y)) as [Hy|Hy]; [|by apply Hout].
      destruct (index_lookup cs y Hlen Hy) as [cy Hcy].
      assert (cy = nilNode) as ->.
      { apply (Ho _ _ Hcy). intros Heq. apply Hi. exists i. simpl. f_equal. unfold index in Hy. lia. }
      by apply (slot_nil d y _ (Hs y _ Hy Hcy)). }
    destruct (Z.eqb_spec (Z.of_nat j) 16) as [E|E].
    + rewrite E in *. eexists. split; [reflexivity|]. exists 1%nat. left. split; [exists []; split; [constructor|done]|].
      unfold slotOk in Hsj. rewrite decide_True in Hsj by done. destruct Hsj as [[? _]|(v & -> & Hv & Hon)]; [done|].
      exists v. split; [done|]. split; [done|]. intros i. destruct (decide ([16] `prefix_of` i)) as [[r ->]|Hi].
      * rewrite (Hon r : m ([16] ++ r) = _). simpl. destruct (decide (r = [])) as [->|]; [by rewrite decide_True|].
        by rewrite decide_False by congruence.
      * rewrite Hout' by done. rewrite decide_False; [done|]. intros ->. by apply Hi.
    + apply slot_nibble in Hsj; [|done]. destruct Hsj as [[? _]|Hl]; [done|].
      assert (exists n0, resolve c pre = Ok n0 /\ okNode d n0 (below m [Z.of_nat j]) /\ (n0 = c \/ exists h, c = hashNode h /\ readNode h = Ok (Some n0))) as (n0 & Hr & Hok & Hn).
      { destruct Hl as [Hok|(h & n0 & -> & Hr & Hok)].
        - exists c. split_and!; [|done|by left]. by apply okNode_shape in Hok as [(k & c' & fl0 & ->)|(cs' & fl0 & ->)].
        - exists n0. split_and!; [by simpl; unfold resolveHash; rewrite Hr|done|right; by exists h]. }
      rewrite Hr. cbn [obind]. assert (nibble (Z.of_nat j)) as Hnib by (unfold index, nibble in *; lia).
      apply okNode_shape in Hok as Hsh. destruct Hsh as [(k & c' & fl0 & ->)|(cs' & fl0 & ->)].
      * eexists. split; [reflexivity|]. exists d. apply (short_prepend (fl:=fl0) _ d [Z.of_nat j]); [done|by apply Forall_singleton|done].
      * eexists. split; [reflexivity|]. exists (S d). right. split_and!; [by apply Forall_singleton|done|done|].
        exists cs'. split; [|exact (okNode_flag _ _ _ _ _ Hok)]. destruct Hn as [<-|(h & -> & Hh)]; [left; by exists fl0|right; by exists h, fl0].
  - eexists. split; [reflexivity|]. exists (S d). split; [done|].
    exists (Z.of_nat j), (Z.of_nat j'), c, c'. rewrite !Nat2Z.id.
    pose proof (lookup_lt_Some _ _ _ Hj). pose proof (lookup_lt_Some _ _ _ Hj'). unfold index. split_and!; try done; try lia; apply Hcc.
Qed.

Definition deleted (x : Z) n m key (r : outcome trieError (bool * node)) : Prop :=
  exists dirty n', r = Ok (dirty, n') /\ (exists d', slotOk (okNode d') x n' (put m key None)) /\
    (dirty = false -> m key = None) /\
    (dirty = true -> x <> 16 -> n' = nilNode \/ exists d', okNode d' n' (put m key None)) /\
    (forall cs, isBranch n cs -> n' <> nilNode).

Definition deletesAt (f : nat) : Prop :=
  forall x d n m pre key,
  slotOk (okNode d) x n m -> restOk x key -> (2 * length key + cost n <= f)%nat ->
  deleted x n m key (delete f n pre key).

Lemma deleted_same x d n n' m key r :
  slotOk (okNode d) x n' m -> r = Ok (false, n') -> m key = None -> (forall cs, isBranch n cs -> n' <> nilNode) ->
  deleted x n m key r.
Proof.
  intros Hs -> Hk Hn. exists false, n'. split_and!; try done. exists d.
  eapply slotOk_mono; [| |exact Hs]; [done|]. intros j. symmetry. by apply put_same.
Qed.

Lemma deleted_node x d n n' m key r :
  x <> 16 -> okNode d n' (put m key None) -> r = Ok (true, n') -> deleted x n m key r.
Proof.
  intros Hx Hok ->. exists true, n'. split_and!; try done; eauto.
  - exists d. by apply okNode_slot.
  - intros cs _. by apply okNode_shape in Hok as [(k & c & fl0 & ->)|(cs' & fl0 & ->)].
Qed.

Lemma delete_at_full {fl} f x d cs m pre z key :
  deletesAt f -> x <> 16 -> okNode (S d) (fullNode cs fl) m -> termKey (z :: key) -> (2 * length (z :: key) <= f)%nat ->
  deleted x (fullNode cs fl) m (z :: key) (delete (S f) (fullNode cs fl) pre (z :: key)).
Proof.
  intros IH Hx Hok Hk Hf. pose proof Hok as [Hb Htwo]. pose proof (restOk_split [] z key Hk) as (_ & Hz & Hr).
  pose proof Hb as (Hlen & Hnil & Hout & Hs). destruct (index_lookup cs z Hlen Hz) as [c Hc].
  specialize (Hs z c Hz Hc). cbn [delete]. unfold child. rewrite Hc. cbn [obind].
  destruct (IH z d c (below m [z]) (pre ++ [z]) key Hs Hr) as (dirty & nn & Hi & (d' & Hs') & Hsame & _).
  { simpl in Hf. pose proof (cost_le c). lia. }
  rewrite Hi. cbn [obind]. destruct dirty; simpl negb; cbn iota.
  - destruct (reduce_ok (d `max` d') (setChild cs z nn) (put m (z :: key) None) pre) as (n' & Hred & d2 & Hn').
    + eapply branch_update; [done|done| | |].
      * eapply slotOk_mono; [| |exact Hs']; [done|]. intros j. symmetry. apply (below_put m [z] key).
      * unfold put. by rewrite decide_False.
      * intros y j Hy. unfold put. by rewrite decide_False by congruence.
    + destruct Htwo as (y1 & y2 & c1 & c2 & Hy1 & Hy2 & Hne & Hc1 & Hc2 & Hn1 & Hn2).
      destruct (decide (z = y1)) as [->|Hz1].
      * exists y2, c2. by rewrite setChild_lookup, decide_False by done.
      * exists y1, c1. by rewrite setChild_lookup, decide_False by done.
    + by apply (deleted_node x d2 _ n').
  - apply (deleted_same x (S d) _ (fullNode cs fl)); [by apply okNode_slot|done|by apply Hsame|done].
Qed.

Lemma delete_at_short {fl} f x d k c m pre key :
  deletesAt f -> x <> 16 -> okNode (S d) (shortNode k c fl) m -> termKey key -> (2 * length key <= f)%nat ->
  deleted x (shortNode k c fl) m key (delete (S f) (shortNode k c fl) pre key).
Proof.
  intros IH Hx Hok Hk Hf. cbn [delete].
  assert (forall cs n', isBranch (shortNode k c fl) cs -> n' <> nilNode) as Hnb by (by intros cs n' [(? & ?)|(h & ? & ? & _)]).
  destruct (Nat.ltb_spec (prefixLen key k) (length k)) as [Hlt|Hge].
  { apply (deleted_same x (S d) _ (shortNode k c fl)); [by apply okNode_slot|done| |by intros; eapply Hnb].
    apply (short_outside d k c m key Hok). intros [r ->]. rewrite prefixLen_app in Hlt. lia. }
  destruct (prefixLen_le key k) as [_ Hle]. assert (prefixLen key k = length k) as Heq by lia. rewrite Heq.
  destruct (prefixLen_full _ _ Heq) as [r ->]. rewrite drop_app_length, length_app.
  destruct Hok as [[Hk' (v & -> & [Hv Ho])]|(Hp & Hne & Hout & cs & Hb & Hok)].
  - apply termKey_prefix in Hk; [|done]. subst r. simpl. rewrite Nat.add_0_r, Nat.eqb_refl, app_nil_r.
    exists true, nilNode. split_and!; try done; [|by left|by intros; eapply Hnb].
    exists O. unfold slotOk. rewrite decide_False by done. left. split; [done|].
    intros j. unfold put. destruct (decide (j = k)); [done|]. by rewrite Ho, decide_False.
  - pose proof (termKey_app k r Hp Hk) as Hr. pose proof (termKey_not_nil r Hr) as Hrn.
    rewrite (proj2 (Nat.eqb_neq _ _)) by (destruct r; [done|simpl; lia]).
    destruct (IH 0 d c (below m k) (pre ++ take (length k) (k ++ r)) r) as (dirty & ch & Hi & _ & Hsame & Hdirty & Hbr).
    { unfold slotOk. rewrite decide_False by done. by apply (child_of_branch d c cs). }
    { unfold restOk. by rewrite decide_False. }
    { rewrite length_app in Hf. destruct k; [done|]. simpl in Hf. pose proof (cost_le c). lia. }
    rewrite Hi. cbn [obind]. destruct dirty; simpl negb; cbn iota.
    + destruct (Hdirty eq_refl) as [->|[d' Hch]]; [done|by destruct (Hbr cs Hb)|].
      assert (forall j, ~ k `prefix_of` j -> put m (k ++ r) None j = None) as Hout'.
      { intros j Hj. unfold put. destruct (decide (j = k ++ r)); [done|by apply Hout]. }
      assert (okNode d' ch (below (put m (k ++ r) None) k)) as Hch'
        by (eapply okNode_ext; [|exact Hch]; intros j; symmetry; apply below_put).
      apply okNode_shape in Hch as [(k' & c' & fl0 & ->)|(cs' & fl0 & ->)].
      * eapply (deleted_node x d'); [done| |reflexivity]. by apply (short_prepend (fl:=fl0)).
      * eapply (deleted_node x (S d')); [done| |reflexivity]. right. split_and!; try done. exists cs'. split; [left; by eexists|exact (okNode_flag _ _ _ _ _ Hch')].
    + apply (deleted_same x (S d) _ (shortNode k c fl)); [|done|by apply Hsame|by intros; eapply Hnb].
      apply okNode_slot; [done|]. right. split_and!; try done. by exists cs.
Qed.

Lemma delete_ok f : deletesAt f.
Proof.
  induction f as [|f IH]; intros x d n m pre key Hs Hk Hf; [pose proof (cost_le n); lia|].
  unfold restOk in Hk. destruct (decide (x = 16)) as [->|Hx].
  { subst key. pose proof Hs as Hs0. unfold slotOk in Hs. rewrite decide_True in Hs by done.
    assert (forall cs n', isBranch n cs -> n' <> nilNode) as Hnb.
    { intros cs n' [(? & ->)|(h & ? & -> & _)]; by destruct Hs as [[? _]|(v & ? & _)]. }
    destruct Hs as [[-> Hn]|(v & -> & [Hv Ho])]; cbn [delete].
    - apply (deleted_same 16 d _ nilNode); [done|done|apply Hn|by intros; eapply Hnb].
    - exists true, nilNode. split_and!; try done; [|by intros; eapply Hnb]. exists O. unfold slotOk. rewrite decide_True by done.
      left. split; [done|]. intros j. unfold put. destruct (decide (j = [])); [done|]. by rewrite Ho, decide_False. }
  pose proof Hs as Hs0. apply slot_nibble in Hs; [|done].
  destruct Hs as [[-> Hm]|[Hok|(h & n0 & -> & Hr & Hok)]].
  - apply (deleted_same x d _ nilNode); [done|done|apply Hm|by intros cs [(? & ?)|(h & ? & ? & _)]].
  - destruct d as [|d]; [done|]. destruct n as [| |k c fl|cs fl|]; try done.
    + apply (delete_at_short f x d); try done. simpl in *. lia.
    + destruct key as [|z key]; [by apply termKey_not_nil in Hk|]. apply (delete_at_full f x d); try done. simpl in *. lia.
  - cbn [delete]. unfold resolveHash. rewrite Hr. cbn [obind].
    destruct (IH x d n0 m pre key) as (dirty & nn & Hi & Hs' & Hsame & Hdirty & Hbr); [by apply okNode_slot|unfold restOk; by rewrite decide_False| |].
    { rewrite (okNode_cost _ _ _ Hok). simpl in *. lia. }
    rewrite Hi. cbn [obind]. destruct dirty.
    + exists true, nn. split_and!; try done. intros cs [(? & ?)|(h' & flb & [= <-] & Hr')]; [done|]. apply (Hbr cs). left. exists flb. congruence.
    + apply (deleted_same x d _ n0); [by apply okNode_slot|done|by apply Hsame|].
      intros cs _. by apply okNode_shape in Hok as [(k & c & fl0 & ->)|(cs' & fl0 & ->)].
Qed.

(** ** One map, one tree *)

(** The tree with every hash replaced by what it resolves to. *)
Inductive loads : node -> node -> Prop :=
| loads_nil : loads nilNode nilNode
| loads_value v : loads (valueNode v) (valueNode v)
| loads_short k c fl t : loads c t -> loads (shortNode k c fl) (shortNode k t noFlag)
| loads_full cs fl ts : Forall2 loads cs ts -> loads (fullNode cs fl) (fullNode ts noFlag)
| loads_hash h n t : readNode h = Ok (Some n) -> loads n t -> loads (hashNode h) t.

Lemma linked_inhabited (P : node -> content -> Prop) c m :
  (forall n m, P n m -> exists j v, m j = Some v) -> linked P c m -> exists j v, m j = Some v.
Proof. intros HP [Hp|(h & n & _ & _ & Hp)]; by eapply HP. Qed.

(** No node stands for nothing. *)
Lemma okNode_inhabited d n m : okNode d n m -> exists j v, m j = Some v.
Proof.
  revert n m. induction d as [|d IH]; intros n m Hok; [done|]. destruct n as [| |k c fl|cs fl|]; try done.
  - destruct Hok as [[Hk (v & -> & [Hv Ho])]|(Hp & Hne & Hout & cs & Hb & Hok)].
    + exists k, v. by rewrite Ho, decide_True.
    + destruct (IH _ _ Hok) as (j & v & Hj). by exists (k ++ j), v.
  - destruct Hok as [(_ & _ & _ & Hs) (x & _ & c & _ & Hx & _ & _ & Hc & _ & Hn & _)].
    specialize (Hs x c Hx Hc). unfold slotOk in Hs. destruct (decide (x = 16)).
    + destruct Hs as [[? _]|(v & _ & [_ Ho])]; [done|]. exists [x], v. specialize (Ho []). by rewrite decide_True in Ho.
    + destruct Hs as [[? _]|Hl]; [done|]. destruct (linked_inhabited _ _ _ IH Hl) as (j & v & Hj). by exists (x :: j), v.
Qed.

Lemma slot_inhabited d x c m : slotOk (okNode d) x c m -> c <> nilNode -> exists j v, m j = Some v.
Proof.
  unfold slotOk. intros Hs Hn. destruct (decide (x = 16)).
  - destruct Hs as [[? _]|(v & _ & [_ Ho])]; [done|]. exists [], v. by rewrite Ho.
  - destruct Hs as [[? _]|Hl]; [done|]. by eapply linked_inhabited; [apply okNode_inhabited|].
Qed.

(** Below a branch there are keys that differ in the first symbol. *)
Lemma branch_two_keys {fl} d cs m :
  okNode d (fullNode cs fl) m -> exists x y j j' v v', x <> y /\ m (x :: j) = Some v /\ m (y :: j') = Some v'.
Proof.
  destruct d as [|d]; [done|]. intros [(_ & _ & _ & Hs) (x & y & cx & cy & Hx & Hy & Hne & Hcx & Hcy & Hnx & Hny)].
  destruct (slot_inhabited d x cx _ (Hs x cx Hx Hcx) Hnx) as (j & v & Hj).
  destruct (slot_inhabited d y cy _ (Hs y cy Hy Hcy) Hny) as (j' & v' & Hj').
  by exists x, y, j, j', v, v'.
Qed.

Lemma only_not_branch {fl} d p cs k v m : only k v m -> ~ okNode d (fullNode cs fl) (below m p).
Proof.
  intros [_ Ho] Hb. destruct (branch_two_keys _ _ _ Hb) as (x & y & j & j' & u & u' & Hne & Hx & Hy).
  unfold below in *. rewrite Ho in Hx, Hy. destruct (decide (p ++ x :: j = k)) as [E|]; [|done].
  destruct (decide (p ++ y :: j' = k)) as [E'|]; [|done]. rewrite <- E' in E. apply app_inv_head in E. congruence.
Qed.

(** The key of a short node above a branch is the longest common prefix. *)
Lemma common_prefix {fl} d k k' cs m :
  okNode d (fullNode cs fl) (below m k) -> (forall j, ~ k' `prefix_of` j -> m j = None) -> k' `prefix_of` k.
Proof.
  intros Hb Hout. destruct (branch_two_keys _ _ _ Hb) as (x & y & j & j' & v & v' & Hne & Hx & Hy). unfold below in *.
  destruct (decide (k' `prefix_of` (k ++ x :: j))) as [Hpx|Hpx]; [|by rewrite Hout in Hx].
  destruct (decide (k' `prefix_of` (k ++ y :: j'))) as [Hpy|Hpy]; [|by rewrite Hout in Hy].
  destruct (prefix_weak_total k k' (k ++ x :: j)) as [[r ->]|?]; [by apply prefix_app_r|done| |done].
  destruct r as [|z r]; [by rewrite app_nil_r|]. exfalso.
  apply prefix_app_inv in Hpx, Hpy. apply prefix_cons_inv_1 in Hpx, Hpy. congruence.
Qed.

Lemma Forall2_common (R : node -> node -> Prop) (cs cs' : list node) :
  length cs = length cs' ->
  (forall i c c', cs !! i = Some c -> cs' !! i = Some c' -> exists t, R c t /\ R c' t) ->
  exists ts, Forall2 R cs ts /\ Forall2 R cs' ts.
Proof.
  revert cs'. induction cs as [|c cs IH]; intros [|c' cs'] Hl Hall; simpl in Hl; try done.
  - exists []. by split.
  - destruct (Hall O c c' eq_refl eq_refl) as (t & Ht & Ht').
    destruct (IH cs') as (ts & Hts & Hts'); [lia|intros i; apply (Hall (S i))|].
    exists (t :: ts). by split; constructor.
Qed.

Definition sameTree n n' : Prop := exists t, loads n t /\ loads n' t.

Lemma sameTree_linked (P Q : node -> content -> Prop) c c' m :
  (forall n n', P n m -> Q n' m -> sameTree n n') -> linked P c m -> linked Q c' m -> sameTree c c'.
Proof.
  intros HPQ [Hp|(h & n & -> & Hr & Hp)] [Hq|(h' & n' & -> & Hr' & Hq)]; destruct (HPQ _ _ Hp Hq) as (t & Ht & Ht');
    exists t; split; try done; by eapply loads_hash.
Qed.

Lemma loads_flag cs fl fl' t : loads (fullNode cs fl) t -> loads (fullNode cs fl') t.
Proof. inversion 1; subst. by constructor. Qed.

Lemma loads_branch cs c t : isBranch c cs -> loads (fullNode cs noFlag) t -> loads c t.
Proof. intros [(fl & ->)|(h & fl & -> & Hr)] Ht; apply (loads_flag _ _ fl) in Ht; [done|]. by eapply loads_hash. Qed.

Lemma sameTree_branch cs cs' c c' :
  isBranch c cs -> isBranch c' cs' -> sameTree (fullNode cs noFlag) (fullNode cs' noFlag) -> sameTree c c'.
Proof. intros Hb Hb' (t & Ht & Ht'). exists t. split; by eapply loads_branch. Qed.

Lemma okNode_unique d d' n n' m : okNode d n m -> okNode d' n' m -> sameTree n n'.
Proof.
  revert d' n n' m. induction d as [|d IH]; intros d' n n' m Hn Hn'; [done|]. destruct d' as [|d']; [done|].
  destruct n as [| |k c fl|cs fl|], n' as [| |k' c' fl'|cs' fl'|]; try done.
  - destruct Hn as [[Hk (v & -> & Ho)]|(Hp & Hne & Hout & cs & Hb & Hok)];
      destruct Hn' as [[Hk' (v' & -> & Ho')]|(Hp' & Hne' & Hout' & cs' & Hb' & Hok')].
    + destruct Ho as [_ Ho], Ho' as [_ Ho']. pose proof (Ho' k) as E. rewrite Ho, decide_True in E by done.
      destruct (decide (k = k')) as [<-|]; [|done]. injection E as <-. eexists. split; apply loads_short, loads_value.
    + by destruct (only_not_branch _ _ _ _ _ _ Ho Hok').
    + by destruct (only_not_branch _ _ _ _ _ _ Ho' Hok).
    + assert (k = k') as <- by (apply (anti_symm prefix); eapply common_prefix; eauto).
      destruct (sameTree_branch cs cs' c c' Hb Hb' (IH _ _ _ _ Hok Hok')) as (t & Ht & Ht').
      exists (shortNode k t noFlag). by split; apply loads_short.
  - exfalso. destruct Hn as [[Hk (v & -> & Ho)]|(Hp & Hne & Hout & cs & Hb & Hok)].
    + by destruct (only_not_branch (fl:=fl') (S d') [] cs' _ _ _ Ho).
    + apply (common_prefix (fl:=fl') (S d') [] k cs' m) in Hout; [|done]. by apply prefix_nil_inv in Hout.
  - exfalso. destruct Hn' as [[Hk (v & -> & Ho)]|(Hp & Hne & Hout & cs' & Hb & Hok)].
    + by destruct (only_not_branch (fl:=fl) (S d) [] cs _ _ _ Ho).
    + apply (common_prefix (fl:=fl) (S d) [] k' cs m) in Hout; [|done]. by apply prefix_nil_inv in Hout.
  - destruct Hn as [(Hl & _ & _ & Hs) _], Hn' as [(Hl' & _ & _ & Hs') _].
    destruct (Forall2_common loads cs cs') as (ts & Hts & Hts'); [congruence| |by exists (fullNode ts noFlag); split; apply loads_full].
    intros i c c' Hc Hc'. pose proof (lookup_lt_Some _ _ _ Hc) as Hlt. rewrite Hl in Hlt.
    assert (index (Z.of_nat i)) as Hx by (unfold index; lia).
    specialize (Hs (Z.of_nat i) c Hx ltac:(by rewrite Nat2Z.id)). specialize (Hs' (Z.of_nat i) c' Hx ltac:(by rewrite Nat2Z.id)).
    destruct (decide (c = nilNode)) as [->|Hnn], (decide (c' = nilNode)) as [->|Hnn'].
    + exists nilNode. split; constructor.
    + destruct (slot_inhabited _ _ _ _ Hs' Hnn') as (j & v & Hj). by rewrite (slot_nil _ _ _ Hs) in Hj.
    + destruct (slot_inhabited _ _ _ _ Hs Hnn) as (j & v & Hj). by rewrite (slot_nil _ _ _ Hs') in Hj.
    + unfold slotOk in Hs, Hs'. destruct (decide (Z.of_nat i = 16)).
      * destruct Hs as [[? _]|(v & -> & [_ Ho])]; [done|]. destruct Hs' as [[? _]|(v' & -> & [_ Ho'])]; [done|].
        specialize (Ho []). specialize (Ho' []). rewrite decide_True in Ho, Ho' by done. rewrite Ho in Ho'. injection Ho' as <-.
        eexists. split; apply loads_value.
      * destruct Hs as [[? _]|Hs]; [done|]. destruct Hs' as [[? _]|Hs']; [done|].
        apply (sameTree_linked _ _ c c' _ (fun n n' Hn Hn' => IH d' n n' _ Hn Hn') Hs Hs').
Qed.

End trie.

(** ** The trie as a finite map *)

Section finite_map.
Context `{TrieEnv}.

Definition keyOf (j : hex) : option bytes :=
  let k := decodeNibbles (take (length j - 1) j) in
  if decide (keybytesToHex k = j) then Some k else None.

Lemma keyOf_keybytes k : keyOf (keybytesToHex k) = Some k.
Proof.
  unfold keyOf. rewrite (keybytesToHex_nibbles k), take_snoc, decodeNibbles_nibbles. by rewrite decide_True.
Qed.

Lemma keyOf_Some j k : keyOf j = Some k -> j = keybytesToHex k.
Proof. unfold keyOf. case_decide; [|done]. congruence. Qed.

Definition contentOf (g : gmap bytes bytes) : content := fun j => k ← keyOf j; g !! k.

Lemma contentOf_keybytes g k : contentOf g (keybytesToHex k) = g !! k.
Proof. unfold contentOf. by rewrite keyOf_keybytes. Qed.

(** Writing an entry, or taking it out, is the same on both sides. *)
Lemma contentOf_put g g' k v :
  g' !! k = v -> (forall k', k' <> k -> g' !! k' = g !! k') ->
  forall j, put (contentOf g) (keybytesToHex k) v j = contentOf g' j.
Proof.
  intros Hk Hne j. unfold put. destruct (decide (j = keybytesToHex k)) as [->|Hj]; [by rewrite contentOf_keybytes|].
  unfold contentOf. destruct (keyOf j) as [k'|] eqn:E; [|done]. simpl. symmetry. apply Hne.
  intros ->. by apply keyOf_Some in E.
Qed.

(** The trie under [root] holds the map [g]. *)
Definition holds (root : node) (g : gmap bytes bytes) : Prop :=
  exists d, childOk (okNode d) root (contentOf g).

Lemma holds_slot root g : holds root g <-> exists d, slotOk (okNode d) 0 root (contentOf g).
Proof. split; intros [d Hd]; exists d; exact Hd. Qed.

Lemma holds_nil : holds nilNode ∅.
Proof. exists O. left. split; [done|]. intros j. unfold contentOf. destruct (keyOf j); [apply lookup_empty|done]. Qed.

Lemma restOk_root k : restOk 0 (keybytesToHex k).
Proof. unfold restOk. rewrite decide_False by done. apply termKey_keybytes. Qed.

Lemma fuel_enough n k : (2 * length k + cost n <= fuelFor k)%nat.
Proof. unfold fuelFor. pose proof (cost_le n). lia. Qed.

Lemma TryGet_ok root g k : holds root g -> exists root', TryGet root k = Ok (g !! k, root') /\ holds root' g.
Proof.
  intros Hh. apply holds_slot in Hh as [d Hs]. unfold TryGet.
  destruct (get_ok _ 0 d root (contentOf g) [] (keybytesToHex k) Hs (restOk_root k) (fuel_enough _ _))
    as (n' & did & -> & Hs' & _). cbn [obind]. rewrite contentOf_keybytes.
  eexists. split; [reflexivity|]. apply holds_slot. destruct did; [done|by exists d].
Qed.

Lemma TryDelete_ok root g k : holds root g -> exists root', TryDelete root k = Ok root' /\ holds root' (base.delete k g).
Proof.
  intros Hh. apply holds_slot in Hh as [d Hs]. unfold TryDelete.
  destruct (delete_ok _ 0 d root (contentOf g) [] (keybytesToHex k) Hs (restOk_root k) (fuel_enough _ _))
    as (dirty & n' & -> & (d' & Hs') & _). cbn [obind].
  eexists. split; [reflexivity|]. apply holds_slot. exists d'. eapply slotOk_mono; [| |exact Hs']; [done|].
  apply contentOf_put; [apply lookup_delete_eq|]. intros k' Hk. by apply lookup_delete_ne.
Qed.

Lemma TryUpdate_ok root g k v :
  holds root g ->
  exists root', TryUpdate root k v = Ok root' /\ holds root' (match v with [] => base.delete k g | _ => <[k := v]> g end).
Proof.
  intros Hh. unfold TryUpdate. destruct v as [|b v]; [by apply TryDelete_ok|]. apply holds_slot in Hh as [d Hs].
  destruct (insert_ok _ 0 d root (contentOf g) [] (keybytesToHex k) (b :: v) Hs (restOk_root k) ltac:(done) (fuel_enough _ _))
    as (dirty & n' & -> & (d' & Hs') & _). cbn [obind].
  eexists. split; [reflexivity|]. apply holds_slot. exists d'. eapply slotOk_mono; [| |exact Hs']; [done|].
  apply contentOf_put; [apply lookup_insert_eq|]. intros k' Hk. by apply lookup_insert_ne.
Qed.

End finite_map.
