(* ===== verification/TrieNode.v ===== *)
(** * TrieNode: trie nodes as bytes

    The codec of [src/storage/trie/node.go] ([decodeNode] and its parts), the
    collapsed nodes of [database.go] ([rawShortNode], [rawFullNode]) with
    [expandNode] and [gatherChildren], and the items [src/storage/rlp] writes for
    them.  In a collapsed node the keys are in compact form and a child is a hash or,
    when its encoding is shorter than one, the collapsed child itself.

    Embedded nodes make the decoder recursive; every round of it takes the header
    of a list off the buffer, whose length is the fuel. *)
From S2P Require Import Prelude Bytes TrieEncoding Rlp Trie.
Local Open Scope Z_scope.
Local Open Scope zv_scope.

Inductive rawNode :=
| rawNil
| rawValue (v : bytes)
| rawHash (h : Hash)
| rawShortNode (Key : bytes) (Val : rawNode)
| rawFullNode (Children : list rawNode).

(** ** What is written *)

(** [EncodeRLP] of the full nodes writes [nilValueNode] for an unset child. *)
Fixpoint itemOf (n : rawNode) : item :=
  match n with
  | rawNil => Str []
  | rawValue v => Str v
  | rawHash h => Str (b32_bytes h)
  | rawShortNode k v => Lst [Str k; itemOf v]
  | rawFullNode cs => Lst (map itemOf cs)
  end.

(** [rlp.Encode] of a node, and [cachedNode.rlp] *)
Definition blobOf (n : rawNode) : bytes := EncodeToBytes (itemOf n).

(** The node with its keys as they are and without the flags. *)
Fixpoint simplifyNode (n : node) : rawNode :=
  match n with
  | nilNode => rawNil
  | valueNode v => rawValue v
  | hashNode h => rawHash h
  | shortNode k v _ => rawShortNode (map byte_of_Z k) (simplifyNode v)
  | fullNode cs _ => rawFullNode (map simplifyNode cs)
  end.

(** ** Expansion *)

Section codec.
Variable cachegen : Z.

Definition loadedFlag (hash : option Hash) : nodeFlag := mkFlag hash cachegen false.

Fixpoint expandNode (hash : option Hash) (n : rawNode) : outcome trieError node :=
  match n with
  | rawShortNode k v =>
      key <-! compactToHex k ;;
      val <-! expandNode None v ;;
      Ok (shortNode key val (loadedFlag hash))
  | rawFullNode cs =>
      children <-! (fix go (cs : list rawNode) : outcome trieError (list node) :=
                      match cs with
                      | [] => Ok []
                      | c :: cs' =>
                          n' <-! match c with rawNil => Ok nilNode | _ => expandNode None c end ;;
                          ns <-! go cs' ;;
                          Ok (n' :: ns)
                      end) cs ;;
      Ok (fullNode children (loadedFlag hash))
  | rawValue v => Ok (valueNode v)
  | rawHash h => Ok (hashNode h)
  | rawNil => Panic "unknown node type"
  end.

(** ** Decoding *)

Inductive decodeError :=
| UnexpectedEOF
| RlpError (e : rlpError)
| InvalidElements (c : Z)
| OversizedEmbedded (size : Z)
| InvalidStringSize (size : Z)
| DecodeFuel.

Definition rlpErr {A} (r : outcome rlpError A) : outcome decodeError A :=
  match r with
  | Ok a => Ok a
  | Err e => Err (RlpError e)
  | Panic p => Panic p
  end.

Definition hashLen : Z := 32.

Definition decodeRef (decodeNode : option Hash -> bytes -> outcome decodeError node) (buf : bytes) :
    outcome decodeError (node * bytes) :=
  r <-! rlpErr (Split buf) ;;
  let '(kind, val, rest) := r in
  match kind with
  | List_ =>
      let size := len buf - len rest in
      if hashLen <? size then Err (OversizedEmbedded size)
      else n <-! decodeNode None buf ;; Ok (n, rest)
  | String_ =>
      if len val =? 0 then Ok (nilNode, rest)
      else if len val =? 32 then Ok (hashNode (BytesToHash val), rest)
      else Err (InvalidStringSize (len val))
  | Byte_ => Err (InvalidStringSize (len val))
  end.

Definition decodeShort (decodeNode : option Hash -> bytes -> outcome decodeError node) (hash : option Hash)
    (elems : bytes) : outcome decodeError node :=
  r <-! rlpErr (SplitString elems) ;;
  let '(kbuf, rest) := r in
  key <-! compactToHex kbuf ;;
  if hasTerm key then
    v <-! rlpErr (SplitString rest) ;;
    Ok (shortNode key (valueNode v.1) (loadedFlag hash))
  else
    r <-! decodeRef decodeNode rest ;;
    Ok (shortNode key r.1 (loadedFlag hash)).

(** The first [n] children and what follows them. *)
Fixpoint decodeRefs (decodeNode : option Hash -> bytes -> outcome decodeError node) (n : nat) (elems : bytes) :
    outcome decodeError (list node * bytes) :=
  match n with
  | O => Ok ([], elems)
  | S n' =>
      r <-! decodeRef decodeNode elems ;;
      rs <-! decodeRefs decodeNode n' r.2 ;;
      Ok (r.1 :: rs.1, rs.2)
  end.

Definition decodeFull (decodeNode : option Hash -> bytes -> outcome decodeError node) (hash : option Hash)
    (elems : bytes) : outcome decodeError node :=
  r <-! decodeRefs decodeNode 16 elems ;;
  let '(children, elems) := r in
  v <-! rlpErr (SplitString elems) ;;
  let value := if 0 <? len v.1 then valueNode v.1 else nilNode in
  Ok (fullNode (children ++ [value]) (loadedFlag hash)).

(** An error of [CountValues] is dropped; it comes with a count of zero. *)
Fixpoint decodeFrom (fuel : nat) (hash : option Hash) (buf : bytes) : outcome decodeError node :=
  match fuel, buf with
  | _, [] => Err UnexpectedEOF
  | O, _ => Err DecodeFuel
  | S fuel', _ =>
      r <-! rlpErr (SplitList buf) ;;
      let elems := r.1 in
      let c := match CountValues elems with Ok c => c | _ => 0 end in
      if c =? 2 then decodeShort (decodeFrom fuel') hash elems
      else if c =? 17 then decodeFull (decodeFrom fuel') hash elems
      else Err (InvalidElements c)
  end.
Definition decodeNode (hash : option Hash) (buf : bytes) : outcome decodeError node :=
  decodeFrom (length buf) hash buf.

Definition mustDecodeNode (hash : option Hash) (buf : bytes) : outcome trieError node :=
  match decodeNode hash buf with
  | Ok n => Ok n
  | Err _ => Panic "node"
  | Panic p => Panic p
  end.

End codec.

(** The hashes a collapsed node refers to. *)
Fixpoint gatherChildren (n : rawNode) : list Hash :=
  match n with
  | rawShortNode _ v => gatherChildren v
  | rawFullNode cs => concat (take 16 (map gatherChildren cs))
  | rawHash h => [h]
  | rawValue _ | rawNil => []
  end.

(** ** A node reads back as it was collapsed

    For the collapsed nodes the hasher makes ([rawOk]), decoding the bytes written
    for a node gives what [expandNode] makes of the node itself: the database may
    answer from its cache or from the disk. *)
(** A collapsed node, and a reference to one: a hash, or the node if it is short. *)
Inductive rawOk : rawNode -> Prop :=
| rawOk_leaf key v : termKey key -> rawOk (rawShortNode (hexToCompact key) (rawValue v))
| rawOk_extension key c : path key -> c <> rawNil -> refOk c -> rawOk (rawShortNode (hexToCompact key) c)
| rawOk_full refs c : length refs = 16%nat -> Forall refOk refs -> lastOk c -> rawOk (rawFullNode (refs ++ [c]))
with refOk : rawNode -> Prop :=
| refOk_nil : refOk rawNil
| refOk_hash h : refOk (rawHash h)
| refOk_embedded n : rawOk n -> len (encode (itemOf n)) < 32 -> refOk n
with lastOk : rawNode -> Prop :=
| lastOk_nil : lastOk rawNil
| lastOk_value v : v <> [] -> lastOk (rawValue v).

Section codec.
Variable gen : Z.

Definition expandChild (c : rawNode) : outcome trieError node :=
  match c with rawNil => Ok nilNode | _ => expandNode gen None c end.
Fixpoint expandChildren (cs : list rawNode) : outcome trieError (list node) :=
  match cs with
  | [] => Ok []
  | c :: cs' => n <-! expandChild c ;; ns <-! expandChildren cs' ;; Ok (n :: ns)
  end.

Lemma expandNode_full hash cs :
  expandNode gen hash (rawFullNode cs) = (ns <-! expandChildren cs ;; Ok (fullNode ns (loadedFlag gen hash))).
Proof. done. Qed.

Lemma expandChildren_app cs cs' :
  expandChildren (cs ++ cs') = (ns <-! expandChildren cs ;; ns' <-! expandChildren cs' ;; Ok (ns ++ ns')).
Proof.
  induction cs as [|c cs IH]; simpl.
  - by destruct (expandChildren cs').
  - destruct (expandChild c) as [n| |]; [|done..]. cbn [obind]. rewrite IH.
    destruct (expandChildren cs); [|done..]. cbn [obind]. by destruct (expandChildren cs').
Qed.

Definition decodes (fuel : nat) : Prop :=
  forall n hash rest, rawOk n -> (length (encode (itemOf n)) <= fuel)%nat -> small (encode (itemOf n) ++ rest) ->
  exists n', expandNode gen hash n = Ok n' /\ decodeFrom gen fuel hash (encode (itemOf n) ++ rest) = Ok n'.

Lemma rawOk_list n : rawOk n -> exists l, itemOf n = Lst l.
Proof. destruct 1; by eexists. Qed.

Lemma decodeRef_ok fuel c rest :
  decodes fuel -> refOk c -> (length (encode (itemOf c)) <= fuel)%nat -> small (encode (itemOf c) ++ rest) ->
  exists n', expandChild c = Ok n' /\ decodeRef (decodeFrom gen fuel) (encode (itemOf c) ++ rest) = Ok (n', rest).
Proof.
  intros Hd Hc Hf Hs. unfold decodeRef. rewrite Split_encode by done. destruct Hc as [|h|n Hn Hlen]; cbn [rlpErr obind].
  - by exists nilNode.
  - exists (hashNode h). split; [done|]. simpl kindOf. simpl payloadOf. pose proof (b32_length h) as Hl.
    destruct (b32_bytes h) as [|x [|y t]] eqn:E; [done..|]. unfold len. rewrite Hl, <- E. simpl.
    unfold BytesToHash. change BytesToB32 with BytesToAddress. by rewrite BytesToAddress_bytes.
  - destruct (rawOk_list n Hn) as [l El]. assert (kindOf (itemOf n) = List_) as -> by (by rewrite El). cbv zeta iota.
    rewrite len_app, Z.add_simpl_r. unfold hashLen. rewrite (proj2 (Z.ltb_ge _ _)) by lia.
    destruct (Hd n None rest Hn Hf Hs) as (n' & He & ->). exists n'. split; [|done]. by destruct Hn.
Qed.

Lemma decodeRefs_ok fuel cs rest :
  decodes fuel -> Forall refOk cs -> (length (encodeAll (map itemOf cs)) <= fuel)%nat ->
  small (encodeAll (map itemOf cs) ++ rest) ->
  exists ns, expandChildren cs = Ok ns /\
    decodeRefs (decodeFrom gen fuel) (length cs) (encodeAll (map itemOf cs) ++ rest) = Ok (ns, rest).
Proof.
  intros Hd Hcs. induction Hcs as [|c cs Hc _ IH]; intros Hf Hs; [by exists []|].
  simpl map in *. rewrite encodeAll_cons, <- app_assoc in *. rewrite length_app in Hf.
  destruct (decodeRef_ok fuel c _ Hd Hc ltac:(lia) Hs) as (n & He & Hn).
  apply small_app in Hs as [_ Hs]. destruct IH as (ns & Hes & Hns); [lia|done|].
  exists (n :: ns). simpl. rewrite He, Hn. cbn [obind fst snd]. by rewrite Hes, Hns.
Qed.

Lemma encode_Lst_length l : (length (encodeAll l) < length (encode (Lst l)))%nat.
Proof.
  rewrite encode_Lst, length_app. unfold puthead. destruct (_ <? _); simpl; lia.
Qed.

Lemma decode_ok fuel : decodes fuel.
Proof.
  induction fuel as [|fuel IH]; intros n hash rest Hn Hf Hs; [pose proof (encode_nonempty (itemOf n)); lia|].
  assert (decodeFrom gen (S fuel) hash (encode (itemOf n) ++ rest) =
          (r <-! rlpErr (SplitList (encode (itemOf n) ++ rest)) ;;
           let c := match CountValues r.1 with Ok c => c | _ => 0 end in
           if c =? 2 then decodeShort gen (decodeFrom gen fuel) hash r.1
           else if c =? 17 then decodeFull gen (decodeFrom gen fuel) hash r.1
           else Err (InvalidElements c))) as ->.
  { pose proof (encode_nonempty (itemOf n)) as Hne. destruct (encode (itemOf n)); [simpl in Hne; lia|done]. }
  destruct (rawOk_list n Hn) as [l El]. rewrite El in *. rewrite SplitList_encode by done. cbn [rlpErr obind fst].
  apply small_app in Hs as [Hs _]. apply small_Lst in Hs. rewrite CountValues_encode by done. cbv zeta.
  pose proof (encode_Lst_length l) as Hlt. assert (length (encodeAll l) <= fuel)%nat as Hf' by lia. clear Hlt Hf.
  destruct Hn as [key v Hk|key c Hk Hnil Hc|refs c Hlen Hrefs Hc]; simpl in El; injection El as <-.
  - cbn [length Z.of_nat]. change (Z.of_nat 2 =? 2) with true. cbv iota. unfold decodeShort.
    rewrite encodeAll_cons in *. rewrite SplitString_encode by done. cbn [rlpErr obind expandNode].
    rewrite !compact_roundtrip by (by right). cbn [obind]. destruct Hk as (p & Hp & ->). rewrite hasTerm_snoc.
    apply small_app in Hs as [_ Hs]. rewrite encodeAll_cons in *. rewrite SplitString_encode by done. cbn [rlpErr obind fst].
    by eexists.
  - change (Z.of_nat (length [Str (hexToCompact key); itemOf c]) =? 2) with true. cbv iota. unfold decodeShort.
    rewrite encodeAll_cons in *. rewrite SplitString_encode by done. cbn [rlpErr obind expandNode].
    rewrite !compact_roundtrip by (by left). cbn [obind]. rewrite hasTerm_path by done.
    apply small_app in Hs as [_ Hs]. rewrite length_app, encodeAll_cons in *. rewrite length_app in Hf'.
    destruct (decodeRef_ok fuel c (encodeAll []) IH Hc ltac:(lia) Hs) as (n' & He & ->). cbn [obind fst].
    exists (shortNode key n' (loadedFlag gen hash)). split; [|done].
    unfold expandChild in He. destruct c; [done|..]; by rewrite He.
  - assert (Z.of_nat (length (map itemOf (refs ++ [c]))) = 17) as -> by (rewrite length_map, length_app, Hlen; done).
    change (17 =? 2) with false. change (17 =? 17) with true. cbv iota. unfold decodeFull.
    assert (encodeAll (map itemOf (refs ++ [c])) = encodeAll (map itemOf refs) ++ encode (itemOf c) ++ []) as E.
    { unfold encodeAll. rewrite !map_app, concat_app. simpl. by rewrite app_nil_r. }
    rewrite E in *. rewrite length_app in Hf'. destruct (decodeRefs_ok fuel refs _ IH Hrefs ltac:(lia) Hs) as (ns & He & Hns).
    rewrite Hlen in Hns. rewrite Hns. cbn [obind]. rewrite expandNode_full, expandChildren_app, He. cbn [obind].
    apply small_app in Hs as [_ Hs]. destruct Hc as [|v Hv]; simpl itemOf in *.
    + rewrite SplitString_encode by done. by eexists.
    + rewrite SplitString_encode by done. cbn [rlpErr obind fst]. rewrite (proj2 (Z.ltb_lt _ _)); [by eexists|].
      unfold len. destruct v; [done|simpl; lia].
Qed.

(** What is decoded is what is expanded. *)
Lemma mustDecode_blob n hash :
  rawOk n -> small (encode (itemOf n)) ->
  exists n', expandNode gen hash n = Ok n' /\ mustDecodeNode gen hash (blobOf n) = Ok n'.
Proof.
  intros Hn Hs. unfold mustDecodeNode, decodeNode, blobOf. rewrite EncodeToBytes_encode by done.
  destruct (decode_ok (length (encode (itemOf n))) n hash [] Hn) as (n' & He & Hd); [done|by rewrite app_nil_r|].
  rewrite app_nil_r in Hd. rewrite Hd. by exists n'.
Qed.

End codec.
