(* ===== verification/TrieDatabase.v ===== *)
(** * TrieDatabase: the node database

    The write layer of [src/storage/trie/database.go] between the tries and the
    disk: collapsed nodes and code blobs by hash, with the reference counts that
    tell when a node can go and the list that tells which nodes to flush first.

    [diskdb] is a key-value store whose reads and writes succeed.  Of the fields of
    the source those that only count for the log are left out, and so are the clean
    cache, which answers with bytes that are on the disk, and the preimages, which
    nothing writes.  Sizes are kept as integers (the source's [StorageSize] is a
    float).  The counters of a node are 16 bits wide. *)
From S2P Require Import Prelude Bytes TrieEncoding Trie Rlp TrieNode.
Local Open Scope Z_scope.
Local Open Scope zv_scope.

Definition wrap16 (z : Z) : Z := z mod 2 ^ 16.

(** A trie node or raw bytes. *)
Inductive cachedObject :=
| Collapsed (n : rawNode)
| Blob (b : bytes).

Record cachedNode := mkCached {
  cn_node : cachedObject;
  cn_size : Z;
  cn_parents : Z;
  cn_children : option (gmap Hash Z);
  cn_flushPrev : Hash;
  cn_flushNext : Hash;
}.

Record NodeDatabase := mkDatabase {
  diskdb : gmap Hash bytes;
  nodes : gmap Hash cachedNode;
  oldest : Hash;
  newest : Hash;
  childrenSize : Z;
  nodesSize : Z;
  enablePrune : bool;
  commitFullNodes : list (Hash * bytes);
}.

(** The entry under the zero hash is the root of what is referenced. *)
Definition NewDatabase (disk : gmap Hash bytes) (pruneEnable : bool) : NodeDatabase :=
  mkDatabase disk {[ zeroB32 := mkCached (Collapsed rawNil) 0 0 None zeroB32 zeroB32 ]}
    zeroB32 zeroB32 0 0 pruneEnable [].

Definition setNodes (f : gmap Hash cachedNode -> gmap Hash cachedNode) (db : NodeDatabase) : NodeDatabase :=
  mkDatabase (diskdb db) (f (nodes db)) (oldest db) (newest db) (childrenSize db) (nodesSize db)
    (enablePrune db) (commitFullNodes db).

Definition setFlushNext (h : Hash) (n : cachedNode) : cachedNode :=
  mkCached (cn_node n) (cn_size n) (cn_parents n) (cn_children n) (cn_flushPrev n) h.
Definition setParents (p : Z) (n : cachedNode) : cachedNode :=
  mkCached (cn_node n) (cn_size n) p (cn_children n) (cn_flushPrev n) (cn_flushNext n).
Definition setChildren (c : option (gmap Hash Z)) (n : cachedNode) : cachedNode :=
  mkCached (cn_node n) (cn_size n) (cn_parents n) c (cn_flushPrev n) (cn_flushNext n).

(** ** Reading *)

Definition rlp_ (n : cachedNode) : bytes :=
  match cn_node n with Blob b => b | Collapsed c => blobOf c end.

Definition obj (gen : Z) (hash : Hash) (o : cachedObject) : outcome trieError node :=
  match o with
  | Blob b => mustDecodeNode gen (Some hash) b
  | Collapsed c => expandNode gen (Some hash) c
  end.

Definition childs (n : cachedNode) : list Hash :=
  (match cn_children n with Some cs => (map_to_list cs).*1 | None => [] end) ++
  (match cn_node n with Collapsed c => gatherChildren c | Blob _ => [] end).

(** [db.node] *)
Definition node_ (db : NodeDatabase) (gen : Z) (hash : Hash) : outcome trieError (option node) :=
  match nodes db !! hash with
  | Some n => r <-! obj gen hash (cn_node n) ;; Ok (Some r)
  | None =>
      match diskdb db !! hash with
      | Some enc => r <-! mustDecodeNode gen (Some hash) enc ;; Ok (Some r)
      | None => Ok None
      end
  end.

(** [db.Node], which answers nil for a hash it does not know *)
Inductive dbError := ErrNotFound.
Definition Node (db : NodeDatabase) (hash : Hash) : outcome dbError (option bytes) :=
  if bool_decide (hash = zeroB32) then Err ErrNotFound
  else match nodes db !! hash with
       | Some n => Ok (Some (rlp_ n))
       | None => Ok (diskdb db !! hash)
       end.

(** ** Writing *)

(** [for _, child := range entry.childs() { if c := db.nodes[child]; c != nil { c.parents++ } }] *)
Definition countParents (cs : list Hash) (ns : gmap Hash cachedNode) : gmap Hash cachedNode :=
  fold_left (fun ns c => alter (fun n => setParents (wrap16 (cn_parents n + 1)) n) c ns) cs ns.

Definition db_insert (hash : Hash) (blob : bytes) (o : cachedObject) (db : NodeDatabase) : outcome trieError NodeDatabase :=
  match nodes db !! hash with
  | Some n =>
      Ok (if enablePrune db then
            mkDatabase (diskdb db) (nodes db) (oldest db) (newest db) (childrenSize db) (nodesSize db)
              (enablePrune db) (commitFullNodes db ++ [(hash, rlp_ n)])
          else db)
  | None =>
      let entry := mkCached o (wrap16 (len blob)) 0 None (newest db) zeroB32 in
      let ns := <[hash := entry]> (countParents (childs entry) (nodes db)) in
      let full := if enablePrune db then commitFullNodes db ++ [(hash, blob)] else commitFullNodes db in
      let size := nodesSize db + wrap16 (32 + cn_size entry) in
      if bool_decide (oldest db = zeroB32) then
        Ok (mkDatabase (diskdb db) ns hash hash (childrenSize db) size (enablePrune db) full)
      else
        match ns !! newest db with
        | Some last =>
            Ok (mkDatabase (diskdb db) (<[newest db := setFlushNext hash last]> ns) (oldest db) hash
                  (childrenSize db) size (enablePrune db) full)
        | None => Panic "invalid memory address or nil pointer dereference"
        end
  end.

Definition InsertBlob (hash : Hash) (blob : bytes) (db : NodeDatabase) : outcome trieError NodeDatabase :=
  db_insert hash blob (Blob blob) db.

Definition cachedNodeChildrenSize : Z := 48.

(** [Reference]; a second reference from the same parent counts for roots only. *)
Definition Reference (child parent : Hash) (db : NodeDatabase) : outcome trieError NodeDatabase :=
  match nodes db !! child with
  | None => Ok db
  | Some _ =>
      match nodes db !! parent with
      | None => Panic "invalid memory address or nil pointer dereference"
      | Some p =>
          let made := match cn_children p with None => cachedNodeChildrenSize | Some _ => 0 end in
          let cs := match cn_children p with None => ∅ | Some cs => cs end in
          if bool_decide (is_Some (cs !! child)) && negb (bool_decide (parent = zeroB32)) then Ok db
          else
            let count := wrap16 (default 0 (cs !! child) + 1) in
            let added := if count =? 1 then 32 + 2 else 0 in
            let ns := alter (fun n => setParents (wrap16 (cn_parents n + 1)) n) child (nodes db) in
            let ns := alter (setChildren (Some (<[child := count]> cs))) parent ns in
            Ok (mkDatabase (diskdb db) ns (oldest db) (newest db) (childrenSize db + made + added) (nodesSize db)
                  (enablePrune db) (commitFullNodes db))
      end
  end.
