(* ===== verification/TrieHasher.v ===== *)
(** * TrieHasher: hashing and committing a trie

    [src/storage/trie/hasher.go] and the rest of [trie.go]: the trie is walked from
    the root, every node collapsed ([hashChildren]), encoded, and replaced by its
    hash unless it is short enough to stay inside its parent ([store]); with a
    database the collapsed nodes are written to it on the way.  What has not changed
    since it was last hashed is not walked, and what is old enough is unloaded.

    The hash function is a parameter (Keccak-256 in the source).  A collapsed node
    is built in the form [simplifyNode] stores; the last child of a branch is not
    walked and goes in as it is.  [hasher] below is the record of the fields the walk
    reads; the pooled buffers of the source are not state. *)
From S2P Require Import Prelude Bytes TrieEncoding Trie Rlp TrieNode TrieDatabase.
Local Open Scope Z_scope.
Local Open Scope zv_scope.

Class NodeHash := { makeHashNode : bytes -> Hash }.

(** The account tries' callback on a leaf, run while its parent is stored: the
    database it leaves.  The error it returns is dropped by the source. *)
Definition LeafCallback : Type := bytes -> Hash -> NodeDatabase -> outcome trieError NodeDatabase.

Record hasher := mkHasher {
  h_cachegen : Z;
  h_cachelimit : Z;
  h_onleaf : option LeafCallback;
}.

Section hasher.
Context `{NodeHash}.

Definition cache (n : node) : option Hash * bool :=
  match n with
  | shortNode _ _ fl | fullNode _ fl => (nf_hash fl, nf_dirty fl)
  | _ => (None, true)
  end.

(** The generations are uint16 and their difference wraps. *)
Definition canUnload (n : node) (cachegen cachelimit : Z) : bool :=
  match n with
  | shortNode _ _ fl | fullNode _ fl => negb (nf_dirty fl) && (cachelimit <=? wrap16 (cachegen - nf_gen fl))
  | _ => false
  end.

(** The leaves a node is stored with. *)
Definition leaves (n : rawNode) : list bytes :=
  match n with
  | rawShortNode _ (rawValue v) => [v]
  | rawFullNode cs => concat (map (fun c => match c with rawValue v => [v] | _ => [] end) (take 16 cs))
  | _ => []
  end.

Fixpoint onLeaves (f : LeafCallback) (vs : list bytes) (hash : Hash) (db : NodeDatabase) : outcome trieError NodeDatabase :=
  match vs with
  | [] => Ok db
  | v :: vs' => db1 <-! f v hash db ;; onLeaves f vs' hash db1
  end.

Variable h : hasher.

(** [cached] is the hash the node carries.  Without a database ([None]) nothing is
    written. *)
Definition store (n : rawNode) (cached : option Hash) (force : bool) (db : option NodeDatabase) :
    outcome trieError (rawNode * option NodeDatabase) :=
  match n with
  | rawNil | rawHash _ => Ok (n, db)
  | _ =>
      let tmp := blobOf n in
      if (len tmp <? 32) && negb force then Ok (n, db)
      else
        let hash := match cached with Some hash => hash | None => makeHashNode tmp end in
        match db with
        | None => Ok (rawHash hash, None)
        | Some db0 =>
            db1 <-! db_insert hash tmp (Collapsed n) db0 ;;
            db2 <-! match h_onleaf h with Some f => onLeaves f (leaves n) hash db1 | None => Ok db1 end ;;
            Ok (rawHash hash, Some db2)
        end
  end.

(** The flags of a node that has just been hashed. *)
Definition hashedFlag (hashed : rawNode) (stored : bool) (fl : nodeFlag) : nodeFlag :=
  mkFlag (match hashed with rawHash hash => Some hash | _ => None end) (nf_gen fl)
    (if stored then false else nf_dirty fl).

Definition isStored (db : option NodeDatabase) : bool := match db with Some _ => true | None => false end.

(** The children of a branch, from the [i]th on. *)
Section children.
Variable hash : node -> bool -> option NodeDatabase -> outcome trieError (rawNode * node * option NodeDatabase).

Fixpoint hashChildren (i : nat) (cs : list node) (db : option NodeDatabase) :
    outcome trieError (list rawNode * list node * option NodeDatabase) :=
  match cs with
  | [] => Ok ([], [], db)
  | c :: cs' =>
      r1 <-! (if (i =? 16)%nat then Ok (simplifyNode c, c, db)
              else match c with
                   | nilNode => Ok (rawNil, nilNode, db)
                   | _ => hash c false db
                   end) ;;
      let '(rc, c', db1) := r1 in
      r2 <-! hashChildren (S i) cs' db1 ;;
      let '(rcs, cs'', db2) := r2 in
      Ok (rc :: rcs, c' :: cs'', db2)
  end.

End children.

(** The collapsed form or hash, the node to keep, and the database. *)
Fixpoint hash (n : node) (force : bool) (db : option NodeDatabase) {struct n} :
    outcome trieError (rawNode * node * option NodeDatabase) :=
  let walk :=
    match n with
    | shortNode k v fl =>
        r <-! match v with
              | valueNode b => Ok (rawValue b, v, db)
              | _ => hash v false db
              end ;;
        let '(cv, v', db1) := r in
        s <-! store (rawShortNode (hexToCompact k) cv) (nf_hash fl) force db1 ;;
        Ok (s.1, shortNode k v' (hashedFlag s.1 (isStored db) fl), s.2)
    | fullNode cs fl =>
        r <-! hashChildren hash O cs db ;;
        let '(rcs, cs', db1) := r in
        s <-! store (rawFullNode rcs) (nf_hash fl) force db1 ;;
        Ok (s.1, fullNode cs' (hashedFlag s.1 (isStored db) fl), s.2)
    | valueNode b => s <-! store (rawValue b) None force db ;; Ok (s.1, n, s.2)
    | hashNode hh => s <-! store (rawHash hh) None force db ;; Ok (s.1, n, s.2)
    | nilNode => Panic "invalid memory address or nil pointer dereference"
    end in
  match cache n with
  | (Some hh, dirty) =>
      if negb (isStored db) then Ok (rawHash hh, n, db)
      else if canUnload n (h_cachegen h) (h_cachelimit h) then Ok (rawHash hh, hashNode hh, db)
      else if negb dirty then Ok (rawHash hh, n, db)
      else walk
  | (None, _) => walk
  end.

End hasher.

(** ** The trie ([trie.go]) *)

Record Trie := mkTrie {
  t_root : node;
  t_cachegen : Z;
  t_cachelimit : Z;
}.

(** What the operations of a trie on [db] read. *)
Definition envOf (db : NodeDatabase) (gen : Z) : TrieEnv :=
  {| readNode := node_ db gen; cachegen := gen |}.

Definition setRoot (n : node) (t : Trie) : Trie := mkTrie n (t_cachegen t) (t_cachelimit t).

Section trie.
Context `{NodeHash}.

Definition NewTrie (root : Hash) (db : NodeDatabase) : outcome trieError Trie :=
  if bool_decide (root = zeroB32) || bool_decide (root = emptyRoot) then Ok (mkTrie nilNode 0 0)
  else n <-! resolveHash (H := envOf db 0) root [] ;; Ok (mkTrie n 0 0).

Definition hashRoot (t : Trie) (db : option NodeDatabase) (onleaf : option LeafCallback) :
    outcome trieError (rawNode * node * option NodeDatabase) :=
  match t_root t with
  | nilNode => Ok (rawHash emptyRoot, nilNode, db)
  | n => hash (mkHasher (t_cachegen t) (t_cachelimit t) onleaf) n true db
  end.

(** [hash.(hashNode)] *)
Definition asHash (n : rawNode) : outcome trieError Hash :=
  match n with rawHash h => Ok h | _ => Panic "interface conversion" end.

Definition Hash_ (t : Trie) : outcome trieError (Hash * Trie) :=
  r <-! hashRoot t None None ;;
  let '(hashed, cached, _) := r in
  h <-! asHash hashed ;;
  Ok (h, setRoot cached t).

Definition Commit (t : Trie) (onleaf : option LeafCallback) (db : NodeDatabase) :
    outcome trieError (Hash * Trie * NodeDatabase) :=
  r <-! hashRoot t (Some db) onleaf ;;
  let '(hashed, cached, db') := r in
  h <-! asHash hashed ;;
  Ok (h, mkTrie cached (wrap16 (t_cachegen t + 1)) (t_cachelimit t), default db db').

End trie.
