(* ===== verification/TrieCache.v ===== *)
(** * TrieCache: what a loaded trie may assume of its caches

    [collapse] is the reference for the hasher: the collapsed form of a tree that is
    loaded throughout.  A trie that is only partly loaded stands for such a tree
    ([good]) when every hash in it resolves, hereditarily, to a tree with that hash,
    and its flags may be relied on ([flagged]) when a cached hash is the hash of
    the tree below and a clean node is in the database.  Lookups, updates and
    deletions keep both. *)
From S2P Require Import Prelude Bytes TrieEncoding Trie TrieTheorems Rlp TrieNode TrieDatabase TrieHasher.
Local Open Scope Z_scope.
Local Open Scope zv_scope.

Lemma node_ind' (P : node -> Prop) :
  P nilNode -> (forall v, P (valueNode v)) -> (forall k c fl, P c -> P (shortNode k c fl)) ->
  (forall cs fl, Forall P cs -> P (fullNode cs fl)) -> (forall h, P (hashNode h)) -> forall n, P n.
Proof.
  intros Hn Hv Hs Hf Hh. fix IH 1. intros [|v|k c fl|cs fl|h]; [done|apply Hv|apply Hs, IH| |apply Hh].
  apply Hf. induction cs as [|c cs IHcs]; constructor; [apply IH|exact IHcs].
Qed.

(** A node without its flags. *)
Fixpoint erase (n : node) : node :=
  match n with
  | shortNode k c _ => shortNode k (erase c) noFlag
  | fullNode cs _ => fullNode (map erase cs) noFlag
  | _ => n
  end.

(** ** The reference *)

Section reference.
Context `{NodeHash}.

Definition shorten (c : rawNode) : rawNode :=
  match c with
  | rawShortNode _ _ | rawFullNode _ =>
      if len (blobOf c) <? 32 then c else rawHash (makeHashNode (blobOf c))
  | _ => c
  end.

Fixpoint collapse (t : node) : rawNode :=
  match t with
  | nilNode => rawNil
  | valueNode v => rawValue v
  | hashNode h => rawHash h
  | shortNode k v _ => rawShortNode (hexToCompact k) (shorten (collapse v))
  | fullNode cs _ => rawFullNode (map (fun c => shorten (collapse c)) cs)
  end.

Definition nodeHash (t : node) : Hash := makeHashNode (blobOf (collapse t)).
Definition long (t : node) : Prop := 32 <= len (blobOf (collapse t)).

Definition isNode (t : node) : Prop :=
  match t with shortNode _ _ _ | fullNode _ _ => True | _ => False end.

(** What is loaded below a node is short, as in a node just read. *)
Inductive packed : node -> node -> Prop :=
| packed_leaf n t : ~ isNode n -> packed n t
| packed_short k c fl t : (isNode c -> ~ long t) -> packed c t -> packed (shortNode k c fl) (shortNode k t noFlag)
| packed_full cs fl ts :
    Forall2 (fun c t => (isNode c -> ~ long t) /\ packed c t) cs ts -> packed (fullNode cs fl) (fullNode ts noFlag).

End reference.

(** ** Standing for a tree *)

Section good.
Context `{TrieEnv} `{NodeHash}.
Implicit Types (n c t : node) (fl : nodeFlag).

(** The root of a trie has a hash however short it is; below, a short node is never
    behind one. *)
Inductive good : bool -> node -> node -> Prop :=
| good_nil r : good r nilNode nilNode
| good_value r v : good r (valueNode v) (valueNode v)
| good_short r k c fl t : good false c t -> good r (shortNode k c fl) (shortNode k t noFlag)
| good_full r cs fl ts : Forall2 (good false) cs ts -> good r (fullNode cs fl) (fullNode ts noFlag)
| good_hash r h n t :
    readNode h = Ok (Some n) -> good r n t -> isNode n -> packed n t -> h = nodeHash t -> r = true \/ long t ->
    good r (hashNode h) t.

(** A clean node without a hash is one that is kept inside its parent. *)
Definition flagOk (r : bool) fl t : Prop :=
  match nf_hash fl with
  | Some h => h = nodeHash t /\ (r = true \/ long t) /\ (nf_dirty fl = false -> good r (hashNode h) t)
  | None => nf_dirty fl = true \/ (r = false /\ ~ long t)
  end.

Inductive flagged : bool -> node -> node -> Prop :=
| flagged_nil r : flagged r nilNode nilNode
| flagged_value r v : flagged r (valueNode v) (valueNode v)
| flagged_short r k c fl t :
    flagged false c t -> flagOk r fl (shortNode k t noFlag) -> flagged r (shortNode k c fl) (shortNode k t noFlag)
| flagged_full r cs fl ts :
    Forall2 (flagged false) cs ts -> flagOk r fl (fullNode ts noFlag) -> flagged r (fullNode cs fl) (fullNode ts noFlag)
| flagged_hash r h t : good r (hashNode h) t -> flagged r (hashNode h) t.

Lemma good_ind' (P : bool -> node -> node -> Prop) :
  (forall r, P r nilNode nilNode) -> (forall r v, P r (valueNode v) (valueNode v)) ->
  (forall r k c fl t, good false c t -> P false c t -> P r (shortNode k c fl) (shortNode k t noFlag)) ->
  (forall r cs fl ts, Forall2 (good false) cs ts -> Forall2 (P false) cs ts -> P r (fullNode cs fl) (fullNode ts noFlag)) ->
  (forall r h n t, readNode h = Ok (Some n) -> good r n t -> P r n t -> isNode n -> packed n t -> h = nodeHash t -> r = true \/ long t ->
     P r (hashNode h) t) ->
  forall r n t, good r n t -> P r n t.
Proof.
  intros Hn Hv Hs Hf Hh. fix IH 4. intros r n t Hg. destruct Hg as [r|r v|r k c fl t Hc|r cs fl ts Hcs|r h n t Hr Hg Ht Hpk Hh' Hl].
  - apply Hn.
  - apply Hv.
  - apply Hs; [done|]. by apply IH.
  - apply Hf; [done|]. induction Hcs as [|c t cs ts Hc Hcs IHcs]; constructor; [by apply IH|exact IHcs].
  - by apply (Hh r h n t Hr Hg (IH _ _ _ Hg)).
Qed.

Lemma good_loads r n t : good r n t -> loads n t.
Proof.
  intros Hg. induction Hg as [r|r v|r k c fl t _ IH|r cs fl ts _ IH|r h n t Hr _ IH _ _ _ _] using good_ind'; try by constructor.
  by eapply loads_hash.
Qed.

Lemma good_root n t : good false n t -> good true n t.
Proof.
  intros Hg. remember false as r eqn:Er. induction Hg as [r|r v|r k c fl t Hc _|r cs fl ts Hcs _|r h n t Hr _ IH Ht Hpk Hh Hl] using good_ind';
    try by constructor.
  eapply good_hash; [done|by apply IH|done|done|done|by left].
Qed.

Lemma flagged_ind' (P : bool -> node -> node -> Prop) :
  (forall r, P r nilNode nilNode) -> (forall r v, P r (valueNode v) (valueNode v)) ->
  (forall r k c fl t, flagged false c t -> P false c t -> flagOk r fl (shortNode k t noFlag) ->
     P r (shortNode k c fl) (shortNode k t noFlag)) ->
  (forall r cs fl ts, Forall2 (flagged false) cs ts -> Forall2 (P false) cs ts -> flagOk r fl (fullNode ts noFlag) ->
     P r (fullNode cs fl) (fullNode ts noFlag)) ->
  (forall r h t, good r (hashNode h) t -> P r (hashNode h) t) ->
  forall r n t, flagged r n t -> P r n t.
Proof.
  intros Hn Hv Hs Hf Hh. fix IH 4. intros r n t Hg. destruct Hg as [r|r v|r k c fl t Hc Hfl|r cs fl ts Hcs Hfl|r h t Hg].
  - apply Hn.
  - apply Hv.
  - apply Hs; [done| |done]. by apply IH.
  - apply Hf; [done| |done]. clear Hfl. induction Hcs as [|c t cs ts Hc Hcs IHcs]; constructor; [by apply IH|exact IHcs].
  - by apply Hh.
Qed.

Lemma flagged_good r n t : flagged r n t -> good r n t.
Proof.
  intros Hf. induction Hf as [r|r v|r k c fl t _ IH _|r cs fl ts _ IH _|r h t Hg] using flagged_ind'; try by constructor. done.
Qed.

Lemma flagOk_new r t : flagOk r newFlag t.
Proof. by left. Qed.

Lemma flagOk_touch r fl t : flagOk r fl t -> flagOk r (touch fl) t.
Proof. done. Qed.

(** ** Loading *)

(** The flags of a node that was read under [hash]: it is clean, and what is
    embedded in it has no hash of its own. *)
Fixpoint loadedBy (hash : option Hash) n : Prop :=
  match n with
  | shortNode _ c fl => nf_hash fl = hash /\ nf_dirty fl = false /\ loadedBy None c
  | fullNode cs fl =>
      nf_hash fl = hash /\ nf_dirty fl = false /\ fold_right (fun c P => loadedBy None c /\ P) True cs
  | _ => True
  end.

Lemma loadedBy_all cs : fold_right (fun c P => loadedBy None c /\ P) True cs <-> Forall (loadedBy None) cs.
Proof. induction cs as [|c cs IH]; simpl; [by split|]. by rewrite Forall_cons, IH. Qed.

Lemma flagged_embedded n t :
  good false n t -> loadedBy None n -> (isNode n -> ~ long t) -> packed n t -> flagged false n t.
Proof.
  intros Hg. remember false as r eqn:Er. revert Er.
  induction Hg as [r|r v|r k c fl t Hc IH|r cs fl ts Hcs IH|r h n t Hr Hg IH Ht Hpk Hh Hl] using good_ind'; intros -> Hld Hlong Hp;
    try by constructor.
  - destruct Hld as (Hh & _ & Hld). inversion Hp as [? ? Hn|? ? ? ? Hlc Hpc|]; subst; [by destruct Hn|].
    constructor; [by apply IH|]. unfold flagOk. rewrite Hh. right. split; [done|by apply Hlong].
  - destruct Hld as (Hh & _ & Hld). apply loadedBy_all in Hld. inversion Hp as [? ? Hn| |? ? ? Hps]; subst; [by destruct Hn|].
    constructor; [|unfold flagOk; rewrite Hh; right; split; [done|by apply Hlong]].
    clear Hcs Hh Hp Hlong. revert Hps. induction IH as [|c t cs ts Hc _ IHcs]; intros Hps; [constructor|].
    apply Forall_cons in Hld as [Hld1 Hld]. apply Forall2_cons in Hps as [[Hlc Hpc] Hps].
    constructor; [by apply Hc|by apply IHcs].
  - constructor. by eapply good_hash.
Qed.

Definition readsClean : Prop := forall h n, readNode h = Ok (Some n) -> loadedBy (Some h) n.

(** Resolving a hash keeps the tree and the flags. *)
Lemma resolve_flagged r h t :
  readsClean -> flagged r (hashNode h) t -> exists n, readNode h = Ok (Some n) /\ isNode n /\ flagged r n t.
Proof.
  intros Hrc Hf. inversion Hf as [| | | |? ? ? Hg]; subst. inversion Hg as [| | | |? ? n ? Hr Hn Ht Hp E Hl]; subst.
  exists n. split; [done|]. pose proof (Hrc _ _ Hr) as Hld.
  assert (forall fl, nf_hash fl = Some (nodeHash t) -> flagOk r fl t) as Hfl.
  { intros fl Hh. unfold flagOk. rewrite Hh. by split_and!. }
  inversion Hn as [| |? k c fl t' Hc|? cs fl ts Hcs|? h' n' ? Hr' Hn']; subst; try done; (split; [done|]).
  - destruct Hld as (Hh & _ & Hld). inversion Hp as [? ? Hnn|? ? ? ? Hlc Hpc|]; subst; [by destruct Hnn|].
    constructor; [by apply flagged_embedded|by apply Hfl].
  - destruct Hld as (Hh & _ & Hld). apply loadedBy_all in Hld. inversion Hp as [? ? Hnn| |? ? ? Hps]; subst; [by destruct Hnn|].
    constructor; [|by apply Hfl]. clear -Hcs Hld Hps. revert Hps.
    induction Hcs as [|c t cs ts Hc _ IH]; intros Hps; [constructor|]. apply Forall_cons in Hld as [Hld1 Hld].
    apply Forall2_cons in Hps as [[Hlc Hpc] Hps]. constructor; [by apply flagged_embedded|by apply IH].
Qed.

(** ** The operations *)

Hypothesis clean : readsClean.

Lemma resolveHash_flagged r h t pre n :
  flagged r (hashNode h) t -> resolveHash h pre = Ok n -> isNode n /\ flagged r n t.
Proof.
  intros Hf Hr. destruct (resolve_flagged r h t clean Hf) as (n' & Hn & Hi & Hf'). unfold resolveHash in Hr.
  rewrite Hn in Hr. injection Hr as <-. done.
Qed.

Lemma child_flagged cs ts x c :
  Forall2 (flagged false) cs ts -> child cs x = Ok c -> exists t, ts !! Z.to_nat x = Some t /\ flagged false c t.
Proof.
  intros Hcs Hc. unfold child in Hc. destruct (cs !! Z.to_nat x) as [c'|] eqn:E; [|done]. injection Hc as ->.
  destruct (Forall2_lookup_l _ _ _ _ _ Hcs E) as (t & Ht & Hf). eauto.
Qed.

Lemma setChild_flagged cs ts x c t :
  Forall2 (flagged false) cs ts -> flagged false c t -> Forall2 (flagged false) (setChild cs x c) (setChild ts x t).
Proof. intros Hcs Hc. by apply Forall2_insert. Qed.

Lemma new_short r k c t : flagged false c t -> exists t', flagged r (shortNode k c newFlag) t'.
Proof. intros Hc. eexists. constructor; [exact Hc|apply flagOk_new]. Qed.

Lemma new_full r cs ts : Forall2 (flagged false) cs ts -> exists t', flagged r (fullNode cs newFlag) t'.
Proof. intros Hcs. eexists. constructor; [exact Hcs|apply flagOk_new]. Qed.

Lemma empty_children : Forall2 (flagged false) (replicate 17 nilNode) (replicate 17 nilNode).
Proof. apply Forall2_replicate. constructor. Qed.

Lemma insert_flagged fuel r n t pre key value tv dirty n' :
  flagged r n t -> flagged false value tv -> (r = false \/ key <> []) ->
  insert fuel n pre key value = Ok (dirty, n') -> exists t', flagged r n' t'.
Proof.
  revert r n t pre key value tv dirty n'. induction fuel as [|fuel IH]; intros r n t pre key value tv dirty n' Hn Hv Hr Hi; [done|].
  cbn [insert] in Hi. destruct key as [|x key].
  { assert (n' = value) as -> by (destruct n; try (injection Hi as _ <-; done); destruct value; try done; by injection Hi as _ <-).
    destruct Hr as [->|?]; [by exists tv|done]. }
  destruct n as [|v|k c fl|cs fl|h].
  - injection Hi as <- <-. by eapply new_short.
  - done.
  - inversion Hn as [| |? ? ? ? tc Hc Hfl| |]; subst. destruct (_ =? _)%nat.
    + apply obind_Ok_inv in Hi as ([d nn] & Hi & E). destruct d; injection E as <- <-; [|eauto].
      destruct (IH _ _ _ _ _ _ _ _ _ Hc Hv ltac:(by left) Hi) as (t' & Ht'). by eapply new_short.
    + set (ml := prefixLen (x :: key) k) in *. destruct (k !! ml) as [kx|], ((x :: key) !! ml) as [keyx|]; try done.
      apply obind_Ok_inv in Hi as ([d1 n1] & H1 & Hi). apply obind_Ok_inv in Hi as ([d2 n2] & H2 & E).
      destruct (IH _ _ _ _ _ _ _ _ _ (flagged_nil false) Hc ltac:(by left) H1) as (t1 & Ht1).
      destruct (IH _ _ _ _ _ _ _ _ _ (flagged_nil false) Hv ltac:(by left) H2) as (t2 & Ht2).
      pose proof (setChild_flagged _ _ keyx _ _ (setChild_flagged _ _ kx _ _ empty_children Ht1) Ht2) as Hcs.
      cbn [snd] in E. destruct (_ =? 0)%nat; injection E as <- <-; [by eapply new_full|].
      destruct (new_full false _ _ Hcs) as (tb & Htb). by eapply new_short.
  - inversion Hn as [| | |? ? ? ts Hcs Hfl|]; subst. apply obind_Ok_inv in Hi as (c & Hc & Hi).
    apply obind_Ok_inv in Hi as ([d nn] & Hi & E). destruct (child_flagged _ _ _ _ Hcs Hc) as (tc & _ & Htc).
    destruct d; injection E as <- <-; [|eauto]. destruct (IH _ _ _ _ _ _ _ _ _ Htc Hv ltac:(by left) Hi) as (t' & Ht').
    eapply new_full. by apply setChild_flagged.
  - apply obind_Ok_inv in Hi as (rn & Hrh & Hi). apply obind_Ok_inv in Hi as ([d nn] & Hi & E).
    destruct (resolveHash_flagged _ _ _ _ _ Hn Hrh) as [_ Hrn].
    destruct d; injection E as <- <-; [by eapply IH|by eexists].
Qed.

Lemma tryGet_flagged fuel r n t pre key value n' did :
  flagged r n t -> tryGet fuel n pre key = Ok (value, n', did) -> flagged r n' t.
Proof.
  revert r n t pre key value n' did. induction fuel as [|fuel IH]; intros r n t pre key value n' did Hn Hg; [done|].
  cbn [tryGet] in Hg. destruct n as [|v|k c fl|cs fl|h].
  - by injection Hg as _ <- _.
  - by injection Hg as _ <- _.
  - destruct (_ || _); [by injection Hg as _ <- _|]. apply obind_Ok_inv in Hg as ([[v nn] d] & Hg & E).
    injection E as _ <- _. destruct d; [|done]. inversion Hn; subst. constructor; [by eapply IH|by apply flagOk_touch].
  - destruct key as [|x key]; [done|]. apply obind_Ok_inv in Hg as (c & Hc & Hg).
    apply obind_Ok_inv in Hg as ([[v nn] d] & Hg & E). injection E as _ <- _. destruct d; [|done].
    inversion Hn as [| | |? ? ? ts Hcs Hfl|]; subst. destruct (child_flagged _ _ _ _ Hcs Hc) as (tc & Htc & Hfc).
    constructor; [|by apply flagOk_touch]. replace ts with (setChild ts x tc) by (by apply list_insert_id).
    apply setChild_flagged; [done|]. by eapply IH.
  - apply obind_Ok_inv in Hg as (rn & Hr & Hg). apply obind_Ok_inv in Hg as ([[v nn] d] & Hg & E). injection E as _ <- _.
    destruct (resolveHash_flagged _ _ _ _ _ Hn Hr) as [_ Hrn]. by eapply IH.
Qed.

Lemma reduce_flagged r cs ts pre dirty n' :
  Forall2 (flagged false) cs ts -> reduce cs pre = Ok (dirty, n') -> exists t', flagged r n' t'.
Proof.
  intros Hcs Hred. unfold reduce in Hred. cbv zeta in Hred. destruct (0 <=? _); [|injection Hred as _ <-; by eapply new_full].
  apply obind_Ok_inv in Hred as (c & Hc & Hred). destruct (child_flagged _ _ _ _ Hcs Hc) as (tc & _ & Htc).
  destruct (_ =? 16); [injection Hred as _ <-; by eapply new_short|].
  apply obind_Ok_inv in Hred as (cn & Hr & Hred).
  assert (flagged false cn tc) as Hcn.
  { destruct c; try by injection Hr as <-. by eapply resolveHash_flagged. }
  destruct cn as [|v|k v fl|cs' fl|h]; injection Hred as _ <-; try by eapply new_short.
  inversion Hcn; subst. by eapply new_short.
Qed.

Lemma delete_flagged fuel r n t pre key dirty n' :
  flagged r n t -> delete fuel n pre key = Ok (dirty, n') -> exists t', flagged r n' t'.
Proof.
  revert r n t pre key dirty n'. induction fuel as [|fuel IH]; intros r n t pre key dirty n' Hn Hd; [done|].
  cbn [delete] in Hd. destruct n as [|v|k c fl|cs fl|h].
  - injection Hd as _ <-. eauto.
  - injection Hd as _ <-. eexists. constructor.
  - inversion Hn as [| |? ? ? ? tc Hc Hfl| |]; subst. destruct (_ <? _)%nat; [injection Hd as _ <-; eauto|].
    destruct (_ =? _)%nat; [injection Hd as _ <-; eexists; constructor|].
    apply obind_Ok_inv in Hd as ([d ch] & Hd & E). destruct (IH _ _ _ _ _ _ _ Hc Hd) as (tch & Htch).
    destruct d; [|injection E as _ <-; eauto]. destruct ch as [|v|k' v fl'|cs' fl'|h']; injection E as _ <-; try by eapply new_short.
    inversion Htch; subst. by eapply new_short.
  - destruct key as [|x key]; [done|]. apply obind_Ok_inv in Hd as (c & Hc & Hd).
    apply obind_Ok_inv in Hd as ([d nn] & Hd & E). inversion Hn as [| | |? ? ? ts Hcs Hfl|]; subst.
    destruct (child_flagged _ _ _ _ Hcs Hc) as (tc & _ & Htc). destruct (IH _ _ _ _ _ _ _ Htc Hd) as (tn & Htn).
    destruct d; [|injection E as _ <-; eauto]. eapply reduce_flagged; [|exact E]. by apply setChild_flagged.
  - apply obind_Ok_inv in Hd as (rn & Hr & Hd). apply obind_Ok_inv in Hd as ([d nn] & Hd & E).
    destruct (resolveHash_flagged _ _ _ _ _ Hn Hr) as [_ Hrn].
    destruct d; injection E as <- <-; [by eapply IH|by eexists].
Qed.

End good.
