(* ===== verification/TrieStore.v ===== *)
(** * TrieStore: tries over a database that grows

    What a trie stands for depends on the database only through what its hashes
    resolve to, up to caching metadata ([env_le]): reading with another generation
    or from a larger database changes nothing.  [db_insert] only adds nodes, as
    long as no two nodes share a hash ([agrees]). *)
From S2P Require Import Prelude Bytes TrieEncoding Rlp Trie TrieTheorems TrieNode.
From S2P Require Import TrieDatabase TrieHasher TrieCache.
Local Open Scope Z_scope.
Local Open Scope zv_scope.

(** ** The same node up to flags *)

Definition alike (n n' : node) : Prop := erase n = erase n'.

Lemma alike_refl n : alike n n.
Proof. done. Qed.
Lemma alike_sym n n' : alike n n' -> alike n' n.
Proof. done. Qed.

Lemma alike_nil n : alike nilNode n -> n = nilNode.
Proof. by destruct n. Qed.
Lemma alike_value v n : alike (valueNode v) n -> n = valueNode v.
Proof. by destruct n. Qed.
Lemma alike_hash h n : alike (hashNode h) n -> n = hashNode h.
Proof. by destruct n. Qed.
Lemma alike_short k c fl n : alike (shortNode k c fl) n -> exists c' fl', n = shortNode k c' fl' /\ alike c c'.
Proof. destruct n; try done. intros [= -> E]. eauto. Qed.

Lemma map_erase cs cs' : map erase cs = map erase cs' -> Forall2 alike cs cs'.
Proof.
  revert cs'. induction cs as [|c cs IH]; intros [|c' cs']; try done.
  intros [= E E']. constructor; [exact E|by apply IH].
Qed.
Lemma alike_full cs fl n : alike (fullNode cs fl) n -> exists cs' fl', n = fullNode cs' fl' /\ Forall2 alike cs cs'.
Proof. destruct n; try done. intros [= E]. do 2 eexists. split; [done|]. by apply map_erase. Qed.

Lemma alike_full_intro cs cs' fl fl' : Forall2 alike cs cs' -> alike (fullNode cs fl) (fullNode cs' fl').
Proof. intros Hcs. unfold alike. simpl. f_equal. by induction Hcs as [|c c' cs cs' Hc _ IH]; simpl; [|f_equal]. Qed.

Lemma alike_isNode n n' : alike n n' -> isNode n -> isNode n'.
Proof. by destruct n, n'. Qed.

Lemma packed_alike `{NodeHash} n n' t : packed n t -> alike n n' -> packed n' t.
Proof.
  revert n' t. induction n as [|v|k c fl IH|cs fl IH|h] using node_ind'; intros n' t Hp Ha.
  - apply alike_nil in Ha as ->. exact Hp.
  - apply alike_value in Ha as ->. exact Hp.
  - apply alike_short in Ha as (c' & fl' & -> & Ha). inversion Hp as [? ? Hn|? ? ? ? Hl Hc|]; subst; [by destruct Hn|].
    apply packed_short; [|by eapply IH]. intros Hi. apply Hl. by eapply alike_isNode; [apply alike_sym|].
  - apply alike_full in Ha as (cs' & fl' & -> & Ha). inversion Hp as [? ? Hn| |? ? ts Hps]; subst; [by destruct Hn|].
    apply packed_full. clear Hp. revert cs' ts Ha Hps.
    induction IH as [|c cs Hc _ IHcs]; intros cs' ts Ha Hps; inversion Ha as [|? c' ? cs2 Hac Has]; subst; inversion Hps as [|? t ? ts2 [Hl Hpc] Hps2];
      subst; constructor; [|by apply IHcs]. split; [|by eapply Hc]. intros Hi. apply Hl. by eapply alike_isNode; [apply alike_sym|].
  - apply alike_hash in Ha as ->. exact Hp.
Qed.

Definition env_le (E E' : TrieEnv) : Prop :=
  forall h n, readNode (TrieEnv := E) h = Ok (Some n) -> exists n', readNode (TrieEnv := E') h = Ok (Some n') /\ alike n n'.

Lemma env_le_refl E : env_le E E.
Proof. intros h n Hn. by exists n. Qed.

Lemma env_le_trans E1 E2 E3 : env_le E1 E2 -> env_le E2 E3 -> env_le E1 E3.
Proof.
  intros H12 H23 h n Hn. destruct (H12 h n Hn) as (n2 & Hn2 & Ha). destruct (H23 h n2 Hn2) as (n3 & Hn3 & Ha3).
  exists n3. split; [done|]. unfold alike in *. congruence.
Qed.

Section grow.
Context `{NodeHash} (E E' : TrieEnv) (le : env_le E E').

Lemma good_alike r n t : good (H := E) r n t -> forall n', alike n n' -> good (H := E') r n' t.
Proof.
  revert r n t. apply (good_ind' (fun r n t => forall n', alike n n' -> good (H := E') r n' t));
    [intros r n' Ha|intros r v n' Ha|intros r k c fl t _ IH n' Ha|intros r cs fl ts _ IH n' Ha|intros r h n t Hr _ IH Hn Hpk Hh Hl n' Ha].
  - apply alike_nil in Ha as ->. constructor.
  - apply alike_value in Ha as ->. constructor.
  - apply alike_short in Ha as (c' & fl' & -> & Ha). constructor. by apply IH.
  - apply alike_full in Ha as (cs' & fl' & -> & Ha). constructor. revert cs' Ha.
    induction IH as [|c t cs ts Hc _ IHcs]; intros cs' Ha; inversion Ha; subst; constructor; eauto.
  - apply alike_hash in Ha as ->. destruct (le h n Hr) as (n2 & Hr2 & Ha2).
    eapply good_hash; [exact Hr2|by apply IH|by eapply alike_isNode|by eapply packed_alike|done|done].
Qed.

Lemma good_grow r n t : good (H := E) r n t -> good (H := E') r n t.
Proof. intros Hg. by eapply good_alike. Qed.

Lemma flagged_grow r n t : flagged (H := E) r n t -> flagged (H := E') r n t.
Proof.
  assert (forall r fl t, flagOk (H := E) r fl t -> flagOk (H := E') r fl t) as Hfl.
  { intros r0 fl t0 Hfl. unfold flagOk in *. destruct (nf_hash fl) as [h|]; [|done].
    destruct Hfl as (? & ? & Hc). split_and!; try done. intros Hd. by apply good_grow, Hc. }
  revert r n t. apply (flagged_ind' (fun r n t => flagged (H := E') r n t)); try (by constructor; auto).
  intros r h t Hg. constructor. by apply good_grow.
Qed.

Lemma childOk_grow (P Q : node -> content -> Prop) c c' m :
  (forall n n', alike n n' -> P n m -> Q n' m) -> alike c c' ->
  childOk (H := E) P c m -> childOk (H := E') Q c' m.
Proof.
  intros HPQ Ha [[-> Hn]|[Hp|(h & n & -> & Hr & Hp)]].
  - left. by apply alike_nil in Ha as ->.
  - right. left. by eapply HPQ.
  - right. right. apply alike_hash in Ha as ->. destruct (le h n Hr) as (n' & Hr' & Ha'). exists h, n'.
    split_and!; [done|done|by eapply HPQ].
Qed.

Lemma okNode_grow d n n' m : alike n n' -> okNode (H := E) d n m -> okNode (H := E') d n' m.
Proof.
  revert n n' m. induction d as [|d IH]; intros n n' m Ha Hok; [done|]. destruct n as [| |k c fl|cs fl|]; try done.
  - apply alike_short in Ha as (c' & fl' & -> & Ha). destruct Hok as [[Hk (v & -> & Ho)]|(Hp & Hne & Hout & cs & Hb & Hok)].
    + left. split; [done|]. exists v. split; [by apply alike_value|done].
    + right. split_and!; [done|done|done|]. destruct Hb as [(flb & ->)|(h & flb & -> & Hr)].
      * apply alike_full in Ha as (cs' & flb' & -> & Ha). exists cs'. split; [left; by exists flb'|].
        eapply IH; [|exact Hok]. by apply alike_full_intro.
      * apply alike_hash in Ha as ->. destruct (le h _ Hr) as (n2 & Hr2 & Ha2).
        apply alike_full in Ha2 as (cs' & flb' & -> & Ha). exists cs'. split; [right; by exists h, flb'|].
        eapply IH; [|exact Hok]. by apply alike_full_intro.
  - apply alike_full in Ha as (cs' & fl' & -> & Ha). destruct Hok as [(Hlen & Hnil & Hout & Hs) Htwo].
    pose proof (Forall2_length _ _ _ Ha) as Hl. split.
    + split_and!; [congruence|done|done|]. intros x c' Hx Hc'.
      destruct (Forall2_lookup_r _ _ _ _ _ Ha Hc') as (c & Hc & Hac). specialize (Hs x c Hx Hc).
      unfold slotOk in *. destruct (decide (x = 16)).
      * destruct Hs as [[-> Hn]|(v & -> & Ho)]; [left; by apply alike_nil in Hac as ->|right].
        exists v. split; [by apply alike_value|done].
      * eapply childOk_grow; [|exact Hac|exact Hs]. intros n1 n1' Han Hn1. by eapply IH.
    + destruct Htwo as (x & y & cx & cy & Hx & Hy & Hne & Hcx & Hcy & Hnx & Hny).
      destruct (Forall2_lookup_l _ _ _ _ _ Ha Hcx) as (cx' & Hcx' & Hax).
      destruct (Forall2_lookup_l _ _ _ _ _ Ha Hcy) as (cy' & Hcy' & Hay).
      exists x, y, cx', cy'. split_and!; try done.
      * intros ->. by apply alike_sym, alike_nil in Hax.
      * intros ->. by apply alike_sym, alike_nil in Hay.
Qed.

Lemma holds_grow root g : holds (H := E) root g -> holds (H := E') root g.
Proof.
  intros [d Hd]. exists d. eapply childOk_grow; [|apply alike_refl|exact Hd]. intros n n'. apply okNode_grow.
Qed.

End grow.

(** ** Reading *)

Lemma rawNode_ind' (P : rawNode -> Prop) :
  P rawNil -> (forall v, P (rawValue v)) -> (forall h, P (rawHash h)) -> (forall k c, P c -> P (rawShortNode k c)) ->
  (forall cs, Forall P cs -> P (rawFullNode cs)) -> forall n, P n.
Proof.
  intros Hn Hv Hh Hs Hf. fix IH 1. intros [|v|h|k c|cs]; [done|apply Hv|apply Hh|apply Hs, IH|].
  apply Hf. induction cs as [|c cs IHcs]; constructor; [apply IH|exact IHcs].
Qed.

(** What is read is clean, and the same for any generation. *)
Definition readAlike (hash : option Hash) (r r' : outcome trieError node) : Prop :=
  forall n, r = Ok n -> loadedBy hash n /\ exists n', r' = Ok n' /\ alike n n'.

Section gens.
Variables gen gen' : Z.

Lemma expandChildren_alike cs ns :
  Forall (fun c => forall hash, readAlike hash (expandNode gen hash c) (expandNode gen' hash c)) cs ->
  expandChildren gen cs = Ok ns ->
  Forall (loadedBy None) ns /\ exists ns', expandChildren gen' cs = Ok ns' /\ Forall2 alike ns ns'.
Proof.
  intros Hcs. revert ns. induction Hcs as [|c cs Hc _ IH]; intros ns He; simpl in He |- *.
  - injection He as <-. split; [constructor|]. by exists [].
  - apply obind_Ok_inv in He as (n & Hn & He). apply obind_Ok_inv in He as (ns' & Hns & E). injection E as <-.
    destruct (IH _ Hns) as (Hld & ns2 & Hns2 & Ha).
    assert (loadedBy None n /\ exists n', expandChild gen' c = Ok n' /\ alike n n') as (Hl & n' & Hn' & Han).
    { unfold expandChild in *. destruct c; try by apply Hc. injection Hn as <-. by split; [|exists nilNode]. }
    split; [by constructor|]. rewrite Hn'. cbn [obind]. rewrite Hns2. cbn [obind]. eexists. split; [done|]. by constructor.
Qed.

Lemma expandNode_alike c hash : readAlike hash (expandNode gen hash c) (expandNode gen' hash c).
Proof.
  revert hash. induction c as [|v|h|k c IH|cs IH] using rawNode_ind'; intros hash n He.
  - done.
  - injection He as <-. split; [done|]. by eexists.
  - injection He as <-. split; [done|]. by eexists.
  - simpl in He. apply obind_Ok_inv in He as (key & Hk & He). apply obind_Ok_inv in He as (v & Hv & E). injection E as <-.
    destruct (IH None v Hv) as (Hl & v' & Hv' & Ha). split; [done|]. simpl. rewrite Hk, Hv'. cbn [obind].
    eexists. split; [done|]. unfold alike. simpl. by f_equal.
  - rewrite expandNode_full in He |- *. apply obind_Ok_inv in He as (ns & Hns & E). injection E as <-.
    destruct (expandChildren_alike cs ns IH Hns) as (Hl & ns' & Hns' & Ha). rewrite Hns'. cbn [obind]. split.
    + split_and!; [done|done|]. by apply loadedBy_all.
    + eexists. split; [done|]. by apply alike_full_intro.
Qed.

Definition decodeAlike (f f' : option Hash -> bytes -> outcome decodeError node) : Prop :=
  forall hash buf n, f hash buf = Ok n -> loadedBy hash n /\ exists n', f' hash buf = Ok n' /\ alike n n'.

Lemma decodeRef_alike f f' buf n rest :
  decodeAlike f f' -> decodeRef f buf = Ok (n, rest) ->
  loadedBy None n /\ exists n', decodeRef f' buf = Ok (n', rest) /\ alike n n'.
Proof.
  intros Hf Hd. unfold decodeRef in *. apply obind_Ok_inv in Hd as ([[k v] rest'] & -> & Hd). cbn [obind]. destruct k.
  - done.
  - destruct (len v =? 0); [injection Hd as <- <-; split; [done|]; by eexists|].
    destruct (len v =? 32); [|done]. injection Hd as <- <-. split; [done|]. by eexists.
  - cbv zeta in *. destruct (hashLen <? _); [done|]. apply obind_Ok_inv in Hd as (n0 & Hn & E). injection E as <- <-.
    destruct (Hf _ _ _ Hn) as (Hl & n' & -> & Ha). split; [done|]. by exists n'.
Qed.

Lemma decodeRefs_alike f f' k buf ns rest :
  decodeAlike f f' -> decodeRefs f k buf = Ok (ns, rest) ->
  Forall (loadedBy None) ns /\ exists ns', decodeRefs f' k buf = Ok (ns', rest) /\ Forall2 alike ns ns'.
Proof.
  intros Hf. revert buf ns rest. induction k as [|k IH]; intros buf ns rest Hd; simpl in Hd |- *.
  - injection Hd as <- <-. split; [constructor|]. by exists [].
  - apply obind_Ok_inv in Hd as ([n r1] & Hn & Hd). apply obind_Ok_inv in Hd as ([ns1 r2] & Hns & E). injection E as <- <-.
    destruct (decodeRef_alike f f' buf n r1 Hf Hn) as (Hl & n' & -> & Ha). cbn [obind snd fst].
    destruct (IH _ _ _ Hns) as (Hls & ns' & Hns' & Has). cbn [snd] in Hns'. rewrite Hns'. cbn [obind fst snd].
    split; [by constructor|]. eexists. split; [done|]. by constructor.
Qed.

Lemma decodeFrom_alike fuel : decodeAlike (decodeFrom gen fuel) (decodeFrom gen' fuel).
Proof.
  induction fuel as [|fuel IH]; intros hash buf n Hd; simpl in Hd |- *; [by destruct buf|]. destruct buf as [|b buf]; [done|].
  apply obind_Ok_inv in Hd as (r & -> & Hd). cbn [obind]. cbv zeta in Hd |- *. set (c := match CountValues r.1 with Ok c => c | _ => 0 end) in *.
  destruct (c =? 2); [|destruct (c =? 17); [|done]].
  - unfold decodeShort in *. apply obind_Ok_inv in Hd as ([kb rest] & -> & Hd). cbn [obind].
    apply obind_Ok_inv in Hd as (key & -> & Hd). cbn [obind]. destruct (hasTerm key).
    + apply obind_Ok_inv in Hd as (v & -> & E). injection E as <-. cbn [obind]. split; [done|]. by eexists.
    + apply obind_Ok_inv in Hd as ([n0 r0] & Hn & E). injection E as <-.
      destruct (decodeRef_alike _ _ _ _ _ IH Hn) as (Hl & n' & -> & Ha). cbn [obind fst]. split; [done|].
      eexists. split; [done|]. unfold alike. simpl. by f_equal.
  - unfold decodeFull in *. apply obind_Ok_inv in Hd as ([ns elems] & Hns & Hd).
    destruct (decodeRefs_alike _ _ _ _ _ _ IH Hns) as (Hl & ns' & -> & Ha). cbn [obind].
    apply obind_Ok_inv in Hd as (v & -> & E). injection E as <-. cbn [obind]. split.
    + split_and!; [done|done|]. apply loadedBy_all, Forall_app. split; [done|]. apply Forall_singleton. by destruct (0 <? len v.1).
    + eexists. split; [done|]. apply alike_full_intro, Forall2_app; [done|]. constructor; [|constructor]. by destruct (0 <? len v.1).
Qed.

Lemma mustDecode_alike hash buf : readAlike hash (mustDecodeNode gen hash buf) (mustDecodeNode gen' hash buf).
Proof.
  intros n Hn. unfold mustDecodeNode, decodeNode in *. destruct (decodeFrom gen (length buf) hash buf) as [n0| |] eqn:E; try done.
  injection Hn as ->. destruct (decodeFrom_alike _ _ _ _ E) as (Hl & n' & -> & Ha). split; [done|]. by exists n'.
Qed.

Lemma obj_alike h o : readAlike (Some h) (obj gen h o) (obj gen' h o).
Proof. destruct o; [apply expandNode_alike|apply mustDecode_alike]. Qed.

Lemma node_alike db h n :
  node_ db gen h = Ok (Some n) -> loadedBy (Some h) n /\ exists n', node_ db gen' h = Ok (Some n') /\ alike n n'.
Proof.
  unfold node_. intros Hn. destruct (nodes db !! h) as [e|]; [|destruct (diskdb db !! h) as [b|]; [|done]];
    apply obind_Ok_inv in Hn as (n0 & Hn & E); injection E as <-;
    [destruct (obj_alike _ _ _ Hn) as (Hl & n' & -> & Ha)|destruct (mustDecode_alike _ _ _ Hn) as (Hl & n' & -> & Ha)];
    (split; [done|]); by exists n'.
Qed.

End gens.

Lemma envOf_clean db gen : readsClean (H := envOf db gen).
Proof. intros h n Hn. by apply (node_alike gen gen db h n) in Hn as [? _]. Qed.

Lemma envOf_gen db gen gen' : env_le (envOf db gen) (envOf db gen').
Proof. intros h n Hn. by apply (node_alike gen gen' db h n) in Hn as [_ ?]. Qed.

(** ** Writing *)

Definition contents (db : NodeDatabase) : gmap Hash cachedObject := cn_node <$> nodes db.

Lemma node_contents db gen h :
  node_ db gen h =
  match contents db !! h with
  | Some o => r <-! obj gen h o ;; Ok (Some r)
  | None => match diskdb db !! h with Some enc => r <-! mustDecodeNode gen (Some h) enc ;; Ok (Some r) | None => Ok None end
  end.
Proof. unfold node_, contents. rewrite lookup_fmap. by destruct (nodes db !! h). Qed.

(** The head of the flush list is there when the list is not empty. *)
Definition flushOk (db : NodeDatabase) : Prop := oldest db = zeroB32 \/ is_Some (nodes db !! newest db).

(** The same nodes, whatever their counters. *)
Definition sameContents (db db' : NodeDatabase) : Prop :=
  diskdb db' = diskdb db /\ contents db' = contents db /\ flushOk db'.

Lemma contents_alter f k (ns : gmap Hash cachedNode) :
  (forall n, cn_node (f n) = cn_node n) -> cn_node <$> alter f k ns = cn_node <$> ns.
Proof.
  intros Hf. apply map_eq. intros i. rewrite !lookup_fmap. destruct (decide (i = k)) as [->|Hne].
  - rewrite lookup_alter_eq. destruct (ns !! k); simpl; [by rewrite Hf|done].
  - by rewrite lookup_alter_ne.
Qed.

Lemma contents_countParents cs ns : cn_node <$> countParents cs ns = cn_node <$> ns.
Proof.
  unfold countParents. revert ns. induction cs as [|c cs IH]; intros ns; simpl; [done|]. by rewrite IH, contents_alter.
Qed.

Lemma contents_is_Some db h : is_Some (nodes db !! h) <-> is_Some (contents db !! h).
Proof. unfold contents. rewrite lookup_fmap. by rewrite fmap_is_Some. Qed.

Lemma db_insert_spec h blob o db :
  flushOk db ->
  exists db', db_insert h blob o db = Ok db' /\ diskdb db' = diskdb db /\ flushOk db' /\
    contents db' = match contents db !! h with Some _ => contents db | None => <[h := o]> (contents db) end.
Proof.
  intros Hfl. unfold db_insert, contents at 2. rewrite lookup_fmap. destruct (nodes db !! h) as [n|] eqn:En; simpl.
  { eexists. split; [done|]. by destruct (enablePrune db). }
  set (ns := <[h := _]> (countParents _ _)).
  assert (cn_node <$> ns = <[h := o]> (contents db)) as Hns.
  { unfold ns. by rewrite fmap_insert, contents_countParents. }
  destruct (decide (oldest db = zeroB32)) as [Ho|Ho]; [rewrite bool_decide_eq_true_2 by done|rewrite bool_decide_eq_false_2 by done].
  - eexists. split; [done|]. split_and!; [done| |done]. right. simpl. unfold ns. by rewrite lookup_insert_eq.
  - destruct Hfl as [?|Hn]; [done|].
    assert (is_Some (ns !! newest db)) as [e He].
    { apply contents_is_Some in Hn. rewrite <- (fmap_is_Some cn_node), <- lookup_fmap, Hns.
      destruct (decide (newest db = h)) as [->|]; [by rewrite lookup_insert_eq|by rewrite lookup_insert_ne]. }
    rewrite He. eexists. split; [done|]. unfold contents. simpl.
    assert (cn_node <$> <[newest db := setFlushNext h e]> ns = cn_node <$> ns) as E.
    { rewrite fmap_insert. apply insert_id. by rewrite lookup_fmap, He. }
    split_and!; [done| |by rewrite E, Hns]. right. simpl.
    apply (fmap_is_Some cn_node). rewrite <- lookup_fmap, E, Hns. by rewrite lookup_insert_eq.
Qed.

Lemma Reference_spec child parent db :
  flushOk db -> is_Some (nodes db !! parent) -> exists db', Reference child parent db = Ok db' /\ sameContents db db'.
Proof.
  intros Hfl [p Hp]. unfold Reference. destruct (nodes db !! child) as [c|]; [|by exists db]. rewrite Hp. cbv zeta.
  destruct (_ && _); [by exists db|]. eexists. split; [done|].
  set (ns := alter _ parent _). assert (cn_node <$> ns = contents db) as Hns.
  { unfold ns. by rewrite !contents_alter. }
  split_and!; [done|exact Hns|]. destruct Hfl as [?|Hn]; [by left|right]. simpl.
  apply (fmap_is_Some cn_node). rewrite <- lookup_fmap, Hns. by apply contents_is_Some.
Qed.

Definition db_le (db db' : NodeDatabase) : Prop := forall gen, env_le (envOf db gen) (envOf db' gen).

Lemma db_le_refl db : db_le db db.
Proof. intros gen. apply env_le_refl. Qed.
Lemma db_le_trans db1 db2 db3 : db_le db1 db2 -> db_le db2 db3 -> db_le db1 db3.
Proof. intros H12 H23 gen. by eapply env_le_trans. Qed.

Lemma db_le_same db db' : diskdb db' = diskdb db -> contents db' = contents db -> db_le db db'.
Proof.
  intros Hd Hc gen h n. simpl. rewrite !node_contents, Hd, Hc. intros Hn. by exists n.
Qed.

(** ** Nodes and their hashes *)

(** [P] tells which node belongs under a hash; what the database has there reads
    like that node. *)
Definition agrees (P : Hash -> rawNode -> Prop) (db : NodeDatabase) : Prop :=
  forall h c gen, P h c ->
  (forall o, contents db !! h = Some o -> obj gen h o = expandNode gen (Some h) c) /\
  (forall b, diskdb db !! h = Some b -> mustDecodeNode gen (Some h) b = expandNode gen (Some h) c).

Definition functional (P : Hash -> rawNode -> Prop) : Prop :=
  forall h c c' gen, P h c -> P h c' -> expandNode gen (Some h) c = expandNode gen (Some h) c'.

Lemma agrees_same P db db' : diskdb db' = diskdb db -> contents db' = contents db -> agrees P db -> agrees P db'.
Proof. intros Hd Hc Ha h c gen Hp. rewrite Hd, Hc. by apply Ha. Qed.

(** Nothing goes, and what is new belongs there. *)
Record extends (P : Hash -> rawNode -> Prop) (db db' : NodeDatabase) : Prop := {
  extends_old : contents db ⊆ contents db';
  extends_new h o : contents db' !! h = Some o -> contents db !! h = Some o \/ exists c, o = Collapsed c /\ P h c;
}.

Lemma grown_same P db db' : contents db' = contents db -> extends P db db'.
Proof. intros Hc. constructor; rewrite Hc; [done|]. intros h o Ho. by left. Qed.

Lemma grown_trans P db1 db2 db3 : extends P db1 db2 -> extends P db2 db3 -> extends P db1 db3.
Proof.
  intros [Ho Hn] [Ho' Hn']. constructor; [by etrans|]. intros h o H3. destruct (Hn' h o H3) as [H2|?]; [by apply Hn|by right].
Qed.

Lemma db_insert_ok P h c db :
  functional P -> agrees P db -> P h c -> flushOk db ->
  exists db', db_insert h (blobOf c) (Collapsed c) db = Ok db' /\ flushOk db' /\ agrees P db' /\ db_le db db' /\ extends P db db' /\
    is_Some (nodes db' !! h) /\ forall gen, node_ db' gen h = (r <-! expandNode gen (Some h) c ;; Ok (Some r)).
Proof.
  intros HP Ha Hp Hfl. destruct (db_insert_spec h (blobOf c) (Collapsed c) db Hfl) as (db' & Hi & Hd & Hfl' & Hc).
  exists db'. destruct (contents db !! h) as [o|] eqn:Eo.
  - split_and!; try done; [by eapply agrees_same|by apply db_le_same|by apply grown_same|by apply contents_is_Some; rewrite Hc, Eo|].
    intros gen. rewrite node_contents, Hc, Eo. f_equal. by apply (Ha h c gen Hp).
  - assert (forall gen, node_ db' gen h = (r <-! expandNode gen (Some h) c ;; Ok (Some r))) as Hn.
    { intros gen. by rewrite node_contents, Hc, lookup_insert_eq. }
    split_and!; try done.
    + intros h' c' gen Hp'. rewrite Hc, Hd. destruct (decide (h' = h)) as [->|Hne].
      * rewrite lookup_insert_eq. split; [|by apply Ha]. intros o [= <-]. simpl. by apply HP.
      * rewrite lookup_insert_ne by done. by apply Ha.
    + intros gen h' n. simpl. destruct (decide (h' = h)) as [->|Hne].
      * rewrite Hn, node_contents, Eo. destruct (diskdb db !! h) as [b|] eqn:Eb; [|done].
        rewrite (proj2 (Ha h c gen Hp) b Eb). intros E. by exists n.
      * rewrite !node_contents, Hc, Hd, lookup_insert_ne by done. intros E. by exists n.
    + constructor; rewrite Hc; [by apply insert_subseteq|]. intros h' o Ho. apply lookup_insert_Some in Ho as [[<- <-]|[_ Ho]]; [right; eauto|by left].
    + apply contents_is_Some. by rewrite Hc, lookup_insert_eq.
Qed.
