(* ===== verification/TrieHasherTheorems.v ===== *)
(** * TrieHasherTheorems: the hasher computes the reference and stores the tree

    [hash_ok]: on a trie whose flags may be relied on, the walk returns the reference
    hash of the tree the trie stands for, whatever part of it is loaded or cached;
    with a database, the tree can be read back from that hash. *)
From S2P Require Import Prelude Bytes TrieEncoding Rlp Trie TrieTheorems TrieNode.
From S2P Require Import TrieDatabase TrieHasher TrieCache TrieStore.
Local Open Scope Z_scope.
Local Open Scope zv_scope.

(** ** Trees *)

Definition lastTree (t : node) : Prop := t = nilNode \/ exists v, v <> [] /\ t = valueNode v.

Inductive treeOk : node -> Prop :=
| treeOk_leaf k v : termKey k -> v <> [] -> treeOk (shortNode k (valueNode v) noFlag)
| treeOk_extension k ts : path k -> treeOk (fullNode ts noFlag) -> treeOk (shortNode k (fullNode ts noFlag) noFlag)
| treeOk_full ts last :
    length ts = 16%nat -> Forall (fun t => t = nilNode \/ treeOk t) ts -> lastTree last ->
    treeOk (fullNode (ts ++ [last]) noFlag).

Lemma treeOk_isNode t : treeOk t -> isNode t.
Proof. by destruct 1. Qed.

(** The children of a branch, from the [i]th on. *)
Fixpoint slots (i : nat) (ts : list node) : Prop :=
  match ts with
  | [] => True
  | t :: ts' => (if (i =? 16)%nat then lastTree t else t = nilNode \/ treeOk t) /\ slots (S i) ts'
  end.

Lemma slots_branch i ts last :
  (i + length ts = 16)%nat -> Forall (fun t => t = nilNode \/ treeOk t) ts -> lastTree last -> slots i (ts ++ [last]).
Proof.
  revert i. induction ts as [|t ts IH]; intros i Hl Hts Hlast; simpl in *.
  - by rewrite (proj2 (Nat.eqb_eq _ _)) by lia.
  - apply Forall_cons in Hts as [Ht Hts]. rewrite (proj2 (Nat.eqb_neq _ _)) by lia. split; [done|]. apply IH; [lia|done|done].
Qed.

Section hasher.
(** [forced] are the nodes that are stored whatever their size. *)
Context `{NodeHash} (hs : hasher) (P : Hash -> rawNode -> Prop) (forced : node -> Prop).
Local Abbreviation gen := (h_cachegen hs).
Local Abbreviation env db := (envOf db gen).

(** Every node of the tree belongs under its hash. *)
Fixpoint covered (t : node) : Prop :=
  match t with
  | shortNode _ v _ => P (nodeHash t) (collapse t) /\ covered v
  | fullNode cs _ => P (nodeHash t) (collapse t) /\ fold_right (fun c Q => covered c /\ Q) True cs
  | _ => True
  end.

Lemma covered_all cs : fold_right (fun c Q => covered c /\ Q) True cs <-> Forall covered cs.
Proof. induction cs as [|c cs IH]; simpl; [by split|]. by rewrite Forall_cons, IH. Qed.

Lemma covered_node t : isNode t -> covered t -> P (nodeHash t) (collapse t).
Proof. destruct t; try done; by intros _ [? _]. Qed.

(** What the parent of [t] gets, and the parent of nothing. *)
Definition ref (force : bool) (t : node) : rawNode := if force then rawHash (nodeHash t) else shorten (collapse t).

Lemma shorten_long t : isNode t -> long t -> shorten (collapse t) = rawHash (nodeHash t).
Proof.
  unfold long. intros Hi Hl. destruct t; try done; simpl in *; by rewrite (proj2 (Z.ltb_ge _ _)) by lia.
Qed.
Lemma shorten_short t : isNode t -> ~ long t -> shorten (collapse t) = collapse t.
Proof.
  unfold long. intros Hi Hl. destruct t; try done; simpl in *; by rewrite (proj2 (Z.ltb_lt _ _)) by lia.
Qed.

Lemma long_dec t : long t \/ ~ long t.
Proof. unfold long. lia. Qed.

Lemma ref_hash force t : isNode t -> force = true \/ long t -> ref force t = rawHash (nodeHash t).
Proof. intros Hi [->|Hl]; [done|]. unfold ref. rewrite shorten_long by done. by destruct force. Qed.

(** ** What is stored reads back *)

Definition inline (n t : node) : Prop := (isNode n -> ~ long t) /\ packed n t.

(** A child, as its parent stores it. *)
Definition childGood (db : NodeDatabase) (t : node) : Prop :=
  exists n, expandChild gen (shorten (collapse t)) = Ok n /\ good (H := env db) false n t /\ inline n t.

Definition expands (db : NodeDatabase) (t : node) : Prop :=
  forall hash, exists n, expandNode gen hash (collapse t) = Ok n /\ isNode n /\ good (H := env db) false n t /\ packed n t.

Lemma childGood_grow db db' t : db_le db db' -> childGood db t -> childGood db' t.
Proof. intros Hle (n & He & Hg & Hi). exists n. split_and!; [done|by eapply good_grow; [apply Hle|]|apply Hi..]. Qed.

Lemma expands_grow db db' t : db_le db db' -> expands db t -> expands db' t.
Proof.
  intros Hle Hx hash. destruct (Hx hash) as (n & He & Hn & Hg & Hp). exists n.
  split_and!; [done|done|by eapply good_grow; [apply Hle|]|done].
Qed.

Lemma childGood_nil db : childGood db nilNode.
Proof. exists nilNode. split_and!; [done|constructor|]. split; [done|apply packed_leaf; by intros []]. Qed.

Lemma childGood_value db v : childGood db (valueNode v).
Proof. exists (valueNode v). split_and!; [done|constructor|]. split; [done|apply packed_leaf; by intros []]. Qed.

Lemma childGood_short db t : isNode t -> ~ long t -> expands db t -> childGood db t.
Proof.
  intros Hi Hl Hx. destruct (Hx None) as (n & He & Hn & Hg & Hp). exists n. rewrite shorten_short by done.
  split_and!; [by destruct t|done|]. by split.
Qed.

Lemma childGood_hash db t : isNode t -> long t -> good (H := env db) false (hashNode (nodeHash t)) t -> childGood db t.
Proof.
  intros Hi Hl Hg. exists (hashNode (nodeHash t)). rewrite shorten_long by done.
  split_and!; [done|done|]. split; [done|apply packed_leaf; by intros []].
Qed.

Lemma expands_short db k t :
  path k \/ termKey k -> childGood db t -> t <> nilNode -> expands db (shortNode k t noFlag).
Proof.
  intros Hk (n & He & Hg & Hl & Hp) Hne hash. exists (shortNode k n (loadedFlag gen hash)). simpl. rewrite compact_roundtrip by done.
  cbn [obind]. assert (expandNode gen None (shorten (collapse t)) = Ok n) as ->.
  { unfold expandChild in He. destruct (shorten (collapse t)) as [| | | |] eqn:E; try done.
    destruct t; simpl in E; try done; by destruct (_ <? 32). }
  split_and!; [done|done|by constructor|]. by apply packed_short.
Qed.

Lemma expands_full db ts : Forall (childGood db) ts -> expands db (fullNode ts noFlag).
Proof.
  intros Hts hash. simpl collapse. rewrite expandNode_full.
  assert (exists ns, expandChildren gen (map (fun c => shorten (collapse c)) ts) = Ok ns /\
            Forall2 (good (H := env db) false) ns ts /\ Forall2 inline ns ts) as (ns & -> & Hg & Hp).
  { induction Hts as [|t ts (n & He & Hg & Hp) _ (ns & Hes & Hgs & Hps)]; [by exists []|].
    exists (n :: ns). simpl. rewrite He, Hes. split_and!; [done|by constructor..]. }
  exists (fullNode ns (loadedFlag gen hash)). split_and!; [done|done|by constructor|by apply packed_full].
Qed.

(** ** Storing a node *)

(** The callback leaves the nodes as they are. *)
Definition leafLaw (f : LeafCallback) : Prop :=
  forall v h db, flushOk db -> is_Some (nodes db !! h) -> exists db', f v h db = Ok db' /\ sameContents db db'.

Hypothesis leaf_law : match h_onleaf hs with Some f => leafLaw f | None => True end.
Hypothesis P_functional : functional P.

Lemma onLeaves_ok f vs h db :
  leafLaw f -> flushOk db -> is_Some (nodes db !! h) -> exists db', onLeaves f vs h db = Ok db' /\ sameContents db db'.
Proof.
  intros Hf. revert db. induction vs as [|v vs IH]; intros db Hfl Hh; [by exists db|]. simpl.
  destruct (Hf v h db Hfl Hh) as (db1 & -> & Hd1 & Hc1 & Hfl1). cbn [obind].
  destruct (IH db1) as (db2 & -> & Hd2 & Hc2 & Hfl2); [done|by apply contents_is_Some; rewrite Hc1; apply contents_is_Some|].
  exists db2. split; [done|]. split_and!; [congruence|congruence|done].
Qed.

Definition dbOf (stored : bool) (db : NodeDatabase) : option NodeDatabase := if stored then Some db else None.

(** [db_insert] of a node with its callbacks. *)
Definition storing (t : node) (db : NodeDatabase) : outcome trieError NodeDatabase :=
  db1 <-! db_insert (nodeHash t) (blobOf (collapse t)) (Collapsed (collapse t)) db ;;
  match h_onleaf hs with Some f => onLeaves f (leaves (collapse t)) (nodeHash t) db1 | None => Ok db1 end.

Definition storeStep (db db' : NodeDatabase) : Prop :=
  exists t, isNode t /\ (forced t \/ long t) /\ P (nodeHash t) (collapse t) /\ expands db t /\ storing t db = Ok db'.

(** The database after a step. *)
Record kept (stored : bool) (db db' : NodeDatabase) : Prop := {
  kept_le : db_le db db';
  kept_flush : flushOk db';
  kept_agrees : agrees P db';
  kept_extends : extends P db db';
  kept_same : stored = false -> db' = db;
  kept_steps : rtc storeStep db db';
}.

Lemma kept_refl stored db : flushOk db -> agrees P db -> kept stored db db.
Proof. intros. constructor; try done; [apply db_le_refl|by apply grown_same]. Qed.

Lemma kept_trans stored db1 db2 db3 : kept stored db1 db2 -> kept stored db2 db3 -> kept stored db1 db3.
Proof.
  intros [? ? ? ? Hs ?] [? ? ? ? Hs' ?]. constructor; try done; [by eapply db_le_trans|by eapply grown_trans| |by etrans].
  intros Hf. by rewrite Hs', Hs.
Qed.

(** What the parent, or the caller, may rely on. *)
Definition storedGood (force : bool) (db : NodeDatabase) (t : node) : Prop :=
  (force = true \/ long t -> good (H := env db) force (hashNode (nodeHash t)) t) /\
  (force = false -> childGood db t).

Lemma storedGood_hash force db t :
  isNode t -> force = true \/ long t -> good (H := env db) force (hashNode (nodeHash t)) t -> storedGood force db t.
Proof.
  intros Hi Hl Hg. split; [done|]. intros ->. destruct Hl as [?|Hl]; [done|]. by apply childGood_hash.
Qed.

(** A node under its hash. *)
Lemma insert_node_ok force db t :
  isNode t -> force = true \/ long t -> (force = true -> forced t) -> P (nodeHash t) (collapse t) -> flushOk db -> agrees P db -> expands db t ->
  exists db', storing t db = Ok db' /\
    kept true db db' /\ good (H := env db') force (hashNode (nodeHash t)) t.
Proof.
  intros Hi Hl Hq Hp Hfl Ha Hx. assert (forall db', storing t db = Ok db' -> storeStep db db') as Hstep.
  { intros db' E. exists t. split_and!; [done| |done|done|done]. destruct Hl; auto. }
  unfold storing in *. destruct (db_insert_ok P (nodeHash t) (collapse t) db P_functional Ha Hp Hfl) as (db1 & E1 & Hfl1 & Ha1 & Hle1 & Hex & Hin & Hrd).
  rewrite E1 in Hstep |- *. cbn [obind] in Hstep |- *.
  assert (exists db', match h_onleaf hs with Some f => onLeaves f (leaves (collapse t)) (nodeHash t) db1 | None => Ok db1 end = Ok db' /\
            sameContents db1 db') as (db' & E & Hd & Hc & Hfl').
  { destruct (h_onleaf hs) as [f|]; [by apply onLeaves_ok|by exists db1]. }
  assert (db_le db db') as Hle by (by eapply db_le_trans; [|apply db_le_same]). exists db'. split; [done|]. split.
  - constructor; [done|done|by eapply agrees_same|by eapply grown_trans; [|apply grown_same]|done|apply rtc_once; by apply Hstep].
  - destruct (Hx (Some (nodeHash t))) as (n & He & Hn & Hg & Hpk).
    apply (good_hash force _ n); [|destruct force; [apply good_root|]; (eapply good_grow; [apply Hle|exact Hg])|done|done|done|done].
    simpl. rewrite node_contents, Hc, Hd, <- node_contents, Hrd, He. done.
Qed.

Lemma store_ok stored force cached db t :
  isNode t -> (stored = true -> covered t) -> (force = true -> forced t) -> flushOk db -> agrees P db -> (stored = true -> expands db t) ->
  (cached = None \/ cached = Some (nodeHash t)) ->
  exists db', store hs (collapse t) cached force (dbOf stored db) = Ok (ref force t, dbOf stored db') /\
    kept stored db db' /\ (stored = true -> storedGood force db' t).
Proof.
  intros Hi Hcov Hq Hfl Ha Hx Hch.
  assert (store hs (collapse t) cached force (dbOf stored db) =
    (if (len (blobOf (collapse t)) <? 32) && negb force then Ok (collapse t, dbOf stored db)
     else match dbOf stored db with
          | None => Ok (rawHash (nodeHash t), None)
          | Some db0 =>
              db2 <-! storing t db0 ;;
              Ok (rawHash (nodeHash t), Some db2)
          end)) as ->.
  { assert (match cached with Some hash => hash | None => makeHashNode (blobOf (collapse t)) end = nodeHash t) as E
      by (by destruct Hch as [-> | ->]).
    destruct t; try done; unfold store; cbn [collapse]; cbv zeta; rewrite <- E; destruct (_ && _); try done;
      (destruct (dbOf stored db) as [db0|]; [|done]); simpl in E |- *; unfold storing; rewrite E; by destruct (db_insert _ _ _ _). }
  assert (((len (blobOf (collapse t)) <? 32) && negb force = true /\ force = false /\ ~ long t) \/
          ((len (blobOf (collapse t)) <? 32) && negb force = false /\ (force = true \/ long t))) as [(-> & -> & Hnl)|[-> Hl]].
  { unfold long. destruct force, (Z.ltb_spec (len (blobOf (collapse t))) 32); simpl; [right; split; [done|by left]..| |].
    - left. split_and!; [done|done|lia].
    - right. split; [done|by right]. }
  - exists db. unfold ref. rewrite shorten_short by done. split; [done|]. split; [by apply kept_refl|].
    intros Hs. split; [by intros [?|?]|]. intros _. by apply childGood_short, Hx.
  - rewrite ref_hash by done. destruct stored; simpl; [|exists db; split; [done|]; split; [by apply kept_refl|done]].
    destruct (insert_node_ok _ db t Hi Hl Hq (covered_node t Hi (Hcov eq_refl)) Hfl Ha (Hx eq_refl)) as (db' & -> & Hk & Hg).
    exists db'. split; [done|]. split; [done|]. intros _. by apply storedGood_hash.
Qed.

(** ** The walk *)

(** The outcome of hashing a node that stands for [t]. *)
Definition hashes (stored force : bool) (db : NodeDatabase) (t : node)
    (r : outcome trieError (rawNode * node * option NodeDatabase)) : Prop :=
  exists n' db', r = Ok (ref force t, n', dbOf stored db') /\ kept stored db db' /\
    flagged (H := env db') force n' t /\ (stored = true -> storedGood force db' t).

Lemma flagOk_cached db force fl t : flagOk (H := env db) force fl t -> nf_hash fl = None \/ nf_hash fl = Some (nodeHash t).
Proof. unfold flagOk. destruct (nf_hash fl) as [h|]; [|by left]. intros [-> _]. by right. Qed.

Lemma hashedFlag_ok stored force fl db db' t :
  isNode t -> flagOk (H := env db) force fl t -> kept stored db db' -> (stored = true -> storedGood force db' t) ->
  flagOk (H := env db') force (hashedFlag (ref force t) stored fl) t.
Proof.
  intros Hi Hfl Hk Hst. assert ((force = true \/ long t) \/ (force = false /\ ~ long t)) as [Hl|[-> Hnl]].
  { destruct force; [left; by left|]. destruct (long_dec t); [left; by right|by right]. }
  - rewrite ref_hash by done. unfold flagOk. simpl. split_and!; [done|done|]. destruct stored.
    + intros _. by apply Hst.
    + rewrite (kept_same _ _ _ Hk eq_refl). unfold flagOk in Hfl. intros Hd. destruct (nf_hash fl) as [h|].
      * destruct Hfl as (-> & _ & Hg). by apply Hg.
      * destruct Hfl as [?|[-> Hnl]]; [congruence|]. by destruct Hl.
  - unfold ref. rewrite shorten_short by done. unfold flagOk. replace (nf_hash _) with (@None Hash) by (by destruct t).
    right. done.
Qed.

(** A cached hash ends the walk. *)
Lemma hash_cached stored force db n fl t walk :
  cache n = (nf_hash fl, nf_dirty fl) ->
  (canUnload n (h_cachegen hs) (h_cachelimit hs) = true -> nf_dirty fl = false) ->
  isNode t -> flagged (H := env db) force n t -> flagOk (H := env db) force fl t -> flushOk db -> agrees P db ->
  hashes stored force db t walk ->
  hashes stored force db t
    match cache n with
    | (Some hh, dirty) =>
        if negb (isStored (dbOf stored db)) then Ok (rawHash hh, n, dbOf stored db)
        else if canUnload n (h_cachegen hs) (h_cachelimit hs) then Ok (rawHash hh, hashNode hh, dbOf stored db)
        else if negb dirty then Ok (rawHash hh, n, dbOf stored db)
        else walk
    | (None, _) => walk
    end.
Proof.
  intros -> Hun Hi Hf Hfl Hfo Ha Hw. destruct (nf_hash fl) as [h|] eqn:Eh; [|done].
  pose proof Hfl as Hfl0. unfold flagOk in Hfl. rewrite Eh in Hfl. destruct Hfl as (-> & Hl & Hg).
  assert (forall n', flagged (H := env db) force n' t -> nf_dirty fl = false \/ stored = false ->
            hashes stored force db t (Ok (rawHash (nodeHash t), n', dbOf stored db))) as Hdone.
  { intros n' Hn' Hd. exists n', db. rewrite ref_hash by done. split_and!; [done|by apply kept_refl|done|].
    intros ->. destruct Hd as [Hd|?]; [|done]. by apply storedGood_hash, Hg. }
  destruct stored; simpl; [|by apply Hdone; [|right]]. destruct (canUnload _ _ _).
  - apply Hdone; [|left; by apply Hun]. constructor. by apply Hg, Hun.
  - destruct (nf_dirty fl) eqn:Ed; simpl; [done|]. apply Hdone; [done|by left].
Qed.

Lemma flagged_nil_inv db r n : flagged (H := env db) r n nilNode -> n = nilNode.
Proof.
  inversion 1 as [| | | |? ? ? Hg]; subst; [done|]. inversion Hg as [| | | |? ? n' ? _ Hg' Hi]; subst. by inversion Hg'; subst.
Qed.
Lemma flagged_value_inv db r n v : flagged (H := env db) r n (valueNode v) -> n = valueNode v.
Proof.
  inversion 1 as [| | | |? ? ? Hg]; subst; [done|]. inversion Hg as [| | | |? ? n' ? _ Hg' Hi]; subst. by inversion Hg'; subst.
Qed.

Definition hashOk (n : node) : Prop :=
  forall stored force t db,
  flagged (H := env db) force n t -> treeOk t -> (stored = true -> covered t) -> (force = true -> forced t) -> flushOk db -> agrees P db ->
  hashes stored force db t (hash hs n force (dbOf stored db)).

Lemma flagged_grow_all db db' cs ts :
  db_le db db' -> Forall2 (flagged (H := env db) false) cs ts -> Forall2 (flagged (H := env db') false) cs ts.
Proof. intros Hle Hcs. eapply Forall2_impl; [exact Hcs|]. intros c t. apply flagged_grow, Hle. Qed.

(** One child of a branch. *)
Lemma hashChild_ok stored i c t db :
  hashOk c -> flagged (H := env db) false c t -> (if (i =? 16)%nat then lastTree t else t = nilNode \/ treeOk t) ->
  (stored = true -> covered t) -> flushOk db -> agrees P db ->
  exists c' db',
    (if (i =? 16)%nat then Ok (simplifyNode c, c, dbOf stored db)
     else match c with nilNode => Ok (rawNil, nilNode, dbOf stored db) | _ => hash hs c false (dbOf stored db) end) =
      Ok (shorten (collapse t), c', dbOf stored db') /\
    kept stored db db' /\ flagged (H := env db') false c' t /\ (stored = true -> childGood db' t).
Proof.
  intros Hc Hf Ht Hcov Hfl Ha. destruct (i =? 16)%nat.
  { exists c, db. destruct Ht as [->|(v & Hv & ->)].
    - pose proof (flagged_nil_inv _ _ _ Hf) as ->. split_and!; [done|by apply kept_refl|done|]. intros _. apply childGood_nil.
    - pose proof (flagged_value_inv _ _ _ _ Hf) as ->. split_and!; [done|by apply kept_refl|done|]. intros _. apply childGood_value. }
  destruct Ht as [->|Ht].
  - pose proof (flagged_nil_inv _ _ _ Hf) as ->. exists nilNode, db. split_and!; [done|by apply kept_refl|done|].
    intros _. apply childGood_nil.
  - destruct (Hc stored false t db Hf Ht Hcov ltac:(done) Hfl Ha) as (c' & db' & Hh & Hk & Hf' & Hst). exists c', db'.
    split_and!; [|done|done|intros Hs; by apply Hst]. destruct c; try exact Hh. inversion Hf; subst. inversion Ht.
Qed.

Lemma hashChildren_ok stored i cs ts db :
  Forall hashOk cs -> Forall2 (flagged (H := env db) false) cs ts -> slots i ts -> (stored = true -> Forall covered ts) ->
  flushOk db -> agrees P db ->
  exists cs' db',
    hashChildren (hash hs) i cs (dbOf stored db) = Ok (map (fun t => shorten (collapse t)) ts, cs', dbOf stored db') /\
    kept stored db db' /\ Forall2 (flagged (H := env db') false) cs' ts /\ (stored = true -> Forall (childGood db') ts).
Proof.
  intros Hcs. revert i ts db. induction Hcs as [|c cs Hc _ IH]; intros i ts db Hf Hs Hcov Hfl Ha; inversion Hf as [|? t ? ts' Hft Hfts]; subst.
  { exists [], db. split_and!; [done|by apply kept_refl|constructor|constructor]. }
  destruct Hs as [Ht Hs]. assert (stored = true -> covered t) as Hct by (intros Hs0; by apply Hcov, Forall_cons in Hs0 as [? _]).
  assert (stored = true -> Forall covered ts') as Hcov' by (intros Hs0; by apply Hcov, Forall_cons in Hs0 as [_ ?]).
  destruct (hashChild_ok stored i c t db Hc Hft Ht Hct Hfl Ha) as (c' & db1 & Hh & Hk & Hf' & Hst).
  destruct (IH (S i) ts' db1) as (cs' & db2 & Hhs & Hk2 & Hfs & Hsts); [by eapply flagged_grow_all; [apply Hk|]|done|done|apply Hk|apply Hk|].
  exists (c' :: cs'), db2. cbn [hashChildren]. rewrite Hh. cbn [obind]. rewrite Hhs. cbn [obind].
  split_and!; [done|by eapply kept_trans|constructor; [by eapply flagged_grow; [apply Hk2|]|done]|].
  intros Hs'. constructor; [|by apply Hsts]. eapply childGood_grow; [apply Hk2|by apply Hst].
Qed.

Lemma slots_of ts : treeOk (fullNode ts noFlag) -> slots 0 ts.
Proof. inversion 1; subst. by apply slots_branch. Qed.

Lemma hash_short_ok k c fl : hashOk c -> hashOk (shortNode k c fl).
Proof.
  intros IH stored force t db Hf Ht Hcov Hq Hfo Ha. inversion Hf as [| |? ? ? ? tc Hc Hfl| |]; subst. cbn [hash].
  apply (hash_cached stored force db (shortNode k c fl) fl); try done.
  { simpl. by destruct (nf_dirty fl). }
  assert (exists c' db1,
    match c with valueNode b => Ok (rawValue b, c, dbOf stored db) | _ => hash hs c false (dbOf stored db) end =
      Ok (shorten (collapse tc), c', dbOf stored db1) /\
    kept stored db db1 /\ flagged (H := env db1) false c' tc /\ (stored = true -> expands db1 (shortNode k tc noFlag)))
    as (c' & db1 & -> & Hk & Hf' & Hx).
  { inversion Ht as [? v Htk Hv|? ts Hp Htc|]; subst.
    - pose proof (flagged_value_inv _ _ _ _ Hc) as ->. exists (valueNode v), db.
      split_and!; [done|by apply kept_refl|done|]. intros _. apply expands_short; [by right|apply childGood_value|done].
    - assert (stored = true -> covered (fullNode ts noFlag)) as Hcov' by (intros Hs0; by destruct (Hcov Hs0) as [_ ?]).
      destruct (IH stored false _ db Hc Htc Hcov' ltac:(done) Hfo Ha) as (c' & db1 & Hh & Hk & Hf' & Hst).
      exists c', db1. split_and!; [|done|done|intros Hs; apply expands_short; [by left|by apply Hst|done]].
      destruct c; try exact Hh. inversion Hc. }
  cbn [obind]. destruct (store_ok stored force (nf_hash fl) db1 (shortNode k tc noFlag)) as (db2 & Hst & Hk2 & Hsg);
    [done|done|done|apply Hk|apply Hk|done|by eapply flagOk_cached|].
  simpl collapse in Hst. rewrite Hst. cbn [obind fst snd]. eexists _, db2. split; [done|]. pose proof (kept_trans _ _ _ _ Hk Hk2) as Hk3.
  split_and!; [done| |done]. constructor; [by eapply flagged_grow; [apply Hk2|]|].
  replace (isStored (dbOf stored db)) with stored by (by destruct stored). by eapply hashedFlag_ok.
Qed.

Lemma hash_full_ok cs fl : Forall hashOk cs -> hashOk (fullNode cs fl).
Proof.
  intros IH stored force t db Hf Ht Hcov Hq Hfo Ha. inversion Hf as [| | |? ? ? ts Hcs Hfl|]; subst. cbn [hash].
  apply (hash_cached stored force db (fullNode cs fl) fl); try done.
  { simpl. by destruct (nf_dirty fl). }
  assert (stored = true -> Forall covered ts) as Hcovs by (intros Hs0; destruct (Hcov Hs0) as [_ Hc]; by apply covered_all).
  destruct (hashChildren_ok stored 0 cs ts db IH Hcs (slots_of ts Ht) Hcovs Hfo Ha) as (cs' & db1 & -> & Hk & Hf' & Hx).
  cbn [obind]. destruct (store_ok stored force (nf_hash fl) db1 (fullNode ts noFlag)) as (db2 & Hst & Hk2 & Hsg);
    [done|done|done|apply Hk|apply Hk|intros Hs; by apply expands_full, Hx|by eapply flagOk_cached|].
  simpl collapse in Hst. rewrite Hst. cbn [obind fst snd]. eexists _, db2. split; [done|]. pose proof (kept_trans _ _ _ _ Hk Hk2) as Hk3.
  split_and!; [done| |done]. constructor; [by eapply flagged_grow_all; [apply Hk2|]|].
  replace (isStored (dbOf stored db)) with stored by (by destruct stored). by eapply hashedFlag_ok.
Qed.

Lemma hash_ok n : hashOk n.
Proof.
  induction n as [|v|k c fl IH|cs fl IH|h] using node_ind'.
  - intros stored force t db Hf Ht. inversion Hf; subst. inversion Ht.
  - intros stored force t db Hf Ht. inversion Hf; subst. inversion Ht.
  - by apply hash_short_ok.
  - by apply hash_full_ok.
  - intros stored force t db Hf Ht Hcov Hq Hfo Ha. inversion Hf as [| | | |? ? ? Hg]; subst.
    inversion Hg as [| | | |? ? n ? Hr Hn Hi Hp E Hl]; subst. pose proof (treeOk_isNode t Ht) as Hit.
    exists (hashNode (nodeHash t)), db. rewrite ref_hash by done. split_and!; [done|by apply kept_refl|done|].
    intros _. by apply storedGood_hash.
Qed.

End hasher.
