(* ===== verification/TrieTrees.v ===== *)
(** * TrieTrees: the tree of a map

    The tree a trie loads to is well shaped ([treeOk]), is the same in any database,
    has encodings of a size the headers can hold when keys and values are of a
    reasonable size ([fits]), and is determined by the hash of its root when no two
    of its nodes collide ([tree_inj]). *)
From S2P Require Import Prelude Bytes TrieEncoding Rlp Trie TrieTheorems TrieNode.
From S2P Require Import TrieDatabase TrieHasher TrieCache TrieStore TrieHasherTheorems.
Local Open Scope Z_scope.
Local Open Scope zv_scope.

(** ** From a partly loaded trie to its tree *)

Section load.
Context (E : TrieEnv).

Lemma loads_branch_inv c cs t :
  isBranch (H := E) c cs -> loads (H := E) c t -> exists ts, t = fullNode ts noFlag /\ Forall2 (loads (H := E)) cs ts.
Proof.
  intros [(fl & ->)|(h & fl & -> & Hr)] Hl.
  - inversion Hl; subst. eauto.
  - inversion Hl as [| | | |? n ? Hr' Hl']; subst. rewrite Hr in Hr'. injection Hr' as <-. inversion Hl'; subst. eauto.
Qed.

Lemma child_tree d c m t :
  childOk (H := E) (okNode (H := E) d) c m -> loads (H := E) c t ->
  (t = nilNode /\ forall j, m j = None) \/ exists n, okNode (H := E) d n m /\ loads (H := E) n t.
Proof.
  intros [[-> Hn]|[Hok|(h & n & -> & Hr & Hok)]] Hl.
  - left. by inversion Hl.
  - right. eauto.
  - right. inversion Hl as [| | | |? n' ? Hr' Hl']; subst. rewrite Hr in Hr'. injection Hr' as <-. eauto.
Qed.

Lemma branch_slot d cs m ts i t :
  branchOk (H := E) (okNode (H := E) d) cs m -> Forall2 (loads (H := E)) cs ts -> ts !! i = Some t ->
  index (Z.of_nat i) /\ exists c, cs !! Z.to_nat (Z.of_nat i) = Some c /\ loads (H := E) c t /\
    slotOk (H := E) (okNode (H := E) d) (Z.of_nat i) c (below m [Z.of_nat i]).
Proof.
  intros (Hlen & _ & _ & Hs) Hcs Ht. destruct (Forall2_lookup_r _ _ _ _ _ Hcs Ht) as (c & Hc & Hl).
  pose proof (lookup_lt_Some _ _ _ Hc) as Hlt. rewrite Hlen in Hlt.
  assert (index (Z.of_nat i)) as Hx by (unfold index; lia). split; [done|]. exists c. rewrite Nat2Z.id.
  split_and!; [done|done|]. apply Hs; [done|by rewrite Nat2Z.id].
Qed.

Lemma value_tree c m t :
  valueOk c m -> loads (H := E) c t -> (t = nilNode /\ forall j, m j = None) \/ exists v, t = valueNode v /\ only [] v m.
Proof.
  intros [[-> Hn]|(v & -> & Ho)] Hl; inversion Hl; subst; [by left|right; eauto].
Qed.

Lemma split_last (ts : list node) : length ts = 17%nat -> exists ts' t, ts = ts' ++ [t] /\ length ts' = 16%nat.
Proof.
  intros Hl. destruct ts as [|t ts _] using rev_ind; [done|]. rewrite length_app in Hl. simpl in Hl. exists ts, t. split; [done|lia].
Qed.

Lemma treeOk_of d n m t : okNode (H := E) d n m -> loads (H := E) n t -> treeOk t.
Proof.
  revert n m t. induction d as [|d IH]; intros n m t Hok Hl; [done|]. destruct n as [| |k c fl|cs fl|]; try done.
  - inversion Hl as [| |? ? ? tc Hlc| |]; subst. destruct Hok as [[Hk (v & -> & [Hv _])]|(Hp & Hne & Hout & cs & Hb & Hok)].
    + inversion Hlc; subst. by constructor.
    + destruct (loads_branch_inv _ _ _ Hb Hlc) as (ts & -> & Hts). constructor; [done|].
      eapply IH; [exact Hok|]. by constructor.
  - inversion Hl as [| | |? ? ts Hcs|]; subst. destruct Hok as [Hb _]. pose proof Hb as (Hlen & _).
    pose proof (Forall2_length _ _ _ Hcs) as Hl2. destruct (split_last ts ltac:(congruence)) as (ts' & t & -> & Hl16).
    constructor; [done| |].
    + apply Forall_lookup. intros i ti Hti. pose proof (lookup_lt_Some _ _ _ Hti) as Hlt.
      destruct (branch_slot _ _ _ _ i ti Hb Hcs) as (_ & c & _ & Hlc & Hs); [by apply lookup_app_l_Some|].
      unfold slotOk in Hs. rewrite decide_False in Hs by lia.
      destruct (child_tree _ _ _ _ Hs Hlc) as [[-> _]|(n0 & Hok & Hln)]; [by left|right; by eapply IH].
    + destruct (branch_slot _ _ _ _ 16 t Hb Hcs) as (_ & c & _ & Hlc & Hs); [rewrite <- Hl16; apply list_lookup_middle; done|].
      unfold slotOk in Hs. rewrite decide_True in Hs by done.
      destruct (value_tree _ _ _ Hs Hlc) as [[-> _]|(v & -> & [Hv _])]; [by left|right; by exists v].
Qed.

(** The tree, loaded throughout, stands for the same map in any database. *)
Lemma okNode_loaded E' d n m t : okNode (H := E) d n m -> loads (H := E) n t -> okNode (H := E') d t m.
Proof.
  revert n m t. induction d as [|d IH]; intros n m t Hok Hl; [done|]. destruct n as [| |k c fl|cs fl|]; try done.
  - inversion Hl as [| |? ? ? tc Hlc| |]; subst. destruct Hok as [[Hk (v & -> & Ho)]|(Hp & Hne & Hout & cs & Hb & Hok)].
    + inversion Hlc; subst. left. split; [done|]. by exists v.
    + destruct (loads_branch_inv _ _ _ Hb Hlc) as (ts & -> & Hts). right. split_and!; try done. exists ts.
      split; [left; by eexists|]. eapply IH; [exact Hok|]. by constructor.
  - inversion Hl as [| | |? ? ts Hcs|]; subst. destruct Hok as [Hb Htwo]. pose proof Hb as (Hlen & Hnil & Hout & _).
    pose proof (Forall2_length _ _ _ Hcs) as Hl2. split.
    + split_and!; [congruence|done|done|]. intros x t Hx Ht.
      destruct (branch_slot _ _ _ _ (Z.to_nat x) t Hb Hcs Ht) as (_ & c & _ & Hlc & Hs).
      rewrite Z2Nat.id in Hs by (unfold index in Hx; lia). unfold slotOk in *. destruct (decide (x = 16)).
      * destruct (value_tree _ _ _ Hs Hlc) as [[-> Hn]|(v & -> & Ho)]; [by left|right; by exists v].
      * destruct (child_tree _ _ _ _ Hs Hlc) as [[-> Hn]|(n0 & Hok & Hln)]; [by left|]. right. left. by eapply IH.
    + destruct Htwo as (x & y & cx & cy & Hx & Hy & Hne & Hcx & Hcy & Hnx & Hny).
      destruct (Forall2_lookup_l _ _ _ _ _ Hcs Hcx) as (tx & Htx & Hlx). destruct (Forall2_lookup_l _ _ _ _ _ Hcs Hcy) as (ty & Hty & Hly).
      assert (forall i c t, index i -> cs !! Z.to_nat i = Some c -> c <> nilNode -> ts !! Z.to_nat i = Some t -> loads (H := E) c t -> t <> nilNode) as Hnn.
      { intros i c t Hi Hc Hn Ht Hlc ->. destruct (branch_slot _ _ _ _ _ _ Hb Hcs Ht) as (_ & c' & Hc' & Hlc' & Hs).
        rewrite Z2Nat.id in * by (unfold index in Hi; lia). rewrite Hc in Hc'. injection Hc' as <-.
        destruct (slot_inhabited _ _ _ _ Hs Hn) as (j & v & Hj). unfold slotOk in Hs. destruct (decide (i = 16)).
        - destruct (value_tree _ _ _ Hs Hlc) as [[_ Hno]|(v' & ? & _)]; [by rewrite Hno in Hj|done].
        - destruct (child_tree _ _ _ _ Hs Hlc) as [[_ Hno]|(n0 & Hok & Hln)]; [by rewrite Hno in Hj|].
          apply (treeOk_of _ _ _ _ Hok) in Hln. inversion Hln. }
      exists x, y, tx, ty. split_and!; try done; [by eapply (Hnn x cx)|by eapply (Hnn y cy)].
Qed.

End load.

Lemma loads_tree E t t' : treeOk t -> loads (H := E) t t' -> t' = t.
Proof.
  revert t'. induction t as [|v|k c fl IH|cs fl IH|h] using node_ind'; intros t' Ht Hl; try by inversion Ht.
  - inversion Hl as [| |? ? ? tc Hlc| |]; subst. inversion Ht as [? v ? ?|? ts ? Htc|]; subst.
    + by inversion Hlc; subst.
    + by rewrite (IH tc Htc Hlc).
  - inversion Ht as [| |ts last Hlen Hts Hlast E0]; subst. inversion Hl as [| | |? ? ts' Hcs|]; subst. f_equal.
    assert (Forall (fun t => forall t', loads (H := E) t t' -> t' = t) (ts ++ [last])) as Hall.
    { apply Forall_app in IH as [IH _]. apply Forall_app. split.
      - rewrite Forall_forall in IH, Hts |- *. intros t Hin t' Hlt. destruct (Hts t Hin) as [->|Ht']; [by inversion Hlt|]. by apply IH.
      - apply Forall_singleton. intros t' Hlt. destruct Hlast as [->|(v & _ & ->)]; by inversion Hlt. }
    clear -Hall Hcs. induction Hcs as [|c t cs ts0 Hc _ IHcs]; [done|]. apply Forall_cons in Hall as [Hc' Hall].
    f_equal; [by apply Hc'|by apply IHcs].
Qed.

(** One map, one tree, whatever the databases. *)
Lemma tree_unique E E' d d' n n' m t t' :
  okNode (H := E) d n m -> loads (H := E) n t -> okNode (H := E') d' n' m -> loads (H := E') n' t' -> t = t'.
Proof.
  intros Hok Hl Hok' Hl'. pose proof (treeOk_of E _ _ _ _ Hok Hl) as Ht. pose proof (treeOk_of E' _ _ _ _ Hok' Hl') as Ht'.
  pose proof (okNode_loaded E E _ _ _ _ Hok Hl) as H1. pose proof (okNode_loaded E' E _ _ _ _ Hok' Hl') as H2.
  destruct (okNode_unique _ _ _ _ _ H1 H2) as (x & Hx & Hx').
  by rewrite <- (loads_tree E t x Ht Hx), (loads_tree E t' x Ht' Hx').
Qed.

(** ** The nodes of a tree *)

Inductive subtree (s : node) : node -> Prop :=
| subtree_here : isNode s -> subtree s s
| subtree_short k t fl : subtree s t -> subtree s (shortNode k t fl)
| subtree_full ts fl t : t ∈ ts -> subtree s t -> subtree s (fullNode ts fl).

Lemma subtree_isNode s t : subtree s t -> isNode s.
Proof. by induction 1. Qed.

Lemma treeOk_child ts last t : treeOk (fullNode (ts ++ [last]) noFlag) -> t ∈ ts -> t = nilNode \/ treeOk t.
Proof.
  inversion 1 as [| |ts' last' Hlen Hts Hlast E]; subst. apply app_inj_tail in E as [<- <-].
  rewrite Forall_forall in Hts. apply Hts.
Qed.

Lemma treeOk_subtree s t : treeOk t -> subtree s t -> treeOk s.
Proof.
  intros Ht Hs. induction Hs as [_|k t fl Hs IH|ts fl t Hin Hs IH]; [done| |].
  - inversion Ht; subst; [by inversion Hs|by apply IH].
  - inversion Ht as [| |ts' last Hlen Hts Hlast E]; subst. apply elem_of_app in Hin as [Hin|Hin].
    + destruct (treeOk_child ts' last t Ht Hin) as [->|Ht']; [by inversion Hs|by apply IH].
    + apply list_elem_of_singleton in Hin as ->. destruct Hlast as [->|(v & _ & ->)]; by inversion Hs.
Qed.

Section sizes.
Context `{NodeHash}.

Definition fits (t : node) : Prop := forall s, subtree s t -> small (encode (itemOf (collapse s))).

Lemma fits_short k t fl : fits (shortNode k t fl) -> fits t.
Proof. intros Hf s Hs. apply Hf. by constructor. Qed.
Lemma fits_full ts fl t : fits (fullNode ts fl) -> t ∈ ts -> fits t.
Proof. intros Hf Hin s Hs. apply Hf. by eapply subtree_full. Qed.
Lemma fits_here t : isNode t -> fits t -> small (encode (itemOf (collapse t))).
Proof. intros Hi Hf. by apply Hf, subtree_here. Qed.

Lemma blobOf_small t : isNode t -> fits t -> blobOf (collapse t) = encode (itemOf (collapse t)).
Proof. intros Hi Hf. by apply EncodeToBytes_encode, fits_here. Qed.

Lemma refOk_shorten t :
  (treeOk t -> fits t -> rawOk (collapse t)) -> treeOk t -> fits t -> refOk (shorten (collapse t)).
Proof.
  intros IH Ht Hf. pose proof (treeOk_isNode t Ht) as Hi. destruct (long_dec t) as [Hl|Hl].
  - rewrite shorten_long by done. constructor.
  - rewrite shorten_short by done. apply refOk_embedded; [by apply IH|]. rewrite <- blobOf_small by done. unfold long in Hl. lia.
Qed.

(** The reference collapses a tree into nodes that read back. *)
Lemma rawOk_collapse t : treeOk t -> fits t -> rawOk (collapse t).
Proof.
  induction t as [|v|k c fl IH|cs fl IH|h] using node_ind'; intros Ht Hf; try by inversion Ht.
  - inversion Ht as [? v Hk Hv|? ts Hp Htc|]; subst; [by constructor|].
    apply rawOk_extension; [done|simpl; by destruct (_ <? 32)|].
    apply (refOk_shorten (fullNode ts noFlag)); [done|done|by eapply fits_short].
  - inversion Ht as [| |ts last Hlen Hts Hlast E]; subst. simpl. rewrite map_app. constructor.
    + by rewrite length_map.
    + apply Forall_fmap. apply Forall_app in IH as [IH _]. rewrite Forall_forall in IH, Hts |- *. intros t Hin.
      destruct (Hts t Hin) as [->|Ht']; [constructor|]. apply refOk_shorten; [by apply IH|done|].
      eapply fits_full; [done|]. apply elem_of_app. by left.
    + destruct Hlast as [->|(v & Hv & ->)]; by constructor.
Qed.

(** ** Sizes *)

Lemma len_encodeStringHeader n : len (encodeStringHeader n) <= 9.
Proof.
  unfold encodeStringHeader. destruct (n <? 56); [done|]. unfold len, putint. simpl. rewrite BigEndian.put_length.
  unfold putintSize. repeat (destruct (_ <? _); [lia|]). lia.
Qed.

Lemma len_puthead s t n : len (puthead s t n) <= 9.
Proof.
  unfold puthead. destruct (n <? 56); [done|]. unfold len, putint. simpl. rewrite BigEndian.put_length.
  unfold putintSize. repeat (destruct (_ <? _); [lia|]). lia.
Qed.

Lemma len_Str b : len (encode (Str b)) <= len b + 9.
Proof.
  rewrite encode_parts, len_app. unfold headerOf. case_decide; simpl; [unfold len; simpl; lia|].
  pose proof (len_encodeStringHeader (len b)). lia.
Qed.

Lemma len_Lst l : len (encode (Lst l)) <= len (encodeAll l) + 9.
Proof. rewrite encode_Lst, len_app. pose proof (len_puthead 192 247 (len (encodeAll l))). lia. Qed.

Lemma len_hexToCompact k : len (hexToCompact k) <= Z.of_nat (length k) + 1.
Proof.
  assert (forall l, len (decodeNibbles l) <= Z.of_nat (length l)) as Hd.
  { unfold len. intros l. enough (length (decodeNibbles l) <= length l)%nat by lia.
    remember (length l) as n eqn:Hn. revert l Hn. induction n as [n IH] using lt_wf_ind. intros [|x [|y l]] ->; simpl; [lia|lia|].
    pose proof (IH (length l) ltac:(simpl; lia) l eq_refl). lia. }
  unfold hexToCompact. set (h := if hasTerm k then take (length k - 1) k else k).
  assert (Z.of_nat (length h) <= Z.of_nat (length k)) as Hh by (unfold h; destruct (hasTerm k); rewrite ?length_take; lia).
  cbv zeta. destruct (Nat.odd (length h)).
  - destruct h as [|x h]; [unfold len; simpl; lia|]. specialize (Hd h). unfold len in *. simpl in *. lia.
  - specialize (Hd h). unfold len in *. simpl. lia.
Qed.

Lemma len_ref t : t = nilNode \/ (isNode t /\ fits t) -> len (encode (itemOf (shorten (collapse t)))) <= 41.
Proof.
  intros [->|[Hi Hf]]; [done|]. destruct (long_dec t) as [Hl|Hl].
  - rewrite shorten_long by done. simpl itemOf. pose proof (len_Str (b32_bytes (nodeHash t))) as Hs.
    unfold len at 2 in Hs. rewrite b32_length in Hs. lia.
  - rewrite shorten_short by done. rewrite <- blobOf_small by done. unfold long in Hl. lia.
Qed.

Lemma len_refs ts :
  Forall (fun t => t = nilNode \/ (isNode t /\ fits t)) ts ->
  len (encodeAll (map itemOf (map (fun t => shorten (collapse t)) ts))) <= 41 * Z.of_nat (length ts).
Proof.
  induction 1 as [|t ts Ht _ IH]; [done|]. cbn [map]. rewrite encodeAll_cons, len_app. pose proof (len_ref t Ht). simpl length. lia.
Qed.

(** Keys and values of a reasonable size. *)
Definition sized (m : content) : Prop := forall j v, m j = Some v -> Z.of_nat (length j) <= 2 ^ 40 /\ len v <= 2 ^ 40.

Lemma sized_below m p : sized m -> sized (below m p).
Proof. intros Hm j v Hj. destruct (Hm _ _ Hj) as [Hl Hv]. rewrite length_app in Hl. split; [lia|done]. Qed.

Lemma small_short k c :
  Z.of_nat (length k) <= 2 ^ 40 -> len (encode (itemOf c)) <= 2 ^ 41 -> small (encode (itemOf (rawShortNode (hexToCompact k) c))).
Proof.
  intros Hk Hc. unfold small. cbn [itemOf]. pose proof (len_Lst [Str (hexToCompact k); itemOf c]) as Hl.
  rewrite !encodeAll_cons, !len_app in Hl. change (len (encodeAll [])) with 0 in Hl.
  pose proof (len_Str (hexToCompact k)). pose proof (len_hexToCompact k). lia.
Qed.

Lemma fits_of E d n m t : okNode (H := E) d n m -> loads (H := E) n t -> sized m -> fits t.
Proof.
  revert n m t. induction d as [|d IH]; intros n m t Hok Hl Hm; [done|]. destruct n as [| |k c fl|cs fl|]; try done.
  - inversion Hl as [| |? ? ? tc Hlc| |]; subst. destruct Hok as [[Hk (v & -> & [_ Ho])]|(Hp & Hne & Hout & cs & Hb & Hok)].
    + inversion Hlc; subst. specialize (Ho k). rewrite decide_True in Ho by done. destruct (Hm _ _ Ho) as [Hlk Hlv].
      intros s Hs. inversion Hs as [|? ? ? Hs'|]; subst; [|by inversion Hs']. apply small_short; [done|]. pose proof (len_Str v).
      change (len (encode (Str v)) <= 2 ^ 41). lia.
    + destruct (loads_branch_inv E _ _ _ Hb Hlc) as (ts & -> & Hts).
      assert (fits (fullNode ts noFlag)) as Hf by (eapply IH; [exact Hok|by constructor|by apply sized_below]).
      destruct (okNode_inhabited _ _ _ Hok) as (j & v & Hj). destruct (Hm _ _ Hj) as [Hlj _]. rewrite length_app in Hlj.
      intros s Hs. inversion Hs as [|? ? ? Hs'|]; subst; [|by apply Hf]. apply small_short; [lia|].
      etransitivity; [apply (len_ref (fullNode ts noFlag)); by right|lia].
  - inversion Hl as [| | |? ? ts Hcs|]; subst. destruct Hok as [Hb _]. pose proof Hb as (Hlen & _).
    pose proof (Forall2_length _ _ _ Hcs) as Hl2. destruct (split_last ts ltac:(congruence)) as (ts' & t & -> & Hl16).
    assert (Forall (fun t => t = nilNode \/ (isNode t /\ fits t)) ts') as Hall.
    { apply Forall_lookup. intros i ti Hti. pose proof (lookup_lt_Some _ _ _ Hti) as Hlt.
      destruct (branch_slot E _ _ _ _ i ti Hb Hcs) as (_ & c & _ & Hlc & Hs); [by apply lookup_app_l_Some|].
      unfold slotOk in Hs. rewrite decide_False in Hs by lia.
      destruct (child_tree E _ _ _ _ Hs Hlc) as [[-> _]|(n0 & Hok & Hln)]; [by left|right]. split; [by eapply treeOk_isNode, treeOk_of|].
      eapply IH; [exact Hok|done|by apply sized_below]. }
    assert (t = nilNode \/ exists v, t = valueNode v /\ len v <= 2 ^ 40) as Hlast.
    { destruct (branch_slot E _ _ _ _ 16 t Hb Hcs) as (_ & c & _ & Hlc & Hs); [rewrite <- Hl16; apply list_lookup_middle; done|].
      unfold slotOk in Hs. rewrite decide_True in Hs by done.
      destruct (value_tree E _ _ _ Hs Hlc) as [[-> _]|(v & -> & [_ Ho])]; [by left|right]. exists v. split; [done|].
      specialize (Ho []). rewrite decide_True in Ho by done. by apply Hm in Ho as [_ ?]. }
    intros s Hs. inversion Hs as [| |? ? t' Hin Hs']; subst.
    + unfold small. simpl collapse. cbn [itemOf]. rewrite map_app, map_app. pose proof (len_refs ts' Hall) as Hr. rewrite Hl16 in Hr.
      match goal with |- len (encode (Lst ?l)) < _ => pose proof (len_Lst l) as HL end.
      unfold encodeAll in HL at 1. rewrite map_app, concat_app, len_app in HL. fold (encodeAll (map itemOf (map (fun c => shorten (collapse c)) ts'))) in HL.
      simpl map in HL at 2. simpl concat in HL. rewrite app_nil_r in HL.
      destruct Hlast as [->|(v & -> & Hv)]; [change (len (encode (itemOf (shorten (collapse nilNode))))) with 1 in HL; lia|].
      pose proof (len_Str v). simpl itemOf in HL. lia.
    + apply elem_of_app in Hin as [Hin|Hin].
      * rewrite Forall_forall in Hall. destruct (Hall _ Hin) as [->|[_ Hf]]; [by inversion Hs'|by apply Hf].
      * apply list_elem_of_singleton in Hin as ->. destruct Hlast as [->|(v & -> & _)]; by inversion Hs'.
Qed.

End sizes.

(** ** The root hash determines the tree *)

Section injective.
Context `{NodeHash}.

Definition collisionFree (S : bytes -> Prop) : Prop :=
  forall b b', S b -> S b' -> makeHashNode b = makeHashNode b' -> b = b'.

Definition nodeBlob (t : node) (b : bytes) : Prop := exists s, subtree s t /\ b = blobOf (collapse s).

Variable S : bytes -> Prop.
Hypothesis no_collision : collisionFree S.

Definition covers (t : node) : Prop := forall b, nodeBlob t b -> S b.

Lemma covers_short k t fl : covers (shortNode k t fl) -> covers t.
Proof. intros Hc b (s & Hs & ->). apply Hc. exists s. split; [by constructor|done]. Qed.
Lemma covers_full ts fl t : covers (fullNode ts fl) -> t ∈ ts -> covers t.
Proof. intros Hc Hin b (s & Hs & ->). apply Hc. exists s. split; [by eapply subtree_full|done]. Qed.
Lemma covers_here t : isNode t -> covers t -> S (blobOf (collapse t)).
Proof. intros Hi Hc. apply Hc. exists t. split; [by apply subtree_here|done]. Qed.

Record known (t : node) : Prop := {
  known_tree : treeOk t;
  known_fits : fits t;
  known_covers : covers t;
}.

Definition itemInj (t : node) : Prop :=
  forall t', known t -> known t' -> itemOf (collapse t) = itemOf (collapse t') -> t = t'.

Lemma known_hash t t' : known t -> known t' -> nodeHash t = nodeHash t' -> itemOf (collapse t) = itemOf (collapse t').
Proof.
  intros [Ht Hf Hc] [Ht' Hf' Hc'] E. apply treeOk_isNode in Ht, Ht'. apply encode_inj; [by apply fits_here|].
  rewrite <- !blobOf_small by done. apply no_collision; [by apply covers_here..|done].
Qed.

Lemma collapse_Lst t : isNode t -> exists l, itemOf (collapse t) = Lst l.
Proof. destruct t; try done; by eexists. Qed.

Lemma ref_inj t t' :
  itemInj t -> (t = nilNode \/ known t) -> (t' = nilNode \/ known t') ->
  itemOf (shorten (collapse t)) = itemOf (shorten (collapse t')) -> t = t'.
Proof.
  assert (forall t, known t -> (exists h, itemOf (shorten (collapse t)) = Str (b32_bytes h) /\ h = nodeHash t) \/
            itemOf (shorten (collapse t)) = itemOf (collapse t) /\ exists l, itemOf (collapse t) = Lst l) as Hcase.
  { intros u [Hu _ _]. apply treeOk_isNode in Hu. destruct (long_dec u) as [Hl|Hl].
    - left. eexists. rewrite shorten_long by done. split; [done|done].
    - right. rewrite shorten_short by done. split; [done|by apply collapse_Lst]. }
  assert (forall h : Hash, b32_bytes h <> []) as Hne by (intros h Hh; pose proof (b32_length h) as Hl; by rewrite Hh in Hl).
  intros Hinj [->|Hk] [->|Hk'] E; [done| | |].
  - destruct (Hcase t' Hk') as [(h & Eh & _)|(Es & l & El)]; rewrite <- E in *; simpl in *; [|congruence]. injection Eh as Eh. by destruct (Hne h).
  - destruct (Hcase t Hk) as [(h & Eh & _)|(Es & l & El)]; rewrite E in *; simpl in *; [|congruence]. injection Eh as Eh. by destruct (Hne h).
  - destruct (Hcase t Hk) as [(h & Eh & ->)|(Es & l & El)], (Hcase t' Hk') as [(h' & Eh' & ->)|(Es' & l' & El')]; try congruence.
    + apply Hinj; [done|done|]. apply known_hash; [done|done|]. apply b32_eq. congruence.
    + apply Hinj; [done|done|congruence].
Qed.

Lemma known_child ts last t :
  known (fullNode (ts ++ [last]) noFlag) -> t ∈ ts -> t = nilNode \/ known t.
Proof.
  intros [Ht Hf Hc] Hin. destruct (treeOk_child ts last t Ht Hin) as [->|Ht']; [by left|right].
  assert (t ∈ ts ++ [last]) as Hin' by (apply elem_of_app; by left).
  constructor; [done|by eapply fits_full|by eapply covers_full].
Qed.

Lemma hexToCompact_inj k k' : path k \/ termKey k -> path k' \/ termKey k' -> hexToCompact k = hexToCompact k' -> k = k'.
Proof.
  intros Hk Hk' E. apply (compact_roundtrip (E := trieError)) in Hk, Hk'. rewrite E in Hk. congruence.
Qed.

Lemma path_not_term k : path k -> ~ termKey k.
Proof. intros Hp (p & _ & ->). apply hasTerm_path in Hp. by rewrite hasTerm_snoc in Hp. Qed.

Lemma refs_inj ts ts' :
  Forall itemInj ts -> Forall (fun t => t = nilNode \/ known t) ts -> Forall (fun t => t = nilNode \/ known t) ts' ->
  map itemOf (map (fun t => shorten (collapse t)) ts) = map itemOf (map (fun t => shorten (collapse t)) ts') -> ts = ts'.
Proof.
  intros Hinj. revert ts'. induction Hinj as [|t ts Ht _ IH]; intros [|t' ts'] Hk Hk' E; try done. cbn [map] in E. injection E as Et Ets.
  apply Forall_cons in Hk as [Hk Hks], Hk' as [Hk' Hks']. f_equal; [by apply ref_inj|by apply IH].
Qed.

Lemma tree_inj t : itemInj t.
Proof.
  induction t as [|v|k c fl IH|cs fl IH|h] using node_ind'; intros t' Hk Hk' E; try by destruct Hk as [Ht _ _]; inversion Ht.
  all: pose proof (known_tree _ Hk) as Ht; pose proof (known_tree _ Hk') as Ht'.
  - inversion Ht as [? v Hkk Hv|? ts Hp Htc|]; subst; (inversion Ht' as [k' v' Hkk' Hv'|k' ts' Hp' Htc'|ts' last' Hlen' Hts' Hlast']; subst;
      [injection E as Ek Ev; assert (k = k') as <- by (apply hexToCompact_inj; [tauto|tauto|done])| |
       simpl in E; injection E as E; apply (f_equal length) in E; rewrite map_app, map_app, length_app, !length_map in E; simpl in E; lia]).
    + congruence.
    + exfalso. injection E as Ek _. apply hexToCompact_inj in Ek as <-; [|tauto..]. by eapply path_not_term.
    + by destruct (path_not_term k).
    + assert (known (fullNode ts noFlag)) as Hkc.
      { destruct Hk as [_ Hf Hc]. constructor; [done|by eapply fits_short|by eapply covers_short]. }
      assert (known (fullNode ts' noFlag)) as Hkc'.
      { destruct Hk' as [_ Hf Hc]. constructor; [done|by eapply fits_short|by eapply covers_short]. }
      assert (hexToCompact k = hexToCompact k' /\ itemOf (shorten (collapse (fullNode ts noFlag))) = itemOf (shorten (collapse (fullNode ts' noFlag))))
        as [Ek Ec] by (injection E as Ek Ec; done).
      apply hexToCompact_inj in Ek as <-; [|tauto..]. by rewrite (ref_inj _ _ IH (or_intror Hkc) (or_intror Hkc') Ec).
  - inversion Ht as [| |ts last Hlen Hts Hlast E0]; subst. inversion Ht' as [| |ts' last' Hlen' Hts' Hlast']; subst.
    1,2: exfalso; simpl in E; injection E as E; apply (f_equal length) in E; rewrite map_app, map_app, length_app, !length_map in E; simpl in E; lia.
    simpl in E. injection E as E. rewrite !map_app in E. apply app_inj_tail in E as [E El].
    apply Forall_app in IH as [IH _]. f_equal. f_equal.
    + apply (refs_inj ts ts'); [done| | |done]; apply Forall_forall; intros t Hin;
        [exact (known_child ts last t Hk Hin)|exact (known_child ts' last' t Hk' Hin)].
    + f_equal. destruct Hlast as [->|(v & Hv & ->)], Hlast' as [->|(v' & Hv' & ->)]; simpl in El; congruence.
Qed.

(** Trees with the same root hash are the same. *)
Lemma root_inj t t' : known t -> known t' -> nodeHash t = nodeHash t' -> t = t'.
Proof. intros Hk Hk' E. apply tree_inj; [done|done|]. by apply known_hash. Qed.

End injective.

(** ** Between a trie and its tree *)

Section between.
Context `{NodeHash} (E : TrieEnv).

Lemma good_nil_inv r n : good (H := E) r n nilNode -> n = nilNode.
Proof. inversion 1 as [| | | |? ? n' ? _ Hg Hi]; subst; [done|]. by inversion Hg; subst. Qed.
Lemma good_value_inv r n v : good (H := E) r n (valueNode v) -> n = valueNode v.
Proof. inversion 1 as [| | | |? ? n' ? _ Hg Hi]; subst; [done|]. by inversion Hg; subst. Qed.

(** What stands for a tree holds what the tree holds. *)
Lemma okNode_good d r n t m : treeOk t -> okNode (H := E) d t m -> good (H := E) r n t -> isNode n -> okNode (H := E) d n m.
Proof.
  revert r n t m. induction d as [|d IH]; intros r n t m Ht Hok Hg Hi; [done|].
  assert (forall c tc mc, treeOk tc -> okNode (H := E) d tc mc -> good (H := E) false c tc -> childOk (H := E) (okNode (H := E) d) c mc) as Hchild.
  { intros c tc mc Htc Hokc Hgc. right. destruct c as [| |k c fl|cs fl|h]; try (left; by eapply IH).
    - inversion Hgc; subst. inversion Htc.
    - inversion Hgc; subst. inversion Htc.
    - inversion Hgc as [| | | |? ? n' ? Hr Hg' Hi']; subst. right. exists (nodeHash tc), n'. split_and!; [done|done|by eapply IH]. }
  inversion Hg as [| |? k c fl tc Hc|? cs fl ts Hcs|? h n' ? Hr]; subst; try done.
  - destruct Hok as [[Hk (v & -> & Ho)]|(Hp & Hne & Hout & cs & [(flb & ->)|(h & flb & -> & _)] & Hok)].
    + apply good_value_inv in Hc as ->. left. split; [done|]. by exists v.
    + inversion Ht as [|? ts ? Htc E0|]; subst. right. split_and!; try done.
      pose proof (Hchild c _ _ Htc Hok Hc) as [[-> Hn]|[Hokc|(h & n' & -> & Hr & Hokc)]].
      * inversion Hc.
      * apply okNode_shape in Hokc as Hsh. destruct Hsh as [(k' & c' & fl' & ->)|(cs' & fl' & ->)]; [inversion Hc|].
        exists cs'. split; [left; by eexists|]. by eapply okNode_flag.
      * apply okNode_shape in Hokc as Hsh. inversion Hc as [| | | |? ? n2 ? Hr2 Hg2]; subst. rewrite Hr in Hr2. injection Hr2 as <-.
        destruct Hsh as [(k' & c' & fl' & ->)|(cs' & fl' & ->)]; [inversion Hg2|].
        exists cs'. split; [right; by do 2 eexists|]. by eapply okNode_flag.
    + inversion Ht.
  - destruct Hok as [(Hlen & Hnil & Hout & Hs) Htwo]. pose proof (Forall2_length _ _ _ Hcs) as Hl. split.
    + split_and!; [congruence|done|done|]. intros x c Hx Hc. destruct (Forall2_lookup_l _ _ _ _ _ Hcs Hc) as (tc & Htc & Hgc).
      specialize (Hs x tc Hx Htc). inversion Ht as [| |ts' last Hl16 Hts Hlast E0]; subst. unfold slotOk in *. destruct (decide (x = 16)).
      * destruct Hs as [[-> Hn]|(v & -> & Ho)]; [left; by apply good_nil_inv in Hgc as ->|right]. apply good_value_inv in Hgc as ->. by exists v.
      * assert (tc = nilNode \/ treeOk tc) as Htree.
        { apply (treeOk_child ts' last tc Ht). rewrite lookup_app_l in Htc by (unfold index in Hx; lia). by eapply list_elem_of_lookup_2. }
        destruct Hs as [[-> Hn]|[Hok|(h & n' & -> & Hr & _)]]; [left; by apply good_nil_inv in Hgc as ->| |];
          (destruct Htree as [E1|Htree]; [first [discriminate E1|subst; by destruct d]|]); [by eapply Hchild|inversion Htree].
    + destruct Htwo as (x & y & tx & ty & Hx & Hy & Hne & Htx & Hty & Hnx & Hny).
      destruct (Forall2_lookup_r _ _ _ _ _ Hcs Htx) as (cx & Hcx & Hgx). destruct (Forall2_lookup_r _ _ _ _ _ Hcs Hty) as (cy & Hcy & Hgy).
      exists x, y, cx, cy. split_and!; try done; intros ->; [apply Hnx|apply Hny]; [by inversion Hgx|by inversion Hgy].
Qed.

(** What stands for the tree of a map holds the map. *)
Lemma holds_good E0 d n0 r n t g :
  okNode (H := E0) d n0 (contentOf g) -> loads (H := E0) n0 t -> good (H := E) r n t -> holds (H := E) n g.
Proof.
  intros Hok Hl Hg. pose proof (treeOk_of E0 _ _ _ _ Hok Hl) as Ht. pose proof (okNode_loaded E0 E _ _ _ _ Hok Hl) as Hokt.
  exists d. right. destruct n as [| |k c fl|cs fl|h]; try (left; by eapply okNode_good).
  - inversion Hg; subst. inversion Ht.
  - inversion Hg; subst. inversion Ht.
  - inversion Hg as [| | | |? ? n' ? Hr Hg' Hi]; subst. right. exists (nodeHash t), n'. split_and!; [done|done|by eapply okNode_good].
Qed.

(** A tree stands for one map. *)
Lemma okNode_content d d' n m m' : okNode (H := E) d n m -> okNode (H := E) d' n m' -> forall j, m j = m' j.
Proof.
  revert d' n m m'. induction d as [|d IH]; intros d' n m m' Hn Hn'; [done|]. destruct d' as [|d']; [done|].
  destruct n as [| |k c fl|cs fl|]; try done.
  - destruct Hn as [[Hk (v & -> & [_ Ho])]|(Hp & Hne & Hout & cs & Hb & Hok)];
      destruct Hn' as [[Hk' (v' & E' & [_ Ho'])]|(Hp' & Hne' & Hout' & cs' & Hb' & Hok')].
    + injection E' as ->. intros j. by rewrite Ho, Ho'.
    + by destruct (path_not_term k Hp').
    + by destruct (path_not_term k Hp).
    + assert (okNode (H := E) d (fullNode cs' noFlag) (below m k)) as Hok2.
      { destruct Hb as [(fl1 & ->)|(h & fl1 & -> & Hr)], Hb' as [(fl2 & E2)|(h' & fl2 & E2 & Hr')]; try done; simplify_eq; [done|].
        rewrite Hr in Hr'. by injection Hr' as <- _. }
      intros j. destruct (decide (k `prefix_of` j)) as [[q ->]|Hj]; [exact (IH _ _ _ _ Hok2 Hok' q)|by rewrite Hout, Hout'].
  - destruct Hn as [(Hl & Hnil & Hout & Hs) _], Hn' as [(Hl' & Hnil' & Hout' & Hs') _]. intros [|x j]; [by rewrite Hnil, Hnil'|].
    destruct (decide (index x)) as [Hx|Hx]; [|by rewrite Hout, Hout']. destruct (index_lookup cs x Hl Hx) as [c Hc].
    specialize (Hs x c Hx Hc). specialize (Hs' x c Hx Hc). change (below m [x] j = below m' [x] j).
    destruct (decide (c = nilNode)) as [->|Hnn]; [by rewrite (slot_nil _ _ _ Hs), (slot_nil _ _ _ Hs')|].
    unfold slotOk in Hs, Hs'. destruct (decide (x = 16)).
    + destruct Hs as [[? _]|(v & -> & [_ Ho])]; [done|]. destruct Hs' as [[? _]|(v' & [= <-] & [_ Ho'])]; [done|]. by rewrite Ho, Ho'.
    + destruct Hs as [[? _]|Hlk]; [done|]. destruct Hs' as [[? _]|Hlk']; [done|].
      destruct Hlk as [Hok|(h & n0 & -> & Hr & Hok)], Hlk' as [Hok'|(h' & n' & E' & Hr' & Hok')]; subst.
      * by eapply IH.
      * by destruct d.
      * by destruct d'.
      * injection E' as <-. rewrite Hr in Hr'. injection Hr' as <-. by eapply IH.
Qed.

End between.

Lemma contentOf_inj g g' : (forall j, contentOf g j = contentOf g' j) -> g = g'.
Proof. intros Hj. apply map_eq. intros k. by rewrite <- !contentOf_keybytes. Qed.
