(* ===== verification/TrieCommit.v ===== *)
(** * TrieCommit: the trie as a committed map

    The theorems on the whole of [src/storage/trie]: a trie over its database is a
    finite map under lookups, updates, deletions and hashing; its root hash says
    what the map is; and what is committed can be opened again under that hash. *)
From S2P Require Import Prelude Bytes TrieEncoding Rlp Trie TrieTheorems TrieNode.
From S2P Require Import Keccak TrieDatabase TrieHasher TrieCache TrieStore TrieHasherTheorems TrieTrees.
Local Open Scope Z_scope.
Local Open Scope zv_scope.

(** ** A trie and the map it holds *)

Section commit.
Context `{NodeHash}.
Implicit Types (db : NodeDatabase) (t : Trie) (g : gmap bytes bytes) (tr : node).

Definition envFor db t : TrieEnv := envOf db (t_cachegen t).

(** The trie over [db] holds [g], and its caches may be relied on. *)
Definition tracked db t g : Prop :=
  (exists tr, flagged (H := envFor db t) true (t_root t) tr) /\ holds (H := envFor db t) (t_root t) g.

(** The tree of a trie that is not empty. *)
Definition treeFor db t g tr : Prop :=
  flagged (H := envFor db t) true (t_root t) tr /\
  exists d n, okNode (H := envFor db t) d n (contentOf g) /\ loads (H := envFor db t) n tr.

Lemma contentOf_empty g : (forall j, contentOf g j = None) -> g = ∅.
Proof. intros Hn. apply map_eq. intros k. by rewrite <- contentOf_keybytes, Hn, lookup_empty. Qed.

Lemma tracked_tree db t g :
  tracked db t g -> (t_root t = nilNode /\ g = ∅) \/ exists tr, treeFor db t g tr.
Proof.
  intros [[tr Hf] [d Hd]]. pose proof (good_loads _ _ _ (flagged_good _ _ _ Hf)) as Hl.
  destruct (child_tree _ d _ _ tr Hd Hl) as [[-> Hn]|(n & Hok & Hln)].
  - left. split; [|by apply contentOf_empty]. apply flagged_good in Hf. by apply good_nil_inv in Hf.
  - right. exists tr. split; [done|]. by exists d, n.
Qed.

Lemma treeFor_ok db t g tr : treeFor db t g tr -> treeOk tr.
Proof. intros (_ & d & n & Hok & Hl). by eapply treeOk_of. Qed.

Lemma tracked_nil db t : t_root t = nilNode -> tracked db t ∅.
Proof. intros E. split; rewrite E; [exists nilNode; constructor|apply holds_nil]. Qed.

(** Another trie that stands for the same tree holds the same map. *)
Lemma treeFor_tracked db t g tr db' t' :
  treeFor db t g tr -> flagged (H := envFor db' t') true (t_root t') tr -> tracked db' t' g.
Proof.
  intros (_ & d & n & Hok & Hl) Hf. split; [by eexists|]. eapply holds_good; [exact Hok|exact Hl|by apply flagged_good].
Qed.

Lemma tracked_grow db db' t g : db_le db db' -> tracked db t g -> tracked db' t g.
Proof.
  intros Hle [[tr Hf] Hh]. split; [exists tr; by eapply flagged_grow; [apply Hle|]|by eapply holds_grow; [apply Hle|]].
Qed.

(** ** Operations *)

Inductive trieOp :=
| OpGet (k : bytes)
| OpUpdate (k v : bytes)
| OpDelete (k : bytes)
| OpHash.

Definition runTrie db (op : trieOp) t : outcome trieError (option bytes * Trie) :=
  match op with
  | OpGet k => r <-! TryGet (H := envFor db t) (t_root t) k ;; Ok (r.1, setRoot r.2 t)
  | OpUpdate k v => n <-! TryUpdate (H := envFor db t) (t_root t) k v ;; Ok (None, setRoot n t)
  | OpDelete k => n <-! TryDelete (H := envFor db t) (t_root t) k ;; Ok (None, setRoot n t)
  | OpHash => r <-! Hash_ t ;; Ok (None, r.2)
  end.

Definition runMap (op : trieOp) g : option bytes * gmap bytes bytes :=
  match op with
  | OpGet k => (g !! k, g)
  | OpUpdate k v => (None, match v with [] => base.delete k g | _ => <[k := v]> g end)
  | OpDelete k => (None, base.delete k g)
  | OpHash => (None, g)
  end.

Fixpoint runTries db (ops : list trieOp) t : outcome trieError (list (option bytes) * Trie) :=
  match ops with
  | [] => Ok ([], t)
  | op :: ops' =>
      r <-! runTrie db op t ;;
      rs <-! runTries db ops' r.2 ;;
      Ok (r.1 :: rs.1, rs.2)
  end.

Fixpoint runMaps (ops : list trieOp) g : list (option bytes) * gmap bytes bytes :=
  match ops with
  | [] => ([], g)
  | op :: ops' => let r := runMap op g in let rs := runMaps ops' r.2 in (r.1 :: rs.1, rs.2)
  end.

(** ** Hashing *)

(** The root hash of a map's tree, and of nothing. *)
Lemma hashRoot_none db t g tr :
  flushOk db -> treeFor db t g tr ->
  exists n', hashRoot t None None = Ok (rawHash (nodeHash tr), n', None) /\ flagged (H := envFor db t) true n' tr.
Proof.
  intros Hfl Ht. pose proof (treeFor_ok _ _ _ _ Ht) as Hok. destruct Ht as [Hf _].
  set (hs := mkHasher (t_cachegen t) (t_cachelimit t) None).
  destruct (hash_ok hs (fun _ _ => False) (fun _ => True) I ltac:(by intros ? ? ? ? []) (t_root t) false true tr db) as (n' & db' & Hh & Hk & Hf' & _); try done.
  rewrite (kept_same _ _ _ _ _ _ Hk eq_refl) in Hf'. exists n'. split; [|done]. unfold hashRoot.
  destruct (t_root t); [|exact Hh..]. inversion Hf; subst. inversion Hok.
Qed.

Lemma Hash_ok db t g :
  flushOk db -> tracked db t g ->
  exists h t', Hash_ t = Ok (h, t') /\ tracked db t' g /\
    ((g = ∅ /\ t_root t = nilNode /\ h = emptyRoot) \/ exists tr, treeFor db t g tr /\ h = nodeHash tr).
Proof.
  intros Hfl Ht. destruct (tracked_tree _ _ _ Ht) as [[En ->]|(tr & Htr)].
  - exists emptyRoot, (setRoot nilNode t). unfold Hash_, hashRoot. rewrite En. split; [done|]. split; [by apply tracked_nil|by left].
  - destruct (hashRoot_none _ _ _ _ Hfl Htr) as (n' & Hh & Hf). exists (nodeHash tr), (setRoot n' t).
    unfold Hash_. rewrite Hh. split; [done|]. split; [by apply (treeFor_tracked db t g tr)|right; by exists tr].
Qed.

(** ** The map *)

Lemma runTrie_ok db op t g :
  flushOk db -> tracked db t g -> exists t', runTrie db op t = Ok ((runMap op g).1, t') /\ tracked db t' (runMap op g).2.
Proof.
  intros Hfl Ht. pose proof Ht as [[tr Hf] Hh]. pose proof (envOf_clean db (t_cachegen t)) as Hcl. destruct op as [k|k v|k|]; simpl.
  - destruct (TryGet_ok (t_root t) g k Hh) as (n' & Hg & Hh'). rewrite Hg. exists (setRoot n' t). split; [done|]. split; [|done].
    unfold TryGet in Hg. apply obind_Ok_inv in Hg as ([[v n''] did] & Hg & E). injection E as _ <-.
    exists tr. destruct did; [by eapply (tryGet_flagged Hcl)|done].
  - destruct (TryUpdate_ok (t_root t) g k v Hh) as (n' & Hu & Hh'). rewrite Hu. exists (setRoot n' t). split; [done|]. split; [|done].
    unfold TryUpdate, TryDelete in Hu. destruct v as [|b v]; apply obind_Ok_inv in Hu as ([dirty n''] & Hu & E); injection E as <-.
    + by eapply (delete_flagged Hcl).
    + eapply (insert_flagged Hcl); [exact Hf|apply flagged_value| |exact Hu]. right. rewrite keybytesToHex_nibbles. by destruct (nibbles k).
  - destruct (TryDelete_ok (t_root t) g k Hh) as (n' & Hd & Hh'). rewrite Hd. exists (setRoot n' t). split; [done|]. split; [|done].
    unfold TryDelete in Hd. apply obind_Ok_inv in Hd as ([dirty n''] & Hd & E). injection E as <-. by eapply (delete_flagged Hcl).
  - destruct (Hash_ok db t g Hfl Ht) as (h & t' & -> & Ht' & _). by exists t'.
Qed.

(** C9: any sequence of lookups, updates, deletions and root
    hashes on a trie, loaded or partly behind hashes the database resolves, ends
    without an error, answers what the finite map answers, and leaves a trie that
    holds the map the same operations make of the map, with caches that may still be
    relied on; an update to the empty value is a deletion. *)
Theorem trie_refines_map db ops t g :
  flushOk db -> tracked db t g ->
  exists t', runTries db ops t = Ok ((runMaps ops g).1, t') /\ tracked db t' (runMaps ops g).2.
Proof.
  intros Hfl. revert t g. induction ops as [|op ops IH]; intros t g Ht; [by exists t|].
  destruct (runTrie_ok db op t g Hfl Ht) as (t1 & Hr & Ht1). destruct (IH t1 _ Ht1) as (t2 & Hr2 & Ht2).
  exists t2. simpl. rewrite Hr. cbn [obind fst snd]. rewrite Hr2. done.
Qed.

(** ** The root hash *)

(** Keys and values of at most 4 GiB. *)
Definition sizedMap g : Prop := map_Forall (fun k v => len k <= 2 ^ 32 /\ len v <= 2 ^ 32) g.

Lemma sized_contentOf g : sizedMap g -> sized (contentOf g).
Proof.
  intros Hg j v Hj. unfold contentOf in Hj. apply bind_Some in Hj as (k & Hk & Hv). apply keyOf_Some in Hk as ->.
  destruct (Hg k v Hv) as [Hlk Hlv]. rewrite keybytesToHex_nibbles, length_app, length_nibbles. unfold len in *. simpl. lia.
Qed.

(** The encodings of the nodes of a trie. *)
Definition nodeOf db t (b : bytes) : Prop := exists tr, loads (H := envFor db t) (t_root t) tr /\ nodeBlob tr b.

Lemma treeFor_known db t g tr (S : bytes -> Prop) :
  sizedMap g -> treeFor db t g tr -> (forall b, nodeOf db t b -> S b) -> known S tr.
Proof.
  intros Hg Ht HS. pose proof (treeFor_ok _ _ _ _ Ht) as Hok. destruct Ht as (Hf & d & n & Hn & Hl).
  constructor; [done|eapply fits_of; [exact Hn|exact Hl|by apply sized_contentOf]|].
  intros b Hb. apply HS. exists tr. split; [|done]. by eapply good_loads, flagged_good.
Qed.

Lemma nil_not_node S tr : known S tr -> blobOf rawNil <> blobOf (collapse tr).
Proof.
  intros [Ht Hf _] E. apply treeOk_isNode in Ht. rewrite (blobOf_small tr Ht Hf) in E.
  change (blobOf rawNil) with (encode (Str [])) in E. apply encode_inj in E; [|done].
  destruct (collapse_Lst tr Ht) as [l El]. congruence.
Qed.

Lemma emptyRoot_not S db t g tr :
  collisionFree S -> (forall b, b = blobOf rawNil \/ nodeOf db t b -> S b) -> makeHashNode (blobOf rawNil) = emptyRoot ->
  sizedMap g -> treeFor db t g tr -> emptyRoot <> nodeHash tr.
Proof.
  intros Hcf HS He Hg Ht E. pose proof (treeFor_known db t g tr S Hg Ht ltac:(eauto)) as Hk.
  apply (nil_not_node S tr Hk). apply Hcf; [apply HS; by left| |by rewrite He].
  apply (known_covers _ _ Hk). exists tr. split; [|done]. by apply subtree_here, treeOk_isNode, (known_tree _ _ Hk).
Qed.

(** C11: when no two of the nodes of two tries (or the empty trie)
    have the same hash, the tries have the same root hash exactly when they hold the
    same map, whatever their histories, the databases they are on, and the parts of
    them that are loaded or cached. *)
Theorem trie_root_iff db1 db2 t1 t2 g1 g2 :
  flushOk db1 -> flushOk db2 -> tracked db1 t1 g1 -> tracked db2 t2 g2 -> sizedMap g1 -> sizedMap g2 ->
  makeHashNode (blobOf rawNil) = emptyRoot ->
  collisionFree (fun b => b = blobOf rawNil \/ nodeOf db1 t1 b \/ nodeOf db2 t2 b) ->
  exists h1 h2 t1' t2', Hash_ t1 = Ok (h1, t1') /\ Hash_ t2 = Ok (h2, t2') /\ (h1 = h2 <-> g1 = g2).
Proof.
  intros Hf1 Hf2 Ht1 Ht2 Hg1 Hg2 He Hcf. set (S := fun b => _) in Hcf.
  destruct (Hash_ok db1 t1 g1 Hf1 Ht1) as (h1 & t1' & -> & _ & C1). destruct (Hash_ok db2 t2 g2 Hf2 Ht2) as (h2 & t2' & -> & _ & C2).
  exists h1, h2, t1', t2'. split_and!; [done|done|].
  assert (forall b, b = blobOf rawNil \/ nodeOf db1 t1 b -> S b) as HS1 by (unfold S; tauto).
  assert (forall b, b = blobOf rawNil \/ nodeOf db2 t2 b -> S b) as HS2 by (unfold S; tauto).
  assert (forall db t tr, treeFor db t ∅ tr -> False) as Hno.
  { intros db t tr (_ & d & n & Hok & _). destruct (okNode_inhabited _ _ _ Hok) as (j & v & Hj). unfold contentOf in Hj.
    apply bind_Some in Hj as (k & _ & Hk). by rewrite lookup_empty in Hk. }
  destruct C1 as [(-> & _ & ->)|(tr1 & Htr1 & ->)], C2 as [(-> & _ & ->)|(tr2 & Htr2 & ->)].
  - done.
  - split; [intros E|intros <-; by destruct (Hno _ _ _ Htr2)]. by destruct (emptyRoot_not S db2 t2 g2 tr2 Hcf HS2 He Hg2 Htr2).
  - split; [intros E|intros ->; by destruct (Hno _ _ _ Htr1)]. by destruct (emptyRoot_not S db1 t1 g1 tr1 Hcf HS1 He Hg1 Htr1).
  - pose proof (treeFor_known _ _ _ _ S Hg1 Htr1 ltac:(eauto)) as K1. pose proof (treeFor_known _ _ _ _ S Hg2 Htr2 ltac:(eauto)) as K2.
    destruct Htr1 as (_ & d1 & n1 & Hok1 & Hl1), Htr2 as (_ & d2 & n2 & Hok2 & Hl2). split.
    + intros E. apply (root_inj S Hcf _ _ K1 K2) in E as <-. apply contentOf_inj.
      apply (okNode_content (envFor db1 t1) d1 d2 tr1); [by eapply okNode_loaded|by eapply okNode_loaded].
    + intros <-. by rewrite (tree_unique _ _ _ _ _ _ _ _ _ Hok1 Hl1 Hok2 Hl2).
Qed.

(** ** Committing *)

(** The collapsed nodes in memory read back, and the root of what is referenced is
    there. *)
Record dbOk db : Prop := {
  dbOk_flush : flushOk db;
  dbOk_nodes h c : contents db !! h = Some (Collapsed c) -> c = rawNil \/ (rawOk c /\ small (encode (itemOf c)));
  dbOk_metaroot : contents db !! zeroB32 = Some (Collapsed rawNil);
}.

(** What the database answers under a hash. *)
Definition heldAt db (h : Hash) (b : bytes) : Prop :=
  (exists e, nodes db !! h = Some e /\ rlp_ e = b) \/ diskdb db !! h = Some b.

(** No two nodes of the trie have the same hash, and what the database has under the
    hash of one of them is that node. *)
Definition noCollision db t : Prop :=
  collisionFree (fun b => b = blobOf rawNil \/ nodeOf db t b) /\
  forall b b', nodeOf db t b -> heldAt db (makeHashNode b) b' -> b' = b.

Definition belongs tr (h : Hash) (c : rawNode) : Prop := exists s, subtree s tr /\ h = nodeHash s /\ c = collapse s.

Lemma covered_sub (P : Hash -> rawNode -> Prop) tr :
  (forall s, subtree s tr -> P (nodeHash s) (collapse s)) -> covered P tr.
Proof.
  induction tr as [|v|k c fl IH|cs fl IH|h] using node_ind'; intros HP; try done.
  - split; [by apply HP, subtree_here|]. apply IH. intros s Hs. apply HP. by constructor.
  - split; [by apply HP, subtree_here|]. apply covered_all. rewrite Forall_forall in IH |- *. intros c Hin. apply IH; [done|].
    intros s Hs. apply HP. by eapply subtree_full.
Qed.

Lemma covered_belongs tr : covered (belongs tr) tr.
Proof. apply covered_sub. intros s Hs. by exists s. Qed.

Section tree.
Context db t g tr (ok : dbOk db) (Hg : sizedMap g) (Ht : treeFor db t g tr) (Hnc : noCollision db t).

Lemma sub_known s : subtree s tr -> rawOk (collapse s) /\ small (encode (itemOf (collapse s))) /\ nodeOf db t (blobOf (collapse s)).
Proof.
  intros Hs. destruct (treeFor_known db t g tr (nodeOf db t) Hg Ht ltac:(done)) as [Hok Hf Hc].
  split_and!; [apply rawOk_collapse; [by eapply treeOk_subtree|]|by apply Hf|apply Hc; by exists s].
  intros s' Hs'. apply Hf. clear -Hs Hs'. induction Hs; [done|by constructor|by eapply subtree_full].
Qed.

Lemma expand_blob gen h c : rawOk c -> small (encode (itemOf c)) -> mustDecodeNode gen (Some h) (blobOf c) = expandNode gen (Some h) c.
Proof. intros Hc Hs. destruct (mustDecode_blob gen c (Some h) Hc Hs) as (n & -> & ->). done. Qed.

Lemma belongs_functional : functional (belongs tr).
Proof.
  intros h c c' gen (s & Hs & -> & ->) (s' & Hs' & E & ->). destruct (sub_known s Hs) as (Hr & Hsm & Hn), (sub_known s' Hs') as (Hr' & Hsm' & Hn').
  rewrite <- !expand_blob by done. f_equal. destruct Hnc as [Hcf _]. apply Hcf; [by right|by right|exact E].
Qed.

Lemma belongs_agrees : agrees (belongs tr) db.
Proof.
  intros h c gen (s & Hs & -> & ->). destruct (sub_known s Hs) as (Hr & Hsm & Hn). destruct Hnc as [_ Hheld]. split.
  - intros o Ho. unfold contents in Ho. rewrite lookup_fmap in Ho. destruct (nodes db !! nodeHash s) as [e|] eqn:Ee; [|done].
    injection Ho as Ho. assert (rlp_ e = blobOf (collapse s)) as Hb by (apply Hheld; [done|left; by exists e]).
    unfold rlp_ in Hb. rewrite Ho in Hb. destruct o as [c|b]; simpl.
    + destruct (dbOk_nodes db ok (nodeHash s) c) as [->|[Hc Hcs]]; [unfold contents; by rewrite lookup_fmap, Ee; simpl; rewrite Ho| |].
      * exfalso. destruct (treeFor_known db t g tr (nodeOf db t) Hg Ht ltac:(done)) as [Hok Hf _].
        pose proof (treeOk_isNode s (treeOk_subtree s tr Hok Hs)) as Hi. destruct (collapse_Lst s Hi) as [l El].
        change (blobOf rawNil) with (encode (Str [])) in Hb. rewrite (EncodeToBytes_encode _ Hsm : blobOf (collapse s) = _) in Hb.
        apply encode_inj in Hb; [congruence|done].
      * by rewrite <- !expand_blob, Hb.
    + by rewrite Hb, expand_blob.
  - intros b Hb. rewrite (Hheld (blobOf (collapse s)) b); [by apply expand_blob|done|by right].
Qed.

Lemma extends_dbOk db' : extends (belongs tr) db db' -> flushOk db' -> dbOk db'.
Proof.
  intros [Hold Hnew] Hfl. constructor; [done| |].
  - intros h c Hc. destruct (Hnew h _ Hc) as [Hc'|(c' & [= <-] & (s & Hs & _ & ->))]; [by eapply dbOk_nodes|right].
    destruct (sub_known s Hs) as (? & ? & _). done.
  - eapply lookup_weaken; [by apply dbOk_metaroot|done].
Qed.

Lemma hashRoot_some onleaf :
  match onleaf with Some f => leafLaw f | None => True end ->
  exists n' db', hashRoot t (Some db) onleaf = Ok (rawHash (nodeHash tr), n', Some db') /\ dbOk db' /\ db_le db db' /\
    flagged (H := envFor db' t) true n' tr /\ good (H := envFor db' t) true (hashNode (nodeHash tr)) tr /\
    rtc (storeStep (mkHasher (t_cachegen t) (t_cachelimit t) onleaf) (belongs tr) (eq tr)) db db'.
Proof.
  intros Hleaf. pose proof (treeFor_ok _ _ _ _ Ht) as Hok. destruct Ht as [Hf _].
  set (hs := mkHasher (t_cachegen t) (t_cachelimit t) onleaf).
  destruct (hash_ok hs (belongs tr) (eq tr) Hleaf belongs_functional (t_root t) true true tr db) as (n' & db' & Hh & Hk & Hf' & Hst);
    [done|done|intros _; apply covered_belongs|done|apply ok|apply belongs_agrees|].
  exists n', db'. split_and!; [|by apply extends_dbOk; apply Hk|apply Hk|done|apply (proj1 (Hst eq_refl)); by left|apply Hk].
  unfold hashRoot. destruct (t_root t); [|exact Hh..]. inversion Hf; subst. inversion Hok.
Qed.

(** The root hash is not one of the two that stand for the empty trie. *)
Lemma nodeHash_not_empty : makeHashNode (blobOf rawNil) = emptyRoot -> nodeHash tr <> zeroB32 /\ nodeHash tr <> emptyRoot.
Proof.
  intros He. pose proof (treeFor_known db t g tr (nodeOf db t) Hg Ht ltac:(done)) as Hk.
  assert (subtree tr tr) as Hs by (by apply subtree_here, treeOk_isNode, (known_tree _ _ Hk)). split.
  - intros Hz. destruct (sub_known tr Hs) as (_ & _ & Hn). destruct Hnc as [_ Hheld].
    pose proof (dbOk_metaroot db ok) as Hm. unfold contents in Hm. rewrite lookup_fmap in Hm. apply fmap_Some in Hm as (e & Hm & Ee).
    apply (nil_not_node _ _ Hk). apply (Hheld _ _ Hn). left. exists e. unfold nodeHash in Hz. rewrite Hz. split; [done|].
    unfold rlp_. by rewrite <- Ee.
  - apply not_eq_sym. eapply (emptyRoot_not _ db t g tr); [apply Hnc| |done|done|done]. done.
Qed.

End tree.

Lemma NewTrie_nil db : NewTrie emptyRoot db = Ok (mkTrie nilNode 0 0).
Proof. unfold NewTrie. by rewrite (bool_decide_eq_true_2 (emptyRoot = emptyRoot)), orb_true_r. Qed.

Lemma NewTrie_hash db gen h tr :
  good (H := envOf db gen) true (hashNode h) tr -> h <> zeroB32 -> h <> emptyRoot ->
  exists t2, NewTrie h db = Ok t2 /\ flagged (H := envFor db t2) true (t_root t2) tr.
Proof.
  intros Hg Hz He. unfold NewTrie. rewrite !bool_decide_eq_false_2 by done. simpl.
  apply (good_grow _ (envOf db 0) (envOf_gen db gen 0)) in Hg. apply flagged_hash in Hg.
  destruct (resolve_flagged (H := envOf db 0) _ _ _ (envOf_clean db 0) Hg) as (n & Hn & _ & Hf).
  unfold resolveHash. rewrite Hn. cbn [obind]. by exists (mkTrie n 0 0).
Qed.

(** C10: committing a trie succeeds and returns its root hash;
    the trie opened from the database under that hash holds the same map, so does
    the trie that was committed, with caches that may be relied on, and so does
    every other trie over the same database. *)
Theorem trie_commit_reopens db t g onleaf :
  dbOk db -> tracked db t g -> sizedMap g -> makeHashNode (blobOf rawNil) = emptyRoot -> noCollision db t ->
  match onleaf with Some f => leafLaw f | None => True end ->
  exists h t' db', Commit t onleaf db = Ok (h, t', db') /\ dbOk db' /\ tracked db' t' g /\
    (exists t2, NewTrie h db' = Ok t2 /\ tracked db' t2 g) /\
    (exists t1, Hash_ t = Ok (h, t1)) /\
    forall t0 g0, tracked db t0 g0 -> tracked db' t0 g0.
Proof.
  intros Hdb Ht Hg He Hnc Hleaf. pose proof (dbOk_flush db Hdb) as Hfl.
  destruct (tracked_tree _ _ _ Ht) as [[En ->]|(tr & Htr)].
  - exists emptyRoot, (mkTrie nilNode (wrap16 (t_cachegen t + 1)) (t_cachelimit t)), db. unfold Commit, Hash_, hashRoot. rewrite En.
    split_and!; [done|done|by apply tracked_nil| |by eexists|done]. rewrite NewTrie_nil. eexists. split; [done|by apply tracked_nil].
  - destruct (hashRoot_some db t g tr Hdb Hg Htr Hnc onleaf Hleaf) as (n' & db' & Hh & Hdb' & Hle & Hf & Hgd & _).
    destruct (nodeHash_not_empty db t g tr Hdb Hg Htr Hnc He) as [Hz Hem].
    exists (nodeHash tr), (mkTrie n' (wrap16 (t_cachegen t + 1)) (t_cachelimit t)), db'. unfold Commit. rewrite Hh.
    split_and!; [done|done| | | |].
    + apply (treeFor_tracked db t g tr); [done|]. eapply flagged_grow; [apply (envOf_gen db' (t_cachegen t))|exact Hf].
    + destruct (NewTrie_hash db' _ _ _ Hgd Hz Hem) as (t2 & Hn & Hf2). exists t2. split; [done|]. by apply (treeFor_tracked db t g tr).
    + destruct (hashRoot_none db t g tr Hfl Htr) as (n1 & Hh1 & _). unfold Hash_. rewrite Hh1. by eexists.
    + intros t0 g0. by apply tracked_grow.
Qed.

End commit.

(** ** Keccak-256 and a trie of one entry *)

#[local] Instance KeccakHash : NodeHash := {|
  makeHashNode b := match keccak256 b with Ok h => BytesToHash h | _ => zeroB32 end
|}.

(** The constant of [trie.go] is the hash of the encoding of nothing. *)
Lemma emptyRoot_keccak : makeHashNode (blobOf rawNil) = emptyRoot.
Proof. apply b32_eq. vm_compute. reflexivity. Qed.

Definition newDB : NodeDatabase := NewDatabase ∅ true.

Lemma newDB_ok : dbOk newDB.
Proof.
  constructor; [by left| |done]. intros h c Hc. unfold contents in Hc. simpl in Hc. rewrite map_fmap_singleton in Hc.
  apply lookup_singleton_Some in Hc as [_ [= <-]]. by left.
Qed.

Definition leafTrie (k v : bytes) : Trie :=
  mkTrie (shortNode (keybytesToHex k) (valueNode v) (mkFlag None 0 true)) 0 0.

Definition k0 : bytes := [Byte.x0a; Byte.x0b].

Lemma leafTrie_tracked db b v : flushOk db -> tracked db (leafTrie k0 (b :: v)) {[ k0 := b :: v ]}.
Proof.
  intros Hfl. destruct (runTrie_ok db (OpUpdate k0 (b :: v)) (mkTrie nilNode 0 0) ∅ Hfl (tracked_nil db (mkTrie nilNode 0 0) eq_refl)) as (t' & E & Ht).
  assert (t' = leafTrie k0 (b :: v)) as <-; [|done]. cbv in E. injection E as <-. done.
Qed.

Lemma leafTrie_nodes db k v b :
  nodeOf db (leafTrie k v) b -> b = blobOf (rawShortNode (hexToCompact (keybytesToHex k)) (rawValue v)).
Proof.
  intros (tr & Hl & s & Hs & ->). inversion Hl as [| |? ? ? tc Hc| |]; subst. inversion Hc; subst.
  inversion Hs as [|? ? ? Hs'|]; subst; [done|by inversion Hs'].
Qed.

(** Two leaves and nothing, by their hashes. *)
Definition leafBlob (k v : bytes) : bytes := blobOf (rawShortNode (hexToCompact (keybytesToHex k)) (rawValue v)).
Definition v0 : bytes := [Byte.x01].
Definition v1 : bytes := [Byte.x02].

Lemma NoDup_fmap_inj {A B} (f : A -> B) (l : list A) x y : NoDup (f <$> l) -> x ∈ l -> y ∈ l -> f x = f y -> x = y.
Proof.
  intros Hd [i Hi]%list_elem_of_lookup [j Hj]%list_elem_of_lookup E.
  assert (i = j) as <- by (apply (NoDup_lookup _ i j (f x) Hd); by rewrite list_lookup_fmap, ?Hi, ?Hj; simpl; rewrite ?E). congruence.
Qed.

Definition distinctHashes (bs : list bytes) : bool :=
  bool_decide (NoDup ((fun b => b32_bytes (makeHashNode b)) <$> bs)).

Lemma distinct_collisionFree bs (S : bytes -> Prop) :
  distinctHashes bs = true -> (forall b, S b -> b ∈ bs) -> collisionFree S.
Proof.
  intros Hd%bool_decide_eq_true HS b b' Hb Hb' E. apply (NoDup_fmap_inj _ bs b b' Hd); [by apply HS|by apply HS|]. exact (f_equal b32_bytes E).
Qed.

Lemma sized_leaf v : len v <= 2 ^ 32 -> sizedMap {[ k0 := v ]}.
Proof. intros Hv k w Hk. apply lookup_singleton_Some in Hk as [<- <-]. split; [done|exact Hv]. Qed.

Definition sampleTrieOps : list trieOp := [OpHash; OpUpdate [Byte.x0a; Byte.x1b] v1; OpGet k0; OpHash; OpDelete k0; OpGet k0].

Lemma trie_refines_map_witness :
  exists t', runTries newDB sampleTrieOps (leafTrie k0 v0) = Ok ([None; None; Some v0; None; None; None], t') /\
    tracked newDB t' (runMaps sampleTrieOps {[ k0 := v0 ]}).2.
Proof. exact (trie_refines_map newDB sampleTrieOps (leafTrie k0 v0) {[ k0 := v0 ]} (dbOk_flush _ newDB_ok) (leafTrie_tracked newDB Byte.x01 [] (dbOk_flush _ newDB_ok))). Defined.

Lemma trie_root_iff_witness :
  exists h1 h2 t1' t2', Hash_ (leafTrie k0 v0) = Ok (h1, t1') /\ Hash_ (leafTrie k0 v1) = Ok (h2, t2') /\
    (h1 = h2 <-> {[ k0 := v0 ]} =@{gmap bytes bytes} {[ k0 := v1 ]}).
Proof.
  apply (trie_root_iff newDB newDB (leafTrie k0 v0) (leafTrie k0 v1)).
  - exact (dbOk_flush _ newDB_ok).
  - exact (dbOk_flush _ newDB_ok).
  - exact (leafTrie_tracked newDB Byte.x01 [] (dbOk_flush _ newDB_ok)).
  - exact (leafTrie_tracked newDB Byte.x02 [] (dbOk_flush _ newDB_ok)).
  - by apply sized_leaf.
  - by apply sized_leaf.
  - exact emptyRoot_keccak.
  - apply (distinct_collisionFree [blobOf rawNil; leafBlob k0 v0; leafBlob k0 v1]); [vm_compute; reflexivity|].
    intros b [->|[Hb|Hb]]; [set_solver|apply leafTrie_nodes in Hb as ->; set_solver|apply leafTrie_nodes in Hb as ->; set_solver].
Defined.

Lemma trie_commit_reopens_witness :
  exists h t' db', Commit (leafTrie k0 v0) (Some (fun _ p => Reference p p)) newDB = Ok (h, t', db') /\ dbOk db' /\
    tracked db' t' {[ k0 := v0 ]} /\ (exists t2, NewTrie h db' = Ok t2 /\ tracked db' t2 {[ k0 := v0 ]}) /\
    (exists t1, Hash_ (leafTrie k0 v0) = Ok (h, t1)) /\ forall t0 g0, tracked newDB t0 g0 -> tracked db' t0 g0.
Proof.
  apply (trie_commit_reopens newDB (leafTrie k0 v0) {[ k0 := v0 ]}).
  - exact newDB_ok.
  - exact (leafTrie_tracked newDB Byte.x01 [] (dbOk_flush _ newDB_ok)).
  - by apply sized_leaf.
  - exact emptyRoot_keccak.
  - split.
    + apply (distinct_collisionFree [blobOf rawNil; leafBlob k0 v0]); [vm_compute; reflexivity|].
      intros b [->|Hb]; [set_solver|apply leafTrie_nodes in Hb as ->; set_solver].
    + intros b b' Hb [(e & He & _)|Hd]; [exfalso|change (diskdb newDB) with (∅ : gmap Hash bytes) in Hd; by rewrite lookup_empty in Hd]. apply leafTrie_nodes in Hb as ->.
      change (nodes newDB) with ({[ zeroB32 := mkCached (Collapsed rawNil) 0 0 None zeroB32 zeroB32 ]} : gmap Hash cachedNode) in He.
      apply lookup_singleton_Some in He as [He _]. apply (f_equal b32_bytes) in He. vm_compute in He. discriminate He.
  - intros v h db. by apply Reference_spec.
Defined.
