(* ===== verification/RlpStream.v ===== *)
(** * RlpStream: RLP of Go values

    [src/storage/rlp/decode.go] reads a value of a known type from a stream, and
    [encode.go] writes it.  The types are described by [goType], which is what the
    decoders and writers are chosen by; pointers, interfaces, raw values, arrays of
    anything but bytes and the struct tags are left out.  The stream is the source's
    with the fields it keeps between calls, errors that stick included; its reader is
    a [bytes.Reader]. *)
From S2P Require Import Prelude Bytes TxHash Rlp.
Local Open Scope Z_scope.
Local Open Scope zv_scope.

Module Stream.

Inductive error :=
| EOF | UnexpectedEOF | EOL | ExpectedString | ExpectedList | CanonInt | CanonSize | ElemTooLarge | ValueTooLarge
| MoreThanOneValue | NotInList | NotAtEOL | UintOverflow
| InputTooLong | InputTooShort | TooFewElements | NegativeInt | InvalidBool | WrongType | OutOfFuel.
#[global] Instance error_eq_dec : EqDecision error.
Proof. solve_decision. Defined.

(** The innermost list comes first in [stack]; [kind] is [None] for -1. *)
Record Stream := mkStream {
  r : bytes;
  remaining : Z;
  limited : bool;
  kind : option Kind;
  size : Z;
  byteval : Z;
  kinderr : option error;
  stack : list (Z * Z);
}.

Abbreviation S A := (M Stream error A).

Definition setReader (b : bytes) (s : Stream) : Stream :=
  mkStream b (remaining s) (limited s) (kind s) (size s) (byteval s) (kinderr s) (stack s).
Definition setKind (k : option Kind) (s : Stream) : Stream :=
  mkStream (r s) (remaining s) (limited s) k (size s) (byteval s) (kinderr s) (stack s).
Definition setAhead (k : option Kind) (z : Z) (e : option error) (s : Stream) : Stream :=
  mkStream (r s) (remaining s) (limited s) k z (byteval s) e (stack s).
Definition setByteval (b : Z) (s : Stream) : Stream :=
  mkStream (r s) (remaining s) (limited s) (kind s) (size s) b (kinderr s) (stack s).
Definition setStack (st : list (Z * Z)) (s : Stream) : Stream :=
  mkStream (r s) (remaining s) (limited s) (kind s) (size s) (byteval s) (kinderr s) st.
Definition setRemaining (n : Z) (s : Stream) : Stream :=
  mkStream (r s) n (limited s) (kind s) (size s) (byteval s) (kinderr s) (stack s).

(** [NewStream] on a [bytes.Reader]; a limit of zero is found from the reader. *)
Definition NewStream (b : bytes) (inputLimit : Z) : Stream :=
  mkStream b (if 0 <? inputLimit then inputLimit else len b) true None 0 0 None [].

(** [v, err := m] *)
Definition try {A} (m : S A) : S (A + error) := fun s =>
  match m s with
  | (Ok a, s') => (Ok (inl a), s')
  | (Err e, s') => (Ok (inr e), s')
  | (Panic p, s') => (Panic p, s')
  end.

(** ** Reading bytes *)

Definition willRead (n : Z) : S unit :=
  modify (setKind None) ;;;
  s <- get ;;
  match stack s with
  | (pos, sz) :: st => if wrap64 (sz - pos) <? n then fail ElemTooLarge else modify (setStack ((wrap64 (pos + n), sz) :: st))
  | [] => ret tt
  end ;;;
  if limited s then
    if remaining s <? n then fail ValueTooLarge else modify (setRemaining (remaining s - n))
  else ret tt.

(** The reader hands out what it has before it reports its end. *)
Definition readFull (n : Z) : S bytes :=
  willRead n ;;;
  b <- gets r ;;
  if len b <? n then modify (setReader []) ;;; fail UnexpectedEOF
  else modify (setReader (drop (Z.to_nat n) b)) ;;; ret (take (Z.to_nat n) b).

Definition readByte : S Byte.byte :=
  willRead 1 ;;;
  b <- gets r ;;
  match b with
  | [] => fail UnexpectedEOF
  | x :: b' => modify (setReader b') ;;; ret x
  end.

Definition readUint (n : Z) : S Z :=
  if n =? 0 then modify (setKind None) ;;; ret 0
  else if n =? 1 then b <- readByte ;; ret (Z_of_byte b)
  else
    b <- readFull n ;;
    match b with
    | x :: _ => if Z_of_byte x =? 0 then fail CanonSize else ret (BigEndian.read b)
    | [] => panic "index out of range"
    end.

(** ** The value ahead *)

(** A size read from the input, and what is wrong with it. *)
Definition longSize (k : Kind) (n : Z) : S (Kind * Z * option error) :=
  v <- try (readUint n) ;;
  ret match v with
      | inl z => (k, z, if z <? 56 then Some CanonSize else None)
      | inr e => (k, 0, Some e)
      end.

Definition readKind : S (Kind * Z * option error) :=
  v <- try readByte ;;
  match v with
  | inr e =>
      top <- gets (fun s => match stack s with [] => true | _ => false end) ;;
      ret (Byte_, 0, Some (if top && (bool_decide (e = UnexpectedEOF) || bool_decide (e = ValueTooLarge)) then EOF else e))
  | inl x =>
      let b := Z_of_byte x in
      modify (setByteval 0) ;;;
      if b <? 0x80 then modify (setByteval b) ;;; ret (Byte_, 0, None)
      else if b <? 0xB8 then ret (String_, b - 0x80, None)
      else if b <? 0xC0 then longSize String_ (b - 0xB7)
      else if b <? 0xF8 then ret (List_, b - 0xC0, None)
      else longSize List_ (b - 0xF7)
  end.

(** What [Kind] answers from the fields. *)
Definition ahead : S (Kind * Z) :=
  s <- get ;;
  match kinderr s, kind s with
  | Some e, _ => fail e
  | None, Some k => ret (k, size s)
  | None, None => panic "no value ahead"
  end.

Definition tooLarge (sz : Z) (s : Stream) : option error :=
  match stack s with
  | [] => if limited s && (remaining s <? sz) then Some ValueTooLarge else None
  | (pos, lsize) :: _ => if wrap64 (lsize - pos) <? sz then Some ElemTooLarge else None
  end.

Definition Kind_ : S (Kind * Z) :=
  s <- get ;;
  match kind s with
  | Some _ => ahead
  | None =>
      if match stack s with (pos, sz) :: _ => pos =? sz | [] => false end then
        modify (setAhead None (size s) None) ;;; fail EOL
      else
        v <- readKind ;;
        let '(k, sz, e) := v in
        s1 <- get ;;
        modify (setAhead (Some k) sz (match e with Some _ => e | None => tooLarge sz s1 end)) ;;;
        ahead
  end.

(** ** Strings, integers, lists *)

Definition Bytes_ : S bytes :=
  v <- Kind_ ;;
  match v with
  | (Byte_, _) => modify (setKind None) ;;; s <- get ;; ret [byte_of_Z (byteval s)]
  | (String_, sz) =>
      b <- readFull sz ;;
      match b with
      | [x] => if Z_of_byte x <? 128 then fail CanonSize else ret b
      | _ => ret b
      end
  | (List_, _) => fail ExpectedString
  end.

Definition uint (maxbits : Z) : S Z :=
  v <- Kind_ ;;
  match v with
  | (Byte_, _) =>
      s <- get ;;
      if byteval s =? 0 then fail CanonInt else modify (setKind None) ;;; ret (byteval s)
  | (String_, sz) =>
      if maxbits / 8 <? sz then fail UintOverflow
      else
        n <- try (readUint sz) ;;
        match n with
        | inr e => fail (if bool_decide (e = CanonSize) then CanonInt else e)
        | inl z => if (0 <? sz) && (z <? 128) then fail CanonSize else ret z
        end
  | (List_, _) => fail ExpectedString
  end.

Definition Bool : S bool :=
  n <- uint 8 ;;
  if n =? 0 then ret false else if n =? 1 then ret true else fail InvalidBool.

Definition List : S Z :=
  v <- Kind_ ;;
  match v with
  | (List_, sz) => modify (fun s => setAhead None 0 (kinderr s) (setStack ((0, sz) :: stack s) s)) ;;; ret sz
  | _ => fail ExpectedList
  end.

Definition ListEnd : S unit :=
  st <- gets stack ;;
  match st with
  | [] => fail NotInList
  | (pos, sz) :: st' =>
      if negb (pos =? sz) then fail NotAtEOL
      else
        let st'' := match st' with (p, z) :: rest => (wrap64 (p + sz), z) :: rest | [] => [] end in
        modify (fun s => setAhead None 0 (kinderr s) (setStack st'' s))
  end.

(** ** Types *)

Inductive goType :=
| TUint (bits : Z)
| TBool
| TBig
| TBytes
| TByteArray (n : nat)
| TSlice (elem : goType)
| TStruct (fields : list goType).

Inductive goVal :=
| VUint (z : Z)
| VBool (b : bool)
| VBig (z : Z)
| VBytes (b : bytes)
| VList (vs : list goVal).

(** ** Decoders *)

Definition decodeBigInt : S goVal :=
  b <- Bytes_ ;;
  match b with
  | x :: _ => if Z_of_byte x =? 0 then fail CanonInt else ret (VBig (BigEndian.read b))
  | [] => ret (VBig 0)
  end.

Definition decodeByteArray (vlen : nat) : S goVal :=
  v <- Kind_ ;;
  match v with
  | (Byte_, _) =>
      if (vlen =? 0)%nat then fail InputTooLong
      else if (1 <? vlen)%nat then fail InputTooShort
      else
        bv <- try (uint 64) ;;
        ret (VBytes [byte_of_Z (match bv with inl z => z | inr _ => 0 end)])
  | (String_, sz) =>
      if Z.of_nat vlen <? sz then fail InputTooLong
      else if sz <? Z.of_nat vlen then fail InputTooShort
      else
        b <- readFull (Z.of_nat vlen) ;;
        match b with
        | [x] => if Z_of_byte x <? 128 then fail CanonSize else ret (VBytes b)
        | _ => ret (VBytes b)
        end
  | (List_, _) => fail ExpectedString
  end.

(** The loop of [decodeSliceElems]; every element takes a byte at least. *)
Fixpoint decodeSliceElems (elemdec : S goVal) (fuel : nat) : S (list goVal) :=
  match fuel with
  | O => fail OutOfFuel
  | Datatypes.S fuel' =>
      v <- try elemdec ;;
      match v with
      | inl x => xs <- decodeSliceElems elemdec fuel' ;; ret (x :: xs)
      | inr e => if bool_decide (e = EOL) then ret [] else fail e
      end
  end.

Definition decodeListSlice (elemdec : S goVal) : S goVal :=
  sz <- List ;;
  if sz =? 0 then ListEnd ;;; ret (VList [])
  else
    n <- gets (fun s => Datatypes.S (length (r s))) ;;
    vs <- decodeSliceElems elemdec n ;;
    ListEnd ;;; ret (VList vs).

(** A field that meets the end of the list is missing. *)
Definition decodeField (dec : S goVal) : S goVal :=
  v <- try dec ;;
  match v with
  | inl x => ret x
  | inr e => fail (if bool_decide (e = EOL) then TooFewElements else e)
  end.

Fixpoint decodeFields (decs : list (S goVal)) : S (list goVal) :=
  match decs with
  | [] => ret []
  | dec :: decs' => x <- decodeField dec ;; xs <- decodeFields decs' ;; ret (x :: xs)
  end.

Definition decodeStruct (decs : list (S goVal)) : S goVal :=
  List ;;;
  vs <- decodeFields decs ;;
  ListEnd ;;; ret (VList vs).

(** [makeDecoder] *)
Fixpoint decoder (t : goType) : S goVal :=
  match t with
  | TUint bits => z <- uint bits ;; ret (VUint z)
  | TBool => b <- Bool ;; ret (VBool b)
  | TBig => decodeBigInt
  | TBytes => b <- Bytes_ ;; ret (VBytes b)
  | TByteArray n => decodeByteArray n
  | TSlice e => decodeListSlice (decoder e)
  | TStruct fs => decodeStruct (map decoder fs)
  end.

Definition DecodeBytes (t : goType) (b : bytes) : outcome error goVal :=
  match decoder t (NewStream b (len b)) with
  | (Ok v, s) => if 0 <? len (r s) then Err MoreThanOneValue else Ok v
  | (Err e, _) => Err e
  | (Panic p, _) => Panic p
  end.

(** ** Writers *)

Definition writeUint (i : Z) (w : encbuf) : encbuf :=
  if i =? 0 then write [byte_of_Z 0x80] w
  else if i <? 128 then write [byte_of_Z i] w
  else write (byte_of_Z (0x80 + Z.of_nat (putintSize i)) :: putint i) w.

Definition writeBool (b : bool) (w : encbuf) : encbuf := write [byte_of_Z (if b then 0x01 else 0x80)] w.

Definition writeBigInt (i : Z) (w : encbuf) : outcome error encbuf :=
  if i <? 0 then Err NegativeInt
  else if i =? 0 then Ok (write [byte_of_Z 0x80] w)
  else Ok (write (encodeString (bigBytes i)) w).

Fixpoint writeAll (ws : list (encbuf -> outcome error encbuf)) (w : encbuf) : outcome error encbuf :=
  match ws with
  | [] => Ok w
  | f :: ws' => w1 <-! f w ;; writeAll ws' w1
  end.

(** [w.list], the elements, [w.listEnd] *)
Definition writeList (ws : list (encbuf -> outcome error encbuf)) (w : encbuf) : outcome error encbuf :=
  let '(lh, w1) := list_ w in
  w2 <-! writeAll ws w1 ;;
  Ok (listEnd lh w2).

(** [makeWriter]; a value of another type does not get here. *)
Fixpoint writer (t : goType) (v : goVal) {struct t} : encbuf -> outcome error encbuf :=
  match t, v with
  | TUint _, VUint i => fun w => Ok (writeUint i w)
  | TBool, VBool b => fun w => Ok (writeBool b w)
  | TBig, VBig i => writeBigInt i
  | TBytes, VBytes b | TByteArray _, VBytes b => fun w => Ok (write (encodeString b) w)
  | TSlice e, VList vs => writeList (map (writer e) vs)
  | TStruct fs, VList vs =>
      writeList ((fix go fs vs := match fs, vs with
                                  | f :: fs', x :: vs' => writer f x :: go fs' vs'
                                  | _, _ => []
                                  end) fs vs)
  | _, _ => fun _ => Err WrongType
  end.

Definition EncodeToBytes (t : goType) (v : goVal) : outcome error bytes :=
  w <-! writer t v (mkBuf [] [] 0) ;; Ok (toBytes w).

End Stream.

(** ** What is encoded is decoded

    Decoding what a value of a type was encoded to gives the value back and leaves
    nothing ([decode_encode]), for every type of [goType]. *)
Import Stream.

(** ** Values and items *)

Definition uintBytes (z : Z) : bytes := if z =? 0 then [] else putint z.

Fixpoint itemFor (v : goVal) : item :=
  match v with
  | VUint z => Str (uintBytes z)
  | VBool b => Str (if b then [byte_of_Z 1] else [])
  | VBig z => Str (bigBytes z)
  | VBytes b => Str b
  | VList vs => Lst (map itemFor vs)
  end.

(** The values of a type that can be written and read back.  Two kinds are left out:
    negative big integers, which the encoder refuses ([negative_big_refused]), and the
    array of one zero byte, at which its decoder stops ([byte_array_zero_sticks]). *)
Fixpoint typed (t : goType) (v : goVal) {struct t} : Prop :=
  match t, v with
  | TUint bits, VUint z => bits ∈ [8; 16; 32; 64] /\ 0 <= z < 2 ^ bits
  | TBool, VBool _ => True
  | TBig, VBig z => 0 <= z
  | TBytes, VBytes _ => True
  | TByteArray n, VBytes b => length b = n /\ b <> [Byte.x00]
  | TSlice e, VList vs => Forall (typed e) vs
  | TStruct fs, VList vs =>
      (fix go fs vs := match fs, vs with
                       | [], [] => True
                       | f :: fs', x :: vs' => typed f x /\ go fs' vs'
                       | _, _ => False
                       end) fs vs
  | _, _ => False
  end.

Fixpoint typedAll (fs : list goType) (vs : list goVal) : Prop :=
  match fs, vs with
  | [], [] => True
  | f :: fs', x :: vs' => typed f x /\ typedAll fs' vs'
  | _, _ => False
  end.

Lemma typed_struct fs vs : typed (TStruct fs) (VList vs) = typedAll fs vs.
Proof. done. Qed.

Lemma goType_ind' (P : goType -> Prop) :
  (forall bits, P (TUint bits)) -> P TBool -> P TBig -> P TBytes -> (forall n, P (TByteArray n)) ->
  (forall e, P e -> P (TSlice e)) -> (forall fs, Forall P fs -> P (TStruct fs)) -> forall t, P t.
Proof.
  intros HU HB HG HY HA HS HF. fix IH 1. intros [bits| | | |n|e|fs]; [apply HU|done|done|done|apply HA|apply HS, IH|].
  apply HF. induction fs as [|f fs IHfs]; constructor; [apply IH|exact IHfs].
Qed.

(** ** Writing *)

Fixpoint writers (fs : list goType) (vs : list goVal) : list (encbuf -> outcome error encbuf) :=
  match fs, vs with
  | f :: fs', x :: vs' => writer f x :: writers fs' vs'
  | _, _ => []
  end.

Lemma writer_struct fs vs : writer (TStruct fs) (VList vs) = writeList (writers fs vs).
Proof. done. Qed.

Lemma putint_small i : 0 < i < 128 -> putint i = [byte_of_Z i].
Proof.
  intros Hi. unfold putint, putintSize. rewrite (proj2 (Z.ltb_lt i (2 ^ 8))) by lia. simpl. done.
Qed.

Lemma writeUint_item i w : 0 <= i < 2 ^ 64 -> writeUint i w = write (encodeString (uintBytes i)) w.
Proof.
  intros Hi. unfold writeUint, uintBytes. destruct (Z.eqb_spec i 0) as [->|H0]; [done|]. destruct (Z.ltb_spec i 128) as [H1|H1].
  - rewrite putint_small by lia. simpl. rewrite Z_of_byte_of_Z, Z.mod_small by lia. by rewrite (proj2 (Z.leb_le _ _)) by lia.
  - pose proof (read_putint i Hi) as Hr. destruct (putintSize_bound i Hi) as ((Hn1 & Hn8) & _ & _).
    pose proof (BigEndian.put_length (putintSize i) i) as Hl. fold (putint i) in Hl. f_equal. unfold encodeString.
    assert (encodeStringHeader (len (putint i)) = [byte_of_Z (128 + Z.of_nat (putintSize i))]) as Hh.
    { unfold encodeStringHeader, len. rewrite Hl. by rewrite (proj2 (Z.ltb_lt _ _)) by lia. }
    destruct (putint i) as [|x [|y b]]; rewrite ?Hh; [done| |done].
    unfold BigEndian.read in Hr. simpl in Hr. by rewrite (proj2 (Z.leb_gt _ _)) by lia.
Qed.

Lemma writeAll_items ws vs w :
  Forall2 (fun f v => forall w, f w = Ok (writeItem (itemFor v) w)) ws vs ->
  writeAll ws w = Ok (fold_left (fun w it => writeItem it w) (map itemFor vs) w).
Proof.
  intros Hw. revert w. induction Hw as [|f v ws vs Hf _ IH]; intros w; simpl; [done|]. rewrite Hf. cbn [obind]. apply IH.
Qed.

Lemma writeList_item ws vs w :
  Forall2 (fun f v => forall w, f w = Ok (writeItem (itemFor v) w)) ws vs -> writeList ws w = Ok (writeItem (Lst (map itemFor vs)) w).
Proof.
  intros Hw. unfold writeList. cbn [writeItem]. destruct (list_ w) as [lh w1]. by rewrite (writeAll_items ws vs w1 Hw).
Qed.

Lemma bits_le bits z : bits ∈ [8; 16; 32; 64] -> 0 <= z < 2 ^ bits -> 0 <= z < 2 ^ 64.
Proof. intros Hb Hz. rewrite !elem_of_cons, elem_of_nil in Hb. destruct Hb as [->|[->|[->|[->|[]]]]]; lia. Qed.

(** The writers write the items of the values. *)
Lemma writer_item t v w : typed t v -> writer t v w = Ok (writeItem (itemFor v) w).
Proof.
  revert v w. induction t as [bits| | | |n|e IH|fs IH] using goType_ind'; intros [z|b|z|b|vs] w Ht; try done.
  - destruct Ht as [Hb Hz]. simpl. by rewrite writeUint_item by (by eapply bits_le).
  - simpl. by destruct b.
  - simpl in Ht. simpl. unfold writeBigInt. rewrite (proj2 (Z.ltb_ge _ _)) by lia. by destruct (Z.eqb_spec z 0) as [->|].
  - apply writeList_item. simpl in Ht. induction Ht as [|x vs Hx _ IHvs]; simpl; constructor; [|done]. intros w'. by apply IH.
  - rewrite writer_struct. rewrite typed_struct in Ht. apply writeList_item. revert vs Ht.
    induction IH as [|f fs Hf _ IHfs]; intros [|x vs] Ht; simpl in *; try done. destruct Ht as [Hx Ht]. constructor; [|by apply IHfs].
    intros w'. by apply Hf.
Qed.

Lemma encode_typed t v : typed t v -> small (encode (itemFor v)) -> EncodeToBytes t v = Ok (encode (itemFor v)).
Proof.
  intros Ht Hs. unfold EncodeToBytes. rewrite writer_item by done. cbn [obind]. f_equal. by apply EncodeToBytes_encode.
Qed.

(** ** Reading *)

Lemma bind_Ok {St E A B} (m : M St E A) (k : A -> M St E B) s a s' : m s = (Ok a, s') -> bind m k s = k a s'.
Proof. intros Hm. unfold bind. by rewrite Hm. Qed.
Lemma bind_Err {St E A B} (m : M St E A) (k : A -> M St E B) s e s' : m s = (Err e, s') -> bind m k s = (Err e, s').
Proof. intros Hm. unfold bind. by rewrite Hm. Qed.
Lemma try_Ok {A} (m : S A) s a s' : m s = (Ok a, s') -> try m s = (Ok (inl a), s').
Proof. intros Hm. unfold try. by rewrite Hm. Qed.
Lemma try_Err {A} (m : S A) s e s' : m s = (Err e, s') -> try m s = (Ok (inr e), s').
Proof. intros Hm. unfold try. by rewrite Hm. Qed.

(** The stream has [b] to read, inside the lists of [st]. *)
Record here (s : Stream) (b : bytes) (st : list (Z * Z)) : Prop := {
  here_r : r s = b;
  here_remaining : remaining s = len b;
  here_limited : limited s = true;
  here_stack : stack s = st;
}.

Definition ready (s : Stream) (b : bytes) (st : list (Z * Z)) : Prop := here s b st /\ kind s = None.

(** The innermost list has [n] bytes left, and what remains when they are read. *)
Definition room (n : Z) (st : list (Z * Z)) : Prop := match st with [] => True | (p, z) :: _ => 0 <= p /\ p + n <= z < 2 ^ 64 end.
Definition push (n : Z) (st : list (Z * Z)) : list (Z * Z) := match st with [] => [] | (p, z) :: st' => (p + n, z) :: st' end.

Lemma push_push m n st : push n (push m st) = push (m + n) st.
Proof. destruct st as [|[p z] st]; [done|]. simpl. by rewrite Z.add_assoc. Qed.
Lemma push_0 st : push 0 st = st.
Proof. destruct st as [|[p z] st]; [done|]. simpl. by rewrite Z.add_0_r. Qed.
Lemma room_push m n st : 0 <= m -> room (m + n) st -> room n (push m st).
Proof. destruct st as [|[p z] st]; [done|]. simpl. lia. Qed.
Lemma room_le m n st : 0 <= m <= n -> room n st -> room m st.
Proof. destruct st as [|[p z] st]; [done|]. simpl. lia. Qed.

Lemma willRead_ok s b st n :
  here s b st -> 0 <= n <= len b -> room n st ->
  exists s', willRead n s = (Ok tt, s') /\ r s' = b /\ remaining s' = len b - n /\ limited s' = true /\ stack s' = push n st /\
    kind s' = None /\ byteval s' = byteval s.
Proof.
  intros [Hr Hm Hl Hst] Hn Hroom. unfold willRead, bind, modify, get, fail, ret. simpl. rewrite Hst. destruct st as [|[p z] st]; simpl in *.
  - rewrite Hl, Hm, (proj2 (Z.ltb_ge _ _)) by lia. eexists. split_and!; simpl; done.
  - assert (wrap64 (z - p) = z - p) as -> by (apply Z.mod_small; change two64 with (2 ^ 64); lia).
    assert (wrap64 (p + n) = p + n) as -> by (apply Z.mod_small; change two64 with (2 ^ 64); lia).
    rewrite (proj2 (Z.ltb_ge (z - p) n)) by lia. simpl. rewrite Hl, Hm, (proj2 (Z.ltb_ge (len b) n)) by lia. eexists. split_and!; simpl; done.
Qed.

Lemma readFull_ok s b rest st :
  here s (b ++ rest) st -> room (len b) st -> exists s', readFull (len b) s = (Ok b, s') /\ ready s' rest (push (len b) st).
Proof.
  intros Hh Hroom. pose proof (len_nonneg b). pose proof (len_nonneg rest).
  destruct (willRead_ok s _ st (len b) Hh) as (s1 & E & Hr & Hm & Hl & Hst & Hk & _); [rewrite len_app; lia|done|].
  unfold readFull. rewrite (bind_Ok _ _ _ _ _ E). unfold bind, gets, modify, ret. rewrite Hr, (proj2 (Z.ltb_ge _ _)) by (rewrite len_app; lia).
  unfold len. rewrite Nat2Z.id, take_app_length, drop_app_length. eexists. split; [done|].
  rewrite len_app in Hm. split; [|done]. constructor; simpl; [done|unfold len in *; lia|done|done].
Qed.

Lemma readByte_ok s x rest st :
  here s (x :: rest) st -> room 1 st -> exists s', readByte s = (Ok x, s') /\ ready s' rest (push 1 st).
Proof.
  intros Hh Hroom. assert (len (x :: rest) = 1 + len rest) as El by (unfold len; simpl; lia). pose proof (len_nonneg rest).
  destruct (willRead_ok s _ st 1 Hh) as (s1 & E & Hr & Hm & Hl & Hst & Hk & _); [lia|done|].
  unfold readByte. rewrite (bind_Ok _ _ _ _ _ E). unfold bind, gets, modify, ret. rewrite Hr. eexists. split; [done|].
  split; [|done]. constructor; simpl; [done|lia|done|done].
Qed.

(** The size of a long string or list. *)
Lemma longSize_ok k s size rest st :
  here s (putint size ++ rest) st -> 56 <= size < 2 ^ 64 -> room (Z.of_nat (putintSize size)) st ->
  exists s', longSize k (Z.of_nat (putintSize size)) s = (Ok (k, size, None), s') /\ ready s' rest (push (Z.of_nat (putintSize size)) st).
Proof.
  intros Hh Hs Hroom. pose proof (putintSize_bound size ltac:(lia)) as ((Hn1 & Hn8) & Hlt & Hge).
  assert (len (putint size) = Z.of_nat (putintSize size)) as Hl by (unfold len, putint; by rewrite BigEndian.put_length).
  pose proof (read_putint size ltac:(lia)) as Hrd. destruct (putint_head size ltac:(lia)) as (x & b & Eb & Hx).
  assert (exists s', readUint (Z.of_nat (putintSize size)) s = (Ok size, s') /\ ready s' rest (push (Z.of_nat (putintSize size)) st)) as (s' & E & Hr).
  { unfold readUint. rewrite (proj2 (Z.eqb_neq _ 0)) by lia. destruct (Z.eqb_spec (Z.of_nat (putintSize size)) 1) as [E1|E1].
    - rewrite Eb in *. destruct b as [|y b]; [|unfold len in Hl; simpl in Hl; lia]. rewrite E1 in *.
      destruct (readByte_ok s x rest st Hh Hroom) as (s1 & E & Hr). rewrite (bind_Ok _ _ _ _ _ E). exists s1. split; [|done].
      unfold BigEndian.read in Hrd. simpl in Hrd. unfold ret. do 2 f_equal. lia.
    - rewrite <- Hl in *. destruct (readFull_ok s _ rest st Hh Hroom) as (s1 & E & Hr). rewrite (bind_Ok _ _ _ _ _ E). exists s1.
      split; [|done]. rewrite Hrd, Eb. by rewrite (proj2 (Z.eqb_neq _ _)) by done. }
  exists s'. split; [|done]. unfold longSize. rewrite (bind_Ok _ _ _ _ _ (try_Ok _ _ _ _ E)). unfold ret. by rewrite (proj2 (Z.ltb_ge _ _)) by lia.
Qed.

(** ** The value ahead *)

(** The string or list is ahead, its header is read. *)
Record openAt (s : Stream) (it : item) (rest : bytes) (st : list (Z * Z)) : Prop := {
  open_here : here s (payloadOf it ++ rest) (push (len (headerOf it)) st);
  open_kind : kind s = Some (kindOf it);
}.

Lemma readKind_long s it rest st :
  here s (encode it ++ rest) st -> kindOf it <> Byte_ -> room (len (encode it)) st -> small (encode it) ->
  exists s', readKind s = (Ok (kindOf it, len (payloadOf it), None), s') /\ here s' (payloadOf it ++ rest) (push (len (headerOf it)) st).
Proof.
  intros Hh Hk Hroom Hsm. pose proof (encode_parts it) as Ep. rewrite Ep, <- app_assoc in Hh. rewrite Ep in Hroom, Hsm. rewrite len_app in Hroom.
  apply small_app in Hsm as [_ Hsm]. unfold small in Hsm. pose proof (len_nonneg (payloadOf it)) as Hp0.
  assert (exists k0 tag0 long0, (k0 = kindOf it) /\ headerOf it = puthead tag0 long0 (len (payloadOf it)) /\
    ((k0 = String_ /\ tag0 = 0x80 /\ long0 = 0xB7) \/ (k0 = List_ /\ tag0 = 0xC0 /\ long0 = 0xF7))) as (k0 & tag0 & long0 & Ek & Eh & Hc).
  { destruct it as [b|l].
    - exists String_, 0x80, 0xB7. split; [destruct b as [|x [|y b]]; simpl in *; try done; by destruct (Z_of_byte x <=? 127)|].
      split; [|by left]. unfold headerOf. by rewrite decide_False by done.
    - exists List_, 0xC0, 0xF7. split_and!; [done|done|by right]. }
  rewrite Eh in *. rewrite <- Ek. unfold puthead in Hh, Hroom |- *. destruct (Z.ltb_spec (len (payloadOf it)) 56) as [H56|H56].
  - destruct (readByte_ok s _ _ st Hh) as (s1 & E & [Hr _]); [eapply room_le; [|exact Hroom]; unfold len in *; simpl; lia|].
    unfold readKind. rewrite (bind_Ok _ _ _ _ _ (try_Ok _ _ _ _ E)). cbv zeta.
    exists (setByteval 0 s1). split; [|by destruct Hr].
    unfold bind, modify, ret. destruct Hc as [(-> & -> & ->)|(-> & -> & ->)]; match goal with |- context [Z_of_byte (byte_of_Z ?n)] => rewrite (tag_of n n) by (done || lia) end;
      repeat (rewrite (proj2 (Z.ltb_ge _ _)) by lia); rewrite (proj2 (Z.ltb_lt _ _)) by lia; repeat f_equal; lia.
  - pose proof (putintSize_bound (len (payloadOf it)) ltac:(lia)) as ((Hn1 & Hn8) & _).
    assert (len (putint (len (payloadOf it))) = Z.of_nat (putintSize (len (payloadOf it)))) as Hl by (unfold len at 1, putint; by rewrite BigEndian.put_length).
    assert (forall x, len (x :: putint (len (payloadOf it))) = 1 + Z.of_nat (putintSize (len (payloadOf it)))) as Hlc by (intros x; rewrite <- Hl; unfold len; simpl; lia).
    rewrite Hlc in *. destruct (readByte_ok s _ _ st Hh) as (s1 & E & [Hr _]); [eapply room_le; [|exact Hroom]; lia|].
    unfold readKind. rewrite (bind_Ok _ _ _ _ _ (try_Ok _ _ _ _ E)). cbv zeta.
    assert (here (setByteval 0 s1) (putint (len (payloadOf it)) ++ payloadOf it ++ rest) (push 1 st)) as Hr' by (by destruct Hr).
    destruct (longSize_ok k0 (setByteval 0 s1) _ _ _ Hr' ltac:(lia)) as (s2 & E2 & [Hr2 _]).
    { apply room_push; [lia|]. eapply room_le; [|exact Hroom]. lia. }
    exists s2. rewrite push_push in Hr2. split; [|done]. unfold bind at 1, modify at 1.
    destruct Hc as [(-> & -> & ->)|(-> & -> & ->)]; match goal with |- context [Z_of_byte (byte_of_Z ?n)] => rewrite (tag_of n n) by (done || lia) end;
      repeat (rewrite (proj2 (Z.ltb_ge _ _)) by lia); try rewrite (proj2 (Z.ltb_lt _ _)) by lia;
      match goal with |- longSize _ ?n _ = _ => replace n with (Z.of_nat (putintSize (len (payloadOf it)))) by lia end; exact E2.
Qed.

Lemma not_at_end s b st n : here s b st -> room n st -> 0 < n -> match stack s with (pos, sz) :: _ => pos =? sz | [] => false end = false.
Proof. intros [_ _ _ ->] Hr Hn. destruct st as [|[p z] st]; [done|]. simpl in Hr. apply Z.eqb_neq. lia. Qed.

(** What [Kind] does when [readKind] succeeds. *)
Lemma Kind_read s b st n k sz s1 b1 st1 :
  ready s b st -> room n st -> 0 < n -> readKind s = (Ok (k, sz, None), s1) -> here s1 b1 st1 -> 0 <= sz <= len b1 -> room sz st1 ->
  Kind_ s = (Ok (k, sz), setAhead (Some k) sz None s1).
Proof.
  intros [Hh Hk] Hr Hn E [Hr1 Hm1 Hl1 Hst1] Hsz Hr2. unfold Kind_. rewrite (bind_Ok _ _ _ _ _ (eq_refl : get s = (Ok s, s))).
  rewrite Hk, (not_at_end s b st n Hh Hr Hn), (bind_Ok _ _ _ _ _ E). cbv beta iota. unfold bind, get, modify.
  assert (tooLarge sz s1 = None) as ->; [|done]. unfold tooLarge. rewrite Hst1, Hl1, Hm1. destruct st1 as [|[p z] st1].
  - by rewrite (proj2 (Z.ltb_ge _ _)) by lia.
  - simpl in Hr2. assert (wrap64 (z - p) = z - p) as -> by (apply Z.mod_small; change two64 with (2 ^ 64); lia). by rewrite (proj2 (Z.ltb_ge _ _)) by lia.
Qed.

Lemma Kind_long s it rest st :
  ready s (encode it ++ rest) st -> kindOf it <> Byte_ -> room (len (encode it)) st -> small (encode it) ->
  exists s', Kind_ s = (Ok (kindOf it, len (payloadOf it)), s') /\ openAt s' it rest st.
Proof.
  intros Hs Hk Hroom Hsm. destruct (readKind_long s it rest st (proj1 Hs) Hk Hroom Hsm) as (s1 & E & Hh1).
  assert (0 < len (encode it)) as Hpos by (pose proof (encode_nonempty it); unfold len; lia). pose proof (len_nonneg (payloadOf it)). pose proof (len_nonneg rest).
  pose proof (f_equal len (encode_parts it)) as Hl. rewrite len_app in Hl. pose proof (len_nonneg (headerOf it)).
  eexists. split; [eapply Kind_read; [done|exact Hroom|done|exact E|exact Hh1|rewrite len_app; lia|apply room_push; [lia|by rewrite <- Hl]]|].
  by constructor; [destruct Hh1|].
Qed.

Lemma Kind_byte s x rest st :
  ready s (x :: rest) st -> Z_of_byte x <= 127 -> room 1 st ->
  exists s', Kind_ s = (Ok (Byte_, 0), s') /\ here s' rest (push 1 st) /\ kind s' = Some Byte_ /\ byteval s' = Z_of_byte x /\ kinderr s' = None.
Proof.
  intros Hs Hx Hroom. destruct (readByte_ok s x rest st (proj1 Hs) Hroom) as (s1 & E & [Hr _]). pose proof (Z_of_byte_range x). pose proof (len_nonneg rest).
  assert (readKind s = (Ok (Byte_, 0, None), setByteval (Z_of_byte x) (setByteval 0 s1))) as Ek.
  { unfold readKind. rewrite (bind_Ok _ _ _ _ _ (try_Ok _ _ _ _ E)). cbv zeta. unfold bind, modify, ret. by rewrite (proj2 (Z.ltb_lt _ _)) by lia. }
  assert (here (setByteval (Z_of_byte x) (setByteval 0 s1)) rest (push 1 st)) as Hh by (by destruct Hr).
  eexists. split; [eapply Kind_read; [done|exact Hroom|lia|exact Ek|exact Hh|lia|]|by destruct Hh].
  destruct st as [|[p z] st]; simpl in *; [done|lia].
Qed.

(** The kinds of strings. *)
Lemma Str_cases b : (exists x, b = [x] /\ Z_of_byte x <= 127 /\ encode (Str b) = [x]) \/
  (kindOf (Str b) = String_ /\ forall x, b = [x] -> 128 <= Z_of_byte x).
Proof.
  destruct b as [|x [|y b]]; [by right| |by right]. simpl. destruct (Z.leb_spec (Z_of_byte x) 127) as [Hx|Hx]; [left; by exists x|right].
  split; [done|]. intros x' [= <-]. lia.
Qed.

Lemma canon_string {A} b (e v : A) : (forall x, b = [x] -> 128 <= Z_of_byte x) -> match b with [x] => if Z_of_byte x <? 128 then e else v | _ => v end = v.
Proof. intros Hb. destruct b as [|x [|y b]]; [done| |done]. by rewrite (proj2 (Z.ltb_ge _ _)) by (by apply Hb). Qed.

Lemma Bytes_ok s b rest st :
  ready s (encode (Str b) ++ rest) st -> room (len (encode (Str b))) st -> small (encode (Str b)) ->
  exists s', Bytes_ s = (Ok b, s') /\ ready s' rest (push (len (encode (Str b))) st).
Proof.
  intros Hs Hroom Hsm. unfold Bytes_. destruct (Str_cases b) as [(x & -> & Hx & E)|[Hk Hc]].
  - rewrite E in *. destruct (Kind_byte s x rest st Hs Hx Hroom) as (s1 & Ek & Hh & _ & Hb & _). rewrite (bind_Ok _ _ _ _ _ Ek).
    unfold bind, modify, get, ret. simpl. rewrite Hb, byte_of_Z_of_byte. eexists. split; [done|]. split; [|done]. by destruct Hh.
  - destruct (Kind_long s _ rest st Hs ltac:(congruence) Hroom Hsm) as (s1 & Ek & [Hh _]). rewrite (bind_Ok _ _ _ _ _ Ek), Hk.
    pose proof (f_equal len (encode_parts (Str b))) as Hl. rewrite len_app in Hl. simpl payloadOf in *.
    destruct (readFull_ok s1 b rest _ Hh) as (s2 & E2 & Hr2); [apply room_push; [apply len_nonneg|by rewrite <- Hl]|].
    rewrite (bind_Ok _ _ _ _ _ E2). rewrite push_push, <- Hl in Hr2. exists s2. split; [|done].
    destruct b as [|x [|y b]]; [done| |done]. by rewrite (proj2 (Z.ltb_ge _ _)) by (by apply Hc).
Qed.

Lemma uintBytes_len z bits : bits ∈ [8; 16; 32; 64] -> 0 <= z < 2 ^ bits -> len (uintBytes z) <= bits / 8.
Proof.
  intros Hb Hz. unfold uintBytes. destruct (Z.eqb_spec z 0); [rewrite !elem_of_cons, elem_of_nil in Hb; destruct Hb as [->|[->|[->|[->|[]]]]]; done|].
  unfold len, putint. rewrite BigEndian.put_length. unfold putintSize. rewrite !elem_of_cons, elem_of_nil in Hb.
  destruct Hb as [->|[->|[->|[->|[]]]]];
    repeat match goal with |- context [if ?a <? ?c then _ else _] => destruct (Z.ltb_spec a c) end; first [lia|done].
Qed.

Lemma uintBytes_read z : 0 <= z < 2 ^ 64 -> BigEndian.read (uintBytes z) = z.
Proof. intros Hz. unfold uintBytes. destruct (Z.eqb_spec z 0) as [->|]; [done|by apply read_putint]. Qed.

Lemma readUint_ok s z rest st :
  0 <= z < 2 ^ 64 -> here s (uintBytes z ++ rest) st -> room (len (uintBytes z)) st ->
  exists s', readUint (len (uintBytes z)) s = (Ok z, s') /\ ready s' rest (push (len (uintBytes z)) st).
Proof.
  intros Hz Hh Hroom. pose proof (uintBytes_read z Hz) as Hrd. unfold readUint. unfold uintBytes in *. destruct (Z.eqb_spec z 0) as [->|Hnz].
  - change (len []) with 0. simpl. unfold bind, modify, ret. eexists. split; [done|]. rewrite push_0. split; [by destruct Hh|done].
  - destruct (putint_head z ltac:(lia)) as (x & b & Eb & Hx). rewrite Eb in *. rewrite (proj2 (Z.eqb_neq _ 0)) by (unfold len; simpl; lia).
    destruct (Z.eqb_spec (len (x :: b)) 1) as [E1|E1].
    + destruct b; [|unfold len in E1; simpl in E1; lia]. destruct (readByte_ok s x rest _ Hh Hroom) as (s2 & E2 & Hr2).
      rewrite (bind_Ok _ _ _ _ _ E2). exists s2. split; [|done]. unfold BigEndian.read in Hrd. simpl in Hrd. unfold ret. do 2 f_equal. lia.
    + destruct (readFull_ok s _ rest _ Hh Hroom) as (s2 & E2 & Hr2). rewrite (bind_Ok _ _ _ _ _ E2). exists s2. split; [|done].
      by rewrite (proj2 (Z.eqb_neq _ _)), Hrd by done.
Qed.

Lemma uint_ok s z bits rest st :
  let it := Str (uintBytes z) in
  ready s (encode it ++ rest) st -> room (len (encode it)) st -> bits ∈ [8; 16; 32; 64] -> 0 <= z < 2 ^ bits ->
  exists s', uint bits s = (Ok z, s') /\ ready s' rest (push (len (encode it)) st).
Proof.
  intros it Hs Hroom Hb Hz. pose proof (bits_le bits z Hb Hz) as Hz64. pose proof (uintBytes_len z bits Hb Hz) as Hl8.
  pose proof (uintBytes_read z Hz64) as Hrd.
  unfold uint. destruct (Str_cases (uintBytes z)) as [(x & Ex & Hx & E)|[Hk Hc]].
  - unfold it in *. rewrite E in *. destruct (Kind_byte s x rest st Hs Hx Hroom) as (s1 & Ek & Hh & _ & Hbv & _). rewrite (bind_Ok _ _ _ _ _ Ek).
    rewrite Ex in Hrd. unfold BigEndian.read in Hrd. simpl in Hrd. unfold bind, modify, get, ret. simpl. rewrite Hbv.
    assert (z <> 0) as Hnz by (intros ->; unfold uintBytes in Ex; done). rewrite (proj2 (Z.eqb_neq _ _)) by lia.
    eexists. split; [do 2 f_equal; lia|]. split; [|done]. by destruct Hh.
  - assert (bits / 8 <= 8) as Hb8 by (rewrite !elem_of_cons, elem_of_nil in Hb; destruct Hb as [->|[->|[->|[->|[]]]]]; done).
    assert (small (encode it)) as Hsm.
    { pose proof (f_equal len (encode_parts it)) as Hl. rewrite len_app in Hl. unfold small. assert (len (headerOf it) <= 1); [|change (len (payloadOf it)) with (len (uintBytes z)) in Hl; lia].
      unfold it, headerOf. destruct (decide _); [unfold len; simpl; lia|]. unfold encodeStringHeader. rewrite (proj2 (Z.ltb_lt _ _)) by lia. unfold len; simpl; lia. }
    destruct (Kind_long s it rest st Hs ltac:(unfold it; congruence) Hroom Hsm) as (s1 & Ek & [Hh Hkd]). rewrite (bind_Ok _ _ _ _ _ Ek).
    unfold it in *. rewrite Hk. change (payloadOf (Str (uintBytes z))) with (uintBytes z) in *. rewrite (proj2 (Z.ltb_ge (bits / 8) (len (uintBytes z)))) by done.
    pose proof (f_equal len (encode_parts (Str (uintBytes z)))) as Hl. rewrite len_app in Hl. simpl payloadOf in Hl.
    assert (room (len (uintBytes z)) (push (len (headerOf (Str (uintBytes z)))) st)) as Hroom2 by (apply room_push; [apply len_nonneg|by rewrite <- Hl]).
    destruct (readUint_ok s1 z rest _ Hz64 Hh Hroom2) as (s2 & E2 & Hr2). rewrite push_push, <- Hl in Hr2.
    rewrite (bind_Ok _ _ _ _ _ (try_Ok _ _ _ _ E2)). exists s2. split; [|done].
    destruct (Z.ltb_spec 0 (len (uintBytes z))) as [Hp|Hp]; [|done]. destruct (Z.ltb_spec z 128) as [H128|H128]; [exfalso|done].
    unfold uintBytes in *. destruct (Z.eqb_spec z 0); [unfold len in Hp; simpl in Hp; lia|]. rewrite putint_small in Hc by lia.
    specialize (Hc _ eq_refl). rewrite (tag_of z z) in Hc by (done || lia). lia.
Qed.

(** ** Lists *)

Lemma List_ok s l rest st :
  ready s (encode (Lst l) ++ rest) st -> room (len (encode (Lst l))) st -> small (encode (Lst l)) ->
  exists s', List s = (Ok (len (encodeAll l)), s') /\ ready s' (encodeAll l ++ rest) ((0, len (encodeAll l)) :: push (len (headerOf (Lst l))) st).
Proof.
  intros Hs Hroom Hsm. destruct (Kind_long s (Lst l) rest st Hs ltac:(done) Hroom Hsm) as (s1 & Ek & [Hh _]).
  unfold List. rewrite (bind_Ok _ _ _ _ _ Ek). simpl kindOf. cbv iota. unfold bind, modify, ret. eexists. split; [done|].
  destruct Hh as [Hr Hm Hl Hst]. split; [|done]. constructor; simpl; [done|done|done|by rewrite Hst].
Qed.

Lemma ListEnd_ok s rest sz st :
  ready s rest ((sz, sz) :: st) -> room sz st -> 0 <= sz -> exists s', ListEnd s = (Ok tt, s') /\ ready s' rest (push sz st).
Proof.
  intros [[Hr Hm Hl Hst] Hk] Hroom Hsz. unfold ListEnd, bind, gets. rewrite Hst, Z.eqb_refl. simpl negb. cbv iota zeta. unfold modify.
  eexists. split; [done|]. split; [|done]. constructor; simpl; [done|done|done|]. destruct st as [|[p z] st]; [done|]. simpl in *.
  f_equal. f_equal. apply Z.mod_small. change two64 with (2 ^ 64). lia.
Qed.

(** At the end of a list every decoder says so. *)
Lemma Kind_EOL s rest z st : ready s rest ((z, z) :: st) -> exists s', Kind_ s = (Err EOL, s') /\ ready s' rest ((z, z) :: st).
Proof.
  intros [[Hr Hm Hl Hst] Hk]. unfold Kind_, bind, get. rewrite Hk, Hst, Z.eqb_refl. unfold modify, fail. eexists. split; [done|]. by split.
Qed.

Lemma decoder_EOL t s rest z st : ready s rest ((z, z) :: st) -> exists s', decoder t s = (Err EOL, s') /\ ready s' rest ((z, z) :: st).
Proof.
  intros Hs. destruct (Kind_EOL s rest z st Hs) as (s' & E & Hs'). exists s'. split; [|done].
  destruct t; cbn [decoder]; unfold Bool, decodeBigInt, decodeByteArray, decodeListSlice, decodeStruct, uint, Bytes_, List;
    repeat first [exact E|eapply bind_Err].
Qed.

Definition decodes (t : goType) (v : goVal) : Prop :=
  forall s rest st, typed t v -> ready s (encode (itemFor v) ++ rest) st -> room (len (encode (itemFor v))) st -> small (encode (itemFor v)) ->
  exists s', decoder t s = (Ok v, s') /\ ready s' rest (push (len (encode (itemFor v))) st).

(** What is left of a list. *)
Lemma elems_ok e vs fuel s rest p z st :
  (forall v, decodes e v) -> Forall (typed e) vs -> ready s (encodeAll (map itemFor vs) ++ rest) ((p, z) :: st) ->
  0 <= p -> p + len (encodeAll (map itemFor vs)) = z -> z < 2 ^ 64 -> (length vs < fuel)%nat ->
  exists s', decodeSliceElems (decoder e) fuel s = (Ok vs, s') /\ ready s' rest ((z, z) :: st).
Proof.
  intros He Hvs. revert fuel s p. induction Hvs as [|v vs Hv _ IH]; intros fuel s p Hs Hp Hz Hz64 Hf; (destruct fuel as [|fuel]; [simpl in Hf; lia|]);
    cbn [decodeSliceElems].
  - change (len (encodeAll (map itemFor []))) with 0 in Hz. simpl in Hs. replace p with z in Hs by lia.
    destruct (decoder_EOL e s rest z st Hs) as (s' & E & Hs'). rewrite (bind_Ok _ _ _ _ _ (try_Err _ _ _ _ E)). by exists s'.
  - cbn [map] in *. rewrite encodeAll_cons in *. rewrite <- app_assoc in Hs. rewrite len_app in Hz.
    pose proof (len_nonneg (encode (itemFor v))). pose proof (len_nonneg (encodeAll (map itemFor vs))).
    destruct (He v s _ _ Hv Hs) as (s1 & E & Hs1); [simpl; lia|unfold small; lia|]. rewrite (bind_Ok _ _ _ _ _ (try_Ok _ _ _ _ E)).
    destruct (IH fuel s1 _ Hs1) as (s2 & E2 & Hs2); [lia|lia|done|simpl in Hf; lia|]. rewrite (bind_Ok _ _ _ _ _ E2). by exists s2.
Qed.

Lemma fields_ok fs vs s rest p z st :
  Forall (fun t => forall v, decodes t v) fs -> typedAll fs vs -> ready s (encodeAll (map itemFor vs) ++ rest) ((p, z) :: st) ->
  0 <= p -> p + len (encodeAll (map itemFor vs)) = z -> z < 2 ^ 64 ->
  exists s', decodeFields (map decoder fs) s = (Ok vs, s') /\ ready s' rest ((z, z) :: st).
Proof.
  intros Hfs. revert vs s p. induction Hfs as [|f fs Hf _ IH]; intros [|v vs] s p Ht Hs Hp Hz Hz64; simpl in Ht; try done; cbn [map decodeFields].
  - change (len (encodeAll (map itemFor []))) with 0 in Hz. simpl in Hs. replace p with z in Hs by lia. by exists s.
  - destruct Ht as [Hv Ht]. cbn [map] in *. rewrite encodeAll_cons in *. rewrite <- app_assoc in Hs. rewrite len_app in Hz.
    pose proof (len_nonneg (encode (itemFor v))). pose proof (len_nonneg (encodeAll (map itemFor vs))).
    destruct (Hf v s _ _ Hv Hs) as (s1 & E & Hs1); [simpl; lia|unfold small; lia|].
    assert (decodeField (decoder f) s = (Ok v, s1)) as E1 by (unfold decodeField; by rewrite (bind_Ok _ _ _ _ _ (try_Ok _ _ _ _ E))).
    rewrite (bind_Ok _ _ _ _ _ E1). destruct (IH vs s1 _ Ht Hs1) as (s2 & E2 & Hs2); [lia|lia|done|]. rewrite (bind_Ok _ _ _ _ _ E2). by exists s2.
Qed.

Lemma length_encodeAll l : (length l <= length (encodeAll l))%nat.
Proof. induction l as [|it l IH]; [done|]. rewrite encodeAll_cons, length_app. pose proof (encode_nonempty it). simpl. lia. Qed.

Lemma decodeByteArray_ok b s rest st :
  ready s (encode (Str b) ++ rest) st -> room (len (encode (Str b))) st -> small (encode (Str b)) -> b <> [Byte.x00] ->
  exists s', decodeByteArray (length b) s = (Ok (VBytes b), s') /\ ready s' rest (push (len (encode (Str b))) st).
Proof.
  intros Hs Hroom Hsm Hnz. unfold decodeByteArray. destruct (Str_cases b) as [(x & -> & Hx & E)|[Hk Hc]].
  - rewrite E in *. destruct (Kind_byte s x rest st Hs Hx Hroom) as (s1 & Ek & Hh & Hkd & Hb & He). rewrite (bind_Ok _ _ _ _ _ Ek). simpl.
    assert (Z_of_byte x <> 0) as Hx0.
    { intros H0. apply Hnz. f_equal. rewrite <- (byte_of_Z_of_byte x), H0. done. }
    assert (uint 64 s1 = (Ok (Z_of_byte x), setKind None s1)) as Eu.
    { unfold uint, Kind_, ahead, bind, get, modify, ret. rewrite Hkd. rewrite He, Hkd, Hb. by rewrite (proj2 (Z.eqb_neq _ _)). }
    rewrite (bind_Ok _ _ _ _ _ (try_Ok _ _ _ _ Eu)). rewrite byte_of_Z_of_byte. eexists. split; [done|]. split; [|done]. by destruct Hh.
  - destruct (Kind_long s _ rest st Hs ltac:(congruence) Hroom Hsm) as (s1 & Ek & [Hh _]). rewrite (bind_Ok _ _ _ _ _ Ek), Hk.
    pose proof (f_equal len (encode_parts (Str b))) as Hl. rewrite len_app in Hl. change (payloadOf (Str b)) with b in *.
    change (Z.of_nat (length b)) with (len b). rewrite Z.ltb_irrefl.
    destruct (readFull_ok s1 b rest _ Hh) as (s2 & E2 & Hr2); [apply room_push; [apply len_nonneg|by rewrite <- Hl]|].
    rewrite (bind_Ok _ _ _ _ _ E2). rewrite push_push, <- Hl in Hr2. exists s2. split; [|done].
    destruct b as [|x [|y b]]; [done| |done]. by rewrite (proj2 (Z.ltb_ge _ _)) by (by apply Hc).
Qed.

(** The end of a list that was opened at [st]. *)
Lemma close_ok s rest l st :
  ready s rest ((len (encodeAll l), len (encodeAll l)) :: push (len (headerOf (Lst l))) st) -> room (len (encode (Lst l))) st ->
  exists s', ListEnd s = (Ok tt, s') /\ ready s' rest (push (len (encode (Lst l))) st).
Proof.
  intros Hs Hroom. pose proof (f_equal len (encode_parts (Lst l))) as Hl. rewrite len_app in Hl. change (payloadOf (Lst l)) with (encodeAll l) in Hl.
  destruct (ListEnd_ok s rest _ _ Hs) as (s' & E & Hs'); [apply room_push; [apply len_nonneg|by rewrite <- Hl]|apply len_nonneg|].
  rewrite push_push, <- Hl in Hs'. by exists s'.
Qed.

Lemma slice_ok e vs : (forall v, decodes e v) -> decodes (TSlice e) (VList vs).
Proof.
  intros IH s rest st Ht Hs Hroom Hsm. cbn [itemFor] in *. set (l := map itemFor vs) in *.
  destruct (List_ok s l rest st Hs Hroom Hsm) as (s1 & E1 & Hs1). cbn [decoder]. unfold decodeListSlice. rewrite (bind_Ok _ _ _ _ _ E1).
  assert (exists s', decodeSliceElems (decoder e) (Datatypes.S (length (r s1))) s1 = (Ok vs, s') /\
    ready s' rest ((len (encodeAll l), len (encodeAll l)) :: push (len (headerOf (Lst l))) st)) as (s2 & E2 & Hs2).
  { apply (elems_ok e vs _ s1 rest 0); [done|done|done|done|done|by apply small_Lst|]. destruct Hs1 as [[-> _ _ _] _]. rewrite length_app.
    pose proof (length_encodeAll l) as Hll. unfold l in Hll at 1. rewrite length_map in Hll. lia. }
  destruct (Z.eqb_spec (len (encodeAll l)) 0) as [E0|E0].
  - destruct vs as [|v vs]; [|exfalso; unfold l in E0; cbn [map] in E0; rewrite encodeAll_cons, len_app in E0;
      pose proof (encode_nonempty (itemFor v)); unfold len in E0; lia].
    destruct (close_ok s1 rest l st) as (s3 & E3 & Hs3); [by rewrite E0 in *|done|]. rewrite (bind_Ok _ _ _ _ _ E3). by exists s3.
  - unfold bind at 1, gets. rewrite (bind_Ok _ _ _ _ _ E2). destruct (close_ok s2 rest l st Hs2 Hroom) as (s3 & E3 & Hs3).
    rewrite (bind_Ok _ _ _ _ _ E3). by exists s3.
Qed.

Lemma struct_ok fs vs : Forall (fun t => forall v, decodes t v) fs -> decodes (TStruct fs) (VList vs).
Proof.
  intros IH s rest st Ht Hs Hroom Hsm. cbn [itemFor] in *. set (l := map itemFor vs) in *.
  destruct (List_ok s l rest st Hs Hroom Hsm) as (s1 & E1 & Hs1). cbn [decoder]. unfold decodeStruct. rewrite (bind_Ok _ _ _ _ _ E1).
  destruct (fields_ok fs vs s1 rest 0 (len (encodeAll l)) _ IH Ht Hs1 ltac:(lia) ltac:(done) (small_Lst _ Hsm)) as (s2 & E2 & Hs2).
  rewrite (bind_Ok _ _ _ _ _ E2). destruct (close_ok s2 rest l st Hs2 Hroom) as (s3 & E3 & Hs3). rewrite (bind_Ok _ _ _ _ _ E3). by exists s3.
Qed.

Lemma bigBytes_head z x b : 0 <= z -> bigBytes z = x :: b -> Z_of_byte x <> 0.
Proof.
  intros Hz E Hx. pose proof (bigBytes_read z) as Hr. rewrite E, read_cons, Hx, Z.mul_0_l, Z.add_0_l in Hr. rewrite Z.abs_eq in Hr by lia.
  pose proof (BigEndian.read_range b) as Hb. rewrite Hr in Hb. unfold bigBytes in E. rewrite Z.abs_eq in E by lia.
  destruct (Z.eqb_spec z 0) as [|Hnz]; [done|]. apply (f_equal length) in E. rewrite BigEndian.put_length in E. simpl in E.
  pose proof (Z.log2_spec z ltac:(lia)) as [Hlo _]. pose proof (Z.log2_nonneg z). assert (Z.of_nat (length b) = Z.log2 z / 8) as El.
  { assert (0 <= Z.log2 z / 8) by (apply Z.div_pos; lia). lia. }
  rewrite El in Hb. change 256 with (2 ^ 8) in Hb. rewrite <- Z.pow_mul_r in Hb by (try apply Z.div_pos; lia).
  assert (2 ^ (8 * (Z.log2 z / 8)) <= 2 ^ Z.log2 z) by (apply Z.pow_le_mono_r; [lia|apply Z.mul_div_le; lia]). lia.
Qed.

Lemma decoder_ok t v : decodes t v.
Proof.
  revert v. induction t as [bits| | | |n|e IH|fs IH] using goType_ind'; intros [z|b|z|b|vs] s rest st Ht Hs Hroom Hsm; try done.
  - destruct Ht as [Hb Hz]. destruct (uint_ok s z bits rest st Hs Hroom Hb Hz) as (s' & E & Hs'). cbn [decoder]. rewrite (bind_Ok _ _ _ _ _ E). by exists s'.
  - assert (itemFor (VBool b) = Str (uintBytes (if b then 1 else 0))) as Ei by (by destruct b). rewrite Ei in *.
    destruct (uint_ok s (if b then 1 else 0) 8 rest st Hs Hroom ltac:(set_solver) ltac:(destruct b; lia)) as (s' & E & Hs').
    exists s'. split; [|done]. cbn [decoder]. unfold Bool. unfold bind at 1. rewrite (bind_Ok _ _ _ _ _ E). by destruct b.
  - destruct (Bytes_ok s _ rest st Hs Hroom Hsm) as (s' & E & Hs'). cbn [decoder]. unfold decodeBigInt. rewrite (bind_Ok _ _ _ _ _ E).
    exists s'. split; [|done]. simpl in Ht. pose proof (bigBytes_read z) as Hr. rewrite Z.abs_eq in Hr by lia. destruct (bigBytes z) as [|x b] eqn:Eb.
    + unfold ret. by rewrite <- Hr.
    + rewrite (proj2 (Z.eqb_neq _ _)) by (by eapply bigBytes_head). by rewrite Hr.
  - destruct (Bytes_ok s _ rest st Hs Hroom Hsm) as (s' & E & Hs'). cbn [decoder]. rewrite (bind_Ok _ _ _ _ _ E). by exists s'.
  - destruct Ht as [<- Hnz]. by apply decodeByteArray_ok.
  - by apply (slice_ok e vs IH).
  - by apply (struct_ok fs vs IH).
Qed.

(** Decoding at the end of the input. *)
Lemma decode_typed t v :
  typed t v -> small (encode (itemFor v)) -> DecodeBytes t (encode (itemFor v)) = Ok v.
Proof.
  intros Ht Hsm. unfold DecodeBytes.
  assert (0 < len (encode (itemFor v))) as Hpos by (pose proof (encode_nonempty (itemFor v)); unfold len; lia).
  destruct (decoder_ok t v (NewStream (encode (itemFor v)) (len (encode (itemFor v)))) [] [] Ht) as (s' & -> & Hs'); [|done|done|].
  - rewrite app_nil_r. split; [|done]. constructor; [done| |done|done]. simpl. by rewrite (proj2 (Z.ltb_lt _ _)).
  - by destruct Hs' as [[-> _ _ _] _].
Qed.

(** C35: encoding a value of a Go type (integers, booleans, big integers that are not
    negative, byte slices, byte arrays other than the array of one zero byte, slices
    and structs of these) whose encoding is shorter than 2^64 bytes succeeds, and
    decoding the bytes with the type gives the value back: the stream's kinds, sizes
    and list positions are followed to the end, with no error and nothing left over. *)
Theorem rlp_decode_encode t v :
  typed t v -> small (encode (itemFor v)) -> exists b, EncodeToBytes t v = Ok b /\ DecodeBytes t b = Ok v.
Proof. intros Ht Hsm. exists (encode (itemFor v)). split; [by apply encode_typed|by apply decode_typed]. Qed.

(** An account as it is stored: nonce, balance, root and code hash. *)
Definition accountType : goType := TStruct [TUint 64; TBig; TByteArray 32; TBytes].

Lemma rlp_decode_encode_witness :
  exists b, EncodeToBytes accountType (VList [VUint 7; VBig 300; VBytes (replicate 32 Byte.x11); VBytes [Byte.x00]]) = Ok b /\
    DecodeBytes accountType b = Ok (VList [VUint 7; VBig 300; VBytes (replicate 32 Byte.x11); VBytes [Byte.x00]]).
Proof.
  apply (rlp_decode_encode accountType).
  - simpl. split_and!; first [done|lia|set_solver].
  - vm_compute. reflexivity.
Defined.

(** ** Reading takes bytes away *)

Definition left (s : Stream) : nat := length (r s).
Definition shrinks {A} (m : S A) : Prop := forall s, (left (m s).2 <= left s)%nat.

Lemma shrinks_bind {A B} (m : S A) (k : A -> S B) : shrinks m -> (forall a, shrinks (k a)) -> shrinks (bind m k).
Proof.
  intros Hm Hk s. unfold bind. specialize (Hm s). destruct (m s) as [[a|e|p] s']; simpl in *; [|done|done].
  etransitivity; [apply Hk|done].
Qed.

Lemma shrinks_try {A} (m : S A) : shrinks m -> shrinks (try m).
Proof. intros Hm s. unfold try. specialize (Hm s). by destruct (m s) as [[a|e|p] s']. Qed.

Lemma shrinks_modify f : (forall s, left (f s) <= left s)%nat -> shrinks (modify f).
Proof. intros Hf s. apply Hf. Qed.

(** One step of such an argument: what the operation is made of. *)
Ltac shrinking := repeat first
  [ solve [auto] | apply shrinks_bind; [|intros] | apply shrinks_try | apply shrinks_modify; intros; apply le_n | intros ?; apply le_n
  | match goal with |- shrinks (match ?x with _ => _ end) => destruct x end ].

Lemma shrinks_willRead n : shrinks (willRead n).
Proof. unfold willRead. shrinking. Qed.

Lemma readFull_takes n s b s' : 0 <= n -> readFull n s = (Ok b, s') -> (Z.to_nat n + left s' <= left s)%nat.
Proof.
  intros Hn. unfold readFull, bind. pose proof (shrinks_willRead n s) as Hw. destruct (willRead n s) as [[[]|e|p] s1]; [|done|done].
  cbn [gets]. cbn [snd] in Hw. unfold gets. simpl. destruct (len (r s1) <? n) eqn:E; [done|]. apply Z.ltb_ge in E. intros [= <- <-].
  unfold left in *. simpl. rewrite length_drop. unfold len in E. lia.
Qed.

Lemma shrinks_readFull n : shrinks (readFull n).
Proof.
  unfold readFull. apply shrinks_bind; [apply shrinks_willRead|]. intros _ s. unfold bind, gets, modify, left. simpl.
  destruct (_ <? _); simpl; rewrite ?length_drop; lia.
Qed.

Lemma shrinks_readByte : shrinks readByte.
Proof.
  unfold readByte. apply shrinks_bind; [apply shrinks_willRead|]. intros _ s. unfold bind, gets, modify, left. simpl.
  destruct (r s) eqn:E; simpl; rewrite ?E; simpl; lia.
Qed.

Lemma shrinks_readUint n : shrinks (readUint n).
Proof. unfold readUint. pose proof shrinks_readByte. pose proof (shrinks_readFull n). shrinking. Qed.

Lemma shrinks_Kind : shrinks Kind_.
Proof.
  unfold Kind_, readKind, longSize, ahead. pose proof shrinks_readByte. pose proof shrinks_readUint.
  shrinking.
Qed.

Lemma shrinks_uint n : shrinks (uint n).
Proof. unfold uint. pose proof shrinks_Kind. pose proof shrinks_readUint. shrinking. Qed.

Lemma shrinks_Bytes : shrinks Bytes_.
Proof. unfold Bytes_. pose proof shrinks_Kind. pose proof shrinks_readFull. shrinking. Qed.

Lemma shrinks_decodeByteArray n : shrinks (decodeByteArray n).
Proof. unfold decodeByteArray. pose proof shrinks_Kind. pose proof shrinks_readFull. pose proof shrinks_uint. shrinking. Qed.

Lemma shrinks_List : shrinks List.
Proof. unfold List. pose proof shrinks_Kind. shrinking. Qed.

Lemma bind_inv {St E A B} (m : M St E A) (k : A -> M St E B) s b s' :
  bind m k s = (Ok b, s') -> exists a s1, m s = (Ok a, s1) /\ k a s1 = (Ok b, s').
Proof. unfold bind. destruct (m s) as [[a|e|p] s1] eqn:Em; intros Hk; [by exists a, s1|done|done]. Qed.

Lemma decodeByteArray_takes n s v s' : (1 < n)%nat -> decodeByteArray n s = (Ok v, s') -> (n + left s' <= left s)%nat.
Proof.
  intros Hn (a & s1 & Hk & Hd)%bind_inv. pose proof (shrinks_Kind s) as Hs. rewrite Hk in Hs. simpl in Hs. destruct a as [[| |] sz].
  - rewrite (proj2 (Nat.eqb_neq _ _)), (proj2 (Nat.ltb_lt _ _)) in Hd by lia. done.
  - destruct (_ <? _); [done|]. destruct (_ <? _); [done|]. apply bind_inv in Hd as (b & s2 & Hr & Hd). apply readFull_takes in Hr; [|lia].
    assert (s' = s2) as -> by (cbv [ret] in Hd; destruct b as [|x [|]]; [congruence|destruct (_ <? _); [done|congruence]|congruence]). lia.
  - done.
Qed.

Lemma decodeField_inv dec s v s' : decodeField dec s = (Ok v, s') -> dec s = (Ok v, s').
Proof.
  intros (a & s1 & Ht & Hd)%bind_inv. unfold try in Ht. destruct (dec s) as [[x|e|p] s2]; [|injection Ht as <- <-; done|done].
  injection Ht as <- <-. exact Hd.
Qed.

Lemma decodeFields_inv dec decs s vs s' :
  decodeFields (dec :: decs) s = (Ok vs, s') -> exists v vs' s1, dec s = (Ok v, s1) /\ decodeFields decs s1 = (Ok vs', s').
Proof.
  intros (v & s1 & Hv%decodeField_inv & Hd)%bind_inv. apply bind_inv in Hd as (vs' & s2 & Hd & E). cbv [ret] in E. exists v, vs', s1.
  split; [done|]. injection E as _ <-. exact Hd.
Qed.

(** An account takes more bytes than its root has. *)
Lemma account_long b v : DecodeBytes accountType b = Ok v -> 32 <= len b.
Proof.
  unfold DecodeBytes. destruct (decoder accountType (NewStream b (len b))) as [[v0|e|p] s'] eqn:Hd; [|done|done]. intros _.
  apply bind_inv in Hd as (? & s1 & Hl & Hd). apply bind_inv in Hd as (vs & s2 & Hf & _).
  pose proof (shrinks_List (NewStream b (len b))) as H1. rewrite Hl in H1. cbn [map] in Hf.
  apply decodeFields_inv in Hf as (? & ? & s3 & Hx & Hf). apply bind_inv in Hx as (? & s3' & Hx & E). cbv [ret] in E.
  pose proof (shrinks_uint 64 s1) as H2. rewrite Hx in H2. apply decodeFields_inv in Hf as (? & ? & s4 & Hy & Hf).
  assert (shrinks decodeBigInt) as Hb by (unfold decodeBigInt; pose proof shrinks_Bytes; shrinking).
  pose proof (Hb s3) as H3. cbn [decoder] in Hy. rewrite Hy in H3. apply decodeFields_inv in Hf as (? & ? & s5 & Hz & _).
  apply decodeByteArray_takes in Hz; [|lia]. injection E as _ <-. unfold left, len, NewStream in *. simpl in *. lia.
Qed.

Lemma negative_big_refused z : z < 0 -> EncodeToBytes TBig (VBig z) = Err NegativeInt.
Proof. intros Hz. unfold EncodeToBytes, writer, writeBigInt. by rewrite (proj2 (Z.ltb_lt z 0) Hz). Qed.

(** The array of one zero byte is not read past: the next value is the same byte. *)
Lemma byte_array_zero_sticks :
  EncodeToBytes (TStruct [TByteArray 1; TUint 64]) (VList [VBytes [Byte.x00]; VUint 5]) = Ok [Byte.xc2; Byte.x00; Byte.x05] /\
  DecodeBytes (TStruct [TByteArray 1; TUint 64]) [Byte.xc2; Byte.x00; Byte.x05] = Err CanonInt.
Proof. split; vm_compute; reflexivity. Qed.
