(* ===== verification/TrieGC.v ===== *)
(** * TrieGC: forgetting and flushing nodes

    The other half of [src/storage/trie/database.go]: dropping a reference to a root
    and with it the nodes nothing refers to any more ([Dereference]), writing a trie
    to the disk ([Commit]), and flushing the oldest nodes when the memory is used up
    ([Cap]).

    A batch collects writes; writing it succeeds.  The recursions follow references
    from node to node and have the number of cached nodes as fuel. *)
From S2P Require Import Prelude Bytes TrieEncoding Trie Rlp TrieNode TrieDatabase.
Local Open Scope Z_scope.
Local Open Scope zv_scope.

Definition nilDeref {A} : outcome trieError A := Panic "invalid memory address or nil pointer dereference".

(** ** Fields *)

Definition setFlushPrev (h : Hash) (n : cachedNode) : cachedNode :=
  mkCached (cn_node n) (cn_size n) (cn_parents n) (cn_children n) h (cn_flushNext n).
Definition setEnds (o e : Hash) (db : NodeDatabase) : NodeDatabase :=
  mkDatabase (diskdb db) (nodes db) o e (childrenSize db) (nodesSize db) (enablePrune db) (commitFullNodes db).
Definition addSizes (children ns : Z) (db : NodeDatabase) : NodeDatabase :=
  mkDatabase (diskdb db) (nodes db) (oldest db) (newest db) (childrenSize db + children) (nodesSize db + ns)
    (enablePrune db) (commitFullNodes db).
Definition setDisk (d : gmap Hash bytes) (db : NodeDatabase) : NodeDatabase :=
  mkDatabase d (nodes db) (oldest db) (newest db) (childrenSize db) (nodesSize db) (enablePrune db) (commitFullNodes db).

(** [db.nodes[h].field = ...] *)
Definition assign (h : Hash) (f : cachedNode -> cachedNode) (db : NodeDatabase) : outcome trieError NodeDatabase :=
  match nodes db !! h with
  | Some n => Ok (setNodes (fun ns => <[h := f n]> ns) db)
  | None => nilDeref
  end.

(** The [switch] that takes a node off the flush list. *)
Definition unlink (h : Hash) (n : cachedNode) (db : NodeDatabase) : outcome trieError NodeDatabase :=
  if bool_decide (h = oldest db) then
    assign (cn_flushNext n) (setFlushPrev zeroB32) (setEnds (cn_flushNext n) (newest db) db)
  else if bool_decide (h = newest db) then
    assign (cn_flushPrev n) (setFlushNext zeroB32) (setEnds (oldest db) (cn_flushPrev n) db)
  else
    db1 <-! assign (cn_flushPrev n) (setFlushNext (cn_flushNext n)) db ;;
    assign (cn_flushNext n) (setFlushPrev (cn_flushPrev n)) db1.

Fixpoint foldHashes {S} (f : Hash -> S -> outcome trieError S) (hs : list Hash) (s : S) : outcome trieError S :=
  match hs with
  | [] => Ok s
  | h :: hs' => s1 <-! f h s ;; foldHashes f hs' s1
  end.

(** ** Dropping references *)

(** [node.children[child]--] *)
Definition dropChild (child parent : Hash) (p : cachedNode) (db : NodeDatabase) : NodeDatabase :=
  match cn_children p with
  | Some cs =>
      match cs !! child with
      | Some k =>
          if 0 <? k then
            if k - 1 =? 0 then
              addSizes (- (32 + 2)) 0 (setNodes (fun ns => <[parent := setChildren (Some (base.delete child cs)) p]> ns) db)
            else setNodes (fun ns => <[parent := setChildren (Some (<[child := k - 1]> cs)) p]> ns) db
          else db
      | None => db
      end
  | None => db
  end.

Fixpoint dereference (fuel : nat) (child parent : Hash) (db : NodeDatabase) : outcome trieError NodeDatabase :=
  match fuel with
  | O => Err OutOfFuel
  | S fuel' =>
      match nodes db !! parent with
      | None => nilDeref
      | Some p =>
          let db1 := dropChild child parent p db in
          match nodes db1 !! child with
          | None => Ok db1
          | Some n =>
              let node := if 0 <? cn_parents n then setParents (cn_parents n - 1) n else n in
              let db2 := setNodes (fun ns => <[child := node]> ns) db1 in
              if cn_parents node =? 0 then
                db3 <-! unlink child node db2 ;;
                db4 <-! foldHashes (fun hash => dereference fuel' hash child) (childs node) db3 ;;
                Ok (addSizes (match cn_children node with Some _ => - cachedNodeChildrenSize | None => 0 end)
                      (- (32 + cn_size node)) (setNodes (base.delete child) db4))
              else Ok db2
          end
      end
  end.

Definition Dereference (root : Hash) (db : NodeDatabase) : outcome trieError NodeDatabase :=
  dereference (S (size (nodes db))) root zeroB32 db.

(** ** Batches ([src/storage/tasdb]) *)

Record batch := mkBatch { bt_puts : list (Hash * bytes); bt_size : Z }.
Definition IdealBatchSize : Z := 100 * 1024.

Definition NewBatch : batch := mkBatch [] 0.
Definition Put (h : Hash) (v : bytes) (b : batch) : batch := mkBatch (bt_puts b ++ [(h, v)]) (bt_size b + len v).
Definition written (puts : list (Hash * bytes)) (d : gmap Hash bytes) : gmap Hash bytes :=
  fold_left (fun d kv => <[kv.1 := kv.2]> d) puts d.
Definition writeBatch (b : batch) (db : NodeDatabase) : NodeDatabase := setDisk (written (bt_puts b) (diskdb db)) db.

(** ** Writing a trie to the disk *)

Fixpoint commit (fuel : nat) (hash : Hash) (s : NodeDatabase * batch) : outcome trieError (NodeDatabase * batch) :=
  match fuel with
  | O => Err OutOfFuel
  | S fuel' =>
      match nodes s.1 !! hash with
      | None => Ok s
      | Some n =>
          r <-! foldHashes (commit fuel') (childs n) s ;;
          let b := Put hash (rlp_ n) r.2 in
          if IdealBatchSize <=? bt_size b then Ok (writeBatch b r.1, NewBatch) else Ok (r.1, b)
      end
  end.

(** What the external references of a node take. *)
Definition ofNode (n : cachedNode) : Z :=
  match cn_children n with
  | Some cs => cachedNodeChildrenSize + Z.of_nat (size cs) * (32 + 2)
  | None => 0
  end.

Fixpoint uncache (fuel : nat) (hash : Hash) (db : NodeDatabase) : outcome trieError NodeDatabase :=
  match fuel with
  | O => Err OutOfFuel
  | S fuel' =>
      match nodes db !! hash with
      | None => Ok db
      | Some n =>
          db1 <-! unlink hash n db ;;
          db2 <-! foldHashes (uncache fuel') (childs n) db1 ;;
          Ok (addSizes 0 (- (32 + cn_size n) - ofNode n) (setNodes (base.delete hash) db2))
      end
  end.

(** [db.Commit] *)
Definition CommitNode (hash : Hash) (db : NodeDatabase) : outcome trieError NodeDatabase :=
  let fuel := S (size (nodes db)) in
  r <-! commit fuel hash (db, NewBatch) ;;
  uncache fuel hash (writeBatch r.2 r.1).

(** ** Flushing the oldest nodes *)

(** The size of the struct on a 64-bit machine. *)
Definition cachedNodeSize : Z := 96.

Definition metarootRefs (db : NodeDatabase) : outcome trieError Z :=
  match nodes db !! zeroB32 with
  | Some m => Ok (match cn_children m with Some cs => Z.of_nat (size cs) | None => 0 end * (32 + 2))
  | None => nilDeref
  end.

Definition Size (db : NodeDatabase) : outcome trieError Z :=
  refs <-! metarootRefs db ;;
  Ok (nodesSize db + childrenSize db + (Z.of_nat (size (nodes db)) - 1) * cachedNodeSize - refs).

(** Writes the nodes from [o] on while the memory is over the limit. *)
Fixpoint capWrite (fuel : nat) (total limit : Z) (o : Hash) (s : NodeDatabase * batch) :
    outcome trieError (Hash * (NodeDatabase * batch)) :=
  if (limit <? total) && negb (bool_decide (o = zeroB32)) then
    match fuel with
    | O => Err OutOfFuel
    | S fuel' =>
        match nodes s.1 !! o with
        | None => nilDeref
        | Some n =>
            let b := Put o (rlp_ n) s.2 in
            let s' := if IdealBatchSize <=? bt_size b then (writeBatch b s.1, NewBatch) else (s.1, b) in
            capWrite fuel' (total - (32 + cn_size n + cachedNodeSize) - ofNode n) limit (cn_flushNext n) s'
        end
    end
  else Ok (o, s).

(** Drops the nodes before [o]. *)
Fixpoint capDrop (fuel : nat) (o : Hash) (db : NodeDatabase) : outcome trieError NodeDatabase :=
  if bool_decide (oldest db = o) then Ok db
  else
    match fuel with
    | O => Err OutOfFuel
    | S fuel' =>
        match nodes db !! oldest db with
        | None => nilDeref
        | Some n =>
            capDrop fuel' o
              (addSizes (- ofNode n) (- (32 + cn_size n))
                 (setEnds (cn_flushNext n) (newest db) (setNodes (base.delete (oldest db)) db)))
        end
    end.

Definition Cap (limit : Z) (db : NodeDatabase) : outcome trieError NodeDatabase :=
  let fuel := size (nodes db) in
  refs <-! metarootRefs db ;;
  let total := nodesSize db + (Z.of_nat (size (nodes db)) - 1) * cachedNodeSize + (childrenSize db - refs) in
  r <-! capWrite fuel total limit (oldest db) (db, NewBatch) ;;
  db1 <-! capDrop fuel r.1 (writeBatch r.2.2 r.2.1) ;;
  if bool_decide (oldest db1 = zeroB32) then Ok db1 else assign (oldest db1) (setFlushPrev zeroB32) db1.
