(* ===== verification/TrieGCInv.v ===== *)
(** * TrieGCInv: what keeps the node database together

    The invariant of the cached nodes ([gcW]): the flush list is a doubly linked
    list of all of them in which a node comes after the nodes it refers to; whatever
    a cached node refers to is cached or on the disk; the disk is closed under
    references; and the counter of a node that is not on the disk is exactly the
    number of references to it.  In the middle of an operation some nodes are
    leaving ([Y]: off the list but still cached) and some references are still to be
    dropped ([D]).

    What a node refers to ([kids]) and its bytes ([contentAt]) are functions of its
    hash ([NodeGraph]): the nodes involved do not collide, and references have no
    cycles ([rank]). *)
From S2P Require Import Prelude Bytes TrieEncoding Rlp Trie TrieNode TrieDatabase TrieGC.
Local Open Scope Z_scope.
Local Open Scope zv_scope.

(** ** Nodes and references *)

(** What an object refers to by itself, and its bytes. *)
Definition objChildren (o : cachedObject) : list Hash := match o with Collapsed c => gatherChildren c | Blob _ => [] end.
Definition objBytes (o : cachedObject) : bytes := match o with Collapsed c => blobOf c | Blob b => b end.

(** A node reads back from its bytes. *)
Definition objOk (o : cachedObject) : Prop := match o with Collapsed c => rawOk c /\ small (encode (itemOf c)) | Blob _ => True end.

(** The nodes as their hashes determine them: what a node refers to through its own
    bytes and through the values in it, and the bytes. *)
Class NodeGraph := {
  inner : Hash -> list Hash;
  outer : Hash -> list Hash;
  contentAt : Hash -> bytes;
  rank : Hash -> nat;
  rank_kids h k : k ∈ inner h ++ outer h -> (rank k < rank h)%nat;
  kids_zero h : zeroB32 ∉ inner h ++ outer h;
}.

Definition kids `{NodeGraph} (h : Hash) : list Hash := inner h ++ outer h.

(** ** Counting *)

Fixpoint occ (c : Hash) (l : list Hash) : Z :=
  match l with [] => 0 | h :: l' => (if decide (c = h) then 1 else 0) + occ c l' end.

Lemma occ_nonneg c l : 0 <= occ c l.
Proof. induction l as [|h l IH]; simpl; [lia|]. destruct (decide _); lia. Qed.
Lemma occ_app c l l' : occ c (l ++ l') = occ c l + occ c l'.
Proof. induction l as [|h l IH]; simpl; lia. Qed.
Lemma occ_zero c l : occ c l = 0 <-> c ∉ l.
Proof.
  induction l as [|h l IH]; simpl; [split; [set_solver|done]|]. pose proof (occ_nonneg c l). destruct (decide (c = h)) as [->|]; [split; [lia|set_solver]|].
  rewrite not_elem_of_cons. split; [intros E; split; [done|apply IH; lia]|intros [_ E]; apply IH in E; lia].
Qed.
Lemma occ_pos c l : c ∈ l -> 0 < occ c l.
Proof. intros Hin. pose proof (occ_nonneg c l). destruct (decide (occ c l = 0)) as [E|]; [by apply occ_zero in E|lia]. Qed.

(** ** The flush list *)

Definition linksOf (ns : gmap Hash cachedNode) (h : Hash) : option (Hash * Hash) :=
  (fun n => (cn_flushPrev n, cn_flushNext n)) <$> ns !! h.

(** [prev] is the node before the list, if there is one. *)
Fixpoint dll (L : Hash -> option (Hash * Hash)) (prev : option Hash) (l : list Hash) : Prop :=
  match l with
  | [] => True
  | h :: l' =>
      exists p, L h = Some (p, default zeroB32 (head l')) /\ (forall q, prev = Some q -> p = q) /\ dll L (Some h) l'
  end.

Lemma dll_ext L L' prev l : (forall h, h ∈ l -> L' h = L h) -> dll L prev l -> dll L' prev l.
Proof.
  revert prev. induction l as [|h l IH]; intros prev HL; [done|]. intros (p & Hh & Hp & Hd). exists p. rewrite HL by set_solver.
  split; [done|]. split; [done|]. apply IH; [set_solver|done].
Qed.

Lemma dll_weaken L q l : dll L (Some q) l -> dll L None l.
Proof. destruct l as [|h l]; [done|]. intros (p & Hh & _ & Hd). by exists p. Qed.

Lemma dll_cached L prev l h : dll L prev l -> h ∈ l -> is_Some (L h).
Proof.
  revert prev. induction l as [|x l IH]; intros prev; [set_solver|]. intros (p & Hh & _ & Hd) [->|Hin]%elem_of_cons; [by eexists|by eapply IH].
Qed.

(** The neighbours of a node in the middle. *)
Definition before (prev : option Hash) (l1 : list Hash) : option Hash := match last l1 with Some x => Some x | None => prev end.

Lemma dll_app L prev l1 l2 :
  dll L prev (l1 ++ l2) -> dll L (before prev l1) l2.
Proof.
  revert prev. induction l1 as [|h l1 IH]; intros prev; [done|]. intros (p & Hh & _ & Hd). apply IH in Hd.
  unfold before in *. destruct l1 as [|x l1]; [exact Hd|]. rewrite last_cons_cons.
  destruct (last (x :: l1)) eqn:E; [exact Hd|]. by apply last_None in E.
Qed.

Lemma dll_at L prev l1 h l2 :
  dll L prev (l1 ++ h :: l2) -> exists p, L h = Some (p, default zeroB32 (head l2)) /\ forall q, before prev l1 = Some q -> p = q.
Proof. intros Hd. apply dll_app in Hd as (p & Hh & Hp & _). by exists p. Qed.

(** The list after an update at one node. *)
Definition upd {A} (L : Hash -> option A) (h : Hash) (f : A -> A) : Hash -> option A :=
  fun k => if decide (k = h) then f <$> L k else L k.

Lemma upd_ne {A} (L : Hash -> option A) h f k : k <> h -> upd L h f k = L k.
Proof. intros Hne. unfold upd. by rewrite decide_False. Qed.
Lemma upd_eq {A} (L : Hash -> option A) h f : upd L h f h = f <$> L h.
Proof. unfold upd. by rewrite decide_True. Qed.

Definition setNext (z : Hash) (pn : Hash * Hash) : Hash * Hash := (pn.1, z).
Definition setPrev (z : Hash) (pn : Hash * Hash) : Hash * Hash := (z, pn.2).

(** Dropping the head of a tail and pointing the last node before it elsewhere. *)
Lemma dll_relink_next L L' prev l1 q l2 l2' :
  NoDup (l1 ++ [q]) -> (forall k, k ∈ l2' -> k ∉ l1 ++ [q]) ->
  dll L prev (l1 ++ q :: l2) -> (forall k, k ∈ l1 ++ [q] -> L' k = L k) -> dll L' (Some q) l2' ->
  dll (upd L' q (setNext (default zeroB32 (head l2')))) prev (l1 ++ q :: l2').
Proof.
  revert prev. induction l1 as [|h l1 IH]; intros prev Hnd Hdis; simpl.
  - intros (p & Hq & Hp & _) HL Hd. exists p. rewrite upd_eq, HL, Hq by set_solver. split; [done|]. split; [done|].
    eapply dll_ext; [|exact Hd]. intros k Hk. apply upd_ne. specialize (Hdis k Hk). set_solver.
  - intros (p & Hh & Hp & Hd) HL Hd2. simpl in Hnd. apply NoDup_cons in Hnd as [Hni Hnd]. exists p.
    rewrite upd_ne, HL by set_solver. split; [rewrite Hh; by destruct l1|]. split; [done|]. apply IH; [done| |done|set_solver|done].
    intros k Hk. specialize (Hdis k Hk). set_solver.
Qed.

Lemma dll_relink_prev L prev z x l2 :
  x ∉ l2 -> dll L prev (x :: l2) -> dll (upd L x (setPrev (default zeroB32 z))) z (x :: l2).
Proof.
  intros Hx (p & Hl & _ & Hd). exists (default zeroB32 z). rewrite upd_eq, Hl. split; [done|]. split; [by intros q ->|].
  eapply dll_ext; [|exact Hd]. intros k Hk. apply upd_ne. set_solver.
Qed.

(** Everything of a cached node but its place in the list. *)
Definition coreOf (n : cachedNode) : cachedObject * Z * Z * option (gmap Hash Z) :=
  (cn_node n, cn_size n, cn_parents n, cn_children n).
Definition sameCores (db db' : NodeDatabase) : Prop :=
  diskdb db' = diskdb db /\ forall h, coreOf <$> (nodes db' !! h) = coreOf <$> (nodes db !! h).

Lemma sameCores_refl db : sameCores db db.
Proof. done. Qed.
Lemma sameCores_trans db db1 db2 : sameCores db db1 -> sameCores db1 db2 -> sameCores db db2.
Proof. intros [Hd H1] [Hd2 H2]. split; [congruence|]. intros h. by rewrite H2. Qed.

Lemma assign_ok h f g db :
  (forall n, coreOf (f n) = coreOf n) -> (forall n, (cn_flushPrev (f n), cn_flushNext (f n)) = g (cn_flushPrev n, cn_flushNext n)) ->
  is_Some (nodes db !! h) ->
  exists db', assign h f db = Ok db' /\ sameCores db db' /\ (forall k, linksOf (nodes db') k = upd (linksOf (nodes db)) h g k) /\
    oldest db' = oldest db /\ newest db' = newest db.
Proof.
  intros Hc Hl [n Hn]. unfold assign. rewrite Hn. eexists. split; [done|]. split; [|split; [|done]].
  - split; [done|]. intros k. simpl. destruct (decide (k = h)) as [->|]; [|by rewrite lookup_insert_ne].
    by rewrite lookup_insert_eq, Hn; simpl; rewrite Hc.
  - intros k. unfold upd, linksOf. simpl. destruct (decide (k = h)) as [->|]; [|by rewrite lookup_insert_ne].
    rewrite lookup_insert_eq, Hn. simpl. by rewrite Hl.
Qed.

Record shape (Y : gset Hash) (l : list Hash) (db : NodeDatabase) : Prop := {
  sh_dom h : is_Some (nodes db !! h) <-> h = zeroB32 \/ h ∈ l \/ h ∈ Y;
  sh_zero : (zeroB32 ∉ l) /\ (zeroB32 ∉ Y);
  sh_nodup : NoDup l;
  sh_leaving h : h ∈ l -> h ∉ Y;
  sh_oldest : oldest db = default zeroB32 (head l);
  sh_newest : l <> [] -> last l = Some (newest db);
  sh_links : dll (linksOf (nodes db)) None l;
}.

Lemma sameCores_cached db db' h : sameCores db db' -> is_Some (nodes db' !! h) <-> is_Some (nodes db !! h).
Proof. intros [_ H]. rewrite <- (fmap_is_Some coreOf), H, fmap_is_Some. done. Qed.

Lemma setEnds_cores o e db : sameCores db (setEnds o e db).
Proof. done. Qed.

Lemma here_links Y l1 c l2 db n :
  shape Y (l1 ++ c :: l2) db -> nodes db !! c = Some n ->
  cn_flushNext n = default zeroB32 (head l2) /\ forall q, last l1 = Some q -> cn_flushPrev n = q.
Proof.
  intros sh Hn. destruct (dll_at _ _ _ _ _ (sh_links _ _ _ sh)) as (p & Hp & Hq). unfold linksOf in Hp. rewrite Hn in Hp. injection Hp as <- <-.
  split; [done|]. intros q E. apply Hq. unfold before. by rewrite E.
Qed.

Lemma unlink_first Y c l2 db n :
  shape Y (c :: l2) db -> nodes db !! c = Some n ->
  exists db', unlink c n db = Ok db' /\ sameCores db db' /\ shape ({[c]} ∪ Y) l2 db'.
Proof.
  intros sh Hn. destruct (here_links Y [] c l2 db n sh Hn) as [Hnx _]. pose proof sh as [Hdom Hz Hnd Hlv Ho Hne Hlk]. simpl in *.
  unfold unlink. rewrite bool_decide_eq_true_2 by done. apply NoDup_cons in Hnd as [Hc Hnd].
  edestruct (assign_ok (cn_flushNext n) (setFlushPrev zeroB32) (setPrev zeroB32)) as (db' & -> & Hs & Hl & Ho' & He'); [done|done| |].
  { simpl. apply Hdom. rewrite Hnx. destruct l2 as [|x l2']; [by left|right; left; set_solver]. }
  exists db'. split; [done|]. split; [done|]. constructor.
  - intros h. rewrite (sameCores_cached _ _ h Hs). simpl. rewrite Hdom. set_solver.
  - set_solver.
  - done.
  - set_solver.
  - rewrite Ho'. done.
  - intros Hl2. rewrite He'. simpl. destruct l2 as [|x l2']; [done|]. rewrite <- (Hne ltac:(done)). by rewrite last_cons_cons.
  - eapply dll_ext; [intros h _; apply Hl|]. simpl. destruct l2 as [|x l2']; [done|]. destruct Hlk as (p & _ & _ & Hd).
    rewrite Hnx. apply (dll_relink_prev _ (Some c) None); [by apply NoDup_cons in Hnd as []|done].
Qed.

Lemma unlink_last Y l1 q c db n :
  shape Y ((l1 ++ [q]) ++ [c]) db -> nodes db !! c = Some n ->
  exists db', unlink c n db = Ok db' /\ sameCores db db' /\ shape ({[c]} ∪ Y) (l1 ++ [q]) db'.
Proof.
  intros sh Hn. destruct (here_links _ _ _ _ _ _ sh Hn) as [Hnx Hpv]. specialize (Hpv q (last_snoc _ _)). pose proof sh as [Hdom Hz Hnd Hlv Ho Hne Hlk].
  assert (c <> oldest db) as Hco.
  { rewrite Ho. intros E. apply NoDup_app in Hnd as (_ & Hx & _). apply (Hx c); [|set_solver].
    destruct l1 as [|a l1]; simpl in *; rewrite E; set_solver. }
  assert (c = newest db) as Hcn by (specialize (Hne ltac:(by destruct l1)); rewrite last_snoc in Hne; congruence).
  unfold unlink. rewrite bool_decide_eq_false_2, bool_decide_eq_true_2 by done.
  edestruct (assign_ok (cn_flushPrev n) (setFlushNext zeroB32) (setNext zeroB32)) as (db' & -> & Hs & Hl & Ho' & He'); [done|done| |].
  { simpl. apply Hdom. rewrite Hpv. right. left. set_solver. }
  exists db'. split; [done|]. split; [done|]. pose proof Hnd as (Hnd1 & Hx & _)%NoDup_app. constructor.
  - intros h. rewrite (sameCores_cached _ _ h Hs). simpl. rewrite Hdom. set_solver.
  - set_solver.
  - done.
  - intros h Hh. rewrite elem_of_union, elem_of_singleton. intros [->|Hy]; [apply (Hx c Hh); set_solver|apply (Hlv h); set_solver].
  - rewrite Ho'. simpl. rewrite Ho. by destruct l1.
  - intros _. rewrite He', last_snoc. simpl. by rewrite Hpv.
  - eapply dll_ext; [intros h _; apply Hl|]. simpl. rewrite Hpv. rewrite <- app_assoc in Hlk. simpl in Hlk.
    apply (dll_relink_next (linksOf (nodes db)) _ None l1 q [c] []); [done|set_solver|done|done|done].
Qed.

Lemma unlink_middle Y l1 q c x l2 db n :
  shape Y ((l1 ++ [q]) ++ c :: x :: l2) db -> nodes db !! c = Some n ->
  exists db', unlink c n db = Ok db' /\ sameCores db db' /\ shape ({[c]} ∪ Y) ((l1 ++ [q]) ++ x :: l2) db'.
Proof.
  intros sh Hn. destruct (here_links _ _ _ _ _ _ sh Hn) as [Hnx Hpv]. specialize (Hpv q (last_snoc _ _)). pose proof sh as [Hdom Hz Hnd Hlv Ho Hne Hlk]. simpl in Hnx.
  pose proof Hnd as (Hnd1 & Hx & [Hc [Hx2 Hnd2]%NoDup_cons]%NoDup_cons)%NoDup_app.
  assert (c <> oldest db) as Hco.
  { rewrite Ho. intros E. apply (Hx c); [|set_solver]. destruct l1 as [|a l1]; simpl in *; rewrite E; set_solver. }
  assert (c <> newest db) as Hcn.
  { intros E. specialize (Hne ltac:(by destruct l1)). rewrite last_app_cons, last_cons_cons in Hne. rewrite <- E in Hne.
    apply Hc. by apply last_Some_elem_of. }
  assert (q <> x) as Hqx by (intros ->; apply (Hx x); set_solver).
  unfold unlink. rewrite !bool_decide_eq_false_2 by done. rewrite Hnx, Hpv.
  edestruct (assign_ok q (setFlushNext x) (setNext x)) as (db1 & -> & Hs1 & Hl1 & Ho1 & He1); [done|done|apply Hdom; set_solver|]. cbn [obind].
  edestruct (assign_ok x (setFlushPrev q) (setPrev q)) as (db' & -> & Hs & Hl & Ho' & He'); [done|done|apply (sameCores_cached _ _ x Hs1), Hdom; set_solver|].
  exists db'. split; [done|]. split; [by eapply sameCores_trans|]. constructor.
  - intros h. rewrite (sameCores_cached _ _ h Hs), (sameCores_cached _ _ h Hs1), Hdom. set_solver.
  - set_solver.
  - apply NoDup_app. split; [done|]. split; [set_solver|by apply NoDup_cons].
  - intros h Hh. rewrite elem_of_union, elem_of_singleton. intros [->|Hy]; [|apply (Hlv h); set_solver].
    apply elem_of_app in Hh as [Hh|Hh]; [apply (Hx c Hh); set_solver|set_solver].
  - rewrite Ho', Ho1, Ho. by destruct l1.
  - intros _. rewrite He', He1. rewrite <- (Hne ltac:(by destruct l1)). by rewrite !last_app_cons, last_cons_cons.
  - eapply dll_ext; [intros h _; rewrite Hl|].
    { unfold upd at 1. instantiate (1 := upd (upd (linksOf (nodes db)) x (setPrev q)) q (setNext x)). unfold upd at 1 2.
      destruct (decide (h = x)) as [->|], (decide (x = q)); try congruence; rewrite ?Hl1; unfold upd; by rewrite ?decide_True, ?decide_False by done. }
    apply dll_app in Hlk as Htl. unfold before in Htl. rewrite last_snoc in Htl. destruct Htl as (_ & _ & _ & Htl).
    rewrite <- app_assoc in *. simpl in *.
    apply (dll_relink_next (linksOf (nodes db)) _ None l1 q (c :: x :: l2) (x :: l2)); [done| |done| |].
    + intros k Hk Hk2. apply (Hx k Hk2). set_solver.
    + intros k Hk. apply upd_ne. intros ->. apply (Hx x Hk). set_solver.
    + by apply (dll_relink_prev _ (Some c) (Some q)).
Qed.

Lemma unlink_ok Y l1 c l2 db n :
  shape Y (l1 ++ c :: l2) db -> nodes db !! c = Some n ->
  exists db', unlink c n db = Ok db' /\ sameCores db db' /\ shape ({[c]} ∪ Y) (l1 ++ l2) db'.
Proof.
  destruct (decide (l1 = [])) as [->|Hl1]; [apply unlink_first|]. destruct (exists_last Hl1) as (l1' & q & ->).
  destruct l2 as [|x l2]; [rewrite app_nil_r; apply unlink_last|apply unlink_middle].
Qed.

(** ** References *)

Lemma map_sum_agree {A B} (f : Hash -> A -> Z) (g : Hash -> B -> Z) (m : gmap Hash A) (m' : gmap Hash B) :
  (forall k, from_option (f k) 0 (m !! k) = from_option (g k) 0 (m' !! k)) -> map_sum f m = map_sum g m'.
Proof.
  revert m'. induction m as [|k x m Hk IH] using map_ind; intros m' Hag.
  - rewrite map_sum_empty. rewrite (map_sum_ext g (fun _ _ => 0)).
    + clear. induction m' as [|k x m Hk IH] using map_ind; [done|]. by rewrite map_sum_insert_new.
    + intros k x Hx. specialize (Hag k). rewrite lookup_empty, Hx in Hag. done.
  - rewrite map_sum_insert_new by done. rewrite (IH (base.delete k m')).
    + rewrite map_sum_delete, <- Hag, lookup_insert_eq. simpl. lia.
    + intros j. destruct (decide (j = k)) as [->|Hne]; [by rewrite Hk, lookup_delete_eq|].
      rewrite lookup_delete_ne by done. rewrite <- Hag. by rewrite lookup_insert_ne.
Qed.

(** References from the nodes that are not leaving. *)
Definition edgesOf (Y : gset Hash) (c h : Hash) (n : cachedNode) : Z :=
  if decide (h = zeroB32 \/ h ∈ Y) then 0 else occ c (childs n).

Definition metaCount (ns : gmap Hash cachedNode) (c : Hash) : Z :=
  match ns !! zeroB32 with
  | Some m => match cn_children m with Some cs => default 0 (cs !! c) | None => 0 end
  | None => 0
  end.

Definition refs (ns : gmap Hash cachedNode) (Y : gset Hash) (D : list Hash) (c : Hash) : Z :=
  map_sum (edgesOf Y c) ns + metaCount ns c + occ c D.

Lemma edgesOf_nonneg Y c h n : 0 <= edgesOf Y c h n.
Proof. unfold edgesOf. destruct (decide _); [lia|apply occ_nonneg]. Qed.

Lemma refs_edge ns Y D c h n :
  0 <= metaCount ns c -> ns !! h = Some n -> h <> zeroB32 -> h ∉ Y -> c ∈ childs n -> 0 < refs ns Y D c.
Proof.
  intros Hm Hh Hz HY Hc. pose proof (occ_nonneg c D). unfold refs.
  assert (edgesOf Y c h n <= map_sum (edgesOf Y c) ns) as Hle.
  { rewrite <- (insert_delete_id ns h n Hh), map_sum_insert_new by apply lookup_delete_eq.
    assert (0 <= map_sum (edgesOf Y c) (base.delete h ns)); [apply map_sum_nonneg; intros; apply edgesOf_nonneg|lia]. }
  unfold edgesOf in Hle at 1. rewrite decide_False in Hle by tauto. pose proof (occ_pos c (childs n) Hc). lia.
Qed.

Lemma refs_nonneg ns Y D c : 0 <= metaCount ns c -> 0 <= refs ns Y D c.
Proof.
  intros Hm. unfold refs. pose proof (occ_nonneg c D).
  assert (0 <= map_sum (edgesOf Y c) ns) by (apply map_sum_nonneg; intros; apply edgesOf_nonneg). lia.
Qed.

(** References depend on what the nodes refer to only. *)
Lemma refs_ext ns ns' Y D c :
  (forall h, h <> zeroB32 -> h ∉ Y -> from_option (fun n => occ c (childs n)) 0 (ns' !! h) = from_option (fun n => occ c (childs n)) 0 (ns !! h)) ->
  metaCount ns' c = metaCount ns c -> refs ns' Y D c = refs ns Y D c.
Proof.
  intros Hag Hm. unfold refs. rewrite Hm. do 2 f_equal. apply map_sum_agree. intros k. unfold edgesOf.
  destruct (decide (k = zeroB32 \/ k ∈ Y)) as [|Hk]; [by destruct (ns' !! k), (ns !! k)|apply Hag; tauto].
Qed.

(** A node that starts to leave turns its references into references to drop. *)
Lemma refs_leave ns Y D h n c :
  ns !! h = Some n -> h <> zeroB32 -> h ∉ Y -> refs ns ({[h]} ∪ Y) (childs n ++ D) c = refs ns Y D c.
Proof.
  intros Hh Hz HY. unfold refs. rewrite occ_app. rewrite <- (insert_delete_id ns h n Hh) at 1 3.
  rewrite !map_sum_insert_new by apply lookup_delete_eq.
  rewrite (map_sum_ext (edgesOf ({[h]} ∪ Y) c) (edgesOf Y c)).
  - unfold edgesOf at 1 3. rewrite decide_True by set_solver. rewrite decide_False by tauto. lia.
  - intros k x Hk. assert (k <> h) by (intros ->; by rewrite lookup_delete_eq in Hk). unfold edgesOf.
    destruct (decide (k = zeroB32 \/ k ∈ Y)); [by rewrite decide_True by set_solver|by rewrite decide_False by set_solver].
Qed.

(** A node that has left no longer counts. *)
Lemma refs_gone ns Y D h c :
  h <> zeroB32 -> h ∉ Y -> refs (base.delete h ns) Y D c = refs ns ({[h]} ∪ Y) D c.
Proof.
  intros Hz HY. unfold refs. do 2 f_equal.
  - apply map_sum_agree. intros k. destruct (decide (k = h)) as [->|Hne].
    + rewrite lookup_delete_eq. simpl. destruct (ns !! h); [|done]. simpl. unfold edgesOf. by rewrite decide_True by set_solver.
    + rewrite lookup_delete_ne by done. destruct (ns !! k) as [x|]; [|done]. simpl. unfold edgesOf.
      destruct (decide (k = zeroB32 \/ k ∈ Y)); [by rewrite decide_True by set_solver|by rewrite decide_False by set_solver].
  - unfold metaCount. by rewrite lookup_delete_ne by done.
Qed.
