(* ===== verification/TrieGCSteps.v ===== *)
(** * TrieGCSteps: how the invariant moves

    The steps the operations of the node database are made of - counting down, taking
    a node off the list, dropping its references, deleting it, writing it to the
    disk - and what they do to the invariant. *)
From S2P Require Import Prelude Bytes TrieEncoding Trie Rlp TrieNode TrieDatabase TrieGC TrieGCInv.
Local Open Scope Z_scope.
Local Open Scope zv_scope.

(** What a node holds and refers to. *)
Definition bodyOf (n : cachedNode) : cachedObject * option (gmap Hash Z) := (cn_node n, cn_children n).
Definition sameBodies (db db' : NodeDatabase) : Prop :=
  diskdb db' = diskdb db /\ forall h, bodyOf <$> (nodes db' !! h) = bodyOf <$> (nodes db !! h).

Lemma sameCores_bodies db db' : sameCores db db' -> sameBodies db db'.
Proof.
  intros [Hd Hs]. split; [done|]. intros h. specialize (Hs h). destruct (nodes db' !! h), (nodes db !! h); try done.
  injection Hs as E1 _ _ E2. simpl. unfold bodyOf. by rewrite E1, E2.
Qed.

Lemma sameBodies_back db db' h n' :
  sameBodies db db' -> nodes db' !! h = Some n' -> exists n, nodes db !! h = Some n /\ bodyOf n' = bodyOf n.
Proof.
  intros [_ Hs] Hn. specialize (Hs h). rewrite Hn in Hs. simpl in Hs. symmetry in Hs. apply fmap_Some in Hs as (n & Hn' & E). by exists n.
Qed.
Lemma sameBodies_sym db db' : sameBodies db db' -> sameBodies db' db.
Proof. intros [Hd Hs]. by split. Qed.
Lemma sameBodies_trans db db1 db2 : sameBodies db db1 -> sameBodies db1 db2 -> sameBodies db db2.
Proof. intros [Hd H1] [Hd2 H2]. split; [congruence|]. intros h. by rewrite H2. Qed.

Lemma sameCores_back db db' h n' :
  sameCores db db' -> nodes db' !! h = Some n' -> exists n, nodes db !! h = Some n /\ coreOf n' = coreOf n.
Proof.
  intros [_ Hs] Hn. specialize (Hs h). rewrite Hn in Hs. simpl in Hs. symmetry in Hs. apply fmap_Some in Hs as (n & Hn' & E). by exists n.
Qed.

Lemma body_childs n n' : bodyOf n' = bodyOf n -> childs n' = childs n.
Proof. unfold bodyOf, childs. intros [= -> ->]. done. Qed.
Lemma body_rlp n n' : bodyOf n' = bodyOf n -> rlp_ n' = rlp_ n.
Proof. unfold bodyOf, rlp_. intros [= -> _]. done. Qed.
Lemma core_parents n n' : coreOf n' = coreOf n -> cn_parents n' = cn_parents n.
Proof. unfold coreOf. by intros [= _ _ -> _]. Qed.

Lemma sameBodies_meta db db' c : sameBodies db db' -> metaCount (nodes db') c = metaCount (nodes db) c.
Proof.
  intros [_ Hs]. specialize (Hs zeroB32). unfold metaCount. destruct (nodes db' !! _) as [n'|], (nodes db !! _) as [n|]; try done.
  injection Hs as _ ->. done.
Qed.

Lemma sameBodies_refs db db' Y D c : sameBodies db db' -> refs (nodes db') Y D c = refs (nodes db) Y D c.
Proof.
  intros Hs. apply refs_ext; [|by apply sameBodies_meta]. intros h _ _. destruct Hs as [_ Hs]. specialize (Hs h).
  destruct (nodes db' !! h) as [n'|], (nodes db !! h) as [n|]; try done. simpl in *. by rewrite (body_childs n n') by congruence.
Qed.

Section gc.
Context `{G : NodeGraph}.

Definition onDisk (db : NodeDatabase) (h : Hash) : Prop := is_Some (diskdb db !! h).

(** A cached node is the one its hash stands for. *)
Definition bodyFor (h : Hash) (n : cachedNode) : Prop :=
  rlp_ n = contentAt h /\ objChildren (cn_node n) = inner h /\ objOk (cn_node n) /\
  forall cs c, cn_children n = Some cs -> is_Some (cs !! c) -> c ∈ outer h.

Lemma bodyFor_same h n n' : bodyOf n' = bodyOf n -> bodyFor h n -> bodyFor h n'.
Proof. intros [= En Ec] (Hr & Ho & Hk & Hx). unfold bodyFor, rlp_ in *. rewrite En, Ec. done. Qed.

Lemma childs_elem n c : c ∈ childs n <-> (exists cs, cn_children n = Some cs /\ is_Some (cs !! c)) \/ c ∈ objChildren (cn_node n).
Proof.
  unfold childs. rewrite elem_of_app. fold (objChildren (cn_node n)). apply or_iff_compat_r. destruct (cn_children n) as [cs|].
  - rewrite list_elem_of_fmap. split.
    + intros ([k v] & -> & Hin). apply elem_of_map_to_list in Hin. exists cs. split; [done|by eexists].
    + intros (cs' & [= <-] & [v Hv]). exists (c, v). split; [done|]. by apply elem_of_map_to_list.
  - split; [set_solver|by intros (? & ? & _)].
Qed.

Lemma bodyFor_childs h n c : bodyFor h n -> c ∈ childs n -> c ∈ kids h.
Proof.
  intros (_ & Ho & _ & Hx) [(cs & Ecs & Hc)|Hc]%childs_elem; apply elem_of_app; [right; by eapply Hx|left; by rewrite <- Ho].
Qed.

(** Nodes in [U] have not all their references yet. *)
Record closed (U : gset Hash) (l : list Hash) (db : NodeDatabase) : Prop := {
  cl_root : exists m, nodes db !! zeroB32 = Some m /\ cn_node m = Collapsed rawNil;
  cl_body h n : h ∈ l -> nodes db !! h = Some n -> bodyFor h n;
  cl_kids h n k : h ∈ l -> h ∉ U -> nodes db !! h = Some n -> k ∈ kids h -> k ∈ childs n \/ onDisk db k;
  cl_order l1 h l2 n c : l = l1 ++ h :: l2 -> nodes db !! h = Some n -> c ∈ childs n -> c ∈ l1 \/ onDisk db c;
  cl_disk h b : diskdb db !! h = Some b -> b = contentAt h /\ forall k, k ∈ kids h -> onDisk db k;
  cl_meta m cs c k :
    nodes db !! zeroB32 = Some m -> cn_children m = Some cs -> cs !! c = Some k -> 1 <= k < 2 ^ 16 /\ (c ∈ l \/ onDisk db c);
}.

Record counts (Y : gset Hash) (D : list Hash) (l : list Hash) (db : NodeDatabase) : Prop := {
  ct_exact c n : c ∈ l -> nodes db !! c = Some n -> diskdb db !! c = None -> cn_parents n = refs (nodes db) Y D c;
  ct_range c n : c ∈ l -> nodes db !! c = Some n -> 0 <= cn_parents n < 2 ^ 16;
}.

Record gcW (U Y : gset Hash) (D l : list Hash) (db : NodeDatabase) : Prop := {
  gw_shape : shape Y l db;
  gw_closed : closed U l db;
  gw_counts : counts Y D l db;
}.

Lemma meta_nonneg U l db c : closed U l db -> 0 <= metaCount (nodes db) c.
Proof.
  intros Hc. unfold metaCount. destruct (nodes db !! zeroB32) as [m|] eqn:Em; [|done]. destruct (cn_children m) as [cs|] eqn:Ecs; [|done].
  destruct (cs !! c) as [k|] eqn:Ek; simpl; [|done]. destruct (cl_meta _ _ _ Hc _ _ _ _ Em Ecs Ek) as [? _]. lia.
Qed.

(** Nothing on the list refers to a node without references. *)
Lemma unreferenced U Y D l db c :
  gcW U Y D l db -> refs (nodes db) Y D c <= 0 ->
  (forall h n, h ∈ l -> nodes db !! h = Some n -> c ∉ childs n) /\ metaCount (nodes db) c = 0.
Proof.
  intros [Hs Hc _] Hr. pose proof (meta_nonneg _ _ _ c Hc) as Hm. split.
  - intros h n Hh Hn Hin. enough (0 < refs (nodes db) Y D c) by lia.
    apply (refs_edge (nodes db) Y D c h n Hm Hn); [|by apply (sh_leaving _ _ _ Hs)|done]. intros ->. by apply (proj1 (sh_zero _ _ _ Hs)).
  - unfold refs in Hr. pose proof (occ_nonneg c D). assert (0 <= map_sum (edgesOf Y c) (nodes db)) by (apply map_sum_nonneg; intros; apply edgesOf_nonneg). lia.
Qed.

Lemma order_remove (l1 : list Hash) c l2 a h b : NoDup (l1 ++ c :: l2) -> l1 ++ l2 = a ++ h :: b ->
  exists a' b', l1 ++ c :: l2 = a' ++ h :: b' /\ forall x, x ∈ a' -> x = c \/ x ∈ a.
Proof.
  intros _ E. destruct (decide (length l1 <= length a)%nat) as [Hle|Hgt].
  - assert (exists a2, a = l1 ++ a2 /\ l2 = a2 ++ h :: b) as (a2 & -> & ->).
    { clear -E Hle. revert a E Hle. induction l1 as [|x l1 IH]; intros a E Hle; [by exists a|]. destruct a as [|y a]; [simpl in Hle; lia|].
      simpl in *. injection E as -> E. destruct (IH a E ltac:(lia)) as (a2 & -> & ->). by exists a2. }
    exists (l1 ++ c :: a2), b. rewrite <- app_assoc. simpl. split; [done|]. intros x. rewrite !elem_of_app, elem_of_cons. tauto.
  - assert (exists b1, l1 = a ++ h :: b1 /\ b = b1 ++ l2) as (b1 & -> & ->).
    { clear -E Hgt. revert l1 E Hgt. induction a as [|y a IH]; intros l1 E Hgt; destruct l1 as [|x l1]; simpl in *; try lia.
      - injection E as -> E. by exists l1.
      - injection E as -> E. destruct (IH l1 E ltac:(lia)) as (b1 & -> & ->). by exists b1. }
    exists a, (b1 ++ c :: l2). rewrite <- app_assoc. simpl. split; [done|]. by right.
Qed.

(** A node that is unreferenced or on the disk can go. *)
Lemma closed_remove U Y D l1 c l2 db db' :
  gcW U Y D (l1 ++ c :: l2) db -> sameBodies db db' -> (diskdb db !! c = None -> refs (nodes db) Y D c <= 0) -> closed U (l1 ++ l2) db'.
Proof.
  intros Hw Hs Hun. pose proof Hw as [Hsh Hc _]. assert (forall h, onDisk db' h <-> onDisk db h) as Hdk by (intros h; unfold onDisk; by rewrite (proj1 Hs)).
  assert (forall h, h ∈ l1 ++ l2 -> h ∈ l1 ++ c :: l2) as Hsub by (intros h; rewrite !elem_of_app, elem_of_cons; tauto).
  constructor.
  - destruct (cl_root _ _ _ Hc) as (m & Hm & Em). destruct Hs as [_ Hs]. specialize (Hs zeroB32). rewrite Hm in Hs.
    apply fmap_Some in Hs as (m' & Hm' & E). exists m'. split; [done|]. injection E as E _. congruence.
  - intros h n' Hh Hn'. destruct (sameBodies_back _ _ _ _ Hs Hn') as (n & Hn & E). eapply bodyFor_same; [done|].
    by apply (cl_body _ _ _ Hc h n); [apply Hsub|].
  - intros h n' k Hh HU Hn' Hk. destruct (sameBodies_back _ _ _ _ Hs Hn') as (n & Hn & E). rewrite (body_childs _ _ E), Hdk.
    by apply (cl_kids _ _ _ Hc h n k); [apply Hsub| | |].
  - intros a h b n' x Hl Hn' Hx. destruct (sameBodies_back _ _ _ _ Hs Hn') as (n & Hn & E). rewrite (body_childs _ _ E) in Hx. rewrite Hdk.
    destruct (order_remove l1 c l2 a h b (sh_nodup _ _ _ Hsh) Hl) as (a' & b' & Hl' & Ha').
    destruct (cl_order _ _ _ Hc a' h b' n x Hl' Hn Hx) as [Hin|Hd]; [|by right]. destruct (Ha' x Hin) as [->|]; [|by left].
    right. destruct (diskdb db !! c) eqn:Ed; [by eexists|]. destruct (unreferenced _ _ _ _ _ c Hw (Hun eq_refl)) as [Hno _].
    exfalso. apply (Hno h n); [|done|done]. rewrite Hl'. set_solver.
  - intros h b Hb. rewrite (proj1 Hs) in Hb. destruct (cl_disk _ _ _ Hc h b Hb) as [-> Hk]. split; [done|]. intros k Hin. by apply Hdk, Hk.
  - intros m' cs x k Hm' Hcs Hx. destruct (sameBodies_back _ _ _ _ Hs Hm') as (m & Hm & E). injection E as _ E. rewrite E in Hcs.
    destruct (cl_meta _ _ _ Hc m cs x k Hm Hcs Hx) as [Hk [Hin|Hd]]; (split; [done|]); [|right; by apply Hdk].
    destruct (decide (x = c)) as [->|]; [|left; set_solver]. right. apply Hdk. destruct (diskdb db !! c) eqn:Ed; [by eexists|].
    destruct (unreferenced _ _ _ _ _ c Hw (Hun eq_refl)) as [_ Hm0]. unfold metaCount in Hm0. rewrite Hm, Hcs, Hx in Hm0. simpl in Hm0. lia.
Qed.

Lemma refs_app ns Y A D c : refs ns Y (A ++ D) c = refs ns Y D c + occ c A.
Proof. unfold refs. rewrite occ_app. lia. Qed.

(** Leaving, when the references of the node are still to be dropped ... *)
Lemma leave_drop U Y D l1 c l2 db db' n :
  gcW U Y D (l1 ++ c :: l2) db -> nodes db !! c = Some n -> (diskdb db !! c = None -> refs (nodes db) Y D c <= 0) ->
  sameCores db db' -> shape ({[c]} ∪ Y) (l1 ++ l2) db' -> gcW U ({[c]} ∪ Y) (childs n ++ D) (l1 ++ l2) db'.
Proof.
  intros Hw Hn Hun Hs Hsh. pose proof (sameCores_bodies _ _ Hs) as Hb. pose proof Hw as [Hsh0 Hc Hct].
  split; [done|by eapply closed_remove|]. assert (c ∈ l1 ++ c :: l2) as Hin by set_solver.
  constructor; intros x n' Hx Hn'; destruct (sameCores_back _ _ _ _ Hs Hn') as (n0 & Hn0 & E); rewrite (core_parents _ _ E).
  - intros Hd. rewrite (sameBodies_refs _ _ _ _ _ Hb). rewrite (proj1 Hs) in Hd.
    rewrite (refs_leave _ _ _ _ _ _ Hn); [apply (ct_exact _ _ _ _ Hct); [set_solver|done|done]| |by apply (sh_leaving _ _ _ Hsh0)].
    intros ->. by apply (proj1 (sh_zero _ _ _ Hsh0)).
  - apply (ct_range _ _ _ _ Hct x); [set_solver|done].
Qed.

(** ... and when the node is on the disk, with everything it refers to. *)
Lemma leave_disk U Y D l1 c l2 db db' n :
  gcW U Y D (l1 ++ c :: l2) db -> nodes db !! c = Some n -> onDisk db c ->
  sameCores db db' -> shape ({[c]} ∪ Y) (l1 ++ l2) db' -> gcW U ({[c]} ∪ Y) D (l1 ++ l2) db'.
Proof.
  intros Hw Hn [b Hdc] Hs Hsh. pose proof Hw as [_ Hc _]. assert (c ∈ l1 ++ c :: l2) as Hin by set_solver.
  destruct (leave_drop U Y D l1 c l2 db db' n Hw Hn ltac:(congruence) Hs Hsh) as [H1 H2 [He Hr]]. split; [done|done|]. constructor; [|done].
  intros x n' Hx Hn' Hd. rewrite (He x n' Hx Hn' Hd), refs_app. enough (occ x (childs n) = 0) by lia. apply occ_zero. intros Hxn.
  destruct (cl_disk _ _ _ Hc c b Hdc) as [_ Hkd].
  destruct (Hkd x (bodyFor_childs c n x (cl_body _ _ _ Hc c n Hin Hn) Hxn)) as [b' Hb'].
  rewrite (proj1 Hs) in Hd. congruence.
Qed.

(** Having left. *)
Lemma leave_done U Y D l c a b db :
  gcW U ({[c]} ∪ Y) D l db -> c <> zeroB32 -> c ∉ Y -> gcW U Y D l (addSizes a b (setNodes (base.delete c) db)).
Proof.
  intros [Hsh Hc Hct] Hz HY. assert (c ∉ l) as Hcl by (intros Hl; apply (sh_leaving _ _ _ Hsh c Hl); set_solver).
  assert (forall h, h <> c -> base.delete c (nodes db) !! h = nodes db !! h) as Hlk by (intros h Hne; by rewrite lookup_delete_ne).
  assert (forall h, h ∈ l -> h <> c) as Hne by (intros h Hh ->; done). split.
  - destruct Hsh as [Hdom Hz0 Hnd Hlv Ho He Hl]. constructor; simpl; [|set_solver|done|set_solver|done|done|].
    + intros h. destruct (decide (h = c)) as [->|Hn]; [|rewrite Hlk, Hdom by done; set_solver].
      rewrite lookup_delete_eq. split; [by intros []|set_solver].
    + eapply dll_ext; [|exact Hl]. intros h Hh. unfold linksOf. by rewrite Hlk by auto.
  - constructor; unfold onDisk; simpl.
    + rewrite Hlk by done. apply Hc.
    + intros h n Hh. rewrite Hlk by auto. by apply Hc.
    + intros h n k Hh HU. rewrite Hlk by auto. by apply (cl_kids _ _ _ Hc).
    + intros l1 h l2 n x Hl. rewrite Hlk by (apply Hne; rewrite Hl; set_solver). by apply (cl_order _ _ _ Hc l1 h l2).
    + apply Hc.
    + intros m cs x k. rewrite Hlk by done. apply (cl_meta _ _ _ Hc).
  - constructor; simpl; intros x n Hx; rewrite Hlk by auto.
    + intros Hn Hd. rewrite refs_gone by done. by apply Hct.
    + by apply (ct_range _ _ _ _ Hct).
Qed.

(** A change to a node that is leaving is not seen. *)
Lemma change_leaving U Y D l db y p a b :
  gcW U Y D l db -> y ∈ Y -> gcW U Y D l (addSizes a b (setNodes (fun ns => <[y := p]> ns) db)).
Proof.
  intros [Hsh Hc Hct] Hy. assert (y <> zeroB32) as Hyz by (intros ->; by apply (proj2 (sh_zero _ _ _ Hsh))).
  assert (forall h, h <> y -> <[y := p]> (nodes db) !! h = nodes db !! h) as Hlk by (intros h Hne; by rewrite lookup_insert_ne).
  assert (forall h, h ∈ l -> h <> y) as Hne by (intros h Hh ->; by apply (sh_leaving _ _ _ Hsh y)). split.
  - destruct Hsh as [Hdom Hz0 Hnd Hlv Ho He Hl]. constructor; simpl; try done.
    + intros h. destruct (decide (h = y)) as [->|Hn]; [|by rewrite Hlk]. rewrite lookup_insert_eq. split; [by auto|by eexists].
    + eapply dll_ext; [|exact Hl]. intros h Hh. unfold linksOf. by rewrite Hlk by auto.
  - constructor; unfold onDisk; simpl.
    + rewrite Hlk by done. apply Hc.
    + intros h n Hh. rewrite Hlk by auto. by apply Hc.
    + intros h n k Hh HU. rewrite Hlk by auto. by apply (cl_kids _ _ _ Hc).
    + intros l1 h l2 n x Hl. rewrite Hlk by (apply Hne; rewrite Hl; set_solver). by apply (cl_order _ _ _ Hc l1 h l2).
    + apply Hc.
    + intros m cs x k. rewrite Hlk by done. apply (cl_meta _ _ _ Hc).
  - constructor; simpl; intros x n Hx; rewrite Hlk by auto; [|by apply (ct_range _ _ _ _ Hct)].
    intros Hn Hd. rewrite (refs_ext (nodes db)); [by apply Hct| |].
    + intros h _ HY. by rewrite Hlk by (intros ->; done).
    + unfold metaCount. by rewrite Hlk by done.
Qed.

Lemma dropChild_leaving U Y D l db c y p :
  gcW U Y D l db -> y ∈ Y -> gcW U Y D l (dropChild c y p db).
Proof.
  intros Hw Hy. unfold dropChild. destruct (cn_children p) as [cs|]; [|done]. destruct (cs !! c) as [k|]; [|done].
  destruct (0 <? k); [|done]. destruct (k - 1 =? 0); [by apply change_leaving|].
  pose proof (change_leaving U Y D l db y (setChildren (Some (<[c:=k - 1]> cs)) p) 0 0 Hw Hy) as Hg. revert Hg.
  unfold addSizes, setNodes. simpl. by rewrite !Z.add_0_r.
Qed.

(** A change that keeps bodies and places. *)
Lemma shape_bodies Y l db db' :
  shape Y l db -> sameBodies db db' -> (forall h, linksOf (nodes db') h = linksOf (nodes db) h) ->
  oldest db' = oldest db -> newest db' = newest db -> shape Y l db'.
Proof.
  intros [Hdom Hz Hnd Hlv Ho He Hl] [_ Hs] Hlk Ho' He'. constructor; try done.
  - intros h. rewrite <- Hdom, <- (fmap_is_Some bodyOf), Hs, fmap_is_Some. done.
  - congruence.
  - intros Hne. rewrite He'. auto.
  - eapply dll_ext; [|exact Hl]. auto.
Qed.

Lemma closed_bodies U l db db' : closed U l db -> sameBodies db db' -> closed U l db'.
Proof.
  intros Hc Hs. assert (forall h, onDisk db' h <-> onDisk db h) as Hdk by (intros h; unfold onDisk; by rewrite (proj1 Hs)). constructor.
  - destruct (cl_root _ _ _ Hc) as (m & Hm & Em). destruct (sameBodies_back _ _ _ _ (sameBodies_sym _ _ Hs) Hm) as (m' & Hm' & [= E _]).
    exists m'. split; [done|congruence].
  - intros h n' Hh Hn'. destruct (sameBodies_back _ _ _ _ Hs Hn') as (n & Hn & E). eapply bodyFor_same; [done|].
    by apply (cl_body _ _ _ Hc h n).
  - intros h n' k Hh HU Hn' Hk. destruct (sameBodies_back _ _ _ _ Hs Hn') as (n & Hn & E). rewrite (body_childs _ _ E), Hdk.
    by apply (cl_kids _ _ _ Hc h n k).
  - intros l1 h l2 n' x Hl Hn'. destruct (sameBodies_back _ _ _ _ Hs Hn') as (n & Hn & E). rewrite (body_childs _ _ E), Hdk.
    by apply (cl_order _ _ _ Hc l1 h l2).
  - intros h b Hb. rewrite (proj1 Hs) in Hb. destruct (cl_disk _ _ _ Hc h b Hb) as [-> Hk]. split; [done|]. intros k Hin. by apply Hdk, Hk.
  - intros m' cs x k Hm' Hcs Hx. destruct (sameBodies_back _ _ _ _ Hs Hm') as (m & Hm & [= _ E]). rewrite E in Hcs. rewrite Hdk.
    by apply (cl_meta _ _ _ Hc m cs).
Qed.

Lemma occ_one c x : occ x [c] = if decide (x = c) then 1 else 0.
Proof. simpl. lia. Qed.

(** The counter follows a dropped reference. *)
Definition countDown (n : cachedNode) : cachedNode := if 0 <? cn_parents n then setParents (cn_parents n - 1) n else n.

Lemma insert_bodies db h n n' :
  nodes db !! h = Some n -> bodyOf n' = bodyOf n -> sameBodies db (setNodes (fun ns => <[h := n']> ns) db).
Proof.
  intros Hn E. split; [done|]. intros k. simpl. destruct (decide (k = h)) as [->|]; [|by rewrite lookup_insert_ne].
  rewrite lookup_insert_eq, Hn. simpl. by rewrite E.
Qed.

Lemma insert_links db h n n' :
  nodes db !! h = Some n -> cn_flushPrev n' = cn_flushPrev n -> cn_flushNext n' = cn_flushNext n ->
  forall k, linksOf (<[h := n']> (nodes db)) k = linksOf (nodes db) k.
Proof.
  intros Hn E1 E2 k. unfold linksOf. destruct (decide (k = h)) as [->|]; [|by rewrite lookup_insert_ne].
  rewrite lookup_insert_eq, Hn. simpl. by rewrite E1, E2.
Qed.

Lemma countDown_ok U Y D l db c n :
  gcW U Y (c :: D) l db -> c ∈ l -> nodes db !! c = Some n -> gcW U Y D l (setNodes (fun ns => <[c := countDown n]> ns) db).
Proof.
  intros [Hsh Hc Hct] Hin Hn. assert (bodyOf (countDown n) = bodyOf n) as Eb by (unfold countDown; by destruct (0 <? _)).
  pose proof (insert_bodies db c n (countDown n) Hn Eb) as Hs. split; [|by eapply closed_bodies|].
  - eapply shape_bodies; [done|done| |done|done]. apply (insert_links db c n); [done|unfold countDown; by destruct (0 <? _)..].
  - constructor; intros x n' Hx Hn'; simpl in Hn'.
    + intros Hd. rewrite (sameBodies_refs _ _ _ _ _ Hs). simpl in Hd.
      assert (refs (nodes db) Y (c :: D) x = refs (nodes db) Y D x + occ x [c]) as E by (apply (refs_app _ _ [c])). rewrite occ_one in E.
      destruct (decide (x = c)) as [->|Hne].
      * rewrite lookup_insert_eq in Hn'. injection Hn' as <-. pose proof (ct_exact _ _ _ _ Hct c n Hx Hn Hd) as Hp.
        pose proof (refs_nonneg (nodes db) Y D c (meta_nonneg _ _ _ c Hc)). unfold countDown. rewrite (proj2 (Z.ltb_lt _ _)) by lia. simpl. lia.
      * rewrite lookup_insert_ne in Hn' by done. rewrite (ct_exact _ _ _ _ Hct x n' Hx Hn' Hd). lia.
    + destruct (decide (x = c)) as [->|Hne]; [|rewrite lookup_insert_ne in Hn' by done; by apply (ct_range _ _ _ _ Hct x)].
      rewrite lookup_insert_eq in Hn'. injection Hn' as <-. pose proof (ct_range _ _ _ _ Hct c n Hx Hn). unfold countDown.
      destruct (Z.ltb_spec 0 (cn_parents n)); simpl; lia.
Qed.

(** A change to the references from outside. *)
Lemma change_root U Y D D' l db m m' a b :
  gcW U Y D l db -> nodes db !! zeroB32 = Some m -> cn_node m' = cn_node m ->
  (forall cs c k, cn_children m' = Some cs -> cs !! c = Some k -> 1 <= k < 2 ^ 16 /\ (c ∈ l \/ onDisk db c)) ->
  (forall c n, c ∈ l -> nodes db !! c = Some n -> diskdb db !! c = None ->
     metaCount (<[zeroB32 := m']> (nodes db)) c + occ c D' = metaCount (nodes db) c + occ c D) ->
  gcW U Y D' l (addSizes a b (setNodes (fun ns => <[zeroB32 := m']> ns) db)).
Proof.
  intros [Hsh Hc Hct] Hm Enode Hmeta Hcnt.
  assert (forall h, h <> zeroB32 -> <[zeroB32 := m']> (nodes db) !! h = nodes db !! h) as Hlk by (intros h Hne; by rewrite lookup_insert_ne).
  assert (forall h, h ∈ l -> h <> zeroB32) as Hne by (intros h Hh ->; by apply (proj1 (sh_zero _ _ _ Hsh))). split.
  - destruct Hsh as [Hdom Hz0 Hnd Hlv Ho He Hl]. constructor; simpl; try done.
    + intros h. destruct (decide (h = zeroB32)) as [->|Hn]; [|by rewrite Hlk]. rewrite lookup_insert_eq. split; [by left|by eexists].
    + eapply dll_ext; [|exact Hl]. intros h Hh. unfold linksOf. by rewrite Hlk by auto.
  - constructor; unfold onDisk; simpl.
    + rewrite lookup_insert_eq. exists m'. split; [done|]. destruct (cl_root _ _ _ Hc) as (m0 & Hm0 & E). congruence.
    + intros h n Hh. rewrite Hlk by auto. by apply Hc.
    + intros h n k Hh HU. rewrite Hlk by auto. by apply (cl_kids _ _ _ Hc).
    + intros l1 h l2 n x Hl. rewrite Hlk by (apply Hne; rewrite Hl; set_solver). by apply (cl_order _ _ _ Hc l1 h l2).
    + apply Hc.
    + intros m0 cs x k. rewrite lookup_insert_eq. intros [= <-]. apply Hmeta.
  - constructor; simpl; intros x n Hx; rewrite Hlk by auto; [|by apply (ct_range _ _ _ _ Hct)].
    intros Hn Hd. rewrite (ct_exact _ _ _ _ Hct x n Hx Hn Hd). specialize (Hcnt x n Hx Hn Hd). unfold refs.
    rewrite (map_sum_agree (edgesOf Y x) (edgesOf Y x) (<[zeroB32 := m']> (nodes db)) (nodes db)); [lia|].
    intros k. destruct (decide (k = zeroB32)) as [->|]; [|by rewrite Hlk]. rewrite lookup_insert_eq, Hm. simpl. unfold edgesOf.
    by rewrite !decide_True by (by left).
Qed.

Lemma metaCount_root ns m' c :
  metaCount (<[zeroB32 := m']> ns) c = match cn_children m' with Some cs => default 0 (cs !! c) | None => 0 end.
Proof. unfold metaCount. by rewrite lookup_insert_eq. Qed.

(** Dropping a reference from outside. *)
Lemma drop_root U Y D l db m r :
  gcW U Y D l db -> nodes db !! zeroB32 = Some m -> 0 < metaCount (nodes db) r \/ onDisk db r \/ r ∉ l ->
  gcW U Y (r :: D) l (dropChild r zeroB32 m db) /\
  forall c, metaCount (nodes (dropChild r zeroB32 m db)) c =
    metaCount (nodes db) c - (if decide (c = r /\ 0 < metaCount (nodes db) r) then 1 else 0).
Proof.
  intros Hw Hm Hr. pose proof (gw_closed _ _ _ _ _ Hw) as Hc. unfold dropChild.
  assert (forall c, metaCount (nodes db) c = match cn_children m with Some cs => default 0 (cs !! c) | None => 0 end) as Em by (intros c; unfold metaCount; by rewrite Hm).
  destruct (decide (metaCount (nodes db) r = 0)) as [E0|E0].
  - assert (match cn_children m with
      | Some cs => match cs !! r with
                   | Some k => if 0 <? k then if k - 1 =? 0
                       then addSizes (- (32 + 2)) 0 (setNodes (fun ns => <[zeroB32 := setChildren (Some (base.delete r cs)) m]> ns) db)
                       else setNodes (fun ns => <[zeroB32 := setChildren (Some (<[r := k - 1]> cs)) m]> ns) db else db
                   | None => db end
      | None => db end = db) as ->.
    { rewrite Em in E0. destruct (cn_children m) as [cs|]; [|done]. destruct (cs !! r) as [k|]; [|done]. simpl in E0. by subst. }
    split; [|intros c; rewrite decide_False by lia; lia]. destruct Hw as [Hs _ [He Hrg]]. split; [done|done|]. constructor; [|done].
    intros x n Hx Hn Hd. rewrite (He x n Hx Hn Hd). change (r :: D) with ([r] ++ D). rewrite refs_app, occ_one, decide_False; [lia|].
    intros ->. destruct Hr as [|[[b Hb]|]]; [lia|congruence|done].
  - pose proof (meta_nonneg _ _ _ r Hc) as Hnn. rewrite (Em r) in E0. destruct (cn_children m) as [cs|] eqn:Ecs; [|done].
    destruct (cs !! r) as [k|] eqn:Ek; [|done]. simpl in E0. destruct (cl_meta _ _ _ Hc m cs r k Hm Ecs Ek) as [Hk1 Hav].
    rewrite (proj2 (Z.ltb_lt 0 k)) by lia.
    assert (forall c, default 0 ((if decide (k - 1 = 0) then base.delete r cs else <[r := k - 1]> cs) !! c) =
      default 0 (cs !! c) - (if decide (c = r) then 1 else 0)) as Ed.
    { intros c. destruct (decide (c = r)) as [->|]; destruct (decide (k - 1 = 0)).
      - rewrite lookup_delete_eq, Ek. simpl. lia.
      - rewrite lookup_insert_eq, Ek. simpl. lia.
      - rewrite lookup_delete_ne by done. lia.
      - rewrite lookup_insert_ne by done. lia. }
    set (cs' := if decide (k - 1 = 0) then base.delete r cs else <[r := k - 1]> cs) in *.
    assert (forall a, gcW U Y (r :: D) l (addSizes a 0 (setNodes (fun ns => <[zeroB32 := setChildren (Some cs') m]> ns) db))) as Hg.
    { intros a. apply (change_root U Y D (r :: D) l db m); [done|done|done| |].
      - intros cs0 c k0 [= <-] Hc0. unfold cs' in Hc0. destruct (decide (k - 1 = 0)).
        + apply lookup_delete_Some in Hc0 as [_ Hc0]. by apply (cl_meta _ _ _ Hc m cs).
        + destruct (decide (c = r)) as [->|]; [rewrite lookup_insert_eq in Hc0; injection Hc0 as <-; split; [lia|done]|].
          rewrite lookup_insert_ne in Hc0 by done. by apply (cl_meta _ _ _ Hc m cs).
      - intros c n _ _ _. rewrite metaCount_root, Em. cbn [setChildren cn_children]. rewrite Ed. simpl. lia. }
    assert (forall a, forall c, metaCount (nodes (addSizes a 0 (setNodes (fun ns => <[zeroB32 := setChildren (Some cs') m]> ns) db))) c =
      metaCount (nodes db) c - (if decide (c = r /\ 0 < metaCount (nodes db) r) then 1 else 0)) as Hcn.
    { intros a c. simpl. rewrite metaCount_root, (Em c). cbn [setChildren cn_children]. rewrite Ed. destruct (decide (c = r)) as [->|].
      - rewrite decide_True; [lia|]. split; [done|]. rewrite Em, Ek. simpl. lia.
      - rewrite decide_False by tauto. lia. }
    unfold cs' in *. destruct (Z.eqb_spec (k - 1) 0) as [E1|E1].
    + rewrite decide_True in Hg, Hcn by done. by split.
    + rewrite decide_False in Hg, Hcn by done. specialize (Hg 0). specialize (Hcn 0). unfold addSizes in *. simpl in *. rewrite !Z.add_0_r in *. by split.
Qed.

End gc.
