(* ===== verification/TrieGCTheorems.v ===== *)
(** * TrieGCTheorems: forgetting and flushing are safe

    [Dereference], [CommitNode] and [Cap] succeed and keep the invariant of the node
    database: whatever a referenced root leads to stays readable, byte for byte.
    Dropping the last reference to a root frees what only that root needed. *)
From S2P Require Import Prelude Bytes TrieEncoding Trie Rlp TrieNode TrieDatabase TrieGC TrieGCInv TrieGCSteps.
Local Open Scope Z_scope.
Local Open Scope zv_scope.

Section gc.
Context `{G : NodeGraph}.

(** What an operation leaves of the list. *)
Record shrunk (l l' : list Hash) (db db' : NodeDatabase) : Prop := {
  kp_disk : diskdb db' = diskdb db;
  kp_list : l' `sublist_of` l;
  kp_body h : h = zeroB32 \/ h ∈ l' -> bodyOf <$> (nodes db' !! h) = bodyOf <$> (nodes db !! h);
}.

Lemma shrunk_refl l db : shrunk l l db db.
Proof. by constructor. Qed.
Lemma shrunk_trans l l1 l2 db db1 db2 : shrunk l l1 db db1 -> shrunk l1 l2 db1 db2 -> shrunk l l2 db db2.
Proof.
  intros [Hd Hl Hb] [Hd2 Hl2 Hb2]. constructor; [congruence|by etrans|]. intros h Hh. rewrite Hb2 by done. apply Hb.
  destruct Hh as [->|Hh]; [by left|right]. by eapply elem_of_sublist.
Qed.
Lemma shrunk_bodies l l' db db' : sameBodies db db' -> l' `sublist_of` l -> shrunk l l' db db'.
Proof. intros [Hd Hb] Hl. by constructor. Qed.

(** Every node that is not on the disk is referred to, but those of [X]. *)
Definition positive (X : gset Hash) (l : list Hash) (db : NodeDatabase) : Prop :=
  forall c n, c ∈ l -> c ∉ X -> nodes db !! c = Some n -> diskdb db !! c = None -> 0 < cn_parents n.

Lemma positive_cores X l l' db db' : sameCores db db' -> (forall c, c ∈ l' -> c ∈ l) -> positive X l db -> positive X l' db'.
Proof.
  intros Hs Hl Hp c n' Hc HX Hn' Hd. destruct (sameCores_back _ _ _ _ Hs Hn') as (n & Hn & E). rewrite (core_parents _ _ E).
  apply (Hp c n); [auto|done|done|]. by rewrite <- (proj1 Hs).
Qed.

(** ** Dropping a reference *)

(** [dereference] after the parent has forgotten the child. *)
Definition dropRef (fuel : nat) (child : Hash) (db1 : NodeDatabase) : outcome trieError NodeDatabase :=
  match nodes db1 !! child with
  | None => Ok db1
  | Some n =>
      let db2 := setNodes (fun ns => <[child := countDown n]> ns) db1 in
      if cn_parents (countDown n) =? 0 then
        db3 <-! unlink child (countDown n) db2 ;;
        db4 <-! foldHashes (fun hash => dereference fuel hash child) (childs (countDown n)) db3 ;;
        Ok (addSizes (match cn_children (countDown n) with Some _ => - cachedNodeChildrenSize | None => 0 end)
              (- (32 + cn_size (countDown n))) (setNodes (base.delete child) db4))
      else Ok db2
  end.

Lemma dereference_S fuel c p db :
  dereference (S fuel) c p db = match nodes db !! p with Some p0 => dropRef fuel c (dropChild c p p0 db) | None => nilDeref end.
Proof. done. Qed.

Definition dropped (r : outcome trieError NodeDatabase) U Y D l db : Prop :=
  exists l' db', r = Ok db' /\ gcW U Y D l' db' /\ shrunk l l' db db' /\ (forall X, positive X l db -> positive X l' db').

Definition lower (Y : gset Hash) (c : Hash) : Prop := c <> zeroB32 /\ forall y, y ∈ Y -> (rank c < rank y)%nat.

Lemma lower_not Y c : lower Y c -> c ∉ Y.
Proof. intros [_ Hb] Hin. specialize (Hb c Hin). lia. Qed.

Lemma fold_ok fuel U Y D y :
  (forall l db D c, lower Y c -> gcW U Y (c :: D) l db -> (length l < fuel)%nat -> dropped (dereference fuel c y db) U Y D l db) ->
  forall hs l db, Forall (lower Y) hs -> gcW U Y (hs ++ D) l db -> (length l < fuel)%nat ->
  dropped (foldHashes (fun h => dereference fuel h y) hs db) U Y D l db.
Proof.
  intros IH hs. induction hs as [|h hs IHh]; intros l db Hb Hw Hf; simpl.
  - exists l, db. split_and!; [done|done|apply shrunk_refl|done].
  - apply Forall_cons in Hb as [Hh Hb]. destruct (IH l db (hs ++ D) h Hh Hw Hf) as (l1 & db1 & -> & Hw1 & Hk1 & Hp1). cbn [obind].
    destruct (IHh l1 db1 Hb Hw1) as (l2 & db2 & -> & Hw2 & Hk2 & Hp2).
    { pose proof (sublist_length _ _ (kp_list _ _ _ _ Hk1)). lia. }
    exists l2, db2. split_and!; [done|done|by eapply shrunk_trans|auto].
Qed.

Lemma childs_lower U Y D l db c n :
  gcW U Y D l db -> c ∈ l -> nodes db !! c = Some n -> lower Y c -> Forall (lower ({[c]} ∪ Y)) (childs n).
Proof.
  intros Hw Hc Hn [Hz Hb]. apply Forall_forall. intros k Hk.
  pose proof (bodyFor_childs _ _ _ (cl_body _ _ _ (gw_closed _ _ _ _ _ Hw) c n Hc Hn) Hk) as Hkids. split.
  - intros ->. by apply (kids_zero c).
  - intros y [->%elem_of_singleton|Hy]%elem_of_union; [by apply rank_kids|]. specialize (Hb y Hy). pose proof (rank_kids c k Hkids). lia.
Qed.

Lemma sublist_remove {A} (l1 l2 : list A) c : l1 ++ l2 `sublist_of` l1 ++ c :: l2.
Proof. apply sublist_app; [done|]. by apply sublist_cons. Qed.

Lemma dropRef_ok fuel U Y D l db c :
  (forall l db D k, lower ({[c]} ∪ Y) k -> gcW U ({[c]} ∪ Y) (k :: D) l db -> (length l < fuel)%nat ->
     dropped (dereference fuel k c db) U ({[c]} ∪ Y) D l db) ->
  lower Y c -> gcW U Y (c :: D) l db -> (length l <= fuel)%nat -> dropped (dropRef fuel c db) U Y D l db.
Proof.
  intros IH Hb Hw Hf. pose proof (lower_not _ _ Hb) as HY. pose proof Hb as [Hz _]. unfold dropRef.
  pose proof (sh_dom _ _ _ (gw_shape _ _ _ _ _ Hw) c) as Hdom. destruct (nodes db !! c) as [n|] eqn:Hn.
  2: { exists l, db. split_and!; [done| |apply shrunk_refl|done]. destruct Hw as [Hs Hc [He Hr]]. split; [done|done|]. constructor; [|done].
       intros x m Hx Hm Hd. rewrite (He x m Hx Hm Hd). change (c :: D) with ([c] ++ D). rewrite refs_app, occ_one, decide_False; [lia|congruence]. }
  assert (c ∈ l) as Hin by (destruct (proj1 Hdom) as [|[|]]; done). clear Hdom.
  pose proof (countDown_ok _ _ _ _ _ _ _ Hw Hin Hn) as Hw2. set (db2 := setNodes _ db) in *.
  assert (nodes db2 !! c = Some (countDown n)) as Hn2 by apply lookup_insert_eq.
  assert (sameBodies db db2) as Hb2 by (apply (insert_bodies db c n); [done|unfold countDown; by destruct (0 <? _)]).
  assert (forall X, positive X l db -> positive X (filter (.≠ c) l) db2) as Hp2.
  { intros X Hp x m [Hxc Hx]%list_elem_of_filter HX Hm Hd. simpl in Hm. rewrite lookup_insert_ne in Hm by done. by apply (Hp x). }
  destruct (Z.eqb_spec (cn_parents (countDown n)) 0) as [Hp0|Hp0].
  - destruct (list_elem_of_split _ _ Hin) as (l1 & l2 & ->). pose proof (gw_shape _ _ _ _ _ Hw2) as Hsh2.
    destruct (unlink_ok Y l1 c l2 db2 _ Hsh2 Hn2) as (db3 & -> & Hs3 & Hsh3). cbn [obind].
    assert (diskdb db2 !! c = None -> refs (nodes db2) Y D c <= 0) as Hun.
    { intros Hd. rewrite <- (ct_exact _ _ _ _ (gw_counts _ _ _ _ _ Hw2) c _ Hin Hn2 Hd). lia. }
    pose proof (leave_drop _ _ _ _ _ _ _ _ _ Hw2 Hn2 Hun Hs3 Hsh3) as Hw3.
    destruct (fold_ok fuel U ({[c]} ∪ Y) D c IH (childs (countDown n)) (l1 ++ l2) db3) as (l' & db4 & -> & Hw4 & Hk4 & Hp4);
      [by eapply childs_lower|done|rewrite length_app in *; simpl in Hf; lia|]. cbn [obind].
    assert (c ∉ l') as Hcl by (intros Hx; apply (sh_leaving _ _ _ (gw_shape _ _ _ _ _ Hw4) c Hx); set_solver).
    exists l', (addSizes (match cn_children (countDown n) with Some _ => - cachedNodeChildrenSize | None => 0 end)
              (- (32 + cn_size (countDown n))) (setNodes (base.delete c) db4)).
    split_and!; [done|by apply leave_done| |].
    + apply (shrunk_trans _ (l1 ++ l2) _ _ db3).
      { apply shrunk_bodies; [|apply sublist_remove]. eapply sameBodies_trans; [done|by apply sameCores_bodies]. }
      apply (shrunk_trans _ l' _ _ db4); [done|]. constructor; [done|done|]. intros h Hh. simpl. rewrite lookup_delete_ne; [done|].
      intros <-. by destruct Hh as [|].
    + intros X Hp. assert (positive X l' db4) as Hpl.
      { apply Hp4. eapply positive_cores; [done| |by apply Hp2]. intros x Hx. apply list_elem_of_filter. split; [|set_solver].
        intros ->. apply (sh_leaving _ _ _ Hsh3 c Hx). set_solver. }
      intros x m Hx HX Hm Hd. simpl in Hm. rewrite lookup_delete_ne in Hm by (intros ->; done). by apply (Hpl x).
  - exists l, db2. split_and!; [done|done|by apply shrunk_bodies|]. intros X Hp x m Hx HX Hm Hd.
    destruct (decide (x = c)) as [->|]; [|apply (Hp2 X Hp x m); [by apply list_elem_of_filter|done..]].
    rewrite Hn2 in Hm. injection Hm as <-. pose proof (ct_range _ _ _ _ (gw_counts _ _ _ _ _ Hw2) c _ Hin Hn2). lia.
Qed.

Lemma dropChild_other c y p db h : h <> y -> nodes (dropChild c y p db) !! h = nodes db !! h.
Proof.
  intros Hne. unfold dropChild. destruct (cn_children p) as [cs|]; [|done]. destruct (cs !! c) as [k|]; [|done].
  destruct (0 <? k); [|done]. destruct (k - 1 =? 0); simpl; by rewrite lookup_insert_ne.
Qed.
Lemma dropChild_disk c y p db : diskdb (dropChild c y p db) = diskdb db.
Proof.
  unfold dropChild. destruct (cn_children p) as [cs|]; [|done]. destruct (cs !! c) as [k|]; [|done].
  destruct (0 <? k); [|done]. by destruct (k - 1 =? 0).
Qed.

Lemma dereference_ok fuel U Y D l db c y :
  lower Y c -> y ∈ Y -> gcW U Y (c :: D) l db -> (length l < fuel)%nat -> dropped (dereference fuel c y db) U Y D l db.
Proof.
  revert Y D l db c y. induction fuel as [|fuel IH]; intros Y D l db c y Hb Hy Hw Hf; [lia|]. rewrite dereference_S.
  destruct (proj2 (sh_dom _ _ _ (gw_shape _ _ _ _ _ Hw) y)) as [p Hp]; [by right; right|]. rewrite Hp.
  pose proof (dropChild_leaving _ _ _ _ _ c y p Hw Hy) as Hw1.
  destruct (dropRef_ok fuel U Y D l (dropChild c y p db) c) as (l' & db' & E & Hw' & Hk & Hpos);
    [intros; by apply IH; [|set_solver|..]|done|done|lia|].
  exists l', db'. split_and!; [done|done| |].
  - destruct Hk as [Hd Hl Hbd]. constructor; [by rewrite Hd, dropChild_disk|done|]. intros h Hh. rewrite Hbd by done.
    rewrite dropChild_other; [done|]. intros ->. pose proof (gw_shape _ _ _ _ _ Hw) as Hsh.
    destruct Hh as [->|Hh]; [by apply (proj2 (sh_zero _ _ _ Hsh))|]. by apply (sh_leaving _ _ _ Hsh y); [eapply elem_of_sublist|].
  - intros X Hp0. apply Hpos. intros x m Hx HX Hm Hd. rewrite dropChild_disk in Hd. rewrite dropChild_other in Hm; [by apply (Hp0 x)|].
    intros ->. by apply (sh_leaving _ _ _ (gw_shape _ _ _ _ _ Hw) y).
Qed.

Lemma length_list Y l db : shape Y l db -> (length l < size (nodes db))%nat.
Proof.
  intros [Hdom [Hz _] Hnd _ _ _ _]. enough (length (zeroB32 :: l) <= size (nodes db))%nat as Hle by (simpl in Hle; lia).
  rewrite <- size_dom, <- (size_list_to_set (C := gset Hash)) by (by apply NoDup_cons). apply subseteq_size. intros h.
  rewrite elem_of_list_to_set, elem_of_cons, elem_of_dom, Hdom. tauto.
Qed.

(** ** What can be read *)

Definition Available (l : list Hash) (db : NodeDatabase) (h : Hash) : Prop := h ∈ l \/ onDisk db h.
Definition refersTo (h k : Hash) : Prop := k ∈ kids h.

(** Everything a root leads to is read as it should be. *)
Definition readable (db : NodeDatabase) (r : Hash) : Prop :=
  forall h, rtc refersTo r h -> Node db h = Ok (Some (contentAt h)).

Lemma available_kids Y D l db h k : gcW ∅ Y D l db -> Available l db h -> refersTo h k -> Available l db k.
Proof.
  intros [Hs Hc _] [Hl|[b Hb]] Hk; [|right; by eapply (cl_disk _ _ _ Hc)].
  destruct (proj2 (sh_dom _ _ _ Hs h)) as [n Hn]; [tauto|].
  destruct (cl_kids _ _ _ Hc h n k Hl ltac:(set_solver) Hn Hk) as [Hin|]; [|by right].
  apply list_elem_of_split in Hl as (l1 & l2 & El). destruct (cl_order _ _ _ Hc l1 h l2 n k El Hn Hin) as [|]; [left; rewrite El; set_solver|by right].
Qed.

Lemma available_reads U D l db h : gcW U ∅ D l db -> h <> zeroB32 -> Available l db h -> Node db h = Ok (Some (contentAt h)).
Proof.
  intros [Hs Hc _] Hz Ha. unfold Node. rewrite bool_decide_eq_false_2 by done. destruct (nodes db !! h) as [n|] eqn:Hn.
  - assert (h ∈ l) as Hl by (destruct (proj1 (sh_dom _ _ _ Hs h)) as [|[|]]; [by eexists|done|done|set_solver]).
    by destruct (cl_body _ _ _ Hc h n Hl Hn) as [-> _].
  - destruct Ha as [Hl|[b Hb]]; [destruct (proj2 (sh_dom _ _ _ Hs h)) as [? ?]; [tauto|congruence]|].
    rewrite Hb. by destruct (cl_disk _ _ _ Hc h b Hb) as [-> _].
Qed.

Lemma available_readable D l db r : gcW ∅ ∅ D l db -> r <> zeroB32 -> Available l db r -> readable db r.
Proof.
  intros Hw Hz Ha h Hr. assert (h <> zeroB32 /\ Available l db h) as [Hh Hah]; [|by eapply available_reads].
  induction Hr as [|r k h Hk _ IH]; [done|]. apply IH; [|by eapply available_kids]. intros ->. by apply (kids_zero r).
Qed.

(** ** [Dereference] *)

Definition gcOk (db : NodeDatabase) : Prop := exists l, gcW ∅ ∅ [] l db.
Definition cached (db : NodeDatabase) (h : Hash) : Prop := is_Some (nodes db !! h).
Definition rootCount (db : NodeDatabase) (r : Hash) : Z := metaCount (nodes db) r.

Lemma rootCount_available D l db r : gcW ∅ ∅ D l db -> 0 < rootCount db r -> Available l db r.
Proof.
  intros [_ Hc _]. unfold rootCount, metaCount. destruct (nodes db !! zeroB32) as [m|] eqn:Em; [|done].
  destruct (cn_children m) as [cs|] eqn:Ecs; [|done]. destruct (cs !! r) as [k|] eqn:Ek; [|done]. intros _.
  by destruct (cl_meta _ _ _ Hc m cs r k Em Ecs Ek) as [_ Ha].
Qed.

Lemma root_readable db r : gcOk db -> r <> zeroB32 -> 0 < rootCount db r -> readable db r.
Proof. intros (l & Hw) Hz Hr. eapply available_readable; [done|done|by eapply rootCount_available]. Qed.

Lemma shrunk_metaCount l l' db db' c : shrunk l l' db db' -> metaCount (nodes db') c = metaCount (nodes db) c.
Proof.
  intros [_ _ Hb]. specialize (Hb zeroB32 (or_introl eq_refl)). unfold metaCount. destruct (nodes db' !! _), (nodes db !! _); try done.
  by injection Hb as _ ->.
Qed.

Lemma Dereference_ok l db r :
  gcW ∅ ∅ [] l db -> r <> zeroB32 -> 0 < rootCount db r \/ onDisk db r \/ ~ cached db r ->
  exists l' db', Dereference r db = Ok db' /\ gcW ∅ ∅ [] l' db' /\ diskdb db' = diskdb db /\
    (forall c, rootCount db' c = rootCount db c - (if decide (c = r /\ 0 < rootCount db r) then 1 else 0)) /\
    l' `sublist_of` l /\ (forall X, positive X l db -> positive X l' db').
Proof.
  intros Hw Hz Hr. pose proof (gw_shape _ _ _ _ _ Hw) as Hs. destruct (cl_root _ _ _ (gw_closed _ _ _ _ _ Hw)) as (m & Hm & _).
  unfold Dereference. rewrite dereference_S, Hm.
  destruct (drop_root _ _ _ _ _ _ r Hw Hm) as [Hw1 Hc1].
  { destruct Hr as [|[|Hn]]; [tauto|tauto|]. right. right. intros Hl. apply Hn, (sh_dom _ _ _ Hs). tauto. }
  destruct (dropRef_ok (size (nodes db)) ∅ ∅ [] l (dropChild r zeroB32 m db) r) as (l' & db' & E & Hw' & Hk & Hpos).
  - intros l0 db0 D k Hb Hw0 Hf. apply dereference_ok; [done|set_solver|done|done].
  - split; [done|set_solver].
  - done.
  - pose proof (length_list _ _ _ Hs). lia.
  - exists l', db'. split_and!; [done|done|by rewrite (kp_disk _ _ _ _ Hk), dropChild_disk| |by apply Hk|].
    + intros c. unfold rootCount. by rewrite (shrunk_metaCount _ _ _ _ _ Hk), Hc1.
    + intros X Hp. apply Hpos. intros x n Hx HX Hn Hd. rewrite dropChild_disk in Hd. rewrite dropChild_other in Hn; [by apply (Hp x)|].
      intros ->. by apply (proj1 (sh_zero _ _ _ Hs)).
Qed.

Lemma map_sum_pos {A} (f : Hash -> A -> Z) (m : gmap Hash A) : 0 < map_sum f m -> exists k x, m !! k = Some x /\ 0 < f k x.
Proof.
  induction m as [|k x m Hk IH] using map_ind; [rewrite map_sum_empty; lia|]. rewrite map_sum_insert_new by done. intros Hs.
  destruct (decide (0 < f k x)) as [|]; [exists k, x; by rewrite lookup_insert_eq|].
  destruct IH as (k' & x' & Hk' & Hf); [lia|]. exists k', x'. rewrite lookup_insert_ne by congruence. done.
Qed.

Lemma NoDup_app_cons_inj (l1 l2 a1 b1 : list Hash) h : NoDup (l1 ++ h :: l2) -> l1 ++ h :: l2 = a1 ++ h :: b1 -> l1 = a1.
Proof.
  revert a1. induction l1 as [|x l1 IH]; intros [|y a1] Hnd E; simpl in *; [done|injection E as <- E|injection E as -> E|injection E as <- E].
  - apply NoDup_cons in Hnd as [Hn _]. rewrite E in Hn. set_solver.
  - apply NoDup_cons in Hnd as [Hn _]. set_solver.
  - apply NoDup_cons in Hnd as [_ Hnd]. f_equal. by apply IH.
Qed.

Lemma later_in (l1 l2 a b : list Hash) x h : NoDup (l1 ++ x :: l2) -> l1 ++ x :: l2 = a ++ h :: b -> x ∈ a -> h ∈ l2.
Proof.
  intros Hnd E Ha. destruct (list_elem_of_split _ _ Ha) as (a1 & a2 & ->). rewrite <- app_assoc in E. simpl in E.
  assert (l1 = a1) as <- by (by eapply NoDup_app_cons_inj). apply app_inv_head in E. injection E as ->. set_solver.
Qed.

(** Who refers to a node with a positive counter. *)
Lemma referrer l db x n :
  gcW ∅ ∅ [] l db -> x ∈ l -> nodes db !! x = Some n -> diskdb db !! x = None -> 0 < cn_parents n ->
  0 < rootCount db x \/ exists h m, h ∈ l /\ nodes db !! h = Some m /\ x ∈ childs m /\ diskdb db !! h = None.
Proof.
  intros [Hs Hc Hct] Hx Hn Hd Hp. rewrite (ct_exact _ _ _ _ Hct x n Hx Hn Hd) in Hp. unfold refs in Hp.
  change (occ x []) with 0 in Hp. destruct (decide (0 < rootCount db x)) as [|Hr]; [by left|right]. unfold rootCount in Hr.
  assert (0 < map_sum (edgesOf ∅ x) (nodes db)) as Hsum by lia. destruct (map_sum_pos _ _ Hsum) as (h & m & Hm & Hf). unfold edgesOf in Hf.
  destruct (decide (h = zeroB32 \/ h ∈ ∅)) as [|Hh]; [lia|].
  assert (x ∈ childs m) as Hxm by (destruct (decide (x ∈ childs m)) as [|Hni]; [done|apply occ_zero in Hni; lia]).
  destruct (proj1 (sh_dom _ _ _ Hs h)) as [|[Hl|]]; [by eexists|tauto| |tauto]. exists h, m. split_and!; try done.
  destruct (diskdb db !! h) as [b|] eqn:Hdh; [|done]. destruct (cl_disk _ _ _ Hc h b Hdh) as [_ Hk].
  destruct (Hk x (bodyFor_childs _ _ _ (cl_body _ _ _ Hc h m Hl Hm) Hxm)) as [? ?]. congruence.
Qed.

(** What is kept in memory only is what a root leads to, or a node of [X]: the nodes
    that refer to a node come after it in the list. *)
Lemma rooted X l db x :
  gcW ∅ ∅ [] l db -> positive X l db -> x ∈ l -> diskdb db !! x = None ->
  exists r, (0 < rootCount db r \/ r ∈ X) /\ rtc refersTo r x.
Proof.
  intros Hw Hp. pose proof Hw as [Hs Hc _].
  enough (forall l2 l1, l = l1 ++ l2 -> forall x, x ∈ l2 -> diskdb db !! x = None -> exists r, (0 < rootCount db r \/ r ∈ X) /\ rtc refersTo r x) as He
    by by apply (He l []).
  clear x. induction l2 as [|y l2 IH]; intros l1 El x Hx Hd; [set_solver|].
  assert (forall z, z ∈ l2 -> diskdb db !! z = None -> exists r, (0 < rootCount db r \/ r ∈ X) /\ rtc refersTo r z) as IH2.
  { apply (IH (l1 ++ [y])). by rewrite <- app_assoc. }
  apply elem_of_cons in Hx as [->|Hx]; [|by apply IH2]. destruct (decide (y ∈ X)) as [HX|HX]; [exists y; split; [by right|constructor]|].
  assert (y ∈ l) as Hy by (rewrite El; set_solver). destruct (proj2 (sh_dom _ _ _ Hs y)) as [n Hn]; [tauto|].
  destruct (referrer l db y n Hw Hy Hn Hd (Hp y n Hy HX Hn Hd)) as [Hr|(h & m & Hl & Hm & Hym & Hdh)]; [exists y; split; [by left|constructor]|].
  destruct (list_elem_of_split _ _ Hl) as (a & b & E). destruct (cl_order _ _ _ Hc a h b m y E Hm Hym) as [Ha|[? ?]]; [|congruence].
  destruct (IH2 h) as (r & Hr & Hrh); [|done|].
  - pose proof (sh_nodup _ _ _ Hs) as Hnd. rewrite El in E, Hnd. by eapply later_in.
  - exists r. split; [done|]. eapply rtc_r; [done|]. exact (bodyFor_childs _ _ _ (cl_body _ _ _ Hc h m Hl Hm) Hym).
Qed.

(** Putting a node whose references are on the disk. *)
Lemma put_ok Y D l db h n :
  gcW ∅ Y D l db -> h ∈ l -> nodes db !! h = Some n -> (forall k, k ∈ childs n -> onDisk db k) ->
  gcW ∅ Y D l (setDisk (<[h := rlp_ n]> (diskdb db)) db).
Proof.
  intros [Hs Hc Hct] Hh Hn Hk. assert (forall k, onDisk db k -> is_Some (<[h := rlp_ n]> (diskdb db) !! k)) as Hup.
  { intros k Hd. destruct (decide (k = h)) as [->|]; [rewrite lookup_insert_eq; by eexists|by rewrite lookup_insert_ne]. }
  destruct (cl_body _ _ _ Hc h n Hh Hn) as [Hb _]. split; [by destruct Hs| |].
  - constructor; unfold onDisk; simpl.
    + apply Hc.
    + apply (cl_body _ _ _ Hc).
    + intros x m k Hx HU Hm Hkx. destruct (cl_kids _ _ _ Hc x m k Hx HU Hm Hkx); auto.
    + intros l1 x l2 m k El Hm Hkx. destruct (cl_order _ _ _ Hc l1 x l2 m k El Hm Hkx); auto.
    + intros x b. destruct (decide (x = h)) as [->|Hne].
      * rewrite lookup_insert_eq. intros [= <-]. split; [done|]. intros k Hkx. apply Hup.
        destruct (cl_kids _ _ _ Hc h n k Hh ltac:(set_solver) Hn Hkx); auto.
      * rewrite lookup_insert_ne by done. intros Hb'. destruct (cl_disk _ _ _ Hc x b Hb') as [-> Hkx]. split; [done|]. intros k Hin. by apply Hup, Hkx.
    + intros m cs x k Hm Hcs Hx. destruct (cl_meta _ _ _ Hc m cs x k Hm Hcs Hx) as [? [|]]; auto.
  - constructor; simpl; [|by apply (ct_range _ _ _ _ Hct)]. intros x m Hx Hm Hd. apply (ct_exact _ _ _ _ Hct x m Hx Hm).
    destruct (diskdb db !! x) eqn:E; [|done]. destruct (Hup x) as [? ?]; [by eexists|]. congruence.
Qed.

Lemma written_app p q d : written (p ++ q) d = written q (written p d).
Proof. apply fold_left_app. Qed.

(** The database as it will be once the batch is written. *)
Definition pending (s : NodeDatabase * batch) : NodeDatabase := writeBatch s.2 s.1.

Definition flushed (b : batch) (db : NodeDatabase) : NodeDatabase * batch :=
  if IdealBatchSize <=? bt_size b then (writeBatch b db, NewBatch) else (db, b).

Lemma pending_put h v s : pending (flushed (Put h v s.2) s.1) = setDisk (<[h := v]> (diskdb (pending s))) (pending s).
Proof. unfold flushed. destruct (_ <=? _); unfold pending, writeBatch, setDisk; simpl; by rewrite written_app. Qed.

Record ahead (s s' : NodeDatabase * batch) : Prop := {
  gr_nodes : exists d, s'.1 = setDisk d s.1;
  gr_disk k : onDisk (pending s) k -> onDisk (pending s') k;
}.

Lemma ahead_refl s : ahead s s.
Proof. constructor; [|done]. exists (diskdb s.1). by destruct s as [[] ?]. Qed.
Lemma ahead_trans s s1 s2 : ahead s s1 -> ahead s1 s2 -> ahead s s2.
Proof. intros [[d E] H1] [[d2 E2] H2]. constructor; [|auto]. exists d2. rewrite E2, E. done. Qed.

Definition committed (r : outcome trieError (NodeDatabase * batch)) (l : list Hash) (s : NodeDatabase * batch) (hs : list Hash) : Prop :=
  exists s', r = Ok s' /\ gcW ∅ ∅ [] l (pending s') /\ ahead s s' /\ Forall (onDisk (pending s')) hs.

Lemma put_flushed l s h n :
  gcW ∅ ∅ [] l (pending s) -> h ∈ l -> nodes s.1 !! h = Some n -> Forall (onDisk (pending s)) (childs n) ->
  let s' := flushed (Put h (rlp_ n) s.2) s.1 in gcW ∅ ∅ [] l (pending s') /\ ahead s s' /\ onDisk (pending s') h.
Proof.
  intros Hw Hh Hn Hk. rewrite Forall_forall in Hk. cbv zeta. rewrite pending_put. split; [by apply put_ok|]. split.
  - constructor.
    + unfold flushed. destruct (_ <=? _); simpl; [by eexists|]. exists (diskdb s.1). by destruct s as [[] ?].
    + intros k Hd. rewrite pending_put. unfold onDisk. cbn [setDisk diskdb].
      destruct (decide (k = h)) as [->|]; [rewrite lookup_insert_eq; by eexists|by rewrite lookup_insert_ne].
  - unfold onDisk. cbn [setDisk diskdb]. rewrite lookup_insert_eq. by eexists.
Qed.

(** [P] is the path of nodes whose references are being written. *)
Lemma commit_ok fuel P l s h :
  gcW ∅ ∅ [] l (pending s) -> NoDup P -> (forall p, p ∈ P -> p ∈ l /\ (rank h < rank p)%nat) ->
  Available l (pending s) h -> h <> zeroB32 -> (length l < length P + fuel)%nat -> committed (commit fuel h s) l s [h].
Proof.
  revert P s h. induction fuel as [|fuel IH]; intros P s h Hw Hnd HP Ha Hz Hf.
  { exfalso. enough (length P <= length l)%nat by lia. apply submseteq_length, NoDup_submseteq; [done|]. intros p Hp. by apply HP. }
  simpl. pose proof (gw_shape _ _ _ _ _ Hw) as Hs. pose proof (sh_dom _ _ _ Hs h) as Hdom. simpl in Hdom.
  destruct (nodes s.1 !! h) as [n|] eqn:Hn.
  2: { exists s. split_and!; [done|done|apply ahead_refl|]. constructor; [|constructor]. destruct Ha as [Hl|]; [|done].
       destruct (proj2 Hdom) as [? ?]; [by auto|done]. }
  assert (h ∈ l) as Hl by (destruct (proj1 Hdom) as [|[|]]; [by eexists|done|done|set_solver]).
  assert (forall hs s, gcW ∅ ∅ [] l (pending s) -> Forall (fun k => Available l (pending s) k /\ (rank k < rank h)%nat /\ k <> zeroB32) hs ->
    committed (foldHashes (commit fuel) hs s) l s hs) as Hfold.
  { clear s Hw Ha Hs Hdom Hn. induction hs as [|k hs IHh]; intros s Hw Hhs; simpl; [exists s; split_and!; [done|done|apply ahead_refl|constructor]|].
    apply Forall_cons in Hhs as [(Hka & Hkr & Hkz) Hhs].
    destruct (IH (h :: P) s k Hw) as (s1 & -> & Hw1 & Hg1 & Hk1); [|intros p [->|Hp]%elem_of_cons|done|done|simpl; lia|].
    { apply NoDup_cons. split; [|done]. intros Hp. destruct (HP h Hp). lia. } { done. } { destruct (HP p Hp). split; [done|lia]. }
    cbn [obind]. destruct (IHh s1 Hw1) as (s2 & -> & Hw2 & Hg2 & Hk2).
    { eapply Forall_impl; [exact Hhs|]. intros x (Hxa & Hx). split; [|done]. destruct Hxa as [|Hd]; [by left|right; by apply Hg1]. }
    exists s2. split_and!; [done|done|by eapply ahead_trans|]. constructor; [|done]. apply Forall_cons in Hk1 as [Hk1 _]. by apply Hg2. }
  destruct (Hfold (childs n) s Hw) as (s1 & -> & Hw1 & Hg1 & Hk1).
  { apply Forall_forall. intros k Hk. pose proof (bodyFor_childs _ _ _ (cl_body _ _ _ (gw_closed _ _ _ _ _ Hw) h n Hl Hn) Hk) as Hkids.
    split; [by eapply available_kids; [|by left|]|]. split; [by apply rank_kids|]. intros ->. by apply (kids_zero h). }
  cbn [obind]. assert (nodes s1.1 !! h = Some n) as Hn1 by (destruct (gr_nodes _ _ Hg1) as [d ->]; done).
  destruct (put_flushed l s1 h n Hw1 Hl Hn1 Hk1) as (Hw2 & Hg2 & Hh2). exists (flushed (Put h (rlp_ n) s1.2) s1.1).
  split_and!; [unfold flushed; by destruct (_ <=? _)|done|by eapply ahead_trans|by constructor].
Qed.

(** ** Dropping what is on the disk *)

Definition uncached (r : outcome trieError NodeDatabase) Y D l db : Prop :=
  exists l' db', r = Ok db' /\ gcW ∅ Y D l' db' /\ shrunk l l' db db' /\ (forall X, positive X l db -> positive X l' db').

Lemma uncache_ok fuel Y D l db h :
  gcW ∅ Y D l db -> lower Y h -> onDisk db h -> (length l < fuel)%nat -> uncached (uncache fuel h db) Y D l db.
Proof.
  revert Y l db h. induction fuel as [|fuel IH]; intros Y l db h Hw Hb Hd Hf; [lia|]. simpl.
  pose proof (gw_shape _ _ _ _ _ Hw) as Hs. pose proof (sh_dom _ _ _ Hs h) as Hdom.
  pose proof (lower_not _ _ Hb) as HY. destruct (nodes db !! h) as [n|] eqn:Hn; [|exists l, db; split_and!; [done|done|apply shrunk_refl|done]].
  assert (h ∈ l) as Hl by (destruct (proj1 Hdom) as [|[|]]; [by eexists|by destruct Hb|done|done]). clear Hdom.
  pose proof (childs_lower _ _ _ _ _ _ _ Hw Hl Hn Hb) as Hcb.
  assert (Forall (onDisk db) (childs n)) as Hcd.
  { pose proof (gw_closed _ _ _ _ _ Hw) as Hc. destruct Hd as [b Hd]. apply Forall_forall. intros k Hk.
    apply (cl_disk _ _ _ Hc h b Hd). exact (bodyFor_childs _ _ _ (cl_body _ _ _ Hc h n Hl Hn) Hk). }
  destruct (list_elem_of_split _ _ Hl) as (l1 & l2 & ->).
  destruct (unlink_ok Y l1 h l2 db n Hs Hn) as (db1 & -> & Hs1 & Hsh1). cbn [obind].
  pose proof (leave_disk _ _ _ _ _ _ _ _ _ Hw Hn Hd Hs1 Hsh1) as Hw1.
  assert (forall hs l db, gcW ∅ ({[h]} ∪ Y) D l db -> Forall (lower ({[h]} ∪ Y)) hs -> Forall (onDisk db) hs -> (length l < fuel)%nat ->
    uncached (foldHashes (uncache fuel) hs db) ({[h]} ∪ Y) D l db) as Hfold.
  { clear -IH. induction hs as [|k hs IHh]; intros l db Hw Hb Hd Hf; simpl; [exists l, db; split_and!; [done|done|apply shrunk_refl|done]|].
    apply Forall_cons in Hb as [Hk Hb]. apply Forall_cons in Hd as [Hkd Hd]. destruct (IH _ l db k Hw Hk Hkd Hf) as (l1 & db1 & -> & Hw1 & Hk1 & Hp1).
    cbn [obind]. destruct (IHh l1 db1 Hw1 Hb) as (l2 & db2 & -> & Hw2 & Hk2 & Hp2).
    - eapply Forall_impl; [exact Hd|]. intros x. unfold onDisk. by rewrite (kp_disk _ _ _ _ Hk1).
    - pose proof (sublist_length _ _ (kp_list _ _ _ _ Hk1)). lia.
    - exists l2, db2. split_and!; [done|done|by eapply shrunk_trans|auto]. }
  destruct (Hfold (childs n) (l1 ++ l2) db1 Hw1 Hcb) as (l' & db2 & -> & Hw2 & Hk2 & Hp2).
  - eapply Forall_impl; [exact Hcd|]. intros x. unfold onDisk. by rewrite (proj1 Hs1).
  - rewrite length_app in *. simpl in Hf. lia.
  - cbn [obind]. exists l', (addSizes 0 (- (32 + cn_size n) - ofNode n) (setNodes (base.delete h) db2)).
    assert (h ∉ l') as Hhl by (intros Hx; apply (sh_leaving _ _ _ (gw_shape _ _ _ _ _ Hw2) h Hx); set_solver).
    split_and!; [done|by apply leave_done; [|by destruct Hb|]| |].
    + apply (shrunk_trans _ (l1 ++ l2) _ _ db1); [apply shrunk_bodies; [by apply sameCores_bodies|apply sublist_remove]|].
      apply (shrunk_trans _ l' _ _ db2); [done|]. constructor; [done|done|]. intros x Hx. simpl. rewrite lookup_delete_ne; [done|].
      intros <-. destruct Hx as [->|Hx]; [by destruct Hb|done].
    + intros X Hp x m Hx HX Hm. simpl in Hm. rewrite lookup_delete_ne in Hm by (intros ->; done). revert HX Hm. apply (Hp2 X); [|done].
      eapply positive_cores; [done| |done]. set_solver.
Qed.

(** ** [Commit] *)

Lemma CommitNode_ok l db h :
  gcW ∅ ∅ [] l db -> h <> zeroB32 -> Available l db h ->
  exists l' db', CommitNode h db = Ok db' /\ gcW ∅ ∅ [] l' db' /\ l' `sublist_of` l /\ (forall X, positive X l db -> positive X l' db') /\
    (forall c, rootCount db' c = rootCount db c) /\ (forall k, onDisk db k -> onDisk db' k) /\ onDisk db' h.
Proof.
  intros Hw Hz Ha. pose proof (length_list _ _ _ (gw_shape _ _ _ _ _ Hw)) as Hlen. unfold CommitNode.
  assert (pending (db, NewBatch) = db) as E0 by (by destruct db).
  destruct (commit_ok (S (size (nodes db))) [] l (db, NewBatch) h) as (s1 & -> & Hw1 & Hg1 & Hh1);
    [by rewrite E0|constructor|set_solver|by rewrite E0|done|simpl; lia|]. cbn [obind].
  apply Forall_cons in Hh1 as [Hh1 _]. destruct (gr_nodes _ _ Hg1) as [d Ed]. simpl in Ed.
  destruct (uncache_ok (S (size (nodes db))) ∅ [] l (pending s1) h) as (l' & db' & Hu & Hw' & Hk & Hp);
    [done|by split; [|set_solver]|done|lia|].
  exists l', db'. split_and!; [done|done|by apply Hk| | | |].
  - intros X Hp0. apply Hp. intros x n Hx HX Hn Hd. apply (Hp0 x n Hx HX); [change (nodes (pending s1)) with (nodes s1.1) in Hn; by rewrite Ed in Hn|].
    destruct (diskdb db !! x) eqn:E; [|done]. destruct (gr_disk _ _ Hg1 x) as [? ?]; [rewrite E0; by eexists|]. congruence.
  - intros c. unfold rootCount. rewrite (shrunk_metaCount _ _ _ _ _ Hk). change (nodes (pending s1)) with (nodes s1.1). by rewrite Ed.
  - intros k Hd. unfold onDisk. rewrite (kp_disk _ _ _ _ Hk). apply (gr_disk _ _ Hg1). by rewrite E0.
  - unfold onDisk. by rewrite (kp_disk _ _ _ _ Hk).
Qed.

(** ** [Cap] *)

Lemma capWrite_ok fuel total limit d r s :
  gcW ∅ ∅ [] (d ++ r) (pending s) -> Forall (onDisk (pending s)) d -> (length r <= fuel)%nat ->
  exists d' r' s', d ++ r = d' ++ r' /\ capWrite fuel total limit (default zeroB32 (head r)) s = Ok (default zeroB32 (head r'), s') /\
    gcW ∅ ∅ [] (d' ++ r') (pending s') /\ ahead s s' /\ Forall (onDisk (pending s')) d'.
Proof.
  revert fuel total d s. induction r as [|h r IH]; intros fuel total d s Hw Hd Hf.
  - exists d, [], s. split; [done|]. split; [|split_and!; [done|apply ahead_refl|done]]. simpl.
    destruct fuel; simpl; by destruct (limit <? total).
  - destruct fuel as [|fuel]; [simpl in Hf; lia|]. cbn [head default capWrite]. destruct ((limit <? total) && _);
      [|exists d, (h :: r), s; split_and!; [done|done|done|apply ahead_refl|done]].
    pose proof (gw_shape _ _ _ _ _ Hw) as Hs. destruct (proj2 (sh_dom _ _ _ Hs h)) as [n Hn]; [right; left; set_solver|].
    change (nodes (pending s)) with (nodes s.1) in Hn. cbn [default id]. rewrite Hn. destruct (here_links _ _ _ _ _ n Hs Hn) as [-> _].
    destruct (put_flushed (d ++ h :: r) s h n Hw ltac:(set_solver) Hn) as (Hw1 & Hg1 & Hh1).
    { apply Forall_forall. intros k Hk. rewrite Forall_forall in Hd.
      destruct (cl_order _ _ _ (gw_closed _ _ _ _ _ Hw) d h r n k eq_refl Hn Hk); auto. }
    fold (flushed (Put h (rlp_ n) s.2) s.1). set (s1 := flushed _ _) in *.
    destruct (IH fuel (total - (32 + cn_size n + cachedNodeSize) - ofNode n) (d ++ [h]) s1) as (d' & r' & s' & El & -> & Hw' & Hg' & Hd');
      [by rewrite <- app_assoc| |simpl in Hf; lia|].
    { apply Forall_app. split; [|by constructor]. eapply Forall_impl; [exact Hd|]. intros x. apply Hg1. }
    exists d', r', s'. rewrite <- app_assoc in El. split_and!; [done|done|done|by eapply ahead_trans|done].
Qed.

Lemma capDrop_ok fuel d r db :
  gcW ∅ ∅ [] (d ++ r) db -> Forall (onDisk db) d -> (length d <= fuel)%nat ->
  exists db', capDrop fuel (default zeroB32 (head r)) db = Ok db' /\ gcW ∅ ∅ [] r db' /\ shrunk (d ++ r) r db db' /\
    (forall X, positive X (d ++ r) db -> positive X r db').
Proof.
  revert fuel db. induction d as [|h d IH]; intros fuel db Hw Hd Hf; pose proof (gw_shape _ _ _ _ _ Hw) as Hs.
  - exists db. split; [|split_and!; [done|apply shrunk_refl|done]]. pose proof (sh_oldest _ _ _ Hs) as Ho. simpl in Ho.
    destruct fuel; simpl; by rewrite bool_decide_eq_true_2.
  - destruct fuel as [|fuel]; [simpl in Hf; lia|]. simpl. pose proof Hs as [Hdom [Hz _] Hnd Hlv Ho He Hlk]. simpl in *. rewrite Ho.
    apply NoDup_cons in Hnd as [Hh Hnd]. rewrite bool_decide_eq_false_2.
    2: { destruct r as [|x r]; simpl; [set_solver|]. intros ->. set_solver. }
    destruct (proj2 (Hdom h)) as [n Hn]; [set_solver|]. rewrite Hn. apply Forall_cons in Hd as [Hhd Hd].
    destruct (here_links ∅ [] h (d ++ r) db n Hs Hn) as [Hnx _]. set (db1 := setEnds (cn_flushNext n) (newest db) db).
    assert (shape ({[h]} ∪ ∅) (d ++ r) db1) as Hs1.
    { constructor; simpl; [intros k; rewrite Hdom; set_solver|set_solver|done|set_solver|done| |].
      - intros Hne. rewrite <- (He ltac:(done)). destruct (d ++ r); [done|]. by rewrite last_cons_cons.
      - destruct Hlk as (p & _ & _ & Hlk). by eapply dll_weaken. }
    pose proof (leave_disk _ _ _ [] h (d ++ r) db db1 n Hw Hn Hhd (setEnds_cores _ _ _) Hs1) as Hw1.
    apply (leave_done _ _ _ _ _ (- ofNode n) (- (32 + cn_size n))) in Hw1; [|set_solver|set_solver].
    destruct (IH fuel _ Hw1 Hd ltac:(lia)) as (db' & E & Hw' & Hk & Hp). exists db'. split; [exact E|]. split; [done|].
    assert (h ∉ d ++ r) as Hhdr by done. split.
    + eapply shrunk_trans; [|exact Hk]. constructor; [done|by apply sublist_cons|]. intros x Hx. simpl. rewrite lookup_delete_ne; [done|].
      intros <-. destruct Hx as [->|]; [set_solver|done].
    + intros X Hp0. apply Hp. intros x m Hx HX Hm. simpl in Hm. rewrite lookup_delete_ne in Hm by (intros ->; done). apply Hp0; [set_solver|done|done].
Qed.

Lemma gcW_cores U Y D l db db' : gcW U Y D l db -> sameCores db db' -> shape Y l db' -> gcW U Y D l db'.
Proof.
  intros [_ Hc Hct] Hs Hsh. pose proof (sameCores_bodies _ _ Hs) as Hb. split; [done|by eapply closed_bodies|].
  constructor; intros x n' Hx Hn'; destruct (sameCores_back _ _ _ _ Hs Hn') as (n & Hn & E); rewrite (core_parents _ _ E).
  - intros Hd. rewrite (sameBodies_refs _ _ _ _ _ Hb). apply (ct_exact _ _ _ _ Hct x n Hx Hn). by rewrite <- (proj1 Hs).
  - by apply (ct_range _ _ _ _ Hct x).
Qed.

Lemma Cap_ok limit l db :
  gcW ∅ ∅ [] l db ->
  exists l' db', Cap limit db = Ok db' /\ gcW ∅ ∅ [] l' db' /\ l' `sublist_of` l /\ (forall X, positive X l db -> positive X l' db') /\
    (forall c, rootCount db' c = rootCount db c) /\ (forall k, onDisk db k -> onDisk db' k).
Proof.
  intros Hw. pose proof (gw_shape _ _ _ _ _ Hw) as Hs. pose proof (length_list _ _ _ Hs) as Hlen.
  destruct (cl_root _ _ _ (gw_closed _ _ _ _ _ Hw)) as (m & Hm & _). unfold Cap, metarootRefs. rewrite Hm. cbn [obind].
  assert (pending (db, NewBatch) = db) as E0 by (by destruct db). rewrite (sh_oldest _ _ _ Hs).
  match goal with |- context [capWrite _ ?t limit _ _] => set (total := t) end.
  destruct (capWrite_ok (size (nodes db)) total limit [] l (db, NewBatch)) as (d & r & s1 & El & Ec & Hw1 & Hg1 & Hd1);
    [by rewrite E0|constructor|lia|]. rewrite Ec. cbn [obind fst snd]. simpl in El. destruct (gr_nodes _ _ Hg1) as [d1 Ed]. simpl in Ed.
  destruct (capDrop_ok (size (nodes db)) d r (pending s1) Hw1 Hd1) as (db2 & E2 & Hw2 & Hk2 & Hp2).
  { rewrite El, length_app in Hlen. lia. }
  fold (pending s1). rewrite E2. cbn [obind].
  assert (exists db', (if bool_decide (oldest db2 = zeroB32) then Ok db2 else assign (oldest db2) (setFlushPrev zeroB32) db2) = Ok db' /\
    sameCores db2 db' /\ shape ∅ r db') as (db' & -> & Hc' & Hs').
  { pose proof (gw_shape _ _ _ _ _ Hw2) as [Hdom Hz Hnd Hlv Ho He Hlk]. destruct (bool_decide_reflect (oldest db2 = zeroB32)) as [|Ho0];
      [by exists db2|]. destruct r as [|x r]; [done|]. simpl in Ho.
    destruct (assign_ok (oldest db2) (setFlushPrev zeroB32) (setPrev zeroB32) db2) as (db' & -> & Hc & Hl & Ho' & He'); [done|done|rewrite Ho; apply Hdom; set_solver|].
    exists db'. split; [done|]. split; [done|]. constructor; try done.
    - intros h. by rewrite (sameCores_cached _ _ h Hc).
    - rewrite Ho'. done.
    - intros Hne. rewrite He'. auto.
    - eapply dll_ext; [intros h _; apply Hl|]. rewrite Ho. apply NoDup_cons in Hnd as [Hx _]. by apply (dll_relink_prev _ None None). }
  exists r, db'. split; [done|]. split; [by eapply gcW_cores|]. split; [rewrite El; by apply sublist_inserts_l|]. split_and!.
  - intros X Hp. eapply positive_cores; [done|by intros c|]. apply Hp2. rewrite <- El. intros x n Hx HX Hn Hd. apply (Hp x n Hx HX).
    + change (nodes (pending s1)) with (nodes s1.1) in Hn. by rewrite Ed in Hn.
    + destruct (diskdb db !! x) eqn:E; [|done]. destruct (gr_disk _ _ Hg1 x) as [? ?]; [rewrite E0; by eexists|]. congruence.
  - intros c. unfold rootCount. rewrite (sameBodies_meta _ _ _ (sameCores_bodies _ _ Hc')), (shrunk_metaCount _ _ _ _ _ Hk2).
    change (nodes (pending s1)) with (nodes s1.1). by rewrite Ed.
  - intros k Hd. unfold onDisk. rewrite (proj1 Hc'), (kp_disk _ _ _ _ Hk2). apply (gr_disk _ _ Hg1). by rewrite E0.
Qed.

End gc.
