(* ===== verification/TrieGCInsert.v ===== *)
(** * TrieGCInsert: adding nodes and references

    [db_insert] and [Reference] keep the invariant of the node database when the
    nodes referred to are there and the 16-bit counters have room: a node stored with
    all its references ([storeNode]) is as safe as the others. *)
From S2P Require Import Prelude Bytes TrieEncoding Trie Rlp TrieNode TrieDatabase TrieGC TrieGCInv TrieGCSteps TrieGCTheorems.
Local Open Scope Z_scope.
Local Open Scope zv_scope.

(** ** Counting up *)

(** The counter after [k] more references; it has 16 bits. *)
Definition bump (k : Z) (n : cachedNode) : cachedNode := if decide (k = 0) then n else setParents (wrap16 (cn_parents n + k)) n.

Lemma bump_body k n : bodyOf (bump k n) = bodyOf n.
Proof. unfold bump. by destruct (decide _). Qed.
Lemma bump_children k n : cn_children (bump k n) = cn_children n.
Proof. unfold bump. by destruct (decide _). Qed.
Lemma bump_node k n : cn_node (bump k n) = cn_node n.
Proof. unfold bump. by destruct (decide _). Qed.
Lemma bump_links k n : cn_flushPrev (bump k n) = cn_flushPrev n /\ cn_flushNext (bump k n) = cn_flushNext n.
Proof. unfold bump. by destruct (decide _). Qed.
Lemma bump_exact k n : 0 <= cn_parents n + k < 2 ^ 16 -> cn_parents (bump k n) = cn_parents n + k.
Proof. intros Hr. unfold bump. destruct (decide _) as [->|]; [lia|]. simpl. unfold wrap16. by apply Z.mod_small. Qed.
Lemma bump_range k n : 0 <= cn_parents n < 2 ^ 16 -> 0 <= cn_parents (bump k n) < 2 ^ 16.
Proof. intros Hr. unfold bump. destruct (decide _); [done|]. simpl. unfold wrap16. apply Z.mod_pos_bound. lia. Qed.

Lemma countParents_lookup cs ns c : countParents cs ns !! c = bump (occ c cs) <$> (ns !! c).
Proof.
  revert ns. unfold countParents. induction cs as [|h cs IH]; intros ns; cbn [fold_left occ].
  - by destruct (ns !! c).
  - rewrite IH. destruct (decide (c = h)) as [->|Hne]; [|by rewrite lookup_alter_ne]. rewrite lookup_alter_eq. destruct (ns !! h) as [m|]; [|done].
    simpl. f_equal. pose proof (occ_nonneg h cs). unfold bump. rewrite (decide_False (P := 1 + occ h cs = 0)) by lia.
    destruct (decide (occ h cs = 0)) as [->|]; [done|]. unfold setParents, wrap16. simpl. rewrite Zplus_mod_idemp_l. do 2 f_equal. lia.
Qed.

(** The counters that matter can take references to [cs]. *)
Definition roomFor (db : NodeDatabase) (cs : list Hash) : Prop :=
  forall c n, nodes db !! c = Some n -> diskdb db !! c = None -> c <> zeroB32 -> cn_parents n + occ c cs < 2 ^ 16.

Lemma occ_nodup (l : list Hash) c : NoDup l -> occ c l = if decide (c ∈ l) then 1 else 0.
Proof.
  intros Hnd. induction Hnd as [|h l Hh _ IH]; [done|]. simpl. rewrite IH. destruct (decide (c = h)) as [->|Hne].
  - rewrite decide_False, decide_True by set_solver. done.
  - destruct (decide (c ∈ l)); [rewrite decide_True by set_solver|rewrite decide_False by set_solver]; done.
Qed.

Lemma occ_keys (cs : gmap Hash Z) c : occ c (map_to_list cs).*1 = if decide (is_Some (cs !! c)) then 1 else 0.
Proof.
  rewrite occ_nodup by apply NoDup_fst_map_to_list. assert (c ∈ (map_to_list cs).*1 <-> is_Some (cs !! c)) as E.
  { rewrite list_elem_of_fmap. split; [intros ([k v] & -> & Hin); apply elem_of_map_to_list in Hin; by eexists|].
    intros [v Hv]. exists (c, v). split; [done|]. by apply elem_of_map_to_list. }
  destruct (decide (is_Some (cs !! c))) as [Hs|Hs]; [apply decide_True|apply decide_False]; tauto.
Qed.

Lemma childs_setChildren n cs c :
  occ c (childs (setChildren (Some cs) n)) = (if decide (is_Some (cs !! c)) then 1 else 0) + occ c (objChildren (cn_node n)).
Proof. unfold childs. simpl. by rewrite occ_app, occ_keys. Qed.

Lemma childs_occ n c :
  occ c (childs n) = match cn_children n with Some cs => if decide (is_Some (cs !! c)) then 1 else 0 | None => 0 end + occ c (objChildren (cn_node n)).
Proof. unfold childs. rewrite occ_app. destruct (cn_children n); [by rewrite occ_keys|done]. Qed.

Lemma occ_le c l : occ c l <= Z.of_nat (length l).
Proof. induction l as [|h l IH]; cbn [occ length]; [lia|]. destruct (decide (c = h)); lia. Qed.

(** ** A new node *)

Definition entryOf (o : cachedObject) (size : Z) (prev : Hash) : cachedNode := mkCached o size 0 None prev zeroB32.

Lemma linksOf_ext ns ns' h :
  (forall n n', ns !! h = Some n -> ns' !! h = Some n' -> cn_flushPrev n' = cn_flushPrev n /\ cn_flushNext n' = cn_flushNext n) ->
  (is_Some (ns' !! h) <-> is_Some (ns !! h)) -> linksOf ns' h = linksOf ns h.
Proof.
  intros Hf Hs. unfold linksOf. destruct (ns !! h) as [n|], (ns' !! h) as [n'|]; simpl.
  - destruct (Hf n n') as [-> ->]; done.
  - by destruct (proj2 Hs ltac:(by eexists)).
  - by destruct (proj1 Hs ltac:(by eexists)).
  - done.
Qed.

(** The nodes after [db_insert], as [cs] are the references of the new one. *)
Record inserted (h : Hash) (o : cachedObject) (db db' : NodeDatabase) : Prop := {
  in_disk : diskdb db' = diskdb db;
  in_new : exists e, nodes db' !! h = Some e /\ cn_node e = o /\ cn_children e = None /\ cn_parents e = 0;
  in_old c : c <> h -> coreOf <$> (nodes db' !! c) = (fun n => coreOf (bump (occ c (objChildren o)) n)) <$> (nodes db !! c);
}.

Lemma db_insert_new h blob o l db :
  shape ∅ l db -> nodes db !! h = None ->
  exists db', db_insert h blob o db = Ok db' /\ shape ∅ (l ++ [h]) db' /\ inserted h o db db'.
Proof.
  intros [Hdom [Hz _] Hnd Hlv Ho He Hlk] Hn. unfold db_insert. rewrite Hn. cbv zeta.
  change (mkCached o (wrap16 (len blob)) 0 None (newest db) zeroB32) with (entryOf o (wrap16 (len blob)) (newest db)).
  change (childs (entryOf o (wrap16 (len blob)) (newest db))) with (objChildren o).
  set (e := entryOf _ _ _). set (ns := <[h := e]> (countParents (objChildren o) (nodes db))).
  assert (h <> zeroB32 /\ h ∉ l) as [Hhz Hhl].
  { split; [intros ->|intros Hl]; destruct (proj2 (Hdom _) ltac:(by eauto)) as [? ?]; congruence. }
  assert (forall c, c <> h -> ns !! c = bump (occ c (objChildren o)) <$> (nodes db !! c)) as Hns.
  { intros c Hc. unfold ns. rewrite lookup_insert_ne by done. apply countParents_lookup. }
  assert (ns !! h = Some e) as Hnh by apply lookup_insert_eq.
  assert (forall c, c <> h -> linksOf ns c = linksOf (nodes db) c) as Hlinks.
  { intros c Hc. unfold linksOf. rewrite Hns by done. destruct (nodes db !! c) as [n|]; [|done]. simpl. by destruct (bump_links (occ c (objChildren o)) n) as [-> ->]. }
  assert (forall c, is_Some (ns !! c) <-> c = zeroB32 \/ c ∈ l ++ [h] \/ c ∈ (∅ : gset Hash)) as Hdom'.
  { intros c. destruct (decide (c = h)) as [->|Hc]; [rewrite Hnh; split; [set_solver|by eexists]|].
    rewrite Hns, fmap_is_Some, Hdom by done. set_solver. }
  assert (NoDup (l ++ [h])) as Hnd' by (apply NoDup_app; split; [done|split; [set_solver|apply NoDup_singleton]]).
  destruct (decide (l = [])) as [->|Hl].
  - rewrite bool_decide_eq_true_2 by done. eexists. split; [done|]. split.
    + constructor; simpl; [done|set_solver|done|set_solver|done|done|]. exists (newest db). split; [|done]. unfold linksOf. by rewrite Hnh.
    + constructor; simpl; [done|by exists e|]. intros c Hc. rewrite Hns by done. by destruct (nodes db !! c).
  - rewrite bool_decide_eq_false_2 by (rewrite Ho; destruct l; simpl; [done|set_solver]).
    destruct (exists_last Hl) as (l1 & q & ->). specialize (He Hl). rewrite last_snoc in He. injection He as Hq.
    assert (q <> h) as Hqh by (intros ->; set_solver). destruct (proj2 (Hdom' q)) as [nq Hnq]; [set_solver|]. rewrite <- Hq, Hnq.
    eexists. split; [done|]. set (ns' := <[q := _]> ns). split.
    + assert (forall c, linksOf ns' c = upd (linksOf ns) q (setNext h) c) as Hl'.
      { intros c. unfold upd, ns', linksOf. destruct (decide (c = q)) as [->|]; [by rewrite lookup_insert_eq, Hnq|by rewrite lookup_insert_ne]. }
      constructor; simpl; [|set_solver|done|set_solver|by rewrite Ho; destruct l1|by rewrite last_snoc|].
      * intros c. rewrite <- Hdom'. unfold ns'. destruct (decide (c = q)) as [->|]; [rewrite lookup_insert_eq, Hnq; split; by eexists|by rewrite lookup_insert_ne].
      * eapply dll_ext; [intros c _; apply Hl'|]. rewrite <- app_assoc. simpl.
        apply (dll_relink_next (linksOf (nodes db)) _ None l1 q [] [h]); [done|set_solver|done| |].
        -- intros c Hc. apply Hlinks. set_solver.
        -- exists q. split; [unfold linksOf; rewrite Hnh; simpl; by rewrite <- Hq|]. split; [by intros ? [= <-]|done].
    + constructor; simpl; [done|exists e; unfold ns'; by rewrite lookup_insert_ne|].
      intros c Hc. unfold ns'. destruct (decide (c = q)) as [->|]; [|rewrite lookup_insert_ne, Hns by done; by destruct (nodes db !! c)].
      rewrite lookup_insert_eq. rewrite Hns in Hnq by done. destruct (nodes db !! q) as [m|]; [|done]. simpl in *. by injection Hnq as <-.
Qed.

Section gc.
Context `{G : NodeGraph}.

(** Nothing refers to a node that is not there. *)
Lemma refs_absent U l db h : gcW U ∅ [] l db -> h ∉ l -> diskdb db !! h = None -> refs (nodes db) ∅ [] h = 0.
Proof.
  intros [Hs Hc _] Hl Hd. unfold refs. change (occ h []) with 0. rewrite Z.add_0_r.
  assert (metaCount (nodes db) h = 0) as ->.
  { unfold metaCount. destruct (nodes db !! zeroB32) as [m|] eqn:Em; [|done]. destruct (cn_children m) as [cs|] eqn:Ecs; [|done].
    destruct (cs !! h) as [k|] eqn:Ek; [|done]. destruct (cl_meta _ _ _ Hc m cs h k Em Ecs Ek) as [_ [|[? ?]]]; [done|congruence]. }
  rewrite Z.add_0_r. assert (0 <= map_sum (edgesOf ∅ h) (nodes db)) as Hnn by (apply map_sum_nonneg; intros; apply edgesOf_nonneg).
  destruct (decide (map_sum (edgesOf ∅ h) (nodes db) = 0)) as [|Hne]; [done|exfalso].
  destruct (map_sum_pos (edgesOf ∅ h) (nodes db)) as (x & n & Hn & Hf); [lia|]. unfold edgesOf in Hf.
  destruct (decide _) as [|Hx]; [lia|]. assert (h ∈ childs n) as Hin by (destruct (decide (h ∈ childs n)) as [|Hni]; [done|apply occ_zero in Hni; lia]).
  destruct (proj1 (sh_dom _ _ _ Hs x)) as [|[Hxl|]]; [by eexists|tauto| |tauto]. destruct (list_elem_of_split _ _ Hxl) as (a & b & El).
  destruct (cl_order _ _ _ Hc a x b n h El Hn Hin) as [|[? ?]]; [apply Hl; rewrite El; set_solver|congruence].
Qed.

Lemma inserted_back h o db db' c n' :
  inserted h o db db' -> c <> h -> nodes db' !! c = Some n' ->
  exists n, nodes db !! c = Some n /\ bodyOf n' = bodyOf n /\ cn_parents n' = cn_parents (bump (occ c (objChildren o)) n).
Proof.
  intros [_ _ Hold] Hne Hn'. specialize (Hold c Hne). rewrite Hn' in Hold. destruct (nodes db !! c) as [n|]; [|done].
  injection Hold as E1 _ E2 E3. exists n. split; [done|]. split; [|done]. rewrite <- (bump_body (occ c (objChildren o)) n). unfold bodyOf. by rewrite E1, E3.
Qed.

Lemma inserted_meta h o db db' x : inserted h o db db' -> h <> zeroB32 -> metaCount (nodes db') x = metaCount (nodes db) x.
Proof.
  intros [_ _ Hold] Hz. specialize (Hold zeroB32 ltac:(done)). unfold metaCount. destruct (nodes db' !! zeroB32), (nodes db !! zeroB32); try done.
  injection Hold as _ _ _ ->. by rewrite bump_children.
Qed.

Lemma inserted_refs h o db db' x :
  inserted h o db db' -> nodes db !! h = None -> h <> zeroB32 -> refs (nodes db') ∅ [] x = refs (nodes db) ∅ [] x + occ x (objChildren o).
Proof.
  intros Hi Hn Hz. pose proof Hi as [_ (e & He & Eo & Ec & _) Hold]. unfold refs. assert (metaCount (nodes db') x = metaCount (nodes db) x) as ->.
  { by apply (inserted_meta h o). }
  rewrite (map_sum_agree (edgesOf ∅ x) (edgesOf ∅ x) (nodes db') (<[h := e]> (nodes db))).
  - rewrite map_sum_insert_new by done. unfold edgesOf at 1. rewrite decide_False by set_solver. unfold childs. rewrite Ec, Eo. simpl. fold (objChildren o). lia.
  - intros k. destruct (decide (k = h)) as [->|Hne]; [by rewrite He, lookup_insert_eq|]. rewrite lookup_insert_ne by done.
    specialize (Hold k Hne). destruct (nodes db' !! k) as [n'|] eqn:En', (nodes db !! k) as [n|] eqn:En; try done. simpl.
    destruct (inserted_back _ _ _ _ _ _ Hi Hne En') as (n0 & En0 & Eb & _). rewrite En in En0. injection En0 as <-.
    unfold edgesOf. by rewrite (body_childs _ _ Eb).
Qed.

Lemma snoc_order (l : list Hash) h l1 l2 c : h ∉ l -> l ++ [h] = l1 ++ h :: l2 -> c ∈ l -> c ∈ l1.
Proof.
  revert l. induction l1 as [|y l1 IH]; intros [|z l] Hhl El Hcl; simpl in *; [set_solver| |set_solver|].
  - injection El as -> El. set_solver.
  - injection El as -> El. apply elem_of_cons in Hcl as [->|Hcl]; [set_solver|]. right. apply (IH l); set_solver.
Qed.

Section newNode.
Context U l db h o db' (Hw : gcW U ∅ [] l db) (Hi : inserted h o db db') (Hn : nodes db !! h = None) (Hz : h <> zeroB32).
Context (Hin : objChildren o = inner h) (Hk : forall c, c ∈ inner h -> Available l db c).

Lemma new_not_old : h ∉ l.
Proof. intros Hl. destruct (proj2 (sh_dom _ _ _ (gw_shape _ _ _ _ _ Hw) h) ltac:(tauto)). congruence. Qed.

Lemma new_entry : exists e, nodes db' !! h = Some e /\ cn_node e = o /\ cn_children e = None /\ cn_parents e = 0 /\ childs e = objChildren o.
Proof. destruct (in_new _ _ _ _ Hi) as (e & He & Eo & Ec & Ep). exists e. split_and!; try done. unfold childs. by rewrite Ec, Eo. Qed.

(** The references of the new node come before it. *)
Lemma new_order l1 l2 c : l ++ [h] = l1 ++ h :: l2 -> c ∈ l -> c ∈ l1.
Proof. apply snoc_order, new_not_old. Qed.

Lemma insert_closed : objBytes o = contentAt h -> objOk o -> closed ({[h]} ∪ U) (l ++ [h]) db'.
Proof.
  intros Hb Hob. pose proof Hw as [Hs Hc Hct]. pose proof (in_disk _ _ _ _ Hi) as Hdk. pose proof (in_old _ _ _ _ Hi) as Hold. pose proof new_not_old as Hhl.
  destruct new_entry as (e & He & Eo & Ec & _ & Eke). assert (forall c, c ∈ l -> c <> h) as Hne by (intros c Hc' ->; done).
  assert (forall x, onDisk db' x <-> onDisk db x) as Hdk' by (intros x; unfold onDisk; by rewrite Hdk).
  constructor.
  + destruct (cl_root _ _ _ Hc) as (m & Hm & Em). specialize (Hold zeroB32 ltac:(done)). rewrite Hm in Hold.
    destruct (nodes db' !! zeroB32) as [m'|]; [|done]. exists m'. split; [done|]. injection Hold as E _ _ _. rewrite bump_node in E. congruence.
  + intros x n [Hx| ->%list_elem_of_singleton]%elem_of_app Hnx.
    * destruct (inserted_back _ _ _ _ _ _ Hi (Hne x Hx) Hnx) as (n0 & Hn0 & E & _). eapply bodyFor_same; [done|]. by apply (cl_body _ _ _ Hc).
    * rewrite He in Hnx. injection Hnx as <-. split; [unfold rlp_; rewrite Eo; destruct o; exact Hb|]. rewrite Eo, Ec. done.
  + intros x n k [Hx| ->%list_elem_of_singleton]%elem_of_app HU Hnx Hkx; [|set_solver].
    destruct (inserted_back _ _ _ _ _ _ Hi (Hne x Hx) Hnx) as (n0 & Hn0 & E & _). rewrite (body_childs _ _ E), Hdk'.
    apply (cl_kids _ _ _ Hc x n0 k Hx); [set_solver|done|done].
  + intros l1 x l2 n c El Hnx Hcx. rewrite Hdk'. destruct (decide (x = h)) as [->|Hxh].
    * rewrite He in Hnx. injection Hnx as <-. rewrite Eke, Hin in Hcx. destruct (Hk c Hcx) as [Hcl|]; [left|by right]. by eapply new_order.
    * destruct (inserted_back _ _ _ _ _ _ Hi Hxh Hnx) as (n0 & Hn0 & E & _). rewrite (body_childs _ _ E) in Hcx.
      destruct l2 as [|y l2 _] using rev_ind; [apply app_inj_tail in El as [_ ->]; done|].
      rewrite app_comm_cons, app_assoc in El. apply app_inj_tail in El as [El _]. by apply (cl_order _ _ _ Hc l1 x l2 n0 c).
  + intros x b. rewrite Hdk. intros Hxb. destruct (cl_disk _ _ _ Hc x b Hxb) as [-> Hkx]. split; [done|]. intros k Hkin. by apply Hdk', Hkx.
  + intros m' cs x k Hm' Hcs Hx. destruct (inserted_back _ _ _ _ _ _ Hi ltac:(done) Hm') as (m & Hm & [= _ E] & _). rewrite E in Hcs.
    rewrite Hdk'. destruct (cl_meta _ _ _ Hc m cs x k Hm Hcs Hx) as [? [|]]; (split; [done|]); [left; set_solver|by right].
Qed.

Lemma insert_counts : roomFor db (objChildren o) -> counts ∅ [] (l ++ [h]) db'.
Proof.
  intros Hroom. pose proof Hw as [Hs Hc Hct]. pose proof (in_disk _ _ _ _ Hi) as Hdk. pose proof new_not_old as Hhl.
  destruct new_entry as (e & He & _ & _ & Ep & _). assert (forall c, c ∈ l -> c <> h) as Hne by (intros c Hc' ->; done).
  assert (forall x, x ∈ l -> x <> zeroB32) as Hlz by (intros x Hx ->; by apply (proj1 (sh_zero _ _ _ Hs))).
  constructor; intros x n [Hx| ->%list_elem_of_singleton]%elem_of_app Hnx.
  - intros Hd. rewrite Hdk in Hd. destruct (inserted_back _ _ _ _ _ _ Hi (Hne x Hx) Hnx) as (n0 & Hn0 & _ & ->).
    rewrite (inserted_refs _ _ _ _ _ Hi Hn Hz). rewrite <- (ct_exact _ _ _ _ Hct x n0 Hx Hn0 Hd). apply bump_exact.
    pose proof (ct_range _ _ _ _ Hct x n0 Hx Hn0). pose proof (occ_nonneg x (objChildren o)). specialize (Hroom x n0 Hn0 Hd (Hlz x Hx)). lia.
  - intros Hd. rewrite Hdk in Hd. rewrite He in Hnx. injection Hnx as <-. rewrite Ep, (inserted_refs _ _ _ _ _ Hi Hn Hz).
    rewrite (refs_absent U l db h Hw Hhl Hd). enough (occ h (objChildren o) = 0) by lia. apply occ_zero. intros Hho.
    rewrite Hin in Hho. assert (h ∈ inner h ++ outer h) as Hkh by set_solver. pose proof (rank_kids h h Hkh). lia.
  - destruct (inserted_back _ _ _ _ _ _ Hi (Hne x Hx) Hnx) as (n0 & Hn0 & _ & ->). apply bump_range. by apply (ct_range _ _ _ _ Hct x n0).
  - rewrite He in Hnx. injection Hnx as <-. rewrite Ep. lia.
Qed.

Lemma insert_gc :
  shape ∅ (l ++ [h]) db' -> objBytes o = contentAt h -> objOk o -> roomFor db (objChildren o) -> gcW ({[h]} ∪ U) ∅ [] (l ++ [h]) db'.
Proof. intros Hsh Hb Hob Hroom. split; [done|by apply insert_closed|by apply insert_counts]. Qed.

End newNode.

(** ** References *)

Lemma countUp_ok U Y D l db c n :
  gcW U Y D l db -> c ∈ l -> nodes db !! c = Some n -> (diskdb db !! c = None -> cn_parents n + 1 < 2 ^ 16) ->
  gcW U Y (c :: D) l (setNodes (fun ns => <[c := bump 1 n]> ns) db).
Proof.
  intros [Hsh Hc Hct] Hin Hn Hr. pose proof (insert_bodies db c n (bump 1 n) Hn (bump_body 1 n)) as Hs. split; [|by eapply closed_bodies|].
  - eapply shape_bodies; [done|done| |done|done]. by apply (insert_links db c n).
  - constructor; intros x n' Hx Hn'; simpl in Hn'.
    + intros Hd. rewrite (sameBodies_refs _ _ _ _ _ Hs). simpl in Hd. change (c :: D) with ([c] ++ D). rewrite refs_app, occ_one.
      destruct (decide (x = c)) as [->|Hne].
      * rewrite lookup_insert_eq in Hn'. injection Hn' as <-. rewrite <- (ct_exact _ _ _ _ Hct c n Hx Hn Hd). apply bump_exact.
        pose proof (ct_range _ _ _ _ Hct c n Hx Hn). specialize (Hr Hd). lia.
      * rewrite lookup_insert_ne in Hn' by done. rewrite (ct_exact _ _ _ _ Hct x n' Hx Hn' Hd). lia.
    + destruct (decide (x = c)) as [->|Hne]; [|rewrite lookup_insert_ne in Hn' by done; by apply (ct_range _ _ _ _ Hct x)].
      rewrite lookup_insert_eq in Hn'. injection Hn' as <-. by apply bump_range, (ct_range _ _ _ _ Hct c).
Qed.

Lemma elem_childs_occ c n : c ∈ childs n <-> 0 < occ c (childs n).
Proof.
  split; [apply occ_pos|]. intros Hp. destruct (decide (c ∈ childs n)) as [|Hni]; [done|]. apply occ_zero in Hni. lia.
Qed.

Lemma childs_add n cs c :
  cs = default ∅ (cn_children n) -> cs !! c = None ->
  forall x, occ x (childs (setChildren (Some (<[c := 1]> cs)) n)) = occ x (childs n) + if decide (x = c) then 1 else 0.
Proof.
  intros Ecs Hcs x. rewrite childs_setChildren, childs_occ. destruct (decide (x = c)) as [->|Hne].
  - rewrite lookup_insert_eq. rewrite decide_True by (by eexists). destruct (cn_children n) as [cs0|]; simpl in Ecs; subst cs; [rewrite Hcs|];
      [rewrite decide_False by (by intros [])|]; lia.
  - rewrite lookup_insert_ne by done. destruct (cn_children n) as [cs0|]; simpl in Ecs; subst cs; [lia|].
    rewrite lookup_empty, decide_False by (by intros []). lia.
Qed.

(** A pending reference becomes one of a node further down the list. *)
Lemma addChild_ok U Y D l1 h l2 db c n cs :
  gcW U Y (c :: D) (l1 ++ h :: l2) db -> nodes db !! h = Some n -> cs = default ∅ (cn_children n) -> cs !! c = None ->
  c ∈ outer h -> c ∈ l1 \/ onDisk db c -> forall a,
  gcW U Y D (l1 ++ h :: l2) (addSizes a 0 (setNodes (fun ns => <[h := setChildren (Some (<[c := 1]> cs)) n]> ns) db)).
Proof.
  intros [Hsh Hc Hct] Hn Ecs Hcs Hk Hav a. set (n' := setChildren (Some (<[c := 1]> cs)) n). set (l := l1 ++ h :: l2) in *.
  assert (h ∈ l) as Hhl by (unfold l; set_solver).
  assert (h <> zeroB32) as Hhz by (intros ->; by apply (proj1 (sh_zero _ _ _ Hsh))).
  pose proof (childs_add n cs c Ecs Hcs) as Hocc. fold n' in Hocc.
  assert (forall x, x ∈ childs n' <-> x ∈ childs n \/ x = c) as Hin.
  { intros x. rewrite !elem_childs_occ, Hocc. pose proof (occ_nonneg x (childs n)). destruct (decide (x = c)); intuition lia. }
  assert (forall x m, <[h := n']> (nodes db) !! x = Some m -> x = h /\ m = n' \/ x <> h /\ nodes db !! x = Some m) as Hlk.
  { intros x m. destruct (decide (x = h)) as [->|]; [rewrite lookup_insert_eq; intros [= <-]; by left|rewrite lookup_insert_ne by done; by right]. }
  split.
  - destruct Hsh as [Hdom Hz Hnd Hlv Ho He Hl]. constructor; simpl; try done.
    + intros x. destruct (decide (x = h)) as [->|]; [rewrite lookup_insert_eq; split; [by auto|by eexists]|by rewrite lookup_insert_ne].
    + eapply dll_ext; [|exact Hl]. intros x _. by apply (insert_links db h n).
  - constructor; unfold onDisk; simpl.
    + rewrite lookup_insert_ne by done. apply Hc.
    + intros x m Hx [[-> ->]|[_ Hm]]%Hlk; [|by apply (cl_body _ _ _ Hc)]. destruct (cl_body _ _ _ Hc h n Hhl Hn) as (Hb & Ho & Hob & Hx0).
      split; [exact Hb|]. split; [exact Ho|]. split; [exact Hob|]. intros cs1 x [= <-] Hx1. destruct (decide (x = c)) as [->|Hne]; [done|].
      rewrite lookup_insert_ne in Hx1 by done. subst cs. destruct (cn_children n) as [cs0|]; simpl in Hx1; [by eapply Hx0|]. rewrite lookup_empty in Hx1. by destruct Hx1.
    + intros x m k Hx HU [[-> ->]|[_ Hm]]%Hlk Hkx; [|by apply (cl_kids _ _ _ Hc x)].
      destruct (cl_kids _ _ _ Hc h n k Hhl HU Hn Hkx); [left; apply Hin; by left|by right].
    + intros a1 x b1 m k El [[-> ->]|[_ Hm]]%Hlk Hkx; [|by apply (cl_order _ _ _ Hc a1 x b1 m)]. apply Hin in Hkx as [Hkx| ->].
      * by apply (cl_order _ _ _ Hc a1 h b1 n).
      * destruct Hav as [Hc1|]; [left|by right]. pose proof (sh_nodup _ _ _ Hsh) as Hnd. unfold l in El, Hnd.
        assert (l1 = a1) as <-; [|done]. eapply NoDup_app_cons_inj; done.
    + apply (cl_disk _ _ _ Hc).
    + intros m cs0 x k. rewrite lookup_insert_ne by done. apply (cl_meta _ _ _ Hc).
  - constructor; simpl; intros x m Hx Hm.
    + intros Hd. assert (refs (<[h := n']> (nodes db)) Y D x = refs (nodes db) Y (c :: D) x) as ->.
      { change (c :: D) with ([c] ++ D). rewrite refs_app, occ_one. unfold refs, metaCount. rewrite lookup_insert_ne by done.
        rewrite map_sum_insert, Hn. simpl. unfold edgesOf at 2 3. rewrite !decide_False by (intros [|Hy]; [done|by apply (sh_leaving _ _ _ Hsh h)]).
        rewrite Hocc. lia. }
      apply Hlk in Hm as [[-> ->]|[_ Hm]]; [exact (ct_exact _ _ _ _ Hct h n Hx Hn Hd)|by apply (ct_exact _ _ _ _ Hct x)].
    + apply Hlk in Hm as [[-> ->]|[_ Hm]]; [exact (ct_range _ _ _ _ Hct h n Hx Hn)|by apply (ct_range _ _ _ _ Hct x)].
Qed.

Lemma alter_as_insert (f : cachedNode -> cachedNode) k (m : gmap Hash cachedNode) x : m !! k = Some x -> alter f k m = <[k := f x]> m.
Proof.
  intros Hx. apply map_eq. intros i. destruct (decide (i = k)) as [->|Hne]; [by rewrite lookup_alter_eq, lookup_insert_eq, Hx|].
  by rewrite lookup_alter_ne, lookup_insert_ne.
Qed.

(** What references to [cs] do to the nodes. *)
Record referred (cs : list Hash) (db db' : NodeDatabase) : Prop := {
  rf_disk : diskdb db' = diskdb db;
  rf_node c n' : nodes db' !! c = Some n' -> exists n, nodes db !! c = Some n /\
    (diskdb db !! c = None -> 0 <= cn_parents n -> cn_parents n + occ c cs < 2 ^ 16 -> cn_parents n <= cn_parents n' <= cn_parents n + occ c cs);
  rf_childs c n x : nodes db !! c = Some n -> c <> zeroB32 -> x ∈ childs n -> exists n', nodes db' !! c = Some n' /\ x ∈ childs n';
}.

Lemma referred_refl cs db : referred cs db db.
Proof. constructor; [done| |eauto]. intros c n Hn. exists n. split; [done|]. pose proof (occ_nonneg c cs). lia. Qed.
Lemma referred_trans c1 c2 db db1 db2 : referred c1 db db1 -> referred c2 db1 db2 -> referred (c1 ++ c2) db db2.
Proof.
  intros [Hd1 Hn1 Hc1] [Hd2 Hn2 Hc2]. constructor; [congruence| |].
  - intros c n' Hn. destruct (Hn2 c n' Hn) as (n1 & Hx & H2). destruct (Hn1 c n1 Hx) as (n & Hy & H1). exists n. split; [done|].
    rewrite occ_app, Hd1 in *. pose proof (occ_nonneg c c1). pose proof (occ_nonneg c c2). intros Hd Hp0 Hr.
    specialize (H1 Hd Hp0 ltac:(lia)). specialize (H2 Hd ltac:(lia) ltac:(lia)). lia.
  - intros c n x Hn Hz Hx. destruct (Hc1 c n x Hn Hz Hx) as (n1 & Hn' & Hx'). by apply (Hc2 c n1).
Qed.

(** [Reference] on two cached nodes, when it does something. *)
Lemma Reference_acts db c p n m :
  nodes db !! c = Some n -> nodes db !! p = Some m -> c <> p ->
  let cs := default ∅ (cn_children m) in
  cs !! c = None \/ p = zeroB32 -> 0 <= default 0 (cs !! c) -> default 0 (cs !! c) + 1 < 2 ^ 16 ->
  exists a, Reference c p db = Ok (addSizes a 0 (setNodes (fun ns => <[p := setChildren (Some (<[c := default 0 (cs !! c) + 1]> cs)) m]> ns)
                                                  (setNodes (fun ns => <[c := bump 1 n]> ns) db))).
Proof.
  intros Hn Hm Hne cs Hcs Hk0 Hk. unfold Reference. rewrite Hn, Hm. cbv zeta.
  replace (match cn_children m with None => ∅ | Some cs => cs end) with cs by (unfold cs; by destruct (cn_children m)).
  replace (bool_decide (is_Some (cs !! c)) && negb (bool_decide (p = zeroB32))) with false.
  2: { destruct Hcs as [Hcs| ->]; [rewrite Hcs; by rewrite bool_decide_eq_false_2 by (by intros [])|].
       by rewrite (bool_decide_eq_true_2 (zeroB32 = zeroB32)), andb_false_r. }
  unfold wrap16. rewrite (Z.mod_small (default 0 (cs !! c) + 1)) by lia.
  eexists (_ + _). f_equal. unfold addSizes, setNodes. simpl. f_equal; [|by rewrite Z.add_assoc|lia].
  rewrite (alter_as_insert _ c _ n Hn), (alter_as_insert _ p _ m); [|by rewrite lookup_insert_ne]. done.
Qed.

Lemma setNodes_lookup f db h : nodes (setNodes f db) !! h = f (nodes db) !! h.
Proof. done. Qed.

(** The nodes after [Reference_acts]. *)
Lemma acts_referred db c p n m cs a :
  nodes db !! c = Some n -> nodes db !! p = Some m -> c <> p -> cs = default ∅ (cn_children m) ->
  forall k, referred [c] db (addSizes a 0 (setNodes (fun ns => <[p := setChildren (Some (<[c := k]> cs)) m]> ns)
                                 (setNodes (fun ns => <[c := bump 1 n]> ns) db))).
Proof.
  intros Hn Hm Hne Ecs k. constructor; [done| |]; cbn [addSizes setNodes nodes diskdb].
  - intros x n'. destruct (decide (x = p)) as [->|Hxp].
    + rewrite lookup_insert_eq. intros [= <-]. exists m. split; [done|]. pose proof (occ_nonneg p [c]). cbn [setChildren cn_parents]. lia.
    + rewrite lookup_insert_ne by done. destruct (decide (x = c)) as [->|Hxc].
      * rewrite lookup_insert_eq. intros [= <-]. exists n. split; [done|]. rewrite occ_one, decide_True by done. intros _ H0 Hr. rewrite bump_exact; lia.
      * rewrite lookup_insert_ne by done. intros Hx. exists n'. split; [done|]. pose proof (occ_nonneg x [c]). lia.
  - intros x n0 y Hx Hz Hy. destruct (decide (x = p)) as [->|Hxp].
    + rewrite lookup_insert_eq. eexists. split; [done|]. rewrite Hm in Hx. injection Hx as <-. apply elem_childs_occ in Hy. apply elem_childs_occ.
      rewrite childs_setChildren. rewrite childs_occ in Hy. subst cs. destruct (cn_children m) as [cs0|]; simpl in *.
      * destruct (decide (y = c)) as [->|]; [rewrite lookup_insert_eq, decide_True by (by eexists); pose proof (occ_nonneg c (objChildren (cn_node m))); lia|].
        by rewrite lookup_insert_ne.
      * destruct (decide (is_Some _)); lia.
    + rewrite lookup_insert_ne by done. destruct (decide (x = c)) as [->|Hxc].
      * rewrite lookup_insert_eq. rewrite Hn in Hx. injection Hx as <-. eexists. split; [done|]. by rewrite (body_childs _ _ (bump_body 1 n)).
      * rewrite lookup_insert_ne by done. eauto.
Qed.

(** A reference from a node of the list. *)
Lemma Reference_inner U l1 h l2 db c :
  gcW U ∅ [] (l1 ++ h :: l2) db -> c ∈ outer h -> c ∈ l1 \/ onDisk db c -> roomFor db [c] ->
  exists db', Reference c h db = Ok db' /\ gcW U ∅ [] (l1 ++ h :: l2) db' /\ referred [c] db db' /\ (forall r, rootCount db' r = rootCount db r) /\
    (onDisk db' c \/ exists n', nodes db' !! h = Some n' /\ c ∈ childs n').
Proof.
  intros Hw Ho Hav Hroom. pose proof Hw as [Hs Hc Hct]. destruct (proj2 (sh_dom _ _ _ Hs h)) as [m Hm]; [set_solver|].
  assert (c ∈ inner h ++ outer h) as Hk by set_solver.
  assert (h <> zeroB32) as Hhz by (intros ->; apply (proj1 (sh_zero _ _ _ Hs)); set_solver).
  assert (c <> zeroB32) as Hcz by (intros ->; by apply (kids_zero h)). assert (c <> h) as Hch by (intros ->; pose proof (rank_kids h h Hk); lia).
  assert (forall n, nodes db !! c = Some n -> diskdb db !! c = None -> cn_parents n + 1 < 2 ^ 16) as Hr1.
  { intros n Hn Hd. specialize (Hroom c n Hn Hd Hcz). rewrite occ_one, decide_True in Hroom by done. done. }
  destruct (nodes db !! c) as [n|] eqn:Hn.
  2: { exists db. unfold Reference. rewrite Hn. split_and!; [done|done|apply referred_refl|done|left].
       destruct Hav as [Hl|]; [|done]. destruct (proj2 (sh_dom _ _ _ Hs c)) as [? ?]; [set_solver|congruence]. }
  set (cs := default ∅ (cn_children m)). destruct (cs !! c) as [k|] eqn:Ek.
  - exists db. assert (cn_children m = Some cs) as Ecs by (unfold cs in *; by destruct (cn_children m)).
    assert (Reference c h db = Ok db) as ->.
    { unfold Reference. rewrite Hn, Hm. cbv zeta. rewrite Ecs, Ek. rewrite bool_decide_eq_true_2 by (by eexists). by rewrite bool_decide_eq_false_2 by done. }
    split_and!; [done|done|apply referred_refl|done|right]. exists m. split; [done|]. apply elem_childs_occ. rewrite childs_occ, Ecs, Ek.
    rewrite decide_True by (by eexists). pose proof (occ_nonneg c (objChildren (cn_node m))). lia.
  - destruct (Reference_acts db c h n m Hn Hm Hch) as [a Ea]; [left; exact Ek|fold cs; by rewrite Ek|fold cs; by rewrite Ek|].
    fold cs in Ea. rewrite Ek in Ea. cbn [default id] in Ea. change (0 + 1) with 1 in Ea. eexists. split; [exact Ea|].
    assert (c ∈ l1 ++ h :: l2) as Hcl by (destruct (proj1 (sh_dom _ _ _ Hs c)) as [|[|]]; [by eexists|done|done|set_solver]).
    pose proof (countUp_ok U ∅ [] _ db c n Hw Hcl Hn (Hr1 n eq_refl)) as Hw1.
    assert (nodes (setNodes (fun ns => <[c := bump 1 n]> ns) db) !! h = Some m) as Hm1 by (rewrite setNodes_lookup; by rewrite lookup_insert_ne).
    split_and!.
    + by apply (addChild_ok U ∅ [] l1 h l2 _ c m cs Hw1 Hm1).
    + by apply (acts_referred db c h n m cs a Hn Hm Hch).
    + intros r. unfold rootCount, metaCount. simpl. by rewrite !lookup_insert_ne by done.
    + right. simpl. rewrite lookup_insert_eq. eexists. split; [done|]. apply elem_childs_occ. rewrite (childs_add m cs c eq_refl Ek).
      rewrite decide_True by done. pose proof (occ_nonneg c (childs m)). lia.
Qed.

(** A reference from outside. *)
Lemma Reference_root l db r :
  gcW ∅ ∅ [] l db -> r <> zeroB32 -> Available l db r -> roomFor db [r] -> rootCount db r + 1 < 2 ^ 16 ->
  exists db', Reference r zeroB32 db = Ok db' /\ gcW ∅ ∅ [] l db' /\ referred [r] db db' /\
    forall c, rootCount db' c = rootCount db c + (if decide (c = r /\ r ∈ l) then 1 else 0).
Proof.
  intros Hw Hz Hav Hroom Hr. pose proof Hw as [Hs Hc Hct]. destruct (cl_root _ _ _ Hc) as (m & Hm & Em).
  destruct (nodes db !! r) as [n|] eqn:Hn.
  2: { exists db. unfold Reference. rewrite Hn. split_and!; [done|done|apply referred_refl|]. intros c. rewrite decide_False; [lia|].
       intros [_ Hl]. destruct (proj2 (sh_dom _ _ _ Hs r)) as [? ?]; [tauto|congruence]. }
  assert (r ∈ l) as Hl by (destruct (proj1 (sh_dom _ _ _ Hs r)) as [|[|]]; [by eexists|done|done|set_solver]).
  set (cs := default ∅ (cn_children m)). assert (forall c, rootCount db c = default 0 (cs !! c)) as Erc.
  { intros c. unfold rootCount, metaCount, cs. rewrite Hm. by destruct (cn_children m). }
  pose proof (meta_nonneg _ _ _ r Hc) as H0. fold (rootCount db r) in H0. rewrite (Erc r) in H0, Hr.
  destruct (Reference_acts db r zeroB32 n m Hn Hm Hz) as [a Ea]; [by right|done|done|].
  assert (diskdb db !! r = None -> cn_parents n + 1 < 2 ^ 16) as Hr1.
  { intros Hd. specialize (Hroom r n Hn Hd Hz). rewrite occ_one, decide_True in Hroom by done. done. }
  fold cs in Ea. eexists. split; [exact Ea|]. pose proof (countUp_ok ∅ ∅ [] _ db r n Hw Hl Hn Hr1) as Hw1.
  assert (nodes (setNodes (fun ns => <[r := bump 1 n]> ns) db) !! zeroB32 = Some m) as Hm1 by (rewrite setNodes_lookup; by rewrite lookup_insert_ne).
  assert (forall c, default 0 ((<[r := default 0 (cs !! r) + 1]> cs) !! c) = default 0 (cs !! c) + (if decide (c = r) then 1 else 0)) as Ed.
  { intros c. destruct (decide (c = r)) as [->|]; [by rewrite lookup_insert_eq|rewrite lookup_insert_ne by done; lia]. }
  split_and!.
  - apply (change_root ∅ ∅ [r] [] l _ m _ a 0 Hw1 Hm1); [done| |].
    + intros cs0 c k [= <-] Hck. destruct (decide (c = r)) as [->|Hne].
      * rewrite lookup_insert_eq in Hck. injection Hck as <-. split; [lia|by left].
      * rewrite lookup_insert_ne in Hck by done. assert (cn_children m = Some cs) as Ecs by (unfold cs in *; by destruct (cn_children m)).
        by apply (cl_meta _ _ _ Hc m cs).
    + intros c n0 _ _ _. rewrite metaCount_root. unfold metaCount. rewrite Hm1. cbn [setChildren cn_children]. rewrite Ed, occ_one.
      fold cs. change (occ c []) with 0. replace (match cn_children m with Some cs => default 0 (cs !! c) | None => 0 end) with (default 0 (cs !! c)); [lia|].
      unfold cs. by destruct (cn_children m).
  - by apply (acts_referred db r zeroB32 n m cs a Hn Hm Hz).
  - intros c. rewrite (Erc c). unfold rootCount, metaCount. simpl. rewrite lookup_insert_eq. cbn [setChildren cn_children]. rewrite Ed.
    destruct (decide (c = r)) as [->|]; [by rewrite decide_True|rewrite decide_False by tauto; lia].
Qed.

(** Counters of nodes that matter. *)
Lemma nondisk_nonneg U l db c n :
  gcW U ∅ [] l db -> nodes db !! c = Some n -> c <> zeroB32 -> 0 <= cn_parents n < 2 ^ 16.
Proof.
  intros [Hs _ Hct] Hn Hz. apply (ct_range _ _ _ _ Hct c); [|done]. destruct (proj1 (sh_dom _ _ _ Hs c)) as [|[|]]; [by eexists|done|done|set_solver].
Qed.

Lemma referred_room U l db db' c1 c2 : gcW U ∅ [] l db -> referred c1 db db' -> roomFor db (c1 ++ c2) -> roomFor db' c2.
Proof.
  intros Hw [Hd Hn _] Hr c n' Hc Hdk Hz. destruct (Hn c n' Hc) as (n & Hx & Hle). rewrite Hd in Hdk. specialize (Hr c n Hx Hdk Hz).
  rewrite occ_app in Hr. pose proof (occ_nonneg c c2). pose proof (nondisk_nonneg _ _ _ _ _ Hw Hx Hz) as H0. specialize (Hle Hdk ltac:(lia) ltac:(lia)). lia.
Qed.

Lemma roomFor_app db c1 c2 : roomFor db (c1 ++ c2) -> roomFor db c1.
Proof. intros Hr c n Hn Hd Hz. specialize (Hr c n Hn Hd Hz). rewrite occ_app in Hr. pose proof (occ_nonneg c c2). lia. Qed.

Lemma refs_fold U l1 h l2 ext db :
  gcW U ∅ [] (l1 ++ h :: l2) db -> Forall (fun c => c ∈ outer h /\ (c ∈ l1 \/ onDisk db c)) ext -> roomFor db ext ->
  exists db', foldHashes (fun c => Reference c h) ext db = Ok db' /\ gcW U ∅ [] (l1 ++ h :: l2) db' /\ referred ext db db' /\
    (forall r, rootCount db' r = rootCount db r) /\
    Forall (fun c => onDisk db' c \/ exists n', nodes db' !! h = Some n' /\ c ∈ childs n') ext.
Proof.
  revert db. induction ext as [|c ext IH]; intros db Hw Hext Hroom.
  - exists db. split_and!; [done|done|apply referred_refl|done|constructor].
  - apply Forall_cons in Hext as [[Hk Hav] Hext]. cbn [foldHashes]. change (c :: ext) with ([c] ++ ext) in Hroom.
    destruct (Reference_inner U l1 h l2 db c Hw Hk Hav (roomFor_app _ _ _ Hroom)) as (db1 & -> & Hw1 & Hr1 & Hc1 & Hd1).
    cbn [obind]. destruct (IH db1 Hw1) as (db2 & -> & Hw2 & Hr2 & Hc2 & Hd2).
    + eapply Forall_impl; [exact Hext|]. intros x. unfold onDisk. by rewrite (rf_disk _ _ _ Hr1).
    + exact (referred_room _ _ _ _ _ _ Hw Hr1 Hroom).
    + exists db2. split_and!; [done|done| |intros r; by rewrite Hc2|].
      * change (c :: ext) with ([c] ++ ext). by eapply referred_trans.
      * constructor; [|done]. destruct Hd1 as [Hd|(n' & Hn' & Hin)]; [left; unfold onDisk; by rewrite (rf_disk _ _ _ Hr2)|right].
        apply (rf_childs _ _ _ Hr2 h n'); [done| |done]. intros ->. apply (proj1 (sh_zero _ _ _ (gw_shape _ _ _ _ _ Hw1))). set_solver.
Qed.

(** ** Storing a node with its references *)

Definition storeNode (h : Hash) (blob : bytes) (o : cachedObject) (ext : list Hash) (db : NodeDatabase) : outcome trieError NodeDatabase :=
  db1 <-! db_insert h blob o db ;;
  foldHashes (fun c => Reference c h) ext db1.

(** The node is what its hash stands for, and what it refers to is there. *)
Record storable (h : Hash) (o : cachedObject) (ext : list Hash) (l : list Hash) (db : NodeDatabase) : Prop := {
  so_zero : h <> zeroB32;
  so_bytes : objBytes o = contentAt h;
  so_obj : objOk o;
  so_inner : objChildren o = inner h;
  so_outer k : k ∈ outer h <-> k ∈ ext;
  so_there k : k ∈ kids h -> Available l db k;
  so_room : roomFor db (objChildren o ++ ext);
  so_ext c : occ c ext < 2 ^ 16;
}.

Lemma seal U l h db :
  gcW ({[h]} ∪ U) ∅ [] l db -> (forall k, k ∈ kids h -> onDisk db k \/ exists n, nodes db !! h = Some n /\ k ∈ childs n) -> gcW U ∅ [] l db.
Proof.
  intros [Hs Hc Hct] Hk. split; [done| |done]. destruct Hc as [H1 H2 H3 H4 H5 H6]. constructor; try done.
  intros x n k Hx HU Hn Hkx. destruct (decide (x = h)) as [->|Hne]; [|by apply (H3 x); [|set_solver|..]].
  destruct (Hk k Hkx) as [|(n0 & Hn0 & Hin)]; [by right|left]. congruence.
Qed.

(** Counters of what a node on the list refers to. *)
Lemma child_counted U l db h n c m :
  gcW U ∅ [] l db -> h ∈ l -> nodes db !! h = Some n -> c ∈ childs n -> c ∈ l -> nodes db !! c = Some m -> diskdb db !! c = None -> 0 < cn_parents m.
Proof.
  intros [Hs Hc Hct] Hh Hn Hin Hcl Hm Hd. rewrite (ct_exact _ _ _ _ Hct c m Hcl Hm Hd).
  apply (refs_edge (nodes db) ∅ [] c h n); [by eapply meta_nonneg|done| |set_solver|done]. intros ->. by apply (proj1 (sh_zero _ _ _ Hs)).
Qed.

(** [db_insert] of a node that is cached already. *)
Lemma db_insert_old h blob o n db :
  nodes db !! h = Some n -> exists db1, db_insert h blob o db = Ok db1 /\ sameCores db db1 /\ nodes db1 = nodes db /\ oldest db1 = oldest db /\ newest db1 = newest db.
Proof. intros Hn. unfold db_insert. rewrite Hn. destruct (enablePrune db); eexists; (split; [done|]); done. Qed.

Lemma shape_nodes Y l db db1 : shape Y l db -> nodes db1 = nodes db -> oldest db1 = oldest db -> newest db1 = newest db -> shape Y l db1.
Proof. intros [H1 H2 H3 H4 H5 H6 H7] En Eo Ee. constructor; rewrite ?En, ?Eo, ?Ee; done. Qed.

(** What storing [h] changes; counters only grow. *)
Record stored (h : Hash) (l l' : list Hash) (db db' : NodeDatabase) : Prop := {
  st_here : h ∈ l';
  st_old x : x ∈ l -> x ∈ l';
  st_back x : x ∈ l' -> x = h \/ x ∈ l;
  st_disk : diskdb db' = diskdb db;
  st_roots r : rootCount db' r = rootCount db r;
  st_counted c n' : c ∈ l -> nodes db' !! c = Some n' -> diskdb db !! c = None ->
    exists n, nodes db !! c = Some n /\ cn_parents n <= cn_parents n';
}.

Definition storedOk h blob o ext l db : Prop :=
  exists l' db', storeNode h blob o ext db = Ok db' /\ gcW ∅ ∅ [] l' db' /\ stored h l l' db db'.

Lemma storeNode_old h blob o ext l db n :
  gcW ∅ ∅ [] l db -> storable h o ext l db -> nodes db !! h = Some n -> storedOk h blob o ext l db.
Proof.
  intros Hw [Hz Hb Hob Hi Ho Hav Hroom _] Hn. pose proof Hw as [Hs Hc Hct]. unfold storedOk, storeNode.
  destruct (db_insert_old h blob o n db Hn) as (db1 & -> & Hc1 & En & Eo & Ee). cbn [obind].
  pose proof (gcW_cores _ _ _ _ _ _ Hw Hc1 (shape_nodes _ _ _ _ Hs En Eo Ee)) as Hw1.
  assert (h ∈ l) as Hl by (destruct (proj1 (sh_dom _ _ _ Hs h)) as [|[|]]; [by eexists|done|done|set_solver]).
  destruct (list_elem_of_split _ _ Hl) as (l1 & l2 & El). rewrite El in Hw1.
  assert (roomFor db1 ext) as Hroom1.
  { intros c m Hm Hd Hcz. rewrite En in Hm. rewrite (proj1 Hc1) in Hd. specialize (Hroom c m Hm Hd Hcz). rewrite occ_app in Hroom.
    pose proof (occ_nonneg c (objChildren o)). lia. }
  destruct (refs_fold ∅ l1 h l2 ext db1 Hw1) as (db' & -> & Hw' & Hr & Hrc & _); [|done|].
  - apply Forall_forall. intros c Hcx. apply Ho in Hcx. split; [done|]. unfold onDisk. rewrite (proj1 Hc1).
    destruct (cl_kids _ _ _ Hc h n c Hl ltac:(set_solver) Hn ltac:(apply elem_of_app; by right)) as [Hin|]; [|by right].
    by apply (cl_order _ _ _ Hc l1 h l2 n).
  - exists l, db'. rewrite <- El in Hw', Hw1. assert (diskdb db' = diskdb db) as Ed by (by rewrite (rf_disk _ _ _ Hr), (proj1 Hc1)).
    split; [done|]. split; [done|]. constructor; [done|done|by right|done| |].
    + intros r. rewrite Hrc. unfold rootCount. by rewrite En.
    + intros c n' Hcl Hn' Hd. destruct (rf_node _ _ _ Hr c n' Hn') as (n1 & Hn1 & Hle). exists n1. rewrite <- En. split; [done|].
      assert (c <> zeroB32) as Hcz by (intros ->; by apply (proj1 (sh_zero _ _ _ Hs))). rewrite <- (proj1 Hc1) in Hd.
      pose proof (nondisk_nonneg _ _ _ _ _ Hw1 Hn1 Hcz). specialize (Hroom1 c n1 Hn1 Hd Hcz). specialize (Hle Hd ltac:(lia) ltac:(lia)). lia.
Qed.

Lemma storeNode_new h blob o ext l db :
  gcW ∅ ∅ [] l db -> storable h o ext l db -> nodes db !! h = None -> storedOk h blob o ext l db.
Proof.
  intros Hw [Hz Hb Hob Hi Ho Hav Hroom Hx] Hn. pose proof Hw as [Hs Hc Hct]. unfold storedOk, storeNode.
  destruct (db_insert_new h blob o l db Hs Hn) as (db1 & -> & Hs1 & Hin). cbn [obind].
  pose proof (in_disk _ _ _ _ Hin) as Ed1. assert (gcW ({[h]} ∪ ∅) ∅ [] (l ++ [h]) db1) as Hw1.
  { apply (insert_gc ∅ l db h o); try done; [|by eapply roomFor_app]. intros c Hco. apply Hav, elem_of_app. by left. }
  assert (h ∉ l) as Hhl by (by eapply new_not_old).
  assert (forall c, c ∈ l -> c <> zeroB32) as Hlz by (intros c Hcl ->; by apply (proj1 (sh_zero _ _ _ Hs))).
  assert (forall c n1, c <> h -> nodes db1 !! c = Some n1 -> diskdb db !! c = None -> c <> zeroB32 ->
    exists n, nodes db !! c = Some n /\ cn_parents n <= cn_parents n1 /\ cn_parents n1 + occ c ext < 2 ^ 16) as Hold.
  { intros c n1 Hne Hn1 Hd Hcz. destruct (inserted_back _ _ _ _ _ _ Hin Hne Hn1) as (n & Hnc & _ & ->). exists n. split; [done|].
    specialize (Hroom c n Hnc Hd Hcz). rewrite occ_app in Hroom. pose proof (occ_nonneg c (objChildren o)). pose proof (occ_nonneg c ext).
    pose proof (nondisk_nonneg _ _ _ _ _ Hw Hnc Hcz). rewrite bump_exact by lia. lia. }
  assert (roomFor db1 ext) as Hroom1.
  { intros c m Hm Hd Hcz. rewrite Ed1 in Hd. destruct (decide (c = h)) as [->|Hne].
    - destruct (in_new _ _ _ _ Hin) as (e & He & _ & _ & Ep). rewrite He in Hm. injection Hm as <-. rewrite Ep. specialize (Hx h). lia.
    - by destruct (Hold c m Hne Hm Hd Hcz) as (n & _ & _ & ?). }
  destruct (refs_fold ({[h]} ∪ ∅) l h [] ext db1 Hw1) as (db' & -> & Hw' & Hr & Hrc & Hd'); [|done|].
  - apply Forall_forall. intros c Hcx. apply Ho in Hcx. split; [done|]. unfold onDisk. rewrite Ed1. apply Hav, elem_of_app. by right.
  - exists (l ++ [h]), db'. split; [done|]. assert (gcW ∅ ∅ [] (l ++ [h]) db') as Hw2.
    { apply (seal ∅ (l ++ [h]) h db' Hw'). intros k [Hki|Hko]%elem_of_app.
      - right. destruct (new_entry db h o db1 Hin) as (e & He & _ & _ & _ & Eke). apply (rf_childs _ _ _ Hr h e); [done|done|]. by rewrite Eke, Hi.
      - rewrite Forall_forall in Hd'. by apply Hd', Ho. }
    assert (diskdb db' = diskdb db) as Ed by (by rewrite (rf_disk _ _ _ Hr)). split; [done|]. constructor; [set_solver|set_solver|set_solver|done| |].
    + intros r. rewrite Hrc. unfold rootCount. by apply (inserted_meta h o).
    + intros c n' Hcl Hn' Hd. assert (c <> h) as Hne by (intros ->; done). destruct (rf_node _ _ _ Hr c n' Hn') as (n1 & Hn1 & Hle).
      destruct (Hold c n1 Hne Hn1 Hd (Hlz c Hcl)) as (n & Hnc & Hle1 & Hr1). exists n. split; [done|].
      pose proof (nondisk_nonneg _ _ _ _ _ Hw Hnc (Hlz c Hcl)). rewrite Ed1 in Hle. specialize (Hle Hd ltac:(lia) ltac:(lia)). lia.
Qed.

(** Storing a node succeeds and keeps the invariant. *)
Lemma storeNode_ok h blob o ext l db :
  gcW ∅ ∅ [] l db -> storable h o ext l db -> storedOk h blob o ext l db.
Proof.
  intros Hw Hst. destruct (nodes db !! h) as [n|] eqn:Hn; [by eapply storeNode_old|by apply storeNode_new].
Qed.

End gc.
