(* ===== verification/TrieGCCommit.v ===== *)
(** * TrieGCCommit: committing tries to a database that forgets

    [Commit] of [trie.go] stores the nodes of a trie one by one, the children of a
    node before the node, and tells the caller about the values it stores so that
    what these refer to is referred to as well.  Here these steps are steps of the
    invariant of the node database, so a committed trie is as safe as the nodes it
    consists of, and opens with the same map as long as its root is there. *)
From S2P Require Import Prelude Bytes TrieEncoding Rlp Trie TrieTheorems TrieNode.
From S2P Require Import TrieDatabase TrieHasher TrieCache TrieStore TrieHasherTheorems TrieTrees TrieCommit.
From S2P Require Import TrieGC TrieGCInv TrieGCSteps TrieGCTheorems TrieGCInsert.
Local Open Scope Z_scope.
Local Open Scope zv_scope.

Lemma emptyRoot_nonzero : emptyRoot <> zeroB32.
Proof. intros E. apply (f_equal b32_bytes) in E. vm_compute in E. discriminate E. Qed.

Section gc.
Context `{NodeHash} `{G : NodeGraph}.
Implicit Types (db : NodeDatabase) (t : Trie) (g : gmap bytes bytes) (tr s : node) (l : list Hash).

(** ** The database the tries see *)

Lemma gc_flush D l db : gcW ∅ ∅ D l db -> flushOk db.
Proof.
  intros [[Hdom _ _ _ Ho He _] _ _]. destruct (decide (l = [])) as [->|Hl]; [by left|right].
  apply Hdom. right. left. specialize (He Hl). apply last_Some_elem_of in He. done.
Qed.

Lemma gc_dbOk D l db : gcW ∅ ∅ D l db -> dbOk db.
Proof.
  intros Hw. pose proof Hw as [Hs Hc _]. destruct (cl_root _ _ _ Hc) as (m & Hm & Em). constructor; [by eapply gc_flush| |].
  - intros h c Hhc. unfold contents in Hhc. rewrite lookup_fmap in Hhc. apply fmap_Some in Hhc as (n & Hn & E).
    destruct (proj1 (sh_dom _ _ _ Hs h)) as [->|[Hl|]]; [by eexists| | |set_solver].
    + left. congruence.
    + right. destruct (cl_body _ _ _ Hc h n Hl Hn) as (_ & _ & Hob & _). by rewrite <- E in Hob.
  - unfold contents. by rewrite lookup_fmap, Hm, <- Em.
Qed.

Lemma gc_held D l db h b : gcW ∅ ∅ D l db -> h <> zeroB32 -> heldAt db h b -> b = contentAt h.
Proof.
  intros [Hs Hc _] Hz [(n & Hn & <-)|Hb]; [|by apply (cl_disk _ _ _ Hc h b)].
  destruct (proj1 (sh_dom _ _ _ Hs h)) as [|[Hl|]]; [by eexists|done| |set_solver]. by destruct (cl_body _ _ _ Hc h n Hl Hn) as [-> _].
Qed.

(** What can be read is there. *)
Lemma read_available D l db gen h n : gcW ∅ ∅ D l db -> h <> zeroB32 -> node_ db gen h = Ok (Some n) -> Available l db h.
Proof.
  intros [Hs _ _] Hz Hn. unfold node_ in Hn. destruct (nodes db !! h) as [e|] eqn:He.
  - left. destruct (proj1 (sh_dom _ _ _ Hs h)) as [|[|]]; [by eexists|done|done|set_solver].
  - destruct (diskdb db !! h) as [b|] eqn:Hb; [|done]. right. by exists b.
Qed.

(** ** Trees in the graph *)

(** What the values stored with a node refer to; the empty trie is nowhere. *)
Definition extOf (refsOf : option (bytes -> list Hash)) (c : rawNode) : list Hash :=
  match refsOf with Some f => filter (.≠ emptyRoot) (concat (map f (leaves c))) | None => [] end.

(** The hashes of the tree stand for its nodes, and are not the two special ones. *)
Definition inGraph refsOf tr : Prop :=
  forall s, subtree s tr -> (nodeHash s <> zeroB32 /\ nodeHash s <> emptyRoot) /\ contentAt (nodeHash s) = blobOf (collapse s) /\
    inner (nodeHash s) = gatherChildren (collapse s) /\ outer (nodeHash s) = extOf refsOf (collapse s).

Definition trieInGraph refsOf db t : Prop := forall tr, loads (H := envFor db t) (t_root t) tr -> inGraph refsOf tr.

Lemma inGraph_sub refsOf s tr : inGraph refsOf tr -> subtree s tr -> inGraph refsOf s.
Proof.
  intros Hg Hs s' Hs'. apply Hg. clear -Hs Hs'. induction Hs; [done|by constructor|by eapply subtree_full].
Qed.

Lemma gc_noCollision refsOf D l db t :
  gcW ∅ ∅ D l db -> trieInGraph refsOf db t -> makeHashNode (blobOf rawNil) = emptyRoot -> noCollision db t.
Proof.
  intros Hw Hg He. assert (forall b, nodeOf db t b -> (makeHashNode b <> zeroB32 /\ makeHashNode b <> emptyRoot) /\ contentAt (makeHashNode b) = b) as Hn.
  { intros b (tr & Hl & s & Hs & ->). by destruct (Hg tr Hl s Hs) as (? & ? & _). }
  split.
  - intros b b' [->|Hb] [->|Hb'] E; [done| | |].
    + rewrite He in E. by destruct (Hn b' Hb') as [[_ []] _].
    + rewrite He in E. by destruct (Hn b Hb) as [[_ []] _].
    + rewrite <- (proj2 (Hn b Hb)), <- (proj2 (Hn b' Hb')). by f_equal.
  - intros b b' Hb Hh. destruct (Hn b Hb) as [[Hz _] Hbc]. rewrite (gc_held _ _ _ _ _ Hw Hz Hh). done.
Qed.

(** The hashes in a node that can be expanded are known to the database. *)
Lemma expanded_hashes db gen c hash n r tr k :
  expandNode gen hash c = Ok n -> good (H := envOf db gen) r n tr -> k ∈ gatherChildren c -> exists m, node_ db gen k = Ok (Some m).
Proof.
  revert hash n r tr. induction c as [|v|h|key c IH|cs IH] using rawNode_ind'; intros hash n r tr He Hg Hk; cbn [gatherChildren] in Hk.
  - by apply elem_of_nil in Hk.
  - by apply elem_of_nil in Hk.
  - apply list_elem_of_singleton in Hk as ->. injection He as <-. inversion Hg as [| | | |? ? m ? Hr]; subst. by exists m.
  - simpl in He. apply obind_Ok_inv in He as (key' & _ & He). apply obind_Ok_inv in He as (v & Hv & E). injection E as <-.
    inversion Hg; subst. by eapply IH.
  - rewrite expandNode_full in He. apply obind_Ok_inv in He as (ns & Hns & E). injection E as <-. inversion Hg as [| | |? ? ? ts Hcs|]; subst.
    assert (k ∈ concat (map gatherChildren cs)) as Hk'.
    { apply list_elem_of_In, in_concat in Hk as (x & Hx & Hkx). apply list_elem_of_In, in_concat. exists x. split; [|done].
      apply list_elem_of_In in Hx. apply list_elem_of_In. apply elem_of_take in Hx as (i & Hi & _). by eapply list_elem_of_lookup_2. }
    clear Hk Hg. revert ns ts Hns Hcs Hk'. induction IH as [|c cs Hc _ IHcs]; intros ns ts Hns Hcs Hk; simpl in *; [by apply elem_of_nil in Hk|].
    apply obind_Ok_inv in Hns as (n & Hn & Hns). apply obind_Ok_inv in Hns as (ns' & Hns & E). injection E as <-.
    inversion Hcs as [|? t0 ? ts0 Ht0 Hts0]; subst. apply elem_of_app in Hk as [Hk|Hk]; [|by eapply IHcs].
    unfold expandChild in Hn. destruct c; try by eapply Hc. by apply elem_of_nil in Hk.
Qed.

Lemma expands_available (hs : hasher) D l db s k :
  gcW ∅ ∅ D l db -> expands hs db s -> k ∈ gatherChildren (collapse s) -> k <> zeroB32 -> Available l db k.
Proof.
  intros Hw Hx Hk Hz. destruct (Hx None) as (n & He & _ & Hg & _). destruct (expanded_hashes db _ _ _ _ _ _ k He Hg Hk) as (m & Hm).
  by eapply read_available.
Qed.

(** ** Room for the counters *)

(** The references of some nodes to [c]. *)
Fixpoint fanIn (c : Hash) (L : list Hash) : Z :=
  match L with [] => 0 | x :: L' => occ c (kids x) + fanIn c L' end.

(** Room for what is about to be stored, the nodes [N]: no node they refer to has as
    many references, from them, from the nodes in memory and from the roots, as its
    16-bit counter can hold. *)
Definition roomToStore (N : Hash -> Prop) (db : NodeDatabase) : Prop :=
  forall h c L, N h -> c ∈ kids h -> NoDup L -> (forall x, x ∈ L -> x <> zeroB32 /\ (is_Some (nodes db !! x) \/ N x)) ->
  fanIn c (h :: L) + rootCount db c < 2 ^ 16.

Lemma fanIn_nonneg c L : 0 <= fanIn c L.
Proof. induction L as [|x L IH]; simpl; [done|]. pose proof (occ_nonneg c (kids x)). lia. Qed.

Lemma map_sum_fanIn c L (ns : gmap Hash cachedNode) :
  (forall x n, ns !! x = Some n -> x ∈ L \/ edgesOf ∅ c x n = 0) -> (forall x n, ns !! x = Some n -> edgesOf ∅ c x n <= occ c (kids x)) ->
  map_sum (edgesOf ∅ c) ns <= fanIn c L.
Proof.
  revert ns. induction L as [|y L IH]; intros ns Hin Hle; simpl.
  - induction ns as [|k x m Hk IH] using map_ind; [by rewrite map_sum_empty|]. rewrite map_sum_insert_new by done.
    destruct (Hin k x) as [Hk0|Hk0]; [apply lookup_insert_eq|by apply elem_of_nil in Hk0|]. assert (map_sum (edgesOf ∅ c) m <= 0); [|lia].
    apply IH; intros z n Hz; [apply Hin|apply Hle]; by rewrite lookup_insert_ne by congruence.
  - pose proof (occ_nonneg c (kids y)). assert (map_sum (edgesOf ∅ c) (base.delete y ns) <= fanIn c L) as Hd.
    { apply IH; intros x n [Hxy Hx]%lookup_delete_Some; [|by apply Hle]. destruct (Hin x n Hx) as [[->|?]%elem_of_cons|]; [done|by left|by right]. }
    rewrite map_sum_delete in Hd. destruct (ns !! y) as [n|] eqn:Hy; simpl in Hd; [|lia]. specialize (Hle y n Hy). lia.
Qed.

Lemma edges_kids l db c x n : gcW ∅ ∅ [] l db -> nodes db !! x = Some n -> edgesOf ∅ c x n <= occ c (kids x) /\ (x ∈ l \/ edgesOf ∅ c x n = 0).
Proof.
  intros [Hs Hc _] Hn. unfold edgesOf. pose proof (occ_nonneg c (kids x)). destruct (decide (x = zeroB32 \/ x ∈ ∅)) as [|Hx]; [by split; [|right]|].
  assert (x ∈ l) as Hl by (destruct (proj1 (sh_dom _ _ _ Hs x)) as [|[|]]; [by eexists|tauto|done|tauto]). split; [|by left].
  destruct (cl_body _ _ _ Hc x n Hl Hn) as (_ & Hin & _ & Hout). unfold kids. rewrite occ_app, childs_occ, Hin.
  destruct (cn_children n) as [cs|]; [|pose proof (occ_nonneg c (outer x)); lia]. destruct (decide (is_Some (cs !! c))) as [Hcs|].
  - pose proof (occ_pos c (outer x) (Hout cs c eq_refl Hcs)). lia.
  - pose proof (occ_nonneg c (outer x)). lia.
Qed.

Lemma parents_bound l db c n :
  gcW ∅ ∅ [] l db -> nodes db !! c = Some n -> diskdb db !! c = None -> c <> zeroB32 -> cn_parents n <= fanIn c l + rootCount db c.
Proof.
  intros Hw Hn Hd Hz. pose proof Hw as [Hs _ Hct].
  assert (c ∈ l) as Hl by (destruct (proj1 (sh_dom _ _ _ Hs c)) as [|[|]]; [by eexists|done|done|set_solver]).
  rewrite (ct_exact _ _ _ _ Hct c n Hl Hn Hd). unfold refs, rootCount. change (occ c []) with 0.
  assert (map_sum (edgesOf ∅ c) (nodes db) <= fanIn c l) by (apply map_sum_fanIn; intros x m Hm; by apply (edges_kids l db)). lia.
Qed.

Lemma roomFor_store N l db h : gcW ∅ ∅ [] l db -> roomToStore N db -> N h -> roomFor db (kids h).
Proof.
  intros Hw HR Hh c n Hn Hd Hz. pose proof Hw as [Hs _ Hct]. destruct (decide (c ∈ kids h)) as [Hk|Hk].
  - pose proof (parents_bound l db c n Hw Hn Hd Hz). specialize (HR h c l Hh Hk (sh_nodup _ _ _ Hs)). simpl in HR. enough (fanIn c l + (occ c (kids h) + rootCount db c) < 2 ^ 16) by lia.
    rewrite Z.add_comm, <- Z.add_assoc, (Z.add_comm _ (fanIn c l)), Z.add_assoc. apply HR. intros x Hx. split; [|left; apply (sh_dom _ _ _ Hs); tauto].
    intros ->. by apply (proj1 (sh_zero _ _ _ Hs)).
  - assert (c ∈ l) as Hl by (destruct (proj1 (sh_dom _ _ _ Hs c)) as [|[|]]; [by eexists|done|done|set_solver]).
    rewrite (proj2 (occ_zero c (kids h)) Hk). pose proof (ct_range _ _ _ _ Hct c n Hl Hn). lia.
Qed.

Lemma room_stays N l l' db db' :
  gcW ∅ ∅ [] l db -> gcW ∅ ∅ [] l' db' -> (forall x, x ∈ l' -> N x \/ x ∈ l) -> (forall r, rootCount db' r = rootCount db r) -> roomToStore N db -> roomToStore N db'.
Proof.
  intros Hw Hw' Hb Hr HR h c L Hh Hk HL Hx. rewrite Hr. apply HR; [done|done|done|]. intros x Hxl. destruct (Hx x Hxl) as [Hz Hin]. split; [done|].
  destruct Hin as [Hin|]; [|by right]. apply (sh_dom _ _ _ (gw_shape _ _ _ _ _ Hw')) in Hin as [|[Hin|Hin]]; [done| |set_solver].
  destruct (Hb x Hin) as [|Hl]; [by right|left]. apply (sh_dom _ _ _ (gw_shape _ _ _ _ _ Hw)). tauto.
Qed.

(** ** The steps of a commit *)

(** The callback of [AccountDB.Commit]. *)
Definition referenceLeaf (f : bytes -> list Hash) : LeafCallback := fun v h db => foldHashes (fun c => Reference c h) (f v) db.

Lemma foldHashes_app {S} (f : Hash -> S -> outcome trieError S) a b (x : S) :
  foldHashes f (a ++ b) x = (y <-! foldHashes f a x ;; foldHashes f b y).
Proof. revert x. induction a as [|h a IH]; intros x; simpl; [done|]. destruct (f h x); [|done..]. cbn [obind]. apply IH. Qed.

Lemma onLeaves_fold f vs h db : onLeaves (referenceLeaf f) vs h db = foldHashes (fun c => Reference c h) (concat (map f vs)) db.
Proof.
  revert db. induction vs as [|v vs IH]; intros db; simpl; [done|]. rewrite foldHashes_app. unfold referenceLeaf at 1.
  destruct (foldHashes _ (f v) db); [|done..]. cbn [obind]. apply IH.
Qed.

Lemma referenceLeaf_law f : leafLaw (referenceLeaf f).
Proof.
  intros v h. unfold referenceLeaf. induction (f v) as [|c cs IH]; intros db Hfl Hh; simpl; [by exists db|].
  destruct (Reference_spec c h db Hfl Hh) as (db1 & -> & Hd1 & Hc1 & Hf1). cbn [obind].
  destruct (IH db1 Hf1) as (db2 & -> & Hd2 & Hc2 & Hf2); [by apply contents_is_Some; rewrite Hc1; apply contents_is_Some|].
  exists db2. split; [done|]. split_and!; [congruence|congruence|done].
Qed.

Definition hasherFor refsOf t : hasher := mkHasher (t_cachegen t) (t_cachelimit t) (referenceLeaf <$> refsOf).

(** References to what is not cached do nothing. *)
Lemma Reference_absent c h db : nodes db !! c = None -> Reference c h db = Ok db.
Proof. intros Hc. unfold Reference. by rewrite Hc. Qed.

Lemma fold_absent e cs h db :
  flushOk db -> is_Some (nodes db !! h) -> nodes db !! e = None ->
  foldHashes (fun c => Reference c h) cs db = foldHashes (fun c => Reference c h) (filter (.≠ e) cs) db.
Proof.
  revert db. induction cs as [|c cs IH]; intros db Hfl Hh He; [done|]. rewrite filter_cons. destruct (decide (c ≠ e)) as [Hne|Hne].
  - simpl. destruct (Reference_spec c h db Hfl Hh) as (db1 & -> & _ & Hc1 & Hf1). cbn [obind]. apply IH; [done| |].
    + apply contents_is_Some. rewrite Hc1. by apply contents_is_Some.
    + apply eq_None_not_Some. rewrite contents_is_Some, Hc1, <- contents_is_Some. by apply eq_None_not_Some.
  - apply dec_stable in Hne as ->. simpl. rewrite Reference_absent by done. cbn [obind]. by apply IH.
Qed.

Lemma storing_storeNode refsOf t s db :
  flushOk db -> nodeHash s <> emptyRoot -> nodes db !! emptyRoot = None ->
  storing (hasherFor refsOf t) s db = storeNode (nodeHash s) (blobOf (collapse s)) (Collapsed (collapse s)) (extOf refsOf (collapse s)) db.
Proof.
  intros Hfl Hs He. unfold storing, storeNode, extOf. destruct (db_insert_spec (nodeHash s) (blobOf (collapse s)) (Collapsed (collapse s)) db Hfl)
    as (db1 & -> & _ & Hf1 & Hc1). cbn [obind]. destruct refsOf as [f|]; simpl; [|done]. rewrite onLeaves_fold. apply fold_absent; [done| |].
  - apply contents_is_Some. rewrite Hc1. destruct (contents db !! nodeHash s) eqn:E; [by rewrite E; eexists|rewrite lookup_insert_eq; by eexists].
  - apply eq_None_not_Some. rewrite contents_is_Some, Hc1. destruct (contents db !! nodeHash s); [|rewrite lookup_insert_ne by done];
      by rewrite <- contents_is_Some, <- eq_None_not_Some.
Qed.

(** What a commit changes: nodes of [N] are added, counters only grow. *)
Record grew (N : Hash -> Prop) (l l' : list Hash) (db db' : NodeDatabase) : Prop := {
  gw_old x : x ∈ l -> x ∈ l';
  gw_back x : x ∈ l' -> N x \/ x ∈ l;
  gw_disk : diskdb db' = diskdb db;
  gw_roots r : rootCount db' r = rootCount db r;
  gw_counted c n' : c ∈ l -> nodes db' !! c = Some n' -> diskdb db !! c = None ->
    exists n, nodes db !! c = Some n /\ cn_parents n <= cn_parents n';
}.

Lemma grew_refl N l db : grew N l l db db.
Proof. constructor; try done; [by right|]. intros c n' _ Hn' _. by exists n'. Qed.

Lemma grew_trans N l1 l2 l3 db1 db2 db3 : grew N l1 l2 db1 db2 -> grew N l2 l3 db2 db3 -> grew N l1 l3 db1 db3.
Proof.
  intros [Ho Hb Hd Hr Hc] [Ho' Hb' Hd' Hr' Hc']. constructor; [auto| |congruence|congruence|].
  - intros x Hx. destruct (Hb' x Hx); [by left|auto].
  - intros c n' Hl Hn' Hdk. destruct (Hc' c n') as (n2 & Hn2 & ?); [auto|done|by rewrite Hd|].
    destruct (Hc c n2) as (n & Hn & ?); [done|done|done|]. exists n. split; [done|lia].
Qed.

Lemma available_grew N l l' db db' h : grew N l l' db db' -> Available l db h -> Available l' db' h.
Proof. intros [Ho _ Hd _ _] [Hl|Hk]; [left; auto|right]. unfold onDisk. by rewrite Hd. Qed.

(** The nodes of a tree that are stored. *)
Definition storedIn tr (h : Hash) : Prop := exists s, subtree s tr /\ (s = tr \/ long s) /\ h = nodeHash s.

Lemma grew_empty refsOf tr l l' db db' :
  inGraph refsOf tr -> gcW ∅ ∅ [] l db -> gcW ∅ ∅ [] l' db' -> grew (storedIn tr) l l' db db' -> nodes db !! emptyRoot = None -> nodes db' !! emptyRoot = None.
Proof.
  intros Hgr Hw Hw' Hg He. apply eq_None_not_Some. intros Hc. apply (sh_dom _ _ _ (gw_shape _ _ _ _ _ Hw')) in Hc as [Hc|[Hc|?]]; [| |set_solver].
  - by apply emptyRoot_nonzero in Hc.
  - destruct (gw_back _ _ _ _ _ Hg emptyRoot Hc) as [(s & Hs & _ & E)|Hl]; [by destruct (Hgr s Hs) as ((_ & []) & _)|].
    destruct (proj2 (sh_dom _ _ _ (gw_shape _ _ _ _ _ Hw) emptyRoot)) as [? ?]; [tauto|congruence].
Qed.

Section walk.
Context (refsOf : option (bytes -> list Hash)) t tr.
Context (Hroot : isNode tr) (Hgr : inGraph refsOf tr) (Hob : forall s, subtree s tr -> objOk (Collapsed (collapse s))).

Definition outerThere l db : Prop := forall s k, subtree s tr -> k ∈ outer (nodeHash s) -> Available l db k.

Lemma step_ok l db db' :
  gcW ∅ ∅ [] l db -> nodes db !! emptyRoot = None -> roomToStore (storedIn tr) db -> outerThere l db -> storeStep (hasherFor refsOf t) (belongs tr) (eq tr) db db' ->
  exists l', gcW ∅ ∅ [] l' db' /\ grew (storedIn tr) l l' db db'.
Proof.
  intros Hw Hem HR Hout (s & Hs & Hl & (s' & Hs' & Eh & Ec) & Hx & Hst). destruct (Hgr s' Hs') as ((Hz & Hze) & Hct & Hinn & Houte).
  rewrite <- Eh, <- Ec in *. rewrite storing_storeNode in Hst by (done || by eapply gc_flush).
  assert (storedIn tr (nodeHash s)) as Hin.
  { destruct Hl as [<-|Hl]; [exists tr; split_and!; [by apply subtree_here|by left|done]|]. exists s'. split_and!; [done|right|done].
    unfold long in *. by rewrite <- Ec. }
  destruct (storeNode_ok (nodeHash s) (blobOf (collapse s)) (Collapsed (collapse s)) (extOf refsOf (collapse s)) l db Hw) as (l' & db1 & E & Hw' & Hsto).
  - pose proof (roomFor_store _ l db (nodeHash s) Hw HR Hin) as Hroom. constructor.
    + done.
    + done.
    + rewrite Ec. by apply Hob.
    + done.
    + intros k. by rewrite Houte.
    + intros k [Hk|Hk]%elem_of_app; [|apply (Hout s'); [done|by rewrite <- Eh]]. eapply expands_available; [done|done|by rewrite <- Hinn|].
      intros ->. apply (kids_zero (nodeHash s)). set_solver.
    + cbn [objChildren]. rewrite <- Hinn, <- Houte. exact Hroom.
    + intros c. destruct (decide (c ∈ kids (nodeHash s))) as [Hk|Hk].
      * specialize (HR (nodeHash s) c [] Hin Hk (NoDup_nil_2)). cbn [fanIn] in HR. unfold kids in HR. rewrite occ_app, Houte in HR.
        pose proof (occ_nonneg c (inner (nodeHash s))). pose proof (meta_nonneg _ _ _ c (gw_closed _ _ _ _ _ Hw)) as Hm0.
        unfold rootCount in HR. specialize (HR ltac:(intros x Hx0; by apply elem_of_nil in Hx0)). lia.
      * rewrite <- Houte. enough (occ c (outer (nodeHash s)) = 0) by lia. apply occ_zero. unfold kids in Hk. set_solver.
  - rewrite E in Hst. injection Hst as ->. destruct Hsto as [Hh Ho Hb Hd Hr Hcc]. exists l'. split; [done|].
    constructor; try done. intros x Hx'. destruct (Hb x Hx') as [->|]; [by left|by right].
Qed.

Lemma steps_ok l db db' :
  gcW ∅ ∅ [] l db -> nodes db !! emptyRoot = None -> roomToStore (storedIn tr) db -> outerThere l db ->
  rtc (storeStep (hasherFor refsOf t) (belongs tr) (eq tr)) db db' ->
  exists l', gcW ∅ ∅ [] l' db' /\ grew (storedIn tr) l l' db db'.
Proof.
  intros Hw Hem Hrc Hout Hsteps. revert l Hw Hem Hrc Hout.
  induction Hsteps as [|db db1 db2 Hs _ IH]; intros l Hw Hem Hrc Hout; [exists l; split; [done|apply grew_refl]|].
  destruct (step_ok l db db1 Hw Hem Hrc Hout Hs) as (l1 & Hw1 & Hg1). destruct (IH l1 Hw1) as (l2 & Hw2 & Hg2).
  - by eapply (grew_empty refsOf tr l l1).
  - eapply room_stays; [exact Hw|exact Hw1|apply Hg1|apply Hg1|done].
  - intros s k Hsub Hk. eapply available_grew; [done|]. by eapply Hout.
  - exists l2. split; [done|]. by eapply grew_trans.
Qed.

End walk.

(** ** A tree is there when its root is *)

Lemma available_expand l db gen h c :
  gcW ∅ ∅ [] l db -> h <> zeroB32 -> Available l db h -> contentAt h = blobOf c -> rawOk c -> small (encode (itemOf c)) ->
  node_ db gen h = (r <-! expandNode gen (Some h) c ;; Ok (Some r)).
Proof.
  intros [Hs Hc _] Hz Ha Hh Hr Hsm. unfold node_. destruct (nodes db !! h) as [n|] eqn:Hn.
  - assert (h ∈ l) as Hl by (destruct (proj1 (sh_dom _ _ _ Hs h)) as [|[|]]; [by eexists|done|done|set_solver]).
    destruct (cl_body _ _ _ Hc h n Hl Hn) as (Hb & _ & Hob & _). unfold rlp_ in Hb. rewrite Hh in Hb. f_equal.
    destruct (cn_node n) as [c'|b]; simpl in *; [destruct Hob; by rewrite <- !expand_blob, Hb by done|by rewrite Hb, expand_blob].
  - destruct Ha as [Hl|[b Hb]]; [destruct (proj2 (sh_dom _ _ _ Hs h)) as [? ?]; [tauto|congruence]|].
    rewrite Hb. destruct (cl_disk _ _ _ Hc h b Hb) as [-> _]. by rewrite Hh, expand_blob.
Qed.

(** The references of a branch through one of its children. *)
Lemma gather_child ts last s :
  length ts = 16%nat -> s ∈ ts -> forall k, k ∈ gatherChildren (shorten (collapse s)) -> k ∈ gatherChildren (collapse (fullNode (ts ++ [last]) noFlag)).
Proof.
  intros Hl Hs k Hk. cbn [collapse gatherChildren]. rewrite map_map. apply list_elem_of_In, in_concat. exists (gatherChildren (shorten (collapse s))).
  split; [|by apply list_elem_of_In]. apply list_elem_of_In. apply list_elem_of_lookup in Hs as [i Hi]. apply elem_of_take. exists i.
  split; [|apply lookup_lt_Some in Hi; lia]. rewrite list_lookup_fmap. by rewrite lookup_app_l, Hi by (apply lookup_lt_Some in Hi; lia).
Qed.

Lemma gather_long s : isNode s -> long s -> gatherChildren (shorten (collapse s)) = [nodeHash s].
Proof. intros Hi Hl. by rewrite shorten_long. Qed.
Lemma gather_short s : isNode s -> ~ long s -> gatherChildren (shorten (collapse s)) = gatherChildren (collapse s).
Proof. intros Hi Hl. by rewrite shorten_short. Qed.

Section there.
Context (refsOf : option (bytes -> list Hash)) (hs : hasher) l db (Hw : gcW ∅ ∅ [] l db).

Definition wellFormed tr : Prop := treeOk tr /\ inGraph refsOf tr /\ forall s, subtree s tr -> objOk (Collapsed (collapse s)).

Lemma wellFormed_sub s tr : wellFormed tr -> subtree s tr -> wellFormed s.
Proof.
  intros (Ht & Hg & Ho) Hs. split_and!; [by eapply treeOk_subtree|by eapply inGraph_sub|]. intros s' Hs'. apply Ho.
  clear -Hs Hs'. induction Hs; [done|by constructor|by eapply subtree_full].
Qed.

Lemma hash_good force s :
  wellFormed s -> force = true \/ long s -> Available l db (nodeHash s) -> expands hs db s ->
  good (H := envOf db (h_cachegen hs)) force (hashNode (nodeHash s)) s.
Proof.
  intros (Ht & Hg & Ho) Hf Ha Hx. pose proof (treeOk_isNode s Ht) as Hi. pose proof (subtree_here s Hi) as Hs.
  destruct (Hg s Hs) as ((Hz & _) & Hc & _). destruct (Ho s Hs) as [Hr Hsm]. destruct (Hx (Some (nodeHash s))) as (n & He & Hn & Hgd & Hp).
  apply (good_hash force _ n); [|destruct force; [by apply good_root|done]|done|done|done|done]. simpl.
  by rewrite (available_expand l db _ _ (collapse s) Hw Hz Ha Hc Hr Hsm), He.
Qed.

Lemma kids_available s k : wellFormed s -> Available l db (nodeHash s) -> k ∈ gatherChildren (collapse s) -> Available l db k.
Proof.
  intros (Ht & Hg & _) Ha Hk. eapply available_kids; [done|done|]. destruct (Hg s (subtree_here s (treeOk_isNode s Ht))) as (_ & _ & Hin & _).
  unfold refersTo, kids. rewrite Hin. set_solver.
Qed.

(** A child whose references are there. *)
Lemma child_there s :
  wellFormed s -> ((forall k, k ∈ gatherChildren (collapse s) -> Available l db k) -> expands hs db s) ->
  (forall k, k ∈ gatherChildren (shorten (collapse s)) -> Available l db k) -> childGood hs db s.
Proof.
  intros Hwf IH Hk. pose proof (treeOk_isNode s (proj1 Hwf)) as Hi. destruct (long_dec s) as [Hl|Hl].
  - rewrite gather_long in Hk by done. assert (Available l db (nodeHash s)) as Ha by (apply Hk; set_solver).
    apply childGood_hash; [done|done|]. apply hash_good; [done|by right|done|]. apply IH. intros k. by apply kids_available.
  - rewrite gather_short in Hk by done. apply childGood_short; [done|done|by apply IH].
Qed.

Lemma tree_expands s : wellFormed s -> (forall k, k ∈ gatherChildren (collapse s) -> Available l db k) -> expands hs db s.
Proof.
  induction s as [|v|key c fl IH|cs fl IH|h] using node_ind'; intros Hwf Hk; pose proof Hwf as (Ht & _ & _); try by inversion Ht.
  - inversion Ht as [? v Htk Hv|? ts Hp Htc|]; subst.
    + apply expands_short; [by right|apply childGood_value|done].
    + apply expands_short; [by left| |done]. assert (wellFormed (fullNode ts noFlag)) as Hwc.
      { eapply wellFormed_sub; [done|]. by apply subtree_short, subtree_here. }
      apply child_there; [done|by apply IH|done].
  - inversion Ht as [| |ts last Hlen Hts Hlast]; subst. apply expands_full. apply Forall_app. split.
    + apply Forall_forall. intros s Hs. rewrite Forall_forall in Hts, IH. destruct (Hts s Hs) as [->|Hts']; [apply childGood_nil|].
      assert (wellFormed s) as Hws.
      { eapply wellFormed_sub; [done|]. eapply subtree_full; [apply elem_of_app; by left|]. by apply subtree_here, treeOk_isNode. }
      apply child_there; [done|intros Hks; apply IH; [set_solver|done|done]|]. intros k Hks. apply Hk. by eapply gather_child.
    + constructor; [|constructor]. destruct Hlast as [->|(v & _ & ->)]; [apply childGood_nil|apply childGood_value].
Qed.

Lemma tree_good tr : wellFormed tr -> Available l db (nodeHash tr) -> good (H := envOf db (h_cachegen hs)) true (hashNode (nodeHash tr)) tr.
Proof.
  intros Hwf Ha. apply hash_good; [done|by left|done|]. apply tree_expands; [done|]. intros k. by apply kids_available.
Qed.

End there.

(** ** What a root leads to *)

Lemma child_reach refsOf (c s : node) :
  wellFormed refsOf c -> subtree s c -> long s ->
  s = c \/ (exists k, k ∈ gatherChildren (collapse c) /\ rtc refersTo k (nodeHash s)) ->
  exists k, k ∈ gatherChildren (shorten (collapse c)) /\ rtc refersTo k (nodeHash s).
Proof.
  intros (Ht & Hg & _) Hs Hl HIH. pose proof (treeOk_isNode c Ht) as Hi. destruct (long_dec c) as [Hlc|Hlc].
  - rewrite gather_long by done. exists (nodeHash c). split; [set_solver|]. destruct HIH as [->|(k & Hk & Hr)]; [constructor|].
    eapply rtc_l; [|done]. destruct (Hg c (subtree_here c Hi)) as (_ & _ & Hin & _). unfold refersTo, kids. rewrite Hin. set_solver.
  - rewrite gather_short by done. destruct HIH as [->|?]; [by destruct Hlc|done].
Qed.

Lemma tree_reach refsOf tr s :
  wellFormed refsOf tr -> subtree s tr -> long s -> s = tr \/ exists k, k ∈ gatherChildren (collapse tr) /\ rtc refersTo k (nodeHash s).
Proof.
  induction tr as [|v|key c fl IH|cs fl IH|h] using node_ind'; intros Hwf Hs Hl; pose proof Hwf as (Ht & _ & _); try by inversion Ht.
  - inversion Hs as [|? ? ? Hs'|]; subst; [by left|right]. pose proof (subtree_isNode s c Hs') as Hi.
    assert (treeOk c) as Htc by (inversion Ht; subst; [by inversion Hs'|done]).
    assert (wellFormed refsOf c) as Hwc by (eapply wellFormed_sub; [done|]; by apply subtree_short, subtree_here, treeOk_isNode).
    destruct (child_reach refsOf c s Hwc Hs' Hl (IH Hwc Hs' Hl)) as (k & Hk & Hr). by exists k.
  - inversion Hs as [| |? ? c Hc Hs']; subst; [by left|right]. inversion Ht as [| |ts last Hlen Hts Hlast]; subst.
    apply elem_of_app in Hc as [Hc|Hc].
    2: { apply list_elem_of_singleton in Hc as ->. destruct Hlast as [->|(v & _ & ->)]; by inversion Hs'. }
    rewrite Forall_forall in Hts, IH. destruct (Hts c Hc) as [->|Htc]; [by inversion Hs'|].
    assert (wellFormed refsOf c) as Hwc.
    { eapply wellFormed_sub; [done|]. eapply subtree_full; [apply elem_of_app; by left|]. by apply subtree_here, treeOk_isNode. }
    destruct (child_reach refsOf c s Hwc Hs' Hl) as (k & Hk & Hr); [apply IH; [set_solver|done|done|done]|].
    exists k. split; [by eapply gather_child|done].
Qed.

Lemma stored_reach refsOf tr h : wellFormed refsOf tr -> storedIn tr h -> rtc refersTo (nodeHash tr) h.
Proof.
  intros Hwf (s & Hs & Hl & ->). destruct Hl as [->|Hl]; [constructor|]. destruct (tree_reach refsOf tr s Hwf Hs Hl) as [->|(k & Hk & Hr)]; [constructor|].
  eapply rtc_l; [|done]. destruct Hwf as (Ht & Hg & _). destruct (Hg tr (subtree_here tr (treeOk_isNode tr Ht))) as (_ & _ & Hin & _).
  unfold refersTo, kids. rewrite Hin. set_solver.
Qed.

Lemma available_reach l db r h : gcW ∅ ∅ [] l db -> Available l db r -> rtc refersTo r h -> Available l db h.
Proof. intros Hw Ha Hr. induction Hr as [|r k h Hk _ IH]; [done|]. apply IH. by eapply available_kids. Qed.

(** A node an available one refers to is counted. *)
Lemma referred_counted l db p c n :
  gcW ∅ ∅ [] l db -> Available l db p -> refersTo p c -> c ∈ l -> nodes db !! c = Some n -> diskdb db !! c = None -> 0 < cn_parents n.
Proof.
  intros Hw Ha Hpc Hc Hn Hd. pose proof Hw as [Hs Hcl _]. destruct Ha as [Hp|[b Hb]].
  - destruct (proj2 (sh_dom _ _ _ Hs p)) as [m Hm]; [tauto|].
    destruct (cl_kids _ _ _ Hcl p m c Hp ltac:(set_solver) Hm Hpc) as [Hin|[? ?]]; [|congruence]. by eapply (child_counted ∅ l db p m c n).
  - destruct (cl_disk _ _ _ Hcl p b Hb) as [_ Hk]. destruct (Hk c Hpc) as [? ?]. congruence.
Qed.

(** The references from the values of a tree. *)
Definition outerOf tr (c : Hash) : Prop := exists h, storedIn tr h /\ c ∈ outer h.

Lemma grew_positive refsOf tr X X' l l' db db' :
  wellFormed refsOf tr -> gcW ∅ ∅ [] l' db' -> grew (storedIn tr) l l' db db' -> Available l' db' (nodeHash tr) -> positive X l db ->
  nodeHash tr ∈ X' -> (forall c, c ∈ X -> c ∈ X' \/ outerOf tr c) -> positive X' l' db'.
Proof.
  intros Hwf Hw Hg Ha Hp Hr HX c n Hc HcX Hn Hd.
  assert (forall p, rtc refersTo (nodeHash tr) p -> refersTo p c -> 0 < cn_parents n) as Href.
  { intros p Hrp Hpc. eapply referred_counted; [done| |done|done|done|done]. by eapply available_reach. }
  destruct (gw_back _ _ _ _ _ Hg c Hc) as [Hnew|Hold].
  - apply stored_reach with (refsOf := refsOf) in Hnew; [|done]. apply rtc_inv_r in Hnew as [<-|(p & Hrp & Hpc)]; [done|by eapply Href].
  - destruct (decide (c ∈ X)) as [HcX0|HcX0].
    + destruct (HX c HcX0) as [|(h & Hh & Hco)]; [done|]. apply (Href h); [by eapply stored_reach|]. unfold refersTo, kids. set_solver.
    + rewrite (gw_disk _ _ _ _ _ Hg) in Hd. destruct (gw_counted _ _ _ _ _ Hg c n Hold Hn Hd) as (n0 & Hn0 & ?).
      specialize (Hp c n0 Hold HcX0 Hn0 Hd). lia.
Qed.

(** ** [Commit] and [NewTrie] *)

(** A map as a tree of the graph. *)
Definition treeHolds tr g : Prop := exists d (E : TrieEnv), okNode (H := E) d tr (contentOf g).

Lemma loads_self (E : TrieEnv) tr : treeOk tr -> loads (H := E) tr tr.
Proof.
  induction tr as [|v|key c fl IH|cs fl IH|h] using node_ind'; intros Ht; try by inversion Ht.
  - inversion Ht as [? v Htk Hv|? ts Hp Htc|]; subst; [do 2 constructor|constructor; by apply IH].
  - inversion Ht as [| |ts last Hlen Hts Hlast]; subst. constructor. apply Forall_app in IH as [IH _]. apply Forall2_app.
    + clear Hlen Ht. induction IH as [|c cs Hc _ IHcs]; [constructor|]. apply Forall_cons in Hts as [[->|Hct] Hts].
      * constructor; [constructor|by apply IHcs].
      * constructor; [by apply Hc|by apply IHcs].
    + constructor; [|constructor]. destruct Hlast as [->|(v & _ & ->)]; constructor.
Qed.

Lemma treeFor_wellFormed refsOf db t g tr :
  sizedMap g -> treeFor db t g tr -> trieInGraph refsOf db t -> wellFormed refsOf tr /\ treeHolds tr g.
Proof.
  intros Hg Ht Hgr. pose proof (treeFor_known db t g tr (fun _ => True) Hg Ht ltac:(done)) as [Hok Hf _].
  pose proof Ht as (Hfl & d & n & Hn & Hl). split; [|exists d, (envFor db t); by eapply okNode_loaded].
  split_and!; [done|apply Hgr; by eapply good_loads, flagged_good|]. intros s Hs. simpl. split; [|by apply Hf].
  apply rawOk_collapse; [by eapply treeOk_subtree|]. intros s' Hs'. apply Hf. clear -Hs Hs'. induction Hs; [done|by constructor|by eapply subtree_full].
Qed.

(** The trie under a hash holds a map. *)
Definition opens db (h : Hash) g : Prop := exists t, NewTrie h db = Ok t /\ tracked db t g.

Lemma tree_opens refsOf l db tr g :
  gcW ∅ ∅ [] l db -> wellFormed refsOf tr -> treeHolds tr g -> Available l db (nodeHash tr) -> opens db (nodeHash tr) g.
Proof.
  intros Hw Hwf (d & E & Hok) Ha. pose proof Hwf as (Ht & Hgr & _).
  destruct (Hgr tr (subtree_here tr (treeOk_isNode tr Ht))) as ((Hz & He) & _).
  pose proof (tree_good refsOf (mkHasher 0 0 None) l db Hw tr Hwf Ha) as Hg.
  destruct (NewTrie_hash db 0 (nodeHash tr) tr Hg Hz He) as (t2 & Hn & Hf). exists t2. split; [done|]. split; [by exists tr|].
  eapply holds_good; [exact Hok|by apply loads_self|by eapply flagged_good].
Qed.

(** The values of a tree are the values of its map. *)
Lemma tree_value (E : TrieEnv) d tr m k v fl :
  treeOk tr -> okNode (H := E) d tr m -> subtree (shortNode k (valueNode v) fl) tr -> exists j, m j = Some v.
Proof.
  revert tr m. induction d as [|d IH]; intros tr m Ht Hok Hs; [done|]. destruct tr as [| |k0 c fl0|cs fl0|]; try done.
  - destruct Hok as [[_ (w & -> & [_ Ho])]|(Hp & _ & _ & cs & Hb & Hok)].
    + inversion Hs as [|? ? ? Hs'|]; subst; [|by inversion Hs']. exists k0. by rewrite Ho, decide_True.
    + inversion Ht as [|? ts _ Htc|]; subst; [destruct Hb as [(? & ?)|(? & ? & ? & _)]; done|].
      destruct Hb as [(flb & [= <- <-])|(h & flb & ? & _)]; [|done]. inversion Hs as [|? ? ? Hs'|]; subst.
      destruct (IH _ _ Htc Hok Hs') as (j & Hj). by exists (k0 ++ j).
  - destruct Hok as [(Hlen & _ & _ & Hsl) _]. inversion Hs as [| |? ? c Hc Hs']; subst. inversion Ht as [| |ts last Hl16 Hts Hlast]; subst.
    apply list_elem_of_lookup in Hc as [i Hi]. assert (i < 17)%nat as Hi17 by (apply lookup_lt_Some in Hi; lia).
    specialize (Hsl (Z.of_nat i) c ltac:(unfold index; lia) ltac:(by rewrite Nat2Z.id)). unfold slotOk in Hsl.
    destruct (decide (Z.of_nat i = 16)) as [|Hn16]; [destruct Hsl as [[-> _]|(w & -> & _)]; by inversion Hs'|].
    assert (c ∈ ts) as Hin.
    { rewrite lookup_app_l in Hi by lia. by eapply list_elem_of_lookup_2. }
    rewrite Forall_forall in Hts. destruct (Hts c Hin) as [->|Htc]; [by inversion Hs'|].
    destruct Hsl as [[-> _]|[Hok|(h & n & -> & _)]]; [by inversion Hs'| |by inversion Hs'].
    destruct (IH _ _ Htc Hok Hs') as (j & Hj). by exists (Z.of_nat i :: j).
Qed.

Lemma tree_leaves tr v : treeOk tr -> v ∈ leaves (collapse tr) -> exists k fl, tr = shortNode k (valueNode v) fl.
Proof.
  intros Ht Hv. assert (forall s, isNode s -> forall w, shorten (collapse s) <> rawValue w) as Hno.
  { intros t0 Hi w. destruct t0; try done; simpl; by destruct (_ <? 32). }
  inversion Ht as [k w Htk Hw|k ts Hp Htc|ts last Hlen Hts Hlast]; subst.
  - simpl in Hv. apply list_elem_of_singleton in Hv as ->. eauto.
  - exfalso. specialize (Hno (fullNode ts noFlag) I). change (v ∈ leaves (rawShortNode (hexToCompact k) (shorten (collapse (fullNode ts noFlag))))) in Hv.
    destruct (shorten (collapse (fullNode ts noFlag))) as [|w| | |]; try by apply elem_of_nil in Hv. by apply (Hno w).
  - exfalso. cbn [collapse leaves] in Hv. rewrite map_app, take_app_length' in Hv by (by rewrite length_map).
    apply list_elem_of_In, in_concat in Hv as (x & Hx & Hvx). apply in_map_iff in Hx as (c & <- & Hc). apply in_map_iff in Hc as (t0 & <- & Ht0).
    rewrite Forall_forall in Hts. apply list_elem_of_In in Ht0. destruct (Hts t0 Ht0) as [->|Ht0']; [done|].
    destruct (shorten (collapse t0)) eqn:E; try done. by apply (Hno t0 (treeOk_isNode t0 Ht0')) in E.
Qed.

(** What the values of a map refer to is there. *)
Definition valuesThere (refsOf : option (bytes -> list Hash)) l db g : Prop :=
  forall f k v c, refsOf = Some f -> g !! k = Some v -> c ∈ f v -> c = emptyRoot \/ Available l db c.

Lemma values_outer refsOf l db tr g : wellFormed refsOf tr -> treeHolds tr g -> valuesThere refsOf l db g -> outerThere tr l db.
Proof.
  intros (Ht & Hg & _) (d & E & Hok) Hv s k Hs Hk. destruct (Hg s Hs) as (_ & _ & _ & Ho). rewrite Ho in Hk. unfold extOf in Hk.
  destruct refsOf as [f|]; [|by apply elem_of_nil in Hk]. apply list_elem_of_filter in Hk as [Hke Hk].
  apply list_elem_of_In, in_concat in Hk as (x & Hx & Hkx). apply in_map_iff in Hx as (v & <- & Hvl). apply list_elem_of_In in Hvl. apply list_elem_of_In in Hkx.
  destruct (tree_leaves s v (treeOk_subtree s tr Ht Hs) Hvl) as (key & fl & ->).
  destruct (tree_value E d tr _ key v fl Ht Hok Hs) as (j & Hj). unfold contentOf in Hj. apply bind_Some in Hj as (key' & _ & Hkey).
  by destruct (Hv f key' v k eq_refl Hkey Hkx).
Qed.

(** Room for the nodes of a trie. *)
Definition roomForTrie db t : Prop := forall tr, loads (H := envFor db t) (t_root t) tr -> roomToStore (storedIn tr) db.

Definition committedTo refsOf (h : Hash) g l l' db db' : Prop :=
  (g = ∅ /\ h = emptyRoot /\ db' = db /\ l' = l) \/
  exists tr, h = nodeHash tr /\ wellFormed refsOf tr /\ treeHolds tr g /\ grew (storedIn tr) l l' db db' /\ Available l' db' h.

Lemma Commit_gc refsOf l db t g :
  makeHashNode (blobOf rawNil) = emptyRoot -> gcW ∅ ∅ [] l db -> tracked db t g -> sizedMap g -> trieInGraph refsOf db t -> nodes db !! emptyRoot = None -> roomForTrie db t ->
  valuesThere refsOf l db g ->
  exists h t' db' l', Commit t (referenceLeaf <$> refsOf) db = Ok (h, t', db') /\ gcW ∅ ∅ [] l' db' /\ tracked db' t' g /\
    committedTo refsOf h g l l' db db'.
Proof.
  intros He Hw Ht Hg Hgr Hem HR Hv. destruct (tracked_tree _ _ _ Ht) as [[En ->]|(tr & Htr)].
  - exists emptyRoot, (mkTrie nilNode (wrap16 (t_cachegen t + 1)) (t_cachelimit t)), db, l. unfold Commit, hashRoot. rewrite En.
    split_and!; [done|done|by apply tracked_nil|by left].
  - pose proof (gc_dbOk _ _ _ Hw) as Hdb. pose proof (gc_noCollision refsOf _ _ _ _ Hw Hgr He) as Hnc.
    destruct (treeFor_wellFormed refsOf db t g tr Hg Htr Hgr) as [Hwf Hth].
    destruct (hashRoot_some db t g tr Hdb Hg Htr Hnc (referenceLeaf <$> refsOf)) as (n' & db' & Hh & _ & _ & Hf & Hgd & Hst).
    { destruct refsOf as [f|]; [apply referenceLeaf_law|done]. }
    destruct (nodeHash_not_empty db t g tr Hdb Hg Htr Hnc He) as [Hz _].
    destruct (steps_ok refsOf t tr (treeOk_isNode tr (proj1 Hwf)) (proj1 (proj2 Hwf)) (proj2 (proj2 Hwf)) l db db') as (l' & Hw' & Hgw);
      [done|done|apply HR; by eapply good_loads, flagged_good, (proj1 Htr)|by eapply values_outer|done|].
    exists (nodeHash tr), (mkTrie n' (wrap16 (t_cachegen t + 1)) (t_cachelimit t)), db', l'. unfold Commit. rewrite Hh.
    split_and!; [done|done| |right; exists tr; split_and!; try done].
    + apply (treeFor_tracked db t g tr); [done|]. eapply flagged_grow; [apply (envOf_gen db' (t_cachegen t))|exact Hf].
    + inversion Hgd as [| | | |? ? n ? Hr]; subst. exact (read_available _ _ _ _ _ _ Hw' Hz Hr).
Qed.

End gc.
