(* ===== verification/TrieHistory.v ===== *)
(** * TrieHistory: the node database over its life

    What the clients of [src/storage/trie/database.go] do with it, one call after the
    other: code blobs and tries are stored, roots are retained and released, tries
    are written to the disk, memory is capped.  A history keeps the books of the
    client (which roots it has retained how often, what it committed under which
    hash) next to the database, and the theorems say what the books tell about the
    database: a retained or written state opens with the map that was committed, and
    what is in memory only is exactly what the retained roots lead to. *)
From S2P Require Import Prelude Bytes TrieEncoding Rlp Trie TrieTheorems TrieNode RlpStream.
From S2P Require Import TrieDatabase TrieHasher TrieCache TrieStore TrieHasherTheorems TrieTrees TrieCommit.
From S2P Require Import TrieGC TrieGCInv TrieGCSteps TrieGCTheorems TrieGCInsert TrieGCCommit.
Local Open Scope Z_scope.
Local Open Scope zv_scope.

(** ** Values are in leaves of their own *)

Lemma okNode_nil (E : TrieEnv) d n m : okNode (H := E) d n m -> m [] = None.
Proof.
  destruct d as [|d]; [done|]. destruct n as [| |k c fl|cs fl|]; try done.
  - intros [[(p & _ & ->) (v & _ & [_ Ho])]|(_ & Hne & Hout & _)].
    + rewrite Ho, decide_False; [done|]. by destruct p.
    + apply Hout. intros Hp. apply prefix_nil_inv in Hp. done.
  - by intros [(_ & ? & _) _].
Qed.

(** When all keys are equally long the last slot of a branch is empty. *)
Lemma uniform_leaf (E : TrieEnv) d tr m len j v :
  treeOk tr -> okNode (H := E) d tr m -> (forall i, is_Some (m i) -> length i = len) -> m j = Some v ->
  exists k fl, subtree (shortNode k (valueNode v) fl) tr.
Proof.
  revert tr m len j. induction d as [|d IH]; intros tr m len j Ht Hok Hu Hj; [done|]. destruct tr as [| |k0 c fl0|cs fl0|]; try done.
  - destruct Hok as [[_ (w & -> & [_ Ho])]|(Hp & _ & Hout & cs & Hb & Hok)].
    + rewrite Ho in Hj. destruct (decide (j = k0)); [|done]. injection Hj as ->. exists k0, fl0. by apply subtree_here.
    + inversion Ht as [|? ts _ Htc|]; subst; [destruct Hb as [(? & ?)|(? & ? & ? & _)]; done|].
      destruct Hb as [(flb & [= <- <-])|(h & flb & ? & _)]; [|done]. destruct (decide (k0 `prefix_of` j)) as [[j' ->]|Hn]; [|by rewrite Hout in Hj].
      destruct (IH _ _ (len - length k0)%nat j' Htc Hok) as (k & fl & Hs); [|done|exists k, fl; by constructor].
      intros i Hi. specialize (Hu (k0 ++ i) Hi). rewrite length_app in Hu. lia.
  - inversion Ht as [| |ts last Hl16 Hts Hlast]; subst. destruct Hok as [(Hlen & Hnil & Hout & Hsl) Htwo].
    assert (forall y cy, index y -> y <> 16 -> (ts ++ [last]) !! Z.to_nat y = Some cy -> cy <> nilNode -> treeOk cy /\ okNode (H := E) d cy (below m [y])) as Hchild.
    { intros y cy Hy Hn16 Hcy Hne. specialize (Hsl y cy Hy Hcy). unfold slotOk in Hsl. rewrite decide_False in Hsl by done.
      unfold index in Hy. rewrite lookup_app_l in Hcy by lia. rewrite Forall_lookup in Hts. destruct (Hts _ _ Hcy) as [->|Htc]; [done|].
      split; [done|]. destruct Hsl as [[-> _]|[Hok|(h & n & -> & _)]]; [done|done|by inversion Htc]. }
    destruct j as [|x j]; [congruence|]. destruct (decide (index x)) as [Hx|Hx]; [|by rewrite Hout in Hj].
    destruct (lookup_lt_is_Some_2 (ts ++ [last]) (Z.to_nat x)) as [c Hc]; [rewrite Hlen; unfold index in Hx; lia|].
    destruct (decide (x = 16)) as [->|Hn16].
    + exfalso. specialize (Hsl 16 c Hx Hc). unfold slotOk in Hsl. rewrite decide_True in Hsl by done.
      assert (j = []) as ->.
      { destruct Hsl as [[_ Hn]|(w & _ & [_ Ho])]; [specialize (Hn j); unfold below in Hn; simpl in Hn; congruence|].
        specialize (Ho j). unfold below in Ho. simpl in Ho. rewrite Hj in Ho. by destruct (decide (j = [])). }
      pose proof (Hu [16] ltac:(by eexists)) as Hl1. simpl in Hl1. subst len.
      assert (exists y cy, index y /\ y <> 16 /\ (ts ++ [last]) !! Z.to_nat y = Some cy /\ cy <> nilNode) as (y & cy & Hy & Hy16 & Hcy & Hne).
      { destruct Htwo as (x1 & y1 & cx & cy & Hx1 & Hy1 & Hxy & Hcx & Hcy & Hnx & Hny). destruct (decide (x1 = 16)) as [->|]; eauto 10. }
      destruct (Hchild y cy Hy Hy16 Hcy Hne) as [_ Hok]. destruct (okNode_inhabited _ _ _ Hok) as (i & w & Hi).
      pose proof (Hu (y :: i) ltac:(by eexists)) as Hl. destruct i; [|done]. by rewrite (okNode_nil _ _ _ _ Hok) in Hi.
    + assert (c <> nilNode) as Hne.
      { intros ->. specialize (Hsl x nilNode Hx Hc). unfold slotOk in Hsl. rewrite decide_False in Hsl by done.
        destruct Hsl as [[_ Hn]|[Hok|(h & n & ? & _)]]; [specialize (Hn j); unfold below in Hn; simpl in Hn; congruence|by destruct d|done]. }
      destruct (Hchild x c Hx Hn16 Hc Hne) as [Htc Hok]. destruct (IH c _ (len - 1)%nat j Htc Hok) as (k & fl & Hs); [|done|].
      * intros i Hi. specialize (Hu (x :: i) Hi). simpl in Hu. lia.
      * exists k, fl. eapply subtree_full; [by eapply list_elem_of_lookup_2|done].
Qed.

Lemma len_encode_Str v : len v <= len (encode (Str v)).
Proof.
  simpl. unfold encodeString. destruct v as [|x [|y v]]; [unfold len; simpl; lia| |].
  - destruct (_ <=? _); [lia|]. rewrite len_app. unfold len. lia.
  - rewrite len_app. unfold len. lia.
Qed.

Section history.
Context `{NodeHash} `{G : NodeGraph}.
Implicit Types (db : NodeDatabase) (t : Trie) (g : gmap bytes bytes) (tr s : node) (l : list Hash) (r h : Hash) (X : gset Hash).

(** A leaf with a long value has a hash of its own. *)
Lemma leaf_long k v fl : objOk (Collapsed (collapse (shortNode k (valueNode v) fl))) -> 32 <= len v -> long (shortNode k (valueNode v) fl).
Proof.
  intros [_ Hs] Hv. unfold long. assert (blobOf (collapse (shortNode k (valueNode v) fl)) = encode (itemOf (collapse (shortNode k (valueNode v) fl)))) as ->
    by (by apply EncodeToBytes_encode). simpl collapse. cbn [itemOf]. rewrite encode_Lst, len_app, !encodeAll_cons, !len_app.
  pose proof (len_encode_Str v). unfold len in *. lia.
Qed.

(** The keys of the trie of accounts are addresses. *)
Definition sameLength g : Prop := exists n, forall k v, g !! k = Some v -> length k = n.

(** [sha3.Sum256(nil)], which is both [emptyData] and [emptyCode]. *)
Variable emptyCode : Hash.

(** What the callback of [AccountDB.Commit] refers to for a leaf, in its order. *)
Definition accountRefs (leaf : bytes) : list Hash :=
  match Stream.DecodeBytes accountType leaf with
  | Ok (Stream.VList [_; _; Stream.VBytes root; Stream.VBytes codeHash]) =>
      (if decide (BytesToHash root = emptyCode) then [] else [BytesToHash root]) ++
      (if decide (BytesToHash codeHash = emptyCode) then [] else [BytesToHash codeHash])
  | _ => []
  end.

Lemma accountRefs_long v c : c ∈ accountRefs v -> 32 <= len v.
Proof.
  unfold accountRefs. intros Hc. destruct (Stream.DecodeBytes accountType v) as [x| |] eqn:E; [by eapply account_long| |]; by apply elem_of_nil in Hc.
Qed.

(** What the values refer to is referred to by a stored node. *)
Lemma value_outer tr g k v c :
  wellFormed (Some accountRefs) tr -> treeHolds tr g -> sameLength g -> g !! k = Some v -> c ∈ accountRefs v -> c <> emptyRoot -> outerOf tr c.
Proof.
  intros (Ht & Hg & Ho) (d & E & Hok) [n Hn] Hk Hc Hce.
  destruct (uniform_leaf E d tr (contentOf g) (2 * n + 1)%nat (keybytesToHex k) v Ht Hok) as (key & fl & Hs).
  - intros i [w Hi]. unfold contentOf in Hi. apply bind_Some in Hi as (k' & Hk'%keyOf_Some & Hw). subst i.
    rewrite keybytesToHex_nibbles, length_app, length_nibbles. rewrite (Hn _ _ Hw). done.
  - by rewrite contentOf_keybytes.
  - exists (nodeHash (shortNode key (valueNode v) fl)). split.
    + eexists. split_and!; [done| |done]. right. apply leaf_long; [by apply Ho|]. by eapply accountRefs_long.
    + destruct (Hg _ Hs) as (_ & _ & _ & ->). simpl. rewrite app_nil_r. by apply list_elem_of_filter.
Qed.

(** ** Operations and books *)

Definition refsFor (acc : bool) : option (bytes -> list Hash) := if acc then Some accountRefs else None.

Inductive dbOp :=
| OpBlob (h : Hash) (b : bytes)
| OpCommit (acc : bool) (t : Trie) (g : gmap bytes bytes)
| OpRetain (r : Hash)
| OpRelease (r : Hash)
| OpFlush (r : Hash)
| OpCap (limit : Z).

(** The hash is the root of a commit. *)
Definition runDb (op : dbOp) db : outcome trieError (Hash * NodeDatabase) :=
  match op with
  | OpBlob h b => db' <-! InsertBlob h b db ;; Ok (h, db')
  | OpCommit acc t _ => r <-! Commit t (referenceLeaf <$> refsFor acc) db ;; Ok (r.1.1, r.2)
  | OpRetain r => db' <-! Reference r zeroB32 db ;; Ok (r, db')
  | OpRelease r => db' <-! Dereference r db ;; Ok (r, db')
  | OpFlush r => db' <-! CommitNode r db ;; Ok (r, db')
  | OpCap limit => db' <-! Cap limit db ;; Ok (zeroB32, db')
  end.

(** The client's books: how often a root is retained, what was stored and not yet
    referred to, and the maps committed under a hash. *)
Record books := mkBooks {
  bk_roots : Hash -> Z;
  bk_loose : gset Hash;
  bk_states : gmap Hash (bool * gmap bytes bytes);
}.

Definition has db h : Prop := is_Some (nodes db !! h) \/ onDisk db h.

Definition valueRefs (acc : bool) g : gset Hash := if acc then list_to_set (concat (map accountRefs (map_to_list g).*2)) else ∅.

(** The two 16-bit counters of a retained root do not wrap around. *)
Definition roomToRetain r db : Prop :=
  forall n, nodes db !! r = Some n -> rootCount db r + 1 < 2 ^ 16 /\ (onDisk db r \/ cn_parents n + 1 < 2 ^ 16).

(** What a client has to see to.  Nothing in the code keeps a counter of references
    from wrapping around: that the call finds room for its references, in the
    database as it is, is among the conditions. *)
Definition allowed (B : books) db (op : dbOp) : Prop :=
  match op with
  | OpBlob h b => h <> zeroB32 /\ h <> emptyRoot /\ contentAt h = b /\ kids h = []
  | OpCommit acc t g =>
      tracked db t g /\ sizedMap g /\ trieInGraph (refsFor acc) db t /\ roomForTrie db t /\
      (acc = true -> sameLength g /\ forall k v c, g !! k = Some v -> c ∈ accountRefs v -> c <> zeroB32 /\ (c = emptyRoot \/ has db c))
  | OpRetain r => r <> zeroB32 /\ (r = emptyRoot \/ has db r) /\ roomToRetain r db
  | OpRelease r => r <> zeroB32 /\ 0 < bk_roots B r
  | OpFlush r => r <> zeroB32
  | OpCap _ => True
  end.

Definition addRoot r (k : Z) (roots : Hash -> Z) : Hash -> Z := fun c => roots c + (if decide (c = r) then k else 0).

Definition entered (op : dbOp) h (B : books) : books :=
  match op with
  | OpBlob _ _ => mkBooks (bk_roots B) ({[h]} ∪ bk_loose B) (bk_states B)
  | OpCommit acc _ g => mkBooks (bk_roots B) ({[h]} ∪ (bk_loose B ∖ valueRefs acc g)) (<[h := (acc, g)]> (bk_states B))
  | OpRetain r => mkBooks (addRoot r 1 (bk_roots B)) (bk_loose B ∖ {[r]}) (bk_states B)
  | OpRelease r => mkBooks (addRoot r (-1) (bk_roots B)) (bk_loose B) (bk_states B)
  | OpFlush _ | OpCap _ => B
  end.

Inductive history : books -> NodeDatabase -> Prop :=
| history_new prune : history (mkBooks (fun _ => 0) ∅ ∅) (NewDatabase ∅ prune)
| history_op B db op h db' :
    history B db -> allowed B db op -> runDb op db = Ok (h, db') -> history (entered op h B) db'.

(** ** The invariant *)

(** The hash is the root of a tree that holds the map. *)
Definition stands (acc : bool) r g : Prop :=
  (r = emptyRoot /\ g = ∅) \/
  exists tr, r = nodeHash tr /\ wellFormed (refsFor acc) tr /\ treeHolds tr g /\ (acc = true -> sameLength g).

Record dbInv (B : books) l db : Prop := {
  di_gc : gcW ∅ ∅ [] l db;
  di_loose : positive (bk_loose B) l db;
  di_empty : nodes db !! emptyRoot = None;
  di_book r : r = emptyRoot \/ onDisk db r \/ rootCount db r = bk_roots B r;
  di_bound r : rootCount db r <= bk_roots B r;
  di_states r acc g : bk_states B !! r = Some (acc, g) -> stands acc r g;
}.

Lemma has_available B l db h : dbInv B l db -> h <> zeroB32 -> has db h <-> Available l db h.
Proof.
  intros [Hw _ _ _ _ _] Hz. pose proof (sh_dom _ _ _ (gw_shape _ _ _ _ _ Hw) h) as Hd. unfold has, Available. rewrite Hd. set_solver.
Qed.

(** True of Keccak: [emptyRoot_keccak]. *)
Hypothesis Hempty : makeHashNode (blobOf rawNil) = emptyRoot.

Definition stepOk (op : dbOp) B db : Prop := exists h l' db', runDb op db = Ok (h, db') /\ dbInv (entered op h B) l' db'.

Lemma not_in_list l db h : gcW ∅ ∅ [] l db -> h <> zeroB32 -> nodes db !! h = None <-> h ∉ l.
Proof.
  intros Hw Hz. pose proof (sh_dom _ _ _ (gw_shape _ _ _ _ _ Hw) h) as Hd. rewrite eq_None_not_Some, Hd. set_solver.
Qed.

(** An operation that only takes nodes away. *)
Lemma shrunk_inv B l l' db db' :
  dbInv B l db -> gcW ∅ ∅ [] l' db' -> l' `sublist_of` l -> (forall X, positive X l db -> positive X l' db') ->
  (forall k, onDisk db k -> onDisk db' k) -> (forall c, rootCount db' c = rootCount db c) -> dbInv B l' db'.
Proof.
  intros [Hw Hp He Hb Hbd Hst] Hw' Hl Hpos Hdk Hrc. constructor; [done|auto| | |intros r; by rewrite Hrc|done].
  - apply (not_in_list l' db' emptyRoot Hw' emptyRoot_nonzero). intros Hin. apply (not_in_list l db emptyRoot Hw emptyRoot_nonzero) in He.
    apply He. by eapply elem_of_sublist.
  - intros r. rewrite Hrc. destruct (Hb r) as [|[|]]; auto.
Qed.

Lemma flush_ok B l db r : dbInv B l db -> r <> zeroB32 -> stepOk (OpFlush r) B db.
Proof.
  intros Hi Hz. unfold stepOk. cbn [runDb entered]. destruct (nodes db !! r) as [n|] eqn:Hn.
  - destruct (CommitNode_ok l db r (di_gc _ _ _ Hi) Hz) as (l' & db' & -> & Hw' & Hl & Hp & Hrc & Hdk & _).
    { apply (has_available B l db r Hi Hz). left. by eexists. }
    exists r, l', db'. split; [done|]. by eapply shrunk_inv.
  - assert (CommitNode r db = Ok db) as ->; [|by exists r, l, db].
    unfold CommitNode. cbn [commit fst]. rewrite Hn. cbn [obind fst snd uncache]. change (writeBatch NewBatch db) with (setDisk (diskdb db) db).
    change (nodes (setDisk (diskdb db) db)) with (nodes db). rewrite Hn. by destruct db.
Qed.

Lemma cap_ok B l db limit : dbInv B l db -> stepOk (OpCap limit) B db.
Proof.
  intros Hi. unfold stepOk. cbn [runDb entered]. destruct (Cap_ok limit l db (di_gc _ _ _ Hi)) as (l' & db' & -> & Hw' & Hl & Hp & Hrc & Hdk).
  exists zeroB32, l', db'. split; [done|]. by eapply shrunk_inv.
Qed.

Lemma release_ok B l db r : dbInv B l db -> r <> zeroB32 -> 0 < bk_roots B r -> stepOk (OpRelease r) B db.
Proof.
  intros Hi Hz Hr. pose proof Hi as [Hw Hp He Hb Hbd Hst]. unfold stepOk. cbn [runDb entered].
  pose proof (meta_nonneg _ _ _ r (gw_closed _ _ _ _ _ Hw)) as Hm0. fold (rootCount db r) in Hm0.
  destruct (Dereference_ok l db r Hw Hz) as (l' & db' & -> & Hw' & Hd & Hrc & Hl & Hpos).
  { destruct (Hb r) as [->|[|E]]; [right; right|by right; left|left; by rewrite E]. unfold cached. rewrite He. by intros []. }
  exists r, l', db'. split; [done|]. constructor; [done|by apply Hpos| | | |done].
  - apply (not_in_list l' db' emptyRoot Hw' emptyRoot_nonzero). intros Hin. apply (not_in_list l db emptyRoot Hw emptyRoot_nonzero) in He.
    apply He. by eapply elem_of_sublist.
  - intros c. destruct (Hb c) as [|[Hdc|E]]; [by left|right; left; unfold onDisk; by rewrite Hd|right; right]. rewrite Hrc. unfold addRoot. simpl.
    destruct (decide (c = r)) as [->|Hne]; [rewrite decide_True by (split; [done|lia])|rewrite decide_False by tauto]; lia.
  - intros c. simpl. unfold addRoot. rewrite Hrc. specialize (Hbd c). destruct (decide (c = r)) as [->|Hne]; [|rewrite decide_False by tauto; lia].
    destruct (decide (r = r /\ 0 < rootCount db r)) as [|Hn]; [lia|]. assert (~ 0 < rootCount db r) by tauto. lia.
Qed.

(** A counter and the references from outside. *)
Lemma rooted_positive l db c n :
  gcW ∅ ∅ [] l db -> c ∈ l -> nodes db !! c = Some n -> diskdb db !! c = None -> 0 < rootCount db c -> 0 < cn_parents n.
Proof.
  intros [Hs Hc Hct] Hl Hn Hd Hr. rewrite (ct_exact _ _ _ _ Hct c n Hl Hn Hd). unfold refs. unfold rootCount in Hr. change (occ c []) with 0.
  assert (0 <= map_sum (edgesOf ∅ c) (nodes db)) by (apply map_sum_nonneg; intros; apply edgesOf_nonneg). lia.
Qed.

Lemma retain_absent B l db r :
  dbInv B l db -> r <> zeroB32 -> r = emptyRoot \/ has db r -> nodes db !! r = None -> stepOk (OpRetain r) B db.
Proof.
  intros [Hw Hp He Hb Hbd Hst] Hz Hr Hn0. unfold stepOk. cbn [runDb entered]. rewrite Reference_absent by done. exists r, l, db. split; [done|].
  pose proof (proj1 (not_in_list l db r Hw Hz) Hn0) as Hrl. constructor; [done| |done| | |done].
  - intros c n Hc HX. apply Hp; [done|]. simpl in HX. intros HcX. apply HX. apply elem_of_difference. split; [done|]. intros ->%elem_of_singleton. done.
  - intros c. simpl. unfold addRoot. destruct (decide (c = r)) as [->|Hne]; [|rewrite Z.add_0_r; apply Hb].
    destruct Hr as [->|[[? ?]|]]; [by left|congruence|by right; left].
  - intros c. simpl. unfold addRoot. specialize (Hbd c). destruct (decide (c = r)) as [->|]; lia.
Qed.

Lemma retain_ok B l db r :
  dbInv B l db -> r <> zeroB32 -> r = emptyRoot \/ has db r -> roomToRetain r db -> stepOk (OpRetain r) B db.
Proof.
  intros Hi Hz Hr HR. destruct (nodes db !! r) as [n0|] eqn:Hn0; [|by eapply retain_absent].
  pose proof Hi as [Hw Hp He Hb Hbd Hst]. unfold stepOk. cbn [runDb entered].
  assert (r ∈ l) as Hrl by (destruct (decide (r ∈ l)) as [|Hn]; [done|apply (not_in_list l db r Hw Hz) in Hn; congruence]).
  destruct (Reference_root l db r Hw Hz ltac:(by left)) as (db' & -> & Hw' & Href & Hrc); [| |exists r, l, db'; split; [done|]].
  - intros c n Hn Hd Hcz. rewrite occ_one. destruct (decide (c = r)) as [->|].
    + destruct (HR n Hn) as [_ [[? ?]|]]; [congruence|done].
    + assert (c ∈ l) as Hcl by (destruct (decide (c ∈ l)) as [|Hx]; [done|apply (not_in_list l db c Hw Hcz) in Hx; congruence]).
      pose proof (ct_range _ _ _ _ (gw_counts _ _ _ _ _ Hw) c n Hcl Hn). lia.
  - by apply (HR n0).
  - constructor; [done| | | | |done].
    + intros c n Hc HX Hn Hd. destruct (decide (c = r)) as [->|Hne].
      { eapply rooted_positive; [done|done|done|done|]. rewrite Hrc, decide_True by done.
        pose proof (meta_nonneg _ _ _ r (gw_closed _ _ _ _ _ Hw)) as Hm0. fold (rootCount db r) in Hm0. lia. }
      destruct (rf_node _ _ _ Href c n Hn) as (n1 & Hn1 & Hle). rewrite (rf_disk _ _ _ Href) in Hd.
      assert (c <> zeroB32) as Hcz by (intros ->; by apply (proj1 (sh_zero _ _ _ (gw_shape _ _ _ _ _ Hw)))).
      pose proof (nondisk_nonneg _ _ _ _ _ Hw Hn1 Hcz). rewrite occ_one, decide_False in Hle by done. specialize (Hle Hd ltac:(lia) ltac:(lia)).
      assert (0 < cn_parents n1); [|lia]. apply (Hp c n1 Hc); [|done|done]. simpl in HX. set_solver.
    + apply (not_in_list l db' emptyRoot Hw' emptyRoot_nonzero). by apply (not_in_list l db emptyRoot Hw emptyRoot_nonzero).
    + intros c. simpl. unfold addRoot. destruct (Hb c) as [|[Hdc|E]]; [by left|right; left; unfold onDisk; by rewrite (rf_disk _ _ _ Href)|right; right].
      rewrite Hrc. destruct (decide (c = r)) as [->|]; [rewrite decide_True by done|rewrite decide_False by tauto]; lia.
    + intros c. simpl. unfold addRoot. rewrite Hrc. specialize (Hbd c).
      destruct (decide (c = r)) as [->|]; [rewrite decide_True by done|rewrite decide_False by tauto]; lia.
Qed.

(** A code blob. *)
Lemma blob_ok B l db h b :
  dbInv B l db -> h <> zeroB32 -> h <> emptyRoot -> contentAt h = b -> kids h = [] -> stepOk (OpBlob h b) B db.
Proof.
  intros Hi Hz Hne Hc Hk. pose proof Hi as [Hw Hp He Hb Hbd Hst]. apply app_nil in Hk as [Hin Hout]. unfold stepOk. cbn [runDb entered].
  destruct (storeNode_ok h b (Blob b) [] l db Hw) as (l' & db' & E & Hw' & [Hh Ho Hbk Hd Hr Hcc]).
  - constructor; try done.
    + intros k. by rewrite Hout.
    + intros k Hk. unfold kids in Hk. rewrite Hin, Hout in Hk. by apply elem_of_nil in Hk.
    + intros c n Hn _ Hcz. pose proof (nondisk_nonneg _ _ _ _ _ Hw Hn Hcz). change (occ c (objChildren (Blob b) ++ [])) with 0. lia.
  - unfold storeNode in E. unfold InsertBlob. destruct (db_insert h b (Blob b) db) as [db1| |]; try done. cbn [obind foldHashes] in E. injection E as ->.
    exists h, l', db'. split; [done|]. constructor; [done| | | |intros r; by rewrite Hr|done].
    + intros c n Hcl HX Hn Hdc. simpl in HX. destruct (Hbk c Hcl) as [->|Hcl0]; [set_solver|]. rewrite Hd in Hdc.
      destruct (Hcc c n Hcl0 Hn Hdc) as (n0 & Hn0 & ?). assert (0 < cn_parents n0); [|lia]. apply (Hp c n0 Hcl0); [set_solver|done|done].
    + apply (not_in_list l' db' emptyRoot Hw' emptyRoot_nonzero). intros Hin'. destruct (Hbk _ Hin') as [E|Hl]; [by subst h|].
      by apply (not_in_list l db emptyRoot Hw emptyRoot_nonzero) in He.
    + intros r. rewrite Hr. destruct (Hb r) as [|[|]]; [by left|right; left; unfold onDisk; by rewrite Hd|by right; right].
Qed.

Lemma valueRefs_elem acc g c : c ∈ valueRefs acc g <-> acc = true /\ exists k v, g !! k = Some v /\ c ∈ accountRefs v.
Proof.
  unfold valueRefs. destruct acc; [|set_solver]. rewrite elem_of_list_to_set, list_elem_of_In, in_concat. split.
  - intros (x & Hx & Hc). split; [done|]. apply in_map_iff in Hx as (v & <- & Hv). apply list_elem_of_In, list_elem_of_fmap in Hv as ([k w] & -> & Hkv).
    apply elem_of_map_to_list in Hkv. exists k, w. split; [done|]. by apply list_elem_of_In.
  - intros (_ & k & v & Hk & Hc). exists (accountRefs v). split; [|by apply list_elem_of_In]. apply in_map_iff. exists v. split; [done|].
    apply list_elem_of_In, list_elem_of_fmap. exists (k, v). split; [done|]. by apply elem_of_map_to_list.
Qed.

Lemma commit_step_ok B l db acc t g :
  dbInv B l db -> allowed B db (OpCommit acc t g) -> stepOk (OpCommit acc t g) B db.
Proof.
  intros Hi (Ht & Hg & Hgr & Hroom & Hacc). pose proof Hi as [Hw Hp He Hb Hbd Hst]. unfold stepOk. cbn [runDb entered].
  destruct (Commit_gc (refsFor acc) l db t g Hempty Hw Ht Hg Hgr He Hroom) as (h & t' & db' & l' & -> & Hw' & _ & Hc).
  { intros f k v c Ef Hk Hc. unfold refsFor in Ef. destruct acc; [|done]. injection Ef as <-. destruct (Hacc eq_refl) as [_ Hv].
    destruct (Hv k v c Hk Hc) as [Hz [->|Hh]]; [by left|right]. by apply (has_available B l db c Hi Hz). }
  cbn [obind fst snd]. exists h, l', db'. split; [done|]. destruct Hc as [(-> & -> & -> & ->)|(tr & -> & Hwf & Hth & Hgw & Ha)].
  - constructor; [done| |done|done|done|].
    + intros c n Hc HX. apply Hp; [done|]. simpl in HX. intros HcX. apply HX, elem_of_union. right. apply elem_of_difference. split; [done|].
      rewrite valueRefs_elem. intros (_ & k & v & Hk & _). by rewrite lookup_empty in Hk.
    + intros r acc' g' Hr. cbn [bk_states] in Hr. apply lookup_insert_Some in Hr as [[<- [= <- <-]]|[_ Hr]]; [by left|by eapply Hst].
  - pose proof (grew_empty (refsFor acc) tr l l' db db' (proj1 (proj2 Hwf)) Hw Hw' Hgw He) as He'.
    constructor; [done| |done| |intros r; by rewrite (gw_roots _ _ _ _ _ Hgw)|].
    + intros c n Hc HX. revert Hc HX. assert (c ∈ l' -> c <> emptyRoot) as Hce.
      { intros Hc ->. by apply (not_in_list l' db' emptyRoot Hw' emptyRoot_nonzero) in He'. }
      intros Hc HX. refine (grew_positive (refsFor acc) tr _ ({[emptyRoot]} ∪ ({[nodeHash tr]} ∪ bk_loose B ∖ valueRefs acc g)) l l' db db' Hwf Hw' Hgw Ha Hp _ _ c n Hc _).
      * apply elem_of_union. right. apply elem_of_union_l, elem_of_singleton. done.
      * intros x Hx. destruct (decide (x ∈ valueRefs acc g)) as [Hv|Hv]; [|left; set_solver].
        destruct (decide (x = emptyRoot)) as [->|Hxe]; [left; set_solver|right]. apply valueRefs_elem in Hv as (-> & k & v & Hk & Hxv).
        eapply (value_outer); [done|done|by apply Hacc|done|done|done].
      * apply not_elem_of_union. split; [rewrite elem_of_singleton; auto|exact HX].
    + intros r. rewrite (gw_roots _ _ _ _ _ Hgw). destruct (Hb r) as [|[|]]; [by left|right; left; unfold onDisk; by rewrite (gw_disk _ _ _ _ _ Hgw)|by right; right].
    + intros r acc' g' Hr. cbn [bk_states] in Hr. apply lookup_insert_Some in Hr as [[<- [= <- <-]]|[_ Hr]]; [|by eapply Hst]. right. exists tr. split_and!; [done|done|done|].
      intros ->. by apply Hacc.
Qed.

Lemma allowed_ok B l db op : dbInv B l db -> allowed B db op -> stepOk op B db.
Proof.
  intros Hi Ha. destruct op as [h b|acc t g|r|r|r|limit]; simpl in Ha.
  - destruct Ha as (? & ? & ? & ?). by eapply blob_ok.
  - by eapply commit_step_ok.
  - destruct Ha as (? & ? & ?). by eapply retain_ok.
  - destruct Ha. by eapply release_ok.
  - by eapply flush_ok.
  - by eapply cap_ok.
Qed.

(** A database with nothing but its disk. *)
Lemma fresh_gc d prune :
  (forall h b, d !! h = Some b -> b = contentAt h /\ forall k, k ∈ kids h -> is_Some (d !! k)) -> gcW ∅ ∅ [] [] (NewDatabase d prune).
Proof.
  intros Hd. split.
  - constructor; simpl; try done; [|set_solver|constructor]. intros h. rewrite lookup_singleton_is_Some. set_solver.
  - constructor; simpl; try (intros; by match goal with Hx : _ ∈ [] |- _ => apply elem_of_nil in Hx end).
    + eexists. by rewrite lookup_singleton_eq.
    + intros l1 h l2 n c El. by destruct l1.
    + exact Hd.
    + intros m cs c k Hm Hcs. rewrite lookup_singleton_eq in Hm. injection Hm as <-. done.
  - constructor; intros c n Hc; by apply elem_of_nil in Hc.
Qed.

Lemma history_inv B db : history B db -> exists l, dbInv B l db.
Proof.
  intros Hh. induction Hh as [prune|B db op h db' _ [l Hi] Ha Hr].
  - exists []. constructor.
    + apply fresh_gc. intros h b Hb. by rewrite lookup_empty in Hb.
    + intros c n Hc. by apply elem_of_nil in Hc.
    + simpl. apply lookup_singleton_ne. apply not_eq_sym, emptyRoot_nonzero.
    + intros r. right. right. unfold rootCount, metaCount. simpl. by rewrite lookup_singleton_eq.
    + intros r. unfold rootCount, metaCount. simpl. rewrite lookup_singleton_eq. simpl. lia.
    + intros r acc g Hr. cbn [bk_states] in Hr. by rewrite lookup_empty in Hr.
  - destruct (allowed_ok B l db op Hi Ha) as (h0 & l' & db0 & E & Hi'). rewrite E in Hr. injection Hr as -> ->. by exists l'.
Qed.

(** ** What the books tell *)

Lemma stands_opens acc l db r g : gcW ∅ ∅ [] l db -> stands acc r g -> r = emptyRoot \/ Available l db r -> opens db r g.
Proof.
  intros Hw [[-> ->]|(tr & -> & Hwf & Hth & _)] Ha.
  - exists (mkTrie nilNode 0 0). split; [apply NewTrie_nil|by apply tracked_nil].
  - destruct Ha as [E|Ha]; [|by eapply tree_opens]. destruct Hwf as (Ht & Hg & _).
    by destruct (Hg tr (subtree_here tr (treeOk_isNode tr Ht))) as ((_ & []) & _).
Qed.

Lemma stands_refs l db r g k v c :
  gcW ∅ ∅ [] l db -> stands true r g -> r = emptyRoot \/ Available l db r -> g !! k = Some v -> c ∈ accountRefs v -> c = emptyRoot \/ Available l db c.
Proof.
  intros Hw [[-> ->]|(tr & -> & Hwf & Hth & Ham)] Ha Hk Hc; [by rewrite lookup_empty in Hk|].
  destruct (decide (c = emptyRoot)) as [|Hce]; [by left|right]. destruct Ha as [E|Ha].
  { destruct Hwf as (Ht & Hg & _). by destruct (Hg tr (subtree_here tr (treeOk_isNode tr Ht))) as ((_ & []) & _). }
  destruct (value_outer tr g k v c Hwf Hth (Ham eq_refl) Hk Hc Hce) as (h & Hh & Hch).
  eapply (available_reach l db (nodeHash tr)); [done|done|]. eapply rtc_r; [by eapply stored_reach|]. unfold refersTo, kids. set_solver.
Qed.

Lemma retained_available B l db r : dbInv B l db -> 0 < bk_roots B r -> r = emptyRoot \/ Available l db r.
Proof.
  intros Hi Hr. destruct (di_book _ _ _ Hi r) as [|[|E]]; [by left|right; by right|right]. eapply rootCount_available; [apply Hi|]. by rewrite E.
Qed.

Lemma disk_reach l db r h : gcW ∅ ∅ [] l db -> onDisk db r -> rtc refersTo r h -> onDisk db h.
Proof.
  intros Hw Hd Hr. induction Hr as [|r k h Hk _ IH]; [done|]. apply IH. destruct Hd as [b Hb]. by apply (cl_disk _ _ _ (gw_closed _ _ _ _ _ Hw) r b Hb).
Qed.

(** C15: after any history of allowed calls on the node database, every
    call a client may make succeeds: storing code, committing a trie, retaining,
    releasing and writing a root, and capping the memory neither fail nor
    dereference a node that is gone, and the fuel of the model is enough.  Allowed
    is what [allowed] says: the content of a hash is one, what the values refer to is
    there, only what is retained is released, and no 16-bit counter of references in
    the database at hand is made to wrap around. *)
Theorem database_op_total B db op :
  history B db -> allowed B db op -> exists res, runDb op db = Ok res.
Proof.
  intros Hh Ha. destruct (history_inv B db Hh) as [l Hi]. destruct (allowed_ok B l db op Hi Ha) as (h & l' & db' & E & _). by exists (h, db').
Qed.

(** C12: whatever else was committed, released, written or flushed by calls that
    are [allowed] (in particular, that make no 16-bit counter of references wrap
    around), the trie committed under a root that is retained, or that is on the disk, opens and
    holds the map that was committed; and so do the tries its accounts refer to, and
    every node they lead to is read as it was stored. *)
Theorem retained_state_opens B db r acc g :
  history B db -> bk_states B !! r = Some (acc, g) -> 0 < bk_roots B r \/ onDisk db r ->
  opens db r g /\
  (acc = true -> forall k v c, g !! k = Some v -> c ∈ accountRefs v -> c <> zeroB32 -> c <> emptyRoot ->
     readable db c /\ forall acc' g', bk_states B !! c = Some (acc', g') -> opens db c g').
Proof.
  intros Hh Hr Hk. destruct (history_inv B db Hh) as [l Hi]. pose proof (di_gc _ _ _ Hi) as Hw. pose proof (di_states _ _ _ Hi r acc g Hr) as Hs.
  assert (r = emptyRoot \/ Available l db r) as Ha by (destruct Hk as [Hk|Hk]; [by eapply retained_available|right; by right]).
  split; [by eapply stands_opens|]. intros -> k v c Hg Hc Hz Hce. destruct (stands_refs l db r g k v c Hw Hs Ha Hg Hc) as [|Hac]; [done|].
  split; [by eapply available_readable|]. intros acc' g' Hc'. eapply stands_opens; [done|by eapply (di_states _ _ _ Hi)|by right].
Qed.

(** C13: after a history of [allowed] calls, when everything that was stored has
    been referred to, a node that is not on the disk is in memory exactly when a retained root leads to it: nothing
    a retained state needs is dropped, and no garbage is left behind, whatever the
    order in which roots were released. *)
Theorem memory_is_reachable B db h :
  history B db -> bk_loose B = ∅ -> h <> zeroB32 -> ~ onDisk db h ->
  (is_Some (nodes db !! h) <-> exists r, r <> emptyRoot /\ 0 < bk_roots B r /\ rtc refersTo r h).
Proof.
  intros Hh Hl Hz Hd. destruct (history_inv B db Hh) as [l Hi]. pose proof Hi as [Hw Hp He Hb Hbd Hst]. rewrite Hl in Hp.
  assert (diskdb db !! h = None) as Hdn by (by apply eq_None_not_Some). split.
  - intros Hn. assert (h ∈ l) as Hin by (destruct (proj1 (sh_dom _ _ _ (gw_shape _ _ _ _ _ Hw) h) Hn) as [|[|]]; [done|done|set_solver]).
    destruct (rooted ∅ l db h Hw Hp Hin Hdn) as (r & [Hr|Hr] & Hrh); [|set_solver]. exists r.
    destruct (rootCount_available _ _ _ _ Hw Hr) as [Ha|Ha]; [|by destruct Hd; eapply disk_reach].
    split_and!; [|specialize (Hbd r); lia|done]. intros ->. by apply (not_in_list l db emptyRoot Hw emptyRoot_nonzero) in He.
  - intros (r & Hre & Hr & Hrh). destruct (retained_available B l db r Hi Hr) as [|Ha]; [done|].
    destruct (available_reach l db r h Hw Ha Hrh) as [Hin|]; [|done]. apply (sh_dom _ _ _ (gw_shape _ _ _ _ _ Hw)). tauto.
Qed.

(** C14: after a history of [allowed] calls, writing a root that is in memory or on
    the disk succeeds, and a database started anew with
    nothing but the disk opens the trie committed under it with the map that was
    committed. *)
Theorem written_state_survives B db r acc g prune :
  history B db -> bk_states B !! r = Some (acc, g) -> r <> zeroB32 -> has db r ->
  exists db', CommitNode r db = Ok db' /\ opens (NewDatabase (diskdb db') prune) r g.
Proof.
  intros Hh Hr Hz Ha. destruct (history_inv B db Hh) as [l Hi]. pose proof (di_gc _ _ _ Hi) as Hw. apply (has_available B l db r Hi Hz) in Ha.
  destruct (CommitNode_ok l db r Hw Hz Ha) as (l' & db' & E & Hw' & _ & _ & _ & _ & Hd). exists db'. split; [done|].
  eapply (stands_opens acc []); [|by eapply (di_states _ _ _ Hi)|right; by right]. apply fresh_gc. intros h b Hb. exact (cl_disk _ _ _ (gw_closed _ _ _ _ _ Hw') h b Hb).
Qed.

End history.

(** ** A counter that wraps around *)

Fixpoint retains (k : nat) (r : Hash) (db : NodeDatabase) : outcome trieError NodeDatabase :=
  match k with O => Ok db | S k' => db' <-! Reference r zeroB32 db ;; retains k' r db' end.

(** A database of one blob that was retained [p] times. *)
Record retainedBlob (h : Hash) (b : bytes) (p : Z) (db : NodeDatabase) : Prop := {
  rb_disk : diskdb db = ∅;
  rb_ends : oldest db = h;
  rb_node : nodes db !! h = Some (mkCached (Blob b) (wrap16 (len b)) (wrap16 p) None zeroB32 zeroB32);
  rb_root : exists m, nodes db !! zeroB32 = Some m;
}.

Lemma retains_blob h b k : forall p db, h <> zeroB32 -> retainedBlob h b p db ->
  exists db', retains k h db = Ok db' /\ retainedBlob h b (p + Z.of_nat k) db'.
Proof.
  induction k as [|k IH]; intros p db Hz Hb; [exists db; by rewrite Z.add_0_r|]. destruct Hb as [Hd Ho Hn [m Hm]]. cbn [retains]. unfold Reference.
  rewrite Hn, Hm, (bool_decide_eq_true_2 (zeroB32 = zeroB32)) by done. rewrite andb_false_r. cbn [obind].
  destruct (IH (p + 1) (mkDatabase (diskdb db)
    (alter (setChildren (Some (<[h := wrap16 (default 0 (default ∅ (cn_children m) !! h) + 1)]> (default ∅ (cn_children m))))) zeroB32
       (alter (fun n => setParents (wrap16 (cn_parents n + 1)) n) h (nodes db))) (oldest db) (newest db)
    (childrenSize db + (match cn_children m with None => cachedNodeChildrenSize | Some _ => 0 end) +
       (if wrap16 (default 0 (default ∅ (cn_children m) !! h) + 1) =? 1 then 32 + 2 else 0)) (nodesSize db) (enablePrune db) (commitFullNodes db)) Hz)
    as (db' & E & Hb').
  - constructor; [done|done| |].
    + cbn [nodes]. rewrite lookup_alter_ne, lookup_alter_eq, Hn by congruence. cbn. do 2 f_equal. unfold wrap16. by rewrite Zplus_mod_idemp_l.
    + cbn [nodes]. rewrite lookup_alter_eq, lookup_alter_ne, Hm by congruence. by eexists.
  - exists db'. split; [|by replace (p + Z.of_nat (S k)) with (p + 1 + Z.of_nat k) by lia]. rewrite <- E. by destruct (cn_children m).
Qed.

Lemma released_blob h b db : h <> zeroB32 -> retainedBlob h b 0 db -> exists db', Dereference h db = Ok db' /\ nodes db' !! h = None /\ diskdb db' = ∅.
Proof.
  intros Hz [Hd Ho Hn [m Hm]]. unfold Dereference. rewrite dereference_S, Hm. set (db1 := dropChild h zeroB32 m db).
  assert (nodes db1 !! h = nodes db !! h /\ is_Some (nodes db1 !! zeroB32) /\ oldest db1 = oldest db /\ diskdb db1 = diskdb db) as (En & [m1 Hm1] & Eo & Ed).
  { unfold db1, dropChild. destruct (cn_children m) as [cs|]; [|by rewrite Hm]. destruct (cs !! h) as [k|]; [|by rewrite Hm].
    destruct (0 <? k); [|by rewrite Hm]. destruct (k - 1 =? 0); cbn; rewrite lookup_insert_ne, lookup_insert_eq by congruence; by split_and!. }
  clearbody db1. unfold dropRef. rewrite En, Hn. change (countDown (mkCached (Blob b) (wrap16 (len b)) (wrap16 0) None zeroB32 zeroB32)) with (mkCached (Blob b) (wrap16 (len b)) 0 None zeroB32 zeroB32). cbn zeta. cbn [cn_parents Z.eqb].
  unfold unlink. cbn [oldest setNodes]. rewrite Eo, Ho, bool_decide_eq_true_2 by done. unfold assign. cbn [nodes setEnds setNodes cn_flushNext].
  rewrite lookup_insert_ne, Hm1 by congruence. cbn. eexists. split; [done|]. cbn. rewrite lookup_delete_eq. split; [done|]. by rewrite Ed.
Qed.

(** C40: the counter of the references to a node has 16 bits and wraps around: a
    node that was stored in a new database and retained 65536 times, and is then
    released once, is dropped, although it is still retained 65535 times and is not on
    the disk. *)
Theorem counter_wrap_drops_root h b prune :
  h <> zeroB32 ->
  exists db1 db2 db3, InsertBlob h b (NewDatabase ∅ prune) = Ok db1 /\ retains (Z.to_nat (2 ^ 16)) h db1 = Ok db2 /\ is_Some (nodes db2 !! h) /\
    Dereference h db2 = Ok db3 /\ nodes db3 !! h = None /\ diskdb db3 !! h = None.
Proof.
  intros Hz. assert (exists db1, InsertBlob h b (NewDatabase ∅ prune) = Ok db1 /\ retainedBlob h b 0 db1) as (db1 & E1 & Hb1).
  { unfold InsertBlob, db_insert. cbn [nodes NewDatabase]. rewrite lookup_singleton_ne by congruence. cbn.
    eexists. split; [done|]. constructor; [done|done|cbn; by rewrite lookup_insert_eq|cbn; rewrite lookup_insert_ne by congruence; by eexists]. }
  destruct (retains_blob h b (Z.to_nat (2 ^ 16)) 0 db1 Hz Hb1) as (db2 & E2 & Hb2). rewrite Z2Nat.id in Hb2 by lia.
  assert (retainedBlob h b 0 db2) as Hb0 by (destruct Hb2; constructor; done).
  destruct (released_blob h b db2 Hz Hb0) as (db3 & E3 & Hn3 & Hd3). exists db1, db2, db3. split_and!; [done|done| |done|done|by rewrite Hd3].
  rewrite (rb_node _ _ _ _ Hb2). by eexists.
Qed.

(** ** An account with code *)

(** One node that refers to another one. *)
Program Definition pairGraph (hl hc : Hash) (bl bc : bytes) (Hne : hc <> hl) (Hz : zeroB32 <> hc) : NodeGraph := {|
  inner h := [];
  outer h := if decide (h = hl) then [hc] else [];
  contentAt h := if decide (h = hl) then bl else bc;
  rank h := if decide (h = hl) then 1%nat else 0%nat;
|}.
Next Obligation.
  intros hl hc _ _ Hne _ h k Hk. simpl in *. destruct (decide (h = hl)) as [->|]; [|by apply elem_of_nil in Hk].
  apply list_elem_of_singleton in Hk as ->. rewrite decide_False by done. lia.
Qed.
Next Obligation.
  intros hl hc _ _ _ Hz h Hk. simpl in *. destruct (decide (h = hl)); [by apply list_elem_of_singleton in Hk|by apply elem_of_nil in Hk].
Qed.

Lemma pairGraph_second hl hc bl bc Hne Hz :
  contentAt (NodeGraph := pairGraph hl hc bl bc Hne Hz) hc = bc /\ kids (H := pairGraph hl hc bl bc Hne Hz) hc = [].
Proof. unfold kids. cbn [contentAt inner outer pairGraph]. by rewrite !decide_False by done. Qed.

Lemma pairGraph_fanIn hl hc bl bc Hne Hz c L :
  NoDup L -> fanIn (G := pairGraph hl hc bl bc Hne Hz) c L <= if decide (hl ∈ L) then 1 else 0.
Proof.
  induction 1 as [|x L Hx HL IH]; cbn [fanIn]; [by rewrite decide_False by set_solver|]. unfold kids. cbn [inner outer pairGraph app].
  destruct (decide (x = hl)) as [->|Hxh].
  - rewrite (decide_True (P := hl ∈ hl :: L)) by set_solver. rewrite decide_False in IH by done. rewrite occ_one. destruct (decide _); lia.
  - change (occ c []) with 0. destruct (decide (hl ∈ L)); [rewrite decide_True by set_solver|rewrite decide_False by set_solver]; lia.
Qed.

Lemma pairGraph_room hl hc bl bc Hne Hz N db :
  (forall c, rootCount db c < 2 ^ 16 - 2) -> roomToStore (G := pairGraph hl hc bl bc Hne Hz) N db.
Proof.
  intros Hr h c L _ _ HL _. specialize (Hr c). pose proof (pairGraph_fanIn hl hc bl bc Hne Hz c L HL) as Hf.
  pose proof (pairGraph_fanIn hl hc bl bc Hne Hz c [h] ltac:(apply NoDup_singleton)) as Hh. cbn [fanIn] in *. destruct (decide _), (decide _); lia.
Qed.

(** A trie of one account with code is in that graph. *)
Lemma leaf_inGraph `{NodeHash} e w hl hc bc Hne Hz db :
  hl = makeHashNode (leafBlob k0 w) -> accountRefs e w = [emptyRoot; hc] -> emptyRoot <> hc -> zeroB32 <> hl -> emptyRoot <> hl ->
  trieInGraph (G := pairGraph hl hc (leafBlob k0 w) bc Hne Hz) (Some (accountRefs e)) db (leafTrie k0 w).
Proof.
  intros Ehl Er He Hlz Hle tr Hl. inversion Hl as [| |? ? ? tc Hc| |]; subst. inversion Hc; subst. intros s Hs.
  inversion Hs as [|? ? ? Hs'|]; subst; [|by inversion Hs'].
  change (nodeHash (shortNode (keybytesToHex k0) (valueNode w) noFlag)) with (makeHashNode (leafBlob k0 w)).
  cbn [contentAt inner outer pairGraph]. rewrite !decide_True by done. split_and!; [auto|auto|done|done|].
  unfold extOf. change (concat (map (accountRefs e) (leaves (collapse (shortNode (keybytesToHex k0) (valueNode w) noFlag))))) with (accountRefs e w ++ []).
  rewrite Er. cbn [app].
  rewrite filter_cons_False by tauto. rewrite filter_cons_True by auto. done.
Qed.

#[local] Existing Instance KeccakHash.

Definition code0 : bytes := [Byte.x63; Byte.x6f; Byte.x64; Byte.x65].
Definition noCode : Hash := makeHashNode [].
Definition hashOfCode : Hash := makeHashNode code0.
Definition account0 : bytes :=
  match Stream.EncodeToBytes accountType (Stream.VList [Stream.VUint 1; Stream.VBig 5; Stream.VBytes (b32_bytes emptyRoot); Stream.VBytes (b32_bytes hashOfCode)]) with
  | Ok b => b
  | _ => []
  end.
Definition leafHash : Hash := makeHashNode (leafBlob k0 account0).
Definition accounts0 : gmap bytes bytes := {[ k0 := account0 ]}.

Lemma hashes0_distinct : hashOfCode <> leafHash /\ zeroB32 <> hashOfCode /\ emptyRoot <> hashOfCode /\ zeroB32 <> leafHash /\ emptyRoot <> leafHash.
Proof. apply (bool_decide_unpack _). vm_compute. exact I. Qed.

Lemma account0_refs : accountRefs noCode account0 = [emptyRoot; hashOfCode].
Proof. vm_compute. reflexivity. Qed.

#[local] Instance graph0 : NodeGraph :=
  pairGraph leafHash hashOfCode (leafBlob k0 account0) code0 (proj1 hashes0_distinct) (proj1 (proj2 hashes0_distinct)).

Definition after (o : dbOp) (d : NodeDatabase) : NodeDatabase := match runDb noCode o d with Ok (_, d') => d' | _ => d end.
Definition db1 : NodeDatabase := after (OpBlob hashOfCode code0) newDB.
Definition db2 : NodeDatabase := after (OpCommit true (leafTrie k0 account0) accounts0) db1.
Definition db3 : NodeDatabase := after (OpRetain leafHash) db2.


Lemma run_after o d h : match runDb noCode o d with Ok (h', _) => bool_decide (h' = h) | _ => false end = true -> runDb noCode o d = Ok (h, after o d).
Proof. unfold after. destruct (runDb noCode o d) as [[h' d']| |]; [|done|done]. intros ->%bool_decide_eq_true. done. Qed.

Lemma run1 : runDb noCode (OpBlob hashOfCode code0) newDB = Ok (hashOfCode, db1).
Proof. apply run_after. vm_compute. reflexivity. Qed.
Lemma run2 : runDb noCode (OpCommit true (leafTrie k0 account0) accounts0) db1 = Ok (leafHash, db2).
Proof. apply run_after. vm_compute. reflexivity. Qed.
Lemma run3 : runDb noCode (OpRetain leafHash) db2 = Ok (leafHash, db3).
Proof. apply run_after. vm_compute. reflexivity. Qed.

Lemma account0_tracked db : flushOk db -> tracked db (leafTrie k0 account0) accounts0.
Proof.
  intros Hfl. unfold accounts0. assert (account0 <> []) as Hne by (apply (bool_decide_unpack _); vm_compute; exact I).
  destruct account0 as [|b v]; [done|]. by apply leafTrie_tracked.
Qed.

Definition books1 : books := entered noCode (OpBlob hashOfCode code0) hashOfCode (mkBooks (fun _ => 0) ∅ ∅).
Definition books2 : books := entered noCode (OpCommit true (leafTrie k0 account0) accounts0) leafHash books1.
Definition books3 : books := entered noCode (OpRetain leafHash) leafHash books2.

#[local] Opaque hashOfCode leafHash noCode account0 db1 db2 db3.

Lemma allowed1 : allowed noCode (mkBooks (fun _ => 0) ∅ ∅) newDB (OpBlob hashOfCode code0).
Proof.
  destruct hashes0_distinct as (Hcl & Hz & He & _). exact (conj (not_eq_sym Hz) (conj (not_eq_sym He) (pairGraph_second _ _ _ _ _ _))).
Qed.

Lemma history1 : history noCode books1 db1.
Proof. exact (history_op _ _ _ _ _ _ (history_new _ true) allowed1 run1). Qed.

Lemma allowed2 : allowed noCode books1 db1 (OpCommit true (leafTrie k0 account0) accounts0).
Proof.
  destruct (history_inv noCode emptyRoot_keccak _ _ history1) as [l Hi]. pose proof (gc_dbOk _ _ _ (di_gc _ _ _ _ Hi)) as Hdb.
  destruct hashes0_distinct as (Hcl & Hz & He & Hlz & Hle). split; [|split; [|split; [|split]]].
  - exact (account0_tracked _ (dbOk_flush _ Hdb)).
  - apply sized_leaf. apply (bool_decide_unpack _). vm_compute. exact I.
  - exact (leaf_inGraph noCode account0 leafHash hashOfCode code0 _ _ db1 eq_refl account0_refs He Hlz Hle).
  - intros tr _. apply pairGraph_room. intros c. pose proof (di_bound _ _ _ _ Hi c) as Hc. change (bk_roots books1 c) with 0 in Hc. lia.
  - intros _. split; [exists 2%nat; intros k v Hk; unfold accounts0 in Hk; by apply lookup_singleton_Some in Hk as [<- _]|]. intros k v c Hk. unfold accounts0 in Hk.
    apply lookup_singleton_Some in Hk as [_ <-]. rewrite account0_refs. intros [->|Hc]%elem_of_cons; [exact (conj emptyRoot_nonzero (or_introl eq_refl))|].
    apply list_elem_of_singleton in Hc as ->. split; [exact (not_eq_sym Hz)|right; left]. apply (bool_decide_unpack _). vm_compute. exact I.
Qed.

Lemma history2 : history noCode books2 db2.
Proof. exact (history_op _ _ _ _ _ _ history1 allowed2 run2). Qed.

Lemma leaf_room : roomToRetain leafHash db2.
Proof.
  destruct (history_inv noCode emptyRoot_keccak _ _ history2) as [l Hi]. intros n Hn.
  split; [pose proof (di_bound _ _ _ _ Hi leafHash) as Hc; change (bk_roots books2 leafHash) with 0 in Hc; lia|right].
  assert (match nodes db2 !! leafHash with Some m => cn_parents m + 1 <? 2 ^ 16 | None => true end = true) as Hp by (vm_compute; reflexivity).
  rewrite Hn in Hp. by apply Z.ltb_lt.
Qed.

Lemma history3 : history noCode books3 db3.
Proof.
  destruct hashes0_distinct as (_ & _ & _ & Hlz & _). refine (history_op _ _ _ _ _ _ history2 _ run3).
  split; [exact (not_eq_sym Hlz)|split; [right; left|exact leaf_room]]. apply (bool_decide_unpack _). vm_compute. exact I.
Qed.

Lemma state3 : bk_states books3 !! leafHash = Some (true, accounts0).
Proof. apply lookup_insert_eq. Qed.

Lemma has3 h : match nodes db3 !! h with Some _ => true | None => false end = true -> has db3 h.
Proof. intros Hh. left. destruct (nodes db3 !! h); [by eexists|done]. Qed.

Lemma database_op_total_witness : exists res, runDb noCode (OpRelease leafHash) db3 = Ok res.
Proof.
  refine (database_op_total noCode emptyRoot_keccak books3 db3 (OpRelease leafHash) history3 (conj (not_eq_sym (proj1 (proj2 (proj2 (proj2 hashes0_distinct))))) _)).
  simpl. unfold addRoot. rewrite decide_True by reflexivity. lia.
Defined.

Lemma retained_state_opens_witness :
  opens db3 leafHash accounts0 /\
  (true = true -> forall k v c, accounts0 !! k = Some v -> c ∈ accountRefs noCode v -> c <> zeroB32 -> c <> emptyRoot ->
     readable db3 c /\ forall acc' g', bk_states books3 !! c = Some (acc', g') -> opens db3 c g').
Proof.
  apply (retained_state_opens noCode emptyRoot_keccak books3 db3 leafHash true accounts0 history3 state3).
  left. simpl. unfold addRoot. rewrite decide_True by reflexivity. lia.
Defined.

Lemma memory_is_reachable_witness :
  is_Some (nodes db3 !! hashOfCode) <-> exists r, r <> emptyRoot /\ 0 < bk_roots books3 r /\ rtc refersTo r hashOfCode.
Proof.
  apply (memory_is_reachable noCode emptyRoot_keccak books3 db3 hashOfCode history3).
  - apply (bool_decide_unpack _). vm_compute. exact I.
  - exact (not_eq_sym (proj1 (proj2 hashes0_distinct))).
  - apply (bool_decide_unpack _). vm_compute. exact I.
Defined.

Lemma written_state_survives_witness :
  exists db', CommitNode leafHash db3 = Ok db' /\ opens (NewDatabase (diskdb db') true) leafHash accounts0.
Proof.
  apply (written_state_survives noCode emptyRoot_keccak books3 db3 leafHash true accounts0 true history3 state3).
  - exact (not_eq_sym (proj1 (proj2 (proj2 (proj2 hashes0_distinct))))).
  - apply has3. vm_compute. reflexivity.
Defined.

Lemma counter_wrap_drops_root_witness :
  exists db1 db2 db3, InsertBlob hashOfCode code0 (NewDatabase ∅ true) = Ok db1 /\ retains (Z.to_nat (2 ^ 16)) hashOfCode db1 = Ok db2 /\
    is_Some (nodes db2 !! hashOfCode) /\ Dereference hashOfCode db2 = Ok db3 /\ nodes db3 !! hashOfCode = None /\ diskdb db3 !! hashOfCode = None.
Proof. exact (counter_wrap_drops_root hashOfCode code0 true (not_eq_sym (proj1 (proj2 hashes0_distinct)))). Defined.
