(* ===== verification/Weight.v ===== *)
(** * Weight: the hash and the weight of a block

    [src/middleware/types/core.go]: the hash of a header and the comparison by which
    the chain chooses between forks.  The value of a proof and the stake of a proposer
    are what the consensus plugs in ([DefaultPVFunc], [DefaultStakeGetter]).  Weights
    compare by the total of their proofs first; past the first hard fork by the value
    of the last proof over the stake, as a rational whose denominator is the stake
    rounded to a double. *)
From Stdlib Require Import QArith.
From S2P Require Import Prelude Bytes Sha256 Types.
Local Open Scope Z_scope.

(** ** The hash of a header *)

Definition headerBytes (bh : BlockHeader) : bytes :=
  Uint64ToByte (bh_Height bh) ++ b32_bytes (bh_PreHash bh) ++ Int32ToByte (bh_Elapsed bh) ++ bh_ProveValue bh ++
  Uint64ToByte (bh_TotalQN bh) ++ Uint64ToByte (bh_CurTime bh) ++ bh_Castor bh ++ b32_bytes (bh_Group bh) ++
  Int32ToByte (bh_Nonce bh) ++ b32_bytes (bh_TxTree bh) ++ b32_bytes (bh_ReceiptTree bh) ++ b32_bytes (bh_StateTree bh) ++
  Uint64ToByte (bh_GasFee bh) ++ bh_ExtraData bh.

Definition headerHash (bh : BlockHeader) : Hash := BytesToHash (Sha256 (headerBytes bh)).

(** ** Weights *)

Class WeightEnv := {
  DefaultPVFunc : bytes -> Z;
  DefaultStakeGetter : option (Address -> Z -> Z);
}.

Record BlockWeight := mkWeight {
  bw_Proposer : Address;
  bw_Height : Z;
  bw_Hash : Hash;
  bw_TotalQN : Z;
  bw_PV : Z;
}.

(** [float64(z)] of an unsigned integer: 53 bits, ties to even. *)
Definition float64 (z : Z) : Z :=
  let e := Z.log2 z - 52 in
  if e <=? 0 then z
  else
    let q := z / 2 ^ e in
    let r := z mod 2 ^ e in
    (if (2 ^ (e - 1) <? r) || ((r =? 2 ^ (e - 1)) && Z.odd q) then q + 1 else q) * 2 ^ e.

Section weight.
Context `{WeightEnv}.

Definition NewBlockWeight (bh : BlockHeader) : BlockWeight :=
  mkWeight (BytesToAddress (bh_Castor bh)) (bh_Height bh) (bh_Hash bh) (bh_TotalQN bh) (DefaultPVFunc (bh_ProveValue bh)).

(** The value computed here is kept in the weight by the source. *)
Definition normalizePV (getter : Address -> Z -> Z) (bw : BlockWeight) : Q :=
  let stake := getter (bw_Proposer bw) (wrap64 (bw_Height bw - 1)) in
  if stake =? 0 then 0 # 1 else bw_PV bw # Z.to_pos (float64 stake).

Definition cmpHash (bw bw2 : BlockWeight) : comparison :=
  BigEndian.read (b32_bytes (bw_Hash bw)) ?= BigEndian.read (b32_bytes (bw_Hash bw2)).

Definition cmpPV (bw bw2 : BlockWeight) : comparison :=
  match bw_PV bw ?= bw_PV bw2 with
  | Eq => if IsZIP003 (bw_Height bw) && IsZIP003 (bw_Height bw2) then cmpHash bw bw2 else Eq
  | c => c
  end.

Definition Cmp (bw bw2 : BlockWeight) : comparison :=
  match bw_TotalQN bw ?= bw_TotalQN bw2 with
  | Eq =>
      match DefaultStakeGetter with
      | Some getter =>
          if IsZIP001 (bw_Height bw) && IsZIP001 (bw_Height bw2) then
            match (normalizePV getter bw ?= normalizePV getter bw2)%Q with
            | Eq => cmpPV bw bw2
            | c => c
            end
          else cmpPV bw bw2
      | None => cmpPV bw bw2
      end
  | c => c
  end.

Definition MoreWeight (bw bw2 : BlockWeight) : bool := match Cmp bw bw2 with Gt => true | _ => false end.

Definition compareBlockWeight (bh1 bh2 : BlockHeader) : comparison := Cmp (NewBlockWeight bh1) (NewBlockWeight bh2).

(** ** A total order within a regime *)

(** First by one criterion, then by another. *)
Definition lex (c d : comparison) : comparison := match c with Eq => d | _ => c end.

Lemma lex_opp c d : CompOpp (lex c d) = lex (CompOpp c) (CompOpp d).
Proof. by destruct c. Qed.

(** A comparison that orders. *)
Record ordering {A} (f : A -> A -> comparison) : Prop := {
  or_opp x y : f y x = CompOpp (f x y);
  or_eq x y z : f x y = Eq -> f x z = f y z;
  or_lt x y z : f x y = Lt -> f y z = Lt -> f x z = Lt;
}.

Lemma ordering_Z {A} (k : A -> Z) : ordering (fun x y => k x ?= k y).
Proof.
  constructor; intros x y; [by rewrite Z.compare_antisym|intros z ->%Z.compare_eq; done|].
  intros z. rewrite !Z.compare_lt_iff. lia.
Qed.

Lemma ordering_Q {A} (k : A -> Q) : ordering (fun x y => (k x ?= k y)%Q).
Proof.
  constructor; intros x y; [by rewrite Qcompare_antisym| |].
  - intros z E. apply Qeq_alt in E. by rewrite E.
  - intros z. rewrite <- !Qlt_alt. apply Qlt_trans.
Qed.

Lemma ordering_lex {A} (f g : A -> A -> comparison) : ordering f -> ordering g -> ordering (fun x y => lex (f x y) (g x y)).
Proof.
  intros [Fo Fe Fl] [Go Ge Gl]. constructor; intros x y.
  - by rewrite lex_opp, <- Fo, <- Go.
  - intros z. destruct (f x y) eqn:Ef; try done. simpl. intros Eg. by rewrite (Fe x y z Ef), (Ge x y z Eg).
  - intros z. destruct (f x y) eqn:Ef; simpl; try done.
    + intros Hg. rewrite (Fe x y z Ef). destruct (f y z); simpl; try done. by apply Gl.
    + intros _. destruct (f y z) eqn:Ef'; simpl; try done; intros _.
      * assert (f z y = Eq) as E by (by rewrite (Fo y z), Ef'). assert (f x z = Lt) as ->; [|done].
        rewrite Fo, (Fe z y x E), Fo, Ef. done.
      * by rewrite (Fl x y z Ef Ef').
Qed.

(** The criteria of the blocks past the first and the third hard fork. *)
Definition settled (bw : BlockWeight) : Prop := IsZIP001 (bw_Height bw) = true /\ IsZIP003 (bw_Height bw) = true.

Definition cmpSettled (bw bw2 : BlockWeight) : comparison :=
  lex (bw_TotalQN bw ?= bw_TotalQN bw2)
    (lex (match DefaultStakeGetter with Some getter => (normalizePV getter bw ?= normalizePV getter bw2)%Q | None => Eq end)
       (lex (bw_PV bw ?= bw_PV bw2) (cmpHash bw bw2))).

Lemma Cmp_settled a b : settled a -> settled b -> Cmp a b = cmpSettled a b.
Proof.
  intros [H1 H3] [H1' H3']. unfold Cmp, cmpSettled, cmpPV. rewrite H1, H1', H3, H3'. simpl.
  destruct (_ ?= _); [|done|done]. simpl.
  destruct DefaultStakeGetter as [g|]; [destruct (_ ?= _)%Q|]; simpl; try done; by destruct (_ ?= _).
Qed.

Lemma ordering_settled : ordering cmpSettled.
Proof.
  apply (ordering_lex (fun a b => _ ?= _)); [apply ordering_Z|]. apply (ordering_lex (fun a b => match DefaultStakeGetter with Some _ => _ | None => _ end)).
  - destruct DefaultStakeGetter as [getter|]; [apply (ordering_Q (normalizePV getter))|by constructor].
  - apply (ordering_lex (fun a b => _ ?= _)); [apply ordering_Z|apply (ordering_Z (fun a => BigEndian.read (b32_bytes (bw_Hash a))))].
Qed.

Lemma Cmp_opp a b : Cmp b a = CompOpp (Cmp a b).
Proof.
  assert (forall a b, cmpPV b a = CompOpp (cmpPV a b)) as Hpv.
  { intros x y. unfold cmpPV, cmpHash. rewrite (Z.compare_antisym (bw_PV x)). destruct (bw_PV x ?= bw_PV y); simpl; try done.
    rewrite andb_comm. destruct (_ && _); [apply Z.compare_antisym|done]. }
  unfold Cmp. rewrite (Z.compare_antisym (bw_TotalQN a)). destruct (bw_TotalQN a ?= bw_TotalQN b); simpl; try done.
  destruct DefaultStakeGetter as [g|]; [|apply Hpv]. rewrite andb_comm. destruct (_ && _); [|apply Hpv].
  rewrite <- (Qcompare_antisym (normalizePV g a)). destruct (_ ?= _)%Q; simpl; [apply Hpv|done|done].
Qed.

Lemma read_inj_32 (h h' : Hash) : BigEndian.read (b32_bytes h) = BigEndian.read (b32_bytes h') -> h = h'.
Proof. intros E. apply b32_eq. rewrite <- (BigEndian.put_read (b32_bytes h)), <- (BigEndian.put_read (b32_bytes h')), !b32_length. by rewrite E. Qed.

(** C32: among the blocks past the hard forks the weight is a strict total
    order on block hashes: two weights compare the opposite way round, "more weight"
    is transitive, and neither of two weights is more only if the blocks have the same
    hash, so every node prefers the same one of two forks. *)
Theorem weight_total_order a b c :
  settled a -> settled b -> settled c ->
  Cmp b a = CompOpp (Cmp a b) /\
  (MoreWeight a b = true -> MoreWeight b c = true -> MoreWeight a c = true) /\
  (MoreWeight a b = false -> MoreWeight b a = false -> bw_Hash a = bw_Hash b).
Proof.
  intros Ha Hb Hc. destruct ordering_settled as [Ho He Hl]. unfold MoreWeight. rewrite !Cmp_settled by done. split_and!; [apply Ho| |].
  - rewrite (Ho b a), (Ho c b), (Ho c a). intros Hab Hbc. assert (cmpSettled c b = Lt) as E1 by (by destruct (cmpSettled c b)).
    assert (cmpSettled b a = Lt) as E2 by (by destruct (cmpSettled b a)). by rewrite (Hl c b a E1 E2).
  - rewrite (Ho a b). intros Hab Hba. assert (cmpSettled a b = Eq) as E by (by destruct (cmpSettled a b)).
    apply read_inj_32, Z.compare_eq. unfold cmpSettled, cmpHash in E.
    destruct (_ ?= _) in E; [|done|done]. destruct (match DefaultStakeGetter with Some _ => _ | None => _ end) in E; [|done|done].
    by destruct (_ ?= _) in E.
Qed.

End weight.

(** ** Across the hard fork *)

(** A miner with the stake of its height. *)
#[local] Instance sampleWeights : WeightEnv := {| DefaultPVFunc := BigEndian.read; DefaultStakeGetter := Some (fun _ h => if h =? 1000000 then 4 else 1) |}.

Definition weightAt (height pv : Z) : BlockWeight := mkWeight zeroB32 height (BigToAddress pv) 7 pv.

Lemma weight_total_order_witness :
  Cmp (weightAt 5000001 10) (weightAt 5000000 20) = CompOpp (Cmp (weightAt 5000000 20) (weightAt 5000001 10)) /\
  (MoreWeight (weightAt 5000000 20) (weightAt 5000001 10) = true -> MoreWeight (weightAt 5000001 10) (weightAt 5000000 5) = true ->
     MoreWeight (weightAt 5000000 20) (weightAt 5000000 5) = true) /\
  (MoreWeight (weightAt 5000000 20) (weightAt 5000001 10) = false -> MoreWeight (weightAt 5000001 10) (weightAt 5000000 20) = false ->
     bw_Hash (weightAt 5000000 20) = bw_Hash (weightAt 5000001 10)).
Proof. apply weight_total_order; by vm_compute. Defined.

(** One block before the fork and two after it, each more than the next. *)
Lemma weight_cycle :
  let a := weightAt 900000 15 in let b := weightAt 1000002 10 in let c := weightAt 1000001 20 in
  MoreWeight a b = true /\ MoreWeight b c = true /\ MoreWeight c a = true.
Proof. by vm_compute. Qed.
