(* ===== verification/Prque.v ===== *)
(** * Prque: the priority queue

    [src/common/prque]: a stack in blocks ([sstack.go]) kept in heap order by
    [container/heap] of the standard library, which works on any stack through an
    interface, the class [Interface].  Priorities compare by their difference in 64
    bits.  Indices are Go's [int]; out of range is a panic. *)
From Stdlib Require Import Sorting.Sorted.
From S2P Require Import Prelude Bytes.
Local Open Scope Z_scope.
Local Open Scope zv_scope.

Definition outOfRange {A} : outcome string A := Panic "index out of range".

(** ** [container/heap] *)

Class Interface (H A : Type) := {
  Len : H -> Z;
  Less : Z -> Z -> H -> outcome string bool;
  Swap : Z -> Z -> H -> outcome string H;
  PushTop : A -> H -> outcome string H;
  PopTop : H -> outcome string (option A * H);
}.

Section heap.
Context {H A : Type} `{Interface H A}.

Fixpoint up (fuel : nat) (j : Z) (h : H) : outcome string H :=
  match fuel with
  | O => Err "out of fuel"
  | S fuel' =>
      let i := Z.quot (j - 1) 2 in
      if i =? j then Ok h
      else
        less <-! Less j i h ;;
        if less : bool then h' <-! Swap i j h ;; up fuel' i h' else Ok h
  end.

(** Answers where the element has come to. *)
Fixpoint down (fuel : nat) (i n : Z) (h : H) : outcome string (Z * H) :=
  match fuel with
  | O => Err "out of fuel"
  | S fuel' =>
      let j1 := 2 * i + 1 in
      if (n <=? j1) || (j1 <? 0) then Ok (i, h)
      else
        second <-! (if j1 + 1 <? n then Less (j1 + 1) j1 h else Ok false) ;;
        let j := if second : bool then j1 + 1 else j1 in
        less <-! Less j i h ;;
        if less : bool then h' <-! Swap i j h ;; down fuel' j n h' else Ok (i, h)
  end.

Definition heapPush (x : A) (h : H) : outcome string H :=
  h1 <-! PushTop x h ;;
  up (Z.to_nat (Len h1)) (Len h1 - 1) h1.

Definition heapPop (h : H) : outcome string (option A * H) :=
  let n := Len h - 1 in
  h1 <-! Swap 0 n h ;;
  h2 <-! down (S (Z.to_nat n)) 0 n h1 ;;
  PopTop h2.2.

Definition heapRemove (i : Z) (h : H) : outcome string (option A * H) :=
  let n := Len h - 1 in
  h1 <-! (if n =? i then Ok h
          else
            h1 <-! Swap i n h ;;
            h2 <-! down (S (Z.to_nat n)) i n h1 ;;
            if i <? h2.1 then Ok h2.2 else up (S (Z.to_nat i)) i h2.2) ;;
  PopTop h1.

End heap.

(** ** The stack in blocks *)

Definition blockSize : Z := 4096.

Record Item V := mkItem { it_Value : V; it_Priority : Z }.
Arguments mkItem {V}.
Arguments it_Value {V}.
Arguments it_Priority {V}.

(** [active] is one of the blocks, by its index. *)
Record sstack V := mkStack {
  ss_size : Z;
  ss_capacity : Z;
  ss_offset : Z;
  ss_blocks : list (list (option (Item V)));
  ss_active : Z;
}.
Arguments mkStack {V}.
Arguments ss_size {V}.
Arguments ss_capacity {V}.
Arguments ss_offset {V}.
Arguments ss_blocks {V}.
Arguments ss_active {V}.

Section sstack.
Context {V : Type}.
Implicit Type s : sstack V.

Definition emptyBlock : list (option (Item V)) := replicate (Z.to_nat blockSize) None.

Definition newSstack : sstack V := mkStack 0 blockSize 0 [emptyBlock] 0.

(** [s.blocks[b][o]] *)
Definition slot s (b o : Z) : outcome string (option (Item V)) :=
  if (b <? 0) || (o <? 0) then outOfRange
  else match ss_blocks s !! Z.to_nat b with
       | Some blk => match blk !! Z.to_nat o with Some x => Ok x | None => outOfRange end
       | None => outOfRange
       end.

Definition setSlot (b o : Z) (x : option (Item V)) s : outcome string (sstack V) :=
  _ <-! slot s b o ;;
  Ok (mkStack (ss_size s) (ss_capacity s) (ss_offset s)
        (alter (fun blk => <[Z.to_nat o := x]> blk) (Z.to_nat b) (ss_blocks s)) (ss_active s)).

Definition sstack_Push (x : Item V) s : outcome string (sstack V) :=
  s1 <-! (if ss_size s =? ss_capacity s then
            Ok (mkStack (ss_size s) (ss_capacity s + blockSize) 0 (ss_blocks s ++ [emptyBlock]) (Z.of_nat (length (ss_blocks s))))
          else if ss_offset s =? blockSize then
            if Z.quot (ss_size s) blockSize <? Z.of_nat (length (ss_blocks s)) then
              Ok (mkStack (ss_size s) (ss_capacity s) 0 (ss_blocks s) (Z.quot (ss_size s) blockSize))
            else outOfRange
          else Ok s) ;;
  s2 <-! setSlot (ss_active s1) (ss_offset s1) (Some x) s1 ;;
  Ok (mkStack (ss_size s2 + 1) (ss_capacity s2) (ss_offset s2 + 1) (ss_blocks s2) (ss_active s2)).

Definition sstack_Pop s : outcome string (option (Item V) * sstack V) :=
  let size := ss_size s - 1 in
  let offset := ss_offset s - 1 in
  s1 <-! (if offset <? 0 then
            if Z.quot size blockSize <? Z.of_nat (length (ss_blocks s)) then
              Ok (mkStack size (ss_capacity s) (blockSize - 1) (ss_blocks s) (Z.quot size blockSize))
            else outOfRange
          else Ok (mkStack size (ss_capacity s) offset (ss_blocks s) (ss_active s))) ;;
  res <-! slot s1 (ss_active s1) (ss_offset s1) ;;
  s2 <-! setSlot (ss_active s1) (ss_offset s1) None s1 ;;
  Ok (res, s2).


Definition priorityAt s (i : Z) : outcome string Z :=
  x <-! slot s (Z.quot i blockSize) (Z.rem i blockSize) ;;
  match x with Some it => Ok (it_Priority it) | None => Panic "nil pointer dereference" end.

Definition sstack_Less (i j : Z) s : outcome string bool :=
  p <-! priorityAt s i ;;
  q <-! priorityAt s j ;;
  Ok (0 <? int64 (p - q)).

Definition sstack_Swap (i j : Z) s : outcome string (sstack V) :=
  let ib := Z.quot i blockSize in
  let io := Z.rem i blockSize in
  let jb := Z.quot j blockSize in
  let jo := Z.rem j blockSize in
  a <-! slot s jb jo ;;
  b <-! slot s ib io ;;
  s1 <-! setSlot ib io a s ;;
  setSlot jb jo b s1.

#[global] Instance sstack_Interface : Interface (sstack V) (Item V) := {|
  Len := ss_size;
  Less := sstack_Less;
  Swap := sstack_Swap;
  PushTop := sstack_Push;
  PopTop := sstack_Pop;
|}.

(** ** The queue *)

Definition Prque : Type := sstack V.

Definition NewPrque : Prque := newSstack.

Definition Push (data : V) (priority : Z) (p : Prque) : outcome string Prque := heapPush (mkItem data priority) p.

Definition itemOf (x : option (Item V)) : outcome string (V * Z) :=
  match x with Some it => Ok (it_Value it, it_Priority it) | None => Panic "nil pointer dereference" end.

Definition Peek (p : Prque) : outcome string (V * Z) :=
  x <-! slot p 0 0 ;; itemOf x.

Definition Pop (p : Prque) : outcome string ((V * Z) * Prque) :=
  r <-! heapPop p ;;
  x <-! itemOf r.1 ;;
  Ok (x, r.2).

Definition PopItem (p : Prque) : outcome string (V * Prque) :=
  r <-! Pop p ;; Ok (r.1.1, r.2).

Definition Remove (i : Z) (p : Prque) : outcome string (option (Item V) * Prque) :=
  if i <? 0 then Ok (None, p) else heapRemove i p.

Definition Empty (p : Prque) : bool := ss_size p =? 0.
Definition QSize (p : Prque) : Z := ss_size p.

End sstack.

Arguments Prque : clear implicits.

(** ** The queue hands out the highest priority

    A heap order on the list a stack stands for, kept by [container/heap] on every
    stack that does what [HeapLaws] says, and the stack in blocks as such a stack.
    The queue then is a bag: pushing adds, popping takes out one of the highest
    priority, and emptying it sorts. *)
(** ** Heap order *)

Section order.
Context {A : Type} (key : A -> Z).
Implicit Types (l : list A) (i j p c : nat).

Definition keyAt l i : Z := from_option key 0 (l !! i).

Definition swap i j l : list A :=
  match l !! i, l !! j with
  | Some a, Some b => <[j := a]> (<[i := b]> l)
  | _, _ => l
  end.

Definition childOf c p : Prop := c = (2 * p + 1)%nat \/ c = (2 * p + 2)%nat.

(** Heap order on the first [n], except between [h] and its parent. *)
Definition heapBut h n l : Prop :=
  forall p c, childOf c p -> (c < n)%nat -> c <> h -> keyAt l c <= keyAt l p.
(** The same, except between [h] and its children. *)
Definition heapOver h n l : Prop :=
  forall p c, childOf c p -> (c < n)%nat -> p <> h -> keyAt l c <= keyAt l p.
(** What is below [h] may be put in its place. *)
Definition bridged h n l : Prop :=
  forall q c, childOf h q -> childOf c h -> (c < n)%nat -> keyAt l c <= keyAt l q.
(** The same, except between [h] and its parent and between [h] and its children. *)
Definition heapAround h n l : Prop :=
  forall p c, childOf c p -> (c < n)%nat -> c <> h -> p <> h -> keyAt l c <= keyAt l p.
Definition heapOrder n l : Prop := forall p c, childOf c p -> (c < n)%nat -> keyAt l c <= keyAt l p.

Lemma swap_length i j l : length (swap i j l) = length l.
Proof. unfold swap. destruct (l !! i), (l !! j); [|done..]. by rewrite !length_insert. Qed.

Lemma swap_beyond i j l x : (i < x)%nat -> (j < x)%nat -> swap i j l !! x = l !! x.
Proof. intros Hi Hj. unfold swap. destruct (l !! i), (l !! j); [|done..]. by rewrite !list_lookup_insert_ne by lia. Qed.

Lemma swap_key i j l k :
  (i < length l)%nat -> (j < length l)%nat -> keyAt (swap i j l) k = keyAt l (if decide (k = i) then j else if decide (k = j) then i else k).
Proof.
  intros [a Ha]%lookup_lt_is_Some_2 [b Hb]%lookup_lt_is_Some_2. unfold swap, keyAt. rewrite Ha, Hb.
  destruct (decide (k = j)) as [->|Hj].
  - rewrite list_lookup_insert_eq by (rewrite length_insert; by eapply lookup_lt_Some). destruct (decide (j = i)) as [->|]; [|by rewrite Ha]. by rewrite Ha.
  - rewrite list_lookup_insert_ne by done. destruct (decide (k = i)) as [->|Hi]; [|by rewrite list_lookup_insert_ne].
    rewrite list_lookup_insert_eq by (by eapply lookup_lt_Some). by rewrite Hb.
Qed.

Lemma swap_perm i j l : swap i j l ≡ₚ l.
Proof.
  unfold swap. destruct (l !! i) as [a|] eqn:Ha; [|done]. destruct (l !! j) as [b|] eqn:Hb; [|done].
  apply Permutation_inj. split; [by rewrite !length_insert|]. exists (fun k => if decide (k = i) then j else if decide (k = j) then i else k).
  split; [intros x y; repeat destruct (decide _); congruence|]. intros k.
  pose proof (lookup_lt_Some _ _ _ Ha). pose proof (lookup_lt_Some _ _ _ Hb).
  destruct (decide (k = j)) as [->|Hj]; [|rewrite list_lookup_insert_ne by done].
  - rewrite list_lookup_insert_eq by (by rewrite length_insert). destruct (decide (j = i)) as [->|]; congruence.
  - destruct (decide (k = i)) as [->|Hi]; [rewrite list_lookup_insert_eq by done; congruence|by rewrite list_lookup_insert_ne].
Qed.

(** Moving up. *)
Lemma up_step j q n l :
  childOf j q -> (j < n <= length l)%nat -> heapBut j n l -> bridged j n l -> keyAt l q < keyAt l j ->
  heapBut q n (swap q j l) /\ bridged q n (swap q j l).
Proof.
  intros Hjq Hj Hb Hbr Hlt. assert (q < j)%nat as Hqj by (unfold childOf in Hjq; lia). split.
  - intros p c Hc Hcn Hcq. rewrite !swap_key by lia. repeat destruct (decide _); subst; try (unfold childOf in *; lia).
    + specialize (Hb q c Hc Hcn ltac:(done)). lia.
    + by apply (Hbr q c).
    + by apply Hb.
  - intros p c Hq Hc Hcn. rewrite !swap_key by lia. unfold childOf in Hq, Hc, Hjq.
    assert (keyAt l q <= keyAt l p) as Hqp by (apply (Hb p q); [done|lia|lia]).
    repeat destruct (decide _); subst; try lia. specialize (Hb q c ltac:(done) Hcn ltac:(done)). lia.
Qed.

Lemma up_done j n l : heapBut j n l -> (forall q, childOf j q -> keyAt l j <= keyAt l q) -> heapOrder n l.
Proof. intros Hb Hj p c Hc Hcn. destruct (decide (c = j)) as [->|]; [by apply Hj|by apply Hb]. Qed.

Lemma down_done i n l : heapOver i n l -> (forall c, childOf c i -> (c < n)%nat -> keyAt l c <= keyAt l i) -> heapOrder n l.
Proof. intros Ho Hi p c Hc Hcn. destruct (decide (p = i)) as [->|]; [by apply Hi|by apply Ho]. Qed.

(** Moving down, from where the order may fail both ways. *)
Lemma around_step i j n l :
  childOf j i -> (j < n <= length l)%nat -> heapAround i n l -> bridged i n l -> keyAt l i < keyAt l j ->
  (forall c, childOf c i -> (c < n)%nat -> keyAt l c <= keyAt l j) ->
  heapOver j n (swap i j l) /\ bridged j n (swap i j l).
Proof.
  intros Hji Hj Ho Hbr Hlt Hmax. assert (i < j)%nat as Hij by (unfold childOf in Hji; lia). split.
  - intros p c Hc Hcn Hpj. rewrite !swap_key by lia. rewrite (decide_False (P := p = j)) by done. destruct (decide (c = i)) as [->|Hci].
    + rewrite decide_False by (unfold childOf in *; lia). by apply (Hbr p j); [| |lia].
    + destruct (decide (c = j)) as [->|Hcj]; [rewrite decide_True by (unfold childOf in *; lia); lia|].
      destruct (decide (p = i)) as [->|Hpi]; [by apply Hmax|by apply Ho].
  - intros q c Hq Hc Hcn. assert (q = i) as -> by (unfold childOf in *; lia). rewrite !swap_key by lia.
    unfold childOf in Hc. repeat destruct (decide _); subst; try lia. apply Ho; [done|lia|lia|lia].
Qed.

Lemma down_step i j n l :
  childOf j i -> (j < n <= length l)%nat -> heapOver i n l -> bridged i n l -> keyAt l i < keyAt l j ->
  (forall c, childOf c i -> (c < n)%nat -> keyAt l c <= keyAt l j) ->
  heapOver j n (swap i j l) /\ bridged j n (swap i j l).
Proof. intros Hji Hj Ho. apply around_step; [done|done|]. intros p c Hc Hcn _. by apply Ho. Qed.

Lemma around_done i n l : heapAround i n l -> (forall c, childOf c i -> (c < n)%nat -> keyAt l c <= keyAt l i) -> heapBut i n l.
Proof. intros Ho Hi p c Hc Hcn Hci. destruct (decide (p = i)) as [->|]; [by apply Hi|by apply Ho]. Qed.

(** The root is highest. *)
Lemma heap_root n l i : heapOrder n l -> (i < n)%nat -> keyAt l i <= keyAt l 0.
Proof.
  intros Hh. induction (lt_wf i) as [i _ IH]. intros Hi. destruct i as [|i]; [done|].
  assert (childOf (S i) (i / 2)) as Hc.
  { unfold childOf. pose proof (Nat.div_mod_eq i 2). pose proof (Nat.mod_upper_bound i 2). lia. }
  specialize (Hh _ _ Hc Hi). assert (i / 2 < S i)%nat by (pose proof (Nat.Div0.div_le_upper_bound i 2 i); lia). specialize (IH _ H ltac:(lia)). lia.
Qed.

End order.

(** ** [container/heap] on any lawful stack *)

Class HeapLaws {H A : Type} `{Interface H A} (key : A -> Z) (item : A -> Prop) (R : H -> list A -> Prop) : Prop := {
  law_items h l : R h l -> Forall item l;
  law_Len h l : R h l -> Len h = Z.of_nat (length l);
  law_Less h l (i j : nat) a b :
    R h l -> l !! i = Some a -> l !! j = Some b -> Less (Z.of_nat i) (Z.of_nat j) h = Ok (key b <? key a);
  law_Swap h l (i j : nat) :
    R h l -> (i < length l)%nat -> (j < length l)%nat -> exists h', Swap (Z.of_nat i) (Z.of_nat j) h = Ok h' /\ R h' (swap i j l);
  law_Push h l a : R h l -> item a -> exists h', PushTop a h = Ok h' /\ R h' (l ++ [a]);
  law_Pop h l a : R h (l ++ [a]) -> exists h', PopTop h = Ok (Some a, h') /\ R h' l;
}.

Section lawful.
Context {H A : Type} `{Interface H A} (key : A -> Z) (item : A -> Prop) (R : H -> list A -> Prop).
Context {Laws : HeapLaws key item R}.
Implicit Types (h : H) (l : list A) (i j n : nat).

Lemma Less_key h l i j :
  R h l -> (i < length l)%nat -> (j < length l)%nat -> Less (Z.of_nat i) (Z.of_nat j) h = Ok (keyAt key l j <? keyAt key l i).
Proof.
  intros HR [a Ha]%lookup_lt_is_Some_2 [b Hb]%lookup_lt_is_Some_2. rewrite (law_Less h l i j a b HR Ha Hb).
  unfold keyAt. by rewrite Ha, Hb.
Qed.

Lemma parent_cases j : (j = 0)%nat \/ exists q, childOf j q /\ Z.quot (Z.of_nat j - 1) 2 = Z.of_nat q.
Proof.
  destruct j as [|j]; [by left|right]. exists (j / 2)%nat. split.
  - unfold childOf. pose proof (Nat.div_mod_eq j 2). pose proof (Nat.mod_upper_bound j 2). lia.
  - rewrite Z.quot_div_nonneg by lia. rewrite Nat2Z.inj_div. f_equal. lia.
Qed.

Lemma up_ok fuel j n h l :
  R h l -> (j < fuel)%nat -> (j < n <= length l)%nat -> heapBut key j n l -> bridged key j n l ->
  exists h' l', up fuel (Z.of_nat j) h = Ok h' /\ R h' l' /\ l' ≡ₚ l /\ heapOrder key n l' /\ forall x, (n <= x)%nat -> l' !! x = l !! x.
Proof.
  revert j h l. induction fuel as [|fuel IH]; intros j h l HR Hf Hj Hb Hbr; [lia|]. cbn [up].
  destruct (parent_cases j) as [->|(q & Hq & ->)].
  - exists h, l. split_and!; [done|done|done| |done]. apply (up_done key 0); [done|]. intros q Hq. unfold childOf in Hq. lia.
  - assert (q < j)%nat by (unfold childOf in Hq; lia). rewrite (proj2 (Z.eqb_neq (Z.of_nat q) (Z.of_nat j))) by lia.
    rewrite (Less_key h l j q HR) by lia. cbn [obind]. destruct (keyAt key l q <? keyAt key l j) eqn:E.
    + apply Z.ltb_lt in E. destruct (law_Swap h l q j HR ltac:(lia) ltac:(lia)) as (h1 & -> & HR1). cbn [obind].
      destruct (up_step key j q n l Hq ltac:(lia) Hb Hbr E) as [Hb1 Hbr1].
      destruct (IH q h1 (swap q j l) HR1) as (h' & l' & -> & HR' & Hp & Ho & Hx); rewrite ?swap_length; [lia|lia|done|done|].
      exists h', l'. split_and!; [done|done|by rewrite Hp, swap_perm|done|]. intros x Hx'. rewrite Hx by done. by apply swap_beyond; lia.
    + apply Z.ltb_ge in E. exists h, l. split_and!; [done|done|done| |done]. apply (up_done key j); [done|].
      intros q' Hq'. assert (q' = q) as -> by (unfold childOf in *; lia). done.
Qed.

(** The larger child. *)
Lemma child_choice h l i n :
  R h l -> (2 * i + 1 < n <= length l)%nat ->
  exists j, childOf j i /\ (j < n)%nat /\ (forall c, childOf c i -> (c < n)%nat -> keyAt key l c <= keyAt key l j) /\
    (second <-! (if 2 * Z.of_nat i + 1 + 1 <? Z.of_nat n then Less (2 * Z.of_nat i + 1 + 1) (2 * Z.of_nat i + 1) h else Ok false) ;;
     Ok (if second : bool then 2 * Z.of_nat i + 1 + 1 else 2 * Z.of_nat i + 1)) = Ok (Z.of_nat j).
Proof.
  intros HR Hn. replace (2 * Z.of_nat i + 1) with (Z.of_nat (2 * i + 1)) by lia. replace (Z.of_nat (2 * i + 1) + 1) with (Z.of_nat (2 * i + 2)) by lia.
  unfold childOf. destruct (Z.of_nat (2 * i + 2) <? Z.of_nat n) eqn:E.
  - apply Z.ltb_lt in E. rewrite (Less_key h l (2 * i + 2) (2 * i + 1) HR) by lia. cbn [obind].
    destruct (_ <? _) eqn:E2; [apply Z.ltb_lt in E2; exists (2 * i + 2)%nat|apply Z.ltb_ge in E2; exists (2 * i + 1)%nat];
      (split_and!; [lia|lia| |done]); intros c [->| ->] _; lia.
  - apply Z.ltb_ge in E. exists (2 * i + 1)%nat. split_and!; [lia|lia| |done]. intros c [->| ->] Hc; lia.
Qed.

Lemma down_unfold fuel i n h l :
  R h l -> (2 * i + 1 < n <= length l)%nat ->
  exists j, childOf j i /\ (j < n)%nat /\ (forall c, childOf c i -> (c < n)%nat -> keyAt key l c <= keyAt key l j) /\
    down (S fuel) (Z.of_nat i) (Z.of_nat n) h =
      if keyAt key l i <? keyAt key l j then h' <-! Swap (Z.of_nat i) (Z.of_nat j) h ;; down fuel (Z.of_nat j) (Z.of_nat n) h' else Ok (Z.of_nat i, h).
Proof.
  intros HR Hn. destruct (child_choice h l i n HR Hn) as (j & Hj & Hjn & Hmax & E). exists j. split_and!; [done|done|done|].
  cbn [down]. rewrite (proj2 (Z.leb_gt _ _)), (proj2 (Z.ltb_ge _ _)) by lia. cbn [orb].
  destruct (if _ <? _ then _ else _) as [second| |]; cbn [obind] in *; [|done|done]. injection E as ->.
  rewrite (Less_key h l j i HR) by lia. done.
Qed.

Lemma down_ok fuel i n h l :
  R h l -> (n < fuel + i)%nat -> (i < n <= length l)%nat \/ (i = n) -> (n <= length l)%nat -> heapOver key i n l -> bridged key i n l ->
  exists k h' l', down fuel (Z.of_nat i) (Z.of_nat n) h = Ok (k, h') /\ R h' l' /\ heapOrder key n l' /\ l' ≡ₚ l /\
    (forall x, (n <= x)%nat -> l' !! x = l !! x) /\ Z.of_nat i <= k.
Proof.
  revert i h l. induction fuel as [|fuel IH]; intros i h l HR Hf Hi Hn Ho Hbr; [lia|]. destruct (decide (2 * i + 1 < n)%nat) as [Hc|Hc].
  - destruct (down_unfold fuel i n h l HR ltac:(lia)) as (j & Hj & Hjn & Hmax & ->). destruct (keyAt key l i <? keyAt key l j) eqn:E.
    + apply Z.ltb_lt in E. destruct (law_Swap h l i j HR ltac:(lia) ltac:(lia)) as (h1 & -> & HR1). cbn [obind].
      destruct (down_step key i j n l Hj ltac:(lia) Ho Hbr E Hmax) as [Ho1 Hbr1].
      destruct (IH j h1 (swap i j l) HR1) as (k & h' & l' & -> & HR' & Hh & Hp & Hx & Hk); rewrite ?swap_length; [unfold childOf in Hj; lia|lia|done|done|done|].
      exists k, h', l'. split_and!; [done|done|done|by rewrite Hp, swap_perm| |unfold childOf in Hj; lia]. intros x Hx'. rewrite Hx by done. apply swap_beyond; lia.
    + apply Z.ltb_ge in E. exists (Z.of_nat i), h, l. split_and!; [done|done| |done|done|done]. apply (down_done key i); [done|].
      intros c Hci Hcn. specialize (Hmax c Hci Hcn). lia.
  - exists (Z.of_nat i), h, l. split_and!; [|done| |done|done|done].
    + cbn [down]. rewrite (proj2 (Z.leb_le _ _)) by lia. done.
    + apply (down_done key i); [done|]. intros c Hci Hcn. unfold childOf in Hci. lia.
Qed.

Lemma keyAt_app_l l r i : (i < length l)%nat -> keyAt key (l ++ r) i = keyAt key l i.
Proof. intros Hi. unfold keyAt. by rewrite lookup_app_l. Qed.

Lemma heapOrder_app n l r : (n <= length l)%nat -> heapOrder key n (l ++ r) <-> heapOrder key n l.
Proof.
  intros Hn. split; intros Hh p c Hc Hcn; specialize (Hh p c Hc Hcn); unfold childOf in Hc; rewrite ?keyAt_app_l in * by lia; done.
Qed.

Lemma heapPush_ok h l a :
  R h l -> heapOrder key (length l) l -> item a ->
  exists h' l', heapPush a h = Ok h' /\ R h' l' /\ l' ≡ₚ a :: l /\ heapOrder key (length l') l'.
Proof.
  intros HR Hh Ha. unfold heapPush. destruct (law_Push h l a HR Ha) as (h1 & -> & HR1). cbn [obind]. rewrite (law_Len h1 _ HR1), length_app. simpl length.
  replace (Z.of_nat (length l + 1) - 1) with (Z.of_nat (length l)) by lia. rewrite Nat2Z.id.
  destruct (up_ok (length l + 1) (length l) (length l + 1) h1 (l ++ [a]) HR1) as (h' & l' & -> & HR' & Hp & Ho & _); rewrite ?length_app; simpl; [lia|lia| | |].
  - intros p c Hc Hcn Hne. unfold childOf in Hc. rewrite !keyAt_app_l by lia. apply Hh; [done|lia].
  - intros q c Hq Hc Hcn. unfold childOf in *. lia.
  - exists h', l'. split_and!; [done|done|by rewrite Hp, Permutation_app_comm|]. by rewrite (Permutation_length Hp), length_app.
Qed.

(** The last element, with the order on the rest. *)
Lemma popLast h l a n :
  R h l -> length l = S n -> l !! n = Some a -> heapOrder key n l ->
  exists h' l', PopTop h = Ok (Some a, h') /\ R h' l' /\ a :: l' ≡ₚ l /\ heapOrder key (length l') l'.
Proof.
  intros HR Hl Ha Ho. assert (l = take n l ++ [a]) as E. { rewrite <- (take_S_r l n a Ha). symmetry. apply take_ge. lia. }
  rewrite E in HR. destruct (law_Pop h _ a HR) as (h' & -> & HR'). exists h', (take n l).
  assert (length (take n l) = n) as Hl' by (rewrite length_take; lia). split_and!; [done|done| |].
  - rewrite E at 2. apply Permutation_cons_append.
  - rewrite Hl'. apply (heapOrder_app n (take n l) [a]); [lia|]. by rewrite <- E.
Qed.

Lemma heapPop_ok h l :
  R h l -> heapOrder key (length l) l -> l <> [] ->
  exists a h' l', heapPop h = Ok (Some a, h') /\ R h' l' /\ a :: l' ≡ₚ l /\ heapOrder key (length l') l' /\ forall b, b ∈ l -> key b <= key a.
Proof.
  intros HR Hh Hl. destruct (length l) as [|n] eqn:Hlen; [by destruct l|]. destruct (lookup_lt_is_Some_2 l 0) as [a Ha]; [lia|].
  destruct (lookup_lt_is_Some_2 l n) as [b Hb]; [lia|]. unfold heapPop. rewrite (law_Len h l HR), Hlen.
  replace (Z.of_nat (S n) - 1) with (Z.of_nat n) by lia. rewrite Nat2Z.id.
  destruct (law_Swap h l 0 n HR ltac:(lia) ltac:(lia)) as (h1 & Es & HR1). change (Z.of_nat 0) with 0 in Es. rewrite Es. cbn [obind].
  destruct (down_ok (S n) 0 n h1 (swap 0 n l) HR1) as (k & h2 & l2 & Ed & HR2 & Ho & Hp & Hx & _); rewrite ?swap_length; [lia|lia|lia| | |].
  - intros p c Hc Hcn Hp0. rewrite !swap_key by lia. unfold childOf in Hc. repeat (rewrite decide_False by lia). apply Hh; [done|lia].
  - intros q c Hq. unfold childOf in Hq. lia.
  - change (Z.of_nat 0) with 0 in Ed. rewrite Ed. cbn [obind snd].
    destruct (popLast h2 l2 a n HR2) as (h' & l' & -> & HR' & Hp' & Ho'); [by rewrite (Permutation_length Hp), swap_length| |done|].
    { rewrite Hx by lia. unfold swap. rewrite Ha, Hb. apply list_lookup_insert_eq. rewrite length_insert. lia. }
    exists a, h', l'. split_and!; [done|done|by rewrite Hp', Hp, swap_perm|done|].
    intros x [i Hi]%list_elem_of_lookup. pose proof (heap_root key (S n) l i Hh) as Hr. unfold keyAt in Hr. rewrite Hi, Ha in Hr. apply Hr.
    apply lookup_lt_Some in Hi. lia.
Qed.

(** Moving an element to its place, wherever that is. *)
Lemma fix_ok i n h l :
  R h l -> (i < n)%nat -> (n < length l)%nat -> heapAround key i n l -> bridged key i n l ->
  exists h' l', (h2 <-! down (S n) (Z.of_nat i) (Z.of_nat n) h ;; if Z.of_nat i <? h2.1 then Ok h2.2 else up (S i) (Z.of_nat i) h2.2) = Ok h' /\
    R h' l' /\ heapOrder key n l' /\ l' ≡ₚ l /\ forall x, (n <= x)%nat -> l' !! x = l !! x.
Proof.
  intros HR Hi Hn Ho Hbr.
  assert (heapBut key i n l -> exists h' l', up (S i) (Z.of_nat i) h = Ok h' /\ R h' l' /\ heapOrder key n l' /\ l' ≡ₚ l /\
    forall x, (n <= x)%nat -> l' !! x = l !! x) as Hup.
  { intros Hb. destruct (up_ok (S i) i n h l HR) as (h' & l' & -> & HR' & Hp & Ho' & Hx); [lia|lia|done|done|]. by exists h', l'. }
  destruct (decide (2 * i + 1 < n)%nat) as [Hc|Hc].
  - destruct (down_unfold n i n h l HR ltac:(lia)) as (j & Hj & Hjn & Hmax & ->). destruct (keyAt key l i <? keyAt key l j) eqn:E.
    + apply Z.ltb_lt in E. destruct (law_Swap h l i j HR ltac:(lia) ltac:(lia)) as (h1 & -> & HR1). cbn [obind].
      destruct (around_step key i j n l Hj ltac:(lia) Ho Hbr E Hmax) as [Ho1 Hbr1].
      destruct (down_ok n j n h1 (swap i j l) HR1) as (k & h' & l' & -> & HR' & Hh & Hp & Hx & Hk); rewrite ?swap_length; [unfold childOf in Hj; lia|lia|lia|done|done|].
      cbn [obind fst snd]. rewrite (proj2 (Z.ltb_lt _ _)) by (unfold childOf in Hj; lia).
      exists h', l'. split_and!; [done|done|done|by rewrite Hp, swap_perm|]. intros x Hx'. rewrite Hx by done. apply swap_beyond; lia.
    + apply Z.ltb_ge in E. cbn [obind fst snd]. rewrite Z.ltb_irrefl. apply Hup, around_done; [done|].
      intros c Hci Hcn. specialize (Hmax c Hci Hcn). lia.
  - cbn [down]. rewrite (proj2 (Z.leb_le _ _)) by lia. cbn [orb obind fst snd]. rewrite Z.ltb_irrefl. apply Hup, around_done; [done|].
    intros c Hci Hcn. unfold childOf in Hci. lia.
Qed.

Lemma heapRemove_ok h l i a :
  R h l -> heapOrder key (length l) l -> l !! i = Some a ->
  exists h' l', heapRemove (Z.of_nat i) h = Ok (Some a, h') /\ R h' l' /\ a :: l' ≡ₚ l /\ heapOrder key (length l') l'.
Proof.
  intros HR Hh Ha. apply lookup_lt_Some in Ha as Hi. destruct (length l) as [|n] eqn:Hlen; [lia|].
  unfold heapRemove. rewrite (law_Len h l HR), Hlen. replace (Z.of_nat (S n) - 1) with (Z.of_nat n) by lia. rewrite !Nat2Z.id.
  destruct (Z.eqb_spec (Z.of_nat n) (Z.of_nat i)) as [E|E].
  { assert (n = i) as <- by lia. cbn [obind]. apply (popLast h l a n HR Hlen Ha). intros p c Hc Hcn. apply Hh; [done|lia]. }
  destruct (lookup_lt_is_Some_2 l n) as [b Hb]; [lia|].
  destruct (law_Swap h l i n HR ltac:(lia) ltac:(lia)) as (h1 & -> & HR1). cbn [obind].
  destruct (fix_ok i n h1 (swap i n l) HR1) as (h2 & l2 & Ef & HR2 & Ho & Hp & Hx); rewrite ?swap_length; [lia|lia| | |].
  - intros p c Hc Hcn Hci Hpi. rewrite !swap_key by lia. unfold childOf in Hc. repeat (rewrite decide_False by lia). apply Hh; [done|lia].
  - intros q c Hq Hc Hcn. rewrite !swap_key by lia. unfold childOf in Hq, Hc. repeat (rewrite decide_False by lia).
    pose proof (Hh i c ltac:(done) ltac:(lia)). pose proof (Hh q i ltac:(done) ltac:(lia)). lia.
  - rewrite Ef. cbn [obind].
    destruct (popLast h2 l2 a n HR2) as (h' & l' & -> & HR' & Hp' & Ho'); [by rewrite (Permutation_length Hp), swap_length| |done|].
    { rewrite Hx by lia. unfold swap. rewrite Ha, Hb. apply list_lookup_insert_eq. rewrite length_insert. lia. }
    exists h', l'. split_and!; [done|done|by rewrite Hp', Hp, swap_perm|done].
Qed.

End lawful.

(** ** The stack in blocks is lawful *)

Lemma concat_lookup {A} (bs : list (list A)) (n : nat) (i : nat) :
  (0 < n)%nat -> Forall (fun b => length b = n) bs -> concat bs !! i = bs !! (i / n)%nat ≫= (.!! (i mod n)%nat).
Proof.
  intros Hn Hb. revert i. induction Hb as [|b bs Hl Hb IH]; intros i; [done|]. simpl. destruct (decide (i < n)%nat) as [Hi|Hi].
  - rewrite lookup_app_l by lia. rewrite Nat.div_small, Nat.mod_small by done. done.
  - rewrite lookup_app_r by lia. rewrite IH, Hl. replace i with ((i - n) + 1 * n)%nat at 3 4 by lia.
    rewrite Nat.div_add, Nat.Div0.mod_add by lia. by rewrite Nat.add_1_r.
Qed.

Lemma concat_alter {A} (bs : list (list A)) (n i : nat) (x : A) :
  (0 < n)%nat -> Forall (fun b => length b = n) bs -> concat (alter (<[(i mod n)%nat := x]>) (i / n)%nat bs) = <[i := x]> (concat bs).
Proof.
  intros Hn Hb. apply list_eq. intros j.
  assert (Forall (fun b => length b = n) (alter (<[(i mod n)%nat := x]>) (i / n)%nat bs)) as Hb'.
  { apply Forall_alter; [done|]. intros b _ <-. by rewrite length_insert. }
  rewrite (concat_lookup _ n) by done. destruct (decide (i = j)) as [<-|Hij].
  - rewrite list_lookup_alter_eq. destruct (bs !! (i / n)%nat) as [b|] eqn:E; simpl.
    + assert (length b = n) as Hlb by (rewrite Forall_lookup in Hb; eauto). rewrite list_lookup_insert_eq by (rewrite Hlb; by apply Nat.mod_upper_bound; lia).
      symmetry. apply list_lookup_insert_eq. apply lookup_lt_is_Some. rewrite (concat_lookup _ n), E by done. simpl. apply lookup_lt_is_Some. rewrite Hlb. apply Nat.mod_upper_bound. lia.
    + symmetry. rewrite list_insert_ge; [|apply lookup_ge_None]; by rewrite (concat_lookup _ n), E.
  - rewrite list_lookup_insert_ne by done. rewrite (concat_lookup bs n) by done. destruct (decide (i / n = j / n)%nat) as [E|E].
    + rewrite <- E, list_lookup_alter_eq. destruct (bs !! (i / n)%nat); [|done]. simpl. rewrite list_lookup_insert_ne; [done|].
      intros E2. apply Hij. rewrite (Nat.div_mod_eq i n), (Nat.div_mod_eq j n). lia.
    + by rewrite list_lookup_alter_ne.
Qed.

Lemma blockSize_pos : 0 < blockSize.
Proof. done. Qed.
#[local] Opaque blockSize.

Section stack.
Context {V : Type} (lo : Z).
Implicit Types (s : sstack V) (l : list (Item V)) (i j : nat).

(** Priorities are less than half the range apart. *)
Definition near (x : Item V) : Prop := lo <= it_Priority x < lo + 2 ^ 63.

Definition fullBlocks s : Prop := Forall (fun b => length b = Z.to_nat blockSize) (ss_blocks s).

Record stands s l : Prop := {
  st_blocks : fullBlocks s;
  st_capacity : ss_capacity s = Z.of_nat (length (ss_blocks s)) * blockSize;
  st_size : ss_size s = Z.of_nat (length l);
  st_items i x : l !! i = Some x -> concat (ss_blocks s) !! i = Some (Some x);
  st_rest i x : concat (ss_blocks s) !! i = Some (Some x) -> (i < length l)%nat;
  st_top : ss_active s * blockSize + ss_offset s = ss_size s;
  st_offset : 0 <= ss_offset s <= blockSize;
  st_active : 0 <= ss_active s < Z.of_nat (length (ss_blocks s));
  st_near : Forall near l;
}.

Lemma slot_index s (b o : Z) :
  fullBlocks s -> 0 <= b -> 0 <= o < blockSize ->
  slot s b o = match concat (ss_blocks s) !! Z.to_nat (b * blockSize + o) with Some x => Ok x | None => outOfRange end.
Proof.
  intros Hb H0 Ho. pose proof blockSize_pos. unfold slot. rewrite (proj2 (Z.ltb_ge b 0)), (proj2 (Z.ltb_ge o 0)) by lia. cbn [orb].
  rewrite (concat_lookup _ (Z.to_nat blockSize)) by (done || lia).
  rewrite <- Z2Nat.inj_div, <- Z2Nat.inj_mod, Z.div_add_l, (Z.div_small o), Z.add_0_r, Z.add_comm, Z_mod_plus_full, Z.mod_small by nia.
  by destruct (ss_blocks s !! Z.to_nat b).
Qed.

Lemma setSlot_index s (b o : Z) (x y : option (Item V)) :
  fullBlocks s -> 0 <= b -> 0 <= o < blockSize -> concat (ss_blocks s) !! Z.to_nat (b * blockSize + o) = Some y ->
  exists bs, setSlot b o x s = Ok (mkStack (ss_size s) (ss_capacity s) (ss_offset s) bs (ss_active s)) /\
    concat bs = <[Z.to_nat (b * blockSize + o) := x]> (concat (ss_blocks s)) /\ length bs = length (ss_blocks s) /\
    Forall (fun b => length b = Z.to_nat blockSize) bs.
Proof.
  intros Hb H0 Ho Hy. pose proof blockSize_pos. unfold setSlot. rewrite slot_index, Hy by done. cbn [obind]. eexists. split_and!; [done| | |].
  - rewrite <- (concat_alter _ (Z.to_nat blockSize)) by (done || lia).
    rewrite <- Z2Nat.inj_div, <- Z2Nat.inj_mod, Z.div_add_l, (Z.div_small o), Z.add_0_r, Z.add_comm, Z_mod_plus_full, Z.mod_small by nia. done.
  - apply length_alter.
  - apply Forall_alter; [done|]. intros b0 _ Hl. by rewrite length_insert.
Qed.

Lemma quot_index i : Z.quot (Z.of_nat i) blockSize * blockSize + Z.rem (Z.of_nat i) blockSize = Z.of_nat i /\
  0 <= Z.quot (Z.of_nat i) blockSize /\ 0 <= Z.rem (Z.of_nat i) blockSize < blockSize.
Proof.
  pose proof blockSize_pos. pose proof (Z.quot_rem' (Z.of_nat i) blockSize). pose proof (Z.rem_bound_pos (Z.of_nat i) blockSize).
  pose proof (Z.quot_pos (Z.of_nat i) blockSize). lia.
Qed.

Lemma slot_item s l i x : stands s l -> l !! i = Some x -> slot s (Z.quot (Z.of_nat i) blockSize) (Z.rem (Z.of_nat i) blockSize) = Ok (Some x).
Proof.
  intros Hs Hi. destruct (quot_index i) as (E & ? & ?). rewrite slot_index by (done || apply Hs). rewrite E, Nat2Z.id.
  by rewrite (st_items _ _ Hs i x Hi).
Qed.

Lemma int64_near (p q : Z) : lo <= p < lo + 2 ^ 63 -> lo <= q < lo + 2 ^ 63 -> (0 <? int64 (p - q)) = (q <? p).
Proof.
  intros Hp Hq. unfold int64. rewrite Z.mod_small by lia. destruct (q <? p) eqn:E; [apply Z.ltb_lt in E; apply Z.ltb_lt|apply Z.ltb_ge in E; apply Z.ltb_ge]; lia.
Qed.

Lemma concat_length s : fullBlocks s -> Z.of_nat (length (concat (ss_blocks s))) = Z.of_nat (length (ss_blocks s)) * blockSize.
Proof.
  pose proof blockSize_pos. unfold fullBlocks. induction 1 as [|b bs Hb _ IH]; [done|]. cbn [concat]. rewrite length_app, Hb. simpl length. lia.
Qed.

Lemma Swap_ok s l i j :
  stands s l -> (i < length l)%nat -> (j < length l)%nat -> exists s', sstack_Swap (Z.of_nat i) (Z.of_nat j) s = Ok s' /\ stands s' (swap i j l).
Proof.
  intros Hs [a Ha]%lookup_lt_is_Some_2 [b Hb]%lookup_lt_is_Some_2. unfold sstack_Swap.
  rewrite (slot_item s l j b), (slot_item s l i a) by done. cbn [obind]. destruct (quot_index i) as (Ei & ? & ?), (quot_index j) as (Ej & ? & ?).
  pose proof (st_items _ _ Hs i a Ha) as Hci. pose proof (st_items _ _ Hs j b Hb) as Hcj.
  destruct (setSlot_index s _ _ (Some b) (Some a) (st_blocks _ _ Hs) H H0) as (bs1 & -> & Hc1 & Hl1 & Hf1); [by rewrite Ei, Nat2Z.id|].
  cbn [obind]. rewrite Ei, Nat2Z.id in Hc1. set (s1 := mkStack _ _ _ bs1 _).
  assert (is_Some (concat bs1 !! j)) as [y Hy].
  { apply lookup_lt_is_Some. rewrite Hc1, length_insert. by eapply lookup_lt_Some. }
  destruct (setSlot_index s1 (Z.quot (Z.of_nat j) blockSize) (Z.rem (Z.of_nat j) blockSize) (Some a) y) as (bs2 & -> & Hc2 & Hl2 & Hf2);
    [done|done|done|by rewrite Ej, Nat2Z.id|]. cbn [ss_blocks s1] in Hc2, Hl2. rewrite Ej, Nat2Z.id, Hc1 in Hc2.
  eexists. split; [done|]. pose proof Hs as [Hbl Hcap Hsz Hit Hrest Htop Hoff Hact Hnear]. unfold swap. rewrite Ha, Hb.
  constructor; cbn [ss_size ss_capacity ss_offset ss_blocks ss_active s1]; rewrite ?Hl2, ?Hl1; try done.
  - by rewrite !length_insert.
  - intros k x Hk. rewrite Hc2. apply list_lookup_insert_Some in Hk as [(<- & <- & _)|(Hjk & Hk)].
    + apply list_lookup_insert_eq. rewrite length_insert. by eapply lookup_lt_Some.
    + rewrite list_lookup_insert_ne by done. apply list_lookup_insert_Some in Hk as [(<- & <- & _)|(Hik & Hk)].
      * apply list_lookup_insert_eq. by eapply lookup_lt_Some.
      * rewrite list_lookup_insert_ne by done. by apply Hit.
  - intros k x. rewrite Hc2, !length_insert. apply lookup_lt_Some in Ha, Hb.
    intros [(<- & _)|(_ & [(<- & _)|(_ & Hk)]%list_lookup_insert_Some)]%list_lookup_insert_Some; [done|done|by eapply Hrest].
  - rewrite Forall_lookup in Hnear. apply Forall_insert; [apply Forall_insert|]; rewrite ?Forall_lookup; eauto.
Qed.

Lemma Push_setSlot s l x :
  stands s l -> near x -> ss_offset s < blockSize -> exists s',
    (s2 <-! setSlot (ss_active s) (ss_offset s) (Some x) s ;;
     Ok (mkStack (ss_size s2 + 1) (ss_capacity s2) (ss_offset s2 + 1) (ss_blocks s2) (ss_active s2))) = Ok s' /\ stands s' (l ++ [x]).
Proof.
  intros Hs Hx Ho. pose proof Hs as [Hbl Hcap Hsz Hit Hrest Htop Hoff Hact Hnear]. pose proof (concat_length s Hbl) as Hcl. pose proof blockSize_pos.
  assert (is_Some (concat (ss_blocks s) !! Z.to_nat (ss_active s * blockSize + ss_offset s))) as [y Hy] by (apply lookup_lt_is_Some; nia).
  destruct (setSlot_index s (ss_active s) (ss_offset s) (Some x) y Hbl ltac:(lia) ltac:(lia) Hy) as (bs & -> & Hc & Hl & Hf). cbn [obind].
  eexists. split; [done|]. rewrite Htop, Hsz, Nat2Z.id in Hc. rewrite Htop, Hsz, Nat2Z.id in Hy.
  constructor; cbn [ss_size ss_capacity ss_offset ss_blocks ss_active]; rewrite ?Hl; try done; try lia.
  - rewrite length_app. simpl. lia.
  - intros i z Hi. rewrite Hc. apply lookup_app_Some in Hi as [Hi|[Hge Hi]].
    + rewrite list_lookup_insert_ne; [by apply Hit|]. apply lookup_lt_Some in Hi. lia.
    + apply list_lookup_singleton_Some in Hi as [Hi <-]. replace i with (length l) by lia. apply list_lookup_insert_eq. by eapply lookup_lt_Some.
  - intros i z. rewrite Hc, length_app. simpl. intros [(<- & _)|(_ & Hi%Hrest)]%list_lookup_insert_Some; lia.
  - apply Forall_app. by split; [|constructor].
Qed.

Lemma emptyBlock_length : length (emptyBlock (V := V)) = Z.to_nat blockSize.
Proof. apply length_replicate. Qed.

Lemma Push_ok s l x : stands s l -> near x -> exists s', sstack_Push x s = Ok s' /\ stands s' (l ++ [x]).
Proof.
  intros Hs Hx. pose proof Hs as [Hbl Hcap Hsz Hit Hrest Htop Hoff Hact Hnear]. pose proof blockSize_pos. unfold sstack_Push.
  destruct (ss_size s =? ss_capacity s) eqn:E1; [|destruct (ss_offset s =? blockSize) eqn:E2].
  - apply Z.eqb_eq in E1. cbn [obind]. refine (Push_setSlot (mkStack _ _ _ _ _) l x _ Hx _); [|done].
    constructor; cbn [ss_size ss_capacity ss_offset ss_blocks ss_active]; rewrite ?length_app; simpl length; try done; try lia.
    + apply Forall_app. split; [done|]. constructor; [apply emptyBlock_length|constructor].
    + intros i z Hi. rewrite concat_app. apply lookup_app_l_Some. by apply Hit.
    + intros i z. rewrite concat_app. intros [Hi|[_ Hi]]%lookup_app_Some; [by eapply Hrest|]. cbn [concat] in Hi. rewrite app_nil_r in Hi.
      by apply lookup_replicate in Hi as [? _].
  - apply Z.eqb_neq in E1. apply Z.eqb_eq in E2.
    assert (Z.quot (ss_size s) blockSize = ss_active s + 1) as Eq.
    { rewrite Z.quot_div_nonneg by lia. rewrite <- Htop, E2. replace (ss_active s * blockSize + blockSize) with ((ss_active s + 1) * blockSize) by lia.
      apply Z.div_mul. lia. }
    rewrite Eq, (proj2 (Z.ltb_lt _ _)) by nia. cbn [obind]. refine (Push_setSlot (mkStack _ _ _ _ _) l x _ Hx _); [|done].
    constructor; cbn [ss_size ss_capacity ss_offset ss_blocks ss_active]; try done; try lia. nia.
  - apply Z.eqb_neq in E2. cbn [obind]. apply Push_setSlot; [done|done|lia].
Qed.

Lemma Pop_ok s l x : stands s (l ++ [x]) -> exists s', sstack_Pop s = Ok (Some x, s') /\ stands s' l.
Proof.
  intros Hs. pose proof Hs as [Hbl Hcap Hsz Hit Hrest Htop Hoff Hact Hnear]. pose proof blockSize_pos. rewrite length_app in Hsz. simpl in Hsz.
  assert (exists o a, 0 <= o < blockSize /\ 0 <= a < Z.of_nat (length (ss_blocks s)) /\ a * blockSize + o = ss_size s - 1 /\
    sstack_Pop s = (let s1 := mkStack (ss_size s - 1) (ss_capacity s) o (ss_blocks s) a in
                    res <-! slot s1 a o ;; s2 <-! setSlot a o None s1 ;; Ok (res, s2))) as (o & a & Ho & Ha & E & ->).
  { unfold sstack_Pop. destruct (ss_offset s - 1 <? 0) eqn:Eo.
    - apply Z.ltb_lt in Eo. assert (ss_offset s = 0) as E0 by lia.
      assert (Z.quot (ss_size s - 1) blockSize = ss_active s - 1) as Eq.
      { rewrite Z.quot_div_nonneg by lia. rewrite <- Htop, E0. replace (ss_active s * blockSize + 0 - 1) with ((ss_active s - 1) * blockSize + (blockSize - 1)) by lia.
        rewrite Z.div_add_l, (Z.div_small (blockSize - 1)) by lia. lia. }
      rewrite Eq, (proj2 (Z.ltb_lt _ _)) by lia. exists (blockSize - 1), (ss_active s - 1). split_and!; try nia. done.
    - apply Z.ltb_ge in Eo. exists (ss_offset s - 1), (ss_active s). split_and!; try lia. done. }
  assert (concat (ss_blocks s) !! Z.to_nat (a * blockSize + o) = Some (Some x)) as Hx.
  { apply Hit. replace (Z.to_nat (a * blockSize + o)) with (length l) by lia. by apply list_lookup_middle. }
  set (s1 := mkStack _ _ _ _ _). cbv zeta. rewrite (slot_index s1) by (done || lia). cbn [ss_blocks s1]. rewrite Hx. cbn [obind].
  destruct (setSlot_index s1 a o None (Some x) Hbl ltac:(lia) Ho Hx) as (bs & -> & Hc & Hl & Hf). cbn [obind]. eexists. split; [done|].
  cbn [ss_blocks s1] in Hc, Hl. constructor; cbn [ss_size ss_capacity ss_offset ss_blocks ss_active s1]; rewrite ?Hl; try done; try lia.
  - intros i z Hi. rewrite Hc, list_lookup_insert_ne; [|apply lookup_lt_Some in Hi; lia]. apply Hit. by apply lookup_app_l_Some.
  - intros i z. rewrite Hc. intros [(_ & [=] & _)|(Hne & Hi%Hrest)]%list_lookup_insert_Some. rewrite length_app in Hi. simpl in Hi. lia.
  - by apply Forall_app in Hnear as [? _].
Qed.

#[global] Instance stack_laws : HeapLaws it_Priority near stands.
Proof.
  constructor.
  - intros h l Hs. apply Hs.
  - intros h l Hs. apply Hs.
  - intros h l i j a b Hs Ha Hb. cbn [Less sstack_Interface]. unfold sstack_Less, priorityAt.
    rewrite (slot_item h l i a), (slot_item h l j b) by done. cbn [obind]. f_equal. pose proof (st_near _ _ Hs) as Hn. rewrite Forall_lookup in Hn.
    apply int64_near; [by apply (Hn i)|by apply (Hn j)].
  - intros h l i j. apply Swap_ok.
  - intros h l a. apply Push_ok.
  - intros h l a. apply Pop_ok.
Qed.

End stack.

(** ** The queue as a bag *)

Section queue.
Context {V : Type} (lo : Z).
Implicit Types (q : Prque V) (b : list (Item V)).

(** The items of the queue, in any order. *)
Definition holds q b : Prop := exists l, stands lo q l /\ heapOrder it_Priority (length l) l /\ l ≡ₚ b.

Lemma holds_new : holds NewPrque [].
Proof.
  pose proof blockSize_pos. exists []. split_and!; [|intros p c _ Hc; simpl in Hc; lia|done].
  constructor; cbn; try done; try lia; [constructor; [apply emptyBlock_length|constructor]|].
  intros i x Hi. rewrite app_nil_r in Hi. by apply lookup_replicate in Hi as [? _].
Qed.

Lemma Push_bag q b v p : holds q b -> near lo (mkItem v p) -> exists q', Push v p q = Ok q' /\ holds q' (mkItem v p :: b).
Proof.
  intros (l & Hs & Hh & Hp) Hn. destruct (heapPush_ok it_Priority (near lo) (stands lo) q l _ Hs Hh Hn) as (q' & l' & E & Hs' & Hp' & Hh').
  exists q'. split; [exact E|]. exists l'. split_and!; [done|done|]. by rewrite Hp', Hp.
Qed.

Lemma Pop_bag q b :
  holds q b -> b <> [] -> exists x q' b', Pop q = Ok ((it_Value x, it_Priority x), q') /\ holds q' b' /\ x :: b' ≡ₚ b /\ forall y, y ∈ b -> it_Priority y <= it_Priority x.
Proof.
  intros (l & Hs & Hh & Hp) Hne. assert (l <> []) as Hl by (intros ->; by apply Hne, Permutation_nil).
  destruct (heapPop_ok it_Priority (near lo) (stands lo) q l Hs Hh Hl) as (x & q' & l' & E & Hs' & Hp' & Hh' & Hmax).
  exists x, q', l'. unfold Pop. change (@heapPop (Prque V) (Item V) _ q) with (@heapPop (sstack V) (Item V) _ q). rewrite E. split_and!; [done|by exists l'|by rewrite Hp', Hp|]. intros y Hy. apply Hmax. by rewrite Hp.
Qed.

Lemma Peek_bag q b :
  holds q b -> b <> [] -> exists x, Peek q = Ok (it_Value x, it_Priority x) /\ x ∈ b /\ forall y, y ∈ b -> it_Priority y <= it_Priority x.
Proof.
  intros (l & Hs & Hh & Hp) Hne. destruct l as [|x l]; [by destruct Hne; apply Permutation_nil|]. exists x. unfold Peek. pose proof blockSize_pos.
  rewrite (slot_index q) by (lia || apply Hs). change (Z.to_nat (0 * blockSize + 0)) with 0%nat. rewrite (st_items _ _ _ Hs 0 x) by done.
  split_and!; [done|rewrite <- Hp; by left|]. intros y Hy. rewrite <- Hp in Hy. apply list_elem_of_lookup in Hy as [i Hi].
  pose proof (heap_root it_Priority _ _ i Hh ltac:(by eapply lookup_lt_Some)) as Hr. unfold keyAt in Hr. by rewrite Hi in Hr.
Qed.

Lemma Size_bag q b : holds q b -> QSize q = Z.of_nat (length b).
Proof. intros (l & Hs & _ & Hp). unfold QSize. by rewrite (st_size _ _ _ Hs), (Permutation_length Hp). Qed.

Lemma Empty_bag q b : holds q b -> Empty q = bool_decide (b = []).
Proof.
  intros Hq. pose proof (Size_bag q b Hq) as Hs. unfold Empty. unfold QSize in Hs. rewrite Hs. destruct b; [done|].
  rewrite bool_decide_eq_false_2 by done. apply Z.eqb_neq. simpl. lia.
Qed.

(** An empty queue has nothing to show. *)
Lemma Peek_empty q : holds q [] -> exists msg, Peek q = Panic msg.
Proof.
  intros (l & Hs & _ & ->%Permutation_nil_r). unfold Peek. pose proof blockSize_pos. rewrite (slot_index q) by (lia || apply Hs).
  change (Z.to_nat (0 * blockSize + 0)) with 0%nat. destruct (concat (ss_blocks q) !! 0%nat) as [[x|]|] eqn:E; [|by eexists..].
  apply (st_rest _ _ _ Hs) in E. simpl in E. lia.
Qed.

Lemma Pop_empty q : holds q [] -> Pop q = Panic "index out of range".
Proof.
  intros (l & Hs & _ & ->%Permutation_nil_r). pose proof blockSize_pos. unfold Pop, heapPop. cbn [Len sstack_Interface Swap].
  rewrite (st_size _ _ _ Hs). unfold sstack_Swap. change (Z.of_nat (length [])  - 1) with (-1).
  assert (Z.rem (-1) blockSize < 0) as Hneg by done. unfold slot at 1. rewrite (proj2 (Z.ltb_lt _ _) Hneg), orb_true_r. done.
Qed.

Lemma Remove_bag q b i :
  holds q b -> i < Z.of_nat (length b) ->
  (i < 0 /\ Remove i q = Ok (None, q)) \/ exists x q' b', Remove i q = Ok (Some x, q') /\ holds q' b' /\ x :: b' ≡ₚ b.
Proof.
  intros (l & Hs & Hh & Hp) Hi. unfold Remove. destruct (Z.ltb_spec i 0) as [|H0]; [by left|right].
  rewrite <- (Permutation_length Hp) in Hi. destruct (lookup_lt_is_Some_2 l (Z.to_nat i)) as [a Ha]; [lia|].
  destruct (heapRemove_ok it_Priority (near lo) (stands lo) q l (Z.to_nat i) a Hs Hh Ha) as (q' & l' & E & Hs' & Hp' & Hh').
  rewrite Z2Nat.id in E by done. exists a, q', l'. split_and!; [exact E|by exists l'|by rewrite Hp', Hp].
Qed.

(** Operations and what a bag answers. *)
Inductive queueOp :=
| OpPush (v : V) (p : Z)
| OpPop
| OpPopItem
| OpPeek
| OpRemove (i : Z)
| OpEmpty
| OpSize.

Inductive queueAnswer :=
| AnsUnit | AnsItem (x : V * Z) | AnsValue (v : V) | AnsRemoved (x : option (Item V)) | AnsBool (e : bool) | AnsSize (n : Z).

Definition runQueue (op : queueOp) q : outcome string (queueAnswer * Prque V) :=
  match op with
  | OpPush v p => q' <-! Push v p q ;; Ok (AnsUnit, q')
  | OpPop => r <-! Pop q ;; Ok (AnsItem r.1, r.2)
  | OpPopItem => r <-! PopItem q ;; Ok (AnsValue r.1, r.2)
  | OpPeek => x <-! Peek q ;; Ok (AnsItem x, q)
  | OpRemove i => r <-! Remove i q ;; Ok (AnsRemoved r.1, r.2)
  | OpEmpty => Ok (AnsBool (Empty q), q)
  | OpSize => Ok (AnsSize (QSize q), q)
  end.

Definition highest (x : Item V) b : Prop := x ∈ b /\ forall y, y ∈ b -> it_Priority y <= it_Priority x.

Inductive bagStep : list (Item V) -> queueOp -> queueAnswer -> list (Item V) -> Prop :=
| bag_push b v p : bagStep b (OpPush v p) AnsUnit (mkItem v p :: b)
| bag_pop b x b' : highest x b -> x :: b' ≡ₚ b -> bagStep b OpPop (AnsItem (it_Value x, it_Priority x)) b'
| bag_pop_item b x b' : highest x b -> x :: b' ≡ₚ b -> bagStep b OpPopItem (AnsValue (it_Value x)) b'
| bag_peek b x : highest x b -> bagStep b OpPeek (AnsItem (it_Value x, it_Priority x)) b
| bag_remove b i x b' : 0 <= i -> x :: b' ≡ₚ b -> bagStep b (OpRemove i) (AnsRemoved (Some x)) b'
| bag_remove_none b i : i < 0 -> bagStep b (OpRemove i) (AnsRemoved None) b
| bag_empty b : bagStep b OpEmpty (AnsBool (bool_decide (b = []))) b
| bag_size b : bagStep b OpSize (AnsSize (Z.of_nat (length b))) b.

(** Priorities pushed are in the window, and indices removed below the size. *)
Definition askable b (op : queueOp) : Prop :=
  match op with OpPush v p => near lo (mkItem v p) | OpRemove i => i < Z.of_nat (length b) | _ => True end.

(** The operations that need an item. *)
Definition takesTop (op : queueOp) : bool := match op with OpPop | OpPopItem | OpPeek => true | _ => false end.

(** C31: the queue behaves as a bag of items whose priorities lie in one window of
    2^63 values: whatever was done before, pushing adds the item, popping takes out an
    item of the highest priority and peeking shows one, removing at an index below the
    size takes out one item, and nothing else is lost, added or changed, also when the
    stack grows into a new block or shrinks out of one.  Popping from and peeking into
    an empty queue panic, and no other operation does. *)
Theorem prque_refines_bag q b op :
  holds q b -> askable b op ->
  match runQueue op q with
  | Ok (ans, q') => exists b', bagStep b op ans b' /\ holds q' b'
  | Err _ => False
  | Panic _ => b = [] /\ takesTop op = true
  end.
Proof.
  intros Hq Ha. destruct op as [v p| | | |i| |]; simpl in *.
  - destruct (Push_bag q b v p Hq Ha) as (q' & -> & Hq'). eexists. split; [constructor|done].
  - destruct (decide (b = [])) as [->|Hb]; [by rewrite (Pop_empty q Hq)|].
    destruct (Pop_bag q b Hq Hb) as (x & q' & b' & -> & Hq' & Hp & Hmax). exists b'. split; [|done].
    constructor; [|done]. split; [rewrite <- Hp; by left|done].
  - unfold PopItem. destruct (decide (b = [])) as [->|Hb]; [by rewrite (Pop_empty q Hq)|].
    destruct (Pop_bag q b Hq Hb) as (x & q' & b' & -> & Hq' & Hp & Hmax). exists b'. split; [|done].
    constructor; [|done]. split; [rewrite <- Hp; by left|done].
  - destruct (decide (b = [])) as [->|Hb]; [by destruct (Peek_empty q Hq) as [msg ->]|].
    destruct (Peek_bag q b Hq Hb) as (x & -> & Hx & Hmax). exists b. by split; [constructor|].
  - destruct (Remove_bag q b i Hq Ha) as [[Hi ->]|(x & q' & b' & E & Hq' & Hp)]; [exists b; by split; [constructor|]|].
    rewrite E. exists b'. split; [|done]. constructor; [|done]. destruct (Z.ltb_spec i 0); [|done].
    unfold Remove in E. by rewrite (proj2 (Z.ltb_lt _ _)) in E by done.
  - exists b. rewrite (Empty_bag q b Hq). by split; [constructor|].
  - exists b. rewrite (Size_bag q b Hq). by split; [constructor|].
Qed.

(** Emptying the queue. *)
Fixpoint popAll (fuel : nat) q : outcome string (list (V * Z) * Prque V) :=
  if Empty q then Ok ([], q)
  else match fuel with
       | O => Err "out of fuel"
       | S fuel' => r <-! Pop q ;; rest <-! popAll fuel' r.2 ;; Ok (r.1 :: rest.1, rest.2)
       end.

Definition pairOf (x : Item V) : V * Z := (it_Value x, it_Priority x).

Lemma popAll_sorts q b fuel :
  holds q b -> (length b <= fuel)%nat ->
  exists xs q', popAll fuel q = Ok (pairOf <$> xs, q') /\ holds q' [] /\ xs ≡ₚ b /\ StronglySorted (fun x y => it_Priority y <= it_Priority x) xs.
Proof.
  revert q b. induction fuel as [|fuel IH]; intros q b Hq Hf.
  - destruct b; [|simpl in Hf; lia]. exists [], q. simpl. rewrite (Empty_bag q [] Hq). split_and!; [done|done|done|constructor].
  - cbn [popAll]. rewrite (Empty_bag q b Hq). destruct (decide (b = [])) as [->|Hne].
    + exists [], q. split_and!; [done|done|done|constructor].
    + rewrite bool_decide_eq_false_2 by done. destruct (Pop_bag q b Hq Hne) as (x & q1 & b1 & -> & Hq1 & Hp & Hmax). cbn [obind fst snd].
      destruct (IH q1 b1 Hq1) as (xs & q' & -> & Hq' & Hxs & Hsort).
      { apply Permutation_length in Hp. simpl in Hp. lia. }
      cbn [obind fst snd]. exists (x :: xs), q'. split_and!; [done|done|by rewrite Hxs|]. constructor; [done|].
      apply Forall_forall. intros y Hy. apply Hmax. rewrite <- Hp. right. by rewrite <- Hxs.
Qed.

End queue.

Arguments queueOp : clear implicits.
Arguments queueAnswer : clear implicits.

(** Two blocks are pushed, the highest is popped. *)
Definition sampleQueue : outcome string (Prque Hash) :=
  q <-! Push zeroB32 5 NewPrque ;; Push (BigToAddress 1) 9 q.

Lemma sampleQueue_holds : match sampleQueue with Ok q => holds 0 q [mkItem (BigToAddress 1) 9; mkItem zeroB32 5] | _ => False end.
Proof.
  unfold sampleQueue. destruct (Push_bag 0 NewPrque [] zeroB32 5 (holds_new 0)) as (q & -> & Hq); [by split|]. cbn [obind].
  by destruct (Push_bag 0 q _ (BigToAddress 1) 9 Hq) as (q' & -> & Hq'); [split|].
Qed.

Lemma prque_refines_bag_witness :
  match sampleQueue with
  | Ok q => exists ans q' b', runQueue OpPop q = Ok (ans, q') /\ bagStep [mkItem (BigToAddress 1) 9; mkItem zeroB32 5] OpPop ans b' /\ holds 0 q' b'
  | _ => False
  end.
Proof.
  pose proof sampleQueue_holds as Hs. destruct sampleQueue as [q| |]; [|exact Hs|exact Hs].
  pose proof (prque_refines_bag 0 q _ OpPop Hs I) as Hr. destruct (runQueue OpPop q) as [[ans q']|e|msg]; [|destruct Hr|destruct Hr as [[=] _]].
  destruct Hr as (b' & H1 & H2). exists ans, q', b'. split; [reflexivity|]. split; [exact H1|exact H2].
Defined.
