(* ===== verification/TxCodec.v ===== *)
(** * TxCodec: the stored body of a block

    [src/core/tx_codec.go]: a version, the number of transactions, their lengths and
    their encodings, with the counts in 16 bits.  A transaction is encoded by msgpack,
    the class [Codec]. *)
From S2P Require Import Prelude Bytes Types.
Local Open Scope Z_scope.
Local Open Scope zv_scope.

Definition codecVersion : Z := 1.

(** [io.ReadFull] *)
Definition ReadFull (n : nat) (data : bytes) : outcome string (bytes * bytes) :=
  if (length data <? n)%nat then Err "unexpected EOF" else Ok (take n data, drop n data).

Section codec.
Context {RawTransaction : Type} `{Codec RawTransaction}.
Implicit Types (tx : RawTransaction) (txs : list RawTransaction) (data : bytes).

Definition marshalTx tx : outcome string bytes := match Marshal tx with Some b => Ok b | None => Err "msgpack" end.
Definition unmarshalTx data : outcome string RawTransaction := match Unmarshal data with Some tx => Ok tx | None => Err "msgpack" end.

(** The lengths and the data of the transactions. *)
Fixpoint encodeTxs txs : outcome string (bytes * bytes) :=
  match txs with
  | [] => Ok ([], [])
  | tx :: txs' =>
      txBytes <-! marshalTx tx ;;
      r <-! encodeTxs txs' ;;
      Ok (UInt16ToByte (Z.of_nat (length txBytes) mod 2 ^ 16) ++ r.1, txBytes ++ r.2)
  end.

Definition encodeBlockTransactions txs : outcome string bytes :=
  r <-! encodeTxs txs ;;
  Ok (UInt16ToByte codecVersion ++ UInt16ToByte (Z.of_nat (length txs) mod 2 ^ 16) ++ r.1 ++ r.2).

(** [lenBytes[2*i : 2*(i+1)]] *)
Definition lengthAt (i : nat) (lenBytes : bytes) : outcome string Z :=
  if (length lenBytes <? 2 * (i + 1))%nat then Panic "slice bounds out of range"
  else Ok (ByteToUInt16 (take 2 (drop (2 * i) lenBytes))).

(** The version and the lengths, common to both decoders. *)
Definition decodeHead data : outcome string (Z * bytes) :=
  if (length data =? 0)%nat then Err "data is empty"
  else
    v <-! ReadFull 2 data ;;
    if negb (ByteToUInt16 v.1 =? codecVersion) then Err "version error"
    else
      n <-! ReadFull 2 v.2 ;;
      Ok (ByteToUInt16 n.1, n.2).

Fixpoint decodeLoop (k i : nat) (lenBytes data : bytes) : outcome string (list RawTransaction) :=
  match k with
  | O => Ok []
  | S k' =>
      txLen <-! lengthAt i lenBytes ;;
      r <-! ReadFull (Z.to_nat txLen) data ;;
      tx <-! unmarshalTx r.1 ;;
      txs <-! decodeLoop k' (S i) lenBytes r.2 ;;
      Ok (tx :: txs)
  end.

Definition decodeBlockTransactions data : outcome string (list RawTransaction) :=
  h <-! decodeHead data ;;
  let '(txNum, rest) := h in
  if txNum =? 0 then Ok []
  else
    l <-! ReadFull (Z.to_nat ((txNum * 2) mod 2 ^ 16)) rest ;;
    decodeLoop (Z.to_nat txNum) 0 l.1 l.2.

Fixpoint findLoop (idx : Z) (k i : nat) (lenBytes data : bytes) : outcome string RawTransaction :=
  match k with
  | O => Err "tx not found"
  | S k' =>
      txLen <-! lengthAt i lenBytes ;;
      r <-! ReadFull (Z.to_nat txLen) data ;;
      if idx =? Z.of_nat i then unmarshalTx r.1 else findLoop idx k' (S i) lenBytes r.2
  end.

Definition decodeTransaction (idx : Z) data : outcome string RawTransaction :=
  h <-! decodeHead data ;;
  let '(txNum, rest) := h in
  if txNum =? 0 then Err "txNum is zero"
  else
    l <-! ReadFull (Z.to_nat ((txNum * 2) mod 2 ^ 16)) rest ;;
    findLoop idx (Z.to_nat txNum) 0 l.1 l.2.

(** ** What is encoded decodes *)

Context `{!CodecLaws RawTransaction}.

(** Encodings that fit their 16-bit length. *)
Definition fits tx : Prop := exists b, Marshal tx = Some b /\ Z.of_nat (length b) < 2 ^ 16.

Lemma ReadFull_app a b : ReadFull (length a) (a ++ b) = Ok (a, b).
Proof. unfold ReadFull. rewrite (proj2 (Nat.ltb_ge _ _)) by (rewrite length_app; lia). by rewrite take_app_length, drop_app_length. Qed.

Lemma UInt16_length z : length (UInt16ToByte z) = 2%nat.
Proof. apply BigEndian.put_length. Qed.

Lemma ByteToUInt16_put z : 0 <= z < 2 ^ 16 -> ByteToUInt16 (UInt16ToByte z) = z.
Proof. intros Hz. unfold ByteToUInt16, UInt16ToByte. rewrite bytesToNumber_put. by apply Z.mod_small. Qed.

Lemma lengthAt_app l n r : 0 <= n < 2 ^ 16 -> (length l mod 2 = 0)%nat -> lengthAt (length l / 2) (l ++ UInt16ToByte n ++ r) = Ok n.
Proof.
  intros Hn Hl. assert (2 * (length l / 2) = length l)%nat as E by (pose proof (Nat.div_mod_eq (length l) 2); lia). unfold lengthAt.
  destruct (_ <? _)%nat eqn:Hlt; [apply Nat.ltb_lt in Hlt; rewrite !length_app, UInt16_length in Hlt; lia|]. rewrite E, drop_app_length.
  rewrite take_app_le, (take_ge (UInt16ToByte n)) by (by rewrite UInt16_length). by rewrite ByteToUInt16_put.
Qed.

#[local] Opaque UInt16ToByte.

Lemma encodeTxs_fits txs : Forall fits txs -> exists ls bs, encodeTxs txs = Ok (ls, bs) /\ length ls = (2 * length txs)%nat.
Proof.
  induction 1 as [|tx txs (b & Hb & _) _ (ls & bs & IH & Hl)]; [by exists [], []|]. cbn [encodeTxs]. unfold marshalTx. rewrite Hb. cbn [obind]. rewrite IH. cbn [obind fst snd].
  eexists _, _. split; [done|]. rewrite length_app, UInt16_length. cbn [length]. lia.
Qed.

(** Both loops, after the lengths [pre]. *)
Lemma loops_ok txs pre ls bs :
  Forall fits txs -> encodeTxs txs = Ok (ls, bs) -> (length pre mod 2 = 0)%nat ->
  decodeLoop (length txs) (length pre / 2) (pre ++ ls) bs = Ok txs /\
  forall idx, findLoop idx (length txs) (length pre / 2) (pre ++ ls) bs =
    match txs !! Z.to_nat (idx - Z.of_nat (length pre / 2)) with
    | Some tx => if Z.of_nat (length pre / 2) <=? idx then Ok tx else Err "tx not found"
    | None => Err "tx not found"
    end.
Proof.
  intros Hf. revert pre ls bs. induction Hf as [|tx txs (b & Hb & Hlen) Hf IH]; intros pre ls bs E Hp; [done|].
  cbn [encodeTxs] in E. unfold marshalTx in E. rewrite Hb in E. cbn [obind] in E. destruct (encodeTxs_fits txs Hf) as (ls' & bs' & E' & _).
  rewrite E' in E. cbn [obind fst snd] in E. injection E as <- <-. rewrite (Z.mod_small (Z.of_nat (length b))) by lia.
  pose proof (lengthAt_app pre (Z.of_nat (length b)) ls' ltac:(lia) Hp) as Ha.
  assert (length (pre ++ UInt16ToByte (Z.of_nat (length b))) / 2 = S (length pre / 2))%nat as Ed.
  { rewrite length_app, UInt16_length. replace (length pre + 2)%nat with (length pre + 1 * 2)%nat by lia. rewrite Nat.div_add by lia. lia. }
  destruct (IH (pre ++ UInt16ToByte (Z.of_nat (length b))) ls' bs' E') as [IH1 IH2].
  { rewrite length_app, UInt16_length. replace (length pre + 2)%nat with (length pre + 1 * 2)%nat by lia. rewrite Nat.Div0.mod_add. done. }
  rewrite Ed, <- app_assoc in IH1. assert (Z.to_nat (Z.of_nat (length b)) = length b) as El by lia.
  destruct (codec_roundtrip tx b Hb) as [_ Hu]. split.
  - cbn [length decodeLoop]. rewrite Ha. cbn [obind]. rewrite El, ReadFull_app. cbn [obind fst snd]. unfold unmarshalTx. rewrite Hu. cbn [obind]. by rewrite IH1.
  - intros idx. cbn [length findLoop]. rewrite Ha. cbn [obind]. rewrite El, ReadFull_app. cbn [obind fst snd]. specialize (IH2 idx).
    rewrite Ed, <- app_assoc in IH2. destruct (idx =? Z.of_nat (length pre / 2)) eqn:Ei.
    + apply Z.eqb_eq in Ei as ->. rewrite Z.sub_diag, Z.leb_refl. simpl. unfold unmarshalTx. by rewrite Hu.
    + apply Z.eqb_neq in Ei. rewrite IH2. destruct (Z.of_nat (length pre / 2) <=? idx) eqn:El1.
      * apply Z.leb_le in El1. rewrite (proj2 (Z.leb_le _ _)) by lia.
        replace (Z.to_nat (idx - Z.of_nat (length pre / 2))) with (S (Z.to_nat (idx - Z.of_nat (S (length pre / 2))))) by lia. done.
      * apply Z.leb_gt in El1. rewrite (proj2 (Z.leb_gt _ _)) by lia. by destruct (_ !! _), (_ !! _).
Qed.

Lemma decodeHead_ok n rest : 0 <= n < 2 ^ 16 -> decodeHead (UInt16ToByte codecVersion ++ UInt16ToByte n ++ rest) = Ok (n, rest).
Proof.
  intros Hn. unfold decodeHead. rewrite (proj2 (Nat.eqb_neq _ _)) by (rewrite length_app, UInt16_length; lia).
  rewrite <- (UInt16_length codecVersion) at 1. rewrite ReadFull_app. cbn [obind fst snd]. rewrite (ByteToUInt16_put codecVersion) by done. cbn [negb Z.eqb codecVersion Pos.eqb].
  rewrite <- (UInt16_length n) at 1. rewrite ReadFull_app. cbn [obind fst snd]. by rewrite ByteToUInt16_put.
Qed.

(** A body of fewer than 2^15 transactions never makes the decoder panic. *)
Lemma decodeLoop_no_panic k i lens data p : (2 * (i + k) <= length lens)%nat -> decodeLoop k i lens data <> Panic p.
Proof.
  revert i data. induction k as [|k IH]; intros i data Hk; [done|]. cbn [decodeLoop]. unfold lengthAt.
  rewrite (proj2 (Nat.ltb_ge _ _)) by lia. cbn [obind]. unfold ReadFull. destruct (_ <? _)%nat; [done|]. cbn [obind fst snd].
  unfold unmarshalTx. destruct (Unmarshal _); [|done]. cbn [obind]. pose proof (IH (S i) (drop (Z.to_nat (ByteToUInt16 (take 2 (drop (2 * i) lens)))) data) ltac:(lia)) as Hn.
  by destruct (decodeLoop k (S i) lens _).
Qed.

Lemma encodeTxs_length txs ls bs : encodeTxs txs = Ok (ls, bs) -> length ls = (2 * length txs)%nat.
Proof.
  revert ls bs. induction txs as [|tx txs IH]; intros ls bs; [by intros [= <- <-]|]. cbn [encodeTxs].
  intros (b & _ & ([ls' bs'] & E & [= <- <-])%obind_Ok_inv)%obind_Ok_inv. apply IH in E. cbn [fst]. rewrite length_app, UInt16_length. cbn [length]. lia.
Qed.

Lemma body_no_panic txs data p :
  encodeBlockTransactions txs = Ok data -> Z.of_nat (length txs) < 2 ^ 15 -> decodeBlockTransactions data <> Panic p.
Proof.
  intros ([ls bs] & E & [= <-])%obind_Ok_inv Hn. cbn [fst snd]. apply encodeTxs_length in E. unfold decodeBlockTransactions.
  rewrite (Z.mod_small (Z.of_nat (length txs))) by lia. rewrite decodeHead_ok by lia. cbn [obind]. destruct (_ =? 0); [done|].
  rewrite Z.mod_small by lia. replace (Z.to_nat (Z.of_nat (length txs) * 2)) with (length ls) by lia. rewrite ReadFull_app. cbn [obind fst snd].
  apply decodeLoop_no_panic. lia.
Qed.

Lemma encode_no_panic txs p : encodeBlockTransactions txs <> Panic p.
Proof.
  unfold encodeBlockTransactions. assert (forall q, encodeTxs txs <> Panic q) as Hn; [|destruct (encodeTxs txs) as [| |q]; try done; by destruct (Hn q)].
  induction txs as [|tx txs IH]; intros q; [done|]. cbn [encodeTxs]. unfold marshalTx. destruct (Marshal tx); [|done]. cbn [obind].
  destruct (encodeTxs txs) as [| |q']; done.
Qed.

Lemma body_reads_back txs :
  Forall fits txs -> Z.of_nat (length txs) < 2 ^ 15 -> exists data, encodeBlockTransactions txs = Ok data /\ decodeBlockTransactions data = Ok txs.
Proof.
  intros Hf Hn. destruct (encodeTxs_fits txs Hf) as (ls & bs & E & Hl). unfold encodeBlockTransactions. rewrite E. cbn [obind fst snd].
  eexists. split; [done|]. unfold decodeBlockTransactions. rewrite (Z.mod_small (Z.of_nat (length txs))) by lia.
  rewrite decodeHead_ok by lia. cbn [obind]. destruct (Z.of_nat (length txs) =? 0) eqn:E0.
  - apply Z.eqb_eq in E0. by destruct txs.
  - rewrite Z.mod_small by lia. replace (Z.to_nat (Z.of_nat (length txs) * 2)) with (length ls) by lia. rewrite ReadFull_app. cbn [obind fst snd].
    rewrite Nat2Z.id. by destruct (loops_ok txs [] ls bs Hf E eq_refl) as [H1 _].
Qed.

(** C33: the stored body of a block of fewer than 2^15 transactions, each
    shorter than 2^16 bytes encoded, decodes to the transactions in their order, and
    asking for one by its index gives that one, or an error past the last. *)
Theorem block_body_roundtrip txs idx :
  Forall fits txs -> Z.of_nat (length txs) < 2 ^ 15 ->
  exists data, encodeBlockTransactions txs = Ok data /\ decodeBlockTransactions data = Ok txs /\
    match decodeTransaction idx data with Ok tx => 0 <= idx /\ txs !! Z.to_nat idx = Some tx | Err _ => idx < 0 \/ txs !! Z.to_nat idx = None | Panic _ => False end.
Proof.
  intros Hf Hn. destruct (encodeTxs_fits txs Hf) as (ls & bs & E & Hl). unfold encodeBlockTransactions. rewrite E. cbn [obind fst snd].
  eexists. split; [done|]. unfold decodeBlockTransactions, decodeTransaction. rewrite (Z.mod_small (Z.of_nat (length txs))) by lia.
  rewrite decodeHead_ok by lia. cbn [obind]. destruct (Z.of_nat (length txs) =? 0) eqn:E0.
  - apply Z.eqb_eq in E0. destruct txs; [|done]. split; [done|]. by right.
  - rewrite Z.mod_small by lia. replace (Z.to_nat (Z.of_nat (length txs) * 2)) with (length ls) by lia. rewrite ReadFull_app. cbn [obind fst snd].
    rewrite Nat2Z.id. destruct (loops_ok txs [] ls bs Hf E eq_refl) as [H1 H2]. simpl in H1, H2. split; [exact H1|].
    rewrite H2, Z.sub_0_r. change (Z.of_nat 0) with 0. destruct (txs !! Z.to_nat idx) as [tx|]; [|by right]. destruct (0 <=? idx) eqn:Ei; [apply Z.leb_le in Ei; by split|].
    apply Z.leb_gt in Ei. by left.
Qed.

End codec.

(** Transactions of one byte. *)
#[local] Instance byteCodec : Codec Byte.byte := {| Marshal x := Some [x]; Unmarshal b := match b with [x] => Some x | _ => None end |}.
#[local] Instance byteCodecLaws : CodecLaws Byte.byte.
Proof. constructor. intros x bs [= <-]. done. Qed.

Lemma block_body_roundtrip_witness :
  exists data, encodeBlockTransactions [Byte.x07; Byte.x09] = Ok data /\ decodeBlockTransactions data = Ok [Byte.x07; Byte.x09] /\
    match decodeTransaction 1 data with
    | Ok tx => 0 <= 1 /\ [Byte.x07; Byte.x09] !! Z.to_nat 1 = Some tx
    | Err _ => 1 < 0 \/ [Byte.x07; Byte.x09] !! Z.to_nat 1 = None
    | Panic _ => False
    end.
Proof.
  apply (block_body_roundtrip [Byte.x07; Byte.x09] 1); [|done]. repeat constructor; eexists; split; done.
Defined.

(** With 2^15 transactions the room for the lengths wraps around to nothing. *)
Lemma many_txs_panic :
  exists p, decodeBlockTransactions (RawTransaction := Byte.byte) (UInt16ToByte codecVersion ++ UInt16ToByte (2 ^ 15)) = Panic p.
Proof. eexists. vm_compute. reflexivity. Qed.
