(* ===== verification/ChainStore.v ===== *)
(** * ChainStore: blocks on the disk

    The key-value stores of [src/core/blockchain_store.go]: headers by hash, hashes by
    height, bodies by hash, receipts by transaction, and the hash of the current top;
    the batch that writes to all of them at once; and the queries of
    [blockchain_store.go] and [blockchain_reader.go] that read them.

    LevelDB is a finite map whose iterators visit the keys in order: heights are
    stored big-endian, so that is the order of the heights.  Headers are encoded by
    protobuf and receipts by msgpack, instances of the class [Codec]. *)
From Stdlib Require Import Sorting.Sorted.
From stdpp Require Import sorting.
From S2P Require Import Prelude Bytes Types TxHash TxCodec.
Local Open Scope Z_scope.
Local Open Scope zv_scope.

Record Block := mkBlock { b_Header : BlockHeader; b_Transactions : list Transaction }.

Class ChainCodecs := {
  header_codec :: Codec BlockHeader;
  rawTx_codec :: Codec Transaction;
}.
Class ChainCodecLaws `{ChainCodecs} := {
  header_laws :: CodecLaws BlockHeader;
  rawTx_laws :: CodecLaws Transaction;
}.

(** ** The stores and the batch *)

Record chainDB := mkChainDB {
  blocks : gmap Hash bytes;
  blockHeight : gmap Z Hash;
  txDb : gmap Hash bytes;
  receiptDb : gmap Hash bytes;
  blockStatus : option Hash;
}.

Inductive kv :=
| KvHeader (hash : Hash) (v : option bytes)
| KvHeight (height : Z) (v : option Hash)
| KvTxs (hash : Hash) (v : option bytes)
| KvReceipt (hash : Hash) (v : option bytes)
| KvStatus (hash : Hash).

(** [AddKv]: no value deletes the key. *)
Definition put {K V} `{Countable K} (k : K) (v : option V) (m : gmap K V) : gmap K V :=
  match v with Some x => <[k := x]> m | None => base.delete k m end.

Definition apply (w : kv) (d : chainDB) : chainDB :=
  match w with
  | KvHeader h v => mkChainDB (put h v (blocks d)) (blockHeight d) (txDb d) (receiptDb d) (blockStatus d)
  | KvHeight h v => mkChainDB (blocks d) (put h v (blockHeight d)) (txDb d) (receiptDb d) (blockStatus d)
  | KvTxs h v => mkChainDB (blocks d) (blockHeight d) (put h v (txDb d)) (receiptDb d) (blockStatus d)
  | KvReceipt h v => mkChainDB (blocks d) (blockHeight d) (txDb d) (put h v (receiptDb d)) (blockStatus d)
  | KvStatus h => mkChainDB (blocks d) (blockHeight d) (txDb d) (receiptDb d) (Some h)
  end.

(** [batch.Write] *)
Definition writeKvs (ws : list kv) (d : chainDB) : chainDB := fold_left (fun d w => apply w d) ws d.

(** ** Iterating over the heights *)

Definition byHeight (x y : Z * Hash) : Prop := x.1 <= y.1.
#[local] Instance byHeight_dec x y : Decision (byHeight x y) := Z_le_dec x.1 y.1.

Definition ordered (d : chainDB) : list (Z * Hash) := merge_sort byHeight (map_to_list (blockHeight d)).

(** [iter.Seek]: what the iterator has from there on, and what is before it. *)
Definition seek (height : Z) (d : chainDB) : list (Z * Hash) := filter (fun kv => height <= kv.1) (ordered d).
Definition before (height : Z) (d : chainDB) : list (Z * Hash) := filter (fun kv => kv.1 < height) (ordered d).

Section queries.
Context `{ChainCodecs}.
Implicit Type d : chainDB.

Definition hasBlock d (hash : Hash) : bool := bool_decide (is_Some (blocks d !! hash)).
Definition hasHeight d (h : Z) : bool := bool_decide (is_Some (blockHeight d !! h)).

Definition queryBlockHash d (height : Z) : option Hash := blockHeight d !! height.

Definition queryBlockHeaderByHash d (hash : Hash) : option BlockHeader := blocks d !! hash ≫= Unmarshal.

Definition queryBlockHeaderByHeight d (height : Z) : option BlockHeader :=
  queryBlockHash d height ≫= queryBlockHeaderByHash d.

Definition queryBlockHashCeil d (height : Z) : option Hash := snd <$> head (seek height d).

Definition queryBlockHeaderCeil d (height : Z) : option BlockHeader :=
  queryBlockHashCeil d height ≫= queryBlockHeaderByHash d.

Definition queryBlockHeaderByHeightFloor d (height : Z) : option BlockHeader :=
  let prev := last (before height d) ≫= (fun kv => queryBlockHeaderByHash d kv.2) in
  match head (seek height d) with
  | Some (realHeight, hash) =>
      if realHeight =? height then
        bh ← queryBlockHeaderByHash d hash;
        if bh_Height bh =? height then Some bh else None
      else prev
  | None => prev
  end.

(** Nil and no transactions are the same to the callers; the decoder may panic. *)
Definition queryBlockTransactionsAll d (hash : Hash) : outcome string (list Transaction) :=
  match txDb d !! hash with
  | Some bs => match decodeBlockTransactions bs with Err _ => Ok [] | o => o end
  | None => Ok []
  end.

Definition queryBlockByHash d (hash : Hash) : outcome string (option Block) :=
  match queryBlockHeaderByHash d hash with
  | Some bh => txs <-! queryBlockTransactionsAll d hash ;; Ok (Some (mkBlock bh txs))
  | None => Ok None
  end.

Definition queryBlockTransactionsOptional d (txIdx height : Z) : outcome string (option Transaction) :=
  match (bh ← queryBlockHeaderByHeight d height; txDb d !! bh_Hash bh) with
  | Some bs => match decodeTransaction txIdx bs with Ok tx => Ok (Some tx) | Err _ => Ok None | Panic p => Panic p end
  | None => Ok None
  end.

(** The loops stop at a block that cannot be read. *)
Fixpoint collect {A} (read : Hash -> option A) (kvs : list (Z * Hash)) : list A :=
  match kvs with
  | [] => []
  | kv :: kvs' => match read kv.2 with Some b => b :: collect read kvs' | None => [] end
  end.

Fixpoint collectBlocks d (kvs : list (Z * Hash)) : outcome string (list Block) :=
  match kvs with
  | [] => Ok []
  | kv :: kvs' =>
      b <-! queryBlockByHash d kv.2 ;;
      match b with Some blk => bs <-! collectBlocks d kvs' ;; Ok (blk :: bs) | None => Ok [] end
  end.

Fixpoint takeWhile {A} (p : A -> bool) (l : list A) : list A :=
  match l with [] => [] | x :: l' => if p x then x :: takeWhile p l' else [] end.

Definition batchGetBlocksAfterHeight d (h : Z) (limit : nat) : outcome string (list Block) :=
  collectBlocks d (take limit (seek h d)).

Definition scanBlockHeightsInRange d (startHeight endHeight : Z) : list Z :=
  fst <$> takeWhile (fun kv => negb (endHeight <? kv.1)) (seek startHeight d).

Definition countBlocksInRange d (startHeight endHeight : Z) : Z :=
  Z.of_nat (length (takeWhile (fun kv => negb (endHeight <? kv.1)) (seek startHeight d))).

Definition batchGetBlocksBetween d (begin_ end_ : Z) : outcome string (list Block) :=
  collectBlocks d (takeWhile (fun kv => kv.1 <? end_) (seek begin_ d)).

Definition batchGetBlockHeadersBetween d (begin_ end_ : Z) : list BlockHeader :=
  collect (queryBlockHeaderByHash d) (takeWhile (fun kv => kv.1 <? end_) (seek begin_ d)).

Definition loadCurrentBlock d : option BlockHeader := blockStatus d ≫= queryBlockHeaderByHash d.

(** [SaveReceipts] and [DeleteReceipts] add to the batch of the chain. *)
Definition SaveReceipts {R} `{Codec R} (hashOf : R -> Hash) (receipts : list R) : outcome string (list kv) :=
  (fix go rs := match rs with
                | [] => Ok []
                | rc :: rs' =>
                    match Marshal rc with
                    | Some b => ws <-! go rs' ;; Ok (KvReceipt (hashOf rc) (Some b) :: ws)
                    | None => Err "msgpack"
                    end
                end) receipts.

Definition DeleteReceipts (txs : list Hash) : list kv := (fun h => KvReceipt h None) <$> txs.

Definition hasReceipt d (hash : Hash) : bool := bool_decide (is_Some (receiptDb d !! hash)).

End queries.
