(* ===== verification/Chain.v ===== *)
(** * Chain: adding blocks and resetting the top

    [src/core/blockchain_action.go], [blockchain_store.go] and [blockchain.go]: a
    block that comes in is checked, its transactions are executed and it is written
    together with everything that belongs to it; a block that forks off resets the top
    to its predecessor first.

    The consensus, the execution of a block and the states, and the transaction pool
    are the interface [ChainParts]; the checks of an executed block against its header
    are here.  Goroutines that only send messages (fork processing, synchronisation)
    are left out, and so are locks: one call runs at a time.  The subscriber of the
    event "block added" is the separate operation [onBlockAddSuccess]. *)
From S2P Require Import Prelude Bytes Sha256 Types TxHash TxCodec Rewards Block Weight ChainStore Group.
Local Open Scope Z_scope.
Local Open Scope zv_scope.

(** The named results, and the zero value, which has no name. *)
Inductive AddBlockResult := AddBlockFailed | AddBlockConsensusFailed | AddBlockZero | AddBlockExisted | AddBlockLessWeightThanLocal | AddBlockSucc.
#[global] Instance AddBlockResult_eq_dec : EqDecision AddBlockResult.
Proof. solve_decision. Defined.

Inductive chainError :=
| ErrorBlockHash | ErrorGroupSign | ErrorRandomSign | ErrPkNotExists
| ErrPreNotExist | ErrLocalMoreWeight | ErrBlockSizeLimit
| ErrText (msg : string).

(** What the chain uses of its parts. *)
Class ChainParts := {
  stateCache : Type;
  postState : Type;
  txPool : Type;
  (** whether [NewAccountDB] opens the root *)
  canOpen : stateCache -> Hash -> bool;
  (** [process], for packing or not: root, evicted and executed transactions, receipts, gas fee, state; it may panic,
      as where the vote of the block's group is refused *)
  processBlock : stateCache -> BlockHeader -> list Transaction -> bool -> BlockHeader ->
    outcome Empty_set (Hash * list Hash * list Transaction * list Receipt * Z * postState);
  saveBlockState : chainDB -> option BlockHeader -> BlockHeader -> postState -> stateCache -> outcome string stateCache;
  (** the states of removed heights, in pruning mode *)
  deleteHeights : list Z -> stateCache -> stateCache;
  receiptsTree : list Receipt -> Hash;
  (** a block is accepted, or rejected with an error; it may panic, as for a block at the height of its predecessor *)
  VerifyNewBlock : chainDB -> stateCache -> BlockHeader -> BlockHeader -> outcome chainError unit;
  GetBlockMinElapse : Z -> Z;
  cp_checkpointAt : chainDB -> stateCache -> Z -> Z;
  pool_GetTransaction : bool -> Hash -> txPool -> option Transaction;
  (** [batchAdd]: the transactions with the senders it recovers, unless one is invalid; a validator may panic *)
  pool_batchAdd : list Transaction -> txPool -> outcome Empty_set (option (list Transaction)) * txPool;
  pool_PackForCast : txPool -> list Transaction;
  pool_contains : Hash -> txPool -> bool;
  pool_RemoveFromPool : list Hash -> txPool -> txPool;
  pool_BackToPool : (Hash -> bool) -> list Transaction -> txPool -> txPool;
}.

(** The rest of the LRU cache. *)
Class LruMore (K V : Type) `{LruCache K V} := {
  cacheRemove : K -> cache K V -> cache K V;
  cacheKeys : cache K V -> list K;
}.
Class LruMoreLaws (K V : Type) `{LruLaws K V} `{!LruMore K V} := {
  cacheRemove_held k c k' v : held (cacheRemove k c) k' = Some v -> k' <> k /\ held c k' = Some v;
  cacheKeys_held k c : k ∈ cacheKeys c <-> is_Some (held c k);
}.

Record executePostState `{ChainParts} := mkPost {
  ps_state : postState;
  ps_receipts : list Receipt;
  ps_evictedTxs : list Hash;
  ps_txs : list Transaction;
}.

Class ChainCaches `{ChainParts} := {
  block_lru :: LruCache Hash Block;
  block_lru_more :: LruMore Hash Block;
  post_lru :: LruCache Hash executePostState;
  post_lru_more :: LruMore Hash executePostState;
}.

Record FullBlockChain `{ChainCaches} := mkFull {
  ch_db : chainDB;
  ch_states : stateCache;
  ch_pool : txPool;
  latestBlock : option BlockHeader;
  latestCP : option BlockHeader;
  topRawBlocks : cache Hash Block;
  futureRawBlocks : cache Hash Block;
  verifiedBlocks : cache Hash executePostState;
  shutdowning : bool;
}.

Arguments mkPost {_}.
Arguments mkFull {_ _}.

Definition txAccumulateSizeMaxPerBlock : Z := 1024 * 1024.
Definition txFixSize : Z := 200.
Definition Size (tx : Transaction) : Z := txFixSize + Z.of_nat (length (tx_Data tx)) + Z.of_nat (length (tx_ExtraData tx)).

Definition calcTxTree (txs : list Transaction) : Hash :=
  match txs with
  | [] => zeroB32
  | _ => BytesToHash (Sha256 (concat ((fun tx => b32_bytes (tx_Hash tx)) <$> txs)))
  end.

Section chain.
Context `{ChainCaches} `{ChainCodecs} `{Codec Receipt} `{WeightEnv}.

Abbreviation CM A := (M FullBlockChain string A).

(** ** Fields *)

Definition setDb (d : chainDB) (c : FullBlockChain) : FullBlockChain :=
  mkFull d (ch_states c) (ch_pool c) (latestBlock c) (latestCP c) (topRawBlocks c) (futureRawBlocks c) (verifiedBlocks c) (shutdowning c).
Definition setStates (s : stateCache) (c : FullBlockChain) : FullBlockChain :=
  mkFull (ch_db c) s (ch_pool c) (latestBlock c) (latestCP c) (topRawBlocks c) (futureRawBlocks c) (verifiedBlocks c) (shutdowning c).
Definition setPool (p : txPool) (c : FullBlockChain) : FullBlockChain :=
  mkFull (ch_db c) (ch_states c) p (latestBlock c) (latestCP c) (topRawBlocks c) (futureRawBlocks c) (verifiedBlocks c) (shutdowning c).
Definition setLatest (b : BlockHeader) (c : FullBlockChain) : FullBlockChain :=
  mkFull (ch_db c) (ch_states c) (ch_pool c) (Some b) (latestCP c) (topRawBlocks c) (futureRawBlocks c) (verifiedBlocks c) (shutdowning c).
Definition setCP (b : option BlockHeader) (c : FullBlockChain) : FullBlockChain :=
  mkFull (ch_db c) (ch_states c) (ch_pool c) (latestBlock c) b (topRawBlocks c) (futureRawBlocks c) (verifiedBlocks c) (shutdowning c).
Definition setTop (t : cache Hash Block) (c : FullBlockChain) : FullBlockChain :=
  mkFull (ch_db c) (ch_states c) (ch_pool c) (latestBlock c) (latestCP c) t (futureRawBlocks c) (verifiedBlocks c) (shutdowning c).
Definition setFuture (f : cache Hash Block) (c : FullBlockChain) : FullBlockChain :=
  mkFull (ch_db c) (ch_states c) (ch_pool c) (latestBlock c) (latestCP c) (topRawBlocks c) f (verifiedBlocks c) (shutdowning c).
Definition setVerified (v : cache Hash executePostState) (c : FullBlockChain) : FullBlockChain :=
  mkFull (ch_db c) (ch_states c) (ch_pool c) (latestBlock c) (latestCP c) (topRawBlocks c) (futureRawBlocks c) v (shutdowning c).

Definition nilPanic {A} : CM A := panic "invalid memory address or nil pointer dereference".

(** The result of a part that has no errors of its own. *)
Definition ofPart {A} (o : outcome Empty_set A) : CM A :=
  match o with Ok x => ret x | Err e => match e with end | Panic msg => panic msg end.

(** ** Queries through the cache of top blocks *)

Definition addTopBlock (b : Block) : CM unit := modify (fun c => setTop (cacheAdd (bh_Hash (b_Header b)) b (topRawBlocks c)) c).
Definition removeTopBlock (hash : Hash) : CM unit := modify (fun c => setTop (cacheRemove hash (topRawBlocks c)) c).

Definition getTopBlockByHash (hash : Hash) : CM (option Block) := fun c =>
  let '(v, t) := cacheGet hash (topRawBlocks c) in (Ok v, setTop t c).

Fixpoint topBlockOf (height : Z) (keys : list Hash) : CM (option Block) :=
  match keys with
  | [] => ret None
  | k :: keys' =>
      b <- getTopBlockByHash k ;;
      match b with
      | Some blk => if bh_Height (b_Header blk) =? height then ret (Some blk) else topBlockOf height keys'
      | None => topBlockOf height keys'
      end
  end.

Definition getTopBlockByHeight (height : Z) : CM (option Block) :=
  keys <- gets (fun c => cacheKeys (topRawBlocks c)) ;;
  topBlockOf height keys.

Definition HasBlock (hash : Hash) : CM bool :=
  b <- getTopBlockByHash hash ;;
  match b with Some _ => ret true | None => gets (fun c => hasBlock (ch_db c) hash) end.

Definition QueryBlockHeaderByHash (hash : Hash) : CM (option BlockHeader) :=
  b <- getTopBlockByHash hash ;;
  match b with Some blk => ret (Some (b_Header blk)) | None => gets (fun c => queryBlockHeaderByHash (ch_db c) hash) end.

Definition QueryBlockHeaderFloor (height : Z) : CM (option BlockHeader) :=
  b <- getTopBlockByHeight height ;;
  match b with Some blk => ret (Some (b_Header blk)) | None => gets (fun c => queryBlockHeaderByHeightFloor (ch_db c) height) end.

(** No block at all counts as the largest height. *)
Definition Height : CM Z := gets (fun c => match latestBlock c with Some b => bh_Height b | None => 2 ^ 64 - 1 end).

Definition CheckPointAt (h : Z) : CM (option BlockHeader) :=
  c <- get ;;
  QueryBlockHeaderFloor (cp_checkpointAt (ch_db c) (ch_states c) h).

Definition LatestCheckPoint : CM (option BlockHeader) :=
  cp <- gets latestCP ;;
  h <- Height ;;
  match cp with
  | Some b => if bh_Height b <? h then ret cp else bh <- CheckPointAt h ;; modify (setCP bh) ;;; ret bh
  | None => bh <- CheckPointAt h ;; modify (setCP bh) ;;; ret bh
  end.

Definition compareChainWeight (bh2 : BlockHeader) : CM comparison :=
  top <- gets latestBlock ;;
  match top with Some bh1 => ret (compareBlockWeight bh1 bh2) | None => nilPanic end.

(** ** Checks *)

Definition consensusVerifyBlock (bh : BlockHeader) : CM (option chainError) :=
  h <- Height ;;
  if h =? 0 then ret None
  else
    c <- get ;;
    match queryBlockHeaderByHash (ch_db c) (bh_PreHash bh) with
    | None => ret (Some (ErrText "has no pre"))
    | Some pre =>
        cp <- LatestCheckPoint ;;
        match cp with
        | None => nilPanic
        | Some latest =>
            if bh_Height pre <? bh_Height latest then ret (Some (ErrText "pre block lower than latest cp"))
            else
              c1 <- get ;;
              match VerifyNewBlock (ch_db c1) (ch_states c1) bh pre with
              | Ok _ => ret None
              | Err e => ret (Some e)
              | Panic msg => panic msg
              end
        end
    end.

Definition processFutureBlock (b : Block) : CM unit :=
  modify (fun c => setFuture (cacheAdd (bh_PreHash (b_Header b)) b (futureRawBlocks c)) c).

Definition validateBlock (b : Block) : CM (option chainError) :=
  has <- HasBlock (bh_PreHash (b_Header b)) ;;
  if negb has then processFutureBlock b ;;; ret (Some ErrPreNotExist)
  else
    w <- compareChainWeight (b_Header b) ;;
    match w with
    | Gt => ret (Some ErrLocalMoreWeight)
    | _ =>
        if txAccumulateSizeMaxPerBlock <? foldr (fun tx n => Size tx + n) 0 (b_Transactions b) then ret (Some ErrBlockSizeLimit)
        else
          e <- consensusVerifyBlock (b_Header b) ;;
          ret (match e with Some _ => Some (ErrText "consensus verify fail") | None => None end)
    end.

(** ** Transactions *)

(** The transactions of the block, each with whether the pool does not have it. *)
Fixpoint collectTxs (p : txPool) (raws : list Transaction) : option (list (bool * Transaction)) :=
  match raws with
  | [] => Some []
  | rawTx :: raws' =>
      let txHash := GenHash rawTx in
      match pool_GetTransaction (IsReward rawTx) txHash p with
      | Some poolTx =>
          if bool_decide (tx_Sign rawTx = tx_Sign poolTx) then r ← collectTxs p raws'; Some ((false, poolTx) :: r) else None
      | None => r ← collectTxs p raws'; Some ((true, NewTransaction rawTx) :: r)
      end
  end.

(** The new transactions are the objects the pool has put the sender into. *)
Fixpoint withSenders (rets : list (bool * Transaction)) (added : list Transaction) : list Transaction :=
  match rets, added with
  | (true, _) :: rets', tx :: added' => tx :: withSenders rets' added'
  | (_, tx) :: rets', _ => tx :: withSenders rets' added
  | [], _ => []
  end.

Definition validateTxs (b : Block) : CM (option (list Transaction)) := fun c =>
  match collectTxs (ch_pool c) (b_Transactions b) with
  | None => (Ok None, c)
  | Some rets =>
      match pool_batchAdd (snd <$> filter (fun r => r.1 = true) rets) (ch_pool c) with
      | (Ok added, p) => (Ok (withSenders rets <$> added), setPool p c)
      | (Err e, _) => match e with end
      | (Panic msg, p) => (Panic msg, setPool p c)
      end
  end.

Definition IsTransactionExisted (c : FullBlockChain) (hash : Hash) : bool :=
  pool_contains hash (ch_pool c) || hasReceipt (ch_db c) hash.

(** ** Executing *)

Definition executeTransaction (b : Block) (slice : list Transaction) : CM (option executePostState) :=
  let bh := b_Header b in
  c <- get ;;
  let '(cached, v) := cacheGet (bh_Hash bh) (verifiedBlocks c) in
  modify (setVerified v) ;;;
  match cached with
  | Some ps => ret (Some ps)
  | None =>
      match queryBlockHeaderByHash (ch_db c) (bh_PreHash bh) with
      | None => ret None
      | Some pre =>
          if negb (canOpen (ch_states c) (bh_StateTree pre)) then ret None
          else
            out <- ofPart (processBlock (ch_states c) bh slice false pre) ;;
            let '(stateTree, evictTxs, executed, receipts, gasFee, st) := out in
            if negb (bool_decide (calcTxTree executed = bh_TxTree bh)) then ret None
            else if negb (length executed =? length (b_Transactions b))%nat then ret None
            else if negb (gasFee =? bh_GasFee bh) then ret None
            else if negb (bool_decide (stateTree = bh_StateTree bh)) then ret None
            else if negb (bool_decide (receiptsTree receipts = bh_ReceiptTree bh)) then ret None
            else
              let eps := mkPost st receipts evictTxs executed in
              modify (fun c => setVerified (cacheAdd (bh_Hash bh) eps (verifiedBlocks c)) c) ;;;
              ret (Some eps)
      end
  end.

(** ** Writing *)

Definition commitBlock (b : Block) (ps : executePostState) : CM bool := fun c =>
  let bh := b_Header b in
  match Marshal bh, encodeBlockTransactions (b_Transactions b) with
  | Some headerBytes, Ok bodyBytes =>
      if shutdowning c then (Ok false, c)
      else
        match saveBlockState (ch_db c) (latestCP c) bh (ps_state ps) (ch_states c), SaveReceipts rc_TxHash (ps_receipts ps) with
        | Ok st, Ok receipts =>
            let batch := [KvHeader (bh_Hash bh) (Some headerBytes); KvHeight (bh_Height bh) (Some (bh_Hash bh));
                          KvTxs (bh_Hash bh) (Some bodyBytes)] ++ receipts ++ [KvStatus (bh_Hash bh)] in
            let c1 := setLatest bh (setDb (writeKvs batch (ch_db c)) (setStates st c)) in
            let removeTxs := (tx_Hash <$> ps_txs ps) ++ ps_evictedTxs ps in
            (Ok true, setPool (pool_RemoveFromPool removeTxs (ch_pool c1)) c1)
        | Ok st, _ => (Ok false, setStates st c)
        | Panic p, _ => (Panic p, c)
        | Err _, _ => (Ok false, c)
        end
  | _, Panic p => (Panic p, c)
  | _, _ => (Ok false, c)
  end.

Definition transitAndCommit (b : Block) (tSlice : list Transaction) : CM bool :=
  c <- get ;;
  if negb (length (b_Transactions b) =? length tSlice)%nat then ret false
  else if negb (forallb (fun tx => IsTransactionExisted c (tx_Hash tx)) tSlice) then ret false
  else
    ps <- executeTransaction b tSlice ;;
    match ps with None => ret false | Some post => commitBlock b post end.

(** ** Resetting the top *)

Record removal := mkRemoval {
  rm_batch : list kv;
  rm_txs : list Transaction;
  rm_blocks : list BlockHeader;
}.

(** From [curr] down to the block with the hash; a missing predecessor is dereferenced. *)
Fixpoint removeDown (fuel : nat) (d : chainDB) (hash : Hash) (curr : BlockHeader) : outcome string removal :=
  match fuel with
  | O => Err "out of fuel"
  | S fuel' =>
      if bool_decide (bh_Hash curr = hash) then Ok (mkRemoval [] [] [])
      else
        raws <-! queryBlockTransactionsAll d (bh_Hash curr) ;;
        let txs := NewTransaction <$> raws in
        let ws := [KvHeader (bh_Hash curr) None; KvHeight (bh_Height curr) None; KvTxs (bh_Hash curr) None] in
        if bool_decide (bh_PreHash curr = hash) then Ok (mkRemoval ws txs [curr])
        else
          match queryBlockHeaderByHash d (bh_PreHash curr) with
          | None => Panic "invalid memory address or nil pointer dereference"
          | Some pre =>
              r <-! removeDown fuel' d hash pre ;;
              Ok (mkRemoval (ws ++ rm_batch r) (txs ++ rm_txs r) (curr :: rm_blocks r))
          end
  end.

Definition removeTops (hs : list BlockHeader) (t : cache Hash Block) : cache Hash Block :=
  fold_left (fun t b => cacheRemove (bh_Hash b) t) hs t.
Definition removeVerified (hs : list BlockHeader) (v : cache Hash executePostState) : cache Hash executePostState :=
  fold_left (fun v b => cacheRemove (bh_Hash b) v) hs v.

Definition resetTop (block : BlockHeader) : CM bool := fun c =>
  if shutdowning c then (Ok false, c)
  else
    match latestBlock c with
    | None => (Panic "invalid memory address or nil pointer dereference", c)
    | Some top =>
        if bool_decide (bh_Hash block = bh_Hash top) then (Ok true, c)
        else
          match removeDown (S (size (blocks (ch_db c)))) (ch_db c) (bh_Hash block) top with
          | Panic p => (Panic p, c)
          | Err e => (Err e, c)
          | Ok r =>
              let c1 := setTop (removeTops (rm_blocks r) (topRawBlocks c)) c in
              if negb (canOpen (ch_states c) (bh_StateTree block)) then (Ok false, c1)
              else
                let batch := rm_batch r ++ DeleteReceipts (tx_Hash <$> rm_txs r) ++ [KvStatus (bh_Hash block)] in
                let c2 := setDb (writeKvs batch (ch_db c1)) c1 in
                let c3 := setVerified (removeVerified (rm_blocks r) (verifiedBlocks c2)) c2 in
                let c4 := setStates (deleteHeights (bh_Height <$> rm_blocks r) (ch_states c3)) c3 in
                let c5 := setLatest block c4 in
                let c6 := setPool (pool_BackToPool (hasReceipt (ch_db c5)) (rm_txs r) (ch_pool c5)) c5 in
                (Ok true, setCP None c6)
          end
    end.

(** ** Adding a block *)

Definition isConsensusError (e : chainError) : bool :=
  match e with ErrorBlockHash | ErrorGroupSign | ErrorRandomSign | ErrPkNotExists => true | _ => false end.

Definition commitOn (b : Block) (txs : list Transaction) : CM AddBlockResult :=
  ok <- transitAndCommit b txs ;;
  if ok then addTopBlock b ;;; ret AddBlockSucc else ret AddBlockFailed.

Definition addOnTop (b : Block) (txs : list Transaction) : CM AddBlockResult :=
  let bh := b_Header b in
  top <- gets latestBlock ;;
  match top with
  | None => nilPanic
  | Some topBlock =>
      has <- HasBlock (bh_Hash bh) ;;
      if has : bool then ret AddBlockExisted
      else
        hasPre <- HasBlock (bh_PreHash bh) ;;
        if negb hasPre then processFutureBlock b ;;; ret AddBlockFailed
        else if bool_decide (bh_PreHash bh = bh_Hash topBlock) then commitOn b txs
        else
          w <- compareChainWeight bh ;;
          match w with
          | Gt => ret AddBlockLessWeightThanLocal
          | Eq => ret AddBlockExisted
          | Lt =>
              c <- get ;;
              match queryBlockHeaderByHash (ch_db c) (bh_PreHash bh) with
              | None => nilPanic
              | Some newTop =>
                  ok <- resetTop newTop ;;
                  if negb ok then ret AddBlockFailed
                  else
                    top1 <- gets latestBlock ;;
                    match top1 with
                    | None => nilPanic
                    | Some t => if bool_decide (bh_Hash t = bh_PreHash bh) then commitOn b txs else ret AddBlockZero
                    end
              end
          end
  end.

Definition addBlockOnChain (b : Block) : CM AddBlockResult :=
  let bh := b_Header b in
  if negb (bool_decide (bh_Hash bh = headerHash bh)) then ret AddBlockFailed
  else
    top <- gets latestBlock ;;
    match top with None => nilPanic | Some _ => ret tt end ;;;
    has <- HasBlock (bh_Hash bh) ;;
    if has : bool then ret AddBlockExisted
    else
      e <- validateBlock b ;;
      match e with
      | Some err => ret (if isConsensusError err then AddBlockConsensusFailed else AddBlockFailed)
      | None =>
          txs <- validateTxs b ;;
          match txs with
          | None => ret AddBlockFailed
          | Some slice => addOnTop b slice
          end
      end.

(** ** What follows an added block *)

Definition onBlockAddSuccess (b : Block) : CM unit :=
  cp <- CheckPointAt (bh_Height (b_Header b)) ;;
  match cp with Some _ => modify (setCP cp) | None => ret tt end ;;;
  c <- get ;;
  let '(value, f) := cacheGet (bh_Hash (b_Header b)) (futureRawBlocks c) in
  modify (setFuture f) ;;;
  match value with
  | Some rawBlock =>
      addBlockOnChain rawBlock ;;;
      modify (fun c => setFuture (cacheRemove (bh_Hash (b_Header b)) (futureRawBlocks c)) c)
  | None => ret tt
  end.

(** ** Many blocks *)

Fixpoint ensureBlocksChained (rawBlocks : list Block) : bool :=
  match rawBlocks with
  | b1 :: ((b2 :: _) as rest) => bool_decide (bh_PreHash (b_Header b2) = bh_Hash (b_Header b1)) && ensureBlocksChained rest
  | _ => true
  end.

Fixpoint AddChainSlice (cb : Block -> AddBlockResult -> bool) (chainSlice : list Block) : CM unit :=
  match chainSlice with
  | [] => ret tt
  | b :: rest => r <- addBlockOnChain b ;; if cb b r then AddChainSlice cb rest else ret tt
  end.

(** The blocks from the first one on that the chain does not have. *)
Fixpoint skipKnown (d : chainDB) (bs : list Block) : list Block :=
  match bs with
  | [] => []
  | b :: rest => if hasBlock d (bh_Hash (b_Header b)) then skipKnown d rest else bs
  end.

Definition batchAddBlockOnChain (canReset : bool) (rawBlocks : list Block) (cb : Block -> AddBlockResult -> bool) : CM bool :=
  if negb (ensureBlocksChained rawBlocks) then ret false
  else
    c <- get ;;
    match skipKnown (ch_db c) rawBlocks with
    | [] => ret false
    | (firstBlock :: _) as addBlocks =>
        match latestBlock c with
        | None => nilPanic
        | Some localTop =>
            ok <- (if bool_decide (bh_PreHash (b_Header firstBlock) = bh_Hash localTop) then ret true
                   else if negb canReset then ret false
                   else
                     pre <- QueryBlockHeaderByHash (bh_PreHash (b_Header firstBlock)) ;;
                     match pre with Some p => resetTop p | None => ret false end) ;;
            if ok : bool then AddChainSlice cb addBlocks ;;; ret true else ret false
        end
    end.

(** ** Removing an orphan *)

Definition removeOrphan (b : Block) : CM unit :=
  let hash := bh_Hash (b_Header b) in
  c <- get ;;
  txs <- lift (queryBlockTransactionsAll (ch_db c) hash) ;;
  let batch := [KvHeader hash None; KvHeight (bh_Height (b_Header b)) None; KvTxs hash None] ++ DeleteReceipts (GenHash <$> txs) in
  modify (fun c => setDb (writeKvs batch (ch_db c)) c) ;;;
  removeTopBlock hash.

(** ** Casting a block *)

Definition ChainDataVersion : Z := 1.

Definition castElapsed (height elapsed : Z) : Z :=
  let e := int32 elapsed in
  if (height =? 1) && negb (e =? elapsed) then 2 ^ 31 - 1 else e.

Definition CastBlock (now height : Z) (proveValue : bytes) (qn : Z) (castor : bytes) (gSeed : Hash) : CM (option Block) :=
  top <- gets latestBlock ;;
  match top with
  | None => ret None
  | Some latest =>
      c <- get ;;
      if height <=? bh_Height latest then ret None
      else if negb (canOpen (ch_states c) (bh_StateTree latest)) then ret None
      else
        let head := mkBlockHeader zeroB32 height (bh_Hash latest) 0 proveValue (wrap64 (bh_TotalQN latest + qn)) now castor gSeed []
                      ChainDataVersion zeroB32 zeroB32 (bh_StateTree latest) [] [] 0 in
        out <- ofPart (processBlock (ch_states c) head (pool_PackForCast (ch_pool c)) true latest) ;;
        let '(stateRoot, evictHashs, txs, receipts, gasFee, st) := out in
        let elapsed := castElapsed height (int64 (now - bh_CurTime latest)) in
        let minElapse := GetBlockMinElapse height in
        let '(curTime, elapsed) := if elapsed <? minElapse then (int64 (bh_CurTime latest + minElapse), minElapse) else (now, elapsed) in
        let full hash := mkBlockHeader hash height (bh_Hash latest) elapsed proveValue (wrap64 (bh_TotalQN latest + qn)) curTime castor gSeed []
                           ChainDataVersion (calcTxTree txs) (receiptsTree receipts) stateRoot [] [] gasFee in
        let header := full (headerHash (full zeroB32)) in
        modify (fun c => setVerified (cacheAdd (bh_Hash header) (mkPost st receipts evictHashs txs) (verifiedBlocks c)) c) ;;;
        ret (Some (mkBlock header txs))
  end.

End chain.
