(* ===== verification/ChainInv.v ===== *)
(** * ChainInv: the stores hold a chain

    The abstract state of the stores of [ChainStore] is a list of blocks, top first:
    [stored d bs] says that every store has exactly the entries of those blocks and
    that the blocks are linked by hash down to a genesis block with increasing heights.
    The queries read that list, a batch that commits a block pushes to it, and the
    batch of a reset drops from it. *)
From Stdlib Require Import Sorting.Sorted.
From stdpp Require Import sorting.
From S2P Require Import Prelude Bytes Types TxHash TxCodec Rewards ChainStore.
Local Open Scope Z_scope.

Definition hashOf (b : Block) : Hash := bh_Hash (b_Header b).
Definition heightOf (b : Block) : Z := bh_Height (b_Header b).

Inductive linked : list Block -> Prop :=
| linked_genesis g : heightOf g = 0 -> linked [g]
| linked_cons b p bs :
    bh_PreHash (b_Header b) = hashOf p -> heightOf p < heightOf b -> linked (p :: bs) -> linked (b :: p :: bs).

Definition higher (x y : Block) : Prop := heightOf y < heightOf x.

Lemma linked_sorted bs : linked bs -> StronglySorted higher bs.
Proof.
  induction 1 as [g _|b p bs _ Hlt Hl IH]; [repeat constructor|]. constructor; [done|].
  apply StronglySorted_inv in IH as [_ IH]. constructor; [done|].
  eapply Forall_impl; [exact IH|]. unfold higher. intros x. simpl. lia.
Qed.

Lemma sorted_weaken {A} (R R' : relation A) l : (forall x y, R x y -> R' x y) -> StronglySorted R l -> StronglySorted R' l.
Proof. intros HR. induction 1 as [|x l Hs IH Hall]; constructor; [done|]. eapply Forall_impl; [exact Hall|]. by intros y; apply HR. Qed.

Lemma linked_nonneg bs b : linked bs -> b ∈ bs -> 0 <= heightOf b.
Proof.
  intros Hl. revert b. induction Hl as [g Hg|b' p bs Hp Hlt Hl IH]; intros b.
  - intros ->%list_elem_of_singleton. lia.
  - intros [->|Hb]%elem_of_cons; [|by apply IH]. specialize (IH p ltac:(left)). lia.
Qed.

Lemma linked_drop bs k : linked bs -> (k < length bs)%nat -> linked (drop k bs).
Proof.
  intros Hl. revert k. induction Hl as [g Hg|b p bs Hp Hlt Hl IH]; intros [|k] Hk; simpl in *; try by constructor.
  - lia.
  - apply IH. simpl. lia.
Qed.

(** The block before a block that is not the genesis. *)
Lemma linked_next bs i b p : linked bs -> bs !! i = Some b -> bs !! S i = Some p -> bh_PreHash (b_Header b) = hashOf p.
Proof.
  intros Hl. revert i. induction Hl as [g Hg|b' p' bs Hp Hlt Hl IH]; intros [|i]; try done; simpl.
  - by intros [= ->] [= ->].
  - apply IH.
Qed.

(** The lowest block is the genesis. *)
Lemma linked_last bs i b : linked bs -> bs !! i = Some b -> S i = length bs -> heightOf b = 0.
Proof.
  intros Hl. revert i. induction Hl as [g Hg|b' p' bs Hp Hlt Hl IH]; intros [|i] Hb Hi; simpl in *; try done.
  - by injection Hb as ->.
  - apply (IH i); [done|lia].
Qed.

Lemma heights_decrease bs i j x y : StronglySorted higher bs -> bs !! i = Some x -> bs !! j = Some y -> (i < j)%nat -> heightOf y < heightOf x.
Proof.
  intros Hs. revert i j. induction Hs as [|b bs Hs IH Hall]; intros [|i] [|j]; simpl; try done; try lia.
  - intros [= ->] Hj _. rewrite Forall_forall in Hall. apply (Hall y), (list_elem_of_lookup_2 _ _ _ Hj).
  - intros Hi Hj ?. apply (IH i j); [done|done|lia].
Qed.

Lemma height_inj bs x y : StronglySorted higher bs -> x ∈ bs -> y ∈ bs -> heightOf x = heightOf y -> x = y.
Proof.
  intros Hs [i Hi]%list_elem_of_lookup [j Hj]%list_elem_of_lookup E.
  destruct (lt_eq_lt_dec i j) as [[H| ->]|H].
  - pose proof (heights_decrease _ _ _ _ _ Hs Hi Hj H). lia.
  - congruence.
  - pose proof (heights_decrease _ _ _ _ _ Hs Hj Hi H). lia.
Qed.

Lemma filter_fmap {A B} (f : A -> B) (P : B -> Prop) `{!forall x, Decision (P x)} (l : list A) :
  filter P (f <$> l) = f <$> filter (fun x => P (f x)) l.
Proof. induction l as [|x l IH]; [done|]. rewrite fmap_cons, !filter_cons. by destruct (decide _); rewrite ?fmap_cons, IH. Qed.

Lemma head_drop_lookup {A} (l : list A) k : l !! k = head (drop k l).
Proof. revert k. induction l as [|x l IH]; intros [|k]; try done. apply IH. Qed.

Lemma head_fmap {A B} (f : A -> B) (l : list A) : head (f <$> l) = f <$> head l.
Proof. by destruct l. Qed.

Section stored.
Context `{ChainCodecLaws}.
Implicit Types (d : chainDB) (bs : list Block) (b : Block).

(** Each store has the entries of the blocks and no others. *)
Record holding d bs : Prop := {
  hd_header b : b ∈ bs -> exists x, Marshal (b_Header b) = Some x /\ blocks d !! hashOf b = Some x;
  hd_header_only h : is_Some (blocks d !! h) -> exists b, b ∈ bs /\ hashOf b = h;
  hd_height n h : blockHeight d !! n = Some h <-> exists b, b ∈ bs /\ heightOf b = n /\ hashOf b = h;
  hd_txs b : b ∈ bs -> exists x, encodeBlockTransactions (b_Transactions b) = Ok x /\ txDb d !! hashOf b = Some x;
  hd_txs_only h : is_Some (txDb d !! h) -> exists b, b ∈ bs /\ hashOf b = h;
}.

Record stored d bs : Prop := {
  st_linked : linked bs;
  st_holding : holding d bs;
  st_status : blockStatus d = hashOf <$> head bs;
}.

Lemma header_read d bs b : holding d bs -> b ∈ bs -> queryBlockHeaderByHash d (hashOf b) = Some (b_Header b).
Proof.
  intros Hh Hb. destruct (hd_header _ _ Hh b Hb) as (x & Hx & Hd). unfold queryBlockHeaderByHash. rewrite Hd. simpl.
  by apply codec_roundtrip.
Qed.

Lemma hash_inj d bs b b' : stored d bs -> b ∈ bs -> b' ∈ bs -> hashOf b = hashOf b' -> b = b'.
Proof.
  intros [Hl Hh _] Hb Hb' E. apply (height_inj bs); [by apply linked_sorted|done|done|].
  pose proof (header_read d bs b Hh Hb) as H1. rewrite E, (header_read d bs b' Hh Hb') in H1. unfold heightOf. congruence.
Qed.

Lemma hasBlock_spec d bs h : holding d bs -> hasBlock d h = true <-> exists b, b ∈ bs /\ hashOf b = h.
Proof.
  intros Hh. unfold hasBlock. rewrite bool_decide_eq_true. split; [apply (hd_header_only _ _ Hh)|].
  intros (b & Hb & <-). destruct (hd_header _ _ Hh b Hb) as (x & _ & ->). by eexists.
Qed.

Lemma header_read_inv d bs h bh : holding d bs -> queryBlockHeaderByHash d h = Some bh -> exists b, b ∈ bs /\ hashOf b = h /\ b_Header b = bh.
Proof.
  intros Hh Hq. destruct (hd_header_only _ _ Hh h) as (b & Hb & <-).
  { unfold queryBlockHeaderByHash in Hq. destruct (blocks d !! h); [by eexists|done]. }
  exists b. rewrite (header_read d bs b Hh Hb) in Hq. by simplify_eq.
Qed.

(** ** Reading in the order of the heights *)

Definition entry b : Z * Hash := (heightOf b, hashOf b).

Lemma entries_sorted bs : StronglySorted higher bs -> StronglySorted (fun x y => x.1 < y.1) (reverse (entry <$> bs)).
Proof.
  induction 1 as [|b bs Hs IH Hall]; [constructor|]. rewrite fmap_cons, reverse_cons.
  apply StronglySorted_app. split_and!; [|done|repeat constructor].
  intros x y (b' & -> & Hb')%elem_of_reverse%list_elem_of_fmap ->%list_elem_of_singleton. simpl.
  rewrite Forall_forall in Hall. by apply Hall.
Qed.

Lemma ordered_spec d bs : stored d bs -> ordered d = reverse (entry <$> bs).
Proof.
  intros [Hl Hh _]. pose proof (entries_sorted bs (linked_sorted bs Hl)) as Hs.
  assert (NoDup (reverse (entry <$> bs))) as Hnd.
  { clear - Hs. induction Hs as [|x l Hs IH Hall]; constructor; [|done]. rewrite Forall_forall in Hall. intros Hx. specialize (Hall x Hx). lia. }
  apply (StronglySorted_unique_strong byHeight).
  - intros [n h] [n' h'] H1 H2 H3 H4. unfold byHeight in *. simpl in *. assert (n = n') as <- by lia. f_equal.
    unfold ordered in H1. rewrite merge_sort_Permutation, elem_of_map_to_list in H1.
    apply elem_of_reverse, list_elem_of_fmap in H2 as (b & [= -> ->] & Hb).
    destruct (proj1 (hd_height _ _ Hh _ _) H1) as (b' & Hb' & Hn & <-).
    by rewrite (height_inj bs b' b (linked_sorted bs Hl) Hb' Hb Hn).
  - apply StronglySorted_merge_sort; unfold byHeight; [intros ???; lia|intros ??; lia].
  - eapply sorted_weaken; [|exact Hs]. unfold byHeight. intros; lia.
  - unfold ordered. rewrite merge_sort_Permutation. apply NoDup_Permutation; [apply NoDup_map_to_list|done|].
    intros [n h]. rewrite elem_of_map_to_list, elem_of_reverse, list_elem_of_fmap, (hd_height _ _ Hh).
    unfold entry. split; [intros (b & Hb & <- & <-); by exists b|intros (b & [= -> ->] & Hb); by exists b].
Qed.

Lemma seek_spec d bs h : stored d bs -> seek h d = reverse (entry <$> filter (fun b => h <= heightOf b) bs).
Proof.
  intros Hs. unfold seek. rewrite (ordered_spec d bs Hs), filter_reverse. f_equal. by rewrite filter_fmap.
Qed.

Lemma before_spec d bs h : stored d bs -> before h d = reverse (entry <$> filter (fun b => heightOf b < h) bs).
Proof.
  intros Hs. unfold before. rewrite (ordered_spec d bs Hs), filter_reverse. f_equal. by rewrite filter_fmap.
Qed.

Lemma read_entries d bs bs' : holding d bs -> bs' ⊆ bs -> collect (queryBlockHeaderByHash d) (entry <$> bs') = b_Header <$> bs'.
Proof.
  intros Hh. induction bs' as [|b bs' IH]; [done|]. intros Hin. simpl.
  rewrite (header_read d bs b Hh) by (apply Hin; left). f_equal. apply IH. intros x Hx. apply Hin. by right.
Qed.

(** A prefix of sorted entries is a filter. *)
Lemma takeWhile_sorted {A} (R : relation A) (P : A -> Prop) `{!forall x, Decision (P x)} (p : A -> bool) l :
  StronglySorted R l -> (forall x y, R x y -> P y -> P x) -> (forall x, p x = bool_decide (P x)) -> takeWhile p l = filter P l.
Proof.
  intros Hs HR Hp. induction Hs as [|x l Hs IH Hall]; [done|]. simpl. rewrite Hp, filter_cons. case_bool_decide as Hx.
  - by rewrite decide_True, IH.
  - rewrite decide_False by done. symmetry. apply filter_none. intros y Hy Py. rewrite Forall_forall in Hall.
    apply Hx, (HR x y); [by apply Hall|done].
Qed.

Lemma takeWhile_seek d bs lo p (P : Z -> Prop) `{!forall x, Decision (P x)} :
  stored d bs -> (forall x y, x < y -> P y -> P x) -> (forall kv : Z * Hash, p kv = bool_decide (P kv.1)) ->
  takeWhile p (seek lo d) = reverse (entry <$> filter (fun b => lo <= heightOf b /\ P (heightOf b)) bs).
Proof.
  intros Hs HP Hp. pose proof (linked_sorted bs (st_linked _ _ Hs)) as Hso.
  assert (StronglySorted higher (filter (fun b => lo <= heightOf b) bs)) as Hf.
  { clear - Hso. induction Hso as [|b bs Hso IH Hall]; [constructor|]. rewrite filter_cons. destruct (decide _); [|done].
    constructor; [done|]. rewrite Forall_forall in *. intros x [_ Hx]%list_elem_of_filter. by apply Hall. }
  rewrite (seek_spec d bs lo Hs), (takeWhile_sorted (fun x y : Z * Hash => x.1 < y.1) (fun x => P x.1)); [|by apply entries_sorted|intros x y; apply HP|done].
  rewrite filter_reverse, filter_fmap, list_filter_filter. do 2 f_equal. apply list_filter_iff. naive_solver.
Qed.

Lemma head_filter_height bs h b : StronglySorted higher bs -> b ∈ bs -> heightOf b = h -> filter (fun x => heightOf x = h) bs = [b].
Proof.
  intros Hs Hb Hh. assert (forall x, x ∈ bs -> heightOf x = h -> x = b) as Hu.
  { intros x Hx E. apply (height_inj bs); [done|done|done|congruence]. }
  induction Hs as [|a bs Hs IH Hall]; [by apply not_elem_of_nil in Hb|]. rewrite filter_cons. rewrite Forall_forall in Hall.
  destruct (decide (heightOf a = h)) as [Ha|Ha].
  - rewrite (Hu a) by (done || left). f_equal. apply filter_none. intros x Hx E. specialize (Hall x Hx). unfold higher in Hall. lia.
  - apply IH; [|intros x Hx; apply Hu; by right]. apply elem_of_cons in Hb as [->|]; done.
Qed.

Lemma byHeight_spec d bs h : stored d bs -> queryBlockHeaderByHeight d h = b_Header <$> head (filter (fun b => heightOf b = h) bs).
Proof.
  intros [Hl Hh _]. unfold queryBlockHeaderByHeight, queryBlockHash. destruct (blockHeight d !! h) as [hash|] eqn:E.
  - apply (hd_height _ _ Hh) in E as (b & Hb & Hn & <-). simpl. rewrite (header_read d bs b Hh Hb).
    by rewrite (head_filter_height bs h b (linked_sorted bs Hl) Hb Hn).
  - simpl. rewrite filter_none; [done|]. intros b Hb Hn.
    enough (blockHeight d !! h = Some (hashOf b)) by congruence. apply (hd_height _ _ Hh). by exists b.
Qed.

Lemma ceil_spec d bs h : stored d bs -> queryBlockHeaderCeil d h = b_Header <$> last (filter (fun b => h <= heightOf b) bs).
Proof.
  intros Hs. unfold queryBlockHeaderCeil, queryBlockHashCeil. rewrite (seek_spec d bs h Hs), head_reverse, fmap_last.
  destruct (last _) as [b|] eqn:E; [|done]. simpl. apply (header_read d bs); [by apply st_holding|].
  apply last_Some_elem_of, list_elem_of_filter in E. apply E.
Qed.

Lemma floor_split bs h :
  StronglySorted higher bs ->
  head (filter (fun b => heightOf b <= h) bs) =
    match last (filter (fun b => h <= heightOf b) bs) with
    | Some b => if heightOf b =? h then Some b else head (filter (fun b => heightOf b < h) bs)
    | None => head (filter (fun b => heightOf b < h) bs)
    end.
Proof.
  induction 1 as [|a bs Hs IH Hall]; [done|]. rewrite Forall_forall in Hall. rewrite !filter_cons.
  destruct (decide (heightOf a <= h)) as [H1|H1].
  - assert (filter (fun b => h <= heightOf b) bs = []) as E0.
    { apply filter_none. intros x Hx. specialize (Hall x Hx). unfold higher in Hall. lia. }
    destruct (decide (h <= heightOf a)); rewrite E0; simpl.
    + by rewrite (proj2 (Z.eqb_eq _ _)) by lia.
    + by rewrite decide_True by lia.
  - rewrite (decide_False (P := heightOf a < h)) by lia. rewrite decide_True by lia. rewrite IH.
    rewrite last_cons. destruct (last _) as [b|]; [done|]. by rewrite (proj2 (Z.eqb_neq _ _)) by lia.
Qed.

(** The highest block at or below a height. *)
Definition floorOf (h : Z) bs : option Block := head (filter (fun b => heightOf b <= h) bs).

Lemma floor_spec d bs h : stored d bs -> queryBlockHeaderByHeightFloor d h = b_Header <$> floorOf h bs.
Proof.
  intros Hs. pose proof (st_holding _ _ Hs) as Hh. unfold queryBlockHeaderByHeightFloor, floorOf.
  rewrite (seek_spec d bs h Hs), (before_spec d bs h Hs), head_reverse, last_reverse, fmap_last, head_fmap.
  rewrite (floor_split bs h (linked_sorted bs (st_linked _ _ Hs))).
  assert ((head (filter (fun b => heightOf b < h) bs) ≫= fun b => queryBlockHeaderByHash d (hashOf b)) =
          b_Header <$> head (filter (fun b => heightOf b < h) bs)) as Hprev.
  { destruct (head _) as [b|] eqn:E; [|done]. simpl. apply (header_read d bs); [done|].
    apply head_Some_elem_of, list_elem_of_filter in E. apply E. }
  rewrite option_fmap_bind. destruct (last _) as [b|] eqn:E; simpl; [|exact Hprev].
  destruct (heightOf b =? h) eqn:Eh; [|exact Hprev]. apply last_Some_elem_of, list_elem_of_filter in E.
  rewrite (header_read d bs) by naive_solver. simpl. unfold heightOf in Eh. by rewrite Eh.
Qed.

Lemma reverse_subset {A} (P : A -> Prop) `{!forall x, Decision (P x)} (l : list A) : reverse (filter P l) ⊆ l.
Proof. intros x [_ Hx]%elem_of_reverse%list_elem_of_filter. exact Hx. Qed.

(** C5: over stores that hold a chain of blocks, the queries return what the
    chain has: the current block is the top, a height finds the block there, the
    ceiling the lowest block at or above a height, the floor the highest one at or
    below it, and the range queries the blocks of the range from low to high. *)
Theorem queries_read_chain d bs h lo hi :
  stored d bs ->
  loadCurrentBlock d = b_Header <$> head bs /\
  queryBlockHeaderByHeight d h = b_Header <$> head (filter (fun b => heightOf b = h) bs) /\
  queryBlockHeaderCeil d h = b_Header <$> last (filter (fun b => h <= heightOf b) bs) /\
  queryBlockHeaderByHeightFloor d h = b_Header <$> head (filter (fun b => heightOf b <= h) bs) /\
  batchGetBlockHeadersBetween d lo hi = b_Header <$> reverse (filter (fun b => lo <= heightOf b /\ heightOf b < hi) bs) /\
  scanBlockHeightsInRange d lo hi = heightOf <$> reverse (filter (fun b => lo <= heightOf b /\ heightOf b <= hi) bs) /\
  countBlocksInRange d lo hi = Z.of_nat (length (filter (fun b => lo <= heightOf b /\ heightOf b <= hi) bs)).
Proof.
  intros Hs. split_and!; [|by apply byHeight_spec|by apply ceil_spec|by apply floor_spec| | |].
  - unfold loadCurrentBlock. rewrite (st_status _ _ Hs). destruct bs as [|b bs]; [done|]. apply (header_read d (b :: bs)); [apply Hs|left].
  - unfold batchGetBlockHeadersBetween. rewrite (takeWhile_seek d bs lo _ (fun x => x < hi) Hs).
    + rewrite <- fmap_reverse. apply (read_entries d bs); [apply Hs|apply reverse_subset].
    + intros; lia.
    + intros kv. by case_bool_decide; [apply Z.ltb_lt|apply Z.ltb_ge; lia].
  - unfold scanBlockHeightsInRange. rewrite (takeWhile_seek d bs lo _ (fun x => x <= hi) Hs).
    + by rewrite !fmap_reverse, <- list_fmap_compose.
    + intros; lia.
    + intros kv. case_bool_decide; [rewrite (proj2 (Z.ltb_ge _ _))|rewrite (proj2 (Z.ltb_lt _ _))]; try done; lia.
  - unfold countBlocksInRange. rewrite (takeWhile_seek d bs lo _ (fun x => x <= hi) Hs).
    + by rewrite length_reverse, length_fmap.
    + intros; lia.
    + intros kv. case_bool_decide; [rewrite (proj2 (Z.ltb_ge _ _))|rewrite (proj2 (Z.ltb_lt _ _))]; try done; lia.
Qed.

(** ** Writing *)

Lemma writeKvs_app l1 l2 d : writeKvs (l1 ++ l2) d = writeKvs l2 (writeKvs l1 d).
Proof. unfold writeKvs. by rewrite fold_left_app. Qed.

(** Writes that leave the blocks alone. *)
Definition aside (w : kv) : Prop := match w with KvReceipt _ _ | KvStatus _ => True | _ => False end.

Lemma aside_holding ws d bs : Forall aside ws -> holding d bs -> holding (writeKvs ws d) bs.
Proof.
  intros Hw. revert d. induction Hw as [|w ws Hw _ IH]; intros d Hd; [done|]. simpl. apply IH. clear IH.
  destruct w; try done; destruct Hd; by constructor.
Qed.

Lemma status_last ws h d : blockStatus (writeKvs (ws ++ [KvStatus h]) d) = Some h.
Proof. by rewrite writeKvs_app. Qed.

Lemma DeleteReceipts_aside hs : Forall aside (DeleteReceipts hs).
Proof. apply Forall_fmap, Forall_forall. done. Qed.

Lemma SaveReceipts_aside {R} `{Codec R} (hf : R -> Hash) rs ws : SaveReceipts hf rs = Ok ws -> Forall aside ws.
Proof.
  revert ws. induction rs as [|r rs IH]; intros ws; simpl; [by intros [= <-]|].
  destruct (Marshal r) as [x|]; [|done]. intros (ws' & Hws & [= <-])%obind_Ok_inv. by constructor; [|apply IH].
Qed.

Definition blockWrites b x y : list kv := [KvHeader (hashOf b) (Some x); KvHeight (heightOf b) (Some (hashOf b)); KvTxs (hashOf b) (Some y)].

Lemma push_holding d bs b x y :
  holding d bs -> (forall b', b' ∈ bs -> hashOf b' <> hashOf b) -> (forall b', b' ∈ bs -> heightOf b' <> heightOf b) ->
  Marshal (b_Header b) = Some x -> encodeBlockTransactions (b_Transactions b) = Ok y ->
  holding (writeKvs (blockWrites b x y) d) (b :: bs).
Proof.
  intros Hd Hne Hnh Hx Hy. constructor; simpl.
  - intros b' [->|Hb]%elem_of_cons; [exists x; by rewrite lookup_insert_eq|].
    rewrite lookup_insert_ne by (intros E; by apply (Hne b')). by apply (hd_header _ _ Hd).
  - intros h. destruct (decide (hashOf b = h)) as [<-|N]; [intros _; exists b; split; [left|done]|].
    rewrite lookup_insert_ne by done. intros (b' & Hb & <-)%(hd_header_only _ _ Hd). exists b'. split; [by right|done].
  - intros n h. destruct (decide (heightOf b = n)) as [<-|N].
    + rewrite lookup_insert_eq. split; [intros [= <-]; exists b; split; [left|done]|].
      intros (b' & [->|Hb]%elem_of_cons & Hn & <-); [done|]. by destruct (Hnh b').
    + rewrite lookup_insert_ne, (hd_height _ _ Hd) by done. setoid_rewrite elem_of_cons. naive_solver.
  - intros b' [->|Hb]%elem_of_cons; [exists y; by rewrite lookup_insert_eq|].
    rewrite lookup_insert_ne by (intros E; by apply (Hne b')). by apply (hd_txs _ _ Hd).
  - intros h. destruct (decide (hashOf b = h)) as [<-|N]; [intros _; exists b; split; [left|done]|].
    rewrite lookup_insert_ne by done. intros (b' & Hb & <-)%(hd_txs_only _ _ Hd). exists b'. split; [by right|done].
Qed.

(** A batch of a commit pushes the block. *)
Lemma push_stored d bs p b x y rs :
  stored d (p :: bs) -> hasBlock d (hashOf b) = false -> bh_PreHash (b_Header b) = hashOf p -> heightOf p < heightOf b ->
  Marshal (b_Header b) = Some x -> encodeBlockTransactions (b_Transactions b) = Ok y -> Forall aside rs ->
  stored (writeKvs (blockWrites b x y ++ rs ++ [KvStatus (hashOf b)]) d) (b :: p :: bs).
Proof.
  intros [Hl Hd _] Hno Hpre Hlt Hx Hy Hrs. constructor; [by constructor| |by rewrite app_assoc, status_last].
  rewrite writeKvs_app. apply aside_holding; [apply Forall_app; split; [done|by repeat constructor]|].
  apply push_holding; try done.
  - intros b' Hb E. assert (hasBlock d (hashOf b) = true) by (apply (hasBlock_spec d _ _ Hd); by exists b'). congruence.
  - intros b' Hb E. apply elem_of_cons in Hb as [->|Hb]; [lia|].
    pose proof (proj2 (StronglySorted_inv (linked_sorted _ Hl))) as Hall. rewrite Forall_forall in Hall.
    specialize (Hall b' Hb). unfold higher in Hall. lia.
Qed.

Definition blockDeletes (bh : BlockHeader) : list kv := [KvHeader (bh_Hash bh) None; KvHeight (bh_Height bh) None; KvTxs (bh_Hash bh) None].

Lemma pop_holding d bs b :
  holding d (b :: bs) -> (forall b', b' ∈ bs -> hashOf b' <> hashOf b) -> (forall b', b' ∈ bs -> heightOf b' <> heightOf b) ->
  holding (writeKvs (blockDeletes (b_Header b)) d) bs.
Proof.
  intros Hd Hne Hnh. constructor; simpl; change (bh_Hash (b_Header b)) with (hashOf b); change (bh_Height (b_Header b)) with (heightOf b).
  - intros b' Hb. rewrite lookup_delete_ne by (intros E; by apply (Hne b')). apply (hd_header _ _ Hd). by right.
  - intros h. destruct (decide (hashOf b = h)) as [<-|N]; [rewrite lookup_delete_eq; by intros [? ?]|].
    rewrite lookup_delete_ne by done. intros (b' & [->|Hb]%elem_of_cons & <-)%(hd_header_only _ _ Hd); [done|by exists b'].
  - intros n h. destruct (decide (heightOf b = n)) as [<-|N].
    + rewrite lookup_delete_eq. split; [done|]. intros (b' & Hb & Hn & _). by destruct (Hnh b').
    + rewrite lookup_delete_ne, (hd_height _ _ Hd) by done. setoid_rewrite elem_of_cons. naive_solver.
  - intros b' Hb. rewrite lookup_delete_ne by (intros E; by apply (Hne b')). apply (hd_txs _ _ Hd). by right.
  - intros h. destruct (decide (hashOf b = h)) as [<-|N]; [rewrite lookup_delete_eq; by intros [? ?]|].
    rewrite lookup_delete_ne by done. intros (b' & [->|Hb]%elem_of_cons & <-)%(hd_txs_only _ _ Hd); [done|by exists b'].
Qed.

Lemma stored_distinct d bs b b' : stored d (b :: bs) -> b' ∈ bs -> hashOf b' <> hashOf b /\ heightOf b' < heightOf b.
Proof.
  intros Hs Hb. pose proof (proj2 (StronglySorted_inv (linked_sorted _ (st_linked _ _ Hs)))) as Hall.
  rewrite Forall_forall in Hall. specialize (Hall b' Hb). split; [|done]. intros E. unfold higher in Hall.
  rewrite (hash_inj d (b :: bs) b' b Hs) in Hall by (first [done | by right | by left]). lia.
Qed.

(** The deletions of a number of blocks from the top. *)
Lemma pops_holding d bs k :
  linked bs -> (forall x y, x ∈ bs -> y ∈ bs -> hashOf x = hashOf y -> x = y) ->
  holding d bs -> holding (writeKvs (concat (blockDeletes <$> (b_Header <$> take k bs))) d) (drop k bs).
Proof.
  intros Hl. pose proof (linked_sorted bs Hl) as Hs. clear Hl. revert d k.
  induction Hs as [|b bs Hs IH Hall]; intros d [|k] Hinj Hd; try done. rewrite Forall_forall in Hall.
  cbn [take drop]. rewrite !fmap_cons. cbn [concat]. rewrite writeKvs_app. apply IH.
  - intros x y Hx Hy. apply Hinj; by right.
  - apply pop_holding; [done| |].
    + intros b' Hb E. specialize (Hall b' Hb). unfold higher in Hall. rewrite (Hinj b' b) in Hall by (first [done | by right | by left]). lia.
    + intros b' Hb. specialize (Hall b' Hb). unfold higher in Hall. lia.
Qed.

Lemma pops_stored d bs k t rs :
  stored d bs -> bs !! k = Some t -> Forall aside rs ->
  stored (writeKvs (concat (blockDeletes <$> (b_Header <$> take k bs)) ++ rs ++ [KvStatus (hashOf t)]) d) (drop k bs).
Proof.
  intros Hs Ht Hrs. constructor.
  - apply linked_drop; [apply Hs|]. by apply lookup_lt_Some in Ht.
  - rewrite writeKvs_app. apply aside_holding; [apply Forall_app; split; [done|by repeat constructor]|].
    apply pops_holding; [apply Hs| |apply Hs]. intros x y. by apply (hash_inj d).
  - rewrite app_assoc, status_last, <- (head_drop_lookup bs k), Ht. done.
Qed.

End stored.

(** ** A chain of two blocks *)

#[export] Instance BlockHeader_eq_dec : EqDecision BlockHeader.
Proof. solve_decision. Defined.

(** Values of a table, encoded by their position. *)
Definition tableCodec {A} `{EqDecision A} (l : list A) : Codec A :=
  {| Marshal x := ip ← list_find (x =.) (take 200 l); Some [byte_of_Z (Z.of_nat ip.1)];
     Unmarshal bs := match bs with [b] => l !! Z.to_nat (Z_of_byte b) | _ => None end |}.

Lemma tableCodec_laws {A} `{EqDecision A} (l : list A) : @CodecLaws A (tableCodec l).
Proof.
  constructor. intros x bs. simpl. destruct (list_find _ _) as [[i y]|] eqn:E; [|done]. intros [= <-]. split; [done|].
  apply list_find_Some in E as (Hi & <- & _). apply lookup_take_Some in Hi as [Hi Hlt].
  rewrite Z_of_byte_of_Z, Z.mod_small by lia. by rewrite Nat2Z.id.
Qed.

Definition plainHeader (hash preHash : Hash) (height : Z) : BlockHeader :=
  mkBlockHeader hash height preHash 0 [] height 0 [] zeroB32 [] 1 zeroB32 zeroB32 zeroB32 [] [] 0.
Definition smallHash (n : Z) : Hash := BytesToHash (Uint64ToByte n).

Definition sampleGenesis : Block := mkBlock (plainHeader (smallHash 1) zeroB32 0) [].
Definition sampleFirst : Block := mkBlock (plainHeader (smallHash 2) (smallHash 1) 1) [].

Definition sampleCodecs (headers : list BlockHeader) : ChainCodecs :=
  {| header_codec := tableCodec (b_Header sampleGenesis :: b_Header sampleFirst :: headers);
     rawTx_codec := {| Marshal _ := None; Unmarshal _ := None |} |}.

Definition noBody : bytes := UInt16ToByte codecVersion ++ UInt16ToByte 0.
Definition sampleDb : chainDB :=
  writeKvs (blockWrites sampleFirst [Byte.x01] noBody ++ [] ++ [KvStatus (hashOf sampleFirst)])
    (writeKvs (blockWrites sampleGenesis [Byte.x00] noBody ++ [] ++ [KvStatus (hashOf sampleGenesis)]) (mkChainDB ∅ ∅ ∅ ∅ None)).

Section sample.
Context (headers : list BlockHeader).
#[local] Instance theCodecs : ChainCodecs := sampleCodecs headers.

Lemma sampleLaws : ChainCodecLaws.
Proof. constructor; [apply tableCodec_laws|]. constructor. done. Qed.

Lemma sampleDb_stored : stored sampleDb [sampleFirst; sampleGenesis].
Proof.
  pose proof sampleLaws. apply push_stored; [|by vm_compute|reflexivity|reflexivity|by vm_compute|by vm_compute|constructor].
  constructor; [by constructor| |done]. rewrite writeKvs_app. apply aside_holding; [by repeat constructor|].
  apply push_holding; try (by intros ? ?%not_elem_of_nil); [|by vm_compute|by vm_compute].
  constructor; simpl; try (by intros ? ?%not_elem_of_nil); try (intros h [? Hh]; by rewrite lookup_empty in Hh).
  intros n h. rewrite lookup_empty. split; [done|]. by intros (b & ?%not_elem_of_nil & _).
Qed.

End sample.

Lemma queries_read_chain_witness :
  loadCurrentBlock (H := sampleCodecs []) sampleDb = Some (b_Header sampleFirst) /\
  queryBlockHeaderByHeightFloor (H := sampleCodecs []) sampleDb 7 = Some (b_Header sampleFirst) /\
  batchGetBlockHeadersBetween (H := sampleCodecs []) sampleDb 0 9 = [b_Header sampleGenesis; b_Header sampleFirst].
Proof.
  destruct (queries_read_chain (H := sampleCodecs []) (H0 := sampleLaws []) sampleDb [sampleFirst; sampleGenesis] 7 0 9 (sampleDb_stored [])) as (H1 & _ & _ & H2 & H3 & _).
  split; [exact H1|]. split; [exact H2|exact H3].
Defined.
