(* ===== verification/ChainTheorems.v ===== *)
(** * ChainTheorems: the chain stays a chain

    The invariant [chainInv] ties a [FullBlockChain] to the list of its blocks, top
    first: the stores hold exactly that list, the latest block is its head, and the
    caches have nothing else.  Every operation returns and keeps the invariant, or
    panics because one of the parts it calls does, and then the stores still hold a
    chain; a block is added on the top or, if it weighs more, after its predecessor,
    and blocks up to the latest checkpoint stay. *)
From Stdlib Require Import Sorting.Sorted.
From S2P Require Import Prelude Bytes Sha256 Types TxHash TxCodec Rewards Block Weight ChainStore Group Chain ChainInv.
Local Open Scope Z_scope.
Local Open Scope zv_scope.

(** ** Operations that return *)

Definition returns {S E A} (m : M S E A) (s : S) (Q : A -> S -> Prop) : Prop := exists a s', m s = (Ok a, s') /\ Q a s'.

Section returns.
Context {S E : Type}.

Lemma returns_ret {A} (a : A) (s : S) (Q : A -> S -> Prop) : Q a s -> returns (E:=E) (ret a) s Q.
Proof. intros HQ. by exists a, s. Qed.
Lemma returns_gets {A} (f : S -> A) (s : S) (Q : A -> S -> Prop) : Q (f s) s -> returns (E:=E) (gets f) s Q.
Proof. intros HQ. by exists (f s), s. Qed.
Lemma returns_get (s : S) (Q : S -> S -> Prop) : Q s s -> returns (E:=E) get s Q.
Proof. intros HQ. by exists s, s. Qed.
Lemma returns_modify (f : S -> S) (s : S) (Q : unit -> S -> Prop) : Q tt (f s) -> returns (E:=E) (modify f) s Q.
Proof. intros HQ. by exists tt, (f s). Qed.
Lemma returns_bind {A B} (m : M S E A) (k : A -> M S E B) s (Q : B -> S -> Prop) :
  returns m s (fun a s' => returns (k a) s' Q) -> returns (bind m k) s Q.
Proof. intros (a & s' & Hm & b & s'' & Hk & HQ). exists b, s''. unfold bind. by rewrite Hm. Qed.
Lemma returns_mono {A} (m : M S E A) s (Q Q' : A -> S -> Prop) : returns m s Q -> (forall a s', Q a s' -> Q' a s') -> returns m s Q'.
Proof. intros (a & s' & Hm & HQ) HQQ. exists a, s'. by split; [|apply HQQ]. Qed.
End returns.

(** An operation that returns, or panics with [P] of the message and the state. *)
Definition runs {S E A} (P : string -> S -> Prop) (m : M S E A) (s : S) (Q : A -> S -> Prop) : Prop :=
  match m s with (Ok a, s') => Q a s' | (Err _, _) => False | (Panic msg, s') => P msg s' end.

Section runs.
Context {S E : Type} (P : string -> S -> Prop).

Lemma runs_ret {A} (a : A) (s : S) (Q : A -> S -> Prop) : Q a s -> runs (E:=E) P (ret a) s Q.
Proof. done. Qed.
Lemma runs_gets {A} (f : S -> A) (s : S) (Q : A -> S -> Prop) : Q (f s) s -> runs (E:=E) P (gets f) s Q.
Proof. done. Qed.
Lemma runs_get (s : S) (Q : S -> S -> Prop) : Q s s -> runs (E:=E) P get s Q.
Proof. done. Qed.
Lemma runs_modify (f : S -> S) (s : S) (Q : unit -> S -> Prop) : Q tt (f s) -> runs (E:=E) P (modify f) s Q.
Proof. done. Qed.
Lemma runs_panic {A} msg (s : S) (Q : A -> S -> Prop) : P msg s -> runs (E:=E) P (panic msg) s Q.
Proof. done. Qed.
Lemma runs_bind {A B} (m : M S E A) (k : A -> M S E B) s (Q : B -> S -> Prop) :
  runs P m s (fun a s' => runs P (k a) s' Q) -> runs P (bind m k) s Q.
Proof. unfold runs, bind. by destruct (m s) as [[a|e|msg] s']. Qed.
Lemma runs_mono {A} (P' : string -> S -> Prop) (m : M S E A) s (Q Q' : A -> S -> Prop) :
  runs P m s Q -> (forall msg s', P msg s' -> P' msg s') -> (forall a s', Q a s' -> Q' a s') -> runs P' m s Q'.
Proof. unfold runs. destruct (m s) as [[a|e|msg] s']; [|done|]; auto. Qed.
Lemma runs_returns {A} (m : M S E A) s (Q : A -> S -> Prop) : returns m s Q -> runs P m s Q.
Proof. intros (a & s' & Hm & HQ). unfold runs. by rewrite Hm. Qed.
(** A step that returns, then the rest. *)
Lemma runs_step {A B} (m : M S E A) (k : A -> M S E B) s (Q : A -> S -> Prop) (R : B -> S -> Prop) :
  returns m s Q -> (forall a s', Q a s' -> runs P (k a) s' R) -> runs P (bind m k) s R.
Proof. intros Hm Hk. apply runs_bind, runs_returns. by eapply returns_mono. Qed.
End runs.

(** Checkpoint heights are [uint64]. *)
Class ChainPartsLaws `{ChainParts} := { cp_nonneg d s h : 0 <= cp_checkpointAt d s h }.

Section chain.
Context {CP : ChainParts} {CC : ChainCaches} {CO : ChainCodecs} {COL : ChainCodecLaws} {CR : Codec Receipt} {WE : WeightEnv}.
Context {PL : ChainPartsLaws} {BL : LruLaws Hash Block} {BM : LruMoreLaws Hash Block}.
Context {VL : LruLaws Hash executePostState} {VM : LruMoreLaws Hash executePostState}.
Implicit Types (c : FullBlockChain) (bs : list Block).

(** The post state belongs to an execution with the results the header of that hash states. *)
Definition vetted (hash : Hash) (ps : executePostState) : Prop :=
  exists s head slice pack pre bh,
    bh_Hash bh = hash /\
    processBlock s head slice pack pre = Ok (bh_StateTree bh, ps_evictedTxs ps, ps_txs ps, ps_receipts ps, bh_GasFee bh, ps_state ps) /\
    calcTxTree (ps_txs ps) = bh_TxTree bh /\ receiptsTree (ps_receipts ps) = bh_ReceiptTree bh.

Record chainInv c bs : Prop := {
  ci_stored : stored (ch_db c) bs;
  ci_latest : latestBlock c = b_Header <$> head bs;
  ci_top h b : held (topRawBlocks c) h = Some b -> b ∈ bs /\ hashOf b = h;
  ci_verified h ps : held (verifiedBlocks c) h = Some ps -> vetted h ps;
  ci_bodies b : b ∈ bs -> Z.of_nat (length (b_Transactions b)) < 2 ^ 15;
  ci_cp cp : latestCP c = Some cp -> exists b, b ∈ bs /\ b_Header b = cp;
}.

(** A part the chain calls for the block panics: the consensus check, the validators
    of its transactions, its execution after its predecessor, or saving its state. *)
Inductive partPanics (b : Block) (msg : string) c : Prop :=
| panics_verify pre : queryBlockHeaderByHash (ch_db c) (bh_PreHash (b_Header b)) = Some pre ->
    VerifyNewBlock (ch_db c) (ch_states c) (b_Header b) pre = Panic msg -> partPanics b msg c
| panics_txs p rets : collectTxs p (b_Transactions b) = Some rets ->
    pool_batchAdd (snd <$> filter (fun r => r.1 = true) rets) p = (Panic msg, ch_pool c) -> partPanics b msg c
| panics_process pre slice : queryBlockHeaderByHash (ch_db c) (bh_PreHash (b_Header b)) = Some pre ->
    length slice = length (b_Transactions b) -> processBlock (ch_states c) (b_Header b) slice false pre = Panic msg -> partPanics b msg c
| panics_save ps : vetted (hashOf b) ps ->
    saveBlockState (ch_db c) (latestCP c) (b_Header b) (ps_state ps) (ch_states c) = Panic msg -> partPanics b msg c.

(** ** Reading *)

(** Reads may reorder the cache of the top blocks. *)
Definition touch c c' : Prop :=
  c' = setTop (topRawBlocks c') c /\ forall h, held (topRawBlocks c') h = held (topRawBlocks c) h.

Lemma touch_refl c : touch c c.
Proof. by destruct c. Qed.

Lemma touch_trans c c1 c2 : touch c c1 -> touch c1 c2 -> touch c c2.
Proof. intros [E1 H1] [E2 H2]. split; [rewrite E2, E1; by destruct c|]. intros h. by rewrite H2. Qed.

Lemma touch_inv c c' bs : touch c c' -> chainInv c bs -> chainInv c' bs.
Proof. intros [E H] [H1 H2 H3 H4 H5 H6]. rewrite E. constructor; simpl; try done. intros h b. rewrite H. apply H3. Qed.

Lemma touch_db c c' : touch c c' -> ch_db c' = ch_db c.
Proof. by intros [-> _]. Qed.

Lemma getTop_ok c h : returns (getTopBlockByHash h) c (fun v c' => v = held (topRawBlocks c) h /\ touch c c').
Proof.
  unfold returns, getTopBlockByHash. destruct (cacheGet h (topRawBlocks c)) as [v t] eqn:E. do 2 eexists. split; [done|]. split.
  - by rewrite <- cacheGet_held, E.
  - split; [done|]. intros h'. simpl. rewrite <- (cacheGet_keeps h (topRawBlocks c) h'). by rewrite E.
Qed.

Lemma HasBlock_ok c bs h : chainInv c bs -> returns (HasBlock h) c (fun r c' => r = hasBlock (ch_db c) h /\ touch c c').
Proof.
  intros Hc. apply returns_bind. eapply returns_mono; [apply getTop_ok|]. intros v c' [-> Ht].
  destruct (held (topRawBlocks c) h) as [b|] eqn:E.
  - apply returns_ret. split; [|done]. symmetry. apply (hasBlock_spec _ bs); [apply Hc|]. exists b. by apply (ci_top _ _ Hc).
  - apply returns_gets. by rewrite (touch_db _ _ Ht).
Qed.

Lemma QueryBlockHeaderByHash_ok c bs h :
  chainInv c bs -> returns (QueryBlockHeaderByHash h) c (fun r c' => r = queryBlockHeaderByHash (ch_db c) h /\ touch c c').
Proof.
  intros Hc. apply returns_bind. eapply returns_mono; [apply getTop_ok|]. intros v c' [-> Ht].
  destruct (held (topRawBlocks c) h) as [b|] eqn:E.
  - apply returns_ret. split; [|done]. symmetry. destruct (ci_top _ _ Hc h b E) as [Hb <-].
    apply (header_read _ bs); [apply Hc|done].
  - apply returns_gets. by rewrite (touch_db _ _ Ht).
Qed.

Lemma topBlockOf_ok height keys c bs :
  chainInv c bs ->
  returns (topBlockOf height keys) c (fun v c' => touch c c' /\ forall b, v = Some b -> b ∈ bs /\ heightOf b = height).
Proof.
  revert c. induction keys as [|k keys IH]; intros c Hc; [apply returns_ret; split; [apply touch_refl|done]|].
  apply returns_bind. eapply returns_mono; [apply getTop_ok|]. intros v c1 [-> Ht].
  assert (returns (topBlockOf height keys) c1 (fun v c' => touch c c' /\ forall b, v = Some b -> b ∈ bs /\ heightOf b = height)) as Hrest.
  { eapply returns_mono; [apply IH, (touch_inv c); done|]. intros v c2 [Ht2 Hv]. split; [by apply (touch_trans _ c1)|done]. }
  destruct (held (topRawBlocks c) k) as [b|] eqn:E; [|done]. destruct (bh_Height (b_Header b) =? height) eqn:Eh; [|done].
  apply returns_ret. split; [done|]. intros b' [= <-]. split; [by apply (ci_top _ _ Hc k)|by apply Z.eqb_eq].
Qed.

Lemma floorOf_exact bs b : StronglySorted higher bs -> b ∈ bs -> floorOf (heightOf b) bs = Some b.
Proof.
  unfold floorOf. induction 1 as [|a bs Hs IH Hall]; [by intros ?%not_elem_of_nil|]. intros [->|Hb]%elem_of_cons; rewrite filter_cons.
  - by rewrite decide_True by lia.
  - rewrite Forall_forall in Hall. specialize (Hall b Hb). unfold higher in Hall. rewrite decide_False by lia. by apply IH.
Qed.

Lemma floorOf_elem h bs b : floorOf h bs = Some b -> b ∈ bs /\ heightOf b <= h.
Proof. intros Hb%head_Some_elem_of. apply list_elem_of_filter in Hb. tauto. Qed.

(** The genesis block is below everything. *)
Lemma floorOf_some h bs : linked bs -> 0 <= h -> is_Some (floorOf h bs).
Proof.
  unfold floorOf. intros Hl Hh. induction Hl as [g Hg|b p bs _ _ _ IH].
  - rewrite filter_cons, decide_True by lia. by eexists.
  - rewrite filter_cons. destruct (decide _); [by eexists|done].
Qed.

Lemma QueryBlockHeaderFloor_ok c bs h :
  chainInv c bs -> returns (QueryBlockHeaderFloor h) c (fun r c' => r = b_Header <$> floorOf h bs /\ touch c c').
Proof.
  intros Hc. apply returns_bind, returns_bind, returns_gets. eapply returns_mono; [by apply (topBlockOf_ok _ _ c bs)|].
  intros [b|] c' [Ht Hb].
  - apply returns_ret. split; [|done]. destruct (Hb b eq_refl) as [Hin <-].
    rewrite (floorOf_exact bs b); [done|apply linked_sorted, Hc|done].
  - apply returns_gets. split; [|done]. rewrite (touch_db _ _ Ht). apply floor_spec, Hc.
Qed.

Lemma CheckPointAt_ok c bs h :
  chainInv c bs ->
  returns (CheckPointAt h) c (fun r c' => r = b_Header <$> floorOf (cp_checkpointAt (ch_db c) (ch_states c) h) bs /\ touch c c').
Proof. intros Hc. apply returns_bind, returns_get. by apply QueryBlockHeaderFloor_ok. Qed.

(** The latest checkpoint: the one kept if it is below the top, else the one of the top. *)
Definition topHeight bs : Z := match head bs with Some b => heightOf b | None => 2 ^ 64 - 1 end.
Definition cpOf c bs : option BlockHeader :=
  let now := b_Header <$> floorOf (cp_checkpointAt (ch_db c) (ch_states c) (topHeight bs)) bs in
  match latestCP c with
  | Some b => if bh_Height b <? topHeight bs then Some b else now
  | None => now
  end.

(** Nothing of the chain changed but what is cached. *)
Definition keeps bs c c' : Prop :=
  chainInv c' bs /\ ch_db c' = ch_db c /\ ch_states c' = ch_states c /\ shutdowning c' = shutdowning c.

Lemma keeps_refl bs c : chainInv c bs -> keeps bs c c.
Proof. done. Qed.
Lemma keeps_trans bs c c1 c2 : keeps bs c c1 -> keeps bs c1 c2 -> keeps bs c c2.
Proof. intros (_ & E1 & E2 & E3) (Hc & F1 & F2 & F3). split; [done|]. by rewrite F1, F2, F3. Qed.
Lemma keeps_touch bs c c' : chainInv c bs -> touch c c' -> keeps bs c c'.
Proof. intros Hc Ht. split; [by apply (touch_inv c)|]. by destruct Ht as [-> _]. Qed.

Lemma Height_ok c bs : chainInv c bs -> returns Height c (fun h c' => h = topHeight bs /\ c' = c).
Proof. intros Hc. apply returns_gets. split; [|done]. rewrite (ci_latest _ _ Hc). unfold topHeight. by destruct (head bs). Qed.

Lemma cpOf_touch bs c c' : touch c c' -> cpOf c' bs = cpOf c bs.
Proof. by intros [-> _]. Qed.

Lemma LatestCheckPoint_ok c bs :
  chainInv c bs ->
  returns LatestCheckPoint c (fun r c' => r = cpOf c bs /\ keeps bs c c' /\ exists b, b ∈ bs /\ r = Some (b_Header b)).
Proof.
  intros Hc. apply returns_bind, returns_gets, returns_bind. eapply returns_mono; [by apply Height_ok|]. intros h ? [-> ->].
  assert (forall Q : Prop, (Q -> cpOf c bs = b_Header <$> floorOf (cp_checkpointAt (ch_db c) (ch_states c) (topHeight bs)) bs) -> Q ->
    returns (bh <- CheckPointAt (topHeight bs) ;; modify (setCP bh) ;;; ret bh) c
      (fun r c' => r = cpOf c bs /\ keeps bs c c' /\ exists b, b ∈ bs /\ r = Some (b_Header b))) as Hnow.
  { intros Q HQ q. apply returns_bind. eapply returns_mono; [by apply CheckPointAt_ok|]. intros r c' [-> Ht].
    apply returns_bind, returns_modify, returns_ret. split; [by rewrite HQ|].
    destruct (floorOf_some (cp_checkpointAt (ch_db c) (ch_states c) (topHeight bs)) bs) as [b Hb]; [apply Hc|apply cp_nonneg|].
    rewrite Hb. destruct (floorOf_elem _ _ _ Hb) as [Hin _]. split; [|by exists b].
    destruct (keeps_touch bs c c' Hc Ht) as ([C1 C2 C3 C4 C5 C6] & E1 & E2 & E3). split; [|done].
    constructor; simpl; try done. intros cp [= <-]. by exists b. }
  destruct (latestCP c) as [cp|] eqn:E; [destruct (bh_Height cp <? topHeight bs) eqn:El|].
  - apply returns_ret. unfold cpOf. rewrite E, El. split; [done|]. split; [done|].
    destruct (ci_cp _ _ Hc cp E) as (b & Hb & <-). by exists b.
  - apply (Hnow True); [|done]. intros _. unfold cpOf. by rewrite E, El.
  - apply (Hnow True); [|done]. intros _. unfold cpOf. by rewrite E.
Qed.

(** ** Checking *)

Lemma low_top bs : linked bs -> topHeight bs = 0 -> exists g, bs = [g].
Proof.
  destruct 1 as [g _|b p bs _ Hlt Hl]; [by exists g|]. unfold topHeight. simpl. intros E.
  pose proof (linked_nonneg _ p Hl ltac:(left)). lia.
Qed.

(** The block is above its predecessor, wherever among the blocks that is. *)
Definition rises bs (b : Block) : Prop := forall p, p ∈ bs -> hashOf p = bh_PreHash (b_Header b) -> heightOf p < heightOf b.

(** The predecessor of an accepted block is not below the checkpoint. *)
Definition fitsOn c bs (bh : BlockHeader) (p : Block) : Prop :=
  p ∈ bs /\ hashOf p = bh_PreHash bh /\ forall cp, cpOf c bs = Some cp -> bh_Height cp <= heightOf p.

Lemma cpOf_elem c bs cp : chainInv c bs -> cpOf c bs = Some cp -> exists b, b ∈ bs /\ b_Header b = cp.
Proof.
  intros Hc. destruct (LatestCheckPoint_ok c bs Hc) as (r & c' & _ & -> & _ & b & Hb & ->). intros [= <-]. by exists b.
Qed.

Lemma consensusVerifyBlock_ok c bs b p :
  chainInv c bs -> p ∈ bs -> hashOf p = bh_PreHash (b_Header b) ->
  runs (fun msg c' => keeps bs c c' /\ partPanics b msg c') (consensusVerifyBlock (b_Header b)) c
    (fun e c' => keeps bs c c' /\ (e = None -> fitsOn c bs (b_Header b) p)).
Proof.
  intros Hc Hp Hpre. eapply runs_step; [by apply Height_ok|]. intros h ? [-> ->].
  destruct (topHeight bs =? 0) eqn:E0.
  - apply Z.eqb_eq in E0. apply low_top in E0 as [g ->]; [|apply Hc]. apply runs_ret. split; [done|]. intros _.
    apply list_elem_of_singleton in Hp as ->. split_and!; [left|done|].
    intros cp (x & ->%list_elem_of_singleton & <-)%(cpOf_elem c [g] cp Hc). unfold heightOf. lia.
  - apply runs_bind, runs_get. rewrite <- Hpre, (header_read _ bs p) by (apply Hc || done).
    eapply runs_step; [by apply LatestCheckPoint_ok|]. intros r c1 (-> & Hk & x & Hx & Hcp). rewrite Hcp.
    destruct (bh_Height (b_Header p) <? bh_Height (b_Header x)) eqn:El; [apply runs_ret; by split|].
    apply runs_bind, runs_get. destruct (VerifyNewBlock _ _ _ _) as [[]|e|msg] eqn:Ev; [|by apply runs_ret|].
    + apply runs_ret. split; [done|]. intros _.
      split_and!; [done|done|]. intros cp. rewrite Hcp. intros [= <-]. apply Z.ltb_ge in El. exact El.
    + apply runs_panic. split; [done|]. apply (panics_verify _ _ _ (b_Header p)); [|done].
      rewrite <- Hpre. apply (header_read _ bs p); [apply Hk|done].
Qed.

Lemma compareChainWeight_ok c bs bh :
  chainInv c bs ->
  returns (compareChainWeight bh) c (fun r c' => c' = c /\ exists t bs', bs = t :: bs' /\ r = compareBlockWeight (b_Header t) bh).
Proof.
  intros Hc. apply returns_bind, returns_gets. rewrite (ci_latest _ _ Hc).
  destruct (st_linked _ _ (ci_stored _ _ Hc)); simpl; apply returns_ret; (split; [done|]); by do 2 eexists.
Qed.

Lemma inv_future c bs f : chainInv c bs -> chainInv (setFuture f c) bs.
Proof. by intros []; constructor. Qed.

Lemma size_bound txs : foldr (fun tx n => Size tx + n) 0 txs <= txAccumulateSizeMaxPerBlock -> Z.of_nat (length txs) < 2 ^ 15.
Proof.
  assert (200 * Z.of_nat (length txs) <= foldr (fun tx n => Size tx + n) 0 txs) as Hl; [|unfold txAccumulateSizeMaxPerBlock; lia].
  induction txs as [|tx txs IH]; [done|]. cbn [foldr length]. assert (200 <= Size tx) by (unfold Size, txFixSize; lia). lia.
Qed.

(** What the checks of a block establish. *)
Definition acceptable c bs (b : Block) : Prop :=
  (exists p, fitsOn c bs (b_Header b) p) /\
  (exists t bs', bs = t :: bs' /\ compareBlockWeight (b_Header t) (b_Header b) <> Gt) /\
  Z.of_nat (length (b_Transactions b)) < 2 ^ 15.

Lemma validateBlock_ok c bs b :
  chainInv c bs ->
  runs (fun msg c' => keeps bs c c' /\ partPanics b msg c') (validateBlock b) c (fun e c' => keeps bs c c' /\
    (e = None -> acceptable c bs b) /\
    (forall err, e = Some err -> isConsensusError err = false)).
Proof.
  intros Hc. eapply runs_step; [by apply (HasBlock_ok c bs)|]. intros r c1 [-> Ht].
  pose proof (keeps_touch bs c c1 Hc Ht) as Hk. assert (chainInv c1 bs) as Hc1 by apply Hk.
  destruct (hasBlock (ch_db c) (bh_PreHash (b_Header b))) eqn:Eh; simpl.
  2:{ apply runs_bind, runs_modify, runs_ret. split; [|split; [done|by intros ? [= <-]]].
      destruct Hk as (_ & E). split; [by apply inv_future|done]. }
  apply (hasBlock_spec _ bs) in Eh as (p & Hp & Hpre); [|apply Hc].
  eapply runs_step; [by apply (compareChainWeight_ok c1 bs)|]. intros w ? (-> & t & bs' & Ebs & ->).
  assert (forall w, w = compareBlockWeight (b_Header t) (b_Header b) -> w <> Gt ->
    runs (fun msg c' => keeps bs c c' /\ partPanics b msg c')
      (if txAccumulateSizeMaxPerBlock <? foldr (fun tx n => Size tx + n) 0 (b_Transactions b) then ret (Some ErrBlockSizeLimit)
        else e <- consensusVerifyBlock (b_Header b) ;; ret (match e with Some _ => Some (ErrText "consensus verify fail") | None => None end)) c1
      (fun e c' => keeps bs c c' /\
        (e = None -> acceptable c bs b) /\
        (forall err, e = Some err -> isConsensusError err = false))) as Hgo.
  { intros w -> Hw. destruct (_ <? _) eqn:Es; [apply runs_ret; split; [done|split; [done|by intros ? [= <-]]]|].
    apply runs_bind. eapply runs_mono; [by apply (consensusVerifyBlock_ok c1 bs b p)| |].
    { intros msg c2 [Hk2 Hpp]. split; [by apply (keeps_trans bs c c1)|done]. }
    intros e c2 [Hk2 He].
    apply runs_ret. split; [by apply (keeps_trans bs c c1)|]. destruct e as [err|]; (split; [|by intros ? [= <-]]); [done|].
    intros _. split; [|split; [by exists t, bs'|apply size_bound; by apply Z.ltb_ge]]. exists p. destruct (He eq_refl) as (F1 & F2 & F4). split_and!; try done.
    intros cp. rewrite <- (cpOf_touch bs c c1 Ht). apply F4. }
  destruct (compareBlockWeight (b_Header t) (b_Header b)) eqn:Ew; [by apply (Hgo Eq)|by apply (Hgo Lt)|].
  apply runs_ret. split; [done|split; [done|by intros ? [= <-]]].
Qed.

(** ** Executing and committing *)

Lemma inv_verified c bs v : chainInv c bs -> (forall h ps, held v h = Some ps -> vetted h ps) -> chainInv (setVerified v c) bs.
Proof. by intros [] ?; constructor. Qed.

Lemma inv_pool c bs p : chainInv c bs -> chainInv (setPool p c) bs.
Proof. by intros []; constructor. Qed.

Lemma validateTxs_ok c bs b :
  chainInv c bs ->
  runs (fun msg c' => keeps bs c c' /\ partPanics b msg c') (validateTxs b) c (fun _ c' => keeps bs c c' /\ latestCP c' = latestCP c).
Proof.
  intros Hc. unfold runs, validateTxs. destruct (collectTxs _ _) as [rets|] eqn:Er; [|done].
  destruct (pool_batchAdd _ _) as [[added|[]|msg] p] eqn:Ep; (split; [split; [by apply inv_pool|done]|]); [done|].
  by apply (panics_txs _ _ _ (ch_pool c) rets).
Qed.

Lemma executeTransaction_ok c bs b slice :
  chainInv c bs -> length slice = length (b_Transactions b) ->
  runs (fun msg c' => keeps bs c c' /\ partPanics b msg c') (executeTransaction b slice) c
    (fun r c' => keeps bs c c' /\ forall ps, r = Some ps -> vetted (hashOf b) ps).
Proof.
  intros Hc Hlen. apply runs_bind, runs_get. destruct (cacheGet (bh_Hash (b_Header b)) (verifiedBlocks c)) as [cached v] eqn:E.
  pose proof (cacheGet_held (bh_Hash (b_Header b)) (verifiedBlocks c)) as Hget. pose proof (cacheGet_keeps (bh_Hash (b_Header b)) (verifiedBlocks c)) as Hkeep.
  rewrite E in Hget, Hkeep. simpl in Hget, Hkeep. apply runs_bind, runs_modify.
  assert (keeps bs c (setVerified v c)) as Hk.
  { split; [|done]. apply inv_verified; [done|]. intros h ps. rewrite Hkeep. apply (ci_verified _ _ Hc). }
  destruct cached as [ps|].
  { apply runs_ret. split; [done|]. intros ? [= <-]. by apply (ci_verified _ _ Hc). }
  destruct (queryBlockHeaderByHash _ _) as [pre|] eqn:Eq; [|by apply runs_ret].
  destruct (negb (canOpen _ _)); [by apply runs_ret|]. apply runs_bind.
  destruct (processBlock _ _ _ _ _) as [[[[[[stateTree evictTxs] executed] receipts] gasFee] st]|[]|msg] eqn:Ep; simpl.
  2:{ apply runs_panic. split; [done|]. by apply (panics_process _ _ _ pre slice). }
  apply runs_ret. case_bool_decide as H1; [|by apply runs_ret]. destruct (_ =? _)%nat; [|by apply runs_ret].
  destruct (gasFee =? _) eqn:H2; [|by apply runs_ret]. case_bool_decide as H3; [|by apply runs_ret].
  case_bool_decide as H4; [|by apply runs_ret]. simpl. apply runs_bind, runs_modify, runs_ret.
  apply Z.eqb_eq in H2. assert (vetted (hashOf b) (mkPost st receipts evictTxs executed)) as Hv.
  { unfold vetted. do 5 eexists. exists (b_Header b). simpl. rewrite Ep, H2, H3. done. }
  split; [|by intros ? [= <-]]. destruct Hk as (Hk & _). split; [|done]. apply inv_verified; [done|].
  intros h ps [[-> ->]|[_ Hh]]%cacheAdd_held; [done|by apply (ci_verified _ _ Hk)].
Qed.

Lemma commitBlock_ok c p bs b ps :
  chainInv c (p :: bs) -> hasBlock (ch_db c) (hashOf b) = false -> bh_PreHash (b_Header b) = hashOf p -> heightOf p < heightOf b ->
  Z.of_nat (length (b_Transactions b)) < 2 ^ 15 -> vetted (hashOf b) ps ->
  runs (fun msg c' => c' = c /\ partPanics b msg c') (commitBlock b ps) c (fun ok c' => chainInv c' (if ok then b :: p :: bs else p :: bs) /\
    (ok = true -> saveBlockState (ch_db c) (latestCP c) (b_Header b) (ps_state ps) (ch_states c) = Ok (ch_states c'))).
Proof.
  intros Hc Hno Hpre Hlt Hlen Hv. unfold runs, commitBlock.
  destruct (Marshal (b_Header b)) as [x|] eqn:Hx; destruct (encodeBlockTransactions (b_Transactions b)) as [y|e|msg] eqn:Hy;
    try done; try by destruct (encode_no_panic _ _ Hy).
  destruct (shutdowning c); [done|].
  destruct (saveBlockState _ _ _ _ _) as [st|e|msg] eqn:Hs; [|done|split; [done|by apply (panics_save _ _ _ ps)]].
  destruct (SaveReceipts rc_TxHash (ps_receipts ps)) as [rs|e|msg] eqn:Hr;
    try (split; [by destruct Hc; constructor|done]).
  split; [|done]. apply inv_pool. destruct Hc as [H1 H2 H3 H4 H5 H6]. constructor; simpl; try done.
  - apply (push_stored _ _ _ b x y rs); try done. by apply (SaveReceipts_aside rc_TxHash (ps_receipts ps)).
  - intros h b' Hb. destruct (H3 h b' Hb). split; [by right|done].
  - intros b' [->|Hb]%elem_of_cons; [done|by apply H5].
  - intros cp Hcp. destruct (H6 cp Hcp) as (b' & Hb & E). exists b'. split; [by right|done].
Qed.

(** The block is on the top, its state saved and its results checked. *)
Definition added c' bs b : Prop :=
  chainInv c' (b :: bs) /\ exists ps d cp s, vetted (hashOf b) ps /\ saveBlockState d cp (b_Header b) (ps_state ps) s = Ok (ch_states c').

Lemma commitOn_ok c p bs b txs :
  chainInv c (p :: bs) -> hasBlock (ch_db c) (hashOf b) = false -> bh_PreHash (b_Header b) = hashOf p -> heightOf p < heightOf b ->
  Z.of_nat (length (b_Transactions b)) < 2 ^ 15 ->
  runs (fun msg c' => chainInv c' (p :: bs) /\ partPanics b msg c') (commitOn b txs) c
    (fun r c' => r = AddBlockSucc /\ added c' (p :: bs) b \/ r = AddBlockFailed /\ chainInv c' (p :: bs)).
Proof.
  intros Hc Hno Hpre Hlt Hlen. apply runs_bind.
  assert (runs (fun msg c' => chainInv c' (p :: bs) /\ partPanics b msg c') (transitAndCommit b txs) c
    (fun ok c' => if ok then added c' (p :: bs) b else chainInv c' (p :: bs))) as Ht.
  { apply runs_bind, runs_get. destruct (Nat.eqb_spec (length (b_Transactions b)) (length txs)) as [El|]; [|by apply runs_ret].
    cbn [negb]. destruct (negb _); [by apply runs_ret|].
    apply runs_bind. eapply runs_mono; [by apply (executeTransaction_ok c (p :: bs))|by intros msg c1 [[? _] ?]|]. intros r c1 [Hk Hv].
    destruct r as [ps|]; [|apply runs_ret; apply Hk]. assert (chainInv c1 (p :: bs)) as Hc1 by apply Hk.
    eapply runs_mono; [apply (commitBlock_ok c1 p bs b ps); auto; destruct Hk as (_ & E & _); by rewrite E|by intros msg c2 [-> ?]|].
    intros [|] c2 [H1 H2]; [|done]. split; [done|]. exists ps. do 3 eexists. split; [by apply Hv|by apply H2]. }
  eapply runs_mono; [exact Ht|done|]. intros [|] c1 H1; [|apply runs_ret; by right].
  apply runs_bind, runs_modify, runs_ret. left. split; [done|]. destruct H1 as [[C1 C2 C3 C4 C5 C6] H2]. split; [|done].
  constructor; simpl; try done. intros h b' [[-> ->]|[_ Hh]]%cacheAdd_held; [split; [left|done]|by apply C3].
Qed.

(** ** Resetting *)

Lemma body_read d bs b :
  stored d bs -> b ∈ bs -> Z.of_nat (length (b_Transactions b)) < 2 ^ 15 -> exists raws, queryBlockTransactionsAll d (hashOf b) = Ok raws.
Proof.
  intros Hs Hb Hlen. destruct (hd_txs _ _ (st_holding _ _ Hs) b Hb) as (y & Hy & Hd). unfold queryBlockTransactionsAll. rewrite Hd.
  destruct (decodeBlockTransactions y) as [raws|e|msg] eqn:E; [by eexists|by eexists|]. by destruct (body_no_panic _ _ msg Hy Hlen).
Qed.

(** Going down from a block reaches the [k]-th one below it. *)
Lemma removeDown_ok d bs k t fuel pre b l :
  stored d bs -> (forall b, b ∈ bs -> Z.of_nat (length (b_Transactions b)) < 2 ^ 15) ->
  bs = pre ++ b :: l -> (b :: l) !! k = Some t -> (k < fuel)%nat ->
  exists r, removeDown fuel d (hashOf t) (b_Header b) = Ok r /\
    rm_blocks r = b_Header <$> take k (b :: l) /\ rm_batch r = concat (blockDeletes <$> rm_blocks r).
Proof.
  intros Hs Hlen. revert k pre b l. induction fuel as [|fuel IH]; intros k pre b l Ebs Ht Hk; [lia|]. cbn [removeDown].
  assert (forall i x, (b :: l) !! i = Some x -> x ∈ bs) as Hin.
  { intros i x Hx. rewrite Ebs. apply elem_of_app. right. by apply (list_elem_of_lookup_2 _ i). }
  assert (forall i x, (b :: l) !! i = Some x -> hashOf x = hashOf t -> i = k) as Huniq.
  { intros i x Hx E. rewrite (hash_inj d bs x t Hs (Hin i x Hx) (Hin k t Ht) E) in Hx.
    pose proof (linked_sorted bs (st_linked _ _ Hs)) as Hso. rewrite Ebs in Hso. apply StronglySorted_app_1_r in Hso.
    destruct (lt_eq_lt_dec i k) as [[Hl|Hl]|Hl]; [|done|].
    - pose proof (heights_decrease _ _ _ _ _ Hso Hx Ht Hl). lia.
    - pose proof (heights_decrease _ _ _ _ _ Hso Ht Hx Hl). lia. }
  change (bh_Hash (b_Header b)) with (hashOf b). case_bool_decide as H0.
  { rewrite <- (Huniq 0%nat b eq_refl H0). by eexists. }
  destruct (body_read d bs b Hs) as [raws Hr]; [by apply (Hin 0%nat)|by apply Hlen, (Hin 0%nat)|]. rewrite Hr. cbn [obind].
  destruct k as [|k]; [by injection Ht as ->|]. destruct l as [|p l]; [done|].
  assert (bh_PreHash (b_Header b) = hashOf p) as Hpre.
  { apply (linked_next bs (length pre)); [apply Hs| |]; rewrite Ebs, lookup_app_r by lia; [by rewrite Nat.sub_diag|].
    by replace (S (length pre) - length pre)%nat with 1%nat by lia. }
  rewrite Hpre. case_bool_decide as H1.
  { injection (Huniq 1%nat p eq_refl H1) as <-. by eexists. }
  rewrite (header_read d bs p) by (apply Hs || by apply (Hin 1%nat)).
  destruct (IH k (pre ++ [b]) p l) as (r & Hd & Hb & Hw); [by rewrite Ebs, <- app_assoc|done|lia|].
  rewrite Hd. cbn [obind]. eexists. split; [done|]. cbn [rm_blocks rm_batch]. rewrite Hb, Hw, Hb. done.
Qed.

Lemma chain_size d bs : stored d bs -> (length bs <= size (blocks d))%nat.
Proof.
  intros Hs. assert (NoDup (hashOf <$> bs)) as Hnd.
  { apply NoDup_fmap_2_strong; [intros x y; by apply (hash_inj d)|]. pose proof (linked_sorted bs (st_linked _ _ Hs)) as Hso. clear Hs.
    induction Hso as [|b bs Hso IH Hall]; constructor; [|done]. rewrite Forall_forall in Hall. intros Hb. specialize (Hall b Hb).
    unfold higher in Hall. lia. }
  rewrite <- (length_fmap hashOf), <- size_dom, <- (size_list_to_set (C := gset Hash)) by done. apply subseteq_size. intros h.
  rewrite elem_of_list_to_set, elem_of_dom. intros (b & -> & Hb)%list_elem_of_fmap.
  destruct (hd_header _ _ (st_holding _ _ Hs) b Hb) as (x & _ & ->). by eexists.
Qed.

Lemma removed_held {V} `{LL : LruLaws Hash V} `{!LruMore Hash V} `{!LruMoreLaws Hash V} (hs : list BlockHeader) (t : cache Hash V) h v :
  held (fold_left (fun t b => cacheRemove (bh_Hash b) t) hs t) h = Some v -> held t h = Some v /\ forall b, b ∈ hs -> bh_Hash b <> h.
Proof.
  revert t. induction hs as [|b hs IH]; intros t; simpl; [intros Hh; split; [done|by intros ? ?%not_elem_of_nil]|].
  intros [Hh Hn]%IH. apply cacheRemove_held in Hh as [Hne Hh]. split; [done|]. intros b' [->|Hb]%elem_of_cons; [done|by apply Hn].
Qed.

Lemma resetTop_ok c bs k t :
  chainInv c bs -> bs !! k = Some t ->
  returns (resetTop (b_Header t)) c (fun ok c' => chainInv c' (if ok then drop k bs else bs) /\
    (ok = true <-> shutdowning c = false /\ (k = 0%nat \/ canOpen (ch_states c) (bh_StateTree (b_Header t)) = true)) /\
    (ok = true -> forall h, is_Some (blocks (ch_db c') !! h) -> is_Some (blocks (ch_db c) !! h))).
Proof.
  intros Hc Ht. unfold returns, resetTop. destruct (shutdowning c); [do 2 eexists; split; [done|]; split_and!; [done|by split; [|intros []]|done]|]. rewrite (ci_latest _ _ Hc).
  destruct bs as [|top bs]; [done|]. change (b_Header <$> head (top :: bs)) with (Some (b_Header top)). cbv iota beta. case_bool_decide as He.
  { assert (t = top) as ->. { apply (hash_inj (ch_db c) (top :: bs)); [apply Hc|by apply (list_elem_of_lookup_2 _ k)|left|done]. }
    assert (k = 0%nat) as ->.
    { destruct k as [|k]; [done|]. pose proof (heights_decrease (top :: bs) 0 (S k) top top (linked_sorted _ (st_linked _ _ (ci_stored _ _ Hc))) eq_refl Ht). lia. }
    do 2 eexists. split; [done|]. split_and!; [done|by split; [auto|]|done]. }
  destruct (removeDown_ok (ch_db c) (top :: bs) k t (S (size (blocks (ch_db c)))) [] top bs) as (r & Hr & Hb & Hw);
    [apply Hc|apply Hc|done|done| |].
  { pose proof (chain_size _ _ (ci_stored _ _ Hc)). apply lookup_lt_Some in Ht. lia. }
  unfold hashOf in Hr. rewrite Hr. assert (forall h b, held (removeTops (rm_blocks r) (topRawBlocks c)) h = Some b -> b ∈ drop k (top :: bs) /\ hashOf b = h) as Htop.
  { intros h b [Hh Hn]%removed_held. destruct (ci_top _ _ Hc h b Hh) as [Hin <-]. split; [|done].
    rewrite <- (take_drop k (top :: bs)) in Hin. apply elem_of_app in Hin as [Hin|Hin]; [|done].
    destruct (Hn (b_Header b)); [|done]. rewrite Hb. by apply list_elem_of_fmap_2. }
  assert (drop k (top :: bs) ⊆ top :: bs) as Hsub by (intros x Hx; rewrite <- (take_drop k (top :: bs)); apply elem_of_app; by right).
  assert (k <> 0%nat) as Hk0 by (intros ->; by injection Ht as ->).
  destruct (canOpen _ _) eqn:Eo; cbn [negb].
  2:{ do 2 eexists. split; [done|]. split_and!; [|by split; [|intros [_ []]]|done]. destruct Hc as [H1 H2 H3 H4 H5 H6]. constructor; simpl; try done.
    intros h b Hh. destruct (Htop h b Hh). split; [by apply Hsub|done]. }
  do 2 eexists. split; [done|]. destruct Hc as [H1 H2 H3 H4 H5 H6].
  assert (stored (writeKvs (rm_batch r ++ DeleteReceipts (tx_Hash <$> rm_txs r) ++ [KvStatus (bh_Hash (b_Header t))]) (ch_db c)) (drop k (top :: bs))) as Hst.
  { rewrite Hw, Hb. apply pops_stored; [done|done|apply DeleteReceipts_aside]. }
  split_and!; [constructor; cbn [setCP setPool setLatest setStates setVerified setDb setTop ch_db latestBlock latestCP topRawBlocks verifiedBlocks]|by split; [auto|]|].
  - exact Hst.
  - by rewrite <- head_drop_lookup, Ht.
  - exact Htop.
  - intros h ps [Hh _]%removed_held. by apply H4.
  - intros b Hin. by apply H5, Hsub.
  - done.
  - intros _ h (b & Hin & <-)%(hd_header_only _ _ (st_holding _ _ Hst)).
    destruct (hd_header _ _ (st_holding _ _ H1) b (Hsub b Hin)) as (x & _ & ->). by eexists.
Qed.

(** ** Adding *)

(** The top [k] blocks give way to [b] only if it weighs more than the top. *)
Definition giveWay bs (b : Block) (k : nat) : Prop :=
  (k < length bs)%nat /\ forall t, head bs = Some t -> (0 < k)%nat -> compareBlockWeight (b_Header t) (b_Header b) = Lt.

(** The blocks after adding [b]. *)
Definition addedTo bs (b : Block) (r : AddBlockResult) c' bs' : Prop :=
  match r with
  | AddBlockSucc => exists k, giveWay bs b k /\ bs' = b :: drop k bs /\ added c' (drop k bs) b
  | AddBlockFailed => exists k, giveWay bs b k /\ bs' = drop k bs
  | AddBlockExisted | AddBlockLessWeightThanLocal => bs' = bs
  | AddBlockZero | AddBlockConsensusFailed => False
  end.

(** What is at or below the predecessor of the block stays. *)
Definition keepsBelow bs (h : Z) bs' : Prop := forall x, x ∈ bs -> heightOf x <= h -> x ∈ bs'.

Lemma giveWay_0 bs b : linked bs -> giveWay bs b 0.
Proof. intros Hl. split; [destruct Hl; simpl; lia|]. intros. lia. Qed.

Lemma keepsBelow_drop bs k p : linked bs -> bs !! k = Some p -> keepsBelow bs (heightOf p) (drop k bs).
Proof.
  intros Hl Hp x [i Hi]%list_elem_of_lookup Hx. destruct (decide (i < k)%nat) as [Hlt|Hge].
  - pose proof (heights_decrease bs i k x p (linked_sorted bs Hl) Hi Hp Hlt). lia.
  - apply (list_elem_of_lookup_2 _ (i - k)). rewrite lookup_drop. by replace (k + (i - k))%nat with i by lia.
Qed.

Lemma keepsBelow_refl bs h : keepsBelow bs h bs.
Proof. by intros x. Qed.

Lemma keepsBelow_cons bs h b bs' : keepsBelow bs h bs' -> keepsBelow bs h (b :: bs').
Proof. intros Hk x Hx Hh. right. by apply Hk. Qed.

(** A panic while [b] is added leaves the chain, cut back to its predecessor at most. *)
Definition panicked bs (b : Block) (h : Z) (msg : string) c' : Prop :=
  partPanics b msg c' /\ exists k, giveWay bs b k /\ chainInv c' (drop k bs) /\ keepsBelow bs h (drop k bs).

(** On the top or, after a reset, on its predecessor. *)
Lemma commitAt_ok c bs b txs k p :
  chainInv c (drop k bs) -> bs !! k = Some p -> linked bs -> hasBlock (ch_db c) (hashOf b) = false ->
  bh_PreHash (b_Header b) = hashOf p -> heightOf p < heightOf b -> Z.of_nat (length (b_Transactions b)) < 2 ^ 15 -> giveWay bs b k ->
  runs (panicked bs b (heightOf p)) (commitOn b txs) c (fun r c' => exists bs', chainInv c' bs' /\ addedTo bs b r c' bs' /\ keepsBelow bs (heightOf p) bs').
Proof.
  intros Hc Hp Hl Hno Hpre Hlt Hlen Hg. pose proof (keepsBelow_drop bs k p Hl Hp) as Hkeep.
  assert (exists rest, drop k bs = p :: rest) as [rest E].
  { rewrite head_drop_lookup in Hp. destruct (drop k bs) as [|q rest]; [done|]. injection Hp as ->. by exists rest. }
  rewrite E in Hc. eapply runs_mono; [by apply (commitOn_ok c p rest b txs)| |].
  { intros msg c' [H1 H2]. split; [done|]. exists k. by rewrite E in *. }
  intros r c' [[-> Ha]|[-> Hc']].
  - exists (b :: p :: rest). split; [apply Ha|]. split; [|rewrite <- E; by apply keepsBelow_cons].
    exists k. rewrite E. split; [done|]. by split.
  - exists (p :: rest). split; [done|]. split; [|by rewrite <- E]. exists k. by rewrite E.
Qed.

Lemma addOnTop_ok c bs b txs p :
  chainInv c bs -> p ∈ bs -> bh_PreHash (b_Header b) = hashOf p -> heightOf p < heightOf b -> Z.of_nat (length (b_Transactions b)) < 2 ^ 15 ->
  runs (panicked bs b (heightOf p)) (addOnTop b txs) c (fun r c' => exists bs', chainInv c' bs' /\ addedTo bs b r c' bs' /\ keepsBelow bs (heightOf p) bs').
Proof.
  intros Hc Hp Hpre Hlt Hlen. pose proof (st_linked _ _ (ci_stored _ _ Hc)) as Hl.
  apply runs_bind, runs_gets. rewrite (ci_latest _ _ Hc). destruct bs as [|top bs]; [by inversion Hl|].
  change (b_Header <$> head (top :: bs)) with (Some (b_Header top)). cbv iota beta.
  eapply runs_step; [by apply (HasBlock_ok c (top :: bs))|]. intros has c1 [-> Ht1].
  pose proof (touch_inv _ _ _ Ht1 Hc) as Hc1. destruct (hasBlock _ _) eqn:Hno; [apply runs_ret; exists (top :: bs); by split_and!; [| |apply keepsBelow_refl]|].
  eapply runs_step; [by apply (HasBlock_ok c1 (top :: bs))|]. intros has c2 [-> Ht2].
  pose proof (touch_inv _ _ _ Ht2 Hc1) as Hc2. rewrite (touch_db _ _ Ht1), Hpre.
  assert (hasBlock (ch_db c) (hashOf p) = true) as Hhas by (apply (hasBlock_spec _ (top :: bs)); [apply Hc|by exists p]). rewrite Hhas.
  rewrite <- (touch_db _ _ Ht1), <- (touch_db _ _ Ht2) in Hno. cbn [negb]. case_bool_decide as He.
  { apply (commitAt_ok c2 (top :: bs) b txs 0 p); try done; [|by apply giveWay_0].
    simpl. f_equal. apply (hash_inj (ch_db c) (top :: bs)); [apply Hc|left|done|done]. }
  eapply runs_step; [by apply (compareChainWeight_ok c2 (top :: bs))|]. intros w ? (-> & t & bs' & [= <- <-] & ->).
  destruct (compareBlockWeight (b_Header top) (b_Header b)) eqn:Ew; [apply runs_ret; exists (top :: bs); by split_and!; [| |apply keepsBelow_refl]| |apply runs_ret; exists (top :: bs); by split_and!; [| |apply keepsBelow_refl]].
  apply runs_bind, runs_get. rewrite (header_read _ (top :: bs) p) by (apply Hc2 || done).
  pose proof Hp as [k Hk]%list_elem_of_lookup. assert (giveWay (top :: bs) b k) as Hg.
  { split; [by apply lookup_lt_Some in Hk|]. by intros t [= <-] _. }
  eapply runs_step; [by apply (resetTop_ok c2 (top :: bs) k p)|]. intros ok c3 (Hc3 & _ & Hsub).
  destruct ok; cbn [negb].
  2:{ apply runs_ret. exists (top :: bs). split; [done|]. split; [|apply keepsBelow_refl]. exists 0%nat. split; [by apply giveWay_0|done]. }
  apply runs_bind, runs_gets. rewrite (ci_latest _ _ Hc3), <- head_drop_lookup, Hk. simpl. rewrite bool_decide_eq_true_2 by done.
  apply (commitAt_ok c3 (top :: bs) b txs k p); try done. unfold hasBlock in *. apply bool_decide_eq_false in Hno. apply bool_decide_eq_false.
  intros Hs. by apply Hno, Hsub.
Qed.

Lemma addBlock_ok c bs b :
  chainInv c bs -> rises bs b ->
  runs (fun msg c' => exists h, panicked bs b h msg c' /\ forall cp, cpOf c bs = Some cp -> bh_Height cp <= h)
    (addBlockOnChain b) c (fun r c' => exists bs', chainInv c' bs' /\ addedTo bs b r c' bs' /\
    forall cp, cpOf c bs = Some cp -> keepsBelow bs (bh_Height cp) bs').
Proof.
  intros Hc Hrise. pose proof (st_linked _ _ (ci_stored _ _ Hc)) as Hl. unfold addBlockOnChain.
  assert (forall c' r, chainInv c' bs -> r = AddBlockFailed \/ r = AddBlockExisted -> exists bs', chainInv c' bs' /\ addedTo bs b r c' bs' /\
    forall cp, cpOf c bs = Some cp -> keepsBelow bs (bh_Height cp) bs') as Hsame.
  { intros c' r Hc' Hr. exists bs. split; [done|]. split; [|intros cp _; apply keepsBelow_refl]. destruct Hr as [-> | ->]; [|done].
    exists 0%nat. split; [by apply giveWay_0|done]. }
  case_bool_decide as Hh; [|apply runs_ret; apply Hsame; [done|by left]]. cbn [negb].
  apply runs_bind, runs_gets, runs_bind. rewrite (ci_latest _ _ Hc).
  destruct bs as [|top bs]; [by inversion Hl|]. apply runs_ret.
  eapply runs_step; [by apply (HasBlock_ok c (top :: bs))|]. intros has c1 [-> Ht1]. pose proof (touch_inv _ _ _ Ht1 Hc) as Hc1.
  destruct (hasBlock _ _); [apply runs_ret; apply Hsame; [done|by right]|].
  assert (forall msg c', keeps (top :: bs) c1 c' /\ partPanics b msg c' ->
    exists h, panicked (top :: bs) b h msg c' /\ forall cp, cpOf c (top :: bs) = Some cp -> bh_Height cp <= h) as Hpan.
  { intros msg c' [[Hc' _] Hpp]. destruct (cpOf c (top :: bs)) as [cp|]; [exists (bh_Height cp)|exists 0];
      (split; [|intros ? [= <-]; lia || done]); (split; [done|]); exists 0%nat; (split_and!; [by apply giveWay_0|done|apply keepsBelow_refl]). }
  apply runs_bind. eapply runs_mono; [by apply (validateBlock_ok c1 (top :: bs))|done|]. intros e c2 (Hk2 & Hacc & Herr).
  destruct e as [err|]; [apply runs_ret; rewrite (Herr err eq_refl); apply Hsame; [apply Hk2|by left]|].
  destruct (Hacc eq_refl) as ((p & Hp & Hpre & Hcp) & _ & Hlen). pose proof (Hrise p Hp Hpre) as Hlt.
  apply runs_bind. eapply runs_mono; [apply (validateTxs_ok c2 (top :: bs)), Hk2| |].
  { intros msg c' [Hk' Hpp]. apply Hpan. split; [by apply (keeps_trans _ c1 c2)|done]. }
  intros txs c3 [Hk3 _].
  destruct txs as [slice|]; [|apply runs_ret; apply Hsame; [apply Hk3|by left]].
  eapply runs_mono; [by apply (addOnTop_ok c3 (top :: bs) b slice p); [apply Hk3| | | |]| |].
  { intros msg c' Hp'. exists (heightOf p). split; [done|]. intros cp. rewrite <- (cpOf_touch _ _ _ Ht1). apply Hcp. }
  intros r c4 (bs' & H1 & H2 & H3). exists bs'. split; [done|]. split; [done|]. intros cp Hcp' x Hx Hxh. apply H3; [done|].
  rewrite <- (cpOf_touch _ _ _ Ht1) in Hcp'. specialize (Hcp cp Hcp'). lia.
Qed.


(** ** Many blocks, and what follows *)

Lemma last_drop_keeps {A} (l : list A) k : (k < length l)%nat -> last (drop k l) = last l.
Proof.
  revert k. induction l as [|x l IH]; intros [|k] Hk; simpl in *; try done.
  rewrite IH by lia. by destruct l as [|y l]; [simpl in Hk; lia|].
Qed.

Lemma addedTo_genesis bs b r c' bs' : addedTo bs b r c' bs' -> last bs' = last bs.
Proof.
  destruct r; simpl; try done.
  - intros (k & [Hk _] & ->). by apply last_drop_keeps.
  - by intros ->.
  - by intros ->.
  - intros (k & [Hk _] & -> & _). rewrite last_cons, last_drop_keeps by done.
    destruct bs as [|x bs]; [simpl in Hk; lia|]. rewrite last_cons. by destruct (last bs).
Qed.

Lemma addedTo_sub bs b r c' bs' : addedTo bs b r c' bs' -> bs' ⊆ b :: bs.
Proof.
  assert (forall k x, x ∈ drop k bs -> x ∈ b :: bs) as Hd.
  { intros k x Hx. right. rewrite <- (take_drop k bs). apply elem_of_app. by right. }
  destruct r; simpl; try done.
  - intros (k & _ & ->) x. apply Hd.
  - intros -> x Hx. by right.
  - intros -> x Hx. by right.
  - intros (k & _ & -> & _) x [->|Hx]%elem_of_cons; [left|by apply (Hd k)].
Qed.

(** What adding the blocks [slice] keeps: a chain with the same genesis block, of the
    blocks it had and the new ones. *)
Definition grownFrom bs (slice : list Block) c' bs' : Prop :=
  chainInv c' bs' /\ last bs' = last bs /\ bs' ⊆ bs ++ slice.

Lemma app_sub {A} (l l1 l2 m1 m2 : list A) : l ⊆ l1 ++ l2 -> l1 ⊆ m1 ++ m2 -> l2 ⊆ m2 -> l ⊆ m1 ++ m2.
Proof.
  intros H1 H2 H3 x [Hx|Hx]%H1%elem_of_app; [by apply H2|]. apply elem_of_app. right. by apply H3.
Qed.

Lemma AddChainSlice_ok cb slice c bs :
  chainInv c bs -> Forall (rises (bs ++ slice)) slice ->
  runs (fun msg c' => exists bs' b, grownFrom bs slice c' bs' /\ b ∈ slice /\ partPanics b msg c') (AddChainSlice cb slice) c
    (fun _ c' => exists bs', grownFrom bs slice c' bs').
Proof.
  revert c bs. induction slice as [|b slice IH]; intros c bs Hc Hs; [apply runs_ret; exists bs; split_and!; [done|done|by rewrite app_nil_r]|].
  apply Forall_cons in Hs as [Hb Hs]. assert (bs ⊆ bs ++ b :: slice) as Hsub by (intros x; rewrite elem_of_app; by left).
  apply runs_bind. eapply runs_mono; [apply (addBlock_ok c bs); [done|intros p Hp; by apply Hb, Hsub]| |].
  { intros msg c1 (h & [Hpp (k & [Hk _] & H1 & _)] & _). exists (drop k bs), b. split; [|split; [left|done]].
    split_and!; [done|by apply last_drop_keeps|]. intros x Hx. apply Hsub. rewrite <- (take_drop k bs). apply elem_of_app. by right. }
  intros r c1 (bs1 & H1 & H2 & _). pose proof (addedTo_sub _ _ _ _ _ H2) as H3. apply addedTo_genesis in H2.
  assert (bs1 ⊆ bs ++ b :: slice) as Hsub1 by set_solver.
  destruct (cb b r); [|apply runs_ret; by exists bs1].
  eapply runs_mono; [apply (IH c1 bs1); [done|]| |].
  - eapply Forall_impl; [exact Hs|]. intros x Hx p Hp. apply Hx. set_solver.
  - intros msg c2 (bs2 & x & (H4 & H5 & H6) & Hx & Hpp). exists bs2, x. split; [|split; [by right|done]].
    split_and!; [done|by rewrite H5|]. eapply app_sub; [done..|]. set_solver.
  - intros _ c2 (bs2 & H4 & H5 & H6). exists bs2. split_and!; [done|by rewrite H5|]. eapply app_sub; [done..|]. set_solver.
Qed.

Lemma skipKnown_sub d slice : skipKnown d slice `suffix_of` slice.
Proof. induction slice as [|b slice IH]; [done|]. simpl. destruct (hasBlock _ _); [by apply suffix_cons_r|done]. Qed.

(** C4: adding the blocks of a peer, each higher than its predecessor, with a reset
    to the predecessor of the first one if that is allowed, returns and leaves a chain
    of blocks it had and blocks of the peer, with the same genesis block; refused
    blocks leave the chain as it was.  It panics only where a part panics on one of the
    blocks, and then too the stores hold such a chain. *)
Theorem batch_add_keeps_chain canReset raws cb c bs :
  chainInv c bs -> Forall (rises (bs ++ raws)) raws ->
  match batchAddBlockOnChain canReset raws cb c with
  | (Ok r, c') => exists bs', grownFrom bs raws c' bs' /\ (r = false -> bs' = bs)
  | (Err _, _) => False
  | (Panic msg, c') => exists bs' b, grownFrom bs raws c' bs' /\ b ∈ raws /\ partPanics b msg c'
  end.
Proof.
  intros Hc Hrise. enough (runs (fun msg c' => exists bs' b, grownFrom bs raws c' bs' /\ b ∈ raws /\ partPanics b msg c')
    (batchAddBlockOnChain canReset raws cb) c (fun r c' => exists bs', grownFrom bs raws c' bs' /\ (r = false -> bs' = bs))) as H by exact H.
  assert (forall c', chainInv c' bs -> exists bs', grownFrom bs raws c' bs' /\ (false = false -> bs' = bs)) as Hsame.
  { intros c' Hc'. exists bs. split; [|done]. split_and!; [done|done|set_solver]. }
  unfold batchAddBlockOnChain. destruct (negb _); [apply runs_ret; by apply Hsame|]. apply runs_bind, runs_get.
  pose proof (skipKnown_sub (ch_db c) raws) as [l Hsk]. destruct (skipKnown (ch_db c) raws) as [|b add] eqn:Ek; [apply runs_ret; by apply Hsame|].
  rewrite (ci_latest _ _ Hc). pose proof (st_linked _ _ (ci_stored _ _ Hc)) as Hl. destruct bs as [|top bs]; [by inversion Hl|].
  change (b_Header <$> head (top :: bs)) with (Some (b_Header top)). cbv iota beta.
  assert (forall k c1, chainInv c1 (drop k (top :: bs)) -> (k < length (top :: bs))%nat ->
    runs (fun msg c' => exists bs' b, grownFrom (top :: bs) raws c' bs' /\ b ∈ raws /\ partPanics b msg c')
      (AddChainSlice cb (b :: add) ;;; ret true) c1
      (fun r c' => exists bs', grownFrom (top :: bs) raws c' bs' /\ (r = false -> bs' = top :: bs))) as Hgo.
  { intros k c1 H1 Hk. assert (drop k (top :: bs) ⊆ (top :: bs) ++ raws) as Hd.
    { intros x Hx. apply elem_of_app. left. rewrite <- (take_drop k (top :: bs)). apply elem_of_app. by right. }
    assert (b :: add ⊆ raws) as Hadd by (rewrite Hsk; intros x Hx; apply elem_of_app; by right).
    apply runs_bind. eapply runs_mono; [apply (AddChainSlice_ok cb (b :: add) c1 _ H1)| |].
    - rewrite Hsk in Hrise. apply Forall_app in Hrise as [_ Hrise]. eapply Forall_impl; [exact Hrise|].
      intros x Hx p Hp. apply Hx. rewrite <- Hsk. by apply (app_sub _ _ _ (top :: bs) raws (reflexivity _) Hd Hadd).
    - intros msg c2 (bs2 & x & (H2 & H3 & H4) & Hx & Hpp). exists bs2, x. split; [|split; [by apply Hadd|done]].
      split_and!; [done|by rewrite H3, last_drop_keeps|]. by eapply app_sub.
    - intros _ c2 (bs2 & H2 & H3 & H4). apply runs_ret. exists bs2. split; [|done].
      split_and!; [done|by rewrite H3, last_drop_keeps|]. by eapply app_sub. }
  case_bool_decide; [apply runs_bind, runs_ret; apply (Hgo 0%nat); [done|simpl; lia]|].
  destruct canReset; cbn [negb]; [|apply runs_bind, runs_ret, runs_ret; by apply Hsame].
  apply runs_bind. eapply runs_step; [by apply (QueryBlockHeaderByHash_ok c (top :: bs))|]. intros pre c1 [-> Ht].
  pose proof (touch_inv _ _ _ Ht Hc) as Hc1. destruct (queryBlockHeaderByHash _ _) as [p|] eqn:Ep; [|by apply runs_ret, runs_ret; apply Hsame].
  apply (header_read_inv _ (top :: bs)) in Ep as (pb & Hpb & _ & <-); [|apply Hc]. apply list_elem_of_lookup in Hpb as [k Hk].
  apply runs_returns. eapply returns_mono; [by apply (resetTop_ok c1 (top :: bs) k pb)|]. intros [|] c2 [H1 _].
  - apply (Hgo k); [done|by apply lookup_lt_Some in Hk].
  - apply runs_ret. by apply Hsame.
Qed.

Lemma inv_cp c bs b : chainInv c bs -> b ∈ bs -> chainInv (setCP (Some (b_Header b)) c) bs.
Proof. intros [] Hb. constructor; try done. intros cp [= <-]. by exists b. Qed.

(** The event "block added" stores the checkpoint and adds the block that waited for it. *)
Lemma onBlockAddSuccess_ok c bs b :
  chainInv c bs -> (forall raw, fst (cacheGet (bh_Hash (b_Header b)) (futureRawBlocks c)) = Some raw -> rises bs raw) ->
  runs (fun msg c' => exists bs' raw, chainInv c' bs' /\ last bs' = last bs /\ partPanics raw msg c') (onBlockAddSuccess b) c
    (fun _ c' => exists bs', chainInv c' bs' /\ last bs' = last bs).
Proof.
  intros Hc Hrise. eapply runs_step; [by apply (CheckPointAt_ok c bs)|]. intros r c1 [-> Ht].
  pose proof (touch_inv _ _ _ Ht Hc) as Hc1.
  apply (runs_step _ _ _ _ (fun _ c2 => chainInv c2 bs /\ futureRawBlocks c2 = futureRawBlocks c)).
  { destruct Ht as [Ht _]. destruct (floorOf _ _) as [x|] eqn:E; [|apply returns_ret; split; [done|by rewrite Ht]].
    apply returns_modify. split; [|by rewrite Ht]. apply inv_cp; [done|]. by apply floorOf_elem in E as [? _]. }
  intros _ c2 [Hc2 Ef]. apply runs_bind, runs_get. rewrite Ef.
  destruct (cacheGet _ _) as [v f]. apply runs_bind, runs_modify. destruct v as [raw|]; [|apply runs_ret; exists bs; split; [by apply inv_future|done]].
  apply runs_bind. eapply runs_mono; [apply (addBlock_ok _ bs raw); [by apply inv_future|by apply Hrise]| |].
  - intros msg c3 (h & [Hpp (k & [Hk _] & H1 & _)] & _). exists (drop k bs), raw. split; [done|]. split; [by apply last_drop_keeps|done].
  - intros r c3 (bs' & H1 & H2%addedTo_genesis & _). apply runs_modify. exists bs'. split; [by apply inv_future|done].
Qed.

(** A block cast here is vetted by the execution that made it. *)
Lemma CastBlock_ok now height pv qn castor seed c bs :
  chainInv c bs ->
  runs (fun msg c' => c' = c /\ exists head pre, processBlock (ch_states c) head (pool_PackForCast (ch_pool c)) true pre = Panic msg)
    (CastBlock now height pv qn castor seed) c (fun r c' => keeps bs c c' /\
    forall b, r = Some b -> hashOf b = headerHash (b_Header b) /\ topHeight bs < heightOf b /\ bh_PreHash (b_Header b) = default zeroB32 (hashOf <$> head bs)).
Proof.
  intros Hc. apply runs_bind, runs_gets. rewrite (ci_latest _ _ Hc). destruct bs as [|top bs]; [by apply runs_ret|].
  change (b_Header <$> head (top :: bs)) with (Some (b_Header top)). cbv iota beta. apply runs_bind, runs_get.
  destruct (height <=? _) eqn:Eh; [by apply runs_ret|]. destruct (negb _); [by apply runs_ret|].
  cbv zeta. apply runs_bind.
  destruct (processBlock _ _ _ _ _) as [[[[[[root ev] txs] rs] gas] st]|[]|msg] eqn:Ep; cbn [ofPart]; [|apply runs_panic; eauto].
  apply runs_ret.
  destruct (if castElapsed _ _ <? _ then _ else _) as [cur el].
  apply runs_bind, runs_modify, runs_ret. split.
  - split; [|done]. apply inv_verified; [done|]. intros h ps [[-> ->]|[_ Hh]]%cacheAdd_held; [|by apply (ci_verified _ _ Hc)].
    unfold vetted. do 5 eexists. eexists (mkBlockHeader _ height _ el pv _ cur castor seed [] ChainDataVersion (calcTxTree txs) (receiptsTree rs) root [] [] gas).
    split; [reflexivity|]. simpl. by rewrite Ep.
  - intros b [= <-]. split; [done|]. split; [|done]. apply Z.leb_gt in Eh. exact Eh.
Qed.

End chain.

(** ** A third block on the chain of two *)

Section mapCache.
Context (V : Type).
#[local] Instance mapLru : LruCache Hash V := {|
  cache := gmap Hash V; cacheGet k c := (c !! k, c); cacheAdd k v c := <[k := v]> c;
  cacheContainsOrAdd k v c := match c !! k with Some _ => c | None => <[k := v]> c end |}.
#[local] Instance mapLruLaws : LruLaws Hash V.
Proof.
  refine {| held c k := c !! k |}; simpl; try done.
  - intros k v c k' v' [[<- <-]|[? ?]]%lookup_insert_Some; auto.
  - intros k v c. apply lookup_insert_eq.
  - intros k v c k' v'. destruct (c !! k); [auto|]. intros [[<- <-]|[? ?]]%lookup_insert_Some; auto.
Defined.
#[local] Instance mapLruMore : LruMore Hash V := {| cacheRemove k c := base.delete k (c : gmap Hash V); cacheKeys c := (map_to_list (c : gmap Hash V)).*1 |}.
#[local] Instance mapLruMoreLaws : LruMoreLaws Hash V.
Proof.
  constructor; simpl.
  - by intros k c k' v [? ?]%lookup_delete_Some.
  - intros k c. rewrite list_elem_of_fmap. split; [intros ([k' v] & -> & Hv%elem_of_map_to_list); by exists v|].
    intros [v Hv]. exists (k, v). split; [done|by apply elem_of_map_to_list].
Defined.
End mapCache.

(** States that always open, executions without a result, and a pool that is empty. *)
#[local] Instance sampleParts : ChainParts := {|
  stateCache := unit; postState := unit; txPool := unit; canOpen _ _ := true;
  processBlock _ _ txs _ _ := Ok (zeroB32, [], txs, [], 0, tt);
  saveBlockState _ _ _ _ s := Ok s; deleteHeights _ s := s; receiptsTree _ := zeroB32;
  VerifyNewBlock _ _ bh pre := if bh_Height pre <? bh_Height bh then Ok tt else Panic "vrf height error";
  GetBlockMinElapse _ := 0; cp_checkpointAt _ _ _ := 0;
  pool_GetTransaction _ _ _ := None; pool_batchAdd txs p := (Ok (Some txs), p); pool_PackForCast _ := [];
  pool_contains _ _ := false; pool_RemoveFromPool _ p := p; pool_BackToPool _ _ p := p |}.
#[local] Instance samplePartsLaws : ChainPartsLaws.
Proof. by constructor. Qed.
#[local] Instance sampleCaches : ChainCaches :=
  {| block_lru := mapLru Block; block_lru_more := mapLruMore Block; post_lru := mapLru executePostState; post_lru_more := mapLruMore executePostState |}.
#[local] Instance noReceipts : Codec Receipt := {| Marshal _ := None; Unmarshal _ := None |}.
#[local] Instance noStake : WeightEnv := {| DefaultPVFunc := BigEndian.read; DefaultStakeGetter := None |}.

Definition sampleNextHash : Hash := Eval vm_compute in headerHash (plainHeader zeroB32 (smallHash 2) 2).
Definition sampleNext : Block := mkBlock (plainHeader sampleNextHash (smallHash 2) 2) [].
#[local] Instance theseCodecs : ChainCodecs := sampleCodecs [b_Header sampleNext].

Definition sampleChain : FullBlockChain := mkFull sampleDb tt tt (Some (b_Header sampleFirst)) None ∅ ∅ ∅ false.

Lemma sampleChain_inv : chainInv (BL := mapLruLaws Block) (VL := mapLruLaws executePostState) sampleChain [sampleFirst; sampleGenesis].
Proof.
  constructor; simpl; try done.
  - apply sampleDb_stored.
  - intros b. rewrite elem_of_cons, list_elem_of_singleton. by intros [-> | ->].
Qed.

Lemma sampleNext_rises : rises ([sampleFirst; sampleGenesis] ++ [sampleNext]) sampleNext.
Proof.
  intros p Hp E. rewrite elem_of_app, !elem_of_cons, elem_of_nil in Hp. destruct Hp as [[->|[->|[]]]|[->|[]]]; [done|..]; by vm_compute in E.
Qed.
Lemma sampleNext_rises_top : rises [sampleFirst; sampleGenesis] sampleNext.
Proof. intros p Hp. apply sampleNext_rises, elem_of_app. by left. Qed.


Lemma batch_add_keeps_chain_witness :
  exists r c' bs', batchAddBlockOnChain true [sampleNext] (fun _ _ => true) sampleChain = (Ok r, c') /\
    grownFrom (BL := mapLruLaws Block) (VL := mapLruLaws executePostState) [sampleFirst; sampleGenesis] [sampleNext] c' bs'.
Proof.
  assert (exists c', batchAddBlockOnChain true [sampleNext] (fun _ _ => true) sampleChain = (Ok true, c')) as [c' E] by (eexists; apply run_fst; vm_compute; reflexivity).
  pose proof (batch_add_keeps_chain (CP := sampleParts) (CC := sampleCaches) (CO := theseCodecs) (COL := sampleLaws [b_Header sampleNext]) (BM := mapLruMoreLaws Block) (VM := mapLruMoreLaws executePostState)
    true [sampleNext] (fun _ _ => true) sampleChain [sampleFirst; sampleGenesis] sampleChain_inv
    ltac:(constructor; [exact sampleNext_rises|constructor])) as Hb.
  rewrite E in Hb. destruct Hb as (bs' & H1 & _). exists true, c', bs'. split; [exact E|exact H1].
Defined.
