(* ===== verification/ChainReader.v ===== *)
(** * ChainReader: the queries of the chain

    [src/core/blockchain_reader.go]: queries that look into the cache of the top blocks
    first, and the account databases of a height and of a block hash.  They agree with
    the list of blocks, whether the cache has the block or not. *)
From Stdlib Require Import Sorting.Sorted.
From S2P Require Import Prelude Bytes Sha256 Types TxHash TxCodec Rewards Block Weight ChainStore Group Chain ChainInv ChainTheorems.
Local Open Scope Z_scope.
Local Open Scope zv_scope.

Section reader.
Context {CP : ChainParts} {CC : ChainCaches} {CO : ChainCodecs}.
Abbreviation CM A := (M FullBlockChain string A).

Definition QueryTopBlock : CM (option BlockHeader) := gets latestBlock.
Definition TotalQN : CM Z := gets (fun c => match latestBlock c with Some b => bh_TotalQN b | None => 0 end).
Definition HasHeight (height : Z) : CM bool := gets (fun c => hasHeight (ch_db c) height).

Definition QueryBlockHeaderByHeight (height : Z) : CM (option BlockHeader) :=
  b <- getTopBlockByHeight height ;;
  match b with Some blk => ret (Some (b_Header blk)) | None => gets (fun c => queryBlockHeaderByHeight (ch_db c) height) end.

(** The block of a header, with its transactions. *)
Definition withBody (bh : option BlockHeader) : CM (option Block) :=
  match bh with
  | None => ret None
  | Some h => c <- get ;; txs <- lift (queryBlockTransactionsAll (ch_db c) (bh_Hash h)) ;; ret (Some (mkBlock h txs))
  end.

Definition QueryBlockByHeight (height : Z) : CM (option Block) :=
  b <- getTopBlockByHeight height ;;
  match b with Some blk => ret (Some blk) | None => c <- get ;; withBody (queryBlockHeaderByHeight (ch_db c) height) end.

Definition QueryBlockByHash (hash : Hash) : CM (option Block) :=
  b <- getTopBlockByHash hash ;;
  match b with Some blk => ret (Some blk) | None => c <- get ;; lift (queryBlockByHash (ch_db c) hash) end.

Definition QueryBlockHeaderCeil (height : Z) : CM (option BlockHeader) :=
  b <- getTopBlockByHeight height ;;
  match b with Some blk => ret (Some (b_Header blk)) | None => gets (fun c => queryBlockHeaderCeil (ch_db c) height) end.

Definition QueryBlockCeil (height : Z) : CM (option Block) :=
  b <- getTopBlockByHeight height ;;
  match b with
  | Some blk => ret (Some blk)
  | None =>
      c <- get ;;
      match queryBlockHashCeil (ch_db c) height with Some hash => lift (queryBlockByHash (ch_db c) hash) | None => ret None end
  end.

Definition QueryBlockFloor (height : Z) : CM (option Block) :=
  b <- getTopBlockByHeight height ;;
  match b with Some blk => ret (Some blk) | None => c <- get ;; withBody (queryBlockHeaderByHeightFloor (ch_db c) height) end.

(** The root of the account database that is opened, if it opens. *)
Definition NewAccountDBAt (root : Hash) : CM (option Hash) := gets (fun c => if canOpen (ch_states c) root then Some root else None).

Definition LatestAccountDB : CM (option Hash) :=
  top <- QueryTopBlock ;;
  match top with Some bh => NewAccountDBAt (bh_StateTree bh) | None => nilPanic end.

(** The header found by its hash is a variable of the inner block. *)
Definition getAccountDBByHash (hash : Hash) : CM (option Hash) :=
  c <- get ;;
  let header := latestBlock c in
  if match header with None => true | Some h => negb (bool_decide (hash = bh_Hash h)) end && negb (bool_decide (is_Some (queryBlockHeaderByHash (ch_db c) hash)))
  then ret None
  else match header with Some h => NewAccountDBAt (bh_StateTree h) | None => nilPanic end.

Definition accountDBAt (height : Z) : CM (option Hash) :=
  c <- get ;;
  let header := match latestBlock c with
                | Some h => if height <? bh_Height h then queryBlockHeaderByHeightFloor (ch_db c) height else Some h
                | None => queryBlockHeaderByHeightFloor (ch_db c) height
                end in
  match header with Some h => NewAccountDBAt (bh_StateTree h) | None => ret None end.

(** [GetReceipt] gives the position of a transaction on the chain; a transaction
    that cannot be read there is one without contents, nothing here. *)
Definition GetTransactionByHash (getReceipt : chainDB -> Hash -> option Receipt) (onlyReward : bool) (h : Hash) : CM (option Transaction) :=
  c <- get ;;
  match pool_GetTransaction onlyReward h (ch_pool c) with
  | Some tx => ret (Some tx)
  | None =>
      match getReceipt (ch_db c) h with
      | Some rc =>
          raw <- lift (queryBlockTransactionsOptional (ch_db c) (rc_TxIndex rc) (rc_Height rc)) ;;
          ret (with_Hash (rc_TxHash rc) <$> raw)
      | None => ret None
      end
  end.

End reader.

Section facts.
Context {CP : ChainParts} {CC : ChainCaches} {CO : ChainCodecs} {COL : ChainCodecLaws} {CR : Codec Receipt} {WE : WeightEnv}.
Context {PL : ChainPartsLaws} {BL : LruLaws Hash Block} {BM : LruMoreLaws Hash Block}.
Context {VL : LruLaws Hash executePostState} {VM : LruMoreLaws Hash executePostState}.
Implicit Types (c : FullBlockChain) (bs : list Block).

Lemma getTopByHeight_ok h c bs :
  chainInv c bs -> returns (getTopBlockByHeight h) c (fun v c' => touch c c' /\ forall b, v = Some b -> b ∈ bs /\ heightOf b = h).
Proof. intros Hc. apply returns_bind, returns_gets. by apply topBlockOf_ok. Qed.

(** Blocks whose bodies survive the store. *)
Definition readable bs : Prop := forall b, b ∈ bs -> Forall fits (b_Transactions b).

Lemma body_reads c bs b : chainInv c bs -> readable bs -> b ∈ bs -> queryBlockTransactionsAll (ch_db c) (hashOf b) = Ok (b_Transactions b).
Proof.
  intros Hc Hr Hb. destruct (hd_txs _ _ (st_holding _ _ (ci_stored _ _ Hc)) b Hb) as (y & Hy & Hd). unfold queryBlockTransactionsAll. rewrite Hd.
  destruct (body_reads_back (b_Transactions b)) as (y' & Hy' & Hdec); [by apply Hr|by apply (ci_bodies _ _ Hc)|].
  rewrite Hy in Hy'. injection Hy' as <-. by rewrite Hdec.
Qed.

Lemma withBody_ok c bs b : chainInv c bs -> readable bs -> b ∈ bs -> returns (withBody (Some (b_Header b))) c (fun r c' => r = Some b /\ c' = c).
Proof.
  intros Hc Hr Hb. apply returns_bind, returns_get, returns_bind. unfold lift, returns.
  change (bh_Hash (b_Header b)) with (hashOf b). rewrite (body_reads c bs b Hc Hr Hb). do 2 eexists. split; [done|]. apply returns_ret. by destruct b.
Qed.

Lemma ceil_exact bs b : StronglySorted higher bs -> b ∈ bs -> last (filter (fun x => heightOf b <= heightOf x) bs) = Some b.
Proof.
  induction 1 as [|a bs Hs IH Hall]; [by intros ?%not_elem_of_nil|]. rewrite Forall_forall in Hall. intros [->|Hb]%elem_of_cons; rewrite filter_cons.
  - rewrite decide_True by lia. rewrite filter_none; [done|]. intros x Hx. specialize (Hall x Hx). unfold higher in Hall. lia.
  - specialize (Hall b Hb). unfold higher in Hall. rewrite decide_True by lia. rewrite last_cons, IH by done. done.
Qed.

Definition blockAt (h : Z) bs : option Block := head (filter (fun b => heightOf b = h) bs).
Definition ceilOf (h : Z) bs : option Block := last (filter (fun b => h <= heightOf b) bs).

Lemma blockAt_exact bs b : StronglySorted higher bs -> b ∈ bs -> blockAt (heightOf b) bs = Some b.
Proof. intros Hs Hb. unfold blockAt. by rewrite (head_filter_height bs (heightOf b) b). Qed.

Lemma blockAt_elem h bs b : blockAt h bs = Some b -> b ∈ bs.
Proof. intros Hb%head_Some_elem_of. apply list_elem_of_filter in Hb. tauto. Qed.
Lemma ceilOf_elem h bs b : ceilOf h bs = Some b -> b ∈ bs.
Proof. intros Hb%last_Some_elem_of. apply list_elem_of_filter in Hb. tauto. Qed.

(** A query of a block by height: the block of the cache, or else the header of the
    stores with its body. *)
Lemma block_query_ok h c bs (q : chainDB -> option BlockHeader) (o : option Block) :
  chainInv c bs -> readable bs -> q (ch_db c) = b_Header <$> o -> (forall b, o = Some b -> b ∈ bs) ->
  (forall b, b ∈ bs -> heightOf b = h -> o = Some b) ->
  returns (b <- getTopBlockByHeight h ;; match b with Some blk => ret (Some blk) | None => c <- get ;; withBody (q (ch_db c)) end) c
    (fun r c' => r = o /\ touch c c').
Proof.
  intros Hc Hr Hq Ho He. apply returns_bind. eapply returns_mono; [by apply getTopByHeight_ok|]. intros v c1 [Ht Hv].
  destruct v as [b|]; [apply returns_ret; split; [|done]; symmetry; destruct (Hv b eq_refl); by apply He|].
  apply returns_bind, returns_get. rewrite (touch_db _ _ Ht), Hq. destruct o as [b|]; [|by apply returns_ret].
  eapply returns_mono; [apply (withBody_ok c1 bs b); [by apply (touch_inv c)|done|by apply Ho]|]. by intros r c2 [-> ->].
Qed.

(** C6: over a chain whose bodies fit their encoding, asking for the block of a
    height, the highest block up to a height, or the state at a height returns exactly
    what the list of blocks has there, whether the block is cached or read from disk. *)
Theorem reader_agrees c bs h :
  chainInv c bs -> readable bs ->
  fst (QueryBlockByHeight h c) = Ok (head (filter (fun b => heightOf b = h) bs)) /\
  fst (QueryBlockFloor h c) = Ok (head (filter (fun b => heightOf b <= h) bs)) /\
  fst (QueryBlockHeaderCeil h c) = Ok (b_Header <$> last (filter (fun b => h <= heightOf b) bs)) /\
  fst (accountDBAt h c) = Ok (match head (filter (fun b => heightOf b <= h) bs) with
                              | Some b => if canOpen (ch_states c) (bh_StateTree (b_Header b)) then Some (bh_StateTree (b_Header b)) else None
                              | None => None
                              end).
Proof.
  intros Hc Hr. pose proof (linked_sorted bs (st_linked _ _ (ci_stored _ _ Hc))) as Hs. pose proof (ci_stored _ _ Hc) as Hst. split_and!.
  - destruct (block_query_ok h c bs (fun d => queryBlockHeaderByHeight d h) (blockAt h bs)) as (r & c' & E & -> & _); try done.
    + by apply byHeight_spec.
    + apply blockAt_elem.
    + intros b Hb <-. by apply blockAt_exact.
    + unfold QueryBlockByHeight. by rewrite E.
  - destruct (block_query_ok h c bs (fun d => queryBlockHeaderByHeightFloor d h) (floorOf h bs)) as (r & c' & E & -> & _); try done.
    + by apply floor_spec.
    + intros b Hb. by apply floorOf_elem in Hb as [? _].
    + intros b Hb <-. by apply floorOf_exact.
    + unfold QueryBlockFloor. by rewrite E.
  - assert (returns (QueryBlockHeaderCeil h) c (fun r _ => r = b_Header <$> ceilOf h bs)) as (r & c' & E & ->); [|by rewrite E].
    apply returns_bind. eapply returns_mono; [by apply getTopByHeight_ok|]. intros [b|] c1 [Ht Hv].
    + apply returns_ret. destruct (Hv b eq_refl) as [Hb <-]. unfold ceilOf. by rewrite (ceil_exact bs b).
    + apply returns_gets. rewrite (touch_db _ _ Ht). by apply ceil_spec.
  - unfold accountDBAt, bind, get. cbn [fst]. rewrite (ci_latest _ _ Hc). destruct bs as [|t bs]; [by inversion Hst as [Hl _ _]; inversion Hl|].
    cbn [head fmap option_fmap option_map]. rewrite (floor_spec _ (t :: bs) h Hst). unfold floorOf. simpl. destruct (h <? _) eqn:El.
    + by destruct (head (filter _ (t :: bs))).
    + rewrite filter_cons, decide_True by (apply Z.ltb_ge in El; exact El). done.
Qed.

(** Asking for the state of an older block gives that of the top. *)
Lemma state_by_hash_is_latest c bs t b :
  chainInv c (t :: bs) -> b ∈ bs ->
  fst (getAccountDBByHash (hashOf b) c) = Ok (if canOpen (ch_states c) (bh_StateTree (b_Header t)) then Some (bh_StateTree (b_Header t)) else None).
Proof.
  intros Hc Hb. unfold getAccountDBByHash, bind, get. cbn [fst]. rewrite (ci_latest _ _ Hc). cbn [head fmap option_fmap option_map].
  rewrite (header_read _ (t :: bs) b) by (apply Hc || by right). rewrite (bool_decide_eq_true_2 (is_Some _)) by (by eexists).
  rewrite andb_false_r. done.
Qed.

End facts.

Lemma reader_agrees_witness :
  fst (QueryBlockByHeight (CP := sampleParts) (CC := sampleCaches) (CO := theseCodecs) 1 sampleChain) = Ok (Some sampleFirst) /\
  fst (QueryBlockFloor (CP := sampleParts) (CC := sampleCaches) (CO := theseCodecs) 1 sampleChain) = Ok (Some sampleFirst).
Proof.
  destruct (reader_agrees (CP := sampleParts) (CC := sampleCaches) (CO := theseCodecs) (COL := sampleLaws [b_Header sampleNext])
    (VL := mapLruLaws executePostState) sampleChain [sampleFirst; sampleGenesis] 1 sampleChain_inv) as (H1 & H2 & _).
  - intros b. rewrite elem_of_cons, list_elem_of_singleton. intros [-> | ->]; constructor.
  - split; [exact H1|exact H2].
Defined.
