(* ===== verification/Prune.v ===== *)
(** * Prune: which states are kept

    [src/core/blockchain_store.go], [trie_small_db_store.go] and the pruning part of
    [src/storage/trie/database.go]: the state of every new block is retained in the
    node database and queued by its height; states far enough below the checkpoint are
    released, and from time to time a state is written to the disk.  What a block
    stored is also kept in a small database of its own, from which the disk is repaired
    after a power failure.

    The goroutine that deletes records of the small database runs at once here.  Sizes
    are integers.  [state.Commit] is an argument of the operation. *)
From S2P Require Import Prelude Bytes Types Checkpoint TxCodec ChainStore Prque Trie RlpStream TrieNode TrieDatabase TrieHasher TrieGC.
Local Open Scope Z_scope.
Local Open Scope zv_scope.

Definition TriesInMemory : Z := EpochLength * 4 + 20.

Record PruneConfig := mkPruneConfig {
  maxTriesInMemory : Z;
  everyClearFromMemory : Z;
  persistenceCount : Z;
}.

Record stateStore := mkStore {
  st_trie : NodeDatabase;
  st_lastPruneHeight : Z;
  st_lastPruneCount : Z;
  st_triegc : Prque Hash;
  st_small : gmap Z bytes;
}.

(** ** The node database *)

Definition setFullNodes (l : list (Hash * bytes)) (db : NodeDatabase) : NodeDatabase :=
  mkDatabase (diskdb db) (nodes db) (oldest db) (newest db) (childrenSize db) (nodesSize db) (enablePrune db) l.

Definition ResetNodeCache (db : NodeDatabase) : NodeDatabase := if enablePrune db then setFullNodes [] db else db.

Definition storeBlobType : Stream.goType := Stream.TStruct [Stream.TByteArray 32; Stream.TBytes].
Definition storeBlobVal (b : Hash * bytes) : Stream.goVal := Stream.VList [Stream.VBytes (b32_bytes b.1); Stream.VBytes b.2].
Definition blobOfVal (v : Stream.goVal) : Hash * bytes :=
  match v with Stream.VList [Stream.VBytes k; Stream.VBytes raw] => (BytesToHash k, raw) | _ => (zeroB32, []) end.

(** The record of a block, unless it stored nothing. *)
Definition InsertStateDataToSmallDb (height : Z) (db : NodeDatabase) (small : gmap Z bytes) : outcome string (gmap Z bytes) :=
  match commitFullNodes db with
  | [] => Ok small
  | full =>
      match Stream.EncodeToBytes (Stream.TSlice storeBlobType) (Stream.VList (storeBlobVal <$> full)) with
      | Ok dts => Ok (<[height := dts]> small)
      | Err _ => Err "encode error"
      | Panic p => Panic p
      end
  end.

(** What a decoder that fails has put into the slice: the elements before the one that
    failed, and for that one a nil pointer. *)
Fixpoint blobsRead (fuel : nat) (s : Stream.Stream) : outcome string (list (option (Hash * bytes))) :=
  match fuel with
  | O => Err "out of fuel"
  | S fuel' =>
      match Stream.decoder storeBlobType s with
      | (Ok v, s') => vs <-! blobsRead fuel' s' ;; Ok (Some (blobOfVal v) :: vs)
      | (Err e, _) => Ok (if bool_decide (e = Stream.EOL) then [] else [None])
      | (Panic p, _) => Panic p
      end
  end.

Definition leftBehind (data : bytes) : outcome string (list (option (Hash * bytes))) :=
  match Stream.List (Stream.NewStream data (Z.of_nat (length data))) with
  | (Ok sz, s) => if sz =? 0 then Ok [] else blobsRead (S (length (Stream.r s))) s
  | (Err _, _) => Ok []
  | (Panic p, _) => Panic p
  end.

(** Errors of the decoder are not reported: what it left behind is the result. *)
Definition DecodeStoreBlob (data : bytes) : outcome string (list (option (Hash * bytes))) :=
  match Stream.DecodeBytes (Stream.TSlice storeBlobType) data with
  | Ok (Stream.VList vs) => Ok (Some ∘ blobOfVal <$> vs)
  | Ok _ => Ok []
  | Err _ => leftBehind data
  | Panic p => Panic p
  end.

(** Keys that were written before are skipped; a nil pointer panics before the batch is
    written. *)
Fixpoint CommitStateDataToBigDb (blobs : list (option (Hash * bytes))) (s : gset Hash * gmap Hash bytes) :
    outcome string (gset Hash * gmap Hash bytes) :=
  match blobs with
  | [] => Ok s
  | None :: _ => Panic "invalid memory address or nil pointer dereference"
  | Some vl :: blobs' => CommitStateDataToBigDb blobs' (if bool_decide (vl.1 ∈ s.1) then s else ({[vl.1]} ∪ s.1, <[vl.1 := vl.2]> s.2))
  end.

(** ** The small database *)

Definition DeleteHeights (heights : list Z) (small : gmap Z bytes) : gmap Z bytes := fold_left (fun m h => base.delete h m) heights small.

(** The records from the lowest to the given height; keys are in the order of heights. *)
Definition DeletePreviousOf (height : Z) (small : gmap Z bytes) : gmap Z bytes := filter (fun kv => height < kv.1) small.

Definition byKey (x y : Z * bytes) : Prop := x.1 <= y.1.
#[local] Instance byKey_dec x y : Decision (byKey x y) := Z_le_dec x.1 y.1.
Definition records (small : gmap Z bytes) : list (Z * bytes) := merge_sort byKey (map_to_list small).

(** Merges the records from the lowest on, as long as their blocks are on the chain. *)
Fixpoint mergeRecords (d : chainDB) (topHeight : Z) (rs : list (Z * bytes)) (last : Z) (s : gset Hash * gmap Hash bytes) :
    outcome string (Z * gmap Hash bytes) :=
  match rs with
  | [] => Ok (last, s.2)
  | (height, value) :: rs' =>
      if topHeight <? height then Ok (last, s.2)
      else if negb (hasHeight d height) then Ok (last, s.2)
      else
        caches <-! DecodeStoreBlob value ;;
        s' <-! CommitStateDataToBigDb caches s ;;
        mergeRecords d topHeight rs' height s'
  end.

Definition CommitToBigDB (d : chainDB) (topHeight : Z) (s : stateStore) : outcome string (Z * stateStore) :=
  r <-! mergeRecords d topHeight (records (st_small s)) 0 (∅, diskdb (st_trie s)) ;;
  Ok (r.1, mkStore (setDisk r.2 (st_trie s)) (st_lastPruneHeight s) (st_lastPruneCount s) (st_triegc s) (st_small s)).

(** ** Choosing what to release *)

(** Takes the queue apart: what goes back and what is released, from the top down. *)
Fixpoint takeApart (fuel : nat) (cpHeight minSize count : Z) (temp : gset Z) (q : Prque Hash) :
    outcome string (list (Item Hash) * list (Item Hash) * Prque Hash) :=
  if Empty q then Ok ([], [], q)
  else
    match fuel with
    | O => Err "out of fuel"
    | S fuel' =>
        r <-! Pop q ;;
        let '(root, h, q') := r in
        if cpHeight <=? wrap64 h then
          t <-! takeApart fuel' cpHeight minSize count temp q' ;;
          let '(back, crop, q'') := t in Ok (mkItem root h :: back, crop, q'')
        else
          let count' := if bool_decide (wrap64 h ∈ temp) then count else count + 1 in
          t <-! takeApart fuel' cpHeight minSize count' ({[wrap64 h]} ∪ temp) q' ;;
          let '(back, crop, q'') := t in
          if count' <=? minSize then Ok (mkItem root h :: back, crop, q'') else Ok (back, mkItem root h :: crop, q'')
    end.

Fixpoint pushAll (items : list (Item Hash)) (q : Prque Hash) : outcome string (Prque Hash) :=
  match items with
  | [] => Ok q
  | it :: items' => q' <-! Push (it_Value it) (it_Priority it) q ;; pushAll items' q'
  end.

Definition getPruneHeights (cpHeight minSize : Z) (q : Prque Hash) : outcome string (list (Item Hash) * Prque Hash) :=
  if Empty q then Ok ([], q)
  else if cpHeight <=? minSize then Ok ([], q)
  else
    top <-! Peek q ;;
    if wrap64 top.2 <? cpHeight then Ok ([], q)
    else
      t <-! takeApart (Z.to_nat (QSize q)) cpHeight minSize 0 ∅ q ;;
      let '(back, crop, q') := t in
      q'' <-! pushAll back q' ;;
      Ok (crop, q'').

(** ** Saving a state *)

Definition viaTrie {A} (o : outcome trieError A) : outcome string A :=
  match o with Ok a => Ok a | Err _ => Err "trie" | Panic p => Panic p end.

Fixpoint dereferenceAll (items : list (Item Hash)) (db : NodeDatabase) : outcome string NodeDatabase :=
  match items with
  | [] => Ok db
  | it :: items' => db' <-! viaTrie (Dereference (it_Value it) db) ;; dereferenceAll items' db'
  end.

Section save.
Context `{ChainCodecs}.
Variable cfg : PruneConfig.

(** What follows when states were released: remember it and, every now and then,
    write the first state above them to the disk. *)
Definition persist (d : chainDB) (items : list (Item Hash)) (curPruneMaxHeight : Z) (s : stateStore) : outcome string stateStore :=
  let count := wrap64 (st_lastPruneCount s + Z.of_nat (length items)) in
  let s1 := mkStore (st_trie s) curPruneMaxHeight count (st_triegc s) (st_small s) in
  if negb (persistenceCount cfg <=? count) then Ok s1
  else
    match queryBlockHeaderCeil d (wrap64 (curPruneMaxHeight + 1)) with
    | None => Ok s1
    | Some bh =>
        db <-! viaTrie (CommitNode (bh_StateTree bh) (st_trie s1)) ;;
        Ok (mkStore db curPruneMaxHeight 0 (st_triegc s1) (DeletePreviousOf (bh_Height bh) (st_small s1)))
    end.

Definition pruneBlocks (d : chainDB) (cp : option BlockHeader) (height : Z) (root : Hash) (s : stateStore) : outcome string stateStore :=
  small <-! InsertStateDataToSmallDb height (st_trie s) (st_small s) ;;
  db1 <-! viaTrie (Reference root zeroB32 (st_trie s)) ;;
  q1 <-! Push root (int64 height) (st_triegc s) ;;
  nodeSize <-! viaTrie (Size db1) ;;
  db2 <-! (if maxTriesInMemory cfg <? nodeSize then viaTrie (Cap (maxTriesInMemory cfg - everyClearFromMemory cfg) db1) else Ok db1) ;;
  let s2 q := mkStore db2 (st_lastPruneHeight s) (st_lastPruneCount s) q small in
  match cp with
  | None => Ok (s2 q1)
  | Some cpBh =>
      p <-! getPruneHeights (bh_Height cpBh) TriesInMemory q1 ;;
      let '(items, q2) := p in
      match items with
      | [] => Ok (s2 q2)
      | first :: _ =>
          db3 <-! dereferenceAll (reverse items) db2 ;;
          persist d items (wrap64 (it_Priority first)) (mkStore db3 (st_lastPruneHeight s) (st_lastPruneCount s) q2 small)
      end
  end.

Definition saveBlockState (pruneMode : bool) (d : chainDB) (cp : option BlockHeader) (height : Z)
    (stateCommit : NodeDatabase -> outcome trieError (Hash * NodeDatabase)) (s : stateStore) : outcome string stateStore :=
  r <-! viaTrie (stateCommit (ResetNodeCache (st_trie s))) ;;
  let '(root, db) := r in
  let s1 := mkStore db (st_lastPruneHeight s) (st_lastPruneCount s) (st_triegc s) (st_small s) in
  if pruneMode && (0 <? height) then pruneBlocks d cp height root s1
  else db' <-! viaTrie (CommitNode root db) ;; Ok (mkStore db' (st_lastPruneHeight s) (st_lastPruneCount s) (st_triegc s) (st_small s)).

(** On shutdown the first state above the released ones is written. *)
Definition PersistentState (d : chainDB) (s : stateStore) : outcome string stateStore :=
  if st_lastPruneHeight s =? 0 then Ok s
  else
    match queryBlockHeaderCeil d (wrap64 (st_lastPruneHeight s + 1)) with
    | None => Ok s
    | Some bh =>
        match viaTrie (CommitNode (bh_StateTree bh) (st_trie s)) with
        | Ok db => Ok (mkStore db (st_lastPruneHeight s) (st_lastPruneCount s) (st_triegc s) (DeletePreviousOf (bh_Height bh) (st_small s)))
        | Err _ => Ok s
        | Panic p => Panic p
        end
    end.

End save.
