(* ===== verification/PruneTheorems.v ===== *)
(** * PruneTheorems: no state that may be needed is lost

    The queue of [Prune] and the books of [TrieHistory] tell the same: a root is
    retained as often as it is queued.  Saving the state of a block then always
    succeeds, every queued state opens, and what leaves the queue are exactly the
    states more than [TriesInMemory] heights below the checkpoint. *)
From Stdlib Require Import Sorting.Sorted.
From S2P Require Import Prelude Bytes Types Checkpoint TxCodec ChainStore ChainInv Prque Prune.
From S2P Require Import TrieEncoding Rlp Trie TrieTheorems TrieNode RlpStream.
From S2P Require Import TrieDatabase TrieHasher TrieCache TrieStore TrieHasherTheorems TrieTrees TrieCommit.
From S2P Require Import TrieGC TrieGCInv TrieGCSteps TrieGCTheorems TrieGCInsert TrieGCCommit TrieHistory.
Local Open Scope Z_scope.
Local Open Scope zv_scope.

(** ** What the queue keeps *)

Abbreviation item := (Item Hash).
Implicit Types (xs b : list item) (x y : item) (cp minSize : Z).

(** The queued heights from [p] on below the checkpoint. *)
Definition heightsFrom b (p cp : Z) : gset Z := list_to_set (filter (fun q => p <= q < cp) (it_Priority <$> b)).

Definition keptWith (temp : gset Z) b cp minSize x : Prop :=
  cp <= it_Priority x \/ Z.of_nat (size (temp ∪ heightsFrom b (it_Priority x) cp)) <= minSize.
#[global] Instance keptWith_dec temp b cp minSize x : Decision (keptWith temp b cp minSize x).
Proof. unfold keptWith. apply _. Defined.

Definition kept b cp minSize x : Prop := cp <= it_Priority x \/ Z.of_nat (size (heightsFrom b (it_Priority x) cp)) <= minSize.
#[global] Instance kept_dec b cp minSize x : Decision (kept b cp minSize x).
Proof. unfold kept. apply _. Defined.

Lemma elem_heightsFrom b p cp q : q ∈ heightsFrom b p cp <-> p <= q < cp /\ q ∈ it_Priority <$> b.
Proof. unfold heightsFrom. by rewrite elem_of_list_to_set, list_elem_of_filter. Qed.

Definition highFirst x y : Prop := it_Priority y <= it_Priority x.

(** The sets of one step agree with those of the next. *)
Lemma keptWith_above temp xs cp minSize x y : cp <= it_Priority x -> keptWith temp (x :: xs) cp minSize y <-> keptWith temp xs cp minSize y.
Proof.
  intros Hx. unfold keptWith. assert (heightsFrom (x :: xs) (it_Priority y) cp = heightsFrom xs (it_Priority y) cp) as ->; [|done].
  apply set_eq. intros q. rewrite !elem_heightsFrom, fmap_cons, elem_of_cons. split; [intros [? [->|?]]; [lia|done]|tauto].
Qed.

Lemma keptWith_below temp xs cp minSize x y :
  it_Priority x < cp -> it_Priority y <= it_Priority x ->
  keptWith temp (x :: xs) cp minSize y <-> keptWith ({[it_Priority x]} ∪ temp) xs cp minSize y.
Proof.
  intros Hx Hy. unfold keptWith.
  assert (temp ∪ heightsFrom (x :: xs) (it_Priority y) cp = {[it_Priority x]} ∪ temp ∪ heightsFrom xs (it_Priority y) cp) as ->; [|done].
  apply set_eq. intros q. rewrite !elem_of_union, elem_of_singleton, !elem_heightsFrom, fmap_cons, elem_of_cons.
  split; [tauto|]. intros [[-> | ?]|?]; [right; split; [lia|by left]|tauto|tauto].
Qed.

Definition inRange x : Prop := 0 <= it_Priority x < 2 ^ 63.

Lemma wrap_range x : inRange x -> wrap64 (it_Priority x) = it_Priority x.
Proof. intros Hx. apply wrap64_id. unfold inRange in Hx. unfold u64_ok, two64. lia. Qed.

Lemma takeApart_ok fuel cp minSize temp q xs q' :
  popAll fuel q = Ok (pairOf <$> xs, q') -> StronglySorted highFirst xs -> Forall inRange xs ->
  takeApart fuel cp minSize (Z.of_nat (size temp)) temp q =
    Ok (filter (keptWith temp xs cp minSize) xs, filter (fun x => ~ keptWith temp xs cp minSize x) xs, q').
Proof.
  revert q xs temp. induction fuel as [|fuel IH]; intros q xs temp Hp Hs Hr; simpl in Hp |- *; destruct (Empty q); try done;
    try (injection Hp as Hp <-; destruct xs; [done|done]).
  apply obind_Ok_inv in Hp as ([[root h] q1] & Hpop & Hp). rewrite Hpop. cbn [obind fst snd] in *.
  apply obind_Ok_inv in Hp as ([rest q2] & Hrest & Hp). injection Hp as Hp <-. destruct xs as [|x xs]; [done|]. injection Hp as -> -> ->.
  apply StronglySorted_inv in Hs as [Hs Hall]. inversion Hr as [|? ? Hrx Hrs]; subst.
  rewrite (wrap_range x Hrx). destruct (cp <=? it_Priority x) eqn:Ec.
  - apply Z.leb_le in Ec. rewrite (IH q1 xs temp Hrest Hs Hrs). cbn [obind]. rewrite !filter_cons.
    rewrite decide_True by (by left). rewrite (decide_False (P := ~ _)) by (intros Hn; apply Hn; by left).
    rewrite (filter_ext_in (keptWith temp (x :: xs) cp minSize) (keptWith temp xs cp minSize) xs) by (intros y _; by apply keptWith_above).
    rewrite (filter_ext_in (fun y => ~ keptWith temp (x :: xs) cp minSize y) (fun y => ~ keptWith temp xs cp minSize y) xs)
      by (intros y _; by rewrite keptWith_above).
    by destruct x.
  - apply Z.leb_gt in Ec.
    assert ((if bool_decide (it_Priority x ∈ temp) then Z.of_nat (size temp) else Z.of_nat (size temp) + 1) = Z.of_nat (size ({[it_Priority x]} ∪ temp))) as Ecount.
    { case_bool_decide as Hin; [by rewrite subseteq_union_1_L by set_solver|]. rewrite size_union, size_singleton by set_solver. lia. }
    rewrite Ecount, (IH q1 xs ({[it_Priority x]} ∪ temp) Hrest Hs Hrs). cbn [obind]. rewrite Forall_forall in Hall.
    assert (filter (keptWith ({[it_Priority x]} ∪ temp) xs cp minSize) xs = filter (keptWith temp (x :: xs) cp minSize) xs) as ->.
    { apply filter_ext_in. intros y Hy. symmetry. apply keptWith_below; [done|]. by apply Hall. }
    assert (filter (fun y => ~ keptWith ({[it_Priority x]} ∪ temp) xs cp minSize y) xs = filter (fun y => ~ keptWith temp (x :: xs) cp minSize y) xs) as ->.
    { apply filter_ext_in. intros y Hy. rewrite (keptWith_below temp xs cp minSize x y); [done|done|]. by apply Hall. }
    assert (temp ∪ heightsFrom (x :: xs) (it_Priority x) cp = {[it_Priority x]} ∪ temp) as Eset.
    { apply set_eq. intros z. rewrite !elem_of_union, elem_of_singleton, elem_heightsFrom, fmap_cons, elem_of_cons, list_elem_of_fmap. split.
      - intros [?|[? [->|(y & -> & Hy)]]]; [by right|by left|]. left. specialize (Hall y Hy). unfold highFirst in Hall. lia.
      - intros [->|?]; [|by left]. right. split; [lia|by left]. }
    rewrite !filter_cons. destruct (_ <=? minSize) eqn:El.
    + apply Z.leb_le in El. assert (keptWith temp (x :: xs) cp minSize x) as Hk by (right; by rewrite Eset).
      rewrite decide_True by done. rewrite (decide_False (P := ~ _)) by tauto. by destruct x.
    + apply Z.leb_gt in El. assert (~ keptWith temp (x :: xs) cp minSize x) as Hk by (intros [?|Hk]; [lia|rewrite Eset in Hk; lia]).
      rewrite decide_False by done. rewrite (decide_True (P := ~ _)) by done. by destruct x.
Qed.

Lemma pushAll_ok items q b :
  Prque.holds 0 q b -> Forall inRange items -> exists q', pushAll items q = Ok q' /\ Prque.holds 0 q' (reverse items ++ b).
Proof.
  revert q b. induction items as [|x items IH]; intros q b Hq Hr; [by exists q|]. inversion Hr as [|? ? Hx Hr']; subst. cbn [pushAll].
  destruct (Push_bag 0 q b (it_Value x) (it_Priority x) Hq) as (q1 & -> & Hq1); [unfold near, inRange in *; simpl; lia|]. cbn [obind].
  destruct (IH q1 _ Hq1 Hr') as (q2 & -> & Hq2). exists q2. split; [done|]. rewrite reverse_cons, <- app_assoc. by destruct x.
Qed.

Lemma holds_perm q b b' : Prque.holds 0 q b -> b ≡ₚ b' -> Prque.holds 0 q b'.
Proof. intros (l & Hs & Hh & Hp) E. exists l. split_and!; [done|done|]. by rewrite Hp. Qed.

Lemma holds_range q b : Prque.holds 0 q b -> Forall inRange b.
Proof.
  intros (l & Hs & _ & Hp). rewrite <- Hp. eapply Forall_impl; [exact (Prque.st_near _ _ _ Hs)|]. unfold near, inRange. intros; lia.
Qed.

Lemma kept_perm b b' cp minSize x : b ≡ₚ b' -> kept b cp minSize x <-> kept b' cp minSize x.
Proof.
  intros Hp. unfold kept. assert (heightsFrom b (it_Priority x) cp = heightsFrom b' (it_Priority x) cp) as ->; [|done].
  apply set_eq. intros z. rewrite !elem_heightsFrom. by rewrite Hp.
Qed.

(** What [getPruneHeights] takes out, from the highest down. *)
Definition cropped b cp minSize (crop b' : list item) : Prop :=
  b ≡ₚ crop ++ b' /\ StronglySorted highFirst crop /\ (forall x, x ∈ crop -> ~ kept b cp minSize x).

Lemma getPruneHeights_ok cp minSize q b :
  Prque.holds 0 q b -> exists crop q' b', getPruneHeights cp minSize q = Ok (crop, q') /\ Prque.holds 0 q' b' /\ cropped b cp minSize crop b'.
Proof.
  intros Hq. pose proof (holds_range q b Hq) as Hr. unfold getPruneHeights.
  assert (exists crop q' b', Ok ([], q) = Ok (crop, q') :> outcome string _ /\ Prque.holds 0 q' b' /\ cropped b cp minSize crop b') as Hnone.
  { exists [], q, b. split; [done|]. split; [done|]. split_and!; [done|constructor|by intros x ?%not_elem_of_nil]. }
  rewrite (Empty_bag 0 q b Hq). case_bool_decide as Hb; [done|]. destruct (cp <=? minSize); [done|].
  destruct (Peek_bag 0 q b Hq Hb) as (top & -> & _ & _). cbn [obind snd]. destruct (_ <? cp); [done|].
  assert (QSize q = Z.of_nat (length b)) as ->.
  { destruct Hq as (l & Hs & _ & Hp). unfold QSize. rewrite (Prque.st_size _ _ _ Hs), (Permutation_length Hp). done. }
  rewrite Nat2Z.id. destruct (popAll_sorts 0 q b (length b) Hq ltac:(lia)) as (xs & q1 & Hpop & Hq1 & Hxs & Hsort).
  change 0 with (Z.of_nat (size (∅ : gset Z))) at 1. rewrite (takeApart_ok _ _ _ _ _ _ _ Hpop Hsort) by (by rewrite Hxs). cbn [obind].
  destruct (pushAll_ok (filter (keptWith ∅ xs cp minSize) xs) q1 [] Hq1) as (q2 & -> & Hq2).
  { apply Forall_forall. intros x [_ Hx]%list_elem_of_filter. rewrite Hxs in Hx. rewrite Forall_forall in Hr. by apply Hr. }
  cbn [obind]. do 3 eexists. split_and!; [done|exact Hq2|]. unfold cropped. rewrite app_nil_r. split_and!.
  - rewrite reverse_Permutation, <- Hxs. symmetry. rewrite Permutation_app_comm. apply filter_app_complement.
  - by apply StronglySorted_filter.
  - intros x [Hx _]%list_elem_of_filter. rewrite <- (kept_perm xs b cp minSize x Hxs). unfold kept. unfold keptWith in Hx. by rewrite union_empty_l_L in Hx.
Qed.

(** ** Books and queue *)

Section save.
Context `{NH : NodeHash} `{G : NodeGraph} `{CO : ChainCodecs}.
Variable emptyCode : Hash.
Hypothesis Hempty : makeHashNode (blobOf rawNil) = emptyRoot.
Implicit Types (B : books) (db : NodeDatabase) (s : stateStore) (r : Hash).

(** How often a root is queued. *)
Definition queued b r : Z := Z.of_nat (length (filter (fun x => it_Value x = r) b)).

Lemma queued_cons x b r : queued (x :: b) r = queued b r + (if decide (r = it_Value x) then 1 else 0).
Proof.
  unfold queued. rewrite filter_cons. destruct (decide (it_Value x = r)) as [<-|Hne].
  - rewrite decide_True by done. cbn [length]. lia.
  - rewrite decide_False by congruence. lia.
Qed.

Lemma queued_perm b b' r : b ≡ₚ b' -> queued b r = queued b' r.
Proof. intros Hp. unfold queued. by rewrite Hp. Qed.

Lemma queued_le b r : 0 <= queued b r <= Z.of_nat (length b).
Proof. unfold queued. pose proof (length_filter (fun x => it_Value x = r) b). lia. Qed.

(** The database keeps the books, and every queued root is that of a state. *)
Record keeps B b db : Prop := {
  kp_db : exists l, dbInv emptyCode B l db;
  kp_roots r : bk_roots B r = queued b r;
  kp_states x : x ∈ b -> it_Value x <> zeroB32 /\ exists g, stands emptyCode true (it_Value x) g;
}.

Record pruneInv B b s : Prop := {
  pi_keeps : keeps B b (st_trie s);
  pi_queue : Prque.holds 0 (st_triegc s) b;
}.

(** Every queued state opens. *)
Lemma keeps_opens B b db x acc g :
  keeps B b db -> x ∈ b -> stands emptyCode acc (it_Value x) g -> opens db (it_Value x) g.
Proof.
  intros [[l Hi] Hr Hs] Hx Hg. eapply (stands_opens emptyCode acc l); [apply Hi|done|].
  eapply (retained_available emptyCode); [exact Hi|]. rewrite Hr. unfold queued.
  assert (x ∈ filter (fun y => it_Value y = it_Value x) b) as Hf by (by apply list_elem_of_filter).
  destruct (filter _ b); [by apply not_elem_of_nil in Hf|simpl; lia].
Qed.

Lemma dbInv_full B l db fl : dbInv emptyCode B l db -> dbInv emptyCode B l (setFullNodes fl db).
Proof.
  intros [[Hs Hc Hn] H2 H3 H4 H5 H6]. constructor; [|exact H2|exact H3|exact H4|exact H5|exact H6].
  constructor; [by destruct Hs; constructor|by destruct Hc; constructor|by destruct Hn; constructor].
Qed.

Lemma keeps_perm B b b' db : keeps B b db -> b ≡ₚ b' -> keeps B b' db.
Proof.
  intros [H1 H2 H3] Hp. constructor; [done|intros r; by rewrite H2, (queued_perm b b' r Hp)|]. intros x Hx. apply H3. by rewrite Hp.
Qed.

(** ** The steps of a save *)

Lemma keeps_retain B b db root h g :
  keeps B b db -> root <> zeroB32 -> root = emptyRoot \/ has db root -> stands emptyCode true root g -> roomToRetain root db ->
  exists db', Reference root zeroB32 db = Ok db' /\ exists B', keeps B' (mkItem root h :: b) db'.
Proof.
  intros [[l Hi] Hr Hs] Hz Hh Hg HR. destruct (retain_ok emptyCode Hempty B l db root Hi Hz Hh HR) as (h0 & l' & db' & E & Hi').
  cbn [runDb] in E. destruct (Reference root zeroB32 db) as [db0| |]; try done. cbn [obind] in E. injection E as <- <-.
  exists db0. split; [done|]. exists (entered emptyCode (OpRetain root) root B). constructor; [by exists l'| |].
  - intros r. simpl. unfold addRoot. rewrite queued_cons, Hr. done.
  - intros x [->|Hx]%elem_of_cons; [split; [done|by exists g]|by apply Hs].
Qed.

Lemma keeps_release_one B x b db :
  keeps B (x :: b) db -> exists db', Dereference (it_Value x) db = Ok db' /\ exists B', keeps B' b db'.
Proof.
  intros [[l Hi] Hr Hs]. destruct (Hs x ltac:(left)) as [Hz _].
  destruct (release_ok emptyCode Hempty B l db (it_Value x) Hi Hz) as (h0 & l' & db' & E & Hi').
  { rewrite Hr, queued_cons, decide_True by done. pose proof (queued_le b (it_Value x)). lia. }
  cbn [runDb] in E. destruct (Dereference (it_Value x) db) as [db0| |]; try done. cbn [obind] in E. injection E as <- <-.
  exists db0. split; [done|]. exists (entered emptyCode (OpRelease (it_Value x)) (it_Value x) B). constructor; [by exists l'| |].
  - intros r. simpl. unfold addRoot. rewrite Hr, queued_cons. destruct (decide (r = it_Value x)); lia.
  - intros y Hy. apply Hs. by right.
Qed.

Lemma keeps_release B items b db :
  keeps B (items ++ b) db -> exists db', dereferenceAll items db = Ok db' /\ exists B', keeps B' b db'.
Proof.
  revert B db. induction items as [|x items IH]; intros B db Hk; [by exists db; split; [|exists B]|]. cbn [dereferenceAll].
  destruct (keeps_release_one B x (items ++ b) db Hk) as (db1 & -> & B1 & Hk1). cbn [viaTrie obind].
  destruct (IH B1 db1 Hk1) as (db2 & -> & Hk2). by exists db2.
Qed.

Lemma keeps_flush B b db root :
  keeps B b db -> root <> zeroB32 -> exists db', CommitNode root db = Ok db' /\ keeps B b db'.
Proof.
  intros [[l Hi] Hr Hs] Hz. destruct (flush_ok emptyCode Hempty B l db root Hi Hz) as (h0 & l' & db' & E & Hi').
  cbn [runDb] in E. destruct (CommitNode root db) as [db0| |]; try done. cbn [obind] in E. injection E as <- <-.
  exists db0. split; [done|]. constructor; [by exists l'|done|done].
Qed.

Lemma keeps_cap B b db limit : keeps B b db -> exists db', Cap limit db = Ok db' /\ keeps B b db'.
Proof.
  intros [[l Hi] Hr Hs]. destruct (cap_ok emptyCode Hempty B l db limit Hi) as (h0 & l' & db' & E & Hi').
  cbn [runDb] in E. destruct (Cap limit db) as [db0| |]; try done. cbn [obind] in E. injection E as _ <-.
  exists db0. split; [done|]. constructor; [by exists l'|done|done].
Qed.

Lemma keeps_size B b db : keeps B b db -> exists n, Size db = Ok n.
Proof.
  intros [[l Hi] _ _]. unfold Size, metarootRefs. destruct (cl_root _ _ _ (gw_closed _ _ _ _ _ (di_gc _ _ _ _ Hi))) as (m & -> & _). cbn [obind]. by eexists.
Qed.

(** What [state.Commit] does: it stores code and tries. *)
Definition storeOp (op : dbOp) : Prop := match op with OpBlob _ _ | OpCommit _ _ _ => True | _ => False end.

Inductive storing : books -> NodeDatabase -> books -> NodeDatabase -> Prop :=
| storing_done B db : storing B db B db
| storing_op B db op h db1 B' db' :
    storeOp op -> allowed emptyCode B db op -> runDb emptyCode op db = Ok (h, db1) -> storing (entered emptyCode op h B) db1 B' db' ->
    storing B db B' db'.

Lemma storing_keeps B db B' db' b : storing B db B' db' -> keeps B b db -> keeps B' b db'.
Proof.
  induction 1 as [|B db op h db1 B' db' Hop Ha Hr _ IH]; [done|]. intros [[l Hi] Hb Hs]. apply IH.
  destruct (allowed_ok emptyCode Hempty B l db op Hi Ha) as (h0 & l' & db0 & E & Hi'). rewrite E in Hr. injection Hr as -> ->.
  constructor; [by exists l'| |done]. intros r. rewrite <- Hb. by destruct op.
Qed.

Lemma blobs_typed (full : list (Hash * bytes)) : typed (Stream.TSlice storeBlobType) (Stream.VList (storeBlobVal <$> full)).
Proof.
  simpl. apply Forall_fmap, Forall_forall. intros [h raw] _. unfold compose, storeBlobVal, storeBlobType. simpl.
  split; [|by split]. split; [apply b32_length|]. intros E. pose proof (b32_length h) as Hl. by rewrite E in Hl.
Qed.

Lemma InsertStateData_ok height db sm : exists sm', InsertStateDataToSmallDb height db sm = Ok sm'.
Proof.
  unfold InsertStateDataToSmallDb. destruct (commitFullNodes db) as [|x full]; [by eexists|].
  unfold Stream.EncodeToBytes. rewrite writer_item by apply blobs_typed. cbn [obind]. by eexists.
Qed.

(** A record decodes to what the block stored. *)
Lemma record_roundtrip (full : list (Hash * bytes)) :
  small (encode (itemFor (Stream.VList (storeBlobVal <$> full)))) ->
  exists dts, Stream.EncodeToBytes (Stream.TSlice storeBlobType) (Stream.VList (storeBlobVal <$> full)) = Ok dts /\ DecodeStoreBlob dts = Ok (Some <$> full).
Proof.
  intros Hs. eexists. split; [by apply encode_typed; [apply blobs_typed|]|]. unfold DecodeStoreBlob. rewrite decode_typed by (done || apply blobs_typed).
  f_equal. rewrite <- list_fmap_compose. apply list_fmap_ext. intros _ [h raw] _.
  unfold compose, blobOfVal, storeBlobVal. simpl. do 2 f_equal. apply BytesToAddress_bytes.
Qed.

(** A record that breaks off in an element leaves a nil pointer behind. *)
Lemma damaged_record_panics :
  exists data, DecodeStoreBlob data = Ok [None] /\ forall st, CommitStateDataToBigDb [None] st = Panic "invalid memory address or nil pointer dereference".
Proof. exists (byte_of_Z <$> [0xc2; 0xc1; 0x01]). split; [by vm_compute|done]. Qed.

Variable cfg : PruneConfig.

(** The state that is written next is not the zero hash. *)
Definition rootsNonzero (d : chainDB) : Prop := forall h bh, queryBlockHeaderCeil d h = Some bh -> bh_StateTree bh <> zeroB32.

Lemma persist_ok B b d items h s :
  pruneInv B b s -> rootsNonzero d -> exists s', persist cfg d items h s = Ok s' /\ pruneInv B b s'.
Proof.
  intros [Hk Hq] Hd. unfold persist. cbv zeta. destruct (negb _); [by eexists; split; [|constructor]|].
  destruct (queryBlockHeaderCeil _ _) as [bh|] eqn:Eb; [|by eexists; split; [|constructor]].
  destruct (keeps_flush B b (st_trie s) (bh_StateTree bh) Hk (Hd _ _ Eb)) as (db' & E & Hk'). cbn [st_trie]. rewrite E. cbn [viaTrie obind].
  eexists. split; [done|]. by constructor.
Qed.

(** The queue after a block: what may be needed is in it. *)
Definition keptFor (cp : option BlockHeader) b b' : Prop :=
  b' ⊆ b /\ forall x, x ∈ b -> match cp with Some c => kept b (bh_Height c) TriesInMemory x | None => True end -> x ∈ b'.

Lemma pruneBlocks_ok B b d (cp : option BlockHeader) height root g s :
  pruneInv B b s -> 0 < height < 2 ^ 63 -> roomToRetain root (st_trie s) -> rootsNonzero d ->
  root <> zeroB32 -> root = emptyRoot \/ has (st_trie s) root -> stands emptyCode true root g ->
  exists s' B' b', pruneBlocks cfg d cp height root s = Ok s' /\ pruneInv B' b' s' /\ keptFor cp (mkItem root height :: b) b'.
Proof.
  intros [Hk Hq] Hh HR Hd Hz Hhas Hst. unfold pruneBlocks. destruct (InsertStateData_ok height (st_trie s) (st_small s)) as [sm ->]. cbn [obind].
  destruct (keeps_retain B b (st_trie s) root height g Hk Hz Hhas Hst HR) as (db1 & -> & B1 & Hk1). cbn [viaTrie obind].
  assert (int64 height = height) as -> by (unfold int64; rewrite Z.mod_small by lia; lia).
  destruct (Push_bag 0 (st_triegc s) b root height Hq) as (q1 & -> & Hq1); [unfold near; simpl; lia|]. cbn [obind].
  destruct (keeps_size _ _ _ Hk1) as [n ->]. cbn [viaTrie obind].
  assert (exists db2, (if maxTriesInMemory cfg <? n then viaTrie (Cap (maxTriesInMemory cfg - everyClearFromMemory cfg) db1) else Ok db1) = Ok db2 /\
    keeps B1 (mkItem root height :: b) db2) as (db2 & -> & Hk2).
  { destruct (_ <? n); [|by exists db1]. destruct (keeps_cap _ _ _ (maxTriesInMemory cfg - everyClearFromMemory cfg) Hk1) as (db2 & -> & Hk2). by exists db2. }
  cbn [obind]. destruct cp as [cpBh|].
  2:{ do 3 eexists. split; [done|]. split; [by constructor|]. by split. }
  destruct (getPruneHeights_ok (bh_Height cpBh) TriesInMemory q1 _ Hq1) as (crop & q2 & b2 & -> & Hq2 & Hp & Hsort & Hcrop). cbn [obind].
  assert (keptFor (Some cpBh) (mkItem root height :: b) b2) as Hkept.
  { split; [intros x Hx; rewrite Hp; apply elem_of_app; by right|]. intros x Hx Hkx. rewrite Hp in Hx. apply elem_of_app in Hx as [Hx|]; [|done].
    by destruct (Hcrop x Hx). }
  destruct crop as [|first crop].
  { do 3 eexists. split; [done|]. split; [constructor; [|done]|done]. by apply (keeps_perm _ (mkItem root height :: b)). }
  destruct (keeps_release B1 (reverse (first :: crop)) b2 db2) as (db3 & -> & B3 & Hk3).
  { apply (keeps_perm _ (mkItem root height :: b)); [done|]. by rewrite Hp, reverse_Permutation. }
  cbn [obind]. destruct (persist_ok B3 b2 d (first :: crop) (wrap64 (it_Priority first)) (mkStore db3 (st_lastPruneHeight s) (st_lastPruneCount s) q2 sm)) as (s' & -> & Hs').
  - by constructor.
  - done.
  - by exists s', B3, b2.
Qed.

(** C16: saving the state of a block in pruning mode succeeds, whatever was saved,
    released or written before, once the state was committed: its code and tries
    were stored by [allowed] calls, under a root that is there and not zero, and one
    more reference to that root does not wrap its 16-bit counters around; the height
    is positive and below 2^63, and no header of the chain names the zero hash as its
    state.  The state just
    saved stays in the queue when the checkpoint is not above it; of the queued ones,
    every state at or above the checkpoint and those at the [TriesInMemory] highest
    queued heights below it stay; and every queued state opens with the accounts it
    was saved with. *)
Theorem pruning_keeps_states B b d (cp : option BlockHeader) height commit s root g db1 B1 :
  pruneInv B b s -> 0 < height < 2 ^ 63 -> rootsNonzero d ->
  commit (ResetNodeCache (st_trie s)) = Ok (root, db1) -> storing B (ResetNodeCache (st_trie s)) B1 db1 ->
  bk_states B1 !! root = Some (true, g) -> root <> zeroB32 -> root = emptyRoot \/ has db1 root -> roomToRetain root db1 ->
  exists s' B' b', saveBlockState cfg true d cp height commit s = Ok s' /\ pruneInv B' b' s' /\ keptFor cp (mkItem root height :: b) b' /\
    (match cp with Some c => bh_Height c <= height | None => True end -> mkItem root height ∈ b') /\
    forall x acc' g', x ∈ b' -> stands emptyCode acc' (it_Value x) g' -> opens (st_trie s') (it_Value x) g'.
Proof.
  intros [Hk Hq] Hh Hd Hc Hst Hg Hz Hhas HR. unfold saveBlockState. rewrite Hc. cbn [viaTrie obind]. rewrite (proj2 (Z.ltb_lt _ _)) by lia. cbn [andb].
  assert (keeps B b (ResetNodeCache (st_trie s))) as Hk0.
  { unfold ResetNodeCache. destruct (enablePrune (st_trie s)); [|done]. destruct Hk as [[l Hi] H2 H3]. constructor; [exists l; by apply dbInv_full|done|done]. }
  pose proof (storing_keeps _ _ _ _ b Hst Hk0) as Hk1. pose proof (kp_db _ _ _ Hk1) as [l Hi].
  destruct (pruneBlocks_ok B1 b d cp height root g (mkStore db1 (st_lastPruneHeight s) (st_lastPruneCount s) (st_triegc s) (st_small s))) as (s' & B' & b' & E & Hs' & Hkept);
    [by constructor|done|done|done|done|done|by eapply (di_states _ _ _ _ Hi)|].
  exists s', B', b'. split; [done|]. split; [done|]. split; [done|]. split.
  { intros Hcp. apply (proj2 Hkept); [left|]. destruct cp; [by left|done]. }
  intros x acc' g' Hx. apply (keeps_opens B' b'); [apply Hs'|done].
Qed.

(** C17: when enough states were released, the state of the first block above them,
    if it is still queued (as what [keptFor] keeps is), is written to
    the disk, and a node database started anew on the disk alone opens it with all
    its accounts; the records of the small database above it are kept.  The database
    is one that saves by [allowed] calls lead to. *)
Theorem persisted_state_survives B b d items h s bh g prune :
  pruneInv B b s -> persistenceCount cfg <= wrap64 (st_lastPruneCount s + Z.of_nat (length items)) ->
  queryBlockHeaderCeil d (wrap64 (h + 1)) = Some bh -> mkItem (bh_StateTree bh) (bh_Height bh) ∈ b -> stands emptyCode true (bh_StateTree bh) g ->
  exists s', persist cfg d items h s = Ok s' /\ pruneInv B b s' /\ opens (NewDatabase (diskdb (st_trie s')) prune) (bh_StateTree bh) g /\
    forall k v, bh_Height bh < k -> st_small s !! k = Some v -> st_small s' !! k = Some v.
Proof.
  intros [Hk Hq] Hc Hb Hin Hg. pose proof Hk as [[l Hi] Hr Hs]. destruct (Hs _ Hin) as [Hz _]. simpl in Hz.
  unfold persist. cbv zeta. rewrite (proj2 (Z.leb_le _ _)) by done. cbn [negb]. rewrite Hb. cbn [st_trie st_triegc st_small].
  destruct (keeps_flush B b (st_trie s) (bh_StateTree bh) Hk Hz) as (db' & E & Hk'). rewrite E. cbn [viaTrie obind]. eexists. split; [done|].
  split; [by constructor|]. cbn [st_trie st_small]. split.
  - assert (bh_StateTree bh = emptyRoot \/ Available l (st_trie s) (bh_StateTree bh)) as Ha.
    { eapply (retained_available emptyCode); [exact Hi|]. rewrite Hr. unfold queued.
      assert (mkItem (bh_StateTree bh) (bh_Height bh) ∈ filter (fun x => it_Value x = bh_StateTree bh) b) as Hf by (by apply list_elem_of_filter).
      destruct (filter _ b); [by apply not_elem_of_nil in Hf|simpl; lia]. }
    destruct (kp_db _ _ _ Hk') as [l' Hi']. assert (gcW ∅ ∅ [] [] (NewDatabase (diskdb db') prune)) as Hw'.
    { apply (fresh_gc Hempty). intros k v Hv. exact (cl_disk _ _ _ (gw_closed _ _ _ _ _ (di_gc _ _ _ _ Hi')) k v Hv). }
    eapply (stands_opens emptyCode true []); [done|done|]. destruct Ha as [|Ha]; [by left|]. right. right.
    destruct (CommitNode_ok l (st_trie s) (bh_StateTree bh) (di_gc _ _ _ _ Hi) Hz Ha) as (l2 & db2 & E2 & _ & _ & _ & _ & _ & Hd).
    rewrite E in E2. injection E2 as <-. exact Hd.
  - intros k v Hkh Hv. unfold DeletePreviousOf. apply map_lookup_filter_Some. by split.
Qed.

End save.

(** ** The account with code, saved and written *)

#[local] Existing Instance KeccakHash.
#[local] Existing Instance graph0.
#[local] Opaque hashOfCode leafHash noCode account0 db1 db2 db3.

Definition sampleConfig : PruneConfig := mkPruneConfig 1000 500 0.
Definition noBooks : books := mkBooks (fun _ => 0) ∅ ∅.
Definition freshStore : stateStore := mkStore newDB 0 0 NewPrque ∅.
Definition noChain : chainDB := mkChainDB ∅ ∅ ∅ ∅ None.
Definition storeAccount (db : NodeDatabase) : outcome trieError (Hash * NodeDatabase) :=
  match runDb noCode (OpBlob hashOfCode code0) db with
  | Ok (_, db') => runDb noCode (OpCommit true (leafTrie k0 account0) accounts0) db'
  | Err e => Err e
  | Panic p => Panic p
  end.

Lemma leaf_stands : stands noCode true leafHash accounts0.
Proof. destruct (history_inv noCode emptyRoot_keccak _ _ history3) as [l Hi]. exact (di_states _ _ _ _ Hi _ _ _ state3). Qed.

Lemma leaf_nonzero : leafHash <> zeroB32.
Proof. exact (not_eq_sym (proj1 (proj2 (proj2 (proj2 hashes0_distinct))))). Qed.

Lemma freshStore_inv : pruneInv noCode noBooks [] freshStore.
Proof.
  constructor; [|apply holds_new]. constructor; [|done|intros x Hx; by apply not_elem_of_nil in Hx].
  exact (history_inv noCode emptyRoot_keccak _ _ (history_new noCode true)).
Qed.

Lemma storeAccount_run : storeAccount newDB = Ok (leafHash, db2).
Proof. unfold storeAccount. rewrite run1. exact run2. Qed.

Lemma storing0 : storing noCode noBooks newDB books2 db2.
Proof.
  eapply storing_op; [|exact allowed1|exact run1|]; [exact I|]. eapply storing_op; [|exact allowed2|exact run2|]; [exact I|]. apply storing_done.
Qed.

Lemma pruning_keeps_states_witness :
  exists s', saveBlockState (H := sampleCodecs []) sampleConfig true noChain None 5 storeAccount freshStore = Ok s' /\ opens (st_trie s') leafHash accounts0.
Proof.
  destruct (pruning_keeps_states (CO := sampleCodecs []) noCode emptyRoot_keccak sampleConfig noBooks [] noChain None 5 storeAccount freshStore leafHash accounts0 db2 books2
    freshStore_inv) as (s' & B' & b' & E & _ & _ & Hk & Ho).
  - done.
  - intros h bh Hb. unfold queryBlockHeaderCeil, queryBlockHashCeil in Hb. change (seek h noChain) with ([] : list (Z * Hash)) in Hb. done.
  - exact storeAccount_run.
  - exact storing0.
  - apply lookup_insert_eq.
  - exact leaf_nonzero.
  - right. left. apply (bool_decide_unpack _). vm_compute. exact I.
  - exact leaf_room.
  - exists s'. split; [exact E|]. apply (Ho (mkItem leafHash 5) true accounts0); [|exact leaf_stands]. exact (Hk I).
Defined.

Definition savedHeader : BlockHeader := mkBlockHeader (smallHash 3) 7 zeroB32 0 [] 0 0 [] zeroB32 [] 1 zeroB32 zeroB32 leafHash [] [] 0.
Definition savedChain : chainDB := mkChainDB {[smallHash 3 := [Byte.x02]]} {[7 := smallHash 3]} ∅ ∅ None.

Lemma savedChain_ceil : queryBlockHeaderCeil (H := sampleCodecs [savedHeader]) savedChain (wrap64 (6 + 1)) = Some savedHeader.
Proof. reflexivity. Qed.

Definition queueOfOne : Prque Hash := match Push leafHash 7 NewPrque with Ok q => q | _ => NewPrque end.
Definition savedStore : stateStore := mkStore db3 0 0 queueOfOne ∅.

Lemma savedStore_inv : pruneInv noCode books3 [mkItem leafHash 7] savedStore.
Proof.
  constructor.
  - constructor.
    + exact (history_inv noCode emptyRoot_keccak _ _ history3).
    + intros r. rewrite queued_cons. reflexivity.
    + intros x ->%list_elem_of_singleton. split; [exact leaf_nonzero|]. exists accounts0. exact leaf_stands.
  - unfold savedStore, queueOfOne. cbn [st_triegc].
    destruct (Push_bag 0 NewPrque [] leafHash 7 (holds_new 0)) as (q & -> & Hq); [by split|exact Hq].
Qed.

Lemma persisted_state_survives_witness :
  exists s', persist (H := sampleCodecs [savedHeader]) sampleConfig savedChain [mkItem leafHash 3] 6 savedStore = Ok s' /\
    opens (NewDatabase (diskdb (st_trie s')) true) leafHash accounts0.
Proof.
  destruct (persisted_state_survives (CO := sampleCodecs [savedHeader]) noCode emptyRoot_keccak sampleConfig books3 [mkItem leafHash 7] savedChain [mkItem leafHash 3] 6
    savedStore savedHeader accounts0 true savedStore_inv) as (s' & E & _ & Ho & _).
  - vm_compute. discriminate.
  - exact savedChain_ceil.
  - left.
  - exact leaf_stands.
  - exists s'. split; [exact E|exact Ho].
Defined.
