(* ===== verification/ChainRepair.v ===== *)
(** * ChainRepair: going back to a state that is there

    [src/core/blockchain.go], [blockchain_action.go]: finding the last block whose
    state, and those of enough blocks before it, can be opened, resetting the chain to
    it, and repairing the chain after a power failure.  Merging the small database into
    the disk and deleting from it, modelled in [Prune], are arguments here. *)
From Stdlib Require Import Sorting.Sorted.
From S2P Require Import Prelude Bytes Sha256 Types TxHash TxCodec Rewards Block Weight ChainStore Group Checkpoint Prque Prune.
From S2P Require Import Chain ChainInv ChainTheorems ChainReader.
Local Open Scope Z_scope.
Local Open Scope zv_scope.

Section repair.
Context {CP : ChainParts} {CC : ChainCaches} {CO : ChainCodecs} {CR : Codec Receipt}.
Abbreviation CM A := (M FullBlockChain string A).

Fixpoint restartLoop (fuel : nat) (cnt : Z) (beginBh bh : BlockHeader) : CM (option BlockHeader) :=
  if negb (cnt <? TriesInMemory) then ret (Some beginBh)
  else
    match fuel with
    | O => fail "out of fuel"
    | S fuel' =>
        state <- accountDBAt (bh_Height bh) ;;
        let '(cnt, beginBh) :=
          match state with
          | None => (0, beginBh)
          | Some _ => (cnt + 1, if cnt =? 0 then bh else beginBh)
          end in
        if bh_Height bh =? 0 then ret (Some bh)
        else
          c <- get ;;
          match queryBlockHeaderByHash (ch_db c) (bh_PreHash bh) with
          | None => ret None
          | Some pre => restartLoop fuel' cnt beginBh pre
          end
    end.

Definition findLastRestartPoint (bh : BlockHeader) : CM (option BlockHeader) :=
  c <- get ;; restartLoop (S (size (blocks (ch_db c)))) 0 bh bh.

(** The block the chain was reset to, if it was. *)
Definition ResetNear (bh : BlockHeader) : CM (option BlockHeader) :=
  last <- findLastRestartPoint bh ;;
  match last with
  | None => ret None
  | Some lastRestartHeader => ok <- resetTop lastRestartHeader ;; ret (if ok then Some lastRestartHeader else None)
  end.

Definition RemoveBlock (b : Block) : CM bool :=
  c <- get ;;
  match queryBlockHeaderByHash (ch_db c) (bh_PreHash (b_Header b)) with
  | None => removeOrphan b ;;; ret true
  | Some pre => resetTop pre
  end.

(** [CommitToBigDB] gives the last height it merged, and [DeleteSmallDbByHeight] drops
    the records up to a height. *)
Definition repairStateDatabase (commitToBigDB : chainDB -> Z -> stateCache -> option (Z * stateCache)) (deleteSmall : Z -> stateCache -> stateCache)
    (top : option BlockHeader) : CM bool :=
  match top with
  | None => ret true
  | Some t =>
      modify (setLatest t) ;;;
      c <- get ;;
      match commitToBigDB (ch_db c) (bh_Height t) (ch_states c) with
      | None => ret false
      | Some (lastHeight, st) =>
          modify (setStates st) ;;;
          if lastHeight =? 0 then ret true
          else
            ok <- (if lastHeight <? bh_Height t then
                     match queryBlockHeaderByHeight (ch_db c) lastHeight with
                     | None => nilPanic
                     | Some newTop => resetTop newTop
                     end
                   else ret true) ;;
            if ok : bool then modify (fun c => setStates (deleteSmall lastHeight (ch_states c)) c) ;;; ret true else ret false
      end
  end.

End repair.

Section facts.
Context {CP : ChainParts} {CC : ChainCaches} {CO : ChainCodecs} {COL : ChainCodecLaws} {CR : Codec Receipt} {WE : WeightEnv}.
Context {PL : ChainPartsLaws} {BL : LruLaws Hash Block} {BM : LruMoreLaws Hash Block}.
Context {VL : LruLaws Hash executePostState} {VM : LruMoreLaws Hash executePostState}.
Implicit Types (c : FullBlockChain) (bs : list Block).

Definition opensAt c (b : Block) : Prop := canOpen (ch_states c) (bh_StateTree (b_Header b)) = true.

Lemma accountDBAt_ok c bs b :
  chainInv c bs -> b ∈ bs ->
  returns (accountDBAt (heightOf b)) c (fun r c' => c' = c /\ (is_Some r <-> opensAt c b)).
Proof.
  intros Hc Hb. pose proof (st_linked _ _ (ci_stored _ _ Hc)) as Hl. pose proof (linked_sorted bs Hl) as Hs.
  apply returns_bind, returns_get. rewrite (ci_latest _ _ Hc). destruct bs as [|t bs]; [by inversion Hl|]. cbn [head fmap option_fmap option_map].
  change (match Some (b_Header t) with Some h => if heightOf b <? bh_Height h then queryBlockHeaderByHeightFloor (ch_db c) (heightOf b) else Some h | None => queryBlockHeaderByHeightFloor (ch_db c) (heightOf b) end)
    with (if heightOf b <? heightOf t then queryBlockHeaderByHeightFloor (ch_db c) (heightOf b) else Some (b_Header t)).
  rewrite (floor_spec _ (t :: bs) _ (ci_stored _ _ Hc)), (floorOf_exact (t :: bs) b Hs Hb).
  assert (b = t \/ heightOf b < heightOf t) as [->|Hlt].
  { apply elem_of_cons in Hb as [->|Hb]; [by left|right]. by destruct (stored_distinct (ch_db c) bs t b (ci_stored _ _ Hc) Hb). }
  1: rewrite Z.ltb_irrefl. 2: rewrite (proj2 (Z.ltb_lt _ _)) by done.
  all: apply returns_gets; split; [done|]; unfold opensAt, is_Some; destruct (canOpen _ _); naive_solver.
Qed.

(** The last [cnt] blocks above the [i]-th one open, from the block at [j] on. *)
Definition run c bs (i : nat) (cnt : Z) (beginBh : BlockHeader) : Prop :=
  0 <= cnt /\ (cnt = 0 \/ exists j b, bs !! j = Some b /\ b_Header b = beginBh /\ Z.of_nat i = Z.of_nat j + cnt) /\
  forall m x, (Z.of_nat i - cnt <= Z.of_nat m < Z.of_nat i) -> bs !! m = Some x -> opensAt c x.

(** The states of the [TriesInMemory] blocks from the [j]-th one down open, the
    genesis block not counted. *)
Definition fullRun c bs (j : nat) : Prop :=
  Z.of_nat j + TriesInMemory < Z.of_nat (length bs) /\
  forall m x, (j <= m)%nat -> Z.of_nat m < Z.of_nat j + TriesInMemory -> bs !! m = Some x -> opensAt c x.

(** The nearest block at or below the [i]-th one from which enough states open, or the
    genesis block. *)
Definition restartPoint c bs (i j : nat) (bh : BlockHeader) : Prop :=
  (i <= j)%nat /\ (exists b, bs !! j = Some b /\ b_Header b = bh /\ (heightOf b = 0 \/ fullRun c bs j)) /\
  forall m, (i <= m < j)%nat -> ~ fullRun c bs m.

Lemma restartLoop_ok fuel c bs i0 i cnt beginBh b :
  chainInv c bs -> bs !! i = Some b -> (i0 <= i)%nat -> cnt <= Z.of_nat (i - i0) -> (length bs - i < fuel)%nat -> run c bs i cnt beginBh ->
  (forall m, (i0 <= m)%nat -> Z.of_nat m < Z.of_nat i - cnt -> ~ fullRun c bs m) ->
  returns (restartLoop fuel cnt beginBh (b_Header b)) c (fun r c' => c' = c /\ exists j bh, r = Some bh /\ restartPoint c bs i0 j bh).
Proof.
  intros Hc. revert i cnt beginBh b. induction fuel as [|fuel IH]; intros i cnt beginBh b Hb Hi0 Hcnt Hf Hrun Hnear; [lia|]. cbn [restartLoop].
  apply lookup_lt_Some in Hb as Hlen. destruct (cnt <? TriesInMemory) eqn:Ec; cbn [negb].
  2:{ apply Z.ltb_ge in Ec. assert (0 < TriesInMemory) as Hpos by done. destruct Hrun as (_ & [?|(j & x & Hj & Hx & Ej)] & Hop); [lia|].
      apply returns_ret. split; [done|]. exists j, beginBh. split; [done|]. split_and!; [lia| |intros m Hm; apply Hnear; lia].
      exists x. split; [done|]. split; [done|]. right. split; [lia|]. intros m y Hm1 Hm2 Hy. apply (Hop m y); [lia|done]. }
  assert (b ∈ bs) as Hin by (by eapply list_elem_of_lookup_2). apply returns_bind. eapply returns_mono; [by apply (accountDBAt_ok c bs b)|].
  intros st ? [-> Hst]. apply Z.ltb_lt in Ec.
  set (next := match st with None => (0, beginBh) | Some _ => (cnt + 1, if cnt =? 0 then b_Header b else beginBh) end).
  assert (run c bs (S i) next.1 next.2 /\ next.1 <= Z.of_nat (S i - i0) /\ next.1 <= TriesInMemory /\
    forall m, (i0 <= m)%nat -> Z.of_nat m < Z.of_nat (S i) - next.1 -> ~ fullRun c bs m) as (Hrun' & Hcnt' & Htries & Hnear').
  { destruct Hrun as (H0 & Hbeg & Hop). subst next. destruct st as [root|]; simpl.
    - split_and!; [|lia|lia|intros m H1 H2; apply Hnear; lia]. split; [lia|]. split.
      + right. destruct (cnt =? 0) eqn:E0; [apply Z.eqb_eq in E0; exists i, b; split_and!; [done|done|lia]|]. apply Z.eqb_neq in E0.
        destruct Hbeg as [?|(j & x & Hj & Hx & Ej)]; [lia|]. exists j, x. split_and!; [done|done|lia].
      + intros m x Hm Hx. destruct (decide (m = i)) as [->|]; [|apply (Hop m x); [lia|done]].
        assert (x = b) as -> by congruence. apply Hst. by eexists.
    - split_and!; [|lia|done|].
      + split; [lia|]. split; [by left|]. intros m x Hm. lia.
      + intros m H1 H2 Hfull. destruct (decide (Z.of_nat m < Z.of_nat i - cnt)); [by apply (Hnear m)|]. destruct Hfull as [_ Hfull].
        assert (opensAt c b) as [? [=]]%Hst by (apply (Hfull i); [lia|lia|done]). }
  clearbody next. destruct next as [cnt' begin']. simpl in Hrun', Hcnt', Htries, Hnear'. cbn iota beta. destruct (bh_Height (b_Header b) =? 0) eqn:Eh.
  - apply returns_ret. split; [done|]. exists i, (b_Header b). split; [done|]. apply Z.eqb_eq in Eh. split_and!; [done|by exists b; auto|].
    intros m Hm Hfull. destruct (decide (Z.of_nat m < Z.of_nat (S i) - cnt')); [apply (Hnear' m); [lia|done|done]|].
    destruct Hfull as [Hl _]. destruct (bs !! S i) as [p|] eqn:Hp; [|apply lookup_ge_None in Hp; lia].
    pose proof (heights_decrease bs i (S i) b p (linked_sorted _ (st_linked _ _ (ci_stored _ _ Hc))) Hb Hp ltac:(lia)).
    pose proof (linked_nonneg bs p (st_linked _ _ (ci_stored _ _ Hc)) ltac:(by eapply list_elem_of_lookup_2)). unfold heightOf in *. lia.
  - apply returns_bind, returns_get. apply Z.eqb_neq in Eh. destruct (bs !! S i) as [p|] eqn:Hp.
    + rewrite (linked_next bs i b p (st_linked _ _ (ci_stored _ _ Hc)) Hb Hp).
      rewrite (header_read _ bs p) by (apply Hc || by eapply list_elem_of_lookup_2).
      apply (IH (S i)); try done; [lia|]. apply lookup_lt_Some in Hp. lia.
    + exfalso. apply Eh. apply lookup_ge_None in Hp. apply (linked_last bs i b (st_linked _ _ (ci_stored _ _ Hc)) Hb). lia.
Qed.

(** C18: from any block of the chain a restart point is always found: the nearest
    block at or below it such that its state and those of the blocks below it,
    [TriesInMemory] in all above the genesis block, can be opened, or the genesis
    block if there is none.
    The reset succeeds exactly when the node is not shutting down and the restart point
    is the top already or its state opens, which fails at the genesis block only; the
    chain then ends at the restart point, and else is as it was. *)
Theorem reset_near_ok c bs i b :
  chainInv c bs -> bs !! i = Some b ->
  exists j bh ok c', fst (findLastRestartPoint (b_Header b) c) = Ok (Some bh) /\ restartPoint c bs i j bh /\
    ResetNear (b_Header b) c = (Ok (if ok : bool then Some bh else None), c') /\ chainInv c' (if ok then drop j bs else bs) /\
    (ok = true <-> shutdowning c = false /\ (j = 0%nat \/ canOpen (ch_states c) (bh_StateTree bh) = true)) /\
    (ok = false -> shutdowning c = true \/ bh_Height bh = 0).
Proof.
  intros Hc Hb. pose proof (chain_size _ _ (ci_stored _ _ Hc)) as Hsz. apply lookup_lt_Some in Hb as Hlt.
  destruct (restartLoop_ok (S (size (blocks (ch_db c)))) c bs i i 0 (b_Header b) b Hc Hb) as (r0 & c0 & E & -> & j & bh & -> & Hrp); [lia|lia|lia| |lia|].
  { split; [lia|]. split; [by left|]. intros m x Hm. lia. }
  assert (findLastRestartPoint (b_Header b) c = (Ok (Some bh), c)) as Ef by exact E.
  pose proof Hrp as (Hij & (x & Hx & <- & Hfull) & _). destruct (resetTop_ok c bs j x Hc Hx) as (ok & c' & Er & Hc' & Hok & _).
  exists j, (b_Header x), ok, c'. rewrite Ef. split_and!; [done|done| |done|done|].
  - unfold ResetNear, bind. rewrite Ef. by rewrite Er.
  - intros ->. destruct (shutdowning c); [by left|right]. destruct Hfull as [?|[_ Hop]]; [done|].
    enough (false = true) by done. apply Hok. split; [done|]. right. assert (0 < TriesInMemory) by done. apply (Hop j); [done|lia|done].
Qed.

(** A repair that merged the records up to a block of the chain leaves a chain. *)
Lemma repair_ok commitToBigDB deleteSmall c bs t :
  chainInv c bs -> head bs = Some t ->
  (forall st lastHeight, commitToBigDB (ch_db c) (heightOf t) (ch_states c) = Some (lastHeight, st) -> lastHeight < heightOf t -> lastHeight <> 0 ->
     exists b, b ∈ bs /\ heightOf b = lastHeight) ->
  returns (repairStateDatabase commitToBigDB deleteSmall (Some (b_Header t))) c (fun ok c' => exists bs', chainInv c' bs' /\ bs' `suffix_of` bs).
Proof.
  intros Hc Ht Hmerge. unfold repairStateDatabase. apply returns_bind, returns_modify, returns_bind, returns_get.
  assert (chainInv (setLatest (b_Header t) c) bs) as Hc1.
  { destruct Hc as [H1 H2 H3 H4 H5 H6]. constructor; simpl; try done. by rewrite Ht. }
  change (ch_db (setLatest (b_Header t) c)) with (ch_db c). change (ch_states (setLatest (b_Header t) c)) with (ch_states c).
  change (bh_Height (b_Header t)) with (heightOf t).
  destruct (commitToBigDB _ _ _) as [[lastHeight st]|] eqn:Em; [|apply returns_ret; by exists bs]. apply returns_bind, returns_modify.
  assert (forall st c bs, chainInv c bs -> chainInv (setStates st c) bs) as Hstates by (by intros ??? []; constructor).
  destruct (lastHeight =? 0) eqn:E0; [apply returns_ret; exists bs; split; [by apply Hstates|done]|]. apply Z.eqb_neq in E0.
  assert (forall ok c1 bs1, chainInv c1 bs1 -> bs1 `suffix_of` bs -> returns (E := string) (if ok : bool then modify (fun c => setStates (deleteSmall lastHeight (ch_states c)) c) ;;; ret true else ret false) c1
    (fun _ c' => exists bs', chainInv c' bs' /\ bs' `suffix_of` bs)) as Hend.
  { intros [|] c1 bs1 H1 H2; [|apply returns_ret; by exists bs1]. apply returns_bind, returns_modify, returns_ret. exists bs1. split; [by apply Hstates|done]. }
  apply returns_bind. destruct (lastHeight <? heightOf t) eqn:El; [|apply returns_ret; apply (Hend true _ bs); [by apply Hstates|done]].
  apply Z.ltb_lt in El. destruct (Hmerge st lastHeight eq_refl El E0) as (b & Hb & Hbh).
  rewrite (byHeight_spec _ bs _ (ci_stored _ _ Hc)), (head_filter_height bs lastHeight b (linked_sorted _ (st_linked _ _ (ci_stored _ _ Hc))) Hb Hbh).
  cbn [head fmap option_fmap option_map]. apply list_elem_of_lookup in Hb as [k Hk].
  eapply returns_mono; [apply (resetTop_ok _ bs k b); [by apply Hstates|done]|]. intros ok c2 [Hc2 _].
  apply (Hend ok c2 (if ok then drop k bs else bs)); [done|]. destruct ok; [|done]. exists (take k bs). by rewrite take_drop.
Qed.

End facts.

Lemma reset_near_ok_witness :
  exists j bh c', ResetNear (CP := sampleParts) (CC := sampleCaches) (CO := theseCodecs) (b_Header sampleFirst) sampleChain = (Ok (Some bh), c') /\
    bh = b_Header sampleGenesis /\
    chainInv (CP := sampleParts) (CC := sampleCaches) (BL := mapLruLaws Block) (VL := mapLruLaws executePostState) (CO := theseCodecs) c'
      (drop j [sampleFirst; sampleGenesis]).
Proof.
  destruct (reset_near_ok (CP := sampleParts) (CC := sampleCaches) (CO := theseCodecs) (COL := sampleLaws [b_Header sampleNext])
    (BM := mapLruMoreLaws Block) (VM := mapLruMoreLaws executePostState) sampleChain [sampleFirst; sampleGenesis] 0 sampleFirst sampleChain_inv eq_refl)
    as (j & bh & ok & c' & H1 & _ & H2 & H3 & H4 & _).
  assert (ok = true) as -> by (apply H4; split; [done|by right]).
  exists j, bh, c'. split; [exact H2|]. split; [|exact H3]. vm_compute in H1. by injection H1 as <-.
Defined.
