(* ===== verification/TxPool.v ===== *)
(** * TxPool: the transactions waiting for a block

    [src/core/simple_container.go], [tx_reward_pool.go], [transaction_pool.go] and
    [tx_batch.go]: transactions wait in one list per sender, ordered by nonce, or in a
    queue if the nonces before theirs are missing; reward transactions wait by the block
    they reward.

    The skip list of go-datastructures and the LRU cache are classes.  Go ranges over a
    map in any order, the class [GoMaps].  What the pool reads of the chain is the record
    [chainView].  Goroutines run at once; time is an argument. *)
From S2P Require Import Prelude Bytes Types Rewards Prque Group Chain.
Local Open Scope Z_scope.
Local Open Scope zv_scope.

(** ** The packages the pool uses *)

Class SkipList (A : Type) (cmp : A -> A -> Z) := {
  skip : Type;
  skip_New : skip;
  (** [Get(x)[0]] *)
  skip_Get : A -> skip -> option A;
  skip_Insert : A -> skip -> skip;
  skip_Delete : A -> skip -> list A * skip;
  skip_ByPosition : Z -> skip -> option A;
  (** the values of [IterAtPosition(0)] *)
  skip_Iter : skip -> list A;
  skip_Len : skip -> Z;
}.
Arguments skip A cmp {_}.

Class GoMaps := { rangeOver : forall {K A : Type} `{Countable K}, gmap K A -> list (K * A) }.

Class LruPeek (K V : Type) `{LruCache K V} := {
  cacheContains : K -> cache K V -> bool;
  cachePeek : K -> cache K V -> option V;
  cacheLen : cache K V -> Z;
}.

Definition nilPointer {A} : outcome string A := Panic "invalid memory address or nil pointer dereference".
Definition deref_ {A} (p : option A) : outcome string A := match p with Some a => Ok a | None => nilPointer end.

(** ** Transactions *)

Record TransactionWithTime := warpTransaction { wt_item : Transaction; wt_begin : Z }.

(** Transactions of one sender compare by their nonces. *)
Definition Compare (tx tx2 : Transaction) : Z :=
  if bool_decide (tx_Hash tx = tx_Hash tx2) then 0
  else if tx_Nonce tx2 <? tx_Nonce tx then 1
  else if tx_Nonce tx <? tx_Nonce tx2 then -1
  else 0.

Definition cmpPrice (a b : Transaction) : outcome string comparison :=
  x <-! deref_ (tx_GasPrice a) ;;
  y <-! deref_ (tx_GasPrice b) ;;
  Ok (x ?= y).

(** ** The heap of prices *)

Definition priceHeap : Type := list Transaction.

Definition heapAt (h : list Transaction) (i : Z) : outcome string Transaction :=
  if i <? 0 then outOfRange else match h !! Z.to_nat i with Some tx => Ok tx | None => outOfRange end.

Definition priceHeap_Less (i j : Z) (h : priceHeap) : outcome string bool :=
  a <-! heapAt h i ;;
  b <-! heapAt h j ;;
  c <-! cmpPrice a b ;;
  Ok (match c with Gt => true | _ => false end).

Definition priceHeap_Swap (i j : Z) (h : priceHeap) : outcome string priceHeap :=
  a <-! heapAt h j ;;
  b <-! heapAt h i ;;
  Ok (<[Z.to_nat j := b]> (<[Z.to_nat i := a]> h)).

Definition priceHeap_Push (x : Transaction) (h : priceHeap) : outcome string priceHeap := Ok (h ++ [x]).

Definition priceHeap_Pop (h : priceHeap) : outcome string (option Transaction * priceHeap) :=
  let n := Z.of_nat (length h) in
  x <-! heapAt h (n - 1) ;;
  Ok (Some x, take (Z.to_nat (n - 1)) h).

#[global] Instance priceHeap_Interface : Interface priceHeap Transaction := {|
  Len := fun h => Z.of_nat (length h);
  Less := priceHeap_Less;
  Swap := priceHeap_Swap;
  PushTop := priceHeap_Push;
  PopTop := priceHeap_Pop;
|}.

(** ** Pending transactions *)

Section pending.
Context `{SkipList Transaction Compare} `{GoMaps}.

Record pendingContainer := mkPending {
  pd_limit : Z;
  pd_size : Z;
  waitingMap : gmap Address (skip Transaction Compare);
}.
Implicit Types (s : pendingContainer) (tx : Transaction).

Definition newPendingContainer (limit : Z) : pendingContainer := mkPending limit 0 ∅.

Definition setWaiting s (n : Z) (a : Address) (l : skip Transaction Compare) : pendingContainer :=
  mkPending (pd_limit s) n (<[a := l]> (waitingMap s)).

Definition skipGetLast (l : skip Transaction Compare) : option Transaction :=
  if skip_Len l =? 0 then None else skip_ByPosition (skip_Len l - 1) l.

(** The two results are the transaction that has to go and the one it gave way to. *)
Definition doInsertOrReplace tx s : outcome string (option Transaction * option Transaction * pendingContainer) :=
  src <-! deref_ (tx_Source tx) ;;
  l <-! deref_ (waitingMap s !! src) ;;
  match skip_Get tx l with
  | Some existSource =>
      c <-! cmpPrice existSource tx ;;
      match c with
      | Lt =>
          let '(deleted, l1) := skip_Delete existSource l in
          let n := pd_size s - Z.of_nat (length deleted) + 1 in
          Ok (Some existSource, Some tx, setWaiting s n src (skip_Insert tx l1))
      | _ => Ok (Some tx, Some existSource, s)
      end
  | None => Ok (None, None, setWaiting s (pd_size s + 1) src (skip_Insert tx l))
  end.

Definition pending_remove tx s : outcome string pendingContainer :=
  src <-! deref_ (tx_Source tx) ;;
  match waitingMap s !! src with
  | None => Ok s
  | Some l =>
      let '(deleted, l1) := skip_Delete tx l in
      let n := pd_size s - Z.of_nat (length deleted) in
      if skip_Len l1 =? 0 then Ok (mkPending (pd_limit s) n (base.delete src (waitingMap s)))
      else Ok (setWaiting s n src l1)
  end.

(** The cheapest of the last transactions of the senders. *)
Fixpoint lowestPrice (ls : list (Address * skip Transaction Compare)) (low : option Transaction) : outcome string (option Transaction) :=
  match ls with
  | [] => Ok low
  | (_, sourced) :: ls' =>
      lastTx <-! deref_ (skipGetLast sourced) ;;
      let low := default lastTx low in
      c <-! cmpPrice low lastTx ;;
      lowestPrice ls' (Some (match c with Gt => lastTx | _ => low end))
  end.

(** What remains to be done when the list of the sender has been tried. *)
Definition dropLowest tx (evicted conflicted : option Transaction) s :
    outcome string (bool * option Transaction * option Transaction * pendingContainer) :=
  match evicted with
  | Some _ => Ok (true, evicted, conflicted, s)
  | None =>
      if pd_limit s <=? pd_size s then
        low <-! lowestPrice (rangeOver (waitingMap s)) None ;;
        match low with
        | Some lowPriceTx => s' <-! pending_remove lowPriceTx s ;; Ok (true, Some lowPriceTx, Some tx, s')
        | None => Ok (true, None, conflicted, s)
        end
      else Ok (true, None, conflicted, s)
  end.

(** Whether the transaction was taken, what had to go and what for. *)
Definition pending_push tx (stateNonce : Z) s :
    outcome string (bool * option Transaction * option Transaction * pendingContainer) :=
  src <-! deref_ (tx_Source tx) ;;
  if tx_Nonce tx =? wrap64 (stateNonce + 1) then
    let s1 := match waitingMap s !! src with None => setWaiting s (pd_size s) src skip_New | Some _ => s end in
    r <-! doInsertOrReplace tx s1 ;;
    dropLowest tx r.1.1 r.1.2 r.2
  else
    match waitingMap s !! src with
    | None => Ok (false, None, None, s)
    | Some l =>
        match skipGetLast l with
        | Some bigNonceTx =>
            if wrap64 (tx_Nonce bigNonceTx + 1) <? tx_Nonce tx then Ok (false, None, None, s)
            else r <-! doInsertOrReplace tx s ;; dropLowest tx r.1.1 r.1.2 r.2
        | None => dropLowest tx None None s
        end
    end.

(** Hands the transactions out, the dearest first among the next ones of the senders. *)
Section visitor.
Context {St : Type} (f : Transaction -> St -> outcome string (bool * St)).

Fixpoint pushFirsts (ls : list (Address * skip Transaction Compare)) (h : priceHeap) : outcome string priceHeap :=
  match ls with
  | [] => Ok h
  | (_, l) :: ls' => tx <-! deref_ (skip_ByPosition 0 l) ;; h' <-! heapPush tx h ;; pushFirsts ls' h'
  end.

Fixpoint peekLoop (fuel : nat) s (noncePositionMap : gmap Address Z) (h : priceHeap) (st : St) : outcome string St :=
  if Len h =? 0 then Ok st
  else
    match fuel with
    | O => Err "out of fuel"
    | S fuel' =>
        r <-! heapPop h ;;
        tx <-! deref_ r.1 ;;
        go <-! f tx st ;;
        if negb go.1 then Ok go.2
        else
          src <-! deref_ (tx_Source tx) ;;
          let next := default 0 (noncePositionMap !! src) + 1 in
          match waitingMap s !! src with
          | Some l =>
              if next <? skip_Len l then
                nextTx <-! deref_ (skip_ByPosition next l) ;;
                h' <-! heapPush nextTx r.2 ;;
                peekLoop fuel' s (<[src := next]> noncePositionMap) h' go.2
              else peekLoop fuel' s noncePositionMap r.2 go.2
          | None => peekLoop fuel' s noncePositionMap r.2 go.2
          end
    end.

Definition total s : nat := sum_list_with (fun kv => length (skip_Iter kv.2)) (map_to_list (waitingMap s)).

Definition peek s (st : St) : outcome string St :=
  if pd_size s =? 0 then Ok st
  else h <-! pushFirsts (rangeOver (waitingMap s)) [] ;; peekLoop (total s) s ∅ h st.

(** At most so many of each sender. *)
Definition maxSyncCountPreSource : Z := 50.

Fixpoint syncOf (txs : list Transaction) (countMap : gmap Address Z) (st : St) : outcome string (bool * gmap Address Z * St) :=
  match txs with
  | [] => Ok (true, countMap, st)
  | tx :: txs' =>
      src <-! deref_ (tx_Source tx) ;;
      let count := default 0 (countMap !! src) in
      if maxSyncCountPreSource <=? count then syncOf txs' countMap st
      else
        go <-! f tx st ;;
        if negb go.1 then Ok (false, <[src := count + 1]> countMap, go.2)
        else syncOf txs' (<[src := count + 1]> countMap) go.2
  end.

Fixpoint syncAll (ls : list (Address * skip Transaction Compare)) (countMap : gmap Address Z) (st : St) : outcome string St :=
  match ls with
  | [] => Ok st
  | (_, l) :: ls' =>
      r <-! syncOf (skip_Iter l) countMap st ;;
      if r.1.1 then syncAll ls' r.1.2 r.2 else Ok r.2
  end.

Definition pending_eachForSync s (st : St) : outcome string St := syncAll (rangeOver (waitingMap s)) ∅ st.

End visitor.

(** The inner loop stops at the limit, the outer one goes on. *)
Fixpoint sliceOf (txs : list Transaction) (limit count : Z) : list Transaction * Z :=
  match txs with
  | [] => ([], count)
  | tx :: txs' =>
      if limit <=? count + 1 then ([tx], count + 1)
      else let '(r, n) := sliceOf txs' limit (count + 1) in (tx :: r, n)
  end.

Fixpoint sliceAll (ls : list (Address * skip Transaction Compare)) (limit count : Z) : list Transaction :=
  match ls with
  | [] => []
  | (_, l) :: ls' => let '(r, n) := sliceOf (skip_Iter l) limit count in r ++ sliceAll ls' limit n
  end.

Definition pending_asSlice (limit : Z) s : list Transaction := sliceAll (rangeOver (waitingMap s)) limit 0.

End pending.

(** What the pool reads of the chain. *)
Record chainView := mkView {
  (** the nonce of a sender in the latest state *)
  v_nonce : Address -> Z;
  v_hasReceipt : Hash -> bool;
  (** whether the latest state has the reward of a block *)
  v_hasReward : Hash -> bool;
  v_hasBlock : Hash -> bool;
  (** [getValidator], against the state or not *)
  v_validate : Transaction -> bool -> outcome opError unit;
  v_now : Z;
}.

Definition maxPendingSize : Z := 40000.
Definition maxQueueSize : Z := 10000.

(** ** The container *)

Inductive poolError :=
| ErrNonce | ErrNil | ErrQueueFull | ErrSameNonce (h : Hash) | ErrExists (place : Z) | ErrRewardExists | ErrInvalid (e : opError).

Section container.
Context `{SkipList Transaction Compare} `{GoMaps}.

Record simpleContainer := mkContainer {
  txsMap : gmap Hash TransactionWithTime;
  pending : pendingContainer;
  queue : gmap Hash Transaction;
  queueLimit : Z;
  txTimeout : Z;
}.
Implicit Types (c : simpleContainer) (tx : Transaction) (v : chainView).

Definition newSimpleContainer (pendingLimit limit timeout : Z) : simpleContainer :=
  mkContainer ∅ (newPendingContainer pendingLimit) ∅ limit timeout.

Definition container_Len c : Z := pd_size (pending c) + Z.of_nat (size (queue c)).
Definition contains (key : Hash) c : bool := bool_decide (is_Some (txsMap c !! key)).
Definition container_get (key : Hash) c : option Transaction := wt_item <$> txsMap c !! key.

Definition asSlice (limit : Z) c : list Transaction :=
  pending_asSlice (if pd_size (pending c) <? limit then pd_size (pending c) else limit) (pending c).

Definition setPending (p : pendingContainer) c : simpleContainer := mkContainer (txsMap c) p (queue c) (queueLimit c) (txTimeout c).
Definition setQueue (q : gmap Hash Transaction) c : simpleContainer := mkContainer (txsMap c) (pending c) q (queueLimit c) (txTimeout c).
Definition setTxs (m : gmap Hash TransactionWithTime) c : simpleContainer := mkContainer m (pending c) (queue c) (queueLimit c) (txTimeout c).

(** The loop of [addToQueue]: a transaction of the same sender and nonce gives way to a
    dearer one; the first answer is whether the new one gives way. *)
Fixpoint queueLoop tx (olds : list (Hash * Transaction)) (evicted conflicted : option Transaction) (q : gmap Hash Transaction) :
    outcome string (bool * option Transaction * option Transaction * gmap Hash Transaction) :=
  match olds with
  | [] => Ok (false, evicted, conflicted, q)
  | (_, old) :: olds' =>
      if tx_Nonce old =? tx_Nonce tx then
        a <-! deref_ (tx_Source old) ;;
        b <-! deref_ (tx_Source tx) ;;
        if bool_decide (a = b) then
          p <-! cmpPrice old tx ;;
          match p with
          | Lt => queueLoop tx olds' (Some old) (Some tx) (base.delete (tx_Hash old) q)
          | _ => Ok (true, Some tx, Some old, q)
          end
        else queueLoop tx olds' evicted conflicted q
      else queueLoop tx olds' evicted conflicted q
  end.

Definition addToQueue tx c : outcome string (option Transaction * option Transaction * option poolError * simpleContainer) :=
  if queueLimit c <? Z.of_nat (size (queue c)) then Ok (None, None, Some ErrQueueFull, c)
  else
    r <-! queueLoop tx (rangeOver (queue c)) None None (queue c) ;;
    let '(gaveWay, evicted, conflicted, q) := r in
    Ok (evicted, conflicted, None, setQueue (if gaveWay : bool then q else <[tx_Hash tx := tx]> q) c).

Definition getStateNonce v tx : outcome string Z := src <-! deref_ (tx_Source tx) ;; Ok (v_nonce v src).

(** The end of [push], with the transaction that had to go. *)
Definition enter v tx (evicted conflicted : option Transaction) c : outcome string (option poolError * simpleContainer) :=
  let c1 := setTxs (<[tx_Hash tx := warpTransaction tx (v_now v)]> (txsMap c)) c in
  match evicted with
  | None => Ok (None, c1)
  | Some e =>
      err <-! (if bool_decide (tx_Hash e = tx_Hash tx) then k <-! deref_ conflicted ;; Ok (Some (ErrSameNonce (tx_Hash k))) else Ok None) ;;
      Ok (err, setTxs (base.delete (tx_Hash e) (txsMap c1)) c1)
  end.

Definition container_push v tx c : outcome string (option poolError * simpleContainer) :=
  if bool_decide (is_Some (txsMap c !! tx_Hash tx)) then Ok (None, c)
  else
    stateNonce <-! getStateNonce v tx ;;
    if (tx_Nonce tx <=? stateNonce) || (wrap64 (stateNonce + 1000) <? tx_Nonce tx) then Ok (Some ErrNonce, c)
    else
      r <-! pending_push tx stateNonce (pending c) ;;
      let '(success, evicted, conflicted, p) := r in
      let c1 := setPending p c in
      if success : bool then enter v tx evicted conflicted c1
      else
        q <-! addToQueue tx c1 ;;
        let '(evicted, conflicted, err, c2) := q in
        match err with Some _ => Ok (err, c2) | None => enter v tx evicted conflicted c2 end.

Definition removeWithoutLock tx c : outcome string simpleContainer :=
  p <-! pending_remove tx (pending c) ;;
  Ok (mkContainer (base.delete (tx_Hash tx) (txsMap c)) p (base.delete (tx_Hash tx) (queue c)) (queueLimit c) (txTimeout c)).

Definition container_remove (key : Hash) c : outcome string simpleContainer :=
  match txsMap c !! key with None => Ok c | Some w => removeWithoutLock (wt_item w) c end.

(** [sort.Sort] of the queue in any order: ties are in any order. *)
Definition byNonce (x y : Transaction) : Prop := tx_Nonce x <= tx_Nonce y.
#[local] Instance byNonce_dec x y : Decision (byNonce x y) := Z_le_dec _ _.
Definition mapToNonceTxSlice (txMap : gmap Hash Transaction) : list Transaction := merge_sort byNonce (snd <$> rangeOver txMap).

Definition getNonceWithCache v (cache : gmap Address Z) tx : outcome string (Z * gmap Address Z) :=
  src <-! deref_ (tx_Source tx) ;;
  let cached := default 0 (cache !! src) in
  if negb (cached =? 0) then Ok (cached, cache) else Ok (v_nonce v src, <[src := v_nonce v src]> cache).

Definition forget (h : Hash) c : simpleContainer := setQueue (base.delete h (queue c)) (setTxs (base.delete h (txsMap c)) c).

Fixpoint promoteLoop v (sl : list Transaction) (nonceCache : gmap Address Z) c : outcome string simpleContainer :=
  match sl with
  | [] => Ok c
  | tx :: sl' =>
      n <-! getNonceWithCache v nonceCache tx ;;
      let '(stateNonce, nonceCache') := n in
      if tx_Nonce tx <=? stateNonce then promoteLoop v sl' nonceCache' (forget (tx_Hash tx) c)
      else
        r <-! pending_push tx stateNonce (pending c) ;;
        let '(success, evicted, _, p) := r in
        let c1 := setPending p c in
        let c2 := match evicted with Some e => forget (tx_Hash e) c1 | None => c1 end in
        promoteLoop v sl' nonceCache' (if success : bool then setQueue (base.delete (tx_Hash tx) (queue c2)) c2 else c2)
  end.

Definition promoteQueueToPending v c : outcome string simpleContainer := promoteLoop v (mapToNonceTxSlice (queue c)) ∅ c.

Fixpoint evictLoop v (txs : list Transaction) (nonceCache : gmap Address Z) c : outcome string simpleContainer :=
  match txs with
  | [] => Ok c
  | tx :: txs' =>
      n <-! getNonceWithCache v nonceCache tx ;;
      c1 <-! (if tx_Nonce tx <=? n.1 then container_remove (tx_Hash tx) c else Ok c) ;;
      evictLoop v txs' n.2 c1
  end.

Definition evictPending v c : outcome string simpleContainer := evictLoop v (asSlice maxPendingSize c) ∅ c.

(** An entry that has been deleted is not met any more. *)
Fixpoint timeoutLoop v (entries : list (Hash * TransactionWithTime)) c : outcome string simpleContainer :=
  match entries with
  | [] => Ok c
  | (h, w) :: entries' =>
      c1 <-! (if bool_decide (is_Some (txsMap c !! h)) && (txTimeout c <? v_now v - wt_begin w) then removeWithoutLock (wt_item w) c else Ok c) ;;
      timeoutLoop v entries' c1
  end.

Definition evictTimeout v c : outcome string simpleContainer := timeoutLoop v (rangeOver (txsMap c)) c.

Definition clearRoute v c : outcome string simpleContainer := c1 <-! evictPending v c ;; evictTimeout v c1.

End container.

(** ** Reward transactions *)

Section pool.
Context `{SkipList Transaction Compare} `{GoMaps}.
Context `{TL : LruCache Hash Transaction} `{TM : !LruMore Hash Transaction} `{TP : !LruPeek Hash Transaction}.
Context `{IL : LruCache Hash (list Transaction)} `{IM : !LruMore Hash (list Transaction)} `{IP : !LruPeek Hash (list Transaction)}.

Record rewardPool := mkRewardPool {
  rp_pool : cache Hash Transaction;
  blockHashIndex : cache Hash (list Transaction);
}.
Implicit Types (bp : rewardPool) (tx : Transaction) (v : chainView).

Definition reward_add tx bp : bool * rewardPool :=
  if cacheContains (tx_Hash tx) (rp_pool bp) then (false, bp)
  else
    let pool := cacheAdd (tx_Hash tx) tx (rp_pool bp) in
    let blockHash := parseRewardBlockHash tx in
    let '(found, index) := cacheGet blockHash (blockHashIndex bp) in
    (true, mkRewardPool pool (cacheAdd blockHash (default [] found ++ [tx]) index)).

Definition removeByBlockHash (blockHash : Hash) bp : Z * rewardPool :=
  let '(found, index) := cacheGet blockHash (blockHashIndex bp) in
  match found with
  | None => (0, mkRewardPool (rp_pool bp) index)
  | Some txs =>
      (Z.of_nat (length txs),
       mkRewardPool (fold_left (fun p tx => cacheRemove (tx_Hash tx) p) txs (rp_pool bp)) (cacheRemove blockHash index))
  end.

Definition reward_remove (txHash : Hash) bp : rewardPool :=
  let '(found, pool) := cacheGet txHash (rp_pool bp) in
  match found with
  | None => mkRewardPool pool (blockHashIndex bp)
  | Some tx => (removeByBlockHash (parseRewardBlockHash tx) (mkRewardPool (cacheRemove txHash pool) (blockHashIndex bp))).2
  end.

Definition reward_get (hash : Hash) bp : option Transaction * rewardPool :=
  let '(found, pool) := cacheGet hash (rp_pool bp) in (found, mkRewardPool pool (blockHashIndex bp)).

Definition reward_len bp : Z := cacheLen (rp_pool bp).
Definition reward_contains (hash : Hash) bp : bool := cacheContains hash (rp_pool bp).

(** The keys are those at the start; the visitor may change the pool. *)
Section each.
Context {St : Type} (poolOf : St -> rewardPool) (f : Hash -> list Transaction -> St -> outcome string (bool * St)).

Fixpoint eachBlock (keys : list Hash) (st : St) : outcome string St :=
  match keys with
  | [] => Ok st
  | k :: keys' =>
      match cachePeek k (blockHashIndex (poolOf st)) with
      | None => eachBlock keys' st
      | Some txs => go <-! f k txs st ;; if go.1 : bool then eachBlock keys' go.2 else Ok go.2
      end
  end.

Definition forEachByBlock (st : St) : outcome string St := eachBlock (cacheKeys (blockHashIndex (poolOf st))) st.
End each.

(** ** The pool *)

Record txPool := mkPool {
  bonPool : rewardPool;
  received : simpleContainer;
  asyncAdds : cache Hash Transaction;
  gasPriceLowerBound : Z;
  IgnoreVmCall : bool;
}.
Implicit Types p : txPool.

Definition setBon (bp : rewardPool) p : txPool := mkPool bp (received p) (asyncAdds p) (gasPriceLowerBound p) (IgnoreVmCall p).
Definition setReceived (c : simpleContainer) p : txPool := mkPool (bonPool p) c (asyncAdds p) (gasPriceLowerBound p) (IgnoreVmCall p).
Definition setAsync (a : cache Hash Transaction) p : txPool := mkPool (bonPool p) (received p) a (gasPriceLowerBound p) (IgnoreVmCall p).

(** Where the transaction is. *)
Definition IsTransactionExisted v (hash : Hash) p : option Z :=
  if reward_contains hash (bonPool p) then Some 1
  else if contains hash (received p) then Some 1
  else if cacheContains hash (asyncAdds p) then Some 2
  else if v_hasReceipt v hash then Some 3
  else None.

Definition isRewardExists v tx p : bool :=
  reward_contains (tx_Hash tx) (bonPool p) || cacheContains (tx_Hash tx) (asyncAdds p) ||
  v_hasReceipt v (tx_Hash tx) || v_hasReward v (parseRewardBlockHash tx).

Definition txpool_add v tx p : outcome string (option poolError * txPool) :=
  if IsReward tx then Ok (None, setBon (reward_add tx (bonPool p)).2 p)
  else r <-! container_push v tx (received p) ;; Ok (r.1, setReceived r.2 p).

Definition tryAdd v tx p : outcome string (bool * option poolError * txPool) :=
  match IsTransactionExisted v (tx_Hash tx) p with
  | Some place => Ok (false, Some (ErrExists place), p)
  | None =>
      r <-! txpool_add v tx p ;;
      match r.1 with Some e => Ok (false, Some e, r.2) | None => Ok (true, None, r.2) end
  end.

Definition tryAddTransaction v tx p : outcome string (bool * option poolError * txPool) :=
  let known :=
    if IsReward tx then if isRewardExists v tx p then Some ErrRewardExists else None
    else match IsTransactionExisted v (tx_Hash tx) p with Some place => Some (ErrExists place) | None => None end in
  match known with
  | Some e => Ok (false, Some e, p)
  | None =>
      match v_validate v tx true with
      | Ok _ => tryAdd v tx p
      | Err e => Ok (false, Some (ErrInvalid e), p)
      | Panic msg => Panic msg
      end
  end.

Definition AddTransaction v tx p : outcome string (bool * option poolError * txPool) := tryAddTransaction v tx p.

Definition AsyncAddTransaction v tx p : outcome string (option poolError * txPool) :=
  let '(known, p1) :=
    if IsReward tx then let '(found, bp) := reward_get (tx_Hash tx) (bonPool p) in (bool_decide (is_Some found), setBon bp p)
    else (bool_decide (is_Some (container_get (tx_Hash tx) (received p))), p) in
  if known : bool then Ok (None, p1)
  else if cacheContains (tx_Hash tx) (asyncAdds p1) then Ok (None, p1)
  else
    match v_validate v tx false with
    | Ok _ => Ok (None, setAsync (cacheAdd (tx_Hash tx) tx (asyncAdds p1)) p1)
    | Err e => Ok (Some (ErrInvalid e), p1)
    | Panic msg => Panic msg
    end.

(** The goroutines of [batchAdd] run one after the other: each stops at the first error
    any of them met. *)
Fixpoint batchAdd v (txs : list Transaction) p : outcome string (option poolError * txPool) :=
  match txs with
  | [] => Ok (None, p)
  | tx :: txs' => r <-! AsyncAddTransaction v tx p ;; match r.1 with Some e => Ok (Some e, r.2) | None => batchAdd v txs' r.2 end
  end.

Definition GetTransaction (reward : bool) (hash : Hash) p : option Transaction * txPool :=
  let '(tx, bp) := reward_get hash (bonPool p) in
  let p1 := setBon bp p in
  if reward || bool_decide (is_Some tx) then (tx, p1)
  else
    match container_get hash (received p1) with
    | Some tx => (Some tx, p1)
    | None => let '(found, a) := cacheGet hash (asyncAdds p1) in (found, setAsync a p1)
    end.

Definition GetReceived p : list Transaction := asSlice (maxPendingSize + maxQueueSize) (received p).
Definition GetAllTxs p : list Transaction := GetReceived p ++ (snd <$> rangeOver (queue (received p))).
Definition TxNum p : Z := wrap64 (container_Len (received p) + reward_len (bonPool p)).
Definition TxQueueNum p : Z := Z.of_nat (size (queue (received p))).

(** ** Packing *)

(** The transactions packed so far and their size. *)
Definition packReward (_ : Hash) (rewardTxs : list Transaction) (st : list Transaction * Z * rewardPool) :
    outcome string (bool * (list Transaction * Z * rewardPool)) :=
  let '(txs, accuSize, bp) := st in
  match rewardTxs with
  | [] => outOfRange
  | tx :: _ =>
      let accu := accuSize + Size tx in
      if accu <=? txAccumulateSizeMaxPerBlock then Ok (true, (txs ++ [tx], accu, bp)) else Ok (false, (txs, accu, bp))
  end.

Definition packPending (lowerBound : Z) (ignoreVmCall : bool) tx (st : list Transaction * Z) : outcome string (bool * (list Transaction * Z)) :=
  price <-! deref_ (tx_GasPrice tx) ;;
  if price <? lowerBound then Ok (true, st)
  else if ignoreVmCall && ((tx_Type tx =? TransactionTypeContractCreate) || (tx_Type tx =? TransactionTypeContractCall)) then Ok (true, st)
  else
    let accu := st.2 + Size tx in
    if accu <=? txAccumulateSizeMaxPerBlock then Ok (true, (st.1 ++ [tx], accu)) else Ok (false, (st.1, accu)).

Definition packTx p : outcome string (list Transaction) :=
  r <-! forEachByBlock (fun st => st.2) packReward ([], 0, bonPool p) ;;
  let '(txs, accuSize, _) := r in
  if accuSize <? txAccumulateSizeMaxPerBlock then
    r2 <-! peek (packPending (gasPriceLowerBound p) (IgnoreVmCall p)) (pending (received p)) (txs, accuSize) ;; Ok r2.1
  else Ok txs.

Definition PackForCast p : outcome string (list Transaction) := packTx p.

(** ** Removing *)

Definition txpool_remove (txHash : Hash) p : outcome string txPool :=
  let bp := reward_remove txHash (bonPool p) in
  c <-! container_remove txHash (received p) ;;
  Ok (setAsync (cacheRemove txHash (asyncAdds p)) (setReceived c (setBon bp p))).

Fixpoint removeAll (txs : list Hash) p : outcome string txPool :=
  match txs with [] => Ok p | h :: txs' => p1 <-! txpool_remove h p ;; removeAll txs' p1 end.

Definition RemoveFromPool v (txs : list Hash) p : outcome string txPool :=
  p1 <-! removeAll txs p ;;
  c <-! promoteQueueToPending v (received p1) ;;
  Ok (setReceived c p1).

Fixpoint BackToPool v (txs : list Transaction) p : outcome string txPool :=
  match txs with [] => Ok p | tx :: txs' => r <-! tryAdd v tx p ;; BackToPool v txs' r.2 end.

Definition GetRewardTxs p : outcome string (list Transaction) :=
  r <-! forEachByBlock (fun st => st.2) (fun _ txs st => Ok (true, (st.1 ++ txs, st.2))) ([], bonPool p) ;; Ok r.1.

Definition clearReward v (bhash : Hash) (_ : list Transaction) bp : outcome string (bool * rewardPool) :=
  if v_hasReward v bhash || negb (v_hasBlock v bhash) then Ok (true, (removeByBlockHash bhash bp).2) else Ok (true, bp).

Definition ClearRewardTxs v p : outcome string txPool :=
  bp <-! forEachByBlock (fun st => st) (clearReward v) (bonPool p) ;; Ok (setBon bp p).

End pool.
