(* ===== verification/TxPoolInv.v ===== *)
(** * TxPoolInv: the lists of the senders as a bag

    What the skip list promises, and what the operations of [pendingContainer] do to the
    bag of pending transactions: inserting puts one in and may take one out, the lists
    stay ordered by nonce, and packing visits every transaction once, each sender's in
    the order of nonces and the dearest of the next ones first. *)
From Stdlib Require Import Sorting.Sorted.
From S2P Require Import Prelude Bytes Types Group Rewards Prque Chain TxPool.
Local Open Scope Z_scope.
Local Open Scope zv_scope.

(** ** The laws of the packages *)

(** The list before, at and behind the place of [x]. *)
Definition splits {A} (cmp : A -> A -> Z) (x : A) (l l1 l2 l3 : list A) : Prop :=
  l = l1 ++ l2 ++ l3 /\ Forall (fun y => 0 < cmp x y) l1 /\ Forall (fun y => cmp x y = 0) l2 /\ Forall (fun y => cmp x y < 0) l3.

(** A skip list is a list ordered by the comparison; of elements that compare equal it
    holds one. *)
Class SkipLaws (A : Type) (cmp : A -> A -> Z) `{SkipList A cmp} := {
  elems : skip A cmp -> list A;
  New_elems : elems skip_New = [];
  Len_elems s : skip_Len s = Z.of_nat (length (elems s));
  Iter_elems s : skip_Iter s = elems s;
  ByPosition_elems s (i : nat) : skip_ByPosition (Z.of_nat i) s = elems s !! i;
  Get_elems x s l1 l2 l3 : splits cmp x (elems s) l1 l2 l3 -> skip_Get x s = head l2;
  Insert_elems x s l1 l2 l3 : splits cmp x (elems s) l1 l2 l3 -> elems (skip_Insert x s) = l1 ++ x :: l3;
  Delete_elems x s l1 l2 l3 : splits cmp x (elems s) l1 l2 l3 -> elems (skip_Delete x s).2 = l1 ++ l3;
  Delete_found x s l1 y l3 : splits cmp x (elems s) l1 [y] l3 -> (skip_Delete x s).1 = [y];
}.

(** Deleting what is not there answers that nothing was deleted. *)
Class SkipExact (A : Type) (cmp : A -> A -> Z) `{SkipLaws A cmp} := {
  Delete_missing x s l1 l3 : splits cmp x (elems s) l1 [] l3 -> (skip_Delete x s).1 = [];
}.

Class GoMapsLaws `{GoMaps} := { rangeOver_perm {K A} `{Countable K} (m : gmap K A) : rangeOver m ≡ₚ map_to_list m }.

(** ** Lists ordered by nonce *)

Definition nonceLt (x y : Transaction) : Prop := tx_Nonce x < tx_Nonce y.

(** A transaction the container can work with. *)
Definition ready (a : Address) (tx : Transaction) : Prop := tx_Source tx = Some a /\ is_Some (tx_GasPrice tx).
Definition isReady (tx : Transaction) : Prop := exists a, ready a tx.

Definition good (a : Address) (l : list Transaction) : Prop := l <> [] /\ StronglySorted nonceLt l /\ Forall (ready a) l.

(** A transaction of the same hash has the same nonce. *)
Definition coherent (x : Transaction) (l : list Transaction) : Prop := forall y, y ∈ l -> tx_Hash x = tx_Hash y -> tx_Nonce x = tx_Nonce y.

Definition before x (l : list Transaction) := filter (fun y => tx_Nonce y < tx_Nonce x) l.
Definition same x (l : list Transaction) := filter (fun y => tx_Nonce y = tx_Nonce x) l.
Definition behind x (l : list Transaction) := filter (fun y => tx_Nonce x < tx_Nonce y) l.

Lemma Compare_nonce x y :
  (tx_Hash x = tx_Hash y -> tx_Nonce x = tx_Nonce y) ->
  (0 < Compare x y <-> tx_Nonce y < tx_Nonce x) /\ (Compare x y = 0 <-> tx_Nonce y = tx_Nonce x) /\ (Compare x y < 0 <-> tx_Nonce x < tx_Nonce y).
Proof.
  intros Hc. unfold Compare. case_bool_decide as E; [specialize (Hc E); lia|].
  destruct (Z.ltb_spec (tx_Nonce y) (tx_Nonce x)); [lia|]. destruct (Z.ltb_spec (tx_Nonce x) (tx_Nonce y)); lia.
Qed.

Lemma nonce_parts x l : StronglySorted nonceLt l -> l = before x l ++ same x l ++ behind x l.
Proof.
  unfold before, same, behind. induction 1 as [|y l Hs IH Hy]; [done|]. rewrite Forall_forall in Hy. unfold nonceLt in Hy.
  rewrite !filter_cons. destruct (Z.lt_total (tx_Nonce y) (tx_Nonce x)) as [Hlt|[Heq|Hgt]].
  - rewrite (decide_True _ _ Hlt), !decide_False by lia. cbn [app]. by f_equal.
  - rewrite (decide_True _ _ Heq), !decide_False by lia. cbn [app].
    rewrite (filter_none (fun y => tx_Nonce y < tx_Nonce x)) in * by (intros z Hz; specialize (Hy z Hz); lia). cbn [app] in *. by f_equal.
  - rewrite !decide_False by lia. rewrite (decide_True _ _ Hgt). rewrite !filter_none by (intros z Hz; specialize (Hy z Hz); lia).
    cbn [app]. f_equal. symmetry. apply filter_all. intros z Hz. specialize (Hy z Hz). lia.
Qed.

Lemma splits_sorted x l : StronglySorted nonceLt l -> coherent x l -> splits Compare x l (before x l) (same x l) (behind x l).
Proof.
  intros Hs Hc. split; [by apply nonce_parts|]. unfold before, same, behind.
  split_and!; apply Forall_forall; intros y [Hy Hl]%list_elem_of_filter; by apply (Compare_nonce x y); [apply Hc|].
Qed.

Definition takeOut x l := before x l ++ behind x l.
Definition putIn x l := before x l ++ x :: behind x l.

Lemma same_cases x l : StronglySorted nonceLt l -> same x l = [] \/ exists y, same x l = [y] /\ y ∈ l /\ tx_Nonce y = tx_Nonce x.
Proof.
  unfold same. induction 1 as [|y l Hs IH Hy]; [by left|]. rewrite Forall_forall in Hy. rewrite filter_cons. case_decide as E.
  - right. exists y. split; [|split; [left|done]]. f_equal. apply filter_none. intros z Hz. specialize (Hy z Hz). unfold nonceLt in Hy. lia.
  - destruct IH as [IH|(z & IH & Hz & En)]; [by left|right]. exists z. split; [done|]. split; [by right|done].
Qed.

Lemma same_self x l : StronglySorted nonceLt l -> x ∈ l -> same x l = [x].
Proof.
  intros Hs Hx. assert (x ∈ same x l) as Hin by (by apply list_elem_of_filter). destruct (same_cases x l Hs) as [E|(y & E & _)]; rewrite E in Hin.
  - by apply not_elem_of_nil in Hin.
  - by apply list_elem_of_singleton in Hin as ->.
Qed.

Lemma takeOut_perm x l : StronglySorted nonceLt l -> l ≡ₚ same x l ++ takeOut x l.
Proof. intros Hs. rewrite (nonce_parts x l Hs) at 1. unfold takeOut. rewrite !app_assoc. apply Permutation_app_tail, Permutation_app_comm. Qed.

Lemma putIn_perm x l : putIn x l ≡ₚ x :: takeOut x l.
Proof. unfold putIn, takeOut. by rewrite <- Permutation_middle. Qed.

Lemma parts_sorted x l :
  StronglySorted nonceLt l -> StronglySorted nonceLt (before x l) /\ StronglySorted nonceLt (behind x l).
Proof. unfold before, behind. intros Hs. split; by apply StronglySorted_filter. Qed.

Lemma takeOut_sorted x l : StronglySorted nonceLt l -> StronglySorted nonceLt (takeOut x l).
Proof.
  intros Hs. destruct (parts_sorted x l Hs). apply StronglySorted_app_2; [|done|done].
  intros y z [Hy _]%list_elem_of_filter [Hz _]%list_elem_of_filter. unfold nonceLt. lia.
Qed.

Lemma putIn_sorted x l : StronglySorted nonceLt l -> StronglySorted nonceLt (putIn x l).
Proof.
  intros Hs. destruct (parts_sorted x l Hs) as [Hb Ha]. apply StronglySorted_app_2; [|done|].
  - intros y z [Hy _]%list_elem_of_filter [->|[Hz _]%list_elem_of_filter]%elem_of_cons; unfold nonceLt; lia.
  - constructor; [done|]. apply Forall_forall. by intros z [Hz _]%list_elem_of_filter.
Qed.

Lemma takeOut_sub x l y : y ∈ takeOut x l -> y ∈ l.
Proof. unfold takeOut. by intros [[_ Hy]%list_elem_of_filter|[_ Hy]%list_elem_of_filter]%elem_of_app. Qed.

Lemma putIn_good a x l : ready a x -> StronglySorted nonceLt l -> Forall (ready a) l -> good a (putIn x l).
Proof.
  intros Hx Hs Hl. split; [unfold putIn; by destruct (before x l)|]. split; [by apply putIn_sorted|]. rewrite putIn_perm. constructor; [done|].
  rewrite Forall_forall in *. intros y Hy. by apply Hl, (takeOut_sub x).
Qed.

Lemma cmpPrice_ready a b x y : ready a x -> ready b y -> cmpPrice x y = Ok (default 0 (tx_GasPrice x) ?= default 0 (tx_GasPrice y)).
Proof. intros [_ [p Hp]] [_ [q Hq]]. unfold cmpPrice. by rewrite Hp, Hq. Qed.

Lemma takeOut_nonce x y l : tx_Nonce x = tx_Nonce y -> takeOut x l = takeOut y l.
Proof. unfold takeOut, before, behind. intros E. by rewrite E. Qed.

Lemma putIn_takeOut x l : putIn x (takeOut x l) = putIn x l.
Proof.
  unfold putIn, takeOut, before, behind. rewrite !filter_app, !list_filter_filter.
  rewrite (filter_none (fun y => tx_Nonce y < tx_Nonce x /\ tx_Nonce x < tx_Nonce y)), (filter_none (fun y => tx_Nonce x < tx_Nonce y /\ tx_Nonce y < tx_Nonce x)) by (intros; lia).
  rewrite app_nil_r. cbn [app]. f_equal; [|f_equal]; apply filter_ext_in; intros; lia.
Qed.

(** ** The bag of pending transactions *)

Section bag.
Context `{SL : SkipList Transaction Compare} {SLL : SkipLaws Transaction Compare}.
Implicit Types (m : gmap Address (skip Transaction Compare)) (s : pendingContainer) (l : skip Transaction Compare).

Definition allOf m : list Transaction := concat ((fun kv => elems kv.2) <$> map_to_list m).

Lemma allOf_insert m a l : m !! a = None -> allOf (<[a := l]> m) ≡ₚ elems l ++ allOf m.
Proof. intros Hm. unfold allOf. by rewrite map_to_list_insert. Qed.

Lemma allOf_take m a l : m !! a = Some l -> allOf m ≡ₚ elems l ++ allOf (base.delete a m).
Proof. intros Hm. rewrite <- allOf_insert by apply lookup_delete_eq. by rewrite insert_delete_id. Qed.

Lemma elem_allOf tx m : tx ∈ allOf m <-> exists a l, m !! a = Some l /\ tx ∈ elems l.
Proof.
  unfold allOf. rewrite list_elem_of_In, in_concat. split.
  - intros (x & Hx & Htx). apply list_elem_of_In, list_elem_of_fmap in Hx as [[a l] [-> Hl]]. exists a, l.
    split; [by apply elem_of_map_to_list|by apply list_elem_of_In].
  - intros (a & l & Hl & Hx). exists (elems l). split; [|by apply list_elem_of_In]. apply list_elem_of_In, list_elem_of_fmap.
    exists (a, l). split; [done|]. by apply elem_of_map_to_list.
Qed.

(** Every list belongs to its sender and is ordered, and a hash names one transaction. *)
Record pendingInv m : Prop := {
  pi_good : map_Forall (fun a l => good a (elems l)) m;
  pi_hash x y : x ∈ allOf m -> y ∈ allOf m -> tx_Hash x = tx_Hash y -> x = y;
}.

Definition fresh tx m : Prop := forall y, y ∈ allOf m -> tx_Hash y <> tx_Hash tx.

Lemma all_source m a l x : pendingInv m -> m !! a = Some l -> x ∈ elems l -> ready a x.
Proof. intros Hm Hl Hx. destruct (pi_good _ Hm a l Hl) as (_ & _ & Hr). rewrite Forall_forall in Hr. by apply Hr. Qed.

Lemma all_ready m x : pendingInv m -> x ∈ allOf m -> isReady x.
Proof. intros Hm (a & l & Hl & Hx)%elem_allOf. exists a. by eapply all_source. Qed.

Lemma lists_sorted m a l : pendingInv m -> m !! a = Some l -> StronglySorted nonceLt (elems l).
Proof. intros Hm Hl. apply (pi_good _ Hm a l Hl). Qed.

Lemma pendingInv_empty : pendingInv ∅.
Proof. constructor; [apply map_Forall_empty|]. intros x y Hx. by apply not_elem_of_nil in Hx. Qed.

(** Replacing one list. *)
Lemma pendingInv_insert m a l :
  pendingInv (base.delete a m) -> good a (elems l) -> (forall x y, x ∈ elems l ++ allOf (base.delete a m) -> y ∈ elems l ++ allOf (base.delete a m) -> tx_Hash x = tx_Hash y -> x = y) ->
  pendingInv (<[a := l]> m).
Proof.
  intros Hm Hl Hh. rewrite <- insert_delete_eq. constructor.
  - apply map_Forall_insert_2; [done|apply Hm].
  - intros x y. rewrite !allOf_insert by apply lookup_delete_eq. apply Hh.
Qed.

Lemma pendingInv_delete m a : pendingInv m -> pendingInv (base.delete a m).
Proof.
  intros Hm. constructor; [by apply map_Forall_delete, Hm|]. intros x y Hx Hy. apply Hm.
  - apply elem_allOf in Hx as (b & l & Hl & Hx). apply elem_allOf. exists b, l. split; [|done]. by apply lookup_delete_Some in Hl as [_ Hl].
  - apply elem_allOf in Hy as (b & l & Hl & Hy). apply elem_allOf. exists b, l. split; [|done]. by apply lookup_delete_Some in Hl as [_ Hl].
Qed.

Lemma all_NoDup m : pendingInv m -> NoDup (allOf m).
Proof.
  induction m as [|a l m Hm IH] using map_ind; intros Hi; [constructor|]. rewrite allOf_insert by done.
  assert (pendingInv m) as Hi' by (rewrite <- (delete_insert_id m a l) by done; by apply pendingInv_delete).
  apply NoDup_app. split; [|split; [|by apply IH]].
  - pose proof (lists_sorted _ a l Hi (lookup_insert_eq _ _ _)) as Hs. induction Hs as [|x r Hs IHs Hx]; constructor; [|done].
    intros Hin. rewrite Forall_forall in Hx. specialize (Hx x Hin). unfold nonceLt in Hx. lia.
  - intros x Hx (b & l' & Hl' & Hx')%elem_allOf. pose proof (all_source _ a l x Hi (lookup_insert_eq _ _ _) Hx) as [Ha _].
    pose proof (all_source _ b l' x Hi' Hl' Hx') as [Hb _]. rewrite Ha in Hb. injection Hb as <-. by rewrite Hm in Hl'.
Qed.

(** ** Inserting and removing *)

Definition named tx m : Prop := forall y, y ∈ allOf m -> tx_Hash y = tx_Hash tx -> y = tx.

Lemma fresh_named tx m : fresh tx m -> named tx m.
Proof. intros Hf y Hy E. by destruct (Hf y Hy). Qed.

Lemma named_coherent tx m a l : named tx m -> m !! a = Some l -> coherent tx (elems l).
Proof. intros Hn Hl y Hy E. rewrite (Hn y); [done| |done]. apply elem_allOf. by exists a, l. Qed.

Lemma Get_sorted x l : StronglySorted nonceLt (elems l) -> coherent x (elems l) -> skip_Get x l = head (same x (elems l)).
Proof. intros Hs Hc. by eapply Get_elems, splits_sorted. Qed.

Lemma Insert_sorted x l : StronglySorted nonceLt (elems l) -> coherent x (elems l) -> elems (skip_Insert x l) = putIn x (elems l).
Proof. intros Hs Hc. by eapply Insert_elems, splits_sorted. Qed.

Lemma Delete_sorted x l : StronglySorted nonceLt (elems l) -> coherent x (elems l) -> elems (skip_Delete x l).2 = takeOut x (elems l).
Proof. intros Hs Hc. by eapply Delete_elems, splits_sorted. Qed.

Lemma Delete_same x l y : StronglySorted nonceLt (elems l) -> coherent x (elems l) -> same x (elems l) = [y] -> (skip_Delete x l).1 = [y].
Proof. intros Hs Hc E. pose proof (splits_sorted _ _ Hs Hc) as Hp. rewrite E in Hp. by eapply Delete_found. Qed.

Lemma skipGetLast_ok l : skipGetLast l = last (elems l).
Proof.
  unfold skipGetLast. rewrite Len_elems. destruct (elems l) as [|x r] eqn:E; [done|].
  rewrite (proj2 (Z.eqb_neq _ _)) by (simpl; lia). replace (Z.of_nat (length (x :: r)) - 1) with (Z.of_nat (length r)) by (simpl; lia).
  rewrite ByPosition_elems, E, last_lookup. done.
Qed.

(** The list of one sender may still be empty. *)
Record nearly (a : Address) l m : Prop := {
  ne_lookup : m !! a = Some l;
  ne_rest : pendingInv (base.delete a m);
  ne_sorted : StronglySorted nonceLt (elems l);
  ne_ready : Forall (ready a) (elems l);
  ne_hash x y : x ∈ allOf m -> y ∈ allOf m -> tx_Hash x = tx_Hash y -> x = y;
}.

Lemma nearly_inv a l m : pendingInv m -> m !! a = Some l -> nearly a l m.
Proof. intros Hm Hl. destruct (pi_good _ Hm a l Hl) as (_ & Hs & Hr). constructor; try done; [by apply pendingInv_delete|apply Hm]. Qed.

Lemma nearly_new a m : pendingInv m -> m !! a = None -> nearly a skip_New (<[a := skip_New]> m).
Proof.
  intros Hm Hl. constructor; rewrite ?New_elems; [apply lookup_insert_eq|by rewrite delete_insert_id|constructor|done|].
  intros x y. rewrite !allOf_insert, New_elems by done. apply Hm.
Qed.

Lemma nearly_full a l m : nearly a l m -> elems l <> [] -> pendingInv m.
Proof.
  intros [Hl Hr Hs Ha Hh] Hne. rewrite <- (insert_id m a l Hl). apply pendingInv_insert; [done|done|]. intros x y. rewrite <- (allOf_take m a l Hl). apply Hh.
Qed.

(** The sender's list with the new transaction in the place of its nonce. *)
Lemma nearly_put a l m l' tx :
  nearly a l m -> ready a tx -> fresh tx m -> elems l' = putIn tx (elems l) ->
  pendingInv (<[a := l']> m) /\ same tx (elems l) ++ allOf (<[a := l']> m) ≡ₚ tx :: allOf m.
Proof.
  intros [Hl Hr Hs Ha Hh] Htx Hf E. pose proof (allOf_take m a l Hl) as Hall. split.
  - apply pendingInv_insert; [done|rewrite E; by apply putIn_good|]. intros x y. rewrite E, putIn_perm. cbn [app].
    assert (forall z, z ∈ takeOut tx (elems l) ++ allOf (base.delete a m) -> z ∈ allOf m) as Hsub.
    { intros z [Hz|Hz]%elem_of_app; rewrite Hall; apply elem_of_app; [left; by eapply takeOut_sub|by right]. }
    intros [->|Hx]%elem_of_cons [->|Hy]%elem_of_cons Exy; [done| | |by apply Hh; [apply Hsub|apply Hsub|]].
    + by destruct (Hf y (Hsub y Hy)).
    + by destruct (Hf x (Hsub x Hx)).
  - pose proof (takeOut_perm tx (elems l) Hs) as Ht. rewrite <- insert_delete_eq, allOf_insert by apply lookup_delete_eq. rewrite E, putIn_perm, Hall.
    transitivity (tx :: (same tx (elems l) ++ takeOut tx (elems l)) ++ allOf (base.delete a m)); [|by rewrite <- Ht].
    rewrite <- app_assoc. cbn [app]. symmetry. apply Permutation_middle.
Qed.

Definition price tx : Z := default 0 (tx_GasPrice tx).

(** What one transaction put into the bag leaves: [ev] had to go. *)
Record swapped tx (ev : option Transaction) s s' : Prop := {
  sw_limit : pd_limit s' = pd_limit s;
  sw_inv : pendingInv (waitingMap s');
  sw_bag : option_list ev ++ allOf (waitingMap s') ≡ₚ tx :: allOf (waitingMap s);
  sw_size : pd_size s' = pd_size s + 1 - Z.of_nat (length (option_list ev));
}.

Lemma doInsertOrReplace_ok s a l tx :
  nearly a l (waitingMap s) -> ready a tx -> fresh tx (waitingMap s) ->
  exists ev conf s', doInsertOrReplace tx s = Ok (ev, conf, s') /\ swapped tx ev s s' /\
    (ev = None /\ conf = None \/ exists e k, ev = Some e /\ conf = Some k /\ price e <= price k).
Proof.
  intros Hn Htx Hf. pose proof (ne_lookup _ _ _ Hn) as Hl. pose proof (ne_sorted _ _ _ Hn) as Hs.
  pose proof (named_coherent tx _ a l (fresh_named _ _ Hf) Hl) as Hc. unfold doInsertOrReplace. rewrite (proj1 Htx). cbn [deref_ obind]. rewrite Hl. cbn [deref_ obind].
  rewrite Get_sorted by done. destruct (same_cases tx (elems l) Hs) as [E|(y & E & Hy & En)]; rewrite E; cbn [head].
  - eexists None, None, _. split; [done|]. split; [|by left].
    destruct (nearly_put a l (waitingMap s) (skip_Insert tx l) tx Hn Htx Hf) as [Hi Hb]; [by apply Insert_sorted|]. rewrite E in Hb. constructor; simpl; [done|done|done|lia].
  - assert (ready a y) as Hyr. { pose proof (ne_ready _ _ _ Hn) as Hr. rewrite Forall_forall in Hr. by apply Hr. }
    rewrite (cmpPrice_ready a a) by done. cbn [obind]. fold (price y) (price tx). destruct (Z.compare_spec (price y) (price tx)) as [Ep|Ep|Ep].
    1,3: exists (Some tx), (Some y), s; split; [done|]; split; [|right; exists tx, y; split; [done|]; split; [done|lia]]; constructor; simpl;
      [done|by eapply nearly_full; [|intros El; rewrite El in Hy; by apply not_elem_of_nil in Hy]|done|lia].
    assert (coherent y (elems l)) as Hcy.
    { intros z Hz Ez. rewrite (ne_hash _ _ _ Hn y z); [done| | |done]; apply elem_allOf; by exists a, l. }
    pose proof (Delete_same y l y Hs Hcy (same_self y (elems l) Hs Hy)) as Ed. pose proof (Delete_sorted y l Hs Hcy) as Et.
    destruct (skip_Delete y l) as [deleted l1]. cbn [fst snd] in *. subst deleted. cbn [length]. eexists (Some y), (Some tx), _. split; [done|].
    split; [|right; exists y, tx; split; [done|]; split; [done|lia]].
    rewrite (takeOut_nonce y tx) in Et by done.
    destruct (nearly_put a l (waitingMap s) (skip_Insert tx l1) tx Hn Htx Hf) as [Hi Hb].
    { rewrite Insert_sorted; rewrite Et; [apply putIn_takeOut|by apply takeOut_sorted|]. intros z Hz. by apply Hc, (takeOut_sub tx). }
    rewrite E in Hb. constructor; simpl; [done|done|done|lia].
Qed.

Lemma remove_perm m a l tx :
  m !! a = Some l -> StronglySorted nonceLt (elems l) -> allOf m ≡ₚ same tx (elems l) ++ takeOut tx (elems l) ++ allOf (base.delete a m).
Proof. intros Hl Hs. rewrite (allOf_take m a l Hl), app_assoc. by apply Permutation_app_tail, takeOut_perm. Qed.

Lemma pending_remove_ok s tx :
  pendingInv (waitingMap s) -> isReady tx -> named tx (waitingMap s) ->
  exists gone s', pending_remove tx s = Ok s' /\ pd_limit s' = pd_limit s /\ pendingInv (waitingMap s') /\
    allOf (waitingMap s) ≡ₚ gone ++ allOf (waitingMap s') /\ (length gone <= 1)%nat /\
    (forall y, y ∈ gone -> tx_Source y = tx_Source tx /\ tx_Nonce y = tx_Nonce tx) /\
    (tx ∈ allOf (waitingMap s) -> gone = [tx]) /\
    (gone <> [] \/ SkipExact Transaction Compare -> pd_size s' = pd_size s - Z.of_nat (length gone)).
Proof.
  intros Hm [a Htx] Hn. unfold pending_remove. rewrite (proj1 Htx). cbn [deref_ obind]. destruct (waitingMap s !! a) as [l|] eqn:Hl.
  - pose proof (lists_sorted _ a l Hm Hl) as Hs. pose proof (named_coherent tx _ a l Hn Hl) as Hc. pose proof (Delete_sorted tx l Hs Hc) as Et.
    assert (same tx (elems l) <> [] \/ SkipExact Transaction Compare -> length (skip_Delete tx l).1 = length (same tx (elems l))) as Hlen.
    { destruct (same_cases tx (elems l) Hs) as [E|(y & E & _)]; [|intros _; by rewrite (Delete_same tx l y Hs Hc E), E].
      intros [Hne|Hex]; [done|]. pose proof (splits_sorted _ _ Hs Hc) as Hp. rewrite E in Hp. by rewrite (Delete_missing tx l _ _ Hp), E. }
    pose proof (allOf_take _ a l Hl) as Hall. pose proof (remove_perm _ a l tx Hl Hs) as Ht.
    destruct (skip_Delete tx l) as [deleted l1]. cbn [fst snd] in *. rewrite Len_elems.
    assert (tx ∈ allOf (waitingMap s) -> same tx (elems l) = [tx]) as Hself.
    { intros (b & l' & Hl' & Hx)%elem_allOf. apply same_self; [done|]. pose proof (all_source _ b l' tx Hm Hl' Hx) as [Hb _]. rewrite (proj1 Htx) in Hb.
      injection Hb as <-. rewrite Hl in Hl'. by injection Hl' as <-. }
    assert (forall y, y ∈ same tx (elems l) -> tx_Source y = Some a /\ tx_Nonce y = tx_Nonce tx) as Hsame.
    { intros y [Hy Hin]%list_elem_of_filter. split; [|done]. by apply (all_source _ a l y Hm Hl). }
    assert (length (same tx (elems l)) <= 1)%nat as Hle by (destruct (same_cases tx (elems l) Hs) as [->|(y & -> & _)]; simpl; lia).
    exists (same tx (elems l)). destruct (takeOut tx (elems l)) as [|z r] eqn:Eo; rewrite Et; cbn [app] in Ht.
    + eexists. split; [done|]. split; [done|]. cbn [waitingMap pd_size]. split; [by apply pendingInv_delete|]. split; [done|].
      split; [done|]. split; [done|]. split; [done|]. intros Hx. rewrite (Hlen Hx). lia.
    + rewrite (proj2 (Z.eqb_neq _ _)) by (simpl; lia). eexists. split; [done|]. split; [done|]. cbn [waitingMap pd_size setWaiting].
      split; [|split; [|split; [done|split; [done|split; [done|intros Hx; rewrite (Hlen Hx); lia]]]]].
      * apply pendingInv_insert; [by apply pendingInv_delete| |].
        -- rewrite Et, <- Eo. split; [by rewrite Eo|]. split; [by apply takeOut_sorted|]. apply Forall_forall. intros y Hy%takeOut_sub. by apply (all_source _ a l y Hm Hl).
        -- rewrite Et, <- Eo. intros x y Hx Hy. apply Hm; rewrite Hall; apply elem_of_app; [apply elem_of_app in Hx as [Hx%takeOut_sub|Hx]|apply elem_of_app in Hy as [Hy%takeOut_sub|Hy]]; auto.
      * by rewrite <- insert_delete_eq, allOf_insert, Et by apply lookup_delete_eq.
  - exists [], s. split; [done|]. split; [done|]. split; [done|]. split; [done|]. split; [simpl; lia|]. split; [by intros y Hy%not_elem_of_nil|].
    split; [|simpl; lia]. intros (b & l' & Hl' & Hx)%elem_allOf. pose proof (all_source _ b l' tx Hm Hl' Hx) as [Hb _]. rewrite (proj1 Htx) in Hb. injection Hb as <-. by rewrite Hl in Hl'.
Qed.

Context `{GM : GoMaps} {GML : GoMapsLaws}.

(** The cheapest of the last transactions, and it is one of them. *)
Lemma lowestPrice_ok ls low :
  Forall (fun kv => exists a, good a (elems kv.2)) ls -> (forall t, low = Some t -> isReady t) ->
  exists r, lowestPrice ls low = Ok r /\ (ls <> [] \/ is_Some low -> is_Some r) /\
    forall t, r = Some t -> (low = Some t \/ exists kv, kv ∈ ls /\ last (elems kv.2) = Some t) /\
      (forall u, low = Some u -> price t <= price u) /\ forall kv u, kv ∈ ls -> last (elems kv.2) = Some u -> price t <= price u.
Proof.
  intros Hls. revert low. induction Hls as [|[k l] ls (a & Hne & Hs & Hr) _ IH]; intros low Hlow; cbn [lowestPrice].
  - exists low. split; [done|]. split; [by intros [?|?]|]. intros t ->. split; [by left|]. split; [intros u [= ->]; lia|]. intros kv u Hkv. by apply not_elem_of_nil in Hkv.
  - rewrite skipGetLast_ok. cbn [snd] in *. destruct (last (elems l)) as [x|] eqn:El; [|by apply last_None in El].
    cbn [deref_ obind]. assert (ready a x) as Hx by (rewrite Forall_forall in Hr; apply Hr; by apply last_Some_elem_of).
    assert (isReady (default x low)) as [b Hb] by (destruct low as [t|]; [by apply Hlow|by exists a]).
    rewrite (cmpPrice_ready b a) by done. cbn [obind]. fold (price (default x low)) (price x).
    set (low' := match _ ?= _ with Gt => x | _ => default x low end).
    assert (isReady low' /\ price low' <= price x /\ price low' <= price (default x low) /\ (low' = x \/ low = Some low')) as (Hr' & Hp1 & Hp2 & Hw).
    { unfold low'. destruct (Z.compare_spec (price (default x low)) (price x)) as [E|E|E].
      1,2: split; [by exists b|]; split; [lia|]; split; [lia|]; destruct low; [by right|by left].
      split; [by exists a|]. split; [lia|]. split; [lia|by left]. }
    destruct (IH (Some low')) as (r & E & Hsome & Hbest); [by intros t [= <-]|]. rewrite E. exists r. split; [done|]. split; [intros _; by apply Hsome; right|].
    intros t ->. destruct (Hbest t eq_refl) as (Hwhere & Hl1 & Hl2). specialize (Hl1 low' eq_refl). split; [|split].
    + destruct Hwhere as [[= ->]|(kv & Hkv & Hlast)].
      * destruct Hw as [->|Hw]; [right; exists (k, l); split; [left|done]|by left].
      * right. exists kv. split; [by right|done].
    + intros u ->. cbn [default] in *. unfold default in *. simpl in *. lia.
    + intros kv u [->|Hkv]%elem_of_cons Hu; [cbn [snd] in Hu; rewrite El in Hu; injection Hu as <-; lia|by eapply Hl2].
Qed.

Lemma range_good m : pendingInv m -> Forall (fun kv => exists a, good a (elems kv.2)) (rangeOver m).
Proof.
  intros Hm. apply Forall_forall. intros [a l]. rewrite rangeOver_perm. intros Hl%elem_of_map_to_list. exists a. by apply (pi_good _ Hm a l).
Qed.

Lemma elem_range m a l : (a, l) ∈ rangeOver m <-> m !! a = Some l.
Proof. rewrite rangeOver_perm. apply elem_of_map_to_list. Qed.

(** Room is made by dropping the cheapest of the last transactions. *)
Lemma dropLowest_ok tx ev conf s0 s :
  swapped tx ev s0 s -> (ev = None /\ conf = None \/ exists e k, ev = Some e /\ conf = Some k /\ price e <= price k) ->
  exists ev' conf' s', dropLowest tx ev conf s = Ok (true, ev', conf', s') /\ swapped tx ev' s0 s' /\ (is_Some ev' -> is_Some conf') /\
    (pd_size s0 < pd_limit s0 -> 0 < pd_limit s0 -> pd_size s' < pd_limit s').
Proof.
  intros Hw Hc. unfold dropLowest. destruct ev as [e|].
  - destruct Hc as [[[=] _]|(e' & k & [= <-] & -> & _)]. exists (Some e), (Some k), s. split; [done|]. split; [done|]. split; [done|].
    intros Hlt _. rewrite (sw_limit _ _ _ _ Hw), (sw_size _ _ _ _ Hw). simpl. lia.
  - destruct Hc as [[_ ->]|(? & ? & [=] & _)]. destruct (Z.leb_spec (pd_limit s) (pd_size s)) as [Hge|Hlt].
    2:{ exists None, None, s. split; [done|]. split; [done|]. split; [by intros []|done]. }
    destruct (lowestPrice_ok (rangeOver (waitingMap s)) None) as (r & -> & Hsome & Hbest); [by apply range_good, Hw|done|]. cbn [obind].
    assert (is_Some r) as [low ->].
    { apply Hsome. left. pose proof (sw_bag _ _ _ _ Hw) as Hb. cbn [option_list app] in Hb. intros E. pose proof (rangeOver_perm (waitingMap s)) as Hp. rewrite E in Hp.
      apply Permutation_nil_l in Hp. unfold allOf in Hb. rewrite <- Hp in Hb. by apply Permutation_nil_cons in Hb. }
    destruct (Hbest low eq_refl) as ([[=]|([a l] & Hl & Hlast)] & _). apply elem_range in Hl. apply last_Some_elem_of in Hlast.
    assert (low ∈ allOf (waitingMap s)) as Hin by (apply elem_allOf; by exists a, l).
    destruct (pending_remove_ok s low) as (gone & s' & -> & Hlim & Hi & Hb & _ & _ & Hg & Hsz); [apply Hw|by eapply all_ready; [apply Hw|]| |].
    { intros y Hy Ey. by apply (pi_hash _ (sw_inv _ _ _ _ Hw)). }
    rewrite (Hg Hin) in *. cbn [obind length app] in *. exists (Some low), (Some tx), s'. split; [done|]. specialize (Hsz ltac:(by left)). destruct Hw as [H1 H2 H3 H4]. simpl in *.
    split; [|split; [done|lia]]. constructor; simpl; [congruence|done|by rewrite <- Hb|lia].
Qed.

(** Pushing: the transaction is refused and nothing changes, or it goes in and perhaps
    another one, or it itself, goes out. *)
Lemma pending_push_ok s tx n :
  pendingInv (waitingMap s) -> isReady tx -> fresh tx (waitingMap s) ->
  exists added ev conf s', pending_push tx n s = Ok (added, ev, conf, s') /\
    (if added : bool then swapped tx ev s s' /\ (is_Some ev -> is_Some conf) /\ (pd_size s < pd_limit s -> 0 < pd_limit s -> pd_size s' < pd_limit s')
     else ev = None /\ conf = None /\ s' = s).
Proof.
  intros Hm [a Htx] Hf. unfold pending_push. rewrite (proj1 Htx). cbn [deref_ obind]. destruct (tx_Nonce tx =? wrap64 (n + 1)) eqn:En.
  - set (s1 := match waitingMap s !! a with None => _ | Some _ => s end).
    assert (exists l, nearly a l (waitingMap s1) /\ fresh tx (waitingMap s1) /\ allOf (waitingMap s1) ≡ₚ allOf (waitingMap s) /\ pd_size s1 = pd_size s /\ pd_limit s1 = pd_limit s)
      as (l & Hn & Hf1 & Hb1 & Hs1 & Hl1).
    { unfold s1. destruct (waitingMap s !! a) as [l|] eqn:Hl; [exists l; split; [by apply nearly_inv|done]|]. exists skip_New. simpl.
      assert (allOf (<[a := skip_New]> (waitingMap s)) ≡ₚ allOf (waitingMap s)) as Hp by (by rewrite allOf_insert, New_elems by done).
      split; [by apply nearly_new|]. split; [|done]. intros y. rewrite Hp. apply Hf. }
    destruct (doInsertOrReplace_ok s1 a l tx Hn Htx Hf1) as (ev & conf & s2 & -> & Hw & Hc). cbn [obind fst snd].
    assert (swapped tx ev s s2) as Hw'. { destruct Hw as [A B C D]. constructor; [congruence|done|by rewrite C, Hb1|lia]. }
    destruct (dropLowest_ok tx ev conf s s2 Hw' Hc) as (ev' & conf' & s' & -> & Hw2 & Hc2 & Hz). by exists true, ev', conf', s'.
  - destruct (waitingMap s !! a) as [l|] eqn:Hl; [|by exists false, None, None, s]. rewrite skipGetLast_ok.
    destruct (last (elems l)) as [big|] eqn:El; [|apply last_None in El; by destruct (pi_good _ Hm a l Hl)].
    destruct (_ <? _); [by exists false, None, None, s|].
    destruct (doInsertOrReplace_ok s a l tx (nearly_inv _ _ _ Hm Hl) Htx Hf) as (ev & conf & s2 & -> & Hw & Hc). cbn [obind fst snd].
    destruct (dropLowest_ok tx ev conf s s2 Hw Hc) as (ev' & conf' & s' & -> & Hw2 & Hc2 & Hz). by exists true, ev', conf', s'.
Qed.

End bag.

(** ** The heap of prices is lawful *)

#[global] Instance priceHeap_laws : HeapLaws (H := priceHeap) price isReady (fun h l => h = l /\ Forall isReady l).
Proof.
  assert (forall (l : list Transaction) (i : nat) x, l !! i = Some x -> heapAt l (Z.of_nat i) = Ok x) as Hat.
  { intros l i x Hx. unfold heapAt. rewrite (proj2 (Z.ltb_ge _ _)), Nat2Z.id, Hx by lia. done. }
  constructor.
  - by intros h l [_ Hl].
  - by intros h l [-> _].
  - intros h l i j a b [-> Hl] Ha Hb. cbn [Less priceHeap_Interface]. unfold priceHeap_Less. rewrite (Hat l i a Ha), (Hat l j b Hb). cbn [obind].
    rewrite Forall_lookup in Hl. destruct (Hl i a Ha) as [sa Hsa], (Hl j b Hb) as [sb Hsb]. rewrite (cmpPrice_ready sa sb) by done. cbn [obind].
    fold (price a) (price b). destruct (Z.compare_spec (price a) (price b)), (Z.ltb_spec (price b) (price a)); (done || lia).
  - intros h l i j [-> Hl] [a Ha]%lookup_lt_is_Some_2 [b Hb]%lookup_lt_is_Some_2. cbn [Swap priceHeap_Interface]. unfold priceHeap_Swap.
    rewrite (Hat l i a Ha), (Hat l j b Hb). cbn [obind]. rewrite !Nat2Z.id. eexists. split; [done|]. unfold swap. rewrite Ha, Hb. split; [done|].
    rewrite Forall_lookup in Hl. apply Forall_insert; [apply Forall_insert; [by apply Forall_lookup|by eapply Hl]|by eapply Hl].
  - intros h l a [-> Hl] Ha. eexists. split; [done|]. split; [done|]. by apply Forall_app_2; [|constructor].
  - intros h l a [-> Hl]. cbn [PopTop priceHeap_Interface]. unfold priceHeap_Pop. rewrite length_app. simpl length.
    replace (Z.of_nat (length l + 1) - 1) with (Z.of_nat (length l)) by lia.
    rewrite (Hat (l ++ [a]) (length l) a) by (by apply list_lookup_middle). cbn [obind]. rewrite Nat2Z.id. eexists. split; [done|].
    rewrite take_app_length. split; [done|]. by apply Forall_app in Hl as [Hl _].
Qed.

Definition heapy (h : priceHeap) : Prop := Forall isReady h /\ heapOrder price (length h) h.

Lemma heapy_push h tx : heapy h -> isReady tx -> exists h', heapPush tx h = Ok h' /\ heapy h' /\ h' ≡ₚ tx :: h.
Proof.
  intros [Hr Ho] Htx. destruct (heapPush_ok (A := Transaction) price isReady (fun h l => h = l /\ Forall isReady l) h h tx (conj eq_refl Hr) Ho Htx) as (h' & l' & E & [<- Hr'] & Hp & Ho').
  by exists h'.
Qed.

Lemma heapy_pop h : heapy h -> h <> [] -> exists tx h', heapPop h = Ok (Some tx, h') /\ heapy h' /\ tx :: h' ≡ₚ h /\ forall y, y ∈ h -> price y <= price tx.
Proof.
  intros [Hr Ho] Hne. destruct (heapPop_ok (A := Transaction) price isReady (fun h l => h = l /\ Forall isReady l) h h (conj eq_refl Hr) Ho Hne) as (tx & h' & l' & E & [<- Hr'] & Hp & Ho' & Hmax).
  by exists tx, h'.
Qed.

(** ** The order of packing *)

Definition tailOf (a : Address) (r : list Transaction) (rest : gmap Address (list Transaction)) : gmap Address (list Transaction) :=
  match r with [] => base.delete a rest | _ => <[a := r]> rest end.

(** The lists of the senders, merged: the next transaction is the dearest of the first
    ones of the lists. *)
Inductive merged : gmap Address (list Transaction) -> list Transaction -> Prop :=
| merged_nil : merged ∅ []
| merged_cons a x r rest vis :
    rest !! a = Some (x :: r) -> (forall b y r', rest !! b = Some (y :: r') -> price y <= price x) ->
    merged (tailOf a r rest) vis -> merged rest (x :: vis).

Definition bag (rest : gmap Address (list Transaction)) : list Transaction := concat (snd <$> map_to_list rest).
Definition firsts (rest : gmap Address (list Transaction)) : list Transaction := omap (fun kv => head kv.2) (map_to_list rest).

Lemma bag_insert rest a r : rest !! a = None -> bag (<[a := r]> rest) ≡ₚ r ++ bag rest.
Proof. intros Ha. unfold bag. by rewrite map_to_list_insert. Qed.

Lemma bag_take rest a r : rest !! a = Some r -> bag rest ≡ₚ r ++ bag (base.delete a rest).
Proof. intros Ha. rewrite <- bag_insert by apply lookup_delete_eq. by rewrite insert_delete_id. Qed.

Lemma bag_tail rest a x r : rest !! a = Some (x :: r) -> bag rest ≡ₚ x :: bag (tailOf a r rest).
Proof.
  intros Ha. rewrite (bag_take rest a _ Ha). cbn [app]. f_equiv. destruct r as [|y r]; [done|]. unfold tailOf. rewrite <- insert_delete_eq.
  by rewrite bag_insert by apply lookup_delete_eq.
Qed.

Lemma firsts_insert rest a x r : rest !! a = None -> firsts (<[a := x :: r]> rest) ≡ₚ x :: firsts rest.
Proof. intros Ha. unfold firsts. by rewrite map_to_list_insert. Qed.

Lemma firsts_take rest a x r : rest !! a = Some (x :: r) -> firsts rest ≡ₚ x :: firsts (base.delete a rest).
Proof. intros Ha. rewrite <- (firsts_insert _ a x r) by apply lookup_delete_eq. by rewrite insert_delete_id. Qed.

Lemma elem_firsts rest x : x ∈ firsts rest <-> exists a r, rest !! a = Some (x :: r).
Proof.
  unfold firsts. rewrite list_elem_of_omap. split.
  - intros ([a [|y r]] & Hin & E); simplify_eq/=. apply elem_of_map_to_list in Hin. by exists a, r.
  - intros (a & r & Ha). exists (a, x :: r). by split; [apply elem_of_map_to_list|].
Qed.

(** Every transaction is visited once, each sender's in order. *)
Lemma merged_bag rest vis : merged rest vis -> vis ≡ₚ bag rest.
Proof. induction 1 as [|a x r rest vis Ha _ _ IH]; [done|]. by rewrite (bag_tail rest a x r Ha), IH. Qed.

Lemma merged_of rest vis a :
  merged rest vis -> (forall b r, rest !! b = Some r -> Forall (fun x => tx_Source x = Some b) r) ->
  filter (fun x => tx_Source x = Some a) vis = default [] (rest !! a).
Proof.
  induction 1 as [|b x r rest vis Hb _ _ IH]; intros Hsrc; [by rewrite lookup_empty|].
  pose proof (Hsrc b _ Hb) as Hx. apply Forall_cons in Hx as [Hx Hr]. rewrite filter_cons.
  assert (forall c, default [] (tailOf b r rest !! c) = if decide (c = b) then r else default [] (rest !! c)) as Ht.
  { intros c. unfold tailOf. destruct (decide (c = b)) as [->|Hne], r; by rewrite ?lookup_delete_eq, ?lookup_insert_eq, ?lookup_delete_ne, ?lookup_insert_ne. }
  rewrite IH, Ht.
  - destruct (decide (a = b)) as [->|Hne]; [by rewrite decide_True, Hb|]. rewrite decide_False; [done|]. congruence.
  - intros c l Hc. specialize (Ht c). rewrite Hc in Ht. cbn in Ht. subst l. case_decide as E; [by subst c|]. destruct (rest !! c) eqn:El; [by eapply Hsrc|constructor].
Qed.

Section packing.
Context `{SL : SkipList Transaction Compare} {SLL : SkipLaws Transaction Compare} `{GM : GoMaps} {GML : GoMapsLaws}.
Context {St : Type} (f : Transaction -> St -> outcome string (bool * St)).
Implicit Types (s : pendingContainer) (h : priceHeap) (rest : gmap Address (list Transaction)).

(** Handing a list to the visitor until it has enough. *)
Fixpoint handOut (txs : list Transaction) (st : St) : outcome string St :=
  match txs with
  | [] => Ok st
  | tx :: txs' => go <-! f tx st ;; if negb go.1 then Ok go.2 else handOut txs' go.2
  end.

(** What is left of each list begins at the sender's position, and the heap holds the
    first ones. *)
Record awaits s (pos : gmap Address Z) h rest : Prop := {
  aw_rest a r : rest !! a = Some r -> exists l (i : nat), waitingMap s !! a = Some l /\ default 0 (pos !! a) = Z.of_nat i /\ r = drop i (elems l) /\ r <> [];
  aw_heap : heapy h;
  aw_firsts : h ≡ₚ firsts rest;
}.

Lemma awaits_nil s pos h rest : awaits s pos h rest -> h = [] -> rest = ∅.
Proof.
  intros Hw ->. apply map_eq. intros a. rewrite lookup_empty. destruct (rest !! a) as [r|] eqn:Ha; [|done].
  destruct (aw_rest _ _ _ _ Hw a r Ha) as (l & i & _ & _ & _ & Hne). destruct r as [|x r]; [done|].
  pose proof (aw_firsts _ _ _ _ Hw) as Hf. rewrite (firsts_take rest a x r Ha) in Hf. by apply Permutation_nil_cons in Hf.
Qed.

(** The position moves on when the next transaction enters the heap. *)
Lemma awaits_next s pos h rest a x r l (i : nat) h' :
  awaits s pos h rest -> rest !! a = Some (x :: r) -> waitingMap s !! a = Some l -> default 0 (pos !! a) = Z.of_nat i -> x :: r = drop i (elems l) ->
  heapy h' -> h' ≡ₚ firsts (tailOf a r rest) ->
  awaits s (match r with [] => pos | _ => <[a := Z.of_nat i + 1]> pos end) h' (tailOf a r rest).
Proof.
  intros Hw Ha Hl Hi Hd Hh Hf. constructor; [|done|done]. intros b r'. destruct (decide (b = a)) as [->|Hne].
  - destruct r as [|y r]; unfold tailOf; [by rewrite lookup_delete_eq|]. rewrite lookup_insert_eq. intros [= <-]. exists l, (S i). rewrite lookup_insert_eq. split; [done|].
    split; [simpl; lia|]. split; [|done]. replace (S i) with (i + 1)%nat by lia. by rewrite <- drop_drop, <- Hd.
  - intros Hb. destruct (aw_rest _ _ _ _ Hw b r') as (l' & i' & Hl' & Hi' & Hd' & Hn').
    { revert Hb. unfold tailOf. destruct r; by rewrite ?lookup_delete_ne, ?lookup_insert_ne by done. }
    exists l', i'. split; [done|]. split; [|done]. destruct r; [done|]. by rewrite lookup_insert_ne.
Qed.

(** The heap after the next transaction of the sender, if any, has entered it. *)
Definition pushNext fuel s (pos : gmap Address Z) (a : Address) l h (st : St) : outcome string St :=
  let next := default 0 (pos !! a) + 1 in
  if next <? skip_Len l then
    nextTx <-! deref_ (skip_ByPosition next l) ;; h2 <-! heapPush nextTx h ;; peekLoop f fuel s (<[a := next]> pos) h2 st
  else peekLoop f fuel s pos h st.

Lemma pushNext_ok fuel s pos rest a x r l (i : nat) h :
  pendingInv (waitingMap s) -> waitingMap s !! a = Some l -> default 0 (pos !! a) = Z.of_nat i -> x :: r = drop i (elems l) ->
  heapy h -> h ≡ₚ firsts (base.delete a rest) ->
  exists h2, heapy h2 /\ h2 ≡ₚ firsts (tailOf a r rest) /\
    forall st, pushNext fuel s pos a l h st = peekLoop f fuel s (match r with [] => pos | _ => <[a := Z.of_nat i + 1]> pos end) h2 st.
Proof.
  intros Hm Hl Hi Hd Hh Hp. unfold pushNext. rewrite Hi, Len_elems.
  assert (elems l !! S i = head r) as Hnx by (replace (S i) with (i + 1)%nat by lia; rewrite <- lookup_drop, <- Hd; by destruct r).
  replace (Z.of_nat i + 1) with (Z.of_nat (S i)) by lia. rewrite ByPosition_elems, Hnx. destruct r as [|y r].
  - exists h. split; [done|]. split; [done|]. intros st. apply lookup_ge_None in Hnx. by rewrite (proj2 (Z.ltb_ge _ _)) by lia.
  - cbn [head] in *. destruct (heapy_push h y Hh) as (h2 & E & Hh2 & Hp2).
    { exists a. apply (all_source _ a l y Hm Hl). by apply list_elem_of_lookup_2 in Hnx. }
    exists h2. split; [done|]. split; [|intros st; apply lookup_lt_Some in Hnx; rewrite (proj2 (Z.ltb_lt _ _)) by lia; cbn [deref_ obind]; by rewrite E].
    rewrite Hp2, Hp. unfold tailOf. rewrite <- (insert_delete_eq rest). by rewrite firsts_insert by apply lookup_delete_eq.
Qed.

Lemma peekLoop_ok s fuel pos h rest :
  pendingInv (waitingMap s) -> awaits s pos h rest -> (length (bag rest) <= fuel)%nat ->
  exists vis, merged rest vis /\ forall st, peekLoop f fuel s pos h st = handOut vis st.
Proof.
  intros Hm. revert pos h rest. induction fuel as [|fuel IH]; intros pos h rest Hw Hf; cbn [peekLoop Len priceHeap_Interface].
  all: destruct (decide (h = [])) as [->|Hne]; [exists []; split; [rewrite (awaits_nil _ _ _ _ Hw eq_refl); constructor|done]|].
  all: rewrite (proj2 (Z.eqb_neq _ _)) by (destruct h; simpl; [done|lia]).
  all: destruct (heapy_pop h (aw_heap _ _ _ _ Hw) Hne) as (tx & h' & Epop & Hh' & Hp & Hmax).
  all: assert (tx ∈ firsts rest) as (a & r & Ha)%elem_firsts by (rewrite <- (aw_firsts _ _ _ _ Hw), <- Hp; left).
  all: pose proof (bag_tail rest a tx r Ha) as Hb; rewrite Hb in Hf; simpl in Hf.
  1: lia.
  destruct (aw_rest _ _ _ _ Hw a _ Ha) as (l & i & Hl & Hi & Hd & _).
  assert (elems l !! i = Some tx) as Hlk by (rewrite <- (Nat.add_0_r i), <- lookup_drop, <- Hd; done).
  assert (h' ≡ₚ firsts (base.delete a rest)) as Hp'.
  { apply (Permutation_cons_inv (a := tx)). by rewrite Hp, (aw_firsts _ _ _ _ Hw), (firsts_take rest a tx r Ha). }
  assert (tx_Source tx = Some a) as Hsrc by (apply (all_source _ a l tx Hm Hl); by apply list_elem_of_lookup_2 in Hlk).
  destruct (pushNext_ok fuel s pos rest a tx r l i h' Hm Hl Hi Hd Hh' Hp') as (h2 & Hh2 & Hp2 & Enext).
  destruct (IH _ h2 (tailOf a r rest) (awaits_next s pos h rest a tx r l i h2 Hw Ha Hl Hi Hd Hh2 Hp2) ltac:(lia)) as (vis & Hv & Ev).
  exists (tx :: vis). split.
  - apply (merged_cons a tx r); [done| |done]. intros b y r' Hy. apply Hmax. rewrite (aw_firsts _ _ _ _ Hw). apply elem_firsts. by exists b, r'.
  - intros st. rewrite Epop. cbn [obind fst snd deref_ handOut]. destruct (f tx st) as [go| |]; [|done|done]. cbn [obind]. destruct (negb go.1); [done|].
    rewrite Hsrc. cbn [deref_ obind]. rewrite Hl. rewrite <- Ev, <- Enext. done.
Qed.

Lemma pushFirsts_ok ls h :
  Forall (fun kv => exists a, good a (elems kv.2)) ls -> heapy h ->
  exists h', pushFirsts ls h = Ok h' /\ heapy h' /\ h' ≡ₚ omap (fun kv => head (elems kv.2)) ls ++ h.
Proof.
  intros Hls. revert h. induction Hls as [|[k l] ls (a & Hne & _ & Hr) _ IH]; intros h Hh; cbn [pushFirsts]; [by exists h|]. cbn [snd] in *.
  change 0 with (Z.of_nat 0). rewrite ByPosition_elems. destruct (elems l) as [|x r] eqn:El; [done|]. simpl (_ !! _). cbn [deref_ obind].
  apply Forall_cons in Hr as [Hx _]. destruct (heapy_push h x Hh) as (h1 & E & Hh1 & Hp1); [by exists a|]. setoid_rewrite E. cbn [obind].
  destruct (IH h1 Hh1) as (h' & -> & Hh' & Hp'). exists h'. split; [done|]. split; [done|]. cbn [omap list_omap snd]. rewrite El. cbn [head].
  rewrite Hp', Hp1. cbn [app]. symmetry. apply Permutation_middle.
Qed.

Lemma fmap_firsts (m : gmap Address (skip Transaction Compare)) : firsts (elems <$> m) = omap (fun kv => head (elems kv.2)) (map_to_list m).
Proof. unfold firsts. rewrite map_to_list_fmap. induction (map_to_list m) as [|[a l] kvs IH]; [done|]. cbn. destruct (elems l); cbn; [exact IH|f_equal; exact IH]. Qed.

Lemma fmap_bag (m : gmap Address (skip Transaction Compare)) : bag (elems <$> m) = allOf m.
Proof. unfold bag, allOf. rewrite map_to_list_fmap. f_equal. by rewrite <- list_fmap_compose. Qed.

Lemma total_all s : total s = length (allOf (waitingMap s)).
Proof.
  unfold total, allOf. induction (map_to_list (waitingMap s)) as [|[a l] kvs IH]; [done|]. simpl. rewrite length_app, IH. by rewrite Iter_elems.
Qed.

(** Packing hands out the merged lists. *)
Lemma peek_ok s :
  pendingInv (waitingMap s) -> exists vis, merged (elems <$> waitingMap s) vis /\ forall st, peek f s st = if pd_size s =? 0 then Ok st else handOut vis st.
Proof.
  intros Hm. destruct (pushFirsts_ok (rangeOver (waitingMap s)) [] (range_good _ Hm)) as (h & E & Hh & Hp); [by split; [constructor|intros p c _ Hc; simpl in Hc; lia]|].
  rewrite app_nil_r in Hp. destruct (peekLoop_ok s (total s) ∅ h (elems <$> waitingMap s) Hm) as (vis & Hv & Ev).
  - constructor; [|done|by rewrite fmap_firsts, <- rangeOver_perm]. intros a r. rewrite lookup_fmap. intros (l & Hl & ->)%fmap_Some.
    exists l, 0%nat. rewrite lookup_empty. split; [done|]. split; [done|]. split; [done|]. apply (pi_good _ Hm a l Hl).
  - by rewrite fmap_bag, total_all.
  - exists vis. split; [done|]. intros st. unfold peek. destruct (pd_size s =? 0); [done|]. rewrite E. cbn [obind]. apply Ev.
Qed.
End packing.
