(* ===== verification/TxPoolTheorems.v ===== *)
(** * TxPoolTheorems: the pool loses nothing it cannot find and never stops

    The invariant of the container: what is pending or queued is found by its hash, the
    two are apart, the queue holds one transaction per sender and nonce and is bounded.
    Every operation of the pool returns and keeps it; the packed transactions fit into a
    block, each sender's in the order of nonces. *)
From S2P Require Import Prelude Bytes World Types MinerBase Group Rewards RewardVerify Govern TxValidate Prque Chain ChainInv ChainTheorems TxPool TxPoolInv.
Local Open Scope Z_scope.
Local Open Scope zv_scope.

Section container.
Context `{SL : SkipList Transaction Compare} {SLL : SkipLaws Transaction Compare} `{GM : GoMaps} {GML : GoMapsLaws}.
Implicit Types (c : simpleContainer) (tx : Transaction) (v : chainView).

Definition held_ c : list Transaction := allOf (waitingMap (pending c)).

Record contInv c : Prop := {
  cv_pending : pendingInv (waitingMap (pending c));
  cv_known tx : tx ∈ held_ c \/ queue c !! tx_Hash tx = Some tx -> wt_item <$> txsMap c !! tx_Hash tx = Some tx;
  cv_apart tx : tx ∈ held_ c -> queue c !! tx_Hash tx = None;
  cv_queue h tx : queue c !! h = Some tx -> tx_Hash tx = h /\ isReady tx;
  cv_txs h w : txsMap c !! h = Some w -> tx_Hash (wt_item w) = h /\ isReady (wt_item w);
  cv_one h k x y : queue c !! h = Some x -> queue c !! k = Some y -> tx_Source x = tx_Source y -> tx_Nonce x = tx_Nonce y -> h = k;
  cv_len : Z.of_nat (size (queue c)) <= Z.max 0 (queueLimit c + 1);
}.

(** The size is that of the bag, and below the limit. *)
Definition sized c : Prop := pd_size (pending c) = Z.of_nat (length (held_ c)) /\ pd_size (pending c) < pd_limit (pending c).

Record kept c c' : Prop := {
  kp_inv : contInv c';
  kp_queue : queueLimit c' = queueLimit c;
  kp_limit : pd_limit (pending c') = pd_limit (pending c);
  kp_size : SkipExact Transaction Compare -> 0 < pd_limit (pending c) -> sized c -> sized c';
}.

Lemma contKept_refl c : contInv c -> kept c c.
Proof. by constructor. Qed.

Lemma contKept_trans c c1 c2 : kept c c1 -> kept c1 c2 -> kept c c2.
Proof.
  intros [I1 Q1 L1 S1] [I2 Q2 L2 S2]. constructor; [done|congruence|congruence|]. intros Hex Hl Hs. apply S2; [done|by rewrite L1|by apply S1].
Qed.

Lemma held_NoDup c : contInv c -> NoDup (held_ c).
Proof. intros Hc. apply all_NoDup, Hc. Qed.

(** What is not known to the container is not pending. *)
Lemma unknown_fresh c tx : contInv c -> txsMap c !! tx_Hash tx = None -> fresh tx (waitingMap (pending c)) /\ queue c !! tx_Hash tx = None.
Proof.
  intros Hc Hn. split.
  - intros y Hy E. pose proof (cv_known _ Hc y (or_introl Hy)) as Hk. rewrite E, Hn in Hk. done.
  - destruct (queue c !! tx_Hash tx) as [q|] eqn:Eq; [|done]. destruct (cv_queue _ Hc _ _ Eq) as [Eh _]. pose proof (cv_known _ Hc q) as Hk.
    rewrite Eh in Hk. specialize (Hk (or_intror Eq)). by rewrite Hn in Hk.
Qed.

Lemma swapped_in tx ev s s' y : fresh tx (waitingMap s) -> pendingInv (waitingMap s) -> swapped tx ev s s' -> y ∈ allOf (waitingMap s') -> (y = tx \/ y ∈ allOf (waitingMap s)) /\ ev <> Some y.
Proof.
  intros Hf Hi Hw Hy. pose proof (sw_bag _ _ _ _ Hw) as Hb. split.
  - apply elem_of_cons. rewrite <- Hb. apply elem_of_app. by right.
  - intros ->. assert (NoDup (tx :: allOf (waitingMap s))) as Hnd.
    { constructor; [|by apply all_NoDup]. intros Hin. by destruct (Hf tx Hin). }
    rewrite <- Hb in Hnd. cbn [option_list app] in Hnd. by apply NoDup_cons in Hnd as [Hnd _].
Qed.

Lemma swapped_out tx e s s' : swapped tx (Some e) s s' -> e = tx \/ e ∈ allOf (waitingMap s).
Proof. intros Hw. apply elem_of_cons. rewrite <- (sw_bag _ _ _ _ Hw). left. Qed.

(** Hashes name transactions among the new one and the pending ones. *)
Lemma names tx m x y : fresh tx m -> pendingInv m -> (x = tx \/ x ∈ allOf m) -> (y = tx \/ y ∈ allOf m) -> tx_Hash x = tx_Hash y -> x = y.
Proof.
  intros Hf Hi [->|Hx] [->|Hy] E; [done| | |by apply (pi_hash _ Hi)].
  - by destruct (Hf y Hy).
  - by destruct (Hf x Hx).
Qed.

(** A transaction goes from outside or from the queue into the lists. *)
Lemma move_in c c' tx ev :
  contInv c -> fresh tx (waitingMap (pending c)) -> isReady tx -> swapped tx ev (pending c) (pending c') ->
  (forall h w, txsMap c' !! h = Some w -> txsMap c !! h = Some w \/ h = tx_Hash tx /\ wt_item w = tx) ->
  ((forall e, ev = Some e -> tx_Hash e <> tx_Hash tx) -> wt_item <$> txsMap c' !! tx_Hash tx = Some tx) ->
  (forall h, h <> tx_Hash tx -> (forall e, ev = Some e -> tx_Hash e <> h) -> txsMap c' !! h = txsMap c !! h) ->
  queue c' = base.delete (tx_Hash tx) (queue c) -> queueLimit c' = queueLimit c ->
  contInv c'.
Proof.
  intros Hc Hf Hr Hw T1 T2 T3 Hq Hl. pose proof (cv_pending _ Hc) as Hi. constructor; unfold held_; rewrite ?Hq, ?Hl.
  - apply Hw.
  - intros y [Hy|Hy].
    + destruct (swapped_in _ _ _ _ _ Hf Hi Hw Hy) as [Hy' Hne]. assert (forall e, ev = Some e -> tx_Hash e <> tx_Hash y) as He.
      { intros e -> E. apply Hne. f_equal. by eapply names; [| |eapply swapped_out| |]. }
      destruct Hy' as [->|Hy']; [by apply T2|]. rewrite T3; [apply Hc; by left|by apply Hf|done].
    + apply lookup_delete_Some in Hy as [Hne Hy]. rewrite T3; [apply Hc; by right|done|]. intros e -> E.
      destruct (swapped_out _ _ _ _ Hw) as [->|He]; [done|]. apply (cv_apart _ Hc) in He. unfold held_ in *. rewrite E in He. by rewrite He in Hy.
  - intros y Hy. destruct (swapped_in _ _ _ _ _ Hf Hi Hw Hy) as [[->|Hy'] _]; [apply lookup_delete_eq|]. rewrite lookup_delete_ne; [by apply Hc|]. intros E. by destruct (Hf y Hy').
  - intros h y [_ Hy]%lookup_delete_Some. by apply (cv_queue _ Hc).
  - intros h w [Hw'|[-> ->]]%T1; [by apply (cv_txs _ Hc)|done].
  - intros h k x y [_ Hx]%lookup_delete_Some [_ Hy]%lookup_delete_Some. by eapply (cv_one _ Hc).
  - pose proof (cv_len _ Hc). rewrite map_size_delete. destruct (queue c !! tx_Hash tx); unfold id; lia.
Qed.

Lemma swapped_sized tx ev c c' :
  swapped tx ev (pending c) (pending c') -> (pd_size (pending c) < pd_limit (pending c) -> 0 < pd_limit (pending c) -> pd_size (pending c') < pd_limit (pending c')) ->
  0 < pd_limit (pending c) -> sized c -> sized c'.
Proof.
  intros [_ _ Hb Hs] Hlt Hp [Hsz Hl]. split; [|by apply Hlt]. unfold held_ in *. apply Permutation_length in Hb. rewrite length_app in Hb. simpl in Hb. lia.
Qed.

(** ** Pushing *)

Definition matches tx (o : Transaction) : Prop := tx_Nonce o = tx_Nonce tx /\ tx_Source o = tx_Source tx.
#[local] Instance matches_dec tx o : Decision (matches tx o) := _.

Lemma queueLoop_skip tx l1 l2 ev conf q :
  isReady tx -> Forall (fun kv => isReady kv.2 /\ ~ matches tx kv.2) l1 -> queueLoop tx (l1 ++ l2) ev conf q = queueLoop tx l2 ev conf q.
Proof.
  intros [a [Htx _]]. induction 1 as [|[h o] l1 [[b [Ho _]] Hn] _ IH]; [done|]. cbn [app queueLoop]. cbn [snd] in *.
  destruct (Z.eqb_spec (tx_Nonce o) (tx_Nonce tx)) as [E|E]; [|done]. rewrite Ho, Htx. cbn [deref_ obind].
  rewrite bool_decide_eq_false_2; [done|]. intros ->. apply Hn. split; [done|]. congruence.
Qed.

Lemma queueLoop_match tx h o l2 q :
  isReady tx -> isReady o -> matches tx o -> Forall (fun kv => isReady kv.2 /\ ~ matches tx kv.2) l2 ->
  queueLoop tx ((h, o) :: l2) None None q =
    if price o <? price tx then Ok (false, Some o, Some tx, base.delete (tx_Hash o) q) else Ok (true, Some tx, Some o, q).
Proof.
  intros Hr Ho [En Es] Hl. destruct Hr as [a Htx], Ho as [b Ho]. cbn [queueLoop]. rewrite (proj2 (Z.eqb_eq _ _) En). rewrite (proj1 Htx), (proj1 Ho). cbn [deref_ obind].
  assert (b = a) as -> by (pose proof (proj1 Htx); pose proof (proj1 Ho); congruence). rewrite bool_decide_eq_true_2 by done.
  rewrite (cmpPrice_ready a a) by done. cbn [obind]. fold (price o) (price tx).
  assert (queueLoop tx l2 (Some o) (Some tx) (base.delete (tx_Hash o) q) = Ok (false, Some o, Some tx, base.delete (tx_Hash o) q)) as E.
  { rewrite <- (app_nil_r l2). by rewrite queueLoop_skip by (done || by exists a). }
  destruct (Z.compare_spec (price o) (price tx)), (Z.ltb_spec (price o) (price tx)); (done || lia).
Qed.

Lemma range_queue c h o : (h, o) ∈ rangeOver (queue c) <-> queue c !! h = Some o.
Proof. rewrite rangeOver_perm. apply elem_of_map_to_list. Qed.

(** At most one queued transaction has the sender and the nonce. *)
Lemma queue_parts c tx :
  contInv c ->
  Forall (fun kv => isReady kv.2 /\ ~ matches tx kv.2) (rangeOver (queue c)) \/
  exists l1 o l2, rangeOver (queue c) = l1 ++ (tx_Hash o, o) :: l2 /\ matches tx o /\ queue c !! tx_Hash o = Some o /\ isReady o /\
    Forall (fun kv => isReady kv.2 /\ ~ matches tx kv.2) (l1 ++ l2).
Proof.
  intros Hc. assert (forall h o, (h, o) ∈ rangeOver (queue c) -> isReady o) as Hr by (intros h o Ho%range_queue; by eapply cv_queue).
  destruct (decide (Exists (fun kv => matches tx kv.2) (rangeOver (queue c)))) as [He|He].
  - right. apply Exists_exists in He as ([h o] & Ho & Hm). pose proof Ho as Hq. apply range_queue in Hq. destruct (cv_queue _ Hc h o Hq) as [<- Hro].
    apply list_elem_of_split in Ho as (l1 & l2 & E). exists l1, o, l2. split; [done|]. split; [done|]. split; [done|]. split; [done|].
    assert (NoDup (rangeOver (queue c))) as Hnd by (rewrite rangeOver_perm; apply NoDup_map_to_list). rewrite E in Hnd. rewrite <- Permutation_middle in Hnd.
    apply NoDup_cons in Hnd as [Hni _]. apply Forall_forall. intros [k y] Hy. cbn [snd] in *.
    assert ((k, y) ∈ rangeOver (queue c)) as Hy' by (rewrite E, <- Permutation_middle; by right). split; [by eapply Hr|]. intros [En Es]. apply Hni.
    apply range_queue in Hy'. assert (k = tx_Hash o) as ->. { eapply (cv_one _ Hc); [done|done| |]; destruct Hm; congruence. }
    rewrite Hq in Hy'. by injection Hy' as ->.
  - left. apply Forall_forall. intros [h o] Ho. split; [by eapply Hr|]. intros Hm. apply He, Exists_exists. by exists (h, o).
Qed.

(** What [addToQueue] does to the queue. *)
Inductive queued_ tx c : option Transaction -> option Transaction -> gmap Hash Transaction -> Prop :=
| queued_new : (forall h o, queue c !! h = Some o -> ~ matches tx o) -> queued_ tx c None None (<[tx_Hash tx := tx]> (queue c))
| queued_instead o : matches tx o -> queue c !! tx_Hash o = Some o -> price o < price tx ->
    (forall h o', queue c !! h = Some o' -> matches tx o' -> h = tx_Hash o) ->
    queued_ tx c (Some o) (Some tx) (<[tx_Hash tx := tx]> (base.delete (tx_Hash o) (queue c)))
| queued_not o : matches tx o -> price tx <= price o -> queued_ tx c (Some tx) (Some o) (queue c).

Lemma addToQueue_ok c tx :
  contInv c -> isReady tx ->
  addToQueue tx c = Ok (None, None, Some ErrQueueFull, c) \/
  exists ev conf q, addToQueue tx c = Ok (ev, conf, None, setQueue q c) /\ queued_ tx c ev conf q /\ Z.of_nat (size (queue c)) <= queueLimit c.
Proof.
  intros Hc Hr. unfold addToQueue. destruct (Z.ltb_spec (queueLimit c) (Z.of_nat (size (queue c)))) as [Hfull|Hroom]; [by left|right].
  destruct (queue_parts c tx Hc) as [Hall|(l1 & o & l2 & E & Hm & Hq & Hro & Hall)].
  - rewrite <- (app_nil_r (rangeOver (queue c))), queueLoop_skip by done. cbn [queueLoop obind]. eexists None, None, _. split; [done|]. split; [|done].
    constructor. intros h o Ho Hm. rewrite Forall_forall in Hall. by destruct (Hall (h, o) (proj2 (range_queue c h o) Ho)).
  - apply Forall_app in Hall as [H1 H2]. rewrite E, queueLoop_skip, queueLoop_match by done. destruct (Z.ltb_spec (price o) (price tx)) as [Hp|Hp].
    + cbn [obind]. eexists (Some o), (Some tx), _. split; [done|]. split; [|done]. constructor; try done. intros h o' Ho' Hm'. eapply (cv_one _ Hc); [done|done|..]; destruct Hm, Hm'; congruence.
    + cbn [obind]. exists (Some tx), (Some o), (queue c). split; [done|]. split; [|done]. by constructor.
Qed.

Definition without {A} (ev : option Transaction) (m : gmap Hash A) : gmap Hash A := match ev with None => m | Some e => base.delete (tx_Hash e) m end.

Lemma lookup_without {A} ev (m : gmap Hash A) h : (forall e, ev = Some e -> tx_Hash e <> h) -> without ev m !! h = m !! h.
Proof. destruct ev as [e|]; [|done]. intros He. apply lookup_delete_ne. by apply He. Qed.

Lemma lookup_without_Some {A} ev (m : gmap Hash A) h x : without ev m !! h = Some x -> m !! h = Some x /\ forall e, ev = Some e -> tx_Hash e <> h.
Proof. destruct ev as [e|]; [|done]. cbn [without]. intros [Hne Hx]%lookup_delete_Some. split; [done|]. by intros e' [= <-]. Qed.

Lemma enter_run v tx ev conf c :
  (is_Some ev -> is_Some conf) ->
  exists err, enter v tx ev conf c = Ok (err, setTxs (without ev (<[tx_Hash tx := warpTransaction tx (v_now v)]> (txsMap c))) c) /\
    (err = None <-> forall e, ev = Some e -> tx_Hash e <> tx_Hash tx).
Proof.
  intros Hc. unfold enter. destruct ev as [e|]; [|by exists None]. destruct (Hc ltac:(by eexists)) as [k ->]. case_bool_decide as E; cbn [deref_ obind].
  - eexists. split; [done|]. split; [done|]. intros Hn. by destruct (Hn e eq_refl).
  - exists None. split; [done|]. split; [|done]. by intros _ e' [= <-].
Qed.

(** The new transaction goes into the queue, in the place of the one of its nonce. *)
Lemma queue_in c tx ev w :
  contInv c -> txsMap c !! tx_Hash tx = None -> isReady tx -> wt_item w = tx ->
  (forall o, ev = Some o -> queue c !! tx_Hash o = Some o) ->
  (forall h y, queue c !! h = Some y -> matches tx y -> exists o, ev = Some o /\ h = tx_Hash o) -> Z.of_nat (size (queue c)) <= queueLimit c ->
  contInv (mkContainer (without ev (<[tx_Hash tx := w]> (txsMap c))) (pending c) (<[tx_Hash tx := tx]> (without ev (queue c))) (queueLimit c) (txTimeout c)).
Proof.
  intros Hc Hn Hr Ew Hev Hone Hlen. destruct (unknown_fresh c tx Hc Hn) as [Hf Hqn].
  assert (forall e, ev = Some e -> tx_Hash e <> tx_Hash tx) as Hne by (intros e He E; apply Hev in He; by rewrite E, Hqn in He).
  constructor; cbn [txsMap pending queue queueLimit]; unfold held_; cbn [pending].
  - apply Hc.
  - intros y [Hy|Hy].
    + rewrite lookup_without, lookup_insert_ne; [apply Hc; by left| |]; [by apply not_eq_sym, Hf|].
      intros e He E. apply Hev in He. apply (cv_apart _ Hc) in Hy. rewrite E in He. by rewrite Hy in He.
    + apply lookup_insert_Some in Hy as [[E <-]|[Hd Hy]]; [rewrite lookup_without, lookup_insert_eq by done; simpl; by f_equal|].
      apply lookup_without_Some in Hy as [Hy He]. rewrite lookup_without, lookup_insert_ne by done. apply Hc. by right.
  - intros y Hy. rewrite lookup_insert_ne by (by apply not_eq_sym, Hf). pose proof (cv_apart _ Hc y Hy) as Ha. destruct ev as [e|]; [|done]. simpl. apply lookup_delete_None. by right.
  - intros h y [[<- <-]|[_ Hy]]%lookup_insert_Some; [done|]. apply lookup_without_Some in Hy as [Hy _]. by apply (cv_queue _ Hc).
  - intros h x Hx. apply lookup_without_Some in Hx as [[[<- <-]|[_ Hx]]%lookup_insert_Some _]; [by rewrite Ew|]. by apply (cv_txs _ Hc).
  - intros h k x y [[<- <-]|[_ Hx]]%lookup_insert_Some [[<- <-]|[_ Hy]]%lookup_insert_Some Es En; [done|..].
    + apply lookup_without_Some in Hy as [Hy He]. destruct (Hone k y Hy) as (o & Eo & ->); [by split|]. by destruct (He o Eo).
    + apply lookup_without_Some in Hx as [Hx He]. destruct (Hone h x Hx) as (o & Eo & ->); [by split|]. by destruct (He o Eo).
    + apply lookup_without_Some in Hx as [Hx _]. apply lookup_without_Some in Hy as [Hy _]. by eapply (cv_one _ Hc).
  - assert (size (without ev (queue c)) <= size (queue c))%nat as Hsz.
    { destruct ev as [e|]; [|done]. cbn [without]. rewrite map_size_delete. destruct (queue c !! tx_Hash e); unfold id; lia. }
    rewrite map_size_insert. destruct (without ev (queue c) !! tx_Hash tx); unfold id; lia.
Qed.

Lemma queue_push_ok v tx c ev conf q :
  contInv c -> txsMap c !! tx_Hash tx = None -> isReady tx -> queued_ tx c ev conf q -> Z.of_nat (size (queue c)) <= queueLimit c ->
  exists err c', enter v tx ev conf (setQueue q c) = Ok (err, c') /\ kept c c' /\ (err = None <-> is_Some (txsMap c' !! tx_Hash tx)).
Proof.
  intros Hc Hn Hr Hq Hlen. destruct (enter_run v tx ev conf (setQueue q c)) as (err & -> & Herr); [by destruct Hq|]. eexists err, _. split; [done|].
  destruct (unknown_fresh c tx Hc Hn) as [_ Hqn]. rewrite Herr. split; [|cbn [txsMap setTxs setQueue]; split; [intros He; by rewrite lookup_without, lookup_insert_eq|]].
  - destruct Hq as [Hnew|o Hm Ho Hp Hu|o Hm Hp].
    + constructor; [|done|done|done]. apply (queue_in c tx None (warpTransaction tx (v_now v))); try done. intros h y Hy Hm. by destruct (Hnew h y Hy).
    + constructor; [|done|done|done]. apply (queue_in c tx (Some o) (warpTransaction tx (v_now v))); try done; [by intros o' [= <-]|]. intros h y Hy Hmy. exists o. split; [done|by eapply Hu].
    + cbn [without]. rewrite (delete_insert_id _ _ _ Hn). destruct c. by apply contKept_refl.
  - intros [w Hw]. apply lookup_without_Some in Hw as [_ He]. done.
Qed.

(** A transaction is in the container afterwards unless an error is answered. *)
Lemma container_push_ok v tx c :
  contInv c -> isReady tx ->
  exists err c', container_push v tx c = Ok (err, c') /\ kept c c' /\ (err = None <-> is_Some (txsMap c' !! tx_Hash tx)).
Proof.
  intros Hc Hr. unfold container_push. case_bool_decide as Hin; [by exists None, c; split; [|split; [apply contKept_refl|]]|].
  assert (txsMap c !! tx_Hash tx = None) as Hn by (by apply eq_None_not_Some). destruct (unknown_fresh c tx Hc Hn) as [Hf Hqn]. pose proof Hr as [a [Ha _]].
  unfold getStateNonce. rewrite Ha. cbn [deref_ obind]. destruct (_ || _); [exists (Some ErrNonce), c; split; [done|]; split; [by apply contKept_refl|]; rewrite Hn; split; [done|by intros []]|].
  destruct (pending_push_ok (pending c) tx (v_nonce v a) (cv_pending _ Hc) Hr Hf) as (added & ev & conf & p & -> & Hp). cbn [obind]. destruct added.
  - destruct Hp as (Hw & Hconf & Hsz). destruct (enter_run v tx ev conf (setPending p c) Hconf) as (err & -> & Herr). eexists err, _. split; [done|].
    split; [|rewrite Herr; cbn [txsMap setTxs setPending]; split].
    + constructor; [|done|apply Hw|intros _ Hl; by eapply swapped_sized].
      eapply (move_in c _ tx ev Hc Hf Hr); cbn [pending txsMap queue queueLimit setTxs setPending]; [done| | | |by rewrite delete_id|done].
      * intros h w [[[<- <-]|[_ Hh]]%lookup_insert_Some _]%lookup_without_Some; [by right|by left].
      * intros He. by rewrite lookup_without, lookup_insert_eq.
      * intros h Hh He. by rewrite lookup_without, lookup_insert_ne.
    + intros He. by rewrite lookup_without, lookup_insert_eq.
    + intros [w Hx]. apply lookup_without_Some in Hx as [_ He]. done.
  - destruct Hp as (-> & -> & ->). assert (setPending (pending c) c = c) as -> by (by destruct c).
    destruct (addToQueue_ok c tx Hc Hr) as [->|(ev & conf & q & -> & Hq & Hlen)]; cbn [obind].
    + exists (Some ErrQueueFull), c. split; [done|]. split; [by apply contKept_refl|]. rewrite Hn. split; [done|by intros []].
    + by eapply queue_push_ok.
Qed.

(** ** Removing *)

Lemma removeWithoutLock_ok c w h :
  contInv c -> txsMap c !! h = Some w -> exists c', removeWithoutLock (wt_item w) c = Ok c' /\ kept c c' /\ txsMap c' = base.delete h (txsMap c).
Proof.
  intros Hc Hw. destruct (cv_txs _ Hc h w Hw) as [<- Hr]. set (tx := wt_item w) in *. unfold removeWithoutLock.
  destruct (pending_remove_ok (pending c) tx (cv_pending _ Hc) Hr) as (gone & p & -> & Hlim & Hi & Hb & _ & _ & Hg & Hsz).
  { intros y Hy E. pose proof (cv_known _ Hc y (or_introl Hy)) as Hk. rewrite E, Hw in Hk. by injection Hk. }
  cbn [obind]. eexists. split; [done|]. split; [|done].
  assert (forall y, y ∈ allOf (waitingMap p) -> y ∈ held_ c /\ tx_Hash y <> tx_Hash tx) as Hp.
  { intros y Hy. assert (y ∈ held_ c) as Hy' by (unfold held_; rewrite Hb; apply elem_of_app; by right). split; [done|]. intros E.
    pose proof (cv_known _ Hc y (or_introl Hy')) as Hk. rewrite E, Hw in Hk. injection Hk as Hk. fold tx in Hk. subst y. pose proof (held_NoDup c Hc) as Hnd.
    unfold held_ in Hnd. rewrite Hb, (Hg Hy') in Hnd. by apply NoDup_cons in Hnd as [Hnd _]. }
  constructor; [|done|done|].
  - constructor; unfold held_; cbn [txsMap pending queue queueLimit].
    + done.
    + intros y [[Hy Hne]%Hp|[Hne Hy]%lookup_delete_Some]; (rewrite lookup_delete_ne by done); apply Hc; [by left|by right].
    + intros y [Hy Hne]%Hp. rewrite lookup_delete_ne by done. by apply (cv_apart _ Hc).
    + intros k y [_ Hy]%lookup_delete_Some. by apply (cv_queue _ Hc).
    + intros k x [_ Hx]%lookup_delete_Some. by apply (cv_txs _ Hc).
    + intros k1 k2 x y [_ Hx]%lookup_delete_Some [_ Hy]%lookup_delete_Some. by eapply (cv_one _ Hc).
    + pose proof (cv_len _ Hc). rewrite map_size_delete. destruct (queue c !! tx_Hash tx); unfold id; lia.
  - intros Hex Hl [Hs1 Hs2]. specialize (Hsz ltac:(by right)). unfold sized, held_ in *. cbn [pending]. apply Permutation_length in Hb. rewrite length_app in Hb. lia.
Qed.

Lemma container_remove_ok c h :
  contInv c -> exists c', container_remove h c = Ok c' /\ kept c c' /\ txsMap c' = base.delete h (txsMap c).
Proof.
  intros Hc. unfold container_remove. destruct (txsMap c !! h) as [w|] eqn:Hw; [by apply removeWithoutLock_ok|].
  exists c. split; [done|]. split; [by apply contKept_refl|]. by rewrite delete_id.
Qed.

(** ** The queue moves up *)

Lemma forget_ok c tx : contInv c -> queue c !! tx_Hash tx = Some tx -> kept c (forget (tx_Hash tx) c).
Proof.
  intros Hc Hq. constructor; [|done|done|done]. constructor; unfold held_; cbn [txsMap pending queue queueLimit forget setQueue setTxs].
  - apply Hc.
  - intros y [Hy|[Hne Hy]%lookup_delete_Some]; rewrite lookup_delete_ne; [apply Hc; by left| |apply Hc; by right|done].
    intros E. apply (cv_apart _ Hc) in Hy. rewrite <- E in Hy. by rewrite Hq in Hy.
  - intros y Hy. apply lookup_delete_None. right. by apply (cv_apart _ Hc).
  - intros k y [_ Hy]%lookup_delete_Some. by apply (cv_queue _ Hc).
  - intros k x [_ Hx]%lookup_delete_Some. by apply (cv_txs _ Hc).
  - intros k1 k2 x y [_ Hx]%lookup_delete_Some [_ Hy]%lookup_delete_Some. by eapply (cv_one _ Hc).
  - pose proof (cv_len _ Hc). rewrite map_size_delete. destruct (queue c !! tx_Hash tx); unfold id; lia.
Qed.

Lemma queue_fresh c tx : contInv c -> queue c !! tx_Hash tx = Some tx -> fresh tx (waitingMap (pending c)).
Proof. intros Hc Hq y Hy E. apply (cv_apart _ Hc) in Hy. rewrite E in Hy. by rewrite Hq in Hy. Qed.

(** A queued transaction goes into the lists. *)
Lemma promote_one c tx ev p :
  contInv c -> queue c !! tx_Hash tx = Some tx -> swapped tx ev (pending c) p ->
  (pd_size (pending c) < pd_limit (pending c) -> 0 < pd_limit (pending c) -> pd_size p < pd_limit p) ->
  let c2 := match ev with Some e => forget (tx_Hash e) (setPending p c) | None => setPending p c end in
  kept c (setQueue (base.delete (tx_Hash tx) (queue c2)) c2) /\ base.delete (tx_Hash tx) (queue c2) = base.delete (tx_Hash tx) (queue c).
Proof.
  intros Hc Hq Hw Hsz c2. pose proof (queue_fresh c tx Hc Hq) as Hf. assert (isReady tx) as Hr by (by eapply (cv_queue _ Hc)).
  assert (base.delete (tx_Hash tx) (queue c2) = base.delete (tx_Hash tx) (queue c)) as Eq.
  { unfold c2. destruct ev as [e|]; [|done]. cbn [queue forget setQueue]. destruct (swapped_out _ _ _ _ Hw) as [->|He]; [by rewrite delete_delete_eq|].
    rewrite (delete_id (queue _)); [done|]. by apply (cv_apart _ Hc). }
  assert (txsMap c2 = without ev (txsMap c)) as Et by (unfold c2; by destruct ev).
  assert (pending c2 = p) as Ep by (unfold c2; by destruct ev). assert (queueLimit c2 = queueLimit c) as El by (unfold c2; by destruct ev).
  split; [|done]. constructor; cbn [setQueue pending queueLimit]; rewrite ?Ep; [|done|apply Hw|].
  - eapply (move_in c _ tx ev Hc Hf Hr); cbn [setQueue pending txsMap queue queueLimit]; rewrite ?Ep, ?Et; [done| | | |done|done].
    + intros h w [Hh _]%lookup_without_Some. by left.
    + intros He. rewrite lookup_without by done. apply Hc. by right.
    + intros h _ He. by rewrite lookup_without.
  - intros _ Hl Hs. eapply (swapped_sized tx ev c); cbn [setQueue pending]; rewrite ?Ep; done.
Qed.

Lemma nonce_ok v cache tx : isReady tx -> exists n cache', getNonceWithCache v cache tx = Ok (n, cache').
Proof. intros [a [Ha _]]. unfold getNonceWithCache. rewrite Ha. cbn [deref_ obind]. destruct (negb _); by eexists _, _. Qed.

Lemma promoteLoop_ok v sl cache c :
  contInv c -> Forall (fun tx => queue c !! tx_Hash tx = Some tx) sl -> NoDup (tx_Hash <$> sl) -> exists c', promoteLoop v sl cache c = Ok c' /\ kept c c'.
Proof.
  intros Hc Hsl Hnd. revert cache c Hc Hsl. induction sl as [|tx sl IH]; intros cache c Hc Hsl; [by exists c; split; [|apply contKept_refl]|].
  apply Forall_cons in Hsl as [Hq Hsl]. cbn [fmap list_fmap] in Hnd. apply NoDup_cons in Hnd as [Hni Hnd]. assert (isReady tx) as Hr by (by eapply (cv_queue _ Hc)).
  assert (forall q, q = base.delete (tx_Hash tx) (queue c) -> Forall (fun y => q !! tx_Hash y = Some y) sl) as Hstay.
  { intros q ->. rewrite Forall_forall in *. intros y Hy. rewrite lookup_delete_ne; [by apply Hsl|]. intros E. apply Hni. rewrite E. by apply list_elem_of_fmap_2. }
  cbn [promoteLoop]. destruct (nonce_ok v cache tx Hr) as (n & cache' & ->). cbn [obind]. destruct (tx_Nonce tx <=? n).
  - pose proof (forget_ok c tx Hc Hq) as Hk. destruct (IH Hnd cache' (forget (tx_Hash tx) c) (kp_inv _ _ Hk)) as (c' & -> & Hk'); [by apply Hstay|].
    exists c'. split; [done|by eapply contKept_trans].
  - destruct (pending_push_ok (pending c) tx n (cv_pending _ Hc) Hr (queue_fresh c tx Hc Hq)) as (added & ev & conf & p & -> & Hp). cbn [obind]. destruct added.
    + destruct Hp as (Hw & _ & Hsz). destruct (promote_one c tx ev p Hc Hq Hw Hsz) as [Hk Eq]. set (c2 := match ev with Some _ => _ | None => _ end) in *.
      destruct (IH Hnd cache' (setQueue (base.delete (tx_Hash tx) (queue c2)) c2) (kp_inv _ _ Hk)) as (c' & -> & Hk'); [by apply Hstay|].
      exists c'. split; [done|by eapply contKept_trans].
    + destruct Hp as (-> & _ & ->). assert (setPending (pending c) c = c) as -> by (by destruct c). by apply IH.
Qed.

Lemma promote_ok v c : contInv c -> exists c', promoteQueueToPending v c = Ok c' /\ kept c c'.
Proof.
  intros Hc. unfold promoteQueueToPending, mapToNonceTxSlice. apply promoteLoop_ok; [done|..].
  - rewrite merge_sort_Permutation. apply Forall_forall. intros y ([h o] & -> & Ho)%list_elem_of_fmap. apply range_queue in Ho. cbn [snd].
    by destruct (cv_queue _ Hc h o Ho) as [-> _].
  - rewrite merge_sort_Permutation, rangeOver_perm. rewrite <- list_fmap_compose. erewrite list_fmap_ext; [apply (NoDup_fst_map_to_list (queue c))|].
    intros i [h o] Hi%list_elem_of_lookup_2. apply elem_of_map_to_list in Hi. by destruct (cv_queue _ Hc h o Hi) as [<- _].
Qed.

(** ** Eviction *)

Lemma sliceOf_sub l limit n : (sliceOf l limit n).1 ⊆ l.
Proof.
  revert n. induction l as [|x l IH]; intros n; cbn [sliceOf]; [done|]. destruct (_ <=? _); [intros y Hy%list_elem_of_singleton; subst; left|].
  specialize (IH (n + 1)). destruct (sliceOf l limit (n + 1)) as [r k]. cbn [fst] in *. intros y [->|Hy]%elem_of_cons; [left|right; by apply IH].
Qed.

Lemma slice_held c limit tx : contInv c -> tx ∈ asSlice limit c -> tx ∈ held_ c.
Proof.
  intros Hc. unfold asSlice, pending_asSlice. set (lim := if _ <? _ then _ else _). generalize 0. unfold held_.
  assert (forall a l, (a, l) ∈ rangeOver (waitingMap (pending c)) -> waitingMap (pending c) !! a = Some l) as Hls by (intros a l; apply elem_range).
  revert Hls. induction (rangeOver (waitingMap (pending c))) as [|[a l] ls IH]; intros Hls n; cbn [sliceAll]; [by intros Hx%not_elem_of_nil|].
  pose proof (sliceOf_sub (skip_Iter l) lim n) as Hsub. destruct (sliceOf (skip_Iter l) lim n) as [r k]. cbn [fst] in Hsub. intros [Hx|Hx]%elem_of_app.
  - apply elem_allOf. exists a, l. split; [apply Hls; left|]. rewrite <- Iter_elems. by apply Hsub.
  - eapply IH; [|done]. intros b l' Hl'. apply Hls. by right.
Qed.

Lemma evictLoop_ok v txs cache c : contInv c -> Forall isReady txs -> exists c', evictLoop v txs cache c = Ok c' /\ kept c c'.
Proof.
  intros Hc Ht. revert cache c Hc. induction Ht as [|tx txs Hr _ IH]; intros cache c Hc; cbn [evictLoop]; [by exists c; split; [|apply contKept_refl]|].
  destruct (nonce_ok v cache tx Hr) as (n & cache' & ->). cbn [obind fst snd].
  assert (exists c1, (if tx_Nonce tx <=? n then container_remove (tx_Hash tx) c else Ok c) = Ok c1 /\ kept c c1) as (c1 & -> & Hk).
  { destruct (_ <=? _); [|by exists c; split; [|apply contKept_refl]]. destruct (container_remove_ok c (tx_Hash tx) Hc) as (c1 & E & Hk & _). by exists c1. }
  cbn [obind]. destruct (IH cache' c1 (kp_inv _ _ Hk)) as (c' & -> & Hk'). exists c'. split; [done|by eapply contKept_trans].
Qed.

Lemma evictPending_ok v c : contInv c -> exists c', evictPending v c = Ok c' /\ kept c c'.
Proof.
  intros Hc. apply evictLoop_ok; [done|]. apply Forall_forall. intros tx Htx. eapply all_ready; [apply Hc|by apply (slice_held c maxPendingSize)].
Qed.

Lemma timeoutLoop_ok v es c :
  contInv c -> (forall h w, (h, w) ∈ es -> txsMap c !! h = None \/ txsMap c !! h = Some w) -> exists c', timeoutLoop v es c = Ok c' /\ kept c c'.
Proof.
  revert c. induction es as [|[h w] es IH]; intros c Hc Hes; cbn [timeoutLoop]; [by exists c; split; [|apply contKept_refl]|].
  assert (exists c1, (if bool_decide (is_Some (txsMap c !! h)) && (txTimeout c <? v_now v - wt_begin w) then removeWithoutLock (wt_item w) c else Ok c) = Ok c1 /\ kept c c1 /\
    (txsMap c1 = txsMap c \/ txsMap c1 = base.delete h (txsMap c))) as (c1 & -> & Hk & Ht).
  { destruct (Hes h w ltac:(left)) as [En|Ew].
    - rewrite En. rewrite bool_decide_eq_false_2 by (by intros []). cbn [andb]. exists c. split; [done|]. split; [by apply contKept_refl|by left].
    - rewrite Ew. rewrite bool_decide_eq_true_2 by (by eexists). cbn [andb]. destruct (_ <? _); [|exists c; split; [done|]; split; [by apply contKept_refl|by left]].
      destruct (removeWithoutLock_ok c w h Hc Ew) as (c1 & -> & Hk & Et). exists c1. split; [done|]. split; [done|by right]. }
  cbn [obind]. destruct (IH c1 (kp_inv _ _ Hk)) as (c' & -> & Hk'); [|exists c'; split; [done|by eapply contKept_trans]].
  intros k x Hx. destruct (Hes k x ltac:(by right)) as [E|E]; destruct Ht as [->| ->]; [by left|left; apply lookup_delete_None; by right|by right|].
  destruct (decide (k = h)) as [->|Hne]; [left; apply lookup_delete_eq|right; by rewrite lookup_delete_ne].
Qed.

Lemma evictTimeout_ok v c : contInv c -> exists c', evictTimeout v c = Ok c' /\ kept c c'.
Proof.
  intros Hc. apply timeoutLoop_ok; [done|]. intros h w. rewrite rangeOver_perm. intros Hw%elem_of_map_to_list. by right.
Qed.

Lemma clearRoute_ok v c : contInv c -> exists c', clearRoute v c = Ok c' /\ kept c c'.
Proof.
  intros Hc. unfold clearRoute. destruct (evictPending_ok v c Hc) as (c1 & -> & H1). cbn [obind]. destruct (evictTimeout_ok v c1 (kp_inv _ _ H1)) as (c2 & -> & H2).
  exists c2. split; [done|by eapply contKept_trans].
Qed.
End container.

(** ** The pool *)

Class LruPeekLaws (K V : Type) `{LruMoreLaws K V} `{!LruPeek K V} := {
  cacheContains_held k c : cacheContains k c = bool_decide (is_Some (held c k));
  cachePeek_held k c : cachePeek k c = held c k;
}.

Section pool.
Context `{SL : SkipList Transaction Compare} {SLL : SkipLaws Transaction Compare} `{GM : GoMaps} {GML : GoMapsLaws}.
Context `{TL : LruCache Hash Transaction} {TLL : LruLaws Hash Transaction} {TM : LruMore Hash Transaction} {TML : LruMoreLaws Hash Transaction}.
Context {TP : LruPeek Hash Transaction} {TPL : LruPeekLaws Hash Transaction}.
Context `{IL : LruCache Hash (list Transaction)} {ILL : LruLaws Hash (list Transaction)} {IM : LruMore Hash (list Transaction)} {IML : LruMoreLaws Hash (list Transaction)}.
Context {IP : LruPeek Hash (list Transaction)} {IPL : LruPeekLaws Hash (list Transaction)}.
Implicit Types (bp : rewardPool) (tx : Transaction) (v : chainView) (p : txPool).

(** The lists of rewards are of their block and not empty. *)
Record rewardInv bp : Prop := {
  ri_pool h tx : held (rp_pool bp) h = Some tx -> tx_Hash tx = h /\ IsReward tx = true;
  ri_index bh txs : held (blockHashIndex bp) bh = Some txs -> txs <> [] /\ Forall (fun tx => parseRewardBlockHash tx = bh /\ IsReward tx = true) txs;
}.

Record poolInv p : Prop := {
  pv_received : contInv (received p);
  pv_reward : rewardInv (bonPool p);
  pv_async h tx : held (asyncAdds p) h = Some tx -> tx_Hash tx = h;
}.

Lemma reward_add_ok tx bp : rewardInv bp -> IsReward tx = true -> rewardInv (reward_add tx bp).2.
Proof.
  intros [Hp Hi] Ht. unfold reward_add. destruct (cacheContains _ _); [by constructor|].
  pose proof (cacheGet_held (parseRewardBlockHash tx) (blockHashIndex bp)) as Hg. pose proof (cacheGet_keeps (parseRewardBlockHash tx) (blockHashIndex bp)) as Hk.
  destruct (cacheGet _ (blockHashIndex bp)) as [found index]. cbn [fst snd] in *. constructor; cbn [rp_pool blockHashIndex].
  - intros h x [[-> ->]|[_ Hx]]%cacheAdd_held; [done|by apply Hp].
  - intros bh txs [[-> ->]|[_ Hx]]%cacheAdd_held; [|apply Hi; by rewrite <- Hk]. split; [by destruct (default [] found)|]. apply Forall_app. split; [|by repeat constructor].
    destruct found as [l|]; [|constructor]. symmetry in Hg. by apply Hi in Hg as [_ Hg].
Qed.

Lemma remove_all_held (txs : list Transaction) (c : cache Hash Transaction) h x :
  held (fold_left (fun q y => cacheRemove (tx_Hash y) q) txs c) h = Some x -> held c h = Some x.
Proof. revert c. induction txs as [|y txs IH]; intros c; [done|]. cbn [fold_left]. intros Hx%IH. by apply cacheRemove_held in Hx as [_ Hx]. Qed.

Lemma removeByBlockHash_ok bh bp : rewardInv bp -> rewardInv (removeByBlockHash bh bp).2.
Proof.
  intros [Hp Hi]. unfold removeByBlockHash. pose proof (cacheGet_keeps bh (blockHashIndex bp)) as Hk. destruct (cacheGet bh (blockHashIndex bp)) as [found index]. cbn [snd] in Hk.
  destruct found as [txs|]; constructor; cbn [snd rp_pool blockHashIndex].
  - intros h x Hx%remove_all_held. by apply Hp.
  - intros k txs' [_ Hx]%cacheRemove_held. apply Hi. by rewrite <- Hk.
  - done.
  - intros k txs' Hx. apply Hi. by rewrite <- Hk.
Qed.

Lemma reward_remove_ok h bp : rewardInv bp -> rewardInv (reward_remove h bp).
Proof.
  intros [Hp Hi]. unfold reward_remove. pose proof (cacheGet_keeps h (rp_pool bp)) as Hk. destruct (cacheGet h (rp_pool bp)) as [found pool]. cbn [snd] in Hk.
  destruct found as [tx|]; [apply removeByBlockHash_ok|]; constructor; cbn [rp_pool blockHashIndex]; try done.
  - intros k x [_ Hx]%cacheRemove_held. apply Hp. by rewrite <- Hk.
  - intros k x Hx. apply Hp. by rewrite <- Hk.
Qed.

Lemma reward_get_ok h bp : rewardInv bp -> rewardInv (reward_get h bp).2 /\ (reward_get h bp).1 = held (rp_pool bp) h.
Proof.
  intros [Hp Hi]. unfold reward_get. pose proof (cacheGet_keeps h (rp_pool bp)) as Hk. pose proof (cacheGet_held h (rp_pool bp)) as Hg.
  destruct (cacheGet h (rp_pool bp)) as [found pool]. cbn [fst snd] in *. split; [|done]. constructor; [|done]. intros k x Hx. apply Hp. by rewrite <- Hk.
Qed.

(** Whether the pool itself has the transaction. *)
Definition has_ p (h : Hash) : Prop := is_Some (held (rp_pool (bonPool p)) h) \/ is_Some (txsMap (received p) !! h) \/ is_Some (held (asyncAdds p) h).

Lemma existed_has v p h : IsTransactionExisted v h p = None <-> ~ has_ p h /\ v_hasReceipt v h = false.
Proof.
  unfold IsTransactionExisted, reward_contains, contains, has_. rewrite !cacheContains_held. repeat case_bool_decide; [naive_solver..|]. destruct (v_hasReceipt v h); naive_solver.
Qed.

Record poolKept p p' : Prop := {
  pk_inv : poolInv p';
  pk_received : kept (received p) (received p');
}.

Lemma poolKept_refl p : poolInv p -> poolKept p p.
Proof. intros Hp. constructor; [done|by apply contKept_refl, Hp]. Qed.

Lemma poolKept_trans p p1 p2 : poolKept p p1 -> poolKept p1 p2 -> poolKept p p2.
Proof. intros [_ K1] [I2 K2]. constructor; [done|by eapply contKept_trans]. Qed.

Definition addable tx : Prop := IsReward tx = true \/ isReady tx.

(** Adding succeeds exactly if the transaction was new and is in the pool afterwards. *)
Lemma tryAdd_ok v tx p :
  poolInv p -> addable tx ->
  exists ok err p', tryAdd v tx p = Ok (ok, err, p') /\ poolKept p p' /\ (ok = true <-> err = None) /\
    (ok = true <-> ~ has_ p (tx_Hash tx) /\ v_hasReceipt v (tx_Hash tx) = false /\ has_ p' (tx_Hash tx)).
Proof.
  intros Hp Ha. pose proof Hp as [Hc Hr Hs]. unfold tryAdd. destruct (IsTransactionExisted v (tx_Hash tx) p) as [place|] eqn:Ex.
  { exists false, (Some (ErrExists place)), p. split; [done|]. split; [by apply poolKept_refl|]. split; [done|]. split; [done|].
    intros (Hn & Hv & _). by rewrite (proj2 (existed_has v p (tx_Hash tx))) in Ex. }
  apply existed_has in Ex as [Hn Hv]. unfold txpool_add. destruct (IsReward tx) eqn:Et; cbn [obind fst snd].
  - exists true, None, (setBon (reward_add tx (bonPool p)).2 p). split; [done|]. split; [constructor; [|by apply contKept_refl]|split; [done|]].
    + constructor; [done|by apply reward_add_ok|done].
    + split; [intros _|done]. split; [done|]. split; [done|]. left. cbn [setBon bonPool]. unfold reward_add.
      rewrite cacheContains_held, bool_decide_eq_false_2 by (intros Hx; apply Hn; by left). destruct (cacheGet _ _). cbn [snd rp_pool]. by rewrite cacheAdd_hit.
  - destruct Ha as [Ha|Ha]; [congruence|]. destruct (container_push_ok v tx (received p) Hc Ha) as (err & c' & -> & Hk & Herr). cbn [obind fst snd].
    assert (poolKept p (setReceived c' p)) as Hpk by (constructor; [constructor; [apply Hk|done|done]|done]).
    destruct err as [e|]; [exists false, (Some e), (setReceived c' p)|exists true, None, (setReceived c' p)]; (split; [done|]; split; [done|]; split; [done|]).
    + split; [done|]. intros (_ & _ & [Hh|[Hh|Hh]]); [by destruct Hn; left|by apply Herr in Hh|by destruct Hn; right; right].
    + split; [intros _|done]. split; [done|]. split; [done|]. right. left. by apply Herr.
Qed.

(** What passes the validators can be worked with. *)
Definition validView v : Prop := forall tx b, v_validate v tx b = Ok tt -> addable tx.

(** A computation on the pool that returns with [Q], or panics because the validator
    panics on one of the transactions. *)
Definition poolRuns {A} v (txs : list Transaction) (b : bool) (o : outcome string A) (Q : A -> Prop) : Prop :=
  match o with
  | Ok r => Q r
  | Err _ => False
  | Panic msg => exists tx, tx ∈ txs /\ v_validate v tx b = Panic msg
  end.

Lemma add_ok v tx p : poolInv p -> validView v -> poolRuns v [tx] true (AddTransaction v tx p) (fun r => poolKept p r.2).
Proof.
  intros Hp Hv. unfold AddTransaction, tryAddTransaction. destruct (if IsReward tx then _ else _) as [e|]; [by apply poolKept_refl|].
  destruct (v_validate v tx true) as [[]|e|msg] eqn:E; [|by apply poolKept_refl|exists tx; split; [left|done]].
  destruct (tryAdd_ok v tx p Hp (Hv tx true E)) as (ok & err & p' & -> & Hk & _). done.
Qed.

Lemma async_ok v tx p : poolInv p -> poolRuns v [tx] false (AsyncAddTransaction v tx p) (fun r => poolKept p r.2).
Proof.
  intros Hp. unfold AsyncAddTransaction.
  set (k := if IsReward tx then _ else _). assert (poolKept p k.2) as Hk.
  { unfold k. destruct (IsReward tx); [|by apply poolKept_refl]. destruct (reward_get_ok (tx_Hash tx) (bonPool p) (pv_reward _ Hp)) as [Hr _].
    destruct (reward_get _ _) as [found bp]. cbn [snd] in *. constructor; [|by apply contKept_refl, Hp]. constructor; [apply Hp|done|apply Hp]. }
  destruct k as [known p1]. cbn [snd] in Hk. destruct known; [done|]. destruct (cacheContains _ _); [done|].
  destruct (v_validate v tx false) as [u|e|msg] eqn:E; [|done|exists tx; split; [left|done]].
  destruct Hk as [[I1 I2 I3] K]. constructor; [|done]. constructor; [done|done|]. cbn [asyncAdds setAsync snd].
  intros h x [[-> ->]|[_ Hx]]%cacheAdd_held; [done|by apply I3].
Qed.

Lemma batchAdd_ok v txs p : poolInv p -> poolRuns v txs false (batchAdd v txs p) (fun r => poolKept p r.2).
Proof.
  revert p. induction txs as [|tx txs IH]; intros p Hp; cbn [batchAdd]; [by apply poolKept_refl|].
  pose proof (async_ok v tx p Hp) as Ha. destruct (AsyncAddTransaction v tx p) as [[[e|] p1]|e|msg]; cbn [obind fst snd poolRuns] in *; [done| |done|].
  - specialize (IH p1 (pk_inv _ _ Ha)). destruct (batchAdd v txs p1) as [[err p']|e|msg]; [by eapply poolKept_trans|done|].
    destruct IH as (x & Hx & E). exists x. split; [by right|done].
  - destruct Ha as (x & ->%list_elem_of_singleton & E). exists tx. split; [left|done].
Qed.

Lemma removeAll_ok hs p : poolInv p -> exists p', removeAll hs p = Ok p' /\ poolKept p p'.
Proof.
  revert p. induction hs as [|h hs IH]; intros p Hp; cbn [removeAll]; [by exists p; split; [|apply poolKept_refl]|]. unfold txpool_remove.
  destruct (container_remove_ok (received p) h (pv_received _ Hp)) as (c & -> & Hk & _). cbn [obind].
  match goal with |- context [removeAll hs ?q] => assert (poolKept p q) as Hq end.
  { constructor; [|done]. constructor; cbn [received bonPool asyncAdds setAsync setReceived setBon]; [apply Hk|by apply reward_remove_ok, Hp|].
    intros k x [_ Hx]%cacheRemove_held. by apply (pv_async _ Hp). }
  destruct (IH _ (pk_inv _ _ Hq)) as (p' & -> & Hk'). exists p'. split; [done|by eapply poolKept_trans].
Qed.

Lemma received_kept p c : poolInv p -> kept (received p) c -> poolKept p (setReceived c p).
Proof. intros [_ Hr Ha] Hk. constructor; [|done]. constructor; [apply Hk|done|done]. Qed.

Lemma RemoveFromPool_ok v hs p : poolInv p -> exists p', RemoveFromPool v hs p = Ok p' /\ poolKept p p'.
Proof.
  intros Hp. unfold RemoveFromPool. destruct (removeAll_ok hs p Hp) as (p1 & -> & Hk). cbn [obind].
  destruct (promote_ok v (received p1) (pv_received _ (pk_inv _ _ Hk))) as (c & -> & Hc). cbn [obind]. eexists. split; [done|].
  eapply poolKept_trans; [done|]. apply received_kept; [apply Hk|done].
Qed.

Lemma BackToPool_ok v txs p : poolInv p -> Forall addable txs -> exists p', BackToPool v txs p = Ok p' /\ poolKept p p'.
Proof.
  intros Hp Ht. revert p Hp. induction Ht as [|tx txs Hx _ IH]; intros p Hp; cbn [BackToPool]; [by exists p; split; [|apply poolKept_refl]|].
  destruct (tryAdd_ok v tx p Hp Hx) as (ok & err & p1 & -> & Hk & _). cbn [obind snd]. destruct (IH p1 (pk_inv _ _ Hk)) as (p' & -> & Hk').
  exists p'. split; [done|by eapply poolKept_trans].
Qed.

Lemma clear_rewards_ok v keys bp : rewardInv bp -> exists bp', eachBlock (fun st => st) (clearReward v) keys bp = Ok bp' /\ rewardInv bp'.
Proof.
  revert bp. induction keys as [|k keys IH]; intros bp Hb; cbn [eachBlock]; [by exists bp|]. destruct (cachePeek _ _); [|by apply IH].
  unfold clearReward at 1. destruct (_ || _); cbn [obind fst snd]; [apply IH; by apply removeByBlockHash_ok|by apply IH].
Qed.

Lemma GetTransaction_ok reward h p : poolInv p -> poolKept p (GetTransaction reward h p).2.
Proof.
  intros Hp. unfold GetTransaction. destruct (reward_get_ok h (bonPool p) (pv_reward _ Hp)) as [Hr _]. destruct (reward_get h (bonPool p)) as [found bp]. cbn [snd] in Hr.
  assert (poolKept p (setBon bp p)) as Hk by (constructor; [|by apply contKept_refl, Hp]; constructor; [apply Hp|done|apply Hp]).
  destruct (_ || _); [done|]. destruct (container_get _ _); [done|]. pose proof (cacheGet_keeps h (asyncAdds (setBon bp p))) as Hg. destruct (cacheGet _ _) as [x a]. cbn [snd] in *.
  constructor; [|by apply contKept_refl, Hp]. constructor; [apply Hp|done|]. intros k y Hy. cbn [asyncAdds setAsync] in Hy. rewrite Hg in Hy. by apply (pv_async _ Hp).
Qed.

(** ** A node's requests *)

Inductive poolRequest :=
| PAdd (tx : Transaction)
| PBatch (txs : list Transaction)
| PRemove (hs : list Hash)
| PBack (txs : list Transaction)
| PPromote
| PClear
| PClearRewards
| PGet (reward : bool) (h : Hash).

Definition runPool v (req : poolRequest) p : outcome string txPool :=
  match req with
  | PAdd tx => r <-! AddTransaction v tx p ;; Ok r.2
  | PBatch txs => r <-! batchAdd v txs p ;; Ok r.2
  | PRemove hs => RemoveFromPool v hs p
  | PBack txs => BackToPool v txs p
  | PPromote => c <-! promoteQueueToPending v (received p) ;; Ok (setReceived c p)
  | PClear => c <-! clearRoute v (received p) ;; Ok (setReceived c p)
  | PClearRewards => ClearRewardTxs v p
  | PGet reward h => Ok (GetTransaction reward h p).2
  end.

(** The transactions a request has validated, and whether as for the pool. *)
Definition toValidate (req : poolRequest) : list Transaction * bool :=
  match req with PAdd tx => ([tx], true) | PBatch txs => (txs, false) | _ => ([], false) end.

(** What the validators admit has a sender and a gas price, and so have the
    transactions that come back from blocks. *)
Definition sound v (req : poolRequest) : Prop :=
  validView v /\ match req with PBack txs => Forall addable txs | _ => True end.

Lemma runPool_ok v req p :
  poolInv p -> sound v req -> poolRuns v (toValidate req).1 (toValidate req).2 (runPool v req p) (poolKept p).
Proof.
  intros Hp [Hv Hs]. destruct req as [tx|txs|hs|txs| | | |reward h]; cbn [runPool toValidate fst snd].
  - pose proof (add_ok v tx p Hp Hv) as Ha. by destruct (AddTransaction v tx p) as [[[ok err] p']|e|msg].
  - pose proof (batchAdd_ok v txs p Hp) as Ha. by destruct (batchAdd v txs p) as [[err p']|e|msg].
  - by destruct (RemoveFromPool_ok v hs p Hp) as (p' & -> & Hk).
  - by destruct (BackToPool_ok v txs p Hp Hs) as (p' & -> & Hk).
  - destruct (promote_ok v (received p) (pv_received _ Hp)) as (c & -> & Hk). by apply received_kept.
  - destruct (clearRoute_ok v (received p) (pv_received _ Hp)) as (c & -> & Hk). by apply received_kept.
  - unfold ClearRewardTxs, forEachByBlock. destruct (clear_rewards_ok v (cacheKeys (blockHashIndex (bonPool p))) (bonPool p) (pv_reward _ Hp)) as (bp & -> & Hb). cbn [obind].
    constructor; [|by apply contKept_refl, Hp]. constructor; [apply Hp|done|apply Hp].
  - by apply GetTransaction_ok.
Qed.

(** The pools that come about, from an empty one. *)
Inductive reached (p0 : txPool) : txPool -> Prop :=
| reached_start : reached p0 p0
| reached_step v req p p' : reached p0 p -> sound v req -> runPool v req p = Ok p' -> reached p0 p'.

Definition emptyPool p : Prop :=
  txsMap (received p) = ∅ /\ waitingMap (pending (received p)) = ∅ /\ pd_size (pending (received p)) = 0 /\ queue (received p) = ∅ /\
  0 < pd_limit (pending (received p)) /\
  (forall h, held (rp_pool (bonPool p)) h = None) /\ (forall h, held (blockHashIndex (bonPool p)) h = None) /\ (forall h, held (asyncAdds p) h = None).

Lemma emptyPool_inv p : emptyPool p -> poolInv p /\ sized (received p).
Proof.
  intros (Et & Ew & Es & Eq & Hl & H1 & H2 & H3). split.
  - constructor; [|constructor|]; try (intros h x; by rewrite ?H1, ?H2, ?H3). constructor; unfold held_; rewrite ?Ew, ?Et, ?Eq.
    + apply pendingInv_empty.
    + intros tx [Hx|Hx]; [by apply not_elem_of_nil in Hx|done].
    + done.
    + done.
    + done.
    + done.
    + rewrite map_size_empty. lia.
  - unfold sized, held_. rewrite Ew, Es. done.
Qed.

Lemma reached_kept p0 p : poolInv p0 -> reached p0 p -> poolKept p0 p.
Proof.
  intros H0. induction 1 as [|v req p p' _ IH Hs E]; [by apply poolKept_refl|]. pose proof (runPool_ok v req p (pk_inv _ _ IH) Hs) as Hk.
  rewrite E in Hk. by eapply poolKept_trans.
Qed.

(** C19: however transactions were added, fetched, removed, put back, promoted
    and evicted since the pool was empty, the next such request returns, unless the
    validator panics on a transaction it is asked to add.  Assumed are that what the
    validator admits, or comes back from blocks, has a sender and a gas price, which is
    proved of the node's validators.  Every pending or queued transaction is found by
    its hash; each sender's pending transactions are in the order of their nonces, with
    no nonce twice; the queue has one transaction per sender and nonce and at most one
    more than its limit; and if the skip list counts deletions as documented, the size
    is the number of pending transactions and below the limit. *)
Theorem pool_reached_safe p0 p :
  emptyPool p0 -> reached p0 p ->
  (forall v req, sound v req ->
    match runPool v req p with
    | Ok _ => True
    | Err _ => False
    | Panic msg => exists tx, tx ∈ (toValidate req).1 /\ v_validate v tx (toValidate req).2 = Panic msg
    end) /\
  (forall tx, tx ∈ held_ (received p) \/ queue (received p) !! tx_Hash tx = Some tx -> container_get (tx_Hash tx) (received p) = Some tx) /\
  (forall a l, waitingMap (pending (received p)) !! a = Some l -> good a (elems l)) /\
  (forall h k x y, queue (received p) !! h = Some x -> queue (received p) !! k = Some y -> tx_Source x = tx_Source y -> tx_Nonce x = tx_Nonce y -> x = y) /\
  Z.of_nat (size (queue (received p))) <= Z.max 0 (queueLimit (received p0) + 1) /\
  (SkipExact Transaction Compare ->
   pd_size (pending (received p)) = Z.of_nat (length (held_ (received p))) /\ pd_size (pending (received p)) < pd_limit (pending (received p0))).
Proof.
  intros H0 Hr. destruct (emptyPool_inv p0 H0) as [I0 S0]. destruct (reached_kept p0 p I0 Hr) as [Hp Hk]. pose proof (pv_received _ Hp) as Hc.
  split; [intros v req Hs; pose proof (runPool_ok v req p Hp Hs) as Hk'; by destruct (runPool v req p)|]. split; [apply (cv_known _ Hc)|].
  split; [intros a l; apply (pi_good _ (cv_pending _ Hc))|]. split; [|split].
  - intros h k x y Hx Hy Es En. pose proof (cv_one _ Hc h k x y Hx Hy Es En) as <-. rewrite Hx in Hy. by injection Hy.
  - rewrite <- (kp_queue _ _ Hk). apply (cv_len _ Hc).
  - intros Hex. rewrite <- (kp_limit _ _ Hk). apply (kp_size _ _ Hk); [done| |done]. apply H0.
Qed.

(** C21: adding a transaction, or putting back one of a removed block, answers
    success exactly if the chain and the pool did not have it and the pool has it
    afterwards. *)
Theorem pool_add_answers v tx p :
  poolInv p -> addable tx ->
  exists ok err p', tryAdd v tx p = Ok (ok, err, p') /\ (ok = true <-> err = None) /\
    (ok = true <-> ~ has_ p (tx_Hash tx) /\ v_hasReceipt v (tx_Hash tx) = false /\ has_ p' (tx_Hash tx)).
Proof. intros Hp Ha. destruct (tryAdd_ok v tx p Hp Ha) as (ok & err & p' & E & _ & H1 & H2). by exists ok, err, p'. Qed.

(** ** Packing *)

Definition sizes (txs : list Transaction) : Z := foldr (fun tx n => Size tx + n) 0 txs.

Lemma sizes_app l1 l2 : sizes (l1 ++ l2) = sizes l1 + sizes l2.
Proof. induction l1 as [|x l1 IH]; simpl; [lia|]. fold (sizes (l1 ++ l2)) (sizes l1). lia. Qed.

Lemma Size_pos tx : 0 < Size tx.
Proof. unfold Size, txFixSize. lia. Qed.

(** The transactions a miner packs. *)
Definition eligible p tx : Prop :=
  gasPriceLowerBound p <= price tx /\
  (IgnoreVmCall p && ((tx_Type tx =? TransactionTypeContractCreate) || (tx_Type tx =? TransactionTypeContractCall)) = false).
#[local] Instance eligible_dec p tx : Decision (eligible p tx) := _.

(** Of [l] the first ones are taken, as many as fit. *)
Definition fills (l taken : list Transaction) (used : Z) : Prop :=
  exists rest, l = taken ++ rest /\ used + sizes taken <= txAccumulateSizeMaxPerBlock /\
    forall tx, head rest = Some tx -> txAccumulateSizeMaxPerBlock < used + sizes taken + Size tx.

Lemma handOut_pack p vis txs0 acc :
  Forall isReady vis -> acc <= txAccumulateSizeMaxPerBlock ->
  exists taken acc', handOut (packPending (gasPriceLowerBound p) (IgnoreVmCall p)) vis (txs0, acc) = Ok (txs0 ++ taken, acc') /\ fills (filter (eligible p) vis) taken acc.
Proof.
  intros Hv. revert txs0 acc. induction Hv as [|tx vis [a [_ [pr Hpr]]] _ IH]; intros txs0 acc Ha; cbn [handOut].
  - exists [], acc. rewrite app_nil_r. split; [done|]. exists []. simpl. split; [done|]. split; [lia|done].
  - unfold packPending at 1. rewrite Hpr. cbn [deref_ obind]. assert (price tx = pr) as Ep by (unfold price; by rewrite Hpr). rewrite filter_cons.
    destruct (Z.ltb_spec pr (gasPriceLowerBound p)) as [Hlt|Hge].
    { cbn [obind fst snd negb]. rewrite decide_False by (intros [Hl _]; lia). by apply IH. }
    destruct (IgnoreVmCall p && _) eqn:Evm; [cbn [obind fst snd negb]; rewrite decide_False by (intros [_ Hl]; congruence); by apply IH|].
    rewrite decide_True by (split; [lia|done]). cbn [fst snd]. destruct (Z.leb_spec (acc + Size tx) txAccumulateSizeMaxPerBlock) as [Hfit|Hfull]; cbn [obind fst snd negb].
    + destruct (IH (txs0 ++ [tx]) (acc + Size tx) Hfit) as (taken & acc' & -> & rest & El & Hs & Hn). exists (tx :: taken), acc'. rewrite <- app_assoc. split; [done|].
      exists rest. split; [by rewrite El|]. simpl. fold (sizes taken). split; [lia|]. intros y Hy. specialize (Hn y Hy). lia.
    + exists [], (acc + Size tx). rewrite app_nil_r. split; [done|]. exists (tx :: filter (eligible p) vis). split; [done|]. simpl. split; [lia|]. intros y [= <-]. lia.
Qed.

(** The first reward transactions of the blocks. *)
Definition blockFirsts bp (keys : list Hash) : list Transaction := omap (fun k => held (blockHashIndex bp) k ≫= head) keys.

Lemma packRewards_ok bp keys txs0 acc :
  rewardInv bp -> acc <= txAccumulateSizeMaxPerBlock ->
  exists taken acc', eachBlock (fun st => st.2) packReward keys (txs0, acc, bp) = Ok (txs0 ++ taken, acc', bp) /\ fills (blockFirsts bp keys) taken acc /\
    (acc' = acc + sizes taken /\ taken = blockFirsts bp keys \/ txAccumulateSizeMaxPerBlock < acc' /\ taken <> blockFirsts bp keys).
Proof.
  intros Hb. revert txs0 acc. induction keys as [|k keys IH]; intros txs0 acc Ha; cbn [eachBlock blockFirsts omap list_omap].
  - exists [], acc. rewrite app_nil_r. split; [done|]. split; [exists []; simpl; split; [done|]; split; [lia|done]|]. left. simpl. split; [lia|done].
  - cbn [snd]. rewrite cachePeek_held. destruct (held (blockHashIndex bp) k) as [txs|] eqn:Ek; [|by apply IH]. cbn [mbind option_bind].
    destruct (ri_index _ Hb k txs Ek) as [Hne _]. destruct txs as [|tx txs]; [done|]. cbn [head packReward]. fold (blockFirsts bp keys).
    destruct (Z.leb_spec (acc + Size tx) txAccumulateSizeMaxPerBlock) as [Hfit|Hfull]; cbn [obind fst snd].
    + destruct (IH (txs0 ++ [tx]) (acc + Size tx) Hfit) as (taken & acc' & -> & (rest & El & Hs & Hn) & Hend). exists (tx :: taken), acc'. rewrite <- app_assoc. split; [done|].
      simpl sizes. split; [exists rest; split; [cbn [app]; by rewrite <- El|]; simpl; fold (sizes taken); split; [lia|]; intros y Hy; specialize (Hn y Hy); lia|].
      destruct Hend as [[-> ->]|[Hgt Hx]]; [left; split; [simpl; fold (sizes (blockFirsts bp keys)); lia|done]|right; split; [done|]]. intros [= E]. done.
    + exists [], (acc + Size tx). rewrite app_nil_r. split; [done|]. split; [|right; split; [lia|done]]. exists (tx :: blockFirsts bp keys). split; [done|]. simpl. split; [lia|]. intros y [= <-]. lia.
Qed.

(** What is taken of a sender is in the order of nonces. *)
Lemma packed_sorted p m vis picked used a :
  pendingInv m -> merged (elems <$> m) vis -> fills (filter (eligible p) vis) picked used -> StronglySorted nonceLt (filter (fun tx => tx_Source tx = Some a) picked).
Proof.
  intros Hi Hv (rest & El & _).
  assert (StronglySorted nonceLt (filter (fun tx => tx_Source tx = Some a) vis)) as Hall.
  { rewrite (merged_of _ vis a Hv), lookup_fmap; [destruct (m !! a) as [l|] eqn:El'; [by apply (lists_sorted _ a l Hi)|constructor]|].
    intros b r. rewrite lookup_fmap. intros (l & Hl & ->)%fmap_Some. apply Forall_forall. intros x Hx. by apply (all_source _ b l x Hi Hl). }
  apply (StronglySorted_filter _ (eligible p)) in Hall. rewrite list_filter_filter in Hall.
  rewrite (filter_ext_in _ (fun x => tx_Source x = Some a /\ eligible p x)) in Hall by (intros; tauto).
  rewrite <- list_filter_filter, El, filter_app in Hall. by apply StronglySorted_app_1_l in Hall.
Qed.

(** C20: packing always returns.  It takes the first reward transaction of each block,
    as many as fit into a block; if all fit, it then merges the senders' lists, the
    dearest of their next transactions first, leaves out the ones that are too cheap
    or not wanted, and takes as many of the rest as fit.  Each sender's packed
    transactions are in the order of their nonces. *)
Theorem packing_ok p :
  poolInv p -> (pd_size (pending (received p)) = 0 -> held_ (received p) = []) ->
  exists rewards picked vis, packTx p = Ok (rewards ++ picked) /\
    fills (blockFirsts (bonPool p) (cacheKeys (blockHashIndex (bonPool p)))) rewards 0 /\
    merged (elems <$> waitingMap (pending (received p))) vis /\ vis ≡ₚ held_ (received p) /\
    sizes (rewards ++ picked) <= txAccumulateSizeMaxPerBlock /\
    (rewards = blockFirsts (bonPool p) (cacheKeys (blockHashIndex (bonPool p))) -> fills (filter (eligible p) vis) picked (sizes rewards)) /\
    (forall a, StronglySorted nonceLt (filter (fun tx => tx_Source tx = Some a) picked)).
Proof.
  intros Hp Hz. pose proof (cv_pending _ (pv_received _ Hp)) as Hi. unfold packTx, forEachByBlock. cbn [snd].
  destruct (packRewards_ok (bonPool p) (cacheKeys (blockHashIndex (bonPool p))) [] 0 (pv_reward _ Hp)) as (rewards & acc & -> & Hfill & Hend); [done|]. cbn [obind app].
  destruct (peek_ok (packPending (gasPriceLowerBound p) (IgnoreVmCall p)) (pending (received p)) Hi) as (vis & Hv & Epeek).
  pose proof (merged_bag _ _ Hv) as Hbag. rewrite fmap_bag in Hbag. change (vis ≡ₚ held_ (received p)) in Hbag.
  assert (Forall isReady vis) as Hready by (rewrite Hbag; apply Forall_forall; intros x Hx; by apply (all_ready _ x Hi)).
  assert (sizes rewards <= txAccumulateSizeMaxPerBlock) as Hrew by (destruct Hfill as (rest & _ & Hs & _); lia).
  assert (forall picked, fills (filter (eligible p) vis) picked (sizes rewards) -> sizes (rewards ++ picked) <= txAccumulateSizeMaxPerBlock) as Hsum.
  { intros picked (rest & _ & Hs & _). by rewrite sizes_app. }
  destruct (Z.ltb_spec acc txAccumulateSizeMaxPerBlock) as [Hlt|Hge].
  - destruct Hend as [[-> Er]|[? _]]; [|lia]. destruct (handOut_pack p vis rewards (0 + sizes rewards) Hready ltac:(lia)) as (picked & acc' & E & Hf). rewrite Epeek.
    change (0 + sizes rewards) with (sizes rewards) in *.
    destruct (Z.eqb_spec (pd_size (pending (received p))) 0) as [E0|_].
    + rewrite (Hz E0) in Hbag. apply Permutation_nil_r in Hbag as ->. exists rewards, [], []. cbn [obind fst]. rewrite app_nil_r. split; [done|].
      assert (fills (filter (eligible p) []) [] (sizes rewards)) as Hf0 by (exists []; simpl; split; [done|]; split; [lia|done]).
      split; [done|]. split; [done|]. split; [by rewrite (Hz E0)|]. split; [lia|]. split; [done|]. intros a. constructor.
    + rewrite E. cbn [obind fst]. exists rewards, picked, vis. split; [done|]. split; [done|]. split; [done|]. split; [done|]. split; [by apply Hsum|]. split; [done|]. intros a. by eapply packed_sorted.
  - exists rewards, [], vis. rewrite app_nil_r. split; [done|]. split; [done|]. split; [done|]. split; [done|]. split; [done|]. split; [|intros a; constructor].
    intros Er. exists (filter (eligible p) vis). split; [done|]. simpl. split; [lia|]. intros tx _. pose proof (Size_pos tx). destruct Hend as [[-> _]|[_ ?]]; [lia|done].
Qed.
End pool.

(** ** A list as a skip list, and maps that are ranged over in their own order *)

Section lists.
Context {A : Type} (cmp : A -> A -> Z).

#[local] Instance listSkip : SkipList A cmp := {|
  skip := list A;
  skip_New := [];
  skip_Get x l := head (filter (fun y => cmp x y = 0) l);
  skip_Insert x l := filter (fun y => 0 < cmp x y) l ++ x :: filter (fun y => cmp x y < 0) l;
  skip_Delete x l := (filter (fun y => cmp x y = 0) l, filter (fun y => 0 < cmp x y) l ++ filter (fun y => cmp x y < 0) l);
  skip_ByPosition i l := l !! Z.to_nat i;
  skip_Iter l := l;
  skip_Len l := Z.of_nat (length l);
|}.

Lemma splits_filter x l l1 l2 l3 :
  splits cmp x l l1 l2 l3 -> filter (fun y => 0 < cmp x y) l = l1 /\ filter (fun y => cmp x y = 0) l = l2 /\ filter (fun y => cmp x y < 0) l = l3.
Proof.
  intros (-> & H1 & H2 & H3). rewrite Forall_forall in H1, H2, H3. rewrite !filter_app. split_and!.
  - rewrite filter_all, !filter_none, !app_nil_r by (intros y Hy; first [by apply H1|apply H2 in Hy; lia|apply H3 in Hy; lia]). done.
  - rewrite (filter_none _ l1), (filter_all _ l2), (filter_none _ l3), app_nil_r by (intros y Hy; first [apply H1 in Hy; lia|by apply H2|apply H3 in Hy; lia]). done.
  - rewrite (filter_none _ l1), (filter_none _ l2), (filter_all _ l3) by (intros y Hy; first [apply H1 in Hy; lia|apply H2 in Hy; lia|by apply H3]). done.
Qed.

#[local] Instance listSkip_laws : SkipLaws A cmp.
Proof.
  refine {| elems := fun l : skip A cmp => l |}; try done.
  - intros s i. cbn. by rewrite Nat2Z.id.
  - intros x s l1 l2 l3 (_ & E & _)%splits_filter. cbn. by rewrite E.
  - intros x s l1 l2 l3 (E1 & _ & E3)%splits_filter. cbn. by rewrite E1, E3.
  - intros x s l1 l2 l3 (E1 & _ & E3)%splits_filter. cbn. by rewrite E1, E3.
  - intros x s l1 y l3 (_ & E & _)%splits_filter. done.
Defined.

#[local] Instance listSkip_exact : SkipExact A cmp.
Proof. constructor. intros x s l1 l3 (_ & E & _)%splits_filter. done. Qed.
End lists.

#[local] Instance plainMaps : GoMaps := {| rangeOver K A _ _ m := map_to_list m |}.
#[local] Instance plainMaps_laws : GoMapsLaws.
Proof. by constructor. Qed.

(** ** Samples *)

#[local] Existing Instances mapLru mapLruLaws mapLruMore mapLruMoreLaws listSkip listSkip_laws listSkip_exact.

#[local] Instance mapLruPeek V : LruPeek Hash V :=
  Build_LruPeek Hash V (mapLru V) (fun k (c : gmap Hash V) => bool_decide (is_Some (c !! k))) (fun k (c : gmap Hash V) => c !! k) (fun c : gmap Hash V => Z.of_nat (size c)).
#[local] Instance mapLruPeekLaws V : LruPeekLaws Hash V.
Proof. by constructor. Qed.

Definition samplePending (n : Z) (gasPrice : Z) (h : Hash) : Transaction :=
  {| tx_Data := []; tx_Value := Some 0; tx_Nonce := n; tx_Target := None; tx_Type := TransactionTypeTransfer; tx_GasLimit := Some 1000; tx_GasPrice := Some gasPrice;
     tx_ExtraData := []; tx_Sign := Some []; tx_Source := Some (BigToAddress 7); tx_Hash := h |}.

Definition sampleTx1 := samplePending 1 500 (smallHash 11).
Definition sampleTx2 := samplePending 2 900 (smallHash 12).

Definition samplePool0 : txPool := mkPool (mkRewardPool ∅ ∅) (newSimpleContainer 3 2 60) ∅ 400 false.
Definition sampleView : chainView :=
  mkView (fun _ => 0) (fun _ => false) (fun _ => false) (fun _ => true)
    (fun tx _ => if bool_decide (is_Some (tx_Source tx) /\ is_Some (tx_GasPrice tx)) then Ok tt else Err (mkErr "invalid" RSFail)) 0.

(** The second transaction comes first and waits in the queue. *)
Definition afterAdds : outcome string txPool :=
  p1 <-! runPool sampleView (PAdd sampleTx2) samplePool0 ;;
  p2 <-! runPool sampleView (PAdd sampleTx1) p1 ;;
  runPool sampleView PPromote p2.
Definition samplePool : txPool := match afterAdds with Ok p => p | _ => samplePool0 end.

Lemma samplePool0_empty : emptyPool samplePool0.
Proof. unfold emptyPool. cbn. split_and!; try done. Qed.

Lemma sampleView_valid : validView sampleView.
Proof.
  intros tx b. cbn. case_bool_decide as E; [|done]. intros _. right. destruct E as [[a Ha] Hp]. by exists a.
Qed.

Lemma sampleView_sound req : match req with PAdd _ | PBatch _ | PPromote | PRemove _ => sound sampleView req | _ => True end.
Proof. destruct req; try done; (split; [apply sampleView_valid|done]). Qed.

Lemma samplePool_run : afterAdds = Ok samplePool.
Proof.
  assert (match afterAdds with Ok _ => true | _ => false end = true) as E by (vm_compute; reflexivity).
  unfold samplePool. by destruct afterAdds.
Qed.

#[local] Opaque samplePool.

Lemma samplePool_reached : reached samplePool0 samplePool.
Proof.
  pose proof samplePool_run as E. unfold afterAdds in E. apply obind_Ok_inv in E as (p1 & E1 & E). apply obind_Ok_inv in E as (p2 & E2 & E3).
  eapply reached_step; [|apply (sampleView_sound PPromote)|exact E3]. eapply reached_step; [|apply (sampleView_sound (PAdd sampleTx1))|exact E2].
  eapply reached_step; [apply reached_start|apply (sampleView_sound (PAdd sampleTx2))|exact E1].
Qed.

Lemma samplePool_inv : poolInv samplePool.
Proof. eapply pk_inv, reached_kept; [apply emptyPool_inv, samplePool0_empty|apply samplePool_reached]. Qed.

Lemma pool_reached_safe_witness :
  emptyPool samplePool0 /\ reached samplePool0 samplePool /\
  (exists p', runPool sampleView (PRemove [smallHash 11]) samplePool = Ok p') /\ pd_size (pending (received samplePool)) < 3.
Proof.
  split; [apply samplePool0_empty|]. split; [apply samplePool_reached|].
  destruct (pool_reached_safe samplePool0 samplePool samplePool0_empty samplePool_reached) as (H1 & _ & _ & _ & _ & H2).
  split.
  { specialize (H1 sampleView (PRemove [smallHash 11]) (sampleView_sound (PRemove [smallHash 11]))).
    destruct (runPool sampleView (PRemove [smallHash 11]) samplePool) as [p'|e|msg]; [by exists p'|destruct H1|].
    destruct H1 as (tx & Hx & _). by apply not_elem_of_nil in Hx. }
  destruct (H2 (listSkip_exact Compare)) as [_ H3]. assert (pd_limit (pending (received samplePool0)) = 3) as El by reflexivity. rewrite El in H3. assumption.
Defined.

Lemma pool_add_answers_witness :
  exists ok err p', tryAdd sampleView (samplePending 3 450 (smallHash 13)) samplePool = Ok (ok, err, p') /\ (ok = true <-> err = None).
Proof.
  destruct (pool_add_answers sampleView (samplePending 3 450 (smallHash 13)) samplePool samplePool_inv) as (ok & err & p' & E & H & _).
  - right. exists (BigToAddress 7). split; [reflexivity|eexists; reflexivity].
  - exists ok, err, p'. exact (conj E H).
Defined.

Lemma packing_ok_witness : pd_size (pending (received samplePool)) = 2 /\ exists txs, packTx samplePool = Ok txs /\ sizes txs <= txAccumulateSizeMaxPerBlock.
Proof.
  assert (pd_size (pending (received samplePool)) = 2) as E by (vm_compute; reflexivity). split; [done|].
  destruct (packing_ok samplePool samplePool_inv) as (rewards & picked & vis & E1 & _ & _ & _ & Hs & _); [rewrite E; discriminate|]. exists (rewards ++ picked). exact (conj E1 Hs).
Defined.

(** ** The interfaces meet *)

(** The validators of [TxValidate] admit what the pool can work with. *)
Lemma validators_admit `{MinerCodecs} `{SignEnv} `{Codec BlackOperator} `{ValidateEnv} `{Governor} `{RewardEnv} `{GroupSigEnv} tx b :
  getValidator tx b = Ok tt -> addable tx.
Proof.
  intros Hv. destruct (IsReward tx) eqn:Er; [by left|right]. unfold IsReward in Er. apply Z.eqb_neq in Er.
  destruct (getValidator_inv tx b Hv Er) as ([a Ha] & Hg & _). exists a. split; [done|]. unfold gasValidate in Hg.
  destruct (tx_GasLimit tx); [|done]. destruct (tx_GasPrice tx); [by eexists|]. by destruct (vguard _ _).
Qed.

(** Removing a queued transaction takes the pending one of its sender and nonce out of
    the lists, and that one stays known by its hash: it can neither be packed nor added
    again until it times out. *)
Definition rivals : outcome string txPool :=
  p1 <-! runPool sampleView (PAdd sampleTx2) samplePool0 ;;
  p2 <-! runPool sampleView (PAdd sampleTx1) p1 ;;
  runPool sampleView (PAdd (samplePending 2 800 (smallHash 14))) p2.

Definition packedNonces (p : txPool) : list (Z * Z) := match packTx p with Ok txs => (fun tx => (tx_Nonce tx, price tx)) <$> txs | _ => [] end.

Definition strands (p : txPool) : list (Z * Z) * list (Z * Z) * bool :=
  match runPool sampleView (PRemove [smallHash 12]) p with
  | Ok p' => (packedNonces p, packedNonces p', contains (smallHash 14) (received p'))
  | _ => ([], [], false)
  end.

Lemma removal_strands_other : (p <-! rivals ;; Ok (strands p)) = Ok ([(1, 500); (2, 800)], [(1, 500)], true).
Proof. vm_compute. reflexivity. Qed.
